(* ===== verification/_CoqProject ===== *)
-Q . S2P
Prelude.v
Text.v
Crates.v
Protocol.v
PortablePath.v
Repository.v
Snapshot.v
RunState.v
JobSpec.v
CanonicalJson.v
Scheduler.v
NodeState.v
PlacementBinding.v
WorkerReports.v
WorkerRun.v
Cleanup.v
Onboarding.v
ControllerDb.v
Planning.v
FleetNodes.v
Leases.v
NodeWrites.v
Uploads.v
CompletionEvidence.v
RunControl.v
FleetView.v
Pairings.v
TxLogic.v
Changes.v
ChangeProofs.v
MethodProofs.v
RunProofs.v
PairingProofs.v
ControllerCalls.v
RunSafety.v
Scenario.v
ControllerSafety.v
PairingSafety.v
LogSafety.v
PlanSafety.v
FleetSafety.v
ProvisionModel.v
ProvisionStore.v
ProvisionEngine.v
ProvisionSafety.v
WorkerEnv.v
WorkerClient.v
WorkerProcess.v
WorkerSource.v
WorkerExecutor.v
WorkerRuntime.v
WorkerNode.v
WorkerIdentity.v
PairingLedger.v
WorkerPairing.v
WorkerSupervisor.v
WorkerControl.v
WorkerLogic.v
ProtectedStore.v
CredentialSafety.v
WorkerLimits.v
WorkerEvidence.v
WorkerHonest.v
WorkerSafety.v
WorkerReporting.v
WorkerScenario.v
WorkerConfined.v
WorkerClaims.v
WorkerBoot.v
DaemonScenario.v
PairingScenario.v
WorkerApi.v
ListenerSafety.v
WorkerWire.v
WireSafety.v
Dialogue.v
ListenerScenario.v
Failures.v
ClientApi.v
ClientSafety.v
