(* ===== verification/Prelude.v ===== *)
(** * ClusterYourCodex: a verification of its control plane

    ClusterYourCodex runs jobs of a coding agent on a small fleet of machines.  A
    controller (crates/cyc-controller) keeps nodes, jobs, leases and evidence in SQLite
    and places each job on a node; workers (crates/cyc-worker) poll it, execute the job
    and upload logs, artifacts and a completion; the desktop application adds computers
    through a provisioning engine (crates/cyc-provision).  The messages and validators
    that all of them share are in crates/cyc-protocol and the placement algorithm is in
    crates/cyc-scheduler.  This library models the deterministic core of these crates as
    executable functions and proves what makes it correct.

    ** How the parts interact

    A job ([JobSpec]) is validated, normalised and digested ([CanonicalJson]).  The
    controller reads its node documents ([NodeState], [FleetNodes]), lets the scheduler
    choose ([Scheduler]) and freezes the choice in a binding ([PlacementBinding],
    [Planning]).  A submission writes the job, a dispatch lease and a placement attempt
    ([RunControl], [Leases]); a worker with a current credential ([Pairings],
    [NodeWrites]) claims the run, reports its state, uploads ([Uploads]) and completes it
    with evidence that is compared with what was stored ([WorkerRun],
    [CompletionEvidence]); its reservation is held until the job's directory is cleaned
    up ([Cleanup]).  On the worker's side an assignment becomes a checkout
    ([WorkerSource]), step processes ([WorkerExecutor], [WorkerProcess]) whose output is
    uploaded through a client ([WorkerClient]), and one completion ([WorkerRuntime]).
    The daemon around it claims one assignment at a time under a durable marker and
    removes the marker only when the controller accepted the cleanup receipt
    ([WorkerSupervisor]); heartbeats and a lease watchdog share a control block with the
    assignment ([WorkerNode], [WorkerControl]).  Its credential comes from a pairing
    ([WorkerPairing]): the secret is staged in a protected file and recorded in a ledger
    ([PairingLedger]) before the request that binds it is sent, the configuration
    ([WorkerIdentity]) is committed when the controller accepted it, and the
    acknowledgement that activates it follows.  Nearly every request first handles
    expired leases ([Leases.expire_leases]) in its own transaction.  Workers and the
    controller talk over HTTP: a worker builds a request ([WorkerWire]), the controller's
    listener authenticates its head, parses it, calls the store and answers ([WorkerApi]),
    and the worker reads the answer ([WorkerClient], [WorkerNode]).  The command line and
    the desktop talk to a second listener on the loopback interface, behind one bearer
    token ([ClientApi]): they see the fleet ([FleetView]), submit, read and cancel jobs,
    pair computers, and follow the cleanup.

    ** The files

    Shared:
    - [Prelude]: results, boolean equality, inversion of successful computations, sorting,
      bounds; [Text]: Rust strings; [Crates]: the third-party crates as type classes with
      their documented laws, and concrete instances.
    cyc-protocol:
    - [Protocol] (the data model of src/lib.rs), [PortablePath], [Repository], [RunState],
      [JobSpec], [CanonicalJson] (its validators and the job digest), [Snapshot]
      (snapshot.rs), [NodeState] (node_state.rs), [PlacementBinding]
      (placement_binding.rs), [WorkerReports] and [WorkerRun] (worker.rs), [Cleanup]
      (cleanup.rs), [Onboarding] (onboarding.rs).
    cyc-scheduler:
    - [Scheduler] (src/lib.rs).
    cyc-controller, src/store.rs, src/worker_api.rs, src/api.rs and src/auth.rs:
    - [ControllerDb]: tables, transactions, errors; [Planning]: the planning decision as a
      pure function; [FleetNodes]: what the scheduler sees; [Leases]: jobs, plans, leases,
      expiry and placing again; [NodeWrites]: node documents and reports; [Uploads]: run
      authorization, logs, artifacts, snapshots; [CompletionEvidence]; [RunControl]: the
      methods on plans, jobs and runs; [FleetView]: the fleet as clients see it;
      [Pairings]: enrollment.
    - [TxLogic]: a weakest-precondition calculus for transactions; [Changes]: every atomic
      change of the database, and the invariant [consistent]; [ChangeProofs],
      [MethodProofs], [RunProofs], [PairingProofs]: each public method composes only such
      changes; [ControllerCalls]: all methods as one type of requests, the step relation
      [calls] and [reachable] controllers.
    - [RunSafety]: preorders that contain every change; [Scenario]: a concrete controller
      driven through a whole job; [ControllerSafety], [PairingSafety], [LogSafety],
      [PlanSafety], [FleetSafety]: the theorems.
    - [WorkerApi]: the listener for workers, from routes to answers, as programs of store
      requests ([prog]), between which other requests may be served ([executes]);
      [ListenerSafety]: the theorems on it (worker_api.rs).
    - [ClientApi]: the listener for clients (api.rs) with its token (auth.rs), as programs
      over the same requests; [ClientSafety]: the theorems on it, and concrete requests.
    cyc-worker:
    - [WorkerEnv]: a worker as a program over operations (requests, files, processes,
      clocks) that an arbitrary environment answers; [WorkerClient] (http.rs);
      [WorkerProcess]: limits, bounded logs, the monitor (process.rs, executor.rs);
      [WorkerSource] (source.rs); [WorkerExecutor]: steps and artifacts (executor.rs,
      artifacts.rs); [WorkerRuntime]: one assignment from its preparation to its
      terminal report (runtime.rs); [WorkerNode]: the node's side of the client, bearer
      tokens (security.rs), the inventory publication and one turn of each loop that runs
      beside an assignment (runtime.rs); [WorkerIdentity]: the configuration, the secrets
      and the locks (config.rs, security.rs); [PairingLedger], [WorkerPairing]: the ledger
      of credentials and the pairing transaction (runtime.rs); [WorkerSupervisor]: the claim loop, the
      active-run guard, the cleanup of a job's directory (runtime.rs) and the boot
      generation (config.rs); [WorkerControl]: the interleavings of the tasks on the
      control block of a run, as a step relation.
    - [WorkerLogic]: a weakest-precondition calculus for these programs, parameterised by
      a discipline on the operations they emit; [WorkerLimits], [WorkerEvidence],
      [WorkerHonest], [WorkerSafety], [WorkerReporting]: the theorems on an assignment and
      what they are proved from; [WorkerConfined]: the frame of an assignment;
      [WorkerClaims], [WorkerBoot]: the theorems on the daemon, across crashes;
      [ProtectedStore]: what protected files may hold after a history with crashes;
      [CredentialSafety]: the theorems on pairing, across crashes;
      [WorkerScenario], [DaemonScenario], [PairingScenario]: concrete environments and
      workers.
    Both sides:
    - [WorkerWire]: the requests that http.rs builds, and how an answer arrives
      ([delivered]); [WireSafety]: a built request is served by its handler; [Dialogue]:
      what a worker hears is what the tables of the controller hold; [ListenerScenario]:
      concrete requests to the controller of [Scenario]; [Failures]: how a controller or a
      worker comes to a standstill.
    cyc-provision:
    - [ProvisionModel] (model.rs, smoke.rs), [ProvisionStore] (store.rs),
      [ProvisionEngine] (engine.rs), [ProvisionSafety]: the theorems.

    ** What the theorems show

    - Controller, for every sequence of requests: the life of a run, the authority of
      accepted requests (each request of a worker, its completions, receipts and pairing
      included), finality of revocation, immutability and integrity of evidence, logs that
      read back complete and stay readable, the reservation of a finished run; a plan is
      created exactly when the pure decision succeeds on the fleet as the expiry of leases
      leaves it, and reads back unchanged; well-formed pairings with idempotent creation;
      a fleet view that agrees with the scheduler; and one way in which the controller
      stops for good ([Failures]).
    - Listener, with other requests served in between: no body is looked at before the
      store accepted a secret of the head, unless the path is encoded; what a worker can
      build reaches its handler without loss; every error of the store is understood as
      what it is; a run that is handed out is accepted by the worker; and an acknowledged
      completion is bound in the tables, with the obligation to clean up, for good.
    - Client listener, with other requests served in between: nothing but a ping is asked of
      the store without the token; a run is only cancelled as it was seen; and a status that
      says that a job's directory was removed is backed by a valid receipt, for good.
    - Planning and scheduling: exact admissibility, the best node is chosen, order
      independence, completeness of explanations, exact scores, exactly when a plan can be
      issued, no substitution of the job between planning and execution.
    - Worker, for every environment that answers honestly: each completion it sends passes
      the protocol's validator and the controller's checks of its source and steps, and
      every assignment ends with a terminal report or an error after one; the exceptions
      are named (an outcome torn by a late cancellation, a step's name with a control
      character, a wall clock that stepped back during the assignment, a lost containment
      proof, a refused state change).  For every environment, the log budget is exact and
      the monitor of a process returns.  [Failures] shows the first two exceptions from
      both sides: a torn completion is sent and refused by every controller, and no
      controller holds a successful completion of a job with such a name.
    - The worker's daemon, stopped at any operation and started again any number of times:
      it claims only when the cleanup of everything that it started was accepted, its
      cleanup receipts say what was seen of the job's directory, and no boot generation is
      issued twice.  Pairing, stopped and repeated likewise, sends a request only for a
      secret that is stored and recorded, never two secrets for one open request, commits
      and acknowledges only accepted credentials, and removes only credentials that the
      ledger gave up.  Every interleaving of the tasks of a run on its control block is one
      of an object with atomic steps.
    - Protocol: declarative specifications of the validators, termination of the run life
      cycle, containment of paths, public repositories, a digest that ignores the order of
      object entries, completions and reports that are fit to be persisted.
    - Provisioning, for every driver and clock: a sound journal in which every call changes
      at most its own computer and only a finished teardown removes one, drivers asked only
      with the record that is stored and for what it allows, exactly which failures are
      recorded and as what, what a ready computer proves.

    ** How the code is modelled

    Unsigned integers are [N] and signed ones [Z], with saturation, clamping and checked
    operations written out where the code has them.  Strings are lists of Unicode scalar
    values with their UTF-8 length.  Ordered sets and maps are ascending lists.  A [Uuid]
    is its 128-bit value, a [DateTime] its nanoseconds.  Errors are values of [result];
    panics are explicit outcomes.  A struct's fields carry a short prefix.

    The database is a record of finite maps.  A row holds the values whose text SQLite
    would store: serialisation is taken to be lossless, the text order of identifiers and
    time stamps to be their order, and equality of documents to be equality of texts.  Ties
    that SQL leaves open are broken by the run.  A violated uniqueness constraint is the
    error [Database].  A transaction that fails loses its writes, but not its files.  The
    clock and fresh identifiers are arbitrary functions of a tick ([Env]), so that no
    theorem assumes a monotone clock or distinct identifiers unless it says so.

    A worker is a tree of operations; an [Environment] answers each of them as a function
    of everything that happened before, so concurrency in the controller, in the file
    system and in the processes is the environment's choice.  Honesty, where a theorem
    asks for it, is: new UUIDs are fresh, a directory walk yields distinct paths, chunks are not empty, a byte count fits
    its width and [git --version] prints what git prints.  The wall clock may step back:
    the theorems on reports name that case ([WorkerLogic.stepped_back]); the monitor's
    theorem asks for a steady monotonic clock.  The theorems on the daemon ask of the file system that a marker
    that was linked is found until it is removed or moved ([WorkerClaims.persists]), and
    that protected files hold what was stored or was being stored when an operation failed
    or the program ended in it ([ProtectedStore.honest_store]), for the boot generation,
    the pairing ledger, the configuration and the credentials; there are none at the
    beginning of a history, and a failed check of the host is no answer of the controller
    ([CredentialSafety.pairing_answer]).  A crash is a history that ends after any operation; the history
    of a machine is the concatenation of those of its daemons or pairings
    ([WorkerClaims.machine_history], [WorkerBoot.boot_history],
    [CredentialSafety.pairing_history]).  The build is one for Unix.

    The crates uuid, chrono, serde_json, sha2, axum and http and the serialisation of
    documents are classes; laws are used only where a theorem names them ([ChronoCrateLaws],
    [DigestCrateLaws]).  SHA-256 is an arbitrary function, so that statements about content
    are statements about digests.

    ** Fuel and bounds

    Three loops need fuel: the search for a fresh run identifier, bounded by 16 attempts in
    the code itself; the wait for the lock of a pairing, which takes 25 ms a turn for at
    most 120 s and so at most [lock_attempts] (4801) turns; and the monitor of a process, which polls every 20 ms; its fuel is the
    number of polls up to the time limit and [turn_fuel] (72) turns more for the grace
    period, and [monitor_child_terminates] shows that it is enough.  The daemon's loops do
    not end by themselves; [claim_loop] and [run_forever] take a number of turns, and the
    theorems hold for any number and for a daemon stopped inside a turn.  Everything else
    is structural recursion or a fold over rows.

    ** Not modelled

    The start of the controller's process with its TLS and token files, and the texts of
    JSON documents; opening, migrating and tuning the SQLite file; the worker's process trees and isolation per platform, the
    permissions of its files and its migration between machines; the SSH driver behind [ProvisioningDriver], which is an arbitrary driver
    here; the key stores of the operating systems; the desktop application; Debug output
    and serde attributes.  Symbolic links, partial writes, poisoned locks and failing disks
    are outside the model.

    ** Plan

    What could follow: the discovery record, and the schema migrations that carry data. *)
From stdpp Require Import base option list numbers sorting sets gmap.
From Stdlib Require Import ZArith NArith Lia.

(** ** Fallible computations

    [result E A] is Rust's [Result<A, E>] (error first, so that [result E] is a
    monad); the [?] operator is stdpp's bind [x ← m; k]. *)
Inductive result (E A : Type) : Type :=
| Ok (a : A)
| Err (e : E).
Arguments Ok {E A} _.
Arguments Err {E A} _.

#[export] Instance result_ret {E} : MRet (result E) := λ A a, Ok a.
#[export] Instance result_bind {E} : MBind (result E) :=
  λ A B k m, match m with Ok a => k a | Err e => Err e end.
#[export] Instance result_fmap {E} : FMap (result E) :=
  λ A B f m, match m with Ok a => Ok (f a) | Err e => Err e end.
#[export] Instance result_eq_dec {E A} `{EqDecision E, EqDecision A} :
  EqDecision (result E A).
Proof. solve_decision. Defined.

(** [if b { return Err(e); }] *)
Definition reject_if {E} (b : bool) (e : E) : result E unit :=
  if b then Err e else Ok tt.

(** [option.ok_or(e)?] *)
Definition ok_or {E A} (o : option A) (e : E) : result E A :=
  match o with Some a => Ok a | None => Err e end.

(** [result.map_err(f)] *)
Definition map_err {E F A} (f : E → F) (m : result E A) : result F A :=
  match m with Ok a => Ok a | Err e => Err (f e) end.

Definition is_ok {E A} (m : result E A) : bool :=
  match m with Ok _ => true | Err _ => false end.

(** [for x in l { f(x)?; }] *)
Fixpoint for_each {E A} (f : A → result E unit) (l : list A) : result E unit :=
  match l with
  | [] => Ok tt
  | a :: l' => f a;; for_each f l'
  end.

(** [for (i, x) in l.iter().enumerate() { f(i, x)?; }] *)
Fixpoint for_each_from {E A} (i : nat) (f : nat → A → result E unit) (l : list A) :
    result E unit :=
  match l with
  | [] => Ok tt
  | a :: l' => f i a;; for_each_from (S i) f l'
  end.
Definition for_each_i {E A} (f : nat → A → result E unit) (l : list A) :
    result E unit := for_each_from 0 f l.

(** [Option::is_some_and] and [Option::is_none_or] *)
Definition is_some_and {A} (o : option A) (p : A → bool) : bool :=
  match o with Some a => p a | None => false end.
Definition is_none_or {A} (o : option A) (p : A → bool) : bool :=
  match o with Some a => p a | None => true end.
Definition is_some {A} (o : option A) : bool :=
  match o with Some _ => true | None => false end.
Definition is_none {A} (o : option A) : bool :=
  match o with Some _ => false | None => true end.
Definition unwrap_or {A} (o : option A) (d : A) : A :=
  match o with Some a => a | None => d end.
(** [Option::zip] *)
Definition option_zip {A B} (a : option A) (b : option B) : option (A * B) :=
  match a, b with Some x, Some y => Some (x, y) | _, _ => None end.

(** Boolean equality through stdpp's decision procedures. *)
Declare Scope rust_scope.
Delimit Scope rust_scope with rust.
Notation "x == y" := (bool_decide (x = y)) (at level 70) : rust_scope.
Notation "x != y" := (negb (bool_decide (x = y))) (at level 70) : rust_scope.

(** *** Inversion of successful computations

    Every validator is a sequence of guards; these equivalences, collected in
    the rewrite base [ok], turn "the validator returned [Ok]" into the
    conjunction of what the guards established. *)
Section ok_lemmas.
Context {E : Type}.

Lemma bind_Ok {A B} (m : result E A) (k : A → result E B) b :
  m ≫= k = Ok b ↔ ∃ a, m = Ok a ∧ k a = Ok b.
Proof. destruct m; cbn; naive_solver. Qed.

Lemma bind_unit_Ok {B} (m : result E unit) (k : result E B) b :
  m ≫= (λ _, k) = Ok b ↔ m = Ok tt ∧ k = Ok b.
Proof. destruct m as [[]|]; cbn; naive_solver. Qed.

Lemma bind_Err {A B} (m : result E A) (k : A → result E B) e :
  m ≫= k = Err e ↔ m = Err e ∨ ∃ a, m = Ok a ∧ k a = Err e.
Proof. destruct m; cbn; naive_solver. Qed.

Lemma reject_if_Ok b (e : E) u : reject_if b e = Ok u ↔ b = false.
Proof. destruct b, u; cbn; naive_solver. Qed.

Lemma reject_if_Err b (e e' : E) : reject_if b e = Err e' ↔ b = true ∧ e = e'.
Proof. destruct b; cbn; naive_solver. Qed.

Lemma if_Err_Ok {A} (b : bool) (e : E) (k : result E A) v :
  (if b then Err e else k) = Ok v ↔ b = false ∧ k = Ok v.
Proof. destruct b; naive_solver. Qed.

Lemma ok_or_Ok {A} (o : option A) (e : E) a : ok_or o e = Ok a ↔ o = Some a.
Proof. destruct o; cbn; naive_solver. Qed.

Lemma map_err_Ok {F A} (f : F → E) (m : result F A) a :
  map_err f m = Ok a ↔ m = Ok a.
Proof. destruct m; cbn; naive_solver. Qed.

Lemma is_ok_true {A} (m : result E A) : is_ok m = true ↔ ∃ a, m = Ok a.
Proof. destruct m; cbn; naive_solver. Qed.

Lemma Ok_tt_any (m : result E unit) u : m = Ok u ↔ m = Ok tt.
Proof. by destruct u. Qed.

Lemma Ok_Ok {A} (a b : A) : @Ok E A a = Ok b ↔ a = b.
Proof. naive_solver. Qed.
Lemma Err_Ok {A} (e : E) (b : A) : Err e = Ok b ↔ False.
Proof. naive_solver. Qed.

Lemma for_each_Ok {A} (f : A → result E unit) l :
  for_each f l = Ok tt ↔ Forall (λ a, f a = Ok tt) l.
Proof.
  induction l as [|a l IH]; cbn; [naive_solver|].
  rewrite bind_unit_Ok, IH, Forall_cons. done.
Qed.

Lemma for_each_from_Ok {A} (f : nat → A → result E unit) l i :
  for_each_from i f l = Ok tt ↔ ∀ j a, l !! j = Some a → f (i + j)%nat a = Ok tt.
Proof.
  revert i. induction l as [|a l IH]; intros i; cbn; [naive_solver|].
  rewrite bind_unit_Ok, IH. split.
  - intros [H1 H2] [|j] b; cbn.
    + intros [= <-]. by rewrite Nat.add_0_r.
    + intros Hj. rewrite Nat.add_succ_r. by apply (H2 j b).
  - intros H. split; [specialize (H 0%nat a); rewrite Nat.add_0_r in H; auto|].
    intros j b Hj. specialize (H (S j) b Hj). by rewrite Nat.add_succ_r in H.
Qed.

Lemma for_each_i_Ok {A} (f : nat → A → result E unit) l :
  for_each_i f l = Ok tt ↔ ∀ j a, l !! j = Some a → f j a = Ok tt.
Proof. apply for_each_from_Ok. Qed.
End ok_lemmas.

Lemma negb_bool_decide_false `{Decision P} : negb (bool_decide P) = false ↔ P.
Proof. case_bool_decide; cbn; naive_solver. Qed.
Lemma negb_bool_decide_true `{Decision P} : negb (bool_decide P) = true ↔ ¬ P.
Proof. case_bool_decide; cbn; naive_solver. Qed.
Lemma is_some_and_false {A} (o : option A) p :
  is_some_and o p = false ↔ ∀ a, o = Some a → p a = false.
Proof. destruct o; cbn; naive_solver. Qed.
Lemma is_some_and_true {A} (o : option A) p :
  is_some_and o p = true ↔ ∃ a, o = Some a ∧ p a = true.
Proof. destruct o; cbn; naive_solver. Qed.
Lemma is_none_or_true {A} (o : option A) p :
  is_none_or o p = true ↔ ∀ a, o = Some a → p a = true.
Proof. destruct o; cbn; naive_solver. Qed.
Lemma is_none_or_false {A} (o : option A) p :
  is_none_or o p = false ↔ ∃ a, o = Some a ∧ p a = false.
Proof. destruct o; cbn; naive_solver. Qed.
Lemma is_some_false {A} (o : option A) : is_some o = false ↔ o = None.
Proof. destruct o; cbn; naive_solver. Qed.
Lemma is_some_true {A} (o : option A) : is_some o = true ↔ ∃ a, o = Some a.
Proof. destruct o; cbn; naive_solver. Qed.
Lemma is_none_false {A} (o : option A) : is_none o = false ↔ ∃ a, o = Some a.
Proof. destruct o; cbn; naive_solver. Qed.
Lemma is_none_true {A} (o : option A) : is_none o = true ↔ o = None.
Proof. destruct o; cbn; naive_solver. Qed.
Lemma existsb_false {A} (p : A → bool) l :
  existsb p l = false ↔ Forall (λ a, p a = false) l.
Proof.
  induction l as [|a l IH]; cbn; [naive_solver|].
  rewrite orb_false_iff, Forall_cons, IH. done.
Qed.
Lemma existsb_true {A} (p : A → bool) l :
  existsb p l = true ↔ Exists (λ a, p a = true) l.
Proof.
  induction l as [|a l IH]; cbn; [by rewrite Exists_nil|].
  rewrite orb_true_iff, Exists_cons, IH. done.
Qed.
Lemma forallb_true {A} (p : A → bool) l :
  forallb p l = true ↔ Forall (λ a, p a = true) l.
Proof.
  induction l as [|a l IH]; cbn; [naive_solver|].
  rewrite andb_true_iff, Forall_cons, IH. done.
Qed.

Create Rewrite HintDb ok.
#[export] Hint Rewrite @bind_unit_Ok @bind_Ok @reject_if_Ok @if_Err_Ok @ok_or_Ok
  @map_err_Ok @for_each_Ok @for_each_i_Ok @Ok_Ok @Err_Ok
  orb_false_iff andb_true_iff negb_true_iff negb_false_iff
  @negb_bool_decide_false @negb_bool_decide_true
  bool_decide_eq_true bool_decide_eq_false
  @is_some_and_false @is_none_or_true @existsb_false @forallb_true
  @is_some_false @is_none_false @is_none_true @is_some_true : ok.

(** [ok_inv H] splits a successful computation into its guards. *)
Ltac destruct_ok :=
  repeat match goal with
  | H : _ ∧ _ |- _ => destruct H
  | H : ∃ _, _ |- _ => destruct H
  end.
Tactic Notation "ok_inv" ident(H) := autorewrite with ok in H; destruct_ok.

(** [case_guards] runs through a chain of [if]/[match] tests in the goal. *)
Ltac split_guard :=
  match goal with
  | |- context [if ?b then _ else _] => destruct b eqn:?
  | |- context [match ?o with Some _ => _ | None => _ end] => destruct o eqn:?
  end.
Ltac case_guards := repeat (split_guard; simplify_eq/=; try done).

(** ** Machine integers

    An unsigned Rust integer is an [N], a signed one a [Z]; the width appears
    where the code saturates, converts or checks. *)
Definition u8_max : N := 255.
Definition u32_max : N := 4294967295.
Definition u64_max : N := 18446744073709551615.
Definition i64_max : Z := 9223372036854775807.
Definition i64_min : Z := -9223372036854775808.

Definition in_u8 (n : N) : Prop := (n ≤ u8_max)%N.
Definition in_u32 (n : N) : Prop := (n ≤ u32_max)%N.
Definition in_u64 (n : N) : Prop := (n ≤ u64_max)%N.
Definition in_i64 (z : Z) : Prop := (i64_min ≤ z ≤ i64_max)%Z.

(** [u32::saturating_add], [u64::saturating_add] *)
Definition u32_saturating_add (a b : N) : N := N.min (a + b) u32_max.
Definition u64_saturating_add (a b : N) : N := N.min (a + b) u64_max.
(** [uN::saturating_sub] is [N]'s truncated subtraction. *)
Definition saturating_sub (a b : N) : N := (a - b)%N.
Definition i64_clamp (z : Z) : Z := Z.max i64_min (Z.min z i64_max).
Definition i64_saturating_add (a b : Z) : Z := i64_clamp (a + b).
Definition i64_saturating_mul (a b : Z) : Z := i64_clamp (a * b).
(** [i64::checked_add] *)
Definition i64_checked_add (a b : Z) : option Z :=
  if bool_decide (i64_min ≤ a + b ∧ a + b ≤ i64_max)%Z then Some (a + b)%Z else None.
(** Unary minus wraps on [i64::MIN] in a release build (no overflow checks). *)
Definition i64_neg (z : Z) : Z := if bool_decide (z = i64_min) then i64_min else (- z)%Z.
(** [i64::try_from(u64).unwrap_or(i64::MAX)] *)
Definition i64_of_u64_or_max (n : N) : Z :=
  if bool_decide (Z.of_N n ≤ i64_max)%Z then Z.of_N n else i64_max.

Lemma i64_clamp_range z : in_i64 (i64_clamp z).
Proof. unfold in_i64, i64_clamp, i64_min, i64_max; lia. Qed.
Lemma i64_clamp_id z : in_i64 z → i64_clamp z = z.
Proof. unfold in_i64, i64_clamp, i64_min, i64_max; lia. Qed.
Lemma i64_saturating_add_range a b : in_i64 (i64_saturating_add a b).
Proof. apply i64_clamp_range. Qed.
Lemma i64_saturating_mul_range a b : in_i64 (i64_saturating_mul a b).
Proof. apply i64_clamp_range. Qed.
Lemma i64_neg_range z : in_i64 z → in_i64 (i64_neg z).
Proof.
  unfold in_i64, i64_neg. case_bool_decide; subst; unfold i64_min, i64_max in *; lia.
Qed.

(** ** Ordered choice and sorting *)

(** [Iterator::max_by]: a left fold which keeps the earlier element only when
    it compares strictly greater. *)
Definition max_by_step {A} (cmp : A → A → comparison) (best x : A) : A :=
  match cmp best x with Gt => best | _ => x end.
Definition max_by {A} (cmp : A → A → comparison) (l : list A) : option A :=
  match l with [] => None | a :: l' => Some (foldl (max_by_step cmp) a l') end.

(** [slice::sort_by] is stable; insertion sort is the reference stable sort. *)
Fixpoint insert_by {A} (cmp : A → A → comparison) (x : A) (l : list A) : list A :=
  match l with
  | [] => [x]
  | y :: l' => match cmp x y with Gt => y :: insert_by cmp x l' | _ => x :: y :: l' end
  end.
Definition sort_by {A} (cmp : A → A → comparison) (l : list A) : list A :=
  foldr (insert_by cmp) [] l.

(** [Ordering::then_with] *)
Definition then_with (c d : comparison) : comparison :=
  match c with Eq => d | _ => c end.

(** What the order-based routines need of a comparison function. *)
Class TotalCmp {A} (cmp : A → A → comparison) : Prop := {
  cmp_opp : ∀ x y, cmp y x = CompOpp (cmp x y);
  cmp_le_trans : ∀ x y z, cmp x y ≠ Gt → cmp y z ≠ Gt → cmp x z ≠ Gt
}.

Section ordered.
Context {A : Type} (cmp : A → A → comparison) `{!TotalCmp cmp}.

Definition cmp_le (x y : A) : Prop := cmp x y ≠ Gt.

Lemma cmp_refl x : cmp x x = Eq.
Proof. pose proof (cmp_opp (cmp:=cmp) x x). by destruct (cmp x x). Qed.
Lemma cmp_le_refl x : cmp_le x x.
Proof. unfold cmp_le. by rewrite cmp_refl. Qed.
Lemma cmp_gt_le x y : cmp x y = Gt → cmp_le y x.
Proof. intros H. unfold cmp_le. by rewrite (cmp_opp (cmp:=cmp) x y), H. Qed.
Lemma cmp_le_eq x y : cmp_le x y → cmp_le y x → cmp x y = Eq.
Proof. unfold cmp_le. rewrite (cmp_opp (cmp:=cmp) x y). by destruct (cmp x y). Qed.
#[local] Instance cmp_le_transitive : Transitive cmp_le.
Proof. intros x y z. apply cmp_le_trans. Qed.

(** [max_by] returns an element of the list that no other exceeds. *)
Lemma foldl_max_by l b :
  foldl (max_by_step cmp) b l ∈ b :: l ∧
  cmp_le b (foldl (max_by_step cmp) b l) ∧
  ∀ x, x ∈ l → cmp_le x (foldl (max_by_step cmp) b l).
Proof.
  revert b. induction l as [|y l IH]; intros b; cbn.
  { split_and!; [set_solver|apply cmp_le_refl|]. intros x Hx. by apply not_elem_of_nil in Hx. }
  destruct (IH (max_by_step cmp b y)) as (Hin & Hle & Hall).
  assert (cmp_le b (max_by_step cmp b y) ∧ cmp_le y (max_by_step cmp b y) ∧
          (max_by_step cmp b y = b ∨ max_by_step cmp b y = y)) as (Hb & Hy & Hby).
  { unfold max_by_step. destruct (cmp b y) eqn:Hc; split_and!; auto using cmp_le_refl, cmp_gt_le;
      unfold cmp_le; by rewrite Hc. }
  split_and!.
  - apply elem_of_cons in Hin as [Hin|Hin]; [rewrite Hin; set_solver|set_solver].
  - by etrans.
  - intros x [->|Hx]%elem_of_cons; [by etrans|by apply Hall].
Qed.

Lemma max_by_Some l m :
  max_by cmp l = Some m → m ∈ l ∧ ∀ x, x ∈ l → cmp_le x m.
Proof.
  destruct l as [|a l]; cbn; [done|]. intros [= <-].
  destruct (foldl_max_by l a) as (? & ? & ?). split; [done|].
  intros x [->|]%elem_of_cons; auto.
Qed.

Lemma max_by_is_Some l : l ≠ [] → is_Some (max_by cmp l).
Proof. destruct l; [done|]. cbn. eauto. Qed.

Lemma max_by_None l : max_by cmp l = None ↔ l = [].
Proof. destruct l; cbn; naive_solver. Qed.

(** With distinct keys the maximum does not depend on the input order. *)
Lemma max_by_perm l1 l2 :
  l1 ≡ₚ l2 → (∀ x y, x ∈ l1 → y ∈ l1 → cmp x y = Eq → x = y) →
  max_by cmp l1 = max_by cmp l2.
Proof.
  intros Hp Hinj.
  destruct (max_by cmp l1) as [m1|] eqn:E1, (max_by cmp l2) as [m2|] eqn:E2.
  - apply max_by_Some in E1 as [Hin1 Hmax1]. apply max_by_Some in E2 as [Hin2 Hmax2].
    rewrite <-Hp in Hin2. f_equal. apply Hinj; [done..|].
    apply cmp_le_eq; [apply Hmax2; by rewrite <-Hp|by apply Hmax1].
  - apply max_by_None in E2 as ->. symmetry in Hp. by apply Permutation_nil in Hp as ->.
  - apply max_by_None in E1 as ->. by apply Permutation_nil in Hp as ->.
  - done.
Qed.

Lemma insert_by_perm x l : insert_by cmp x l ≡ₚ x :: l.
Proof.
  induction l as [|y l IH]; cbn; [done|]. destruct (cmp x y); [done..|].
  rewrite IH. apply perm_swap.
Qed.
Lemma sort_by_perm l : sort_by cmp l ≡ₚ l.
Proof. induction l as [|x l IH]; cbn; [done|]. by rewrite insert_by_perm, IH. Qed.

Lemma insert_by_sorted x l :
  StronglySorted cmp_le l → StronglySorted cmp_le (insert_by cmp x l).
Proof.
  induction l as [|y l IH]; cbn; intros Hs; [repeat constructor|].
  inversion Hs as [|? ? Hl Hy]; subst.
  destruct (cmp x y) eqn:Hc.
  1,2: constructor; [done|]; constructor; [by unfold cmp_le; rewrite Hc|];
       eapply Forall_impl; [exact Hy|]; intros z Hz; apply (cmp_le_trans (cmp:=cmp) x y z);
       [by rewrite Hc|done].
  constructor; [by apply IH|]. rewrite insert_by_perm. constructor; [by apply cmp_gt_le|done].
Qed.
Lemma sort_by_sorted l : StronglySorted cmp_le (sort_by cmp l).
Proof. induction l; cbn; [constructor|by apply insert_by_sorted]. Qed.

Lemma sort_by_perm_eq l1 l2 :
  l1 ≡ₚ l2 → (∀ x y, x ∈ l1 → y ∈ l1 → cmp x y = Eq → x = y) →
  sort_by cmp l1 = sort_by cmp l2.
Proof.
  intros Hp Hinj. apply (StronglySorted_unique_strong cmp_le).
  - intros x y Hx Hy ? ?. rewrite sort_by_perm in Hx, Hy. rewrite <-Hp in Hy.
    by apply Hinj, cmp_le_eq.
  - apply sort_by_sorted.
  - apply sort_by_sorted.
  - by rewrite !sort_by_perm.
Qed.
End ordered.

#[export] Instance then_with_total {A} (c1 c2 : A → A → comparison) :
  TotalCmp c1 → TotalCmp c2 → TotalCmp (λ x y, then_with (c1 x y) (c2 x y)).
Proof.
  intros H1 H2. split.
  - intros x y. rewrite (cmp_opp (cmp:=c1) x y), (cmp_opp (cmp:=c2) x y).
    by destruct (c1 x y), (c2 x y).
  - intros x y z Hxy Hyz.
    pose proof (cmp_le_trans (cmp:=c1) x y z) as T1.
    pose proof (cmp_le_trans (cmp:=c2) x y z) as T2.
    pose proof (cmp_le_trans (cmp:=c1) z x y) as T3.
    pose proof (cmp_le_trans (cmp:=c1) y z x) as T4.
    rewrite !(cmp_opp (cmp:=c1) x z) in *. rewrite !(cmp_opp (cmp:=c1) x y) in T4.
    rewrite !(cmp_opp (cmp:=c1) y z) in T3.
    unfold then_with in *.
    destruct (c1 x y), (c1 y z), (c1 x z); cbn in *; naive_solver.
Qed.
#[export] Instance on_total {A B} (f : A → B) (c : B → B → comparison) :
  TotalCmp c → TotalCmp (λ x y, c (f x) (f y)).
Proof. intros H. split; intros; [apply cmp_opp|eapply cmp_le_trans; eauto]. Qed.
#[export] Instance flip_total {A} (c : A → A → comparison) :
  TotalCmp c → TotalCmp (λ x y, c y x).
Proof. intros H. split; intros; [apply cmp_opp|eapply (cmp_le_trans (cmp:=c)); eauto]. Qed.
#[export] Instance Z_compare_total : TotalCmp Z.compare.
Proof. split; intros; [apply Z.compare_antisym|]. rewrite Z.compare_le_iff in *. lia. Qed.
#[export] Instance N_compare_total : TotalCmp N.compare.
Proof. split; intros; [apply N.compare_antisym|]. rewrite N.compare_le_iff in *. lia. Qed.

(** ** Duplicate detection

    [iter.any(|x| !set.insert(x))] over a fresh set: the loop stops at the first
    element that is already present. *)
Fixpoint any_repeated_from {A} `{EqDecision A} (seen l : list A) : bool :=
  match l with
  | [] => false
  | x :: l' => if bool_decide (x ∈ seen) then true else any_repeated_from (x :: seen) l'
  end.
Definition any_repeated {A} `{EqDecision A} (l : list A) : bool := any_repeated_from [] l.

Lemma any_repeated_from_false {A} `{EqDecision A} (l seen : list A) :
  any_repeated_from seen l = false ↔ NoDup l ∧ ∀ x, x ∈ l → x ∉ seen.
Proof.
  revert seen. induction l as [|x l IH]; intros seen; cbn.
  { split; [|done]. intros _. split; [constructor|]. intros x Hx. by apply not_elem_of_nil in Hx. }
  case_bool_decide as Hx.
  - split; [done|]. intros [_ H]. destruct (H x); set_solver.
  - rewrite IH, NoDup_cons. set_solver.
Qed.
Lemma any_repeated_false {A} `{EqDecision A} (l : list A) :
  any_repeated l = false ↔ NoDup l.
Proof.
  unfold any_repeated. rewrite any_repeated_from_false. split; [by intros [? _]|].
  intros ?. split; [done|]. intros x _. apply not_elem_of_nil.
Qed.
#[export] Hint Rewrite @any_repeated_false : ok.

(** [iter.any(|x| bad(x) || !set.insert(x))]: stops at the first offender. *)
Fixpoint any_bad_or_repeated {A} `{EqDecision A} (bad : A → bool) (seen l : list A) : bool :=
  match l with
  | [] => false
  | x :: l' =>
      if bad x || bool_decide (x ∈ seen) then true else any_bad_or_repeated bad (x :: seen) l'
  end.
Lemma any_bad_or_repeated_from {A} `{EqDecision A} (bad : A → bool) (l seen : list A) :
  any_bad_or_repeated bad seen l = false ↔
  Forall (λ x, bad x = false) l ∧ NoDup l ∧ ∀ x, x ∈ l → x ∉ seen.
Proof.
  revert seen. induction l as [|x l IH]; intros seen; cbn.
  { split; [|done]. intros _. split; [constructor|]. split; [constructor|].
    intros x Hx. by apply not_elem_of_nil in Hx. }
  rewrite Forall_cons, NoDup_cons. destruct (bad x); cbn; [naive_solver|].
  case_bool_decide as Hx.
  - split; [done|]. intros (_ & _ & H). destruct (H x); set_solver.
  - rewrite IH. set_solver.
Qed.
Lemma any_bad_or_repeated_false {A} `{EqDecision A} (bad : A → bool) (l : list A) :
  any_bad_or_repeated bad [] l = false ↔ Forall (λ x, bad x = false) l ∧ NoDup l.
Proof.
  rewrite any_bad_or_repeated_from. split; [tauto|]. intros [??]. split_and!; [done..|].
  intros x _. apply not_elem_of_nil.
Qed.

(** One step of a loop that keeps the keys it has seen. *)
Lemma seen_cons {A} (x : A) (xs seen : list A) :
  ((x ∉ seen) ∧ ∀ k, k ∈ xs → k ∉ x :: seen) ↔ ((x ∉ xs) ∧ ∀ k, k ∈ x :: xs → k ∉ seen).
Proof. set_solver. Qed.

(** A [BTreeSet] is the ascending, repetition-free list of its elements; the
    operations the code uses read it in that order. *)
Definition set_contains {A} `{EqDecision A} (x : A) (s : list A) : bool :=
  bool_decide (x ∈ s).
Definition set_difference {A} `{EqDecision A} (s t : list A) : list A :=
  List.filter (λ x, negb (set_contains x t)) s.

Lemma set_difference_nil {A} `{EqDecision A} (s t : list A) :
  set_difference s t = [] ↔ ∀ x, x ∈ s → x ∈ t.
Proof.
  unfold set_difference, set_contains. induction s as [|x s IH]; cbn; [set_solver|].
  case_bool_decide; cbn; [rewrite IH|]; set_solver.
Qed.

(** ** Exhaustive checks over a byte or a pair of bytes *)
Definition all_bytes (p : N → bool) : bool :=
  forallb (λ n, p (N.of_nat n)) (seq 0 256).
Definition all_byte_pairs (p : N → N → bool) : bool :=
  all_bytes (λ a, all_bytes (λ b, p a b)).

Lemma all_bytes_spec p n : all_bytes p = true → (n < 256)%N → p n = true.
Proof.
  unfold all_bytes. rewrite forallb_forall. intros H Hn.
  specialize (H (N.to_nat n)). rewrite N2Nat.id in H. apply H, in_seq. lia.
Qed.
Lemma all_byte_pairs_spec p a b :
  all_byte_pairs p = true → (a < 256)%N → (b < 256)%N → p a b = true.
Proof.
  intros H Ha Hb. apply (all_bytes_spec (λ b, p a b)); [|done].
  exact (all_bytes_spec (λ a, all_bytes (λ b, p a b)) a H Ha).
Qed.

(** ** Assignment to one field of a record: every other field is read from it. *)
Ltac field proj q v r := first [unify proj q; exact v | exact (q r)].
