(* ===== verification/Text.v ===== *)
(** Rust strings, as far as the code uses them.

    A [String] is the list of its Unicode scalar values ([rstr]); its bytes are
    the UTF-8 encoding of that list, so [len], [bytes] and [chars] are the three
    views the source takes of the same value.  The standard-library routines
    used by the validators ([trim], [split], [starts_with], [char::is_control],
    [to_ascii_lowercase], integer formatting and parsing) follow the library's
    documentation. *)
From Stdlib Require Import ZArith NArith Lia String Ascii DecimalString DecimalFacts DecimalPos DecimalN.
From stdpp Require Import base option list numbers sets.
From S2P Require Import Prelude.

Definition char := N.
Abbreviation rstr := (list N).

(** A string literal of the source. *)
Definition lit (s : string) : rstr := map N_of_ascii (list_ascii_of_string s).
Arguments lit _%_string.
#[global] Arguments lit : simpl never.

(** A character literal. *)
Definition chr (s : string) : char :=
  match s with String a _ => N_of_ascii a | EmptyString => 0%N end.
Arguments chr _%_string.

(** ** UTF-8 *)
Open Scope N_scope.

Definition utf8_encode (c : char) : list N :=
  if c <? 128 then [c]
  else if c <? 2048 then [192 + c / 64; 128 + c mod 64]
  else if c <? 65536 then [224 + c / 4096; 128 + c / 64 mod 64; 128 + c mod 64]
  else [240 + c / 262144; 128 + c / 4096 mod 64; 128 + c / 64 mod 64; 128 + c mod 64].

(** [str::bytes] *)
Definition bytes (s : rstr) : list N := flat_map utf8_encode s.
(** [str::len], in bytes *)
Definition len (s : rstr) : N := N.of_nat (length (bytes s)).
(** [s.chars().count()] *)
Definition char_count (s : rstr) : N := N.of_nat (length s).

(** ** Character classes *)
Definition between (lo hi c : N) : bool := (lo <=? c) && (c <=? hi).

(** [char::is_control]: general category Cc. *)
Definition is_control (c : char) : bool := (c <? 32) || between 127 159 c.
(** [char::is_whitespace]: the White_Space property. *)
Definition is_whitespace (c : char) : bool :=
  between 9 13 c || (c =? 32) || (c =? 133) || (c =? 160) || (c =? 5760) ||
  between 8192 8202 c || (c =? 8232) || (c =? 8233) || (c =? 8239) ||
  (c =? 8287) || (c =? 12288).

(** [u8::is_ascii_*] *)
Definition is_ascii_digit (b : N) : bool := between 48 57 b.
Definition is_ascii_uppercase (b : N) : bool := between 65 90 b.
Definition is_ascii_lowercase (b : N) : bool := between 97 122 b.
Definition is_ascii_alphabetic (b : N) : bool := is_ascii_uppercase b || is_ascii_lowercase b.
Definition is_ascii_alphanumeric (b : N) : bool := is_ascii_alphabetic b || is_ascii_digit b.
Definition is_ascii_graphic (b : N) : bool := between 33 126 b.
Definition is_ascii_whitespace (b : N) : bool :=
  (b =? 9) || (b =? 10) || (b =? 12) || (b =? 13) || (b =? 32).
(** [byte.is_ascii_digit() || (b'a'..=b'f').contains(&byte)] *)
Definition is_lower_hex (b : N) : bool := is_ascii_digit b || between 97 102 b.

(** ** Trimming, splitting, searching *)
Fixpoint trim_start (s : rstr) : rstr :=
  match s with
  | [] => []
  | c :: s' => if is_whitespace c then trim_start s' else s
  end.
Definition trim_end (s : rstr) : rstr := rev (trim_start (rev s)).
Definition trim (s : rstr) : rstr := trim_end (trim_start s).
Definition is_empty {A} (s : list A) : bool :=
  match s with [] => true | _ => false end.
(** [value.trim().is_empty()] *)
Definition blank (s : rstr) : bool := is_empty (trim s).
(** [value.chars().any(char::is_control)] *)
Definition has_control (s : rstr) : bool := existsb is_control s.

(** [value.split(sep)] for a single character: never empty. *)
Fixpoint split (sep : char) (s : rstr) : list rstr :=
  match s with
  | [] => [[]]
  | c :: s' =>
      if c =? sep then [] :: split sep s'
      else match split sep s' with
           | [] => [[c]]
           | seg :: segs => (c :: seg) :: segs
           end
  end.
(** [value.split_once(sep)] *)
Fixpoint split_once (sep : char) (s : rstr) : option (rstr * rstr) :=
  match s with
  | [] => None
  | c :: s' =>
      if c =? sep then Some ([], s')
      else match split_once sep s' with
           | Some (a, b) => Some (c :: a, b)
           | None => None
           end
  end.
(** [value.contains(c)] *)
Definition contains_char (c : char) (s : rstr) : bool := existsb (N.eqb c) s.
(** [value.starts_with(p)], [value.strip_prefix(p)], [value.ends_with(p)] *)
Fixpoint strip_prefix (p s : rstr) : option rstr :=
  match p, s with
  | [], _ => Some s
  | a :: p', b :: s' => if a =? b then strip_prefix p' s' else None
  | _ :: _, [] => None
  end.
Definition starts_with (p s : rstr) : bool := is_some (strip_prefix p s).
Definition ends_with (p s : rstr) : bool := starts_with (rev p) (rev s).
(** [u8::to_ascii_lowercase] on every byte; non-ASCII characters are unchanged. *)
Definition to_ascii_lowercase (s : rstr) : rstr :=
  map (λ c, if is_ascii_uppercase c then c + 32 else c) s.
Definition eq_ignore_ascii_case (s t : rstr) : bool :=
  bool_decide (to_ascii_lowercase s = to_ascii_lowercase t).
(** [value.matches(c).count()] *)
Definition count_char (c : char) (s : rstr) : nat := length (List.filter (N.eqb c) s).
(** [value.replace(a, b)] for single characters *)
Definition replace_char (a b : char) (s : rstr) : rstr :=
  map (λ c, if c =? a then b else c) s.

(** ** Ordering

    [str]'s order is that of the bytes, which for UTF-8 is the order of the
    scalar values. *)
Fixpoint str_cmp (s t : rstr) : comparison :=
  match s, t with
  | [], [] => Eq
  | [], _ :: _ => Lt
  | _ :: _, [] => Gt
  | a :: s', b :: t' => then_with (N.compare a b) (str_cmp s' t')
  end.

(** ** Numbers *)
Definition fmt_N (n : N) : rstr := lit (NilEmpty.string_of_uint (N.to_uint n)).
Definition fmt_Z (z : Z) : rstr :=
  match z with
  | Zneg p => lit "-" ++ fmt_N (Npos p)
  | _ => fmt_N (Z.to_N z)
  end.
(** [u16::from_str]: an optional [+], then one or more digits, in range. *)
Fixpoint parse_digits (acc : N) (s : rstr) : option N :=
  match s with
  | [] => Some acc
  | c :: s' => if is_ascii_digit c then parse_digits (10 * acc + (c - 48)) s' else None
  end.
Definition parse_uint (max : N) (s : rstr) : option N :=
  let digits := match s with c :: s' => if c =? chr "+" then s' else s | [] => s end in
  match digits with
  | [] => None
  | _ => match parse_digits 0 digits with
         | Some n => if n <=? max then Some n else None
         | None => None
         end
  end.
Definition parse_u16 : rstr → option N := parse_uint 65535.

(** [format!("{byte:02x}")] over a digest *)
Definition hex_digit (n : N) : char := if n <? 10 then 48 + n else 87 + n.
Definition hex_byte (b : N) : rstr := [hex_digit (b / 16); hex_digit (b mod 16)].
Definition hex (bs : list N) : rstr := flat_map hex_byte bs.

Close Scope N_scope.

(** ** Facts *)

Lemma str_cmp_Eq s t : str_cmp s t = Eq ↔ s = t.
Proof.
  revert t. induction s as [|a s IH]; intros [|b t]; cbn; try naive_solver.
  unfold then_with. destruct (N.compare_spec a b); try naive_solver lia.
Qed.

#[export] Instance str_cmp_total : TotalCmp str_cmp.
Proof.
  split.
  - intros s. induction s as [|a s IH]; intros [|b t]; cbn; try done.
    rewrite IH, (N.compare_antisym a b). by destruct (N.compare a b).
  - intros s. induction s as [|a s IH]; intros [|b t] [|c u]; cbn; try done.
    intros Hst Htu. specialize (IH t u). unfold then_with in *.
    destruct (N.compare_spec a b), (N.compare_spec b c), (N.compare_spec a c);
      subst; try done; try lia; auto.
Qed.

Lemma contains_char_false c s : contains_char c s = false ↔ c ∉ s.
Proof.
  unfold contains_char. induction s as [|a s IH]; cbn; [set_solver|].
  rewrite orb_false_iff, N.eqb_neq, IH. set_solver.
Qed.

Lemma split_not_nil sep s : split sep s ≠ [].
Proof.
  induction s as [|c s IH]; cbn; [done|]. destruct (_ =? _)%N; [done|].
  by destruct (split sep s).
Qed.

(** No segment contains the separator. *)
Lemma split_no_sep sep s seg : seg ∈ split sep s → sep ∉ seg.
Proof.
  revert seg. induction s as [|c s IH]; cbn; intros seg.
  { intros ->%list_elem_of_singleton. set_solver. }
  destruct (N.eqb_spec c sep) as [->|Hne].
  { intros [->|?]%elem_of_cons; [set_solver|auto]. }
  destruct (split sep s) as [|seg0 segs] eqn:E.
  { intros ->%list_elem_of_singleton. set_solver. }
  intros [->|Hin]%elem_of_cons.
  - specialize (IH seg0). rewrite elem_of_cons. intros [->|?]; [done|].
    apply IH; [set_solver|done].
  - apply IH. set_solver.
Qed.

(** The segments joined by the separator give the string back. *)
Fixpoint join (sep : char) (segs : list rstr) : rstr :=
  match segs with
  | [] => []
  | [seg] => seg
  | seg :: segs' => seg ++ sep :: join sep segs'
  end.
Lemma join_split sep s : join sep (split sep s) = s.
Proof.
  induction s as [|c s IH]; cbn; [done|].
  destruct (N.eqb_spec c sep) as [->|Hne].
  - destruct (split sep s) eqn:E; [by apply split_not_nil in E|]. by rewrite <-IH.
  - destruct (split sep s) as [|seg segs] eqn:E; [by apply split_not_nil in E|].
    rewrite <-IH. by destruct segs.
Qed.

Lemma strip_prefix_Some p s r : strip_prefix p s = Some r ↔ s = p ++ r.
Proof.
  revert s. induction p as [|a p IH]; intros [|b s]; cbn; try naive_solver.
  destruct (N.eqb_spec a b) as [->|]; [rewrite IH|]; naive_solver.
Qed.
Lemma starts_with_true p s : starts_with p s = true ↔ ∃ r, s = p ++ r.
Proof.
  unfold starts_with. rewrite is_some_true. by setoid_rewrite strip_prefix_Some.
Qed.

Lemma trim_start_nil s : trim_start s = [] ↔ Forall (λ c, is_whitespace c = true) s.
Proof.
  induction s as [|c s IH]; cbn; [naive_solver|].
  rewrite Forall_cons. destruct (is_whitespace c); naive_solver.
Qed.
Lemma trim_start_suffix s : ∃ p, s = p ++ trim_start s ∧ Forall (λ c, is_whitespace c = true) p.
Proof.
  induction s as [|c s [p [Hp Hw]]]; cbn; [exists []; auto|].
  destruct (is_whitespace c) eqn:E; [|exists []; auto].
  exists (c :: p). split; [cbn; congruence|by constructor].
Qed.
(** A string is blank exactly when it has only white space. *)
Lemma blank_true s : blank s = true ↔ Forall (λ c, is_whitespace c = true) s.
Proof.
  unfold blank, trim, trim_end.
  assert (is_empty (rev (trim_start (rev (trim_start s)))) = true ↔
          trim_start (rev (trim_start s)) = []) as ->.
  { destruct (trim_start (rev _)); cbn; [done|]. split; [|done].
    by destruct (rev l ++ [n]) eqn:E; [apply app_eq_nil in E as [_ ?]|]. }
  rewrite trim_start_nil, !Forall_forall. setoid_rewrite list_elem_of_In.
  setoid_rewrite <-in_rev. setoid_rewrite <-list_elem_of_In. split.
  - intros H. destruct (trim_start_suffix s) as (p & Hs & Hp).
    intros c Hc. rewrite Hs in Hc. apply elem_of_app in Hc as [Hc|Hc]; [|by apply H].
    rewrite Forall_forall in Hp. by apply Hp.
  - intros H c Hc. apply H. destruct (trim_start_suffix s) as (p & Hs & _). rewrite Hs. set_solver.
Qed.
Lemma blank_nil : blank [] = true.
Proof. done. Qed.

Lemma utf8_encode_length c : 1 ≤ length (utf8_encode c) ≤ 4.
Proof. unfold utf8_encode. repeat (destruct (_ <? _)%N; [cbn [length]; lia|]). cbn [length]; lia. Qed.
Lemma bytes_app s t : bytes (s ++ t) = bytes s ++ bytes t.
Proof. apply flat_map_app. Qed.
(** [chars().count() <= len() <= 4 * chars().count()] *)
Lemma len_bounds s : (char_count s ≤ len s ≤ 4 * char_count s)%N.
Proof.
  unfold len, char_count. induction s as [|c s IH]; [cbn; lia|].
  change (bytes (c :: s)) with (utf8_encode c ++ bytes s).
  rewrite length_app. pose proof (utf8_encode_length c). cbn [length]. lia.
Qed.
Lemma len_app s t : len (s ++ t) = (len s + len t)%N.
Proof. unfold len. rewrite bytes_app, length_app. lia. Qed.

(** *** Printable texts

    A text of at most [n] printable ASCII characters; closed under
    concatenation, so the length of a formatted message is read off its parts. *)
Definition printable (n : nat) (s : rstr) : Prop :=
  length s ≤ n ∧ Forall (λ c, (32 ≤ c ≤ 126)%N) s.
Lemma printable_app n m s t : printable n s → printable m t → printable (n + m) (s ++ t).
Proof.
  intros [Hs Fs] [Ht Ft]. split; [rewrite length_app; lia|by apply Forall_app].
Qed.
Lemma printable_weaken n m s : n ≤ m → printable n s → printable m s.
Proof. intros Hle [Hs Fs]. split; [lia|done]. Qed.
Lemma printable_bytes s : Forall (λ c, (32 ≤ c ≤ 126)%N) s → bytes s = s.
Proof.
  induction 1 as [|c s Hc _ IH]; [done|]. change (bytes (c :: s)) with (utf8_encode c ++ bytes s).
  rewrite IH. unfold utf8_encode. destruct (N.ltb_spec c 128); [done|lia].
Qed.
Lemma printable_len n s : printable n s → (len s ≤ N.of_nat n)%N.
Proof. intros [Hs Fs]. unfold len. rewrite printable_bytes by done. lia. Qed.
Lemma printable_control n s : printable n s → has_control s = false.
Proof.
  intros [_ Fs]. unfold has_control. apply existsb_false. eapply Forall_impl; [exact Fs|].
  intros c Hc. cbn in *. unfold is_control, between. rewrite orb_false_iff, andb_false_iff, N.ltb_ge, !N.leb_gt. lia.
Qed.
Lemma printable_blank c s : c ∈ s → (33 ≤ c ≤ 126)%N → blank s = false.
Proof.
  intros Hin Hc. destruct (blank s) eqn:E; [|done]. apply blank_true in E.
  rewrite Forall_forall in E. specialize (E c Hin). cbn in E. unfold is_whitespace, between in E.
  repeat (apply orb_true_iff in E as [E|E]);
    rewrite ?andb_true_iff, ?N.leb_le, ?N.eqb_eq in E; lia.
Qed.

(** Decimal text: digits, at most one per bit. *)
Lemma string_of_uint_digits d :
  length (lit (NilEmpty.string_of_uint d)) = Decimal.nb_digits d ∧
  Forall (λ c, (48 ≤ c ≤ 57)%N) (lit (NilEmpty.string_of_uint d)).
Proof.
  induction d as [|d [IHl IHf]|d [IHl IHf]|d [IHl IHf]|d [IHl IHf]|d [IHl IHf]|d [IHl IHf]|d [IHl IHf]
    |d [IHl IHf]|d [IHl IHf]|d [IHl IHf]]; unfold lit in *; cbn;
    (split; [congruence|]); repeat constructor; try done; cbn; lia.
Qed.
Lemma nb_digits_double d :
  Decimal.nb_digits (Decimal.Little.double d) ≤ S (Decimal.nb_digits d) ∧
  Decimal.nb_digits (Decimal.Little.succ_double d) ≤ S (Decimal.nb_digits d).
Proof. induction d; cbn; lia. Qed.
Lemma to_little_uint_digits p : Decimal.nb_digits (Pos.to_little_uint p) ≤ Pos.size_nat p.
Proof.
  induction p as [p IH|p IH|]; cbn [Pos.to_little_uint Pos.size_nat]; [..|cbn; lia].
  - pose proof (nb_digits_double (Pos.to_little_uint p)). lia.
  - pose proof (nb_digits_double (Pos.to_little_uint p)). lia.
Qed.
Lemma size_nat_bound p k : (Npos p < 2 ^ N.of_nat k)%N → Pos.size_nat p ≤ k.
Proof.
  intros Hp. pose proof (N.size_le (Npos p)) as Hs. cbn [N.size] in Hs.
  assert (Npos (Pos.size p) = N.of_nat (Pos.size_nat p)) as Heq
    by (induction p as [p IH|p IH|]; cbn; [..|done];
        specialize (IH ltac:(clear Hs; assert (Npos p < Npos (p~0))%N by lia; lia) (N.size_le (Npos p)));
        cbn; lia).
  destruct (Nat.le_gt_cases (Pos.size_nat p) k) as [|Hgt]; [done|].
  assert (N.of_nat k + 1 ≤ Npos (Pos.size p))%N as Hle by lia.
  apply (N.pow_le_mono_r 2) in Hle; [|done]. rewrite N.pow_add_r in Hle. cbn [N.succ_double] in Hs.
  lia.
Qed.
Lemma fmt_N_printable n k : (n < 2 ^ N.of_nat (S k))%N → printable (S k) (fmt_N n).
Proof.
  intros Hn. unfold fmt_N. destruct (string_of_uint_digits (N.to_uint n)) as [Hl Hf]. split.
  - rewrite Hl. destruct n as [|p]; [cbn; lia|].
    change (N.to_uint (N.pos p)) with (Decimal.rev (Pos.to_little_uint p)). rewrite nb_digits_rev.
    pose proof (to_little_uint_digits p). pose proof (size_nat_bound p (S k) Hn). lia.
  - eapply Forall_impl; [exact Hf|]. cbn. lia.
Qed.
Lemma fmt_Z_printable z k : (Z.abs z < 2 ^ Z.of_nat (S k))%Z → printable (S (S k)) (fmt_Z z).
Proof.
  intros Hz.
  assert (∀ n, (Z.of_N n = Z.abs z) → (n < 2 ^ N.of_nat (S k))%N) as Hn.
  { intros n Hn. apply N2Z.inj_lt. rewrite N2Z.inj_pow, nat_N_Z. cbn [Z.of_N]. lia. }
  destruct z as [|p|p]; cbn [fmt_Z].
  - apply (printable_weaken (S k)); [lia|]. apply fmt_N_printable, Hn. done.
  - apply (printable_weaken (S k)); [lia|]. apply fmt_N_printable, Hn. done.
  - apply (printable_app 1 (S k)); [split; [done|repeat constructor; cbn; lia]|].
    apply fmt_N_printable, Hn. done.
Qed.
Lemma lit_printable t n : bool_decide (length (lit t) ≤ n) && forallb (between 32 126) (lit t) = true →
  printable n (lit t).
Proof.
  rewrite andb_true_iff, bool_decide_eq_true, forallb_true. intros [Hl Hf]. split; [done|].
  eapply Forall_impl; [exact Hf|]. intros c. cbn. unfold between. rewrite andb_true_iff, !N.leb_le. lia.
Qed.

(** The number of a decimal text. *)
Fixpoint decimal_value (acc : N) (d : Decimal.uint) : N :=
  match d with
  | Decimal.Nil => acc
  | Decimal.D0 d => decimal_value (10 * acc) d | Decimal.D1 d => decimal_value (10 * acc + 1) d
  | Decimal.D2 d => decimal_value (10 * acc + 2) d | Decimal.D3 d => decimal_value (10 * acc + 3) d
  | Decimal.D4 d => decimal_value (10 * acc + 4) d | Decimal.D5 d => decimal_value (10 * acc + 5) d
  | Decimal.D6 d => decimal_value (10 * acc + 6) d | Decimal.D7 d => decimal_value (10 * acc + 7) d
  | Decimal.D8 d => decimal_value (10 * acc + 8) d | Decimal.D9 d => decimal_value (10 * acc + 9) d
  end.
Lemma parse_decimal d acc : parse_digits acc (lit (NilEmpty.string_of_uint d)) = Some (decimal_value acc d).
Proof.
  revert acc. induction d as [|d IH|d IH|d IH|d IH|d IH|d IH|d IH|d IH|d IH|d IH]; intros acc; [done|..];
    cbn [decimal_value]; rewrite <- IH; [by rewrite <- (N.add_0_r (10 * acc))|reflexivity..].
Qed.
Lemma decimal_value_pos d p : decimal_value (N.pos p) d = N.pos (Pos.of_uint_acc d p).
Proof.
  revert p. induction d as [|d IH|d IH|d IH|d IH|d IH|d IH|d IH|d IH|d IH|d IH]; intros p; [done|..];
    cbn [decimal_value Pos.of_uint_acc]; rewrite <- IH; f_equal; lia.
Qed.
Lemma decimal_value_of d : decimal_value 0 d = N.of_uint d.
Proof.
  induction d as [|d IH|d IH|d IH|d IH|d IH|d IH|d IH|d IH|d IH|d IH]; [done|exact IH|..]; apply decimal_value_pos.
Qed.
Lemma string_of_uint_cons d : d ≠ Decimal.Nil → ∃ c s, lit (NilEmpty.string_of_uint d) = c :: s ∧ (48 <= c <= 57)%N.
Proof. destruct d; [done|..]; intros _; eexists _, _; (split; [reflexivity|vm_compute; split; discriminate]). Qed.
(** A number that is in range is parsed from its decimal text. *)
Lemma parse_uint_fmt max n : (n <= max)%N → parse_uint max (fmt_N n) = Some n.
Proof.
  intros Hn. unfold parse_uint, fmt_N.
  assert (N.to_uint n ≠ Decimal.Nil) as Hne.
  { intros E. destruct n as [|p]; [done|]. by apply (DecimalPos.Unsigned.to_uint_nonnil p). }
  destruct (string_of_uint_cons _ Hne) as (c & s & Hcs & Hc). pose proof (parse_decimal (N.to_uint n) 0) as Hp.
  rewrite Hcs in Hp |- *. rewrite (proj2 (N.eqb_neq c _)) by (vm_compute; lia).
  rewrite Hp, decimal_value_of, DecimalN.Unsigned.of_to. by rewrite (proj2 (N.leb_le n max)).
Qed.
