(* ===== verification/Crates.v ===== *)
(** The third-party crates the workspace calls.

    None of this code is in the repository, so each crate is a type class: the
    operations the repository calls, and the documented behaviour it relies on.
    Every definition that needs a crate takes the class as an argument.  The
    instances at the end are concrete functions with that behaviour; they are
    used only to evaluate the model on inputs.

    Two third-party types are plain data and are represented as such: a
    [uuid::Uuid] is its 128-bit value (nil is zero, the derived order is the
    order of the big-endian bytes, that is of the value), and a
    [chrono::DateTime<Utc>] is its instant in nanoseconds since the epoch
    (comparison and [signed_duration_since] are comparison and difference of
    instants). *)
From Stdlib Require Import ZArith NArith Lia.
From stdpp Require Import base option list numbers sets.
From S2P Require Import Prelude Text.

Definition Uuid := N.
Definition DateTime := Z.
#[export] Instance Uuid_eq_dec : EqDecision Uuid := N.eq_dec.
#[export] Instance DateTime_eq_dec : EqDecision DateTime := Z.eq_dec.
Definition uuid_is_nil (u : Uuid) : bool := bool_decide (u = 0%N).
Definition nanos_per_second : Z := 1000000000.

(** [uuid]: [Display] is the hyphenated lower-case form. *)
Class UuidCrate := { uuid_display : Uuid → rstr }.
Class UuidCrateLaws `{UuidCrate} : Prop := {
  uuid_display_inj : ∀ u v, (u < 2 ^ 128)%N → (v < 2 ^ 128)%N → uuid_display u = uuid_display v → u = v;
  uuid_display_len : ∀ u, length (uuid_display u) = 36;
  uuid_display_chars : ∀ u, Forall (λ c, is_lower_hex c || N.eqb c 45 = true) (uuid_display u);
  uuid_display_digits : ∀ u, length (List.filter is_lower_hex (uuid_display u)) = 32
}.

(** [chrono]: a std [Duration] (nanoseconds) as a [TimeDelta], whose maximum is
    [TimeDelta::MAX]; [DateTime::from_timestamp(s, 0)], which is [None] outside
    the calendar's range. *)
Class ChronoCrate := {
  duration_from_std : N → option Z;
  duration_max : Z;
  from_timestamp : Z → option DateTime
}.
Class ChronoCrateLaws `{ChronoCrate} : Prop := {
  duration_max_pos : (0 < duration_max)%Z;
  duration_from_std_spec : ∀ d,
    duration_from_std d =
    if bool_decide (Z.of_N d ≤ duration_max)%Z then Some (Z.of_N d) else None;
  from_timestamp_spec : ∀ s t, from_timestamp s = Some t → t = (s * nanos_per_second)%Z
}.

(** [chrono::Duration::from_std(ttl).unwrap_or(chrono::Duration::MAX)] *)
Definition maximum_age `{ChronoCrate} (ttl : N) : Z :=
  unwrap_or (duration_from_std ttl) duration_max.

Lemma maximum_age_spec `{ChronoCrateLaws} ttl :
  maximum_age ttl = Z.min (Z.of_N ttl) duration_max.
Proof.
  unfold maximum_age. rewrite duration_from_std_spec. case_bool_decide; cbn; lia.
Qed.

(** [sha2]: a 32-byte digest. *)
Class DigestCrate := { sha256 : list N → list N }.
Class DigestCrateLaws `{DigestCrate} : Prop := {
  sha256_length : ∀ bs, length (sha256 bs) = 32;
  sha256_bytes : ∀ bs, Forall (λ b, (b < 256)%N) (sha256 bs)
}.

(** The lower-case hexadecimal spelling of a digest: 64 characters. *)
Lemma hex_length bs : length (hex bs) = 2 * length bs.
Proof. induction bs as [|b bs IH]; [done|]. unfold hex in *. cbn [flat_map length app hex_byte]. lia. Qed.

Lemma hex_digit_lower n : (n < 16)%N → is_lower_hex (hex_digit n) = true.
Proof.
  intros H. unfold is_lower_hex, is_ascii_digit, between, hex_digit.
  destruct (N.ltb_spec n 10); rewrite orb_true_iff, !andb_true_iff, !N.leb_le; lia.
Qed.
Lemma hex_lower bs : Forall (λ b, (b < 256)%N) bs → Forall (λ c, is_lower_hex c = true) (hex bs).
Proof.
  induction 1 as [|b bs Hb _ IH]; [constructor|]. unfold hex in *. cbn [flat_map app hex_byte].
  repeat constructor; [apply hex_digit_lower..|done].
  - apply N.Div0.div_lt_upper_bound; lia.
  - by apply N.mod_lt.
Qed.
Lemma lower_hex_ascii c : is_lower_hex c = true → utf8_encode c = [c].
Proof.
  unfold is_lower_hex, is_ascii_digit, between, utf8_encode. intros H.
  destruct (N.ltb_spec c 128); [done|].
  rewrite orb_true_iff, !andb_true_iff, !N.leb_le in H. lia.
Qed.
Lemma lower_hex_bytes s : Forall (λ c, is_lower_hex c = true) s → bytes s = s.
Proof.
  induction 1 as [|c s Hc _ IH]; [done|]. unfold bytes in *. cbn [flat_map].
  by rewrite (lower_hex_ascii c Hc), IH.
Qed.

(** ** Concrete instances, for evaluation *)
Module Concrete.
(** The hyphenated form: groups of 8, 4, 4, 4 and 12 hexadecimal digits. *)
Definition nibble (u : N) (i : N) : N := hex_digit (N.shiftr u (4 * i) mod 16)%N.
Definition nibbles (u : N) (hi n : nat) : list N :=
  map (λ k, nibble u (N.of_nat (hi - k))) (seq 0 n).
Definition hyphenated (u : N) : list N :=
  nibbles u 31 8 ++ [45%N] ++ nibbles u 23 4 ++ [45%N] ++ nibbles u 19 4 ++ [45%N] ++
  nibbles u 15 4 ++ [45%N] ++ nibbles u 11 12.
#[export] Instance uuid_crate : UuidCrate := {| uuid_display := hyphenated |}.

Lemma hex_digit_inj a b : (a < 16)%N → (b < 16)%N → hex_digit a = hex_digit b → a = b.
Proof.
  unfold hex_digit. intros Ha Hb. destruct (N.ltb_spec a 10), (N.ltb_spec b 10); lia.
Qed.
Lemma nibble_lower u i : is_lower_hex (nibble u i) = true.
Proof. apply hex_digit_lower. by apply N.mod_lt. Qed.
Lemma nibble_inj u v i :
  nibble u i = nibble v i → ∀ j, (j < 4)%N → N.testbit u (4 * i + j) = N.testbit v (4 * i + j).
Proof.
  intros Hn%hex_digit_inj j Hj; [|by apply N.mod_lt..].
  change 16%N with (2 ^ 4)%N in Hn.
  assert (∀ w, N.testbit w (4 * i + j) = N.testbit (N.shiftr w (4 * i) mod 2 ^ 4) j) as Hbit.
  { intros w. rewrite N.mod_pow2_bits_low by done. rewrite N.shiftr_spec by lia. f_equal. lia. }
  by rewrite !Hbit, Hn.
Qed.
Lemma nibbles_length u hi n : length (nibbles u hi n) = n.
Proof. unfold nibbles. by rewrite length_map, length_seq. Qed.
Lemma nibbles_inj u v hi n :
  nibbles u hi n = nibbles v hi n → ∀ k, k < n → nibble u (N.of_nat (hi - k)) = nibble v (N.of_nat (hi - k)).
Proof.
  unfold nibbles. intros Heq k Hk.
  assert (map (λ k, nibble u (N.of_nat (hi - k))) (seq 0 n) !! k =
          map (λ k, nibble v (N.of_nat (hi - k))) (seq 0 n) !! k) as Hl by by rewrite Heq.
  rewrite !list_lookup_fmap, lookup_seq_lt in Hl by done. by injection Hl.
Qed.
Lemma hyphenated_nibbles u v :
  hyphenated u = hyphenated v → ∀ i, i < 32 → nibble u (N.of_nat i) = nibble v (N.of_nat i).
Proof.
  unfold hyphenated. intros Heq i Hi.
  apply app_inj_1 in Heq as [H1 Heq]; [|by rewrite !nibbles_length].
  apply app_inj_1 in Heq as [_ Heq]; [|done].
  apply app_inj_1 in Heq as [H2 Heq]; [|by rewrite !nibbles_length].
  apply app_inj_1 in Heq as [_ Heq]; [|done].
  apply app_inj_1 in Heq as [H3 Heq]; [|by rewrite !nibbles_length].
  apply app_inj_1 in Heq as [_ Heq]; [|done].
  apply app_inj_1 in Heq as [H4 Heq]; [|by rewrite !nibbles_length].
  apply app_inj_1 in Heq as [_ H5]; [|done].
  assert (i < 12 ∨ 12 ≤ i < 16 ∨ 16 ≤ i < 20 ∨ 20 ≤ i < 24 ∨ 24 ≤ i < 32) as [?|[?|[?|[?|?]]]] by lia.
  - replace i with (11 - (11 - i)) by lia. apply (nibbles_inj _ _ _ _ H5). lia.
  - replace i with (15 - (15 - i)) by lia. apply (nibbles_inj _ _ _ _ H4). lia.
  - replace i with (19 - (19 - i)) by lia. apply (nibbles_inj _ _ _ _ H3). lia.
  - replace i with (23 - (23 - i)) by lia. apply (nibbles_inj _ _ _ _ H2). lia.
  - replace i with (31 - (31 - i)) by lia. apply (nibbles_inj _ _ _ _ H1). lia.
Qed.
#[export] Instance uuid_crate_laws : UuidCrateLaws.
Proof.
  split; unfold uuid_display, uuid_crate.
  - intros u v Hu Hv Heq. apply N.bits_inj. intros b.
    destruct (N.lt_ge_cases b 128) as [Hb|Hb].
    + pose proof (hyphenated_nibbles u v Heq (N.to_nat (b / 4))) as Hn.
      rewrite N2Nat.id in Hn.
      rewrite (N.div_mod b 4) by done. apply nibble_inj; [|by apply N.mod_lt].
      apply Hn.
      assert (b / 4 < 32)%N by (apply N.Div0.div_lt_upper_bound; lia). lia.
    + assert (∀ w, (w < 2 ^ 128)%N → N.testbit w b = false) as Hhigh; [|by rewrite !Hhigh].
      intros w Hw. destruct (N.eq_dec w 0%N) as [->|Hw0]; [apply N.bits_0|].
      apply N.bits_above_log2. assert (N.log2 w < 128)%N by (by apply N.log2_lt_pow2; lia). lia.
  - intros u. unfold hyphenated. rewrite !length_app, !nibbles_length. done.
  - intros u. unfold hyphenated, nibbles.
    assert (∀ hi n, Forall (λ c, is_lower_hex c || (c =? 45)%N = true)
              (map (λ k, nibble u (N.of_nat (hi - k))) (seq 0 n))) as Hn.
    { intros hi n. apply Forall_fmap, Forall_forall. intros k _. cbn. by rewrite nibble_lower. }
    repeat (apply Forall_app; split); try apply Hn; repeat constructor.
  - intros u. unfold hyphenated. rewrite !List.filter_app, !length_app.
    assert (∀ hi n, List.filter is_lower_hex (nibbles u hi n) = nibbles u hi n) as Hn.
    { intros hi n. apply List.forallb_filter_id, forallb_forall. intros c Hc. unfold nibbles in Hc.
      apply in_map_iff in Hc as (k & <- & _). apply nibble_lower. }
    by rewrite !Hn, !nibbles_length.
Qed.

(** [TimeDelta::MAX] is [i64::MAX] milliseconds. *)
Definition chrono_max : Z := (i64_max * 1000000)%Z.
#[export] Instance chrono_crate : ChronoCrate := {|
  duration_from_std d := if bool_decide (Z.of_N d ≤ chrono_max)%Z then Some (Z.of_N d) else None;
  duration_max := chrono_max;
  from_timestamp s :=
    if bool_decide (-8334601228800 ≤ s ≤ 8210266876799)%Z then Some (s * nanos_per_second)%Z else None
|}.
#[export] Instance chrono_crate_laws : ChronoCrateLaws.
Proof. split; [done|done|]. intros s t. cbn. case_bool_decide; [by intros [= <-]|done]. Qed.

(** A stand-in digest: the length and the sum of the input, padded. *)
Definition toy_digest (bs : list N) : list N :=
  let n := N.of_nat (length bs) in
  let s := foldl N.add 0%N bs in
  [n mod 256; n / 256 mod 256; s mod 256; s / 256 mod 256]%N ++ replicate 28 0%N.
#[export] Instance digest_crate : DigestCrate := {| sha256 := toy_digest |}.
#[export] Instance digest_crate_laws : DigestCrateLaws.
Proof.
  split; intros bs; [done|]. cbn.
  repeat (constructor; [first [by apply N.mod_lt|done]|]). constructor.
Qed.
End Concrete.
