(* ===== verification/Protocol.v ===== *)
(** The transport-neutral data model: [crates/cyc-protocol/src/lib.rs].

    Every [enum] is a module holding the inductive type [t] with the source's
    variants, so that [JobState.Running] reads as [JobState::Running]; every
    [struct] is a record whose fields carry a short prefix, since Rocq's
    projections share one name space.  [BTreeSet] and [BTreeMap] are ascending
    lists (see Prelude). *)
From Stdlib Require Import ZArith NArith String.
From stdpp Require Import base option list numbers.
From S2P Require Import Prelude Text Crates.
Open Scope rust_scope.

(** ** Constants *)
Definition API_VERSION : rstr := lit "cyc.dev/v1".
Definition PROTOCOL_VERSION : N := 1.
Definition DEFAULT_GIT_ARTIFACT_EXCLUDE : rstr := lit ".git/**".

(** ** Platform and node *)
Definition Capability := rstr.
(** [Capability::is_valid] *)
Definition Capability_is_valid (c : Capability) : bool := negb (blank c).
Definition CredentialRef := rstr.

Module OperatingSystem.
Inductive t := Windows | Linux | Macos.
#[export] Instance eq_dec : EqDecision t.
Proof. solve_decision. Defined.
Definition debug (x : t) : rstr :=
  match x with Windows => lit "Windows" | Linux => lit "Linux" | Macos => lit "Macos" end.
End OperatingSystem.
Export (hints) OperatingSystem.

Module Architecture.
Inductive t := X86_64 | Aarch64.
#[export] Instance eq_dec : EqDecision t.
Proof. solve_decision. Defined.
Definition debug (x : t) : rstr :=
  match x with X86_64 => lit "X86_64" | Aarch64 => lit "Aarch64" end.
End Architecture.
Export (hints) Architecture.

Module NodeTransport.
Inductive t :=
| Local
| Managed (endpoint : rstr) (credential_ref : CredentialRef)
| Ssh (host : rstr) (port : N) (username : rstr) (credential_ref : CredentialRef).
#[export] Instance eq_dec : EqDecision t.
Proof. solve_decision. Defined.
End NodeTransport.
Export (hints) NodeTransport.

Module NodeStatus.
Inductive t := Online | Degraded | Draining | Offline.
#[export] Instance eq_dec : EqDecision t.
Proof. solve_decision. Defined.
Definition default : t := Offline.
End NodeStatus.
Export (hints) NodeStatus.

Module GpuVendor.
Inductive t := Nvidia | Amd | Intel | Apple.
#[export] Instance eq_dec : EqDecision t.
Proof. solve_decision. Defined.
Definition debug (x : t) : rstr :=
  match x with Nvidia => lit "Nvidia" | Amd => lit "Amd" | Intel => lit "Intel" | Apple => lit "Apple" end.
End GpuVendor.
Export (hints) GpuVendor.

(** [{:?}] of an [Option] *)
Definition debug_option {A} (f : A → rstr) (o : option A) : rstr :=
  match o with Some a => lit "Some(" ++ f a ++ lit ")" | None => lit "None" end.

Record GpuDevice := {
  gpu_vendor : GpuVendor.t;
  gpu_model : rstr;
  gpu_total_vram_mib : N;
  gpu_available_vram_mib : N;
  gpu_allocatable : bool
}.
#[export] Instance GpuDevice_eq_dec : EqDecision GpuDevice.
Proof. solve_decision. Defined.

Record NodeResources := {
  res_logical_cpu_cores : N;
  res_available_cpu_cores : N;
  res_memory_mib : N;
  res_available_memory_mib : N;
  res_disk_mib : N;
  res_available_disk_mib : N;
  res_gpus : list GpuDevice
}.
#[export] Instance NodeResources_eq_dec : EqDecision NodeResources.
Proof. solve_decision. Defined.

Record NodeLoad := {
  load_cpu_percent : N;
  load_queue_depth : N;
  load_running_jobs : N
}.
#[export] Instance NodeLoad_eq_dec : EqDecision NodeLoad.
Proof. solve_decision. Defined.

Record Node := {
  node_id : Uuid;
  node_name : rstr;
  node_enabled : bool;
  node_transport : NodeTransport.t;
  node_os : OperatingSystem.t;
  node_arch : Architecture.t;
  node_status : NodeStatus.t;
  node_capabilities : list Capability;
  node_resources : NodeResources;
  node_load : NodeLoad;
  node_priority : Z;
  node_labels : list (rstr * rstr);
  node_cached_sources : list rstr;
  node_last_seen_at : option DateTime
}.
#[export] Instance Node_eq_dec : EqDecision Node.
Proof. solve_decision. Defined.

(** ** Jobs *)
Record JobOrigin := {
  origin_codex_session_id : option rstr;
  origin_project_id : option rstr;
  origin_workspace_id : option rstr
}.
#[export] Instance JobOrigin_eq_dec : EqDecision JobOrigin.
Proof. solve_decision. Defined.

Module JobKind.
Inductive t := Shell | Build | Test | Lint | Container | Gpu | Batch.
#[export] Instance eq_dec : EqDecision t.
Proof. solve_decision. Defined.
Definition debug (x : t) : rstr :=
  match x with
  | Shell => lit "Shell" | Build => lit "Build" | Test => lit "Test" | Lint => lit "Lint"
  | Container => lit "Container" | Gpu => lit "Gpu" | Batch => lit "Batch"
  end.
End JobKind.
Export (hints) JobKind.

Module SourceSpec.
Inductive t :=
| Git (repository revision : rstr)
| Snapshot (digest : rstr) (size_bytes : option N).
#[export] Instance eq_dec : EqDecision t.
Proof. solve_decision. Defined.
(** [SourceSpec::cache_key] *)
Definition cache_key (s : t) : rstr :=
  match s with
  | Git repository revision => lit "git:" ++ repository ++ lit "@" ++ revision
  | Snapshot digest _ => lit "snapshot:" ++ digest
  end.
End SourceSpec.
Export (hints) SourceSpec.

Record GpuRequirement := {
  gr_vendor : option GpuVendor.t;
  gr_min_vram_mib : option N;
  gr_exclusive : bool
}.
#[export] Instance GpuRequirement_eq_dec : EqDecision GpuRequirement.
Proof. solve_decision. Defined.
Definition GpuRequirement_default : GpuRequirement :=
  {| gr_vendor := None; gr_min_vram_mib := None; gr_exclusive := true |}.

Record JobRequirements := {
  req_os : option OperatingSystem.t;
  req_arch : option Architecture.t;
  req_capabilities : list Capability;
  req_min_cpu_cores : option N;
  req_min_memory_mib : option N;
  req_min_disk_mib : option N;
  req_gpu : option GpuRequirement
}.
#[export] Instance JobRequirements_eq_dec : EqDecision JobRequirements.
Proof. solve_decision. Defined.

Record GpuResourceRequest := {
  grr_device_id : option rstr;
  grr_vendor : option GpuVendor.t;
  grr_vram_mib : N;
  grr_exclusive : bool
}.
#[export] Instance GpuResourceRequest_eq_dec : EqDecision GpuResourceRequest.
Proof. solve_decision. Defined.

Record ResourceRequest := {
  rr_slots : N;
  rr_cpu_cores : N;
  rr_memory_mib : N;
  rr_disk_mib : N;
  rr_gpu : option GpuResourceRequest
}.
#[export] Instance ResourceRequest_eq_dec : EqDecision ResourceRequest.
Proof. solve_decision. Defined.

Module Shell.
Inductive t := Powershell | Bash | Zsh | Cmd.
#[export] Instance eq_dec : EqDecision t.
Proof. solve_decision. Defined.
End Shell.
Export (hints) Shell.

Record JobStep := {
  step_name : rstr;
  step_shell : option Shell.t;
  step_script : rstr;
  step_working_directory : option rstr;
  step_timeout_seconds : option N
}.
#[export] Instance JobStep_eq_dec : EqDecision JobStep.
Proof. solve_decision. Defined.

Record ArtifactSpec := {
  art_include : list rstr;
  art_exclude : list rstr;
  art_retention_days : option N
}.
#[export] Instance ArtifactSpec_eq_dec : EqDecision ArtifactSpec.
Proof. solve_decision. Defined.

(** [ArtifactSpec::default] *)
Definition ArtifactSpec_default : ArtifactSpec :=
  {| art_include := []; art_exclude := [DEFAULT_GIT_ARTIFACT_EXCLUDE]; art_retention_days := None |}.

Module PlacementPolicy.
Inductive t := Balanced | Performance | Manual.
#[export] Instance eq_dec : EqDecision t.
Proof. solve_decision. Defined.
End PlacementPolicy.
Export (hints) PlacementPolicy.

Record JobSpec := {
  job_api_version : rstr;
  job_id : Uuid;
  job_origin : option JobOrigin;
  job_kind : JobKind.t;
  job_source : SourceSpec.t;
  job_requirements : JobRequirements;
  job_resource_request : option ResourceRequest;
  job_steps : list JobStep;
  job_artifacts : ArtifactSpec;
  job_timeout_seconds : option N;
  job_placement_policy : PlacementPolicy.t;
  job_preferred_node_id : option Uuid
}.
#[export] Instance JobSpec_eq_dec : EqDecision JobSpec.
Proof. solve_decision. Defined.

(** ** Placement evidence *)
Module RejectionCode.
Inductive t :=
| Disabled | Offline | Draining | StaleNode | ManualNodeRequired | ManualNodeMismatch
| WrongOs | WrongArchitecture | MissingCapability | InsufficientCpu | InsufficientMemory
| InsufficientDisk | GpuRequired | GpuUnavailable | GpuVendorMismatch | InsufficientVram
| ExclusiveGpuUnavailable | PolicyJobKindDenied | BatteryDisallowed | CpuLimitExceeded
| CpuEwmaLimitExceeded | MemoryLimitExceeded | TemperatureLimitExceeded | SlotLimitReached
| ContainmentLimitReached.
#[export] Instance eq_dec : EqDecision t.
Proof. solve_decision. Defined.
End RejectionCode.
Export (hints) RejectionCode.

Record PlacementRejection := { rej_code : RejectionCode.t; rej_detail : rstr }.
#[export] Instance PlacementRejection_eq_dec : EqDecision PlacementRejection.
Proof. solve_decision. Defined.

Record ScoreComponent := { sc_key : rstr; sc_value : Z; sc_detail : rstr }.
#[export] Instance ScoreComponent_eq_dec : EqDecision ScoreComponent.
Proof. solve_decision. Defined.

Record PlacementCandidateExplain := {
  cand_node_id : Uuid;
  cand_node_name : rstr;
  cand_eligible : bool;
  cand_score : option Z;
  cand_score_components : list ScoreComponent;
  cand_rejection_reasons : list PlacementRejection
}.
#[export] Instance PlacementCandidateExplain_eq_dec : EqDecision PlacementCandidateExplain.
Proof. solve_decision. Defined.

Record PlacementExplain := {
  expl_policy : PlacementPolicy.t;
  expl_selected_node_id : option Uuid;
  expl_candidates : list PlacementCandidateExplain
}.
#[export] Instance PlacementExplain_eq_dec : EqDecision PlacementExplain.
Proof. solve_decision. Defined.

(** ** Constructors with defaults *)
Definition GpuResourceRequest_default : GpuResourceRequest :=
  {| grr_device_id := None; grr_vendor := None; grr_vram_mib := 0; grr_exclusive := true |}.
Definition ResourceRequest_default : ResourceRequest :=
  {| rr_slots := 1; rr_cpu_cores := 1; rr_memory_mib := 0; rr_disk_mib := 0; rr_gpu := None |}.
Definition JobRequirements_default : JobRequirements :=
  {| req_os := None; req_arch := None; req_capabilities := []; req_min_cpu_cores := None;
     req_min_memory_mib := None; req_min_disk_mib := None; req_gpu := None |}.
Definition JobStep_new (name script : rstr) : JobStep :=
  {| step_name := name; step_shell := None; step_script := script;
     step_working_directory := None; step_timeout_seconds := None |}.
(** [JobSpec::new]; the fresh identifier is an argument. *)
Definition JobSpec_new (id : Uuid) (kind : JobKind.t) (source : SourceSpec.t) (steps : list JobStep) :
    JobSpec :=
  {| job_api_version := API_VERSION; job_id := id; job_origin := None; job_kind := kind;
     job_source := source; job_requirements := JobRequirements_default;
     job_resource_request := None; job_steps := steps; job_artifacts := ArtifactSpec_default;
     job_timeout_seconds := None; job_placement_policy := PlacementPolicy.Balanced;
     job_preferred_node_id := None |}.
(** [Node::new]; the fresh identifier and the clock are arguments. *)
Definition Node_new (id : Uuid) (now : DateTime) (name : rstr) (transport : NodeTransport.t)
    (os : OperatingSystem.t) (arch : Architecture.t) : Node :=
  {| node_id := id; node_name := name; node_enabled := true; node_transport := transport;
     node_os := os; node_arch := arch; node_status := NodeStatus.Offline;
     node_capabilities := [];
     node_resources := {| res_logical_cpu_cores := 0; res_available_cpu_cores := 0;
       res_memory_mib := 0; res_available_memory_mib := 0; res_disk_mib := 0;
       res_available_disk_mib := 0; res_gpus := [] |};
     node_load := {| load_cpu_percent := 0; load_queue_depth := 0; load_running_jobs := 0 |};
     node_priority := 0; node_labels := []; node_cached_sources := [];
     node_last_seen_at := Some now |}.
