(* ===== verification/PortablePath.v ===== *)
(** Portable relative paths: [validate_portable_relative_path] and
    [validate_portable_relative_glob] of [crates/cyc-protocol/src/lib.rs].

    The validator is lexical.  Its abstract specification [portable] lists the
    forbidden forms, and [resolve] gives the meaning of a path below a directory
    ("." stays, ".." climbs), so that acceptance implies containment. *)
From Stdlib Require Import ZArith NArith Lia String.
From stdpp Require Import base option list numbers sets.
From S2P Require Import Prelude Text.
Open Scope rust_scope.

Module PortablePathError.
Inductive t :=
| Empty | Nul | Backslash | Absolute | DrivePrefix | EmptySegment | DotSegment | ParentSegment
| NegatedGlob.
#[export] Instance eq_dec : EqDecision t.
Proof. solve_decision. Defined.
Definition display (e : t) : rstr :=
  match e with
  | Empty => lit "path must not be empty"
  | Nul => lit "NUL is not allowed"
  | Backslash => lit "backslashes are not portable"
  | Absolute => lit "absolute paths are not allowed"
  | DrivePrefix => lit "Windows drive prefixes are not allowed"
  | EmptySegment => lit "empty path segments are not allowed"
  | DotSegment => lit "dot path segments are not allowed"
  | ParentSegment => lit "parent path segments are not allowed"
  | NegatedGlob => lit "negated glob patterns are not allowed"
  end.
End PortablePathError.
Export (hints) PortablePathError.
Import PortablePathError.

Definition SLASH : char := chr "/".
Definition BACKSLASH : char := chr "\".
Definition dot_segment : rstr := lit ".".
Definition parent_segment : rstr := lit "..".

(** [value.as_bytes().get(0..2).is_some_and(|p| p[0].is_ascii_alphabetic() && p[1] == b':')] *)
Definition has_drive_prefix (value : rstr) : bool :=
  match bytes value with
  | b0 :: b1 :: _ => is_ascii_alphabetic b0 && N.eqb b1 (chr ":")
  | _ => false
  end.

(** The body of the segment loop. *)
Definition check_segment (segment : rstr) : result t unit :=
  if (segment == []) then Err EmptySegment
  else if segment == dot_segment then Err DotSegment
  else if segment == parent_segment then Err ParentSegment
  else Ok tt.

Definition validate_portable_relative (value : rstr) (glob : bool) : result t unit :=
  reject_if (is_empty value) Empty;;
  reject_if (contains_char 0%N value) Nul;;
  reject_if (contains_char BACKSLASH value) Backslash;;
  reject_if (starts_with (lit "/") value) Absolute;;
  reject_if (has_drive_prefix value) DrivePrefix;;
  reject_if (glob && starts_with (lit "!") value) NegatedGlob;;
  for_each check_segment (split SLASH value).

Definition validate_portable_relative_path (value : rstr) := validate_portable_relative value false.
Definition validate_portable_relative_glob (value : rstr) := validate_portable_relative value true.

(** [has_literal_git_segment] *)
Definition has_literal_git_segment (value : rstr) : bool :=
  existsb (λ segment, segment == lit ".git") (split SLASH value).

(** ** Specification *)

Definition ordinary_segment (segment : rstr) : Prop :=
  segment ≠ [] ∧ segment ≠ dot_segment ∧ segment ≠ parent_segment.

(** What a portable path is: no NUL, no backslash, no drive prefix, and only
    ordinary segments between slashes. *)
Definition portable (value : rstr) : Prop :=
  (0%N ∉ value) ∧ (BACKSLASH ∉ value) ∧ has_drive_prefix value = false ∧
  Forall ordinary_segment (split SLASH value).

(** Lexical resolution of segments below a stack of directories; [None] when the
    path climbs above the start. *)
Fixpoint resolve (stack : list rstr) (segments : list rstr) : option (list rstr) :=
  match segments with
  | [] => Some stack
  | seg :: segs =>
      if seg == [] then resolve stack segs
      else if seg == dot_segment then resolve stack segs
      else if seg == parent_segment then
        match stack with [] => None | _ :: stack' => resolve stack' segs end
      else resolve (seg :: stack) segs
  end.

Lemma check_segment_Ok segment : check_segment segment = Ok tt ↔ ordinary_segment segment.
Proof. unfold check_segment, ordinary_segment. repeat case_bool_decide; naive_solver. Qed.

(** A first segment that is ordinary already excludes the empty and the
    absolute form. *)
Lemma ordinary_segments_relative value :
  Forall ordinary_segment (split SLASH value) →
  is_empty value = false ∧ starts_with (lit "/") value = false.
Proof.
  intros H. destruct value as [|c value].
  - cbn in H. apply Forall_cons in H as [[H _] _]. done.
  - split; [done|]. destruct (starts_with (lit "/") (c :: value)) eqn:E; [|done].
    apply starts_with_true in E as [r [= -> ->]]. cbn in H.
    apply Forall_cons in H as [[H _] _]. done.
Qed.

Lemma validate_portable_relative_Ok value glob :
  validate_portable_relative value glob = Ok tt ↔
  portable value ∧ glob && starts_with (lit "!") value = false.
Proof.
  unfold validate_portable_relative, portable.
  rewrite !bind_unit_Ok, !reject_if_Ok, !contains_char_false, for_each_Ok.
  setoid_rewrite check_segment_Ok.
  split; [naive_solver|].
  intros ((? & ? & ? & Hs) & ?). destruct (ordinary_segments_relative _ Hs). done.
Qed.

(** Ordinary segments are pushed one by one. *)
Lemma resolve_ordinary stack segs :
  Forall ordinary_segment segs → resolve stack segs = Some (rev segs ++ stack).
Proof.
  revert stack. induction segs as [|seg segs IH]; intros stack; [done|].
  rewrite Forall_cons. intros [(? & ? & ?) Hsegs]. cbn.
  repeat case_bool_decide; try done. rewrite IH by done. by rewrite <-app_assoc.
Qed.

(** A path with only ordinary segments that does not start like an absolute or
    negated form is accepted as a path and as a glob. *)
Lemma path_is_glob value :
  starts_with (lit "!") value = false →
  validate_portable_relative_path value = Ok tt →
  validate_portable_relative_glob value = Ok tt.
Proof.
  unfold validate_portable_relative_path, validate_portable_relative_glob.
  rewrite !validate_portable_relative_Ok. intros ->. naive_solver.
Qed.

Lemma validate_portable_relative_iff (value : rstr) (glob : bool) :
  validate_portable_relative value glob = Ok tt ↔
  portable value ∧ (glob = true → ¬ ∃ rest, value = lit "!" ++ rest).
Proof.
  rewrite validate_portable_relative_Ok, andb_false_iff, <-starts_with_true.
  destruct glob, (starts_with (lit "!") value); naive_solver.
Qed.

(** ** Properties *)

(** The validator accepts exactly the portable paths: it returns [Ok] iff
    the value has no NUL, no backslash, no Windows drive prefix, and every
    segment is non-empty and neither "." nor "..".  For a glob, a leading "!"
    is rejected too. *)
Theorem validate_portable_relative_spec (value : rstr) (glob : bool) :
  validate_portable_relative value glob = Ok tt ↔
  portable value ∧ (glob = true → ¬ ∃ rest, value = lit "!" ++ rest).
Proof. apply validate_portable_relative_iff. Qed.

(** Containment: an accepted path, resolved lexically below any directory,
    stays below it and keeps every segment: the result is that directory
    followed by the path's own segments. *)
Theorem portable_path_contained (root : list rstr) (value : rstr)
    (H : validate_portable_relative_path value = Ok tt) :
  resolve root (split SLASH value) = Some (rev (split SLASH value) ++ root) ∧
  split SLASH value ≠ [].
Proof.
  apply validate_portable_relative_Ok in H as [(_ & _ & _ & Hs) _].
  split; [by apply resolve_ordinary|apply split_not_nil].
Qed.

Lemma portable_path_contained_witness :
  resolve [lit "job"] (split SLASH (lit "src/build")) =
    Some (rev (split SLASH (lit "src/build")) ++ [lit "job"]) ∧
  split SLASH (lit "src/build") ≠ [].
Proof. exact (portable_path_contained [lit "job"] (lit "src/build") eq_refl). Defined.
