(* ===== verification/Repository.v ===== *)
(** Public HTTPS repositories: [validate_public_https_repository] and its
    helpers in [crates/cyc-protocol/src/lib.rs], with the standard library's
    [IpAddr] parser they call.

    The reference for the address classification is a table of CIDR blocks. *)
From Stdlib Require Import ZArith NArith Lia String.
From stdpp Require Import base option list numbers sets.
From S2P Require Import Prelude Text.
Open Scope rust_scope.
Open Scope N_scope.

(** ** [std::net]: addresses and their parser

    A parser consumes a prefix of the text and returns the rest. *)
Record Ipv4Addr := { v4_a : N; v4_b : N; v4_c : N; v4_d : N }.
(** The eight 16-bit segments. *)
Definition Ipv6Addr := list N.
Module IpAddr.
Inductive t := V4 (address : Ipv4Addr) | V6 (address : Ipv6Addr).
End IpAddr.

Definition to_digit (radix : N) (c : char) : option N :=
  let d := if is_ascii_digit c then Some (c - 48)
           else if between 97 122 c then Some (c - 87)
           else if between 65 90 c then Some (c - 55) else None in
  match d with Some n => if n <? radix then Some n else None | None => None end.

(** [read_number(radix, Some(max_digits), allow_zero_prefix)]: all digits are
    consumed, more than [max_digits] of them fail. *)
Fixpoint read_digits (radix acc : N) (count : nat) (s : rstr) : N * nat * rstr :=
  match s with
  | c :: s' => match to_digit radix c with
               | Some d => read_digits radix (radix * acc + d) (S count) s'
               | None => (acc, count, s)
               end
  | [] => (acc, count, s)
  end.
Definition read_number (radix : N) (max_digits : nat) (allow_zero_prefix : bool) (max : N)
    (s : rstr) : option (N * rstr) :=
  let '(n, count, rest) := read_digits radix 0 0 s in
  if (count =? 0)%nat || (max_digits <? count)%nat then None
  else if negb allow_zero_prefix && starts_with (lit "0") s && (1 <? count)%nat then None
  else if n <=? max then Some (n, rest) else None.

(** [read_separator(sep, i, inner)]: the separator is read only for [i > 0]. *)
Definition read_separator {A} (sep : char) (i : nat) (inner : rstr → option (A * rstr))
    (s : rstr) : option (A * rstr) :=
  match i with
  | O => inner s
  | S _ => match s with
           | c :: s' => if c =? sep then inner s' else None
           | [] => None
           end
  end.

Definition read_ipv4_addr (s : rstr) : option (Ipv4Addr * rstr) :=
  let octet := read_number 10 3 false 255 in
  '(a, s) ← read_separator (chr ".") 0 octet s;
  '(b, s) ← read_separator (chr ".") 1 octet s;
  '(c, s) ← read_separator (chr ".") 2 octet s;
  '(d, s) ← read_separator (chr ".") 3 octet s;
  Some ({| v4_a := a; v4_b := b; v4_c := c; v4_d := d |}, s).

(** [read_groups]: at most [fuel] more groups, the index [i] counts those read;
    an embedded IPv4 address stands for the last two. *)
Fixpoint read_groups (fuel i : nat) (s : rstr) : list N * bool * rstr :=
  match fuel with
  | O => ([], false, s)
  | S fuel' =>
      let v4 := if (0 <? fuel')%nat then read_separator (chr ":") i read_ipv4_addr s else None in
      match v4 with
      | Some (a, rest) => ([256 * v4_a a + v4_b a; 256 * v4_c a + v4_d a], true, rest)
      | None =>
          match read_separator (chr ":") i (read_number 16 4 true 65535) s with
          | Some (g, rest) =>
              let '(gs, embedded, rest') := read_groups fuel' (S i) rest in
              (g :: gs, embedded, rest')
          | None => ([], false, s)
          end
      end
  end.

Definition read_ipv6_addr (s : rstr) : option (Ipv6Addr * rstr) :=
  let '(head, head_ipv4, rest) := read_groups 8 0 s in
  if (length head =? 8)%nat then Some (head, rest)
  else if head_ipv4 then None
  else rest ← strip_prefix (lit "::") rest;
       let '(tail, _, rest) := read_groups (7 - length head) 0 rest in
       Some (head ++ replicate (8 - length head - length tail) 0 ++ tail, rest).

(** [str::parse::<IpAddr>]: the whole text has to be consumed. *)
Definition parse_ip (s : rstr) : option IpAddr.t :=
  let r := match read_ipv4_addr s with
           | Some (a, rest) => Some (IpAddr.V4 a, rest)
           | None => match read_ipv6_addr s with
                     | Some (a, rest) => Some (IpAddr.V6 a, rest)
                     | None => None
                     end
           end in
  match r with Some (a, []) => Some a | _ => None end.

(** [Ipv6Addr::segments()[0]], [is_unspecified], [is_loopback], [is_multicast],
    [to_ipv4] *)
Definition v6_segment (a : Ipv6Addr) (i : nat) : N := nth i a 0.
Definition v6_is_unspecified (a : Ipv6Addr) : bool := bool_decide (a = [0;0;0;0;0;0;0;0]).
Definition v6_is_loopback (a : Ipv6Addr) : bool := bool_decide (a = [0;0;0;0;0;0;0;1]).
Definition v6_is_multicast (a : Ipv6Addr) : bool := N.shiftr (v6_segment a 0) 8 =? 255.
Definition v6_to_ipv4 (a : Ipv6Addr) : option Ipv4Addr :=
  match a with
  | [s0; s1; s2; s3; s4; x; ab; cd] =>
      if (s0 =? 0) && (s1 =? 0) && (s2 =? 0) && (s3 =? 0) && (s4 =? 0) &&
         ((x =? 0) || (x =? 65535)) then
        Some {| v4_a := ab / 256; v4_b := ab mod 256; v4_c := cd / 256; v4_d := cd mod 256 |}
      else None
  | _ => None
  end.

(** ** The repository's checks *)

Definition is_public_ipv4 (address : Ipv4Addr) : bool :=
  let a := v4_a address in
  let b := v4_b address in
  negb ((a =? 0) || (a =? 10) || (a =? 127)
        || ((a =? 100) && between 64 127 b)
        || ((a =? 169) && (b =? 254))
        || ((a =? 172) && between 16 31 b)
        || ((a =? 192) && (b =? 168))
        || ((a =? 198) && between 18 19 b)
        || (224 <=? a)).

Definition is_public_ipv6 (address : Ipv6Addr) : bool :=
  if v6_is_unspecified address || v6_is_loopback address || v6_is_multicast address then false
  else
    let first := v6_segment address 0 in
    if (N.land first 0xfe00 =? 0xfc00) || (N.land first 0xffc0 =? 0xfe80) then false
    else is_none_or (v6_to_ipv4 address) is_public_ipv4.

Definition is_public_repository_host (host : rstr) : bool :=
  if eq_ignore_ascii_case host (lit "localhost")
     || ends_with (lit ".localhost") (to_ascii_lowercase host)
     || ends_with (lit ".local") (to_ascii_lowercase host)
  then false
  else match parse_ip host with
       | Some (IpAddr.V4 address) => is_public_ipv4 address
       | Some (IpAddr.V6 address) => is_public_ipv6 address
       | None => true
       end.

Definition valid_port (port : rstr) : bool :=
  is_some_and (parse_u16 port) (λ p, p != 0).
Definition valid_port_suffix (suffix : rstr) : bool :=
  is_some_and (strip_prefix (lit ":") suffix) valid_port.

(** The messages of [ValidationError::InvalidSource] in this part. *)
Definition msg_canonical : rstr := lit "git repository must be a canonical public HTTPS URL without query or fragment".
Definition msg_https : rstr := lit "git repository must use https://".
Definition msg_needs_path : rstr := lit "git repository URL must contain a repository path".
Definition msg_userinfo : rstr := lit "git repository URL must not contain userinfo".
Definition msg_path : rstr := lit "git repository URL must contain a canonical repository path".
Definition msg_host : rstr := lit "git repository host is invalid".
Definition msg_port : rstr := lit "git repository port is invalid".
Definition msg_brackets : rstr := lit "IPv6 git repository hosts must use brackets".
Definition msg_public : rstr := lit "git repository host must be public".

(** [repository_host], returning the error's message *)
Definition repository_host (authority : rstr) : result rstr rstr :=
  match strip_prefix (lit "[") authority with
  | Some bracketed =>
      match split_once (chr "]") bracketed with
      | None => Err msg_host
      | Some (host, suffix) =>
          if negb (is_empty suffix) && negb (valid_port_suffix suffix) then Err msg_port
          else if is_empty host then Err msg_host
          else Ok host
      end
  | None =>
      if (1 <? count_char (chr ":") authority)%nat then Err msg_brackets
      else
        let '(host, suffix) := unwrap_or (split_once (chr ":") authority) (authority, []) in
        if is_empty host
           || negb (forallb (λ b, is_ascii_alphanumeric b || (b =? chr ".") || (b =? chr "-"))
                            (bytes host))
           || starts_with (lit ".") host || ends_with (lit ".") host
        then Err msg_host
        else if negb (is_empty suffix) && negb (valid_port suffix) then Err msg_port
        else Ok host
  end.

Definition validate_public_https_repository (repository : rstr) : result rstr unit :=
  if (trim repository != repository) || has_control repository
     || existsb (λ c, (c =? chr "?") || (c =? chr "#") || (c =? chr "\")) repository
  then Err msg_canonical
  else match strip_prefix (lit "https://") repository with
  | None => Err msg_https
  | Some remainder =>
      match split_once (chr "/") remainder with
      | None => Err msg_needs_path
      | Some (authority, path) =>
          if is_empty authority || contains_char (chr "@") authority then Err msg_userinfo
          else if is_empty path
               || existsb is_empty (split (chr "/") path)
               || existsb (λ seg, (seg == lit ".") || (seg == lit "..")) (split (chr "/") path)
          then Err msg_path
          else host ← repository_host authority;
               reject_if (negb (is_public_repository_host host)) msg_public
      end
  end.

Close Scope N_scope.

(** ** Reference classification: CIDR blocks *)

Record cidr := { block_base : N; block_bits : N }.
Definition in_block (width : N) (b : cidr) (v : N) : Prop :=
  N.shiftr v (width - block_bits b) = N.shiftr (block_base b) (width - block_bits b).

Definition v4_well_formed (a : Ipv4Addr) : Prop :=
  (v4_a a < 256 ∧ v4_b a < 256 ∧ v4_c a < 256 ∧ v4_d a < 256)%N.
Definition v4_value (a : Ipv4Addr) : N :=
  (((v4_a a * 256 + v4_b a) * 256 + v4_c a) * 256 + v4_d a)%N.

Definition dotted (a b c d bits : N) : cidr :=
  {| block_base := v4_value {| v4_a := a; v4_b := b; v4_c := c; v4_d := d |}; block_bits := bits |}.
(** "This network", the private blocks, loopback, shared address space,
    link-local, benchmarking, multicast and reserved. *)
Definition reserved_v4 : list cidr :=
  [dotted 0 0 0 0 8; dotted 10 0 0 0 8; dotted 127 0 0 0 8; dotted 100 64 0 0 10;
   dotted 169 254 0 0 16; dotted 172 16 0 0 12; dotted 192 168 0 0 16; dotted 198 18 0 0 15;
   dotted 224 0 0 0 3].
Definition reserved_ipv4 (a : Ipv4Addr) : Prop :=
  Exists (λ b, in_block 32 b (v4_value a)) reserved_v4.

(** Unspecified, loopback, multicast, unique local and link-local addresses,
    and the IPv4-compatible and IPv4-mapped forms of a reserved IPv4 address. *)
Definition v6_well_formed (a : Ipv6Addr) : Prop :=
  length a = 8%nat ∧ Forall (λ s, (s < 65536)%N) a.
Definition reserved_ipv6 (a : Ipv6Addr) : Prop :=
  a = [0;0;0;0;0;0;0;0]%N ∨ a = [0;0;0;0;0;0;0;1]%N ∨
  in_block 16 {| block_base := 0xff00; block_bits := 8 |} (v6_segment a 0) ∨
  in_block 16 {| block_base := 0xfc00; block_bits := 7 |} (v6_segment a 0) ∨
  in_block 16 {| block_base := 0xfe80; block_bits := 10 |} (v6_segment a 0) ∨
  ∃ v4, v6_to_ipv4 a = Some v4 ∧ reserved_ipv4 v4.

(** A block of at most 16 bits only reads the first two octets. *)
Lemma v4_value_shift a b c d k :
  (c < 256 → d < 256 → k ≤ 16 →
   N.shiftr (v4_value {| v4_a := a; v4_b := b; v4_c := c; v4_d := d |}) (32 - k) =
   N.shiftr (a * 256 + b) (16 - k))%N.
Proof.
  intros Hc Hd Hk. unfold v4_value; cbn [v4_a v4_b v4_c v4_d].
  rewrite !N.shiftr_div_pow2. replace (32 - k)%N with (16 + (16 - k))%N by lia.
  rewrite N.pow_add_r, <-N.Div0.div_div. f_equal. change (2 ^ 16)%N with 65536%N.
  symmetry. apply (N.div_unique _ _ _ (c * 256 + d)%N); lia.
Qed.

(** The reserved blocks, read from the first two octets. *)
Definition reserved_prefix (a b : N) : bool :=
  existsb (λ blk, N.shiftr (a * 256 + b) (16 - block_bits blk) =?
                  N.shiftr (N.shiftr (block_base blk) 16) (16 - block_bits blk))%N reserved_v4.

Lemma reserved_ipv4_prefix a b c d :
  (c < 256)%N → (d < 256)%N →
  reserved_ipv4 {| v4_a := a; v4_b := b; v4_c := c; v4_d := d |} ↔ reserved_prefix a b = true.
Proof.
  intros Hc Hd. unfold reserved_ipv4, reserved_prefix. rewrite existsb_true.
  assert (Forall (λ blk, block_bits blk ≤ 16)%N reserved_v4) as Hbits by by repeat constructor.
  assert (Forall (λ blk, N.shiftr (block_base blk) (32 - block_bits blk) =
            N.shiftr (N.shiftr (block_base blk) 16) (16 - block_bits blk)) reserved_v4)%N as Hbase
    by by repeat constructor.
  induction Hbits as [|blk l Hk Hl IH]; inversion Hbase; subst; [by rewrite !Exists_nil|].
  rewrite !Exists_cons, IH by done. unfold in_block at 1.
  rewrite v4_value_shift by auto. by rewrite H1, N.eqb_eq.
Qed.

(** A test on the first octet (or the first two) is a test on the leading bits. *)
Lemma is_public_ipv4_reserved (a : Ipv4Addr) :
  v4_well_formed a → is_public_ipv4 a = false ↔ reserved_ipv4 a.
Proof.
  destruct a as [a b c d]. intros (Ha & Hb & Hc & Hd); cbn in *.
  rewrite reserved_ipv4_prefix by auto.
  enough (negb (is_public_ipv4 {| v4_a := a; v4_b := b; v4_c := c; v4_d := d |}) =
          reserved_prefix a b) as <- by by rewrite negb_true_iff.
  apply eqb_prop.
  apply (all_byte_pairs_spec (λ a b, eqb
    (negb (is_public_ipv4 {| v4_a := a; v4_b := b; v4_c := 0; v4_d := 0 |})) (reserved_prefix a b)));
    [by vm_compute|done..].
Qed.

Lemma in_block16 base bits v :
  in_block 16 {| block_base := base; block_bits := bits |} v ↔
  N.shiftr v (16 - bits) = N.shiftr base (16 - bits).
Proof. done. Qed.

Lemma word_split v : (v < 65536 → v / 256 < 256 ∧ v mod 256 < 256 ∧ v = v / 256 * 256 + v mod 256)%N.
Proof.
  intros. split_and!; [by apply N.Div0.div_lt_upper_bound|by apply N.mod_lt|].
  pose proof (N.div_mod v 256). lia.
Qed.

(** The three masks of [is_public_ipv6] are block tests on the first segment. *)
Lemma v6_masks v :
  (v < 65536)%N →
  ((N.shiftr v 8 =? 255) = (N.shiftr v 8 =? N.shiftr 0xff00 8) ∧
   (N.land v 0xfe00 =? 0xfc00) = (N.shiftr v 9 =? N.shiftr 0xfc00 9) ∧
   (N.land v 0xffc0 =? 0xfe80) = (N.shiftr v 6 =? N.shiftr 0xfe80 6))%N.
Proof.
  intros Hv. destruct (word_split v Hv) as (Hh & Hl & ->).
  split; [done|].
  split; apply eqb_prop.
  - apply (all_byte_pairs_spec (λ h l, eqb (N.land (h * 256 + l) 0xfe00 =? 0xfc00)
      (N.shiftr (h * 256 + l) 9 =? N.shiftr 0xfc00 9))%N); [by vm_compute|done..].
  - apply (all_byte_pairs_spec (λ h l, eqb (N.land (h * 256 + l) 0xffc0 =? 0xfe80)
      (N.shiftr (h * 256 + l) 6 =? N.shiftr 0xfe80 6))%N); [by vm_compute|done..].
Qed.

Lemma v6_to_ipv4_well_formed a v4 :
  Forall (λ s, (s < 65536)%N) a → v6_to_ipv4 a = Some v4 → v4_well_formed v4.
Proof.
  intros Hs H. unfold v6_to_ipv4 in H.
  destruct a as [|s0 [|s1 [|s2 [|s3 [|s4 [|x [|ab [|cd [|]]]]]]]]]; try done.
  destruct (_ && _); [|done]. simplify_eq. rewrite !Forall_cons in Hs.
  destruct Hs as (_ & _ & _ & _ & _ & _ & Hab & Hcd & _).
  apply word_split in Hab as (? & ? & _), Hcd as (? & ? & _). done.
Qed.

(** *** The parser yields well-formed addresses *)
Lemma read_number_bound radix digits zero max s n rest :
  read_number radix digits zero max s = Some (n, rest) → (n ≤ max)%N.
Proof.
  unfold read_number. destruct (read_digits radix 0 0 s) as [[m count] r].
  case_guards. intros [= -> ->]. by apply N.leb_le.
Qed.
Lemma read_separator_inner {A} sep i (inner : rstr → option (A * rstr)) s r :
  read_separator sep i inner s = Some r → ∃ s', inner s' = Some r.
Proof.
  unfold read_separator. destruct i; [by eauto|]. destruct s as [|c s]; [done|].
  destruct (c =? sep)%N; [by eauto|done].
Qed.
Lemma read_ipv4_addr_well_formed s a rest :
  read_ipv4_addr s = Some (a, rest) → v4_well_formed a.
Proof.
  unfold read_ipv4_addr. intros H.
  repeat match type of H with
  | (_ ≫= _) = Some _ => let Hr := fresh in apply bind_Some in H as ([? ?] & Hr & H);
      apply read_separator_inner in Hr as [? Hr%read_number_bound]
  end.
  simplify_eq. unfold v4_well_formed; cbn. lia.
Qed.
Lemma read_groups_bound fuel i s gs embedded rest :
  read_groups fuel i s = (gs, embedded, rest) →
  Forall (λ g, (g < 65536)%N) gs ∧ length gs ≤ fuel.
Proof.
  revert i s gs embedded rest.
  induction fuel as [|fuel IH]; intros i s gs embedded rest H; cbn [read_groups] in H.
  { simplify_eq. split; [constructor|cbn; lia]. }
  destruct (if (0 <? fuel)%nat then _ else _) as [[a r]|] eqn:Hv4.
  { destruct (Nat.ltb_spec 0 fuel); [|done].
    apply read_separator_inner in Hv4 as [? (? & ? & ? & ?)%read_ipv4_addr_well_formed].
    simplify_eq. split; [repeat constructor; lia|cbn; lia]. }
  destruct (read_separator _ _ (read_number 16 4 true 65535) _) as [[g r]|] eqn:Hg.
  - apply read_separator_inner in Hg as [? Hg%read_number_bound].
    destruct (read_groups fuel (S i) r) as [[gs' e'] r'] eqn:Hgs. simplify_eq.
    apply IH in Hgs as [? ?]. split; [constructor; [lia|done]|cbn; lia].
  - simplify_eq. split; [constructor|cbn; lia].
Qed.
Lemma read_ipv6_addr_well_formed s a rest :
  read_ipv6_addr s = Some (a, rest) → v6_well_formed a.
Proof.
  unfold read_ipv6_addr, v6_well_formed.
  destruct (read_groups 8 0 s) as [[head e] r] eqn:Hh.
  apply read_groups_bound in Hh as [Hh Hlen].
  destruct (Nat.eqb_spec (length head) 8) as [H8|H8]; [naive_solver|].
  destruct e; [done|]. intros H. apply bind_Some in H as (r' & _ & H).
  destruct (read_groups (7 - length head) 0 r') as [[tail e'] r''] eqn:Ht.
  apply read_groups_bound in Ht as [Ht Hlen']. simplify_eq. split.
  - rewrite !length_app, length_replicate. lia.
  - rewrite !Forall_app. split_and!; [done| |done]. by apply Forall_replicate.
Qed.

Definition ip_well_formed (a : IpAddr.t) : Prop :=
  match a with IpAddr.V4 a => v4_well_formed a | IpAddr.V6 a => v6_well_formed a end.
Definition reserved_ip (a : IpAddr.t) : Prop :=
  match a with IpAddr.V4 a => reserved_ipv4 a | IpAddr.V6 a => reserved_ipv6 a end.

Lemma parse_ip_well_formed s a : parse_ip s = Some a → ip_well_formed a.
Proof.
  unfold parse_ip. destruct (read_ipv4_addr s) as [[v4 r]|] eqn:E4.
  { apply read_ipv4_addr_well_formed in E4. destruct r; naive_solver. }
  destruct (read_ipv6_addr s) as [[v6 r]|] eqn:E6; [|done].
  apply read_ipv6_addr_well_formed in E6. destruct r; naive_solver.
Qed.

Lemma is_public_ipv6_reserved (a : Ipv6Addr) :
  v6_well_formed a → is_public_ipv6 a = false ↔ reserved_ipv6 a.
Proof.
  intros [Hlen Hseg].
  assert (v6_segment a 0 < 65536)%N as Hv.
  { unfold v6_segment. destruct a as [|x a]; [done|]. by inversion Hseg. }
  unfold is_public_ipv6, reserved_ipv6, v6_is_unspecified, v6_is_loopback, v6_is_multicast.
  destruct (v6_masks _ Hv) as (-> & -> & ->). rewrite !in_block16.
  change (16 - 8)%N with 8%N. change (16 - 7)%N with 9%N. change (16 - 10)%N with 6%N.
  destruct (bool_decide (a = [0;0;0;0;0;0;0;0]%N)) eqn:E0; cbn [orb].
  { apply bool_decide_eq_true in E0. naive_solver. }
  destruct (bool_decide (a = [0;0;0;0;0;0;0;1]%N)) eqn:E1; cbn [orb].
  { apply bool_decide_eq_true in E1. naive_solver. }
  apply bool_decide_eq_false in E0, E1.
  destruct (N.eqb_spec (N.shiftr (v6_segment a 0) 8) (N.shiftr 0xff00 8)); cbn [orb]; [tauto|].
  destruct (N.eqb_spec (N.shiftr (v6_segment a 0) 9) (N.shiftr 0xfc00 9)); cbn [orb]; [tauto|].
  destruct (N.eqb_spec (N.shiftr (v6_segment a 0) 6) (N.shiftr 0xfe80 6)); cbn [orb]; [tauto|].
  rewrite is_none_or_false. split.
  - intros (v4 & Hv4 & Hp). do 5 right. exists v4. split; [done|].
    apply is_public_ipv4_reserved; [|done].
    eapply v6_to_ipv4_well_formed; eauto.
  - intros [?|[?|[?|[?|[?|(v4 & Hv4 & Hp)]]]]]; try done. exists v4. split; [done|].
    apply is_public_ipv4_reserved; [|done]. eapply v6_to_ipv4_well_formed; eauto.
Qed.

Lemma split_once_Some sep s a b :
  split_once sep s = Some (a, b) → s = a ++ sep :: b ∧ sep ∉ a.
Proof.
  revert a b. induction s as [|c s IH]; cbn; intros a b; [done|].
  destruct (N.eqb_spec c sep) as [->|Hne]; [intros [= <- <-]; set_solver|].
  destruct (split_once sep s) as [[a' b']|]; [|done]. intros [= <- <-].
  destruct (IH a' b' eq_refl) as [-> ?]. set_solver.
Qed.

Lemma not_in_query (s : rstr) c :
  existsb (λ c, (c =? chr "?") || (c =? chr "#") || (c =? chr "\"))%N s = false →
  c = chr "?" ∨ c = chr "#" ∨ c = chr "\" → c ∉ s.
Proof.
  rewrite existsb_false, Forall_forall. intros H Hc Hin. specialize (H c Hin). cbn in H.
  rewrite !orb_false_iff, !N.eqb_neq in H. naive_solver.
Qed.

Lemma ends_with_false p s : ends_with p s = false → ∀ q, s ≠ q ++ p.
Proof.
  unfold ends_with. intros H q ->. rewrite rev_app_distr in H.
  assert (starts_with (rev p) (rev p ++ rev q) = true) as Ht
    by (apply starts_with_true; eauto). congruence.
Qed.

Lemma public_host_name host :
  is_public_repository_host host = true →
  to_ascii_lowercase host ≠ lit "localhost" ∧
  (∀ p, to_ascii_lowercase host ≠ p ++ lit ".localhost") ∧
  (∀ p, to_ascii_lowercase host ≠ p ++ lit ".local").
Proof.
  unfold is_public_repository_host.
  destruct (_ || _ || _) eqn:E; [done|]. intros _.
  rewrite !orb_false_iff in E. destruct E as [[E1 E2] E3].
  split_and!; [by apply bool_decide_eq_false in E1|by apply ends_with_false..].
Qed.

Lemma public_host_ip host :
  is_public_repository_host host = true → ∀ ip, parse_ip host = Some ip → ¬ reserved_ip ip.
Proof.
  unfold is_public_repository_host. destruct (_ || _ || _); [done|].
  intros H ip Hip. rewrite Hip in H. pose proof (parse_ip_well_formed _ _ Hip) as Hwf.
  destruct ip as [a|a]; cbn in *.
  - rewrite <-is_public_ipv4_reserved by done. by rewrite H.
  - rewrite <-is_public_ipv6_reserved by done. by rewrite H.
Qed.

(** ** Properties *)

(** The octet tests of [is_public_ipv4] are exactly the CIDR table: for a
    well-formed address the function answers [false] iff the 32-bit value lies
    in one of the reserved blocks. *)
Theorem is_public_ipv4_cidr (a : Ipv4Addr) (Ha : v4_well_formed a) :
  is_public_ipv4 a = false ↔ reserved_ipv4 a.
Proof. by apply is_public_ipv4_reserved. Qed.

Lemma is_public_ipv4_cidr_witness :
  is_public_ipv4 {| v4_a := 172; v4_b := 31; v4_c := 255; v4_d := 1 |} = false ↔
  reserved_ipv4 {| v4_a := 172; v4_b := 31; v4_c := 255; v4_d := 1 |}.
Proof. apply is_public_ipv4_cidr. repeat split. Defined.

(** An accepted repository is [https://authority/path] with a non-empty
    authority free of userinfo, a path of ordinary segments, no query, fragment
    or backslash, and a host that is neither [localhost], [*.localhost] nor
    [*.local] and, when it is an IP literal, lies outside every reserved block. *)
Theorem accepted_repository_is_public (repository : rstr)
    (H : validate_public_https_repository repository = Ok tt) :
  ∃ authority path host,
    repository = lit "https://" ++ authority ++ chr "/" :: path ∧
    authority ≠ [] ∧ (chr "@" ∉ authority) ∧
    Forall (λ seg, seg ≠ [] ∧ seg ≠ lit "." ∧ seg ≠ lit "..") (split (chr "/") path) ∧
    (chr "?" ∉ repository) ∧ (chr "#" ∉ repository) ∧ (chr "\" ∉ repository) ∧
    repository_host authority = Ok host ∧
    to_ascii_lowercase host ≠ lit "localhost" ∧
    (∀ p, to_ascii_lowercase host ≠ p ++ lit ".localhost") ∧
    (∀ p, to_ascii_lowercase host ≠ p ++ lit ".local") ∧
    (∀ ip, parse_ip host = Some ip → ¬ reserved_ip ip).
Proof.
  unfold validate_public_https_repository in H. rewrite if_Err_Ok in H.
  destruct H as [Hc H]. rewrite !orb_false_iff in Hc. destruct Hc as [[_ _] Hc].
  destruct (strip_prefix _ _) as [rem|] eqn:Hrem; [|done].
  apply strip_prefix_Some in Hrem.
  destruct (split_once _ _) as [[authority path]|] eqn:Hso; [|done].
  apply split_once_Some in Hso as [-> _].
  rewrite !if_Err_Ok, !orb_false_iff, bind_Ok in H.
  destruct H as ([Hne Hat] & [[_ Hseg] Hdot] & host & Hhost & Hpub).
  rewrite reject_if_Ok, negb_false_iff in Hpub.
  exists authority, path, host. split_and!; try done.
  - by destruct authority.
  - by apply contains_char_false.
  - apply existsb_false in Hseg, Hdot. apply Forall_forall. intros seg Hin.
    rewrite Forall_forall in Hseg, Hdot. specialize (Hseg _ Hin). specialize (Hdot _ Hin).
    cbn in Hdot. rewrite orb_false_iff, !bool_decide_eq_false in Hdot.
    by destruct seg.
  - refine (not_in_query _ _ Hc _); tauto.
  - refine (not_in_query _ _ Hc _); tauto.
  - refine (not_in_query _ _ Hc _); tauto.
  - apply (public_host_name _ Hpub).
  - apply (public_host_name _ Hpub).
  - apply (public_host_name _ Hpub).
  - apply (public_host_ip _ Hpub).
Qed.

Lemma accepted_repository_is_public_witness :
  validate_public_https_repository (lit "https://github.com/owner/repo.git") = Ok tt ∧
  ∃ authority path host,
    lit "https://github.com/owner/repo.git" = lit "https://" ++ authority ++ chr "/" :: path ∧
    repository_host authority = Ok host.
Proof.
  split; [by vm_compute|].
  destruct (accepted_repository_is_public (lit "https://github.com/owner/repo.git"))
    as (a & p & h & He & _ & _ & _ & _ & _ & _ & Hh & _); [by vm_compute|].
  exists a, p, h. by split.
Defined.
