(* ===== verification/Snapshot.v ===== *)
(** The source-snapshot contract: [crates/cyc-protocol/src/snapshot.rs]. *)
From Stdlib Require Import ZArith NArith Lia String.
From stdpp Require Import base option list numbers sets.
From S2P Require Import Prelude Text Crates.
Open Scope rust_scope.

Definition SNAPSHOT_API_VERSION : rstr := lit "cyc.dev/snapshot/v1".
Definition SNAPSHOT_ARCHIVE_FORMAT : rstr := lit "tar+zstd".
Definition MAX_SNAPSHOT_ARCHIVE_BYTES : N := 64 * 1024 * 1024.

Module SnapshotContractError.
Inductive t := InvalidDigest | InvalidSize | InvalidVersion | InvalidFormat.
#[export] Instance eq_dec : EqDecision t.
Proof. solve_decision. Defined.
End SnapshotContractError.
Export (hints) SnapshotContractError.
Import SnapshotContractError.

Definition validate_snapshot_digest (value : rstr) : result t unit :=
  match strip_prefix (lit "sha256:") value with
  | None => Err InvalidDigest
  | Some hex =>
      reject_if ((len hex != 64%N) || negb (forallb is_lower_hex (bytes hex))) InvalidDigest
  end.

(** [&value["sha256:".len()..]] drops seven ASCII characters. *)
Definition snapshot_digest_hex (value : rstr) : result t rstr :=
  validate_snapshot_digest value;; Ok (drop 7 value).

Definition validate_snapshot_size (size_bytes : N) : result t unit :=
  reject_if (negb (between 1 MAX_SNAPSHOT_ARCHIVE_BYTES size_bytes)) InvalidSize.

Record SnapshotMetadataV1 := {
  snap_api_version : rstr;
  snap_format : rstr;
  snap_digest : rstr;
  snap_size_bytes : N;
  snap_created_at : DateTime
}.
Definition SnapshotMetadataV1_new (digest : rstr) (size_bytes : N) (created_at : DateTime) :
    SnapshotMetadataV1 :=
  {| snap_api_version := SNAPSHOT_API_VERSION; snap_format := SNAPSHOT_ARCHIVE_FORMAT;
     snap_digest := digest; snap_size_bytes := size_bytes; snap_created_at := created_at |}.

Definition SnapshotMetadataV1_validate (m : SnapshotMetadataV1) : result t unit :=
  reject_if (snap_api_version m != SNAPSHOT_API_VERSION) InvalidVersion;;
  reject_if (snap_format m != SNAPSHOT_ARCHIVE_FORMAT) InvalidFormat;;
  validate_snapshot_digest (snap_digest m);;
  validate_snapshot_size (snap_size_bytes m).

(** ** Lower-case hexadecimal digests, shared by several contracts *)

(** [value.len() == n && value.bytes().all(lower hex)] *)
Definition lower_hex_of_len (n : N) (value : rstr) : bool :=
  (len value == n) && forallb is_lower_hex (bytes value).

(** A digest string: exactly [n] characters, each a lower-case hex digit. *)
Definition hex_string (n : nat) (value : rstr) : Prop :=
  length value = n ∧ Forall (λ c, is_lower_hex c = true) value.

Lemma utf8_lead_ascii c : (∀ b, b ∈ utf8_encode c → (b < 128)%N) → utf8_encode c = [c].
Proof.
  unfold utf8_encode. destruct (N.ltb_spec c 128); [done|]. intros H0.
  destruct (N.ltb_spec c 2048); [|destruct (N.ltb_spec c 65536)].
  - specialize (H0 (192 + c / 64)%N ltac:(set_solver)).
    revert H0. generalize (c / 64)%N. lia.
  - specialize (H0 (224 + c / 4096)%N ltac:(set_solver)).
    revert H0. generalize (c / 4096)%N. lia.
  - specialize (H0 (240 + c / 262144)%N ltac:(set_solver)).
    revert H0. generalize (c / 262144)%N. lia.
Qed.

Lemma bytes_lower_hex s :
  forallb is_lower_hex (bytes s) = true ↔ Forall (λ c, is_lower_hex c = true) s.
Proof.
  rewrite forallb_true. induction s as [|c s IH]; [by cbn; rewrite !Forall_nil|].
  change (bytes (c :: s)) with (utf8_encode c ++ bytes s).
  rewrite Forall_app, Forall_cons, IH.
  enough (Forall (λ b, is_lower_hex b = true) (utf8_encode c) ↔ is_lower_hex c = true) as -> by done.
  split.
  - intros H. rewrite (utf8_lead_ascii c) in H by (rewrite Forall_forall in H; intros b Hb;
      specialize (H b Hb); unfold is_lower_hex, is_ascii_digit, between in H;
      rewrite orb_true_iff, !andb_true_iff, !N.leb_le in H; lia).
    by inversion H.
  - intros H. rewrite lower_hex_ascii by done. by repeat constructor.
Qed.

Lemma lower_hex_of_len_spec n value :
  lower_hex_of_len (N.of_nat n) value = true ↔ hex_string n value.
Proof.
  unfold lower_hex_of_len, hex_string. rewrite andb_true_iff, bool_decide_eq_true, bytes_lower_hex.
  split; intros [Hl Hh]; split; try done; unfold len in *; rewrite lower_hex_bytes in * by done; lia.
Qed.

Lemma hex_digest_is_hex_string `{DigestCrateLaws} bs : hex_string 64 (hex (sha256 bs)).
Proof.
  split; [by rewrite hex_length, sha256_length|apply hex_lower, sha256_bytes].
Qed.

Lemma validate_snapshot_digest_Ok value :
  validate_snapshot_digest value = Ok tt ↔ ∃ h, value = lit "sha256:" ++ h ∧ hex_string 64 h.
Proof.
  unfold validate_snapshot_digest.
  assert (∀ h, reject_if ((len h != 64%N) || negb (forallb is_lower_hex (bytes h))) InvalidDigest
               = Ok tt ↔ hex_string 64 h) as Hhex.
  { intros h. rewrite <-lower_hex_of_len_spec, reject_if_Ok, orb_false_iff, !negb_false_iff.
    unfold lower_hex_of_len. by rewrite andb_true_iff. }
  setoid_rewrite <-strip_prefix_Some. setoid_rewrite <-Hhex.
  destruct (strip_prefix _ value) as [h|]; naive_solver.
Qed.

Lemma validate_snapshot_size_Ok n :
  validate_snapshot_size n = Ok tt ↔ (1 ≤ n ≤ MAX_SNAPSHOT_ARCHIVE_BYTES)%N.
Proof.
  unfold validate_snapshot_size, between.
  by rewrite reject_if_Ok, negb_false_iff, andb_true_iff, !N.leb_le.
Qed.

(** A controller-built metadata record for a SHA-256 digest and a size in
    range validates, and [snapshot_digest_hex] gives back the 64 hex digits
    that were prefixed. *)
Theorem snapshot_metadata_roundtrip `{DigestCrateLaws} (data : list N) (created_at : DateTime)
    (Hsize : (1 ≤ N.of_nat (length data) ≤ MAX_SNAPSHOT_ARCHIVE_BYTES)%N) :
  let digest := lit "sha256:" ++ hex (sha256 data) in
  SnapshotMetadataV1_validate
    (SnapshotMetadataV1_new digest (N.of_nat (length data)) created_at) = Ok tt ∧
  snapshot_digest_hex digest = Ok (hex (sha256 data)).
Proof.
  intros digest. pose proof (hex_digest_is_hex_string data) as Hhex.
  assert (validate_snapshot_digest digest = Ok tt) as Hd
    by (apply validate_snapshot_digest_Ok; eauto).
  split.
  - unfold SnapshotMetadataV1_validate, SnapshotMetadataV1_new; cbn [snap_api_version snap_format
      snap_digest snap_size_bytes]. rewrite !bool_decide_eq_true_2 by done. cbn [negb reject_if].
    rewrite Hd. by apply validate_snapshot_size_Ok.
  - unfold snapshot_digest_hex. rewrite Hd. done.
Qed.

Lemma snapshot_metadata_roundtrip_witness :
  SnapshotMetadataV1_validate
    (SnapshotMetadataV1_new (lit "sha256:" ++ hex (Concrete.toy_digest [7%N])) 1 0%Z) = Ok tt ∧
  snapshot_digest_hex (lit "sha256:" ++ hex (Concrete.toy_digest [7%N])) =
    Ok (hex (Concrete.toy_digest [7%N])).
Proof.
  apply (snapshot_metadata_roundtrip (H := Concrete.digest_crate)
           (H0 := Concrete.digest_crate_laws) [7%N] 0%Z).
  split; by vm_compute.
Defined.
