(* ===== verification/RunState.v ===== *)
(** The life cycle of a run: [JobState], [Run::transition] and [Run::validate]
    of [crates/cyc-protocol/src/lib.rs].

    [transition] writes the state and the time stamps; [validate] judges
    persisted evidence without trusting that it went through [transition].  The
    file relates the two: on the runs that [transition] can produce, [validate]
    asks for the terminal evidence and nothing else. *)
From Stdlib Require Import ZArith NArith Lia String.
From stdpp Require Import base option list numbers sets.
From S2P Require Import Prelude Text Crates Protocol.
Open Scope rust_scope.

Module JobState.
Inductive t := Queued | Preparing | Running | Verifying | Succeeded | Failed | Cancelled.
#[export] Instance eq_dec : EqDecision t.
Proof. solve_decision. Defined.

Definition is_terminal (s : t) : bool :=
  match s with Succeeded | Failed | Cancelled => true | _ => false end.

Definition can_transition_to (s next : t) : bool :=
  match s with
  | Queued => match next with Preparing | Failed | Cancelled => true | _ => false end
  | Preparing => match next with Running | Failed | Cancelled => true | _ => false end
  | Running => match next with Verifying | Succeeded | Failed | Cancelled => true | _ => false end
  | Verifying => match next with Succeeded | Failed | Cancelled => true | _ => false end
  | Succeeded | Failed | Cancelled => false
  end.
End JobState.
Export (hints) JobState.

Record Run := {
  run_id : Uuid;
  run_job_id : Uuid;
  run_node_id : option Uuid;
  run_state : JobState.t;
  run_created_at : DateTime;
  run_started_at : option DateTime;
  run_finished_at : option DateTime;
  run_exit_code : option Z;
  run_error : option rstr;
  run_placement : option PlacementExplain;
  run_artifact_ids : list Uuid
}.

(** [Run::queued]; the fresh identifier and the clock are arguments. *)
Definition Run_queued (id : Uuid) (now : DateTime) (job_id : Uuid) : Run :=
  {| run_id := id; run_job_id := job_id; run_node_id := None; run_state := JobState.Queued;
     run_created_at := now; run_started_at := None; run_finished_at := None;
     run_exit_code := None; run_error := None; run_placement := None; run_artifact_ids := [] |}.

Record StateTransitionError := { from_state : JobState.t; to_state : JobState.t }.

(** [Run::transition]; a rejected call leaves the run as it is. *)
Definition Run_transition (now : DateTime) (next : JobState.t) (r : Run) :
    result StateTransitionError Run :=
  if negb (JobState.can_transition_to (run_state r) next)
  then Err {| from_state := run_state r; to_state := next |}
  else
    let started_at :=
      if (next == JobState.Running) && is_none (run_started_at r)
      then Some now else run_started_at r in
    let finished_at := if JobState.is_terminal next then Some now else run_finished_at r in
    Ok {| run_id := run_id r; run_job_id := run_job_id r; run_node_id := run_node_id r;
          run_state := next; run_created_at := run_created_at r;
          run_started_at := started_at; run_finished_at := finished_at;
          run_exit_code := run_exit_code r; run_error := run_error r;
          run_placement := run_placement r; run_artifact_ids := run_artifact_ids r |}.

Module RunValidationError.
Inductive t :=
| StartedBeforeCreated | FinishedBeforeCreated | FinishedBeforeStarted
| MissingStartedAt (s : JobState.t) | MissingFinishedAt (s : JobState.t)
| UnexpectedFinishedAt (s : JobState.t)
| InvalidSuccessExitCode (code : option Z)
| SuccessContainsError | FailedWithoutEvidence.
#[export] Instance eq_dec : EqDecision t.
Proof. solve_decision. Defined.
End RunValidationError.
Export (hints) RunValidationError.
Import RunValidationError.

Definition has_nonzero_exit (r : Run) : bool := is_some_and (run_exit_code r) (λ c, c != 0%Z).
Definition has_error (r : Run) : bool := is_some_and (run_error r) (λ e, negb (blank e)).

(** The [match self.state] of [Run::validate]. *)
Definition validate_state_evidence (r : Run) : result RunValidationError.t unit :=
  let s := run_state r in
  match s with
  | JobState.Queued | JobState.Preparing =>
      reject_if (is_some (run_finished_at r)) (UnexpectedFinishedAt s)
  | JobState.Running | JobState.Verifying =>
      reject_if (is_none (run_started_at r)) (MissingStartedAt s);;
      reject_if (is_some (run_finished_at r)) (UnexpectedFinishedAt s)
  | JobState.Succeeded =>
      reject_if (is_none (run_started_at r)) (MissingStartedAt s);;
      reject_if (is_none (run_finished_at r)) (MissingFinishedAt s);;
      reject_if (run_exit_code r != Some 0%Z) (InvalidSuccessExitCode (run_exit_code r));;
      reject_if (is_some_and (run_error r) (λ e, negb (is_empty e))) SuccessContainsError
  | JobState.Failed =>
      reject_if (is_none (run_finished_at r)) (MissingFinishedAt s);;
      reject_if (negb (has_nonzero_exit r) && negb (has_error r)) FailedWithoutEvidence
  | JobState.Cancelled =>
      reject_if (is_none (run_finished_at r)) (MissingFinishedAt s)
  end.

Definition Run_validate (r : Run) : result RunValidationError.t unit :=
  reject_if (is_some_and (run_started_at r) (λ s, (s <? run_created_at r)%Z)) StartedBeforeCreated;;
  reject_if (is_some_and (run_finished_at r) (λ f, (f <? run_created_at r)%Z)) FinishedBeforeCreated;;
  reject_if (is_some_and (option_zip (run_started_at r) (run_finished_at r))
               (λ '(s, f), (f <? s)%Z)) FinishedBeforeStarted;;
  validate_state_evidence r.

(** ** Specification *)

(** Setting the outcome of a run, as [WorkerCompletion::apply_to_run] does. *)
Definition with_outcome (code : option Z) (error : option rstr) (r : Run) : Run :=
  {| run_id := run_id r; run_job_id := run_job_id r; run_node_id := run_node_id r;
     run_state := run_state r; run_created_at := run_created_at r;
     run_started_at := run_started_at r; run_finished_at := run_finished_at r;
     run_exit_code := code; run_error := error;
     run_placement := run_placement r; run_artifact_ids := run_artifact_ids r |}.

(** The runs obtained from [Run::queued] by transitions under a clock that does
    not go backwards (the second index is the last reading), with outcomes
    recorded at any time. *)
Inductive reachable : Run → DateTime → Prop :=
| reach_queued id now job_id : reachable (Run_queued id now job_id) now
| reach_transition r t now next r' :
    reachable r t → (t ≤ now)%Z → Run_transition now next r = Ok r' → reachable r' now
| reach_outcome r t code error :
    reachable r t → reachable (with_outcome code error r) t.

(** The time stamps as the state determines them. *)
Definition started_when (s : JobState.t) (started : option DateTime) : Prop :=
  match s with
  | JobState.Queued | JobState.Preparing => started = None
  | JobState.Running | JobState.Verifying | JobState.Succeeded => is_Some started
  | JobState.Failed | JobState.Cancelled => True
  end.
Definition stamps_ok (r : Run) (t : DateTime) : Prop :=
  (run_created_at r ≤ t)%Z ∧
  started_when (run_state r) (run_started_at r) ∧
  (∀ s, run_started_at r = Some s → run_created_at r ≤ s ≤ t)%Z ∧
  (if JobState.is_terminal (run_state r) then is_Some (run_finished_at r)
   else run_finished_at r = None) ∧
  (∀ f, run_finished_at r = Some f →
     (run_created_at r ≤ f)%Z ∧ ∀ s, run_started_at r = Some s → (s ≤ f)%Z).

(** What a terminal state claims about the outcome. *)
Definition outcome_evidence (r : Run) : Prop :=
  match run_state r with
  | JobState.Succeeded =>
      run_exit_code r = Some 0%Z ∧ (run_error r = None ∨ run_error r = Some [])
  | JobState.Failed =>
      (∃ c, run_exit_code r = Some c ∧ c ≠ 0%Z) ∨
      (∃ e, run_error r = Some e ∧ ¬ Forall (λ c, is_whitespace c = true) e)
  | _ => True
  end.

(** Transitions left before a terminal state, at most. *)
Definition remaining (s : JobState.t) : nat :=
  match s with
  | JobState.Queued => 4 | JobState.Preparing => 3 | JobState.Running => 2
  | JobState.Verifying => 1 | _ => 0
  end.

(** A driver: apply the requested states in order, stop at the first refusal. *)
Fixpoint drive (requests : list (DateTime * JobState.t)) (r : Run) :
    result StateTransitionError Run :=
  match requests with
  | [] => Ok r
  | (now, next) :: rest => r' ← Run_transition now next r; drive rest r'
  end.

(** ** Lemmas *)

Lemma can_transition_remaining s next :
  JobState.can_transition_to s next = true → remaining next < remaining s.
Proof. destruct s, next; cbn; (discriminate || lia). Qed.

Lemma Run_transition_Ok now next r r' :
  Run_transition now next r = Ok r' → JobState.can_transition_to (run_state r) next = true ∧
  run_state r' = next.
Proof.
  unfold Run_transition. destruct (JobState.can_transition_to _ _); [|done]. by intros [= <-].
Qed.

Lemma transition_stamps r t now next r' :
  stamps_ok r t → (t ≤ now)%Z → Run_transition now next r = Ok r' → stamps_ok r' now.
Proof.
  intros (Hc & Hs & Hst & Hf & Hft) Hnow H. unfold Run_transition in H.
  destruct (JobState.can_transition_to (run_state r) next) eqn:Htr; [|done]. simplify_eq/=.
  assert (∀ s, run_started_at r = Some s → run_created_at r ≤ s ≤ now)%Z as Hst'
    by (intros s Es; specialize (Hst s Es); lia).
  assert (∀ s, run_started_at r = Some s → (s ≤ now)%Z) as Hst'' by (intros s Es; by apply Hst').
  destruct (run_state r), next; try discriminate Htr; unfold stamps_ok; cbn in *;
    rewrite ?Hs, ?Hf in *; cbn; split_and!; eauto; try lia; try naive_solver lia.
Qed.

Lemma reachable_stamps r t : reachable r t → stamps_ok r t.
Proof.
  induction 1 as [id now job_id|r t now next r' _ IH Hnow Htr|r t code error _ IH].
  - unfold stamps_ok; cbn. split_and!; (done || lia).
  - by eapply transition_stamps.
  - exact IH.
Qed.

(** On good time stamps only the evidence is left to judge. *)
Lemma validate_stamps r t :
  stamps_ok r t → (Run_validate r = Ok tt ↔ outcome_evidence r).
Proof.
  intros (Hc & Hs & Hst & Hf & Hft). unfold Run_validate.
  assert (is_some_and (run_started_at r) (λ s, (s <? run_created_at r)%Z) = false) as ->.
  { apply is_some_and_false. intros s Es. specialize (Hst s Es). apply Z.ltb_ge. lia. }
  assert (is_some_and (run_finished_at r) (λ f, (f <? run_created_at r)%Z) = false) as ->.
  { apply is_some_and_false. intros f Ef. apply Z.ltb_ge. by destruct (Hft f Ef). }
  assert (is_some_and (option_zip (run_started_at r) (run_finished_at r))
            (λ '(s, f), (f <? s)%Z) = false) as ->.
  { apply is_some_and_false. intros [s f] E. apply Z.ltb_ge.
    destruct (run_started_at r) as [s'|], (run_finished_at r) as [f'|]; try done.
    cbn in E. injection E as -> ->. destruct (Hft f eq_refl) as [_ Hle]. by apply Hle. }
  cbn [reject_if mbind result_bind]. unfold validate_state_evidence, outcome_evidence.
  destruct (run_state r); cbn in Hs, Hf;
    repeat match goal with
    | H : is_Some _ |- _ => let E := fresh "E" in destruct H as [? E]
    end;
    rewrite ?Hs, ?Hf, ?E, ?E0; cbn [is_some is_none reject_if mbind result_bind]; try done.
  - rewrite bind_unit_Ok, !reject_if_Ok, negb_bool_decide_false, is_some_and_false.
    destruct (run_error r) as [[|c e]|]; naive_solver.
  - rewrite reject_if_Ok, andb_false_iff, !negb_false_iff.
    unfold has_nonzero_exit, has_error. rewrite !is_some_and_true.
    setoid_rewrite negb_bool_decide_true. setoid_rewrite negb_true_iff.
    setoid_rewrite <-not_true_iff_false. by setoid_rewrite blank_true.
Qed.

(** ** Properties *)

(** Every run that [Run::queued] and [Run::transition] can produce under a
    clock that does not go backwards is accepted by [Run::validate] exactly when
    its outcome fits its state: a success has exit code 0 and no error, a
    failure a non-zero exit code or a non-blank error, and the other states need
    nothing.  The time stamps are never what fails. *)
Theorem reachable_run_validates (r : Run) (t : DateTime) (H : reachable r t) :
  Run_validate r = Ok tt ↔ outcome_evidence r.
Proof. by eapply validate_stamps, reachable_stamps. Qed.

Lemma reachable_run_validates_witness :
  ∃ r, reachable r 12%Z ∧ run_state r = JobState.Cancelled ∧ Run_validate r = Ok tt.
Proof.
  assert (∃ r, Run_transition 12%Z JobState.Cancelled (Run_queued 1%N 10%Z 2%N) = Ok r ∧
               run_state r = JobState.Cancelled) as (r & Hr & Hs) by (eexists; split; reflexivity).
  assert (reachable r 12%Z) as Hreach by (eapply reach_transition; [apply reach_queued| |exact Hr]; lia).
  exists r. split; [done|]. split; [done|].
  apply (reachable_run_validates r 12%Z Hreach). unfold outcome_evidence. by rewrite Hs.
Defined.

(** Termination of the life cycle: whatever states are requested, a run
    accepts at most as many transitions as its state leaves (four from
    [Queued]), and a terminal run refuses every request, naming both states. *)
Theorem run_lifecycle_terminates (requests : list (DateTime * JobState.t)) (r : Run) :
  (∀ r', drive requests r = Ok r' → length requests + remaining (run_state r') ≤ remaining (run_state r)) ∧
  (∀ now next, JobState.is_terminal (run_state r) = true →
     Run_transition now next r = Err {| from_state := run_state r; to_state := next |}).
Proof.
  split.
  - revert r. induction requests as [|[now next] rest IH]; intros r r'; cbn [drive length].
    { intros [= <-]. lia. }
    rewrite bind_Ok. intros (r1 & H1 & H2). apply Run_transition_Ok in H1 as [Hc Hs].
    apply IH in H2. apply can_transition_remaining in Hc. rewrite Hs in H2. lia.
  - intros now next Ht. unfold Run_transition. by destruct (run_state r), next.
Qed.
