(* ===== verification/JobSpec.v ===== *)
(** Job specifications: [JobSpec::validate], resource requests and
    normalisation of [crates/cyc-protocol/src/lib.rs].

    [validate] is a chain of guards over every field; [valid_job] is what it
    promises, in terms of the specifications of the validators it calls.  The
    resource request a scheduler uses is either the explicit one, which [validate]
    compares with the legacy minima, or the one derived from those minima: both
    satisfy [covers]. *)
From Stdlib Require Import ZArith NArith Lia String.
From stdpp Require Import base option list numbers sets.
From S2P Require Import Prelude Text Crates Protocol PortablePath Repository Snapshot.
Open Scope rust_scope.

Module ValidationError.
Inductive t :=
| UnsupportedApiVersion (version : rstr)
| NoSteps
| OriginFieldTooLong (field : rstr)
| EmptyStepName (index : nat)
| EmptyStepScript (index : nat)
| InvalidWorkingDirectory (index : nat) (source : PortablePathError.t)
| InvalidTimeout (field : rstr)
| EmptyCapability
| ZeroRequirement (field : rstr)
| ZeroResourceRequest (field : rstr)
| ResourceRequestWeakensLegacy
| InvalidGpuDeviceId
| InvalidRetentionDays
| InvalidArtifactPattern (field : rstr) (index : nat) (source : PortablePathError.t)
| GitMetadataIncluded (index : nat)
| GitMetadataNotExcluded
| InvalidSource (message : rstr).
#[export] Instance eq_dec : EqDecision t.
Proof. solve_decision. Defined.
Definition fmt_index (i : nat) : rstr := fmt_N (N.of_nat i).
Definition display (e : t) : rstr :=
  match e with
  | UnsupportedApiVersion v => lit "unsupported apiVersion `" ++ v ++ lit "`"
  | NoSteps => lit "steps must contain at least one item"
  | OriginFieldTooLong f => lit "origin." ++ f ++ lit " must contain at most 256 characters"
  | EmptyStepName i => lit "steps[" ++ fmt_index i ++ lit "].name must not be empty"
  | EmptyStepScript i => lit "steps[" ++ fmt_index i ++ lit "].script must not be empty"
  | InvalidWorkingDirectory i source =>
      lit "steps[" ++ fmt_index i ++ lit "].workingDirectory is invalid: " ++
      PortablePathError.display source
  | InvalidTimeout f => f ++ lit " must be in the inclusive range 1..=86400"
  | EmptyCapability => lit "capability names must not be empty"
  | ZeroRequirement f => f ++ lit " must be greater than zero"
  | ZeroResourceRequest f => lit "resourceRequest." ++ f ++ lit " must be greater than zero"
  | ResourceRequestWeakensLegacy => lit "resourceRequest must not weaken legacy requirements"
  | InvalidGpuDeviceId => lit "resourceRequest.gpu.deviceId is invalid"
  | InvalidRetentionDays => lit "retentionDays must be in the inclusive range 1..=3650"
  | InvalidArtifactPattern f i source =>
      lit "artifacts." ++ f ++ lit "[" ++ fmt_index i ++ lit "] is invalid: " ++
      PortablePathError.display source
  | GitMetadataIncluded i =>
      lit "artifacts.include[" ++ fmt_index i ++ lit "] must not explicitly include .git metadata"
  | GitMetadataNotExcluded => lit "artifacts.exclude must contain .git/** (or .git)"
  | InvalidSource m => lit "invalid source: " ++ m
  end.
End ValidationError.
Export (hints) ValidationError.
Import ValidationError.

(** [matches!(value, Some(0 | 86401..))] *)
Definition validate_timeout (value : option N) (field : rstr) : result ValidationError.t unit :=
  reject_if (is_some_and value (λ v, (v =? 0)%N || (86401 <=? v)%N)) (InvalidTimeout field).

Definition validate_resource_request (request : ResourceRequest) (legacy : JobRequirements) :
    result ValidationError.t unit :=
  reject_if (rr_slots request == 0%N) (ZeroResourceRequest (lit "slots"));;
  reject_if (rr_cpu_cores request == 0%N) (ZeroResourceRequest (lit "cpuCores"));;
  reject_if ((rr_cpu_cores request <? unwrap_or (req_min_cpu_cores legacy) 1)%N
             || (rr_memory_mib request <? unwrap_or (req_min_memory_mib legacy) 0)%N
             || (rr_disk_mib request <? unwrap_or (req_min_disk_mib legacy) 0)%N)
            ResourceRequestWeakensLegacy;;
  match rr_gpu request with
  | Some gpu =>
      reject_if (is_some_and (grr_device_id gpu) (λ device_id,
                   blank device_id || (256 <? char_count device_id)%N || has_control device_id))
                InvalidGpuDeviceId
  | None => Ok tt
  end;;
  match rr_gpu request, req_gpu legacy with
  | None, Some _ => Err ResourceRequestWeakensLegacy
  | Some request, Some legacy =>
      reject_if ((grr_vram_mib request <? unwrap_or (gr_min_vram_mib legacy) 0)%N
                 || gr_exclusive legacy && negb (grr_exclusive request)
                 || is_some_and (option_zip (grr_vendor request) (gr_vendor legacy))
                      (λ '(requested, required), requested != required))
                ResourceRequestWeakensLegacy;;
      reject_if (is_some (gr_vendor legacy) && is_none (grr_vendor request))
                ResourceRequestWeakensLegacy
  | _, _ => Ok tt
  end.

Definition resource_request_from_legacy (requirements : JobRequirements) : ResourceRequest :=
  {| rr_slots := 1;
     rr_cpu_cores := unwrap_or (req_min_cpu_cores requirements) 1%N;
     rr_memory_mib := unwrap_or (req_min_memory_mib requirements) 0%N;
     rr_disk_mib := unwrap_or (req_min_disk_mib requirements) 0%N;
     rr_gpu := match req_gpu requirements with
               | Some gpu => Some {| grr_device_id := None; grr_vendor := gr_vendor gpu;
                                     grr_vram_mib := unwrap_or (gr_min_vram_mib gpu) 0%N;
                                     grr_exclusive := gr_exclusive gpu |}
               | None => None
               end |}.

Definition effective_resource_request (job : JobSpec) : ResourceRequest :=
  match job_resource_request job with
  | Some request => request
  | None => resource_request_from_legacy (job_requirements job)
  end.

(** The blocks of [JobSpec::validate], in order. *)
Definition validate_origin (origin : option JobOrigin) : result ValidationError.t unit :=
  match origin with
  | None => Ok tt
  | Some o =>
      for_each (λ '(field, value),
        reject_if (is_some_and value (λ v, (256 <? char_count v)%N)) (OriginFieldTooLong field))
        [(lit "codexSessionId", origin_codex_session_id o);
         (lit "projectId", origin_project_id o);
         (lit "workspaceId", origin_workspace_id o)]
  end.

Definition validate_step (index : nat) (step : JobStep) : result ValidationError.t unit :=
  reject_if (blank (step_name step)) (EmptyStepName index);;
  reject_if (blank (step_script step)) (EmptyStepScript index);;
  match step_working_directory step with
  | Some working_directory =>
      map_err (InvalidWorkingDirectory index) (validate_portable_relative_path working_directory)
  | None => Ok tt
  end;;
  validate_timeout (step_timeout_seconds step) (lit "step timeoutSeconds").

Definition validate_requirements (req : JobRequirements) : result ValidationError.t unit :=
  reject_if (existsb (λ c, negb (Capability_is_valid c)) (req_capabilities req)) EmptyCapability;;
  for_each (λ '(field, value), reject_if (value == Some 0%N) (ZeroRequirement field))
    [(lit "minCpuCores", req_min_cpu_cores req);
     (lit "minMemoryMiB", req_min_memory_mib req);
     (lit "minDiskMiB", req_min_disk_mib req)];;
  reject_if ((req_gpu req ≫= gr_min_vram_mib) == Some 0%N) (ZeroRequirement (lit "minVramMiB")).

Definition validate_artifacts (artifacts : ArtifactSpec) : result ValidationError.t unit :=
  reject_if (is_some_and (art_retention_days artifacts) (λ d, (d =? 0)%N || (3651 <=? d)%N))
    InvalidRetentionDays;;
  for_each_i (λ index pattern,
    map_err (InvalidArtifactPattern (lit "include") index) (validate_portable_relative_glob pattern);;
    reject_if (has_literal_git_segment pattern) (GitMetadataIncluded index))
    (art_include artifacts);;
  for_each_i (λ index pattern,
    map_err (InvalidArtifactPattern (lit "exclude") index) (validate_portable_relative_glob pattern))
    (art_exclude artifacts);;
  reject_if (negb (existsb (λ pattern,
      (pattern == lit ".git") || (pattern == DEFAULT_GIT_ARTIFACT_EXCLUDE)) (art_exclude artifacts)))
    GitMetadataNotExcluded.

Definition validate_source (source : SourceSpec.t) : result ValidationError.t unit :=
  match source with
  | SourceSpec.Git repository revision =>
      map_err InvalidSource (validate_public_https_repository repository);;
      reject_if (negb ((len revision == 40%N) || (len revision == 64%N))
                 || negb (forallb is_lower_hex (bytes revision)))
        (InvalidSource (lit "git revision must be a complete 40- or 64-character lowercase hex object ID"))
  | SourceSpec.Snapshot digest size_bytes =>
      map_err (λ _, InvalidSource (lit "snapshot digest must be sha256 followed by 64 lowercase hex digits"))
        (validate_snapshot_digest digest);;
      size_bytes ← ok_or size_bytes
        (InvalidSource (lit "snapshot sizeBytes is required and must bind the raw archive bytes"));
      map_err (λ _, InvalidSource (lit "snapshot sizeBytes must be in the supported bounded range"))
        (validate_snapshot_size size_bytes)
  end.

(** [JobSpec::validate] *)
Definition JobSpec_validate (job : JobSpec) : result ValidationError.t unit :=
  reject_if (job_api_version job != API_VERSION) (UnsupportedApiVersion (job_api_version job));;
  reject_if (is_empty (job_steps job)) NoSteps;;
  validate_origin (job_origin job);;
  for_each_i validate_step (job_steps job);;
  validate_timeout (job_timeout_seconds job) (lit "timeoutSeconds");;
  validate_requirements (job_requirements job);;
  match job_resource_request job with
  | Some request => validate_resource_request request (job_requirements job)
  | None => Ok tt
  end;;
  validate_artifacts (job_artifacts job);;
  validate_source (job_source job).

Definition normalize_requirements (req : JobRequirements) : JobRequirements :=
  if is_none (req_min_cpu_cores req) then
    {| req_os := req_os req; req_arch := req_arch req; req_capabilities := req_capabilities req;
       req_min_cpu_cores := Some 1%N; req_min_memory_mib := req_min_memory_mib req;
       req_min_disk_mib := req_min_disk_mib req; req_gpu := req_gpu req |}
  else req.

Definition normalize_job_spec (job : JobSpec) : JobSpec :=
  {| job_api_version := job_api_version job; job_id := job_id job; job_origin := job_origin job;
     job_kind := job_kind job; job_source := job_source job;
     job_requirements := normalize_requirements (job_requirements job);
     job_resource_request := job_resource_request job; job_steps := job_steps job;
     job_artifacts := job_artifacts job; job_timeout_seconds := job_timeout_seconds job;
     job_placement_policy := job_placement_policy job;
     job_preferred_node_id := job_preferred_node_id job |}.

(** ** Specification *)

Definition timeout_in_range (value : option N) : Prop :=
  ∀ v, value = Some v → (1 ≤ v ≤ 86400)%N.

Definition valid_step (step : JobStep) : Prop :=
  blank (step_name step) = false ∧ blank (step_script step) = false ∧
  (∀ d, step_working_directory step = Some d → portable d) ∧
  timeout_in_range (step_timeout_seconds step).

Definition portable_glob (p : rstr) : Prop := portable p ∧ ¬ ∃ rest, p = lit "!" ++ rest.

(** Globs are portable, no include names a [.git] segment, and [.git] is excluded. *)
Definition valid_artifacts (a : ArtifactSpec) : Prop :=
  (∀ d, art_retention_days a = Some d → (1 ≤ d ≤ 3650)%N) ∧
  Forall (λ p, portable_glob p ∧ lit ".git" ∉ split SLASH p) (art_include a) ∧
  Forall portable_glob (art_exclude a) ∧
  (lit ".git" ∈ art_exclude a ∨ lit ".git/**" ∈ art_exclude a).

(** The source names immutable content: a full object identifier of a public
    repository, or a digest with the archive's size. *)
Definition pinned_source (s : SourceSpec.t) : Prop :=
  match s with
  | SourceSpec.Git repository revision =>
      validate_public_https_repository repository = Ok tt ∧
      (hex_string 40 revision ∨ hex_string 64 revision)
  | SourceSpec.Snapshot digest size_bytes =>
      (∃ h, digest = lit "sha256:" ++ h ∧ hex_string 64 h) ∧
      ∃ n, size_bytes = Some n ∧ (1 ≤ n ≤ MAX_SNAPSHOT_ARCHIVE_BYTES)%N
  end.

Definition valid_origin (o : JobOrigin) : Prop :=
  ∀ v, Some v ∈ [origin_codex_session_id o; origin_project_id o; origin_workspace_id o] →
       length v ≤ 256.

Definition valid_requirements (req : JobRequirements) : Prop :=
  Forall (λ c, blank c = false) (req_capabilities req) ∧
  req_min_cpu_cores req ≠ Some 0%N ∧ req_min_memory_mib req ≠ Some 0%N ∧
  req_min_disk_mib req ≠ Some 0%N ∧
  ∀ g, req_gpu req = Some g → gr_min_vram_mib g ≠ Some 0%N.

(** A GPU request at least as strong as a legacy GPU requirement. *)
Definition gpu_covers (g : GpuResourceRequest) (legacy : GpuRequirement) : Prop :=
  (unwrap_or (gr_min_vram_mib legacy) 0 ≤ grr_vram_mib g)%N ∧
  (gr_exclusive legacy = true → grr_exclusive g = true) ∧
  (∀ v, gr_vendor legacy = Some v → grr_vendor g = Some v).

(** A resource request that does not weaken the legacy requirements. *)
Definition covers (r : ResourceRequest) (legacy : JobRequirements) : Prop :=
  (1 ≤ rr_slots r)%N ∧ (1 ≤ rr_cpu_cores r)%N ∧
  (unwrap_or (req_min_cpu_cores legacy) 1 ≤ rr_cpu_cores r)%N ∧
  (unwrap_or (req_min_memory_mib legacy) 0 ≤ rr_memory_mib r)%N ∧
  (unwrap_or (req_min_disk_mib legacy) 0 ≤ rr_disk_mib r)%N ∧
  ∀ l, req_gpu legacy = Some l → ∃ g, rr_gpu r = Some g ∧ gpu_covers g l.

(** A usable GPU device identifier. *)
Definition valid_device (r : ResourceRequest) : Prop :=
  ∀ g d, rr_gpu r = Some g → grr_device_id g = Some d →
    blank d = false ∧ length d ≤ 256 ∧ has_control d = false.

Record valid_job (job : JobSpec) : Prop := {
  vj_version : job_api_version job = API_VERSION;
  vj_steps : job_steps job ≠ [];
  vj_origin : ∀ o, job_origin job = Some o → valid_origin o;
  vj_each_step : Forall valid_step (job_steps job);
  vj_timeout : timeout_in_range (job_timeout_seconds job);
  vj_requirements : valid_requirements (job_requirements job);
  vj_request : ∀ r, job_resource_request job = Some r →
    covers r (job_requirements job) ∧ valid_device r;
  vj_artifacts : valid_artifacts (job_artifacts job);
  vj_source : pinned_source (job_source job)
}.

(** ** Each block against its specification *)

Lemma validate_timeout_Ok value field :
  validate_timeout value field = Ok tt ↔ timeout_in_range value.
Proof.
  unfold validate_timeout, timeout_in_range. rewrite reject_if_Ok, is_some_and_false.
  setoid_rewrite orb_false_iff. setoid_rewrite N.eqb_neq. setoid_rewrite N.leb_gt.
  split; intros H v Hv; specialize (H v Hv); lia.
Qed.

Lemma validate_step_Ok index step : validate_step index step = Ok tt ↔ valid_step step.
Proof.
  unfold validate_step, valid_step. rewrite !bind_unit_Ok, !reject_if_Ok, validate_timeout_Ok.
  enough (∀ o, match o with
               | Some d => map_err (InvalidWorkingDirectory index) (validate_portable_relative_path d)
               | None => Ok tt
               end = Ok tt ↔ ∀ d, o = Some d → portable d) as -> by done.
  intros [d|]; [|naive_solver]. rewrite map_err_Ok. unfold validate_portable_relative_path.
  rewrite validate_portable_relative_Ok. naive_solver.
Qed.

Lemma validate_origin_Ok o : validate_origin (Some o) = Ok tt ↔ valid_origin o.
Proof.
  unfold validate_origin, valid_origin. rewrite for_each_Ok, !Forall_cons, Forall_nil.
  rewrite !reject_if_Ok, !is_some_and_false. setoid_rewrite N.ltb_ge. unfold char_count.
  split.
  - intros (H1 & H2 & H3 & _) v Hv. rewrite !elem_of_cons, elem_of_nil in Hv.
    destruct Hv as [E|[E|[E|[]]]]; [specialize (H1 v (eq_sym E))|specialize (H2 v (eq_sym E))|
      specialize (H3 v (eq_sym E))]; lia.
  - intros H. split_and!; try done; intros v Hv;
      (assert (length v ≤ 256) by (apply H; rewrite Hv; set_solver)); lia.
Qed.

Lemma validate_requirements_Ok req :
  validate_requirements req = Ok tt ↔ valid_requirements req.
Proof.
  unfold validate_requirements, valid_requirements, Capability_is_valid.
  rewrite !bind_unit_Ok, !reject_if_Ok, existsb_false, for_each_Ok, !Forall_cons, Forall_nil,
    !reject_if_Ok, !bool_decide_eq_false.
  setoid_rewrite negb_involutive.
  enough ((req_gpu req ≫= gr_min_vram_mib) ≠ Some 0%N ↔
          ∀ g, req_gpu req = Some g → gr_min_vram_mib g ≠ Some 0%N) as -> by tauto.
  destruct (req_gpu req); cbn; naive_solver.
Qed.

Lemma has_literal_git_segment_false p :
  has_literal_git_segment p = false ↔ lit ".git" ∉ split SLASH p.
Proof.
  unfold has_literal_git_segment. rewrite existsb_false, Forall_forall.
  setoid_rewrite bool_decide_eq_false. split; [intros H Hin; by apply (H _ Hin)|].
  intros H x Hx ->. done.
Qed.

Lemma validate_glob_Ok {E} (f : PortablePathError.t → E) p :
  map_err f (validate_portable_relative_glob p) = Ok tt ↔ portable_glob p.
Proof.
  unfold validate_portable_relative_glob, portable_glob.
  rewrite map_err_Ok, validate_portable_relative_iff. naive_solver.
Qed.

Lemma for_each_i_Forall {E A} (f : nat → A → result E unit) (P : A → Prop) l :
  (∀ i a, f i a = Ok tt ↔ P a) → (for_each_i f l = Ok tt ↔ Forall P l).
Proof.
  intros H. rewrite for_each_i_Ok, Forall_lookup. by setoid_rewrite H.
Qed.

Lemma validate_artifacts_Ok a : validate_artifacts a = Ok tt ↔ valid_artifacts a.
Proof.
  unfold validate_artifacts, valid_artifacts. rewrite !bind_unit_Ok, !reject_if_Ok.
  rewrite (for_each_i_Forall _ (λ p, portable_glob p ∧ lit ".git" ∉ split SLASH p)),
    (for_each_i_Forall _ portable_glob).
  2: intros; apply validate_glob_Ok.
  2: intros; by rewrite bind_unit_Ok, validate_glob_Ok, reject_if_Ok, has_literal_git_segment_false.
  rewrite is_some_and_false, negb_false_iff, existsb_true, Exists_exists.
  setoid_rewrite orb_true_iff. setoid_rewrite bool_decide_eq_true.
  setoid_rewrite orb_false_iff. setoid_rewrite N.eqb_neq. setoid_rewrite N.leb_gt.
  enough ((∀ d, art_retention_days a = Some d → d ≠ 0 ∧ d < 3651)%N ↔
          (∀ d, art_retention_days a = Some d → 1 ≤ d ≤ 3650)%N) as -> by naive_solver.
  split; intros H d Hd; specialize (H d Hd); lia.
Qed.

Lemma validate_source_Ok s : validate_source s = Ok tt ↔ pinned_source s.
Proof.
  destruct s as [repository revision|digest size_bytes]; cbn [validate_source pinned_source].
  - rewrite bind_unit_Ok, map_err_Ok, reject_if_Ok, orb_false_iff, !negb_false_iff, orb_true_iff,
      <-(lower_hex_of_len_spec 40), <-(lower_hex_of_len_spec 64).
    unfold lower_hex_of_len. rewrite !andb_true_iff. tauto.
  - rewrite bind_unit_Ok, map_err_Ok, validate_snapshot_digest_Ok, bind_Ok.
    setoid_rewrite ok_or_Ok. setoid_rewrite map_err_Ok. setoid_rewrite validate_snapshot_size_Ok.
    done.
Qed.

Lemma gpu_vendor_checks (r l : option GpuVendor.t) :
  is_some_and (option_zip r l) (λ '(requested, required), requested != required) = false ∧
  is_some l && is_none r = false ↔ ∀ v, l = Some v → r = Some v.
Proof.
  destruct r as [r|], l as [l|]; cbn; [|naive_solver..].
  rewrite negb_false_iff, bool_decide_eq_true. naive_solver.
Qed.

Lemma gpu_request_Ok g l :
  (reject_if ((grr_vram_mib g <? unwrap_or (gr_min_vram_mib l) 0)%N
              || gr_exclusive l && negb (grr_exclusive g)
              || is_some_and (option_zip (grr_vendor g) (gr_vendor l))
                   (λ '(requested, required), requested != required))
     ResourceRequestWeakensLegacy;;
   reject_if (is_some (gr_vendor l) && is_none (grr_vendor g)) ResourceRequestWeakensLegacy) = Ok tt
  ↔ gpu_covers g l.
Proof.
  rewrite bind_unit_Ok, !reject_if_Ok, !orb_false_iff, N.ltb_ge.
  unfold gpu_covers. rewrite <-gpu_vendor_checks.
  enough (gr_exclusive l && negb (grr_exclusive g) = false ↔
          (gr_exclusive l = true → grr_exclusive g = true)) as -> by tauto.
  destruct (gr_exclusive l), (grr_exclusive g); naive_solver.
Qed.

Definition valid_device_id (o : option rstr) : Prop :=
  ∀ d, o = Some d → blank d = false ∧ length d ≤ 256 ∧ has_control d = false.

Lemma device_id_Ok o :
  reject_if (is_some_and o (λ device_id,
    blank device_id || (256 <? char_count device_id)%N || has_control device_id))
    InvalidGpuDeviceId = Ok tt ↔ valid_device_id o.
Proof.
  rewrite reject_if_Ok, is_some_and_false. unfold valid_device_id, char_count.
  split; intros H d Hd; specialize (H d Hd).
  - rewrite !orb_false_iff, N.ltb_ge in H. destruct H as [[? ?] ?]. split_and!; [done|lia|done].
  - rewrite !orb_false_iff, N.ltb_ge. destruct H as (? & ? & ?). split_and!; [done|lia|done].
Qed.

Lemma valid_device_Some r g :
  rr_gpu r = Some g → (valid_device r ↔ valid_device_id (grr_device_id g)).
Proof. intros Hg. unfold valid_device, valid_device_id. rewrite Hg. naive_solver. Qed.

Lemma validate_resource_request_Ok r legacy :
  validate_resource_request r legacy = Ok tt ↔ covers r legacy ∧ valid_device r.
Proof.
  unfold validate_resource_request, covers.
  rewrite !bind_unit_Ok, !reject_if_Ok, !orb_false_iff, !bool_decide_eq_false, !N.ltb_ge.
  assert ((rr_slots r ≠ 0)%N ↔ (1 ≤ rr_slots r)%N) as -> by lia.
  assert ((rr_cpu_cores r ≠ 0)%N ↔ (1 ≤ rr_cpu_cores r)%N) as -> by lia.
  destruct (rr_gpu r) as [g|] eqn:Hg.
  - rewrite device_id_Ok, (valid_device_Some _ _ Hg). destruct (req_gpu legacy) as [l|].
    + rewrite gpu_request_Ok.
      assert ((∀ l0, Some l = Some l0 → ∃ g0, Some g = Some g0 ∧ gpu_covers g0 l0) ↔ gpu_covers g l)
        as -> by naive_solver. tauto.
    + assert (∀ l, None = Some l → ∃ g0, Some g = Some g0 ∧ gpu_covers g0 l) by done. tauto.
  - assert (valid_device r) by (intros g d Hd; congruence).
    destruct (req_gpu legacy) as [l|]; naive_solver.
Qed.

Lemma JobSpec_validate_Ok job : JobSpec_validate job = Ok tt ↔ valid_job job.
Proof.
  unfold JobSpec_validate.
  rewrite !bind_unit_Ok, !reject_if_Ok, negb_bool_decide_false,
    (for_each_i_Forall _ valid_step) by (intros; apply validate_step_Ok).
  rewrite validate_timeout_Ok, validate_requirements_Ok, validate_artifacts_Ok, validate_source_Ok.
  assert (validate_origin (job_origin job) = Ok tt ↔
          ∀ o, job_origin job = Some o → valid_origin o) as ->.
  { destruct (job_origin job) as [o|]; [rewrite validate_origin_Ok|]; naive_solver. }
  assert (match job_resource_request job with
          | Some request => validate_resource_request request (job_requirements job)
          | None => Ok tt
          end = Ok tt ↔
          ∀ r, job_resource_request job = Some r →
            covers r (job_requirements job) ∧ valid_device r) as ->.
  { destruct (job_resource_request job) as [r|];
      [rewrite validate_resource_request_Ok|]; naive_solver. }
  assert (is_empty (job_steps job) = false ↔ job_steps job ≠ []) as -> by by destruct (job_steps job).
  split; [intros (? & ? & ? & ? & ? & ? & ? & ? & ?); by split|by intros []].
Qed.

Lemma from_legacy_covers req :
  valid_requirements req → covers (resource_request_from_legacy req) req.
Proof.
  intros (_ & Hcpu & _). unfold covers, resource_request_from_legacy; cbn.
  destruct (req_min_cpu_cores req) as [c|]; cbn.
  all: split_and!; try lia; try (assert (c ≠ 0)%N by congruence; lia).
  all: intros l ->; eexists; split; [done|]; unfold gpu_covers; cbn; split_and!; (done || lia).
Qed.

(** The digest, the scheduler and the validator see the normalised job as the
    same job. *)
Lemma normalize_requirements_min_cpu req :
  req_min_cpu_cores (normalize_requirements req) = Some (unwrap_or (req_min_cpu_cores req) 1%N).
Proof. unfold normalize_requirements. by destruct (req_min_cpu_cores req) eqn:E. Qed.

Lemma normalize_requirements_other req :
  let n := normalize_requirements req in
  req_os n = req_os req ∧ req_arch n = req_arch req ∧ req_capabilities n = req_capabilities req ∧
  req_min_memory_mib n = req_min_memory_mib req ∧ req_min_disk_mib n = req_min_disk_mib req ∧
  req_gpu n = req_gpu req.
Proof. unfold normalize_requirements. by destruct (is_none _). Qed.

Lemma validate_requirements_normalize req :
  validate_requirements (normalize_requirements req) = validate_requirements req.
Proof.
  destruct (normalize_requirements_other req) as (_ & _ & Hc & Hm & Hd & Hg).
  unfold validate_requirements. rewrite Hc, Hm, Hd, Hg, normalize_requirements_min_cpu.
  by destruct (req_min_cpu_cores req).
Qed.

Lemma validate_resource_request_normalize r req :
  validate_resource_request r (normalize_requirements req) = validate_resource_request r req.
Proof.
  destruct (normalize_requirements_other req) as (_ & _ & _ & Hm & Hd & Hg).
  unfold validate_resource_request. by rewrite Hm, Hd, Hg, normalize_requirements_min_cpu.
Qed.

Lemma normalize_idempotent job :
  normalize_job_spec (normalize_job_spec job) = normalize_job_spec job.
Proof.
  unfold normalize_job_spec; cbn. f_equal.
  unfold normalize_requirements at 1. by rewrite normalize_requirements_min_cpu.
Qed.

(** ** Properties *)

(** [JobSpec::validate] returns [Ok] exactly on the valid jobs: current API
    version; at least one step, each named, scripted, with a portable working
    directory and a timeout of at most a day; origin fields of at most 256
    characters; no blank capability and no zero minimum; an explicit resource
    request that covers the legacy minima; portable artifact globs which leave
    the [.git] directory out; and a pinned source. *)
Theorem job_validate_spec (job : JobSpec) : JobSpec_validate job = Ok tt ↔ valid_job job.
Proof. apply JobSpec_validate_Ok. Qed.

(** The scheduler's resource contract: for a job that validates, the
    effective request, explicit or derived, asks for at least one slot and one
    core, never for less than a legacy minimum, and carries a GPU request at
    least as strong as the legacy GPU requirement; and it passes the validator
    for explicit requests. *)
Theorem effective_request_covers (job : JobSpec) (H : JobSpec_validate job = Ok tt) :
  covers (effective_resource_request job) (job_requirements job) ∧
  validate_resource_request (effective_resource_request job) (job_requirements job) = Ok tt.
Proof.
  apply JobSpec_validate_Ok in H. rewrite validate_resource_request_Ok.
  enough (covers (effective_resource_request job) (job_requirements job) ∧
          valid_device (effective_resource_request job)) by tauto.
  unfold effective_resource_request. destruct (job_resource_request job) as [r|] eqn:Hr.
  - by apply (vj_request _ H).
  - split; [by apply from_legacy_covers, vj_requirements|].
    intros g d. cbn. destruct (req_gpu _); [intros [= <-]|]; done.
Qed.

(** A job that validates, for the witnesses. *)
Definition sample_job : JobSpec :=
  JobSpec_new 7%N JobKind.Test
    (SourceSpec.Snapshot (lit "sha256:" ++ replicate 64 (chr "a")) (Some 4096%N))
    [JobStep_new (lit "test") (lit "cargo test")].

Lemma effective_request_covers_witness :
  JobSpec_validate sample_job = Ok tt ∧
  covers (effective_resource_request sample_job) (job_requirements sample_job).
Proof.
  assert (JobSpec_validate sample_job = Ok tt) as H by (by vm_compute).
  split; [exact H|]. apply (effective_request_covers sample_job H).
Defined.

Lemma validate_normalize job : JobSpec_validate (normalize_job_spec job) = JobSpec_validate job.
Proof.
  unfold JobSpec_validate, normalize_job_spec; cbn [job_api_version job_steps job_origin
    job_timeout_seconds job_requirements job_resource_request job_artifacts job_source].
  rewrite validate_requirements_normalize.
  destruct (job_resource_request job); [by rewrite validate_resource_request_normalize|done].
Qed.
(** Normalisation is an equivalence of jobs: it is idempotent, it makes the
    CPU minimum explicit, and neither the verdict of [validate] (its error
    included) nor the effective resource request can tell a job from its
    normal form. *)
Theorem normalize_job_equivalent (job : JobSpec) :
  normalize_job_spec (normalize_job_spec job) = normalize_job_spec job ∧
  req_min_cpu_cores (job_requirements (normalize_job_spec job)) =
    Some (unwrap_or (req_min_cpu_cores (job_requirements job)) 1%N) ∧
  JobSpec_validate (normalize_job_spec job) = JobSpec_validate job ∧
  effective_resource_request (normalize_job_spec job) = effective_resource_request job.
Proof.
  split_and!.
  - apply normalize_idempotent.
  - apply normalize_requirements_min_cpu.
  - apply validate_normalize.
  - unfold effective_resource_request, normalize_job_spec; cbn.
    destruct (job_resource_request job); [done|].
    destruct (normalize_requirements_other (job_requirements job)) as (_ & _ & _ & Hm & Hd & Hg).
    unfold resource_request_from_legacy. by rewrite Hm, Hd, Hg, normalize_requirements_min_cpu.
Qed.
