(* ===== verification/CanonicalJson.v ===== *)
(** The job digest: [canonical_job_digest], [write_canonical_json] and
    [project_preview100_resource_keys] of [crates/cyc-protocol/src/lib.rs].

    [serde_json] is a class: its number type, the serialisation of a job to a
    JSON value, and the text of a scalar and of a key.  The recursive writer and
    the key projection are the repository's own and are written out. *)
From Stdlib Require Import ZArith NArith Lia String.
From stdpp Require Import base option list numbers sets sorting.
From S2P Require Import Prelude Text Crates Protocol Snapshot JobSpec.
Open Scope rust_scope.

(** [serde_json::Value]; an object is its entries with distinct keys. *)
Inductive Value (Number : Type) :=
| Null
| Bool (b : bool)
| Num (n : Number)
| Str (s : rstr)
| Array (values : list (Value Number))
| Object (values : list (rstr * Value Number)).
Arguments Null {_}.
Arguments Bool {_} b.
Arguments Num {_} n.
Arguments Str {_} s.
Arguments Array {_} values.
Arguments Object {_} values.

(** [serde_json]: a scalar (and a key, which is a string) as bytes. *)
Class SerdeJsonCrate := {
  json_number : Type;
  json_error : Type;
  json_error_display : json_error → rstr;
  job_to_value : JobSpec → result json_error (Value json_number);
  scalar_to_vec : Value json_number → result json_error (list N)
}.

Section writer.
Context `{SerdeJsonCrate}.
Abbreviation value := (Value json_number).
Abbreviation writer := (list N → result json_error (list N)).

(** [serde_json::to_writer(&mut *output, value)?] *)
Definition append_scalar (v : value) (output : list N) : result json_error (list N) :=
  text ← scalar_to_vec v; Ok (output ++ text).

(** The loop [if index > 0 { push(b',') } ...]. *)
Fixpoint write_separated (first : bool) (writers : list writer) : writer := λ output,
  match writers with
  | [] => Ok output
  | w :: ws =>
      output ← w (if first then output else output ++ [chr ","]);
      write_separated false ws output
  end.

Definition by_key {A} (x y : rstr * A) : comparison := str_cmp x.1 y.1.

(** One [key:value] entry. *)
Definition write_entry (entry : rstr * writer) : writer := λ output,
  output ← append_scalar (Str entry.1) output;
  entry.2 (output ++ [chr ":"]).

(** Keys are sorted, then each value is written under its key. *)
Fixpoint write_canonical_json (v : value) (output : list N) : result json_error (list N) :=
  match v with
  | Null | Bool _ | Num _ | Str _ => append_scalar v output
  | Array values =>
      output ← write_separated true (map write_canonical_json values) (output ++ [chr "["]);
      Ok (output ++ [chr "]"])
  | Object values =>
      let entries := map (λ '(key, value), (key, write_canonical_json value)) values in
      output ← write_separated true (map write_entry (sort_by by_key entries))
                 (output ++ [chr "{"]);
      Ok (output ++ [chr "}"])
  end.

(** [serde_json::Map] (a [BTreeMap]): [remove] and [insert] on entries in key order. *)
Fixpoint map_remove {A} (key : rstr) (values : list (rstr * A)) : option (A * list (rstr * A)) :=
  match values with
  | [] => None
  | (k, v) :: rest =>
      if k == key then Some (v, rest)
      else match map_remove key rest with
           | Some (found, rest') => Some (found, (k, v) :: rest')
           | None => None
           end
  end.
Fixpoint map_insert {A} (key : rstr) (value : A) (values : list (rstr * A)) : list (rstr * A) :=
  match values with
  | [] => [(key, value)]
  | (k, v) :: rest =>
      match str_cmp key k with
      | Lt => (key, value) :: (k, v) :: rest
      | Eq => (key, value) :: rest
      | Gt => (k, v) :: map_insert key value rest
      end
  end.

Definition projected_key (key : rstr) : rstr :=
  if key == lit "minMemoryMiB" then lit "minMemoryMib"
  else if key == lit "minDiskMiB" then lit "minDiskMib"
  else if key == lit "minVramMiB" then lit "minVramMib"
  else if key == lit "memoryMiB" then lit "memoryMib"
  else if key == lit "diskMiB" then lit "diskMib"
  else if key == lit "vramMiB" then lit "vramMib"
  else key.

(** The loop over the cloned keys: remove, then insert under the projected key. *)
Definition rename_key {A} (values : list (rstr * A)) (key : rstr) : list (rstr * A) :=
  match map_remove key values with
  | Some (value, rest) => map_insert (projected_key key) value rest
  | None => values
  end.
Definition rename_keys {A} (values : list (rstr * A)) : list (rstr * A) :=
  foldl rename_key values (map fst values).

(** The renaming moves the values without reading them ([project_object] below),
    so the recursive calls on the values may come first. *)
Fixpoint project_preview100_resource_keys (v : value) : value :=
  match v with
  | Array values => Array (map project_preview100_resource_keys values)
  | Object values =>
      Object (rename_keys (map (λ '(key, value), (key, project_preview100_resource_keys value)) values))
  | Null | Bool _ | Num _ | Str _ => v
  end.

(** The bytes that are hashed. *)
Definition canonical_job_bytes (job : JobSpec) : result json_error (list N) :=
  value ← job_to_value (normalize_job_spec job);
  write_canonical_json (project_preview100_resource_keys value) [].

Definition canonical_job_digest `{DigestCrate} (job : JobSpec) : result json_error rstr :=
  canonical ← canonical_job_bytes job;
  Ok (hex (sha256 canonical)).

(** ** Lemmas *)

(** Equality up to the order of the entries of objects with distinct keys. *)
Inductive json_equiv : value → value → Prop :=
| equiv_refl v : json_equiv v v
| equiv_array vs ws : Forall2 json_equiv vs ws → json_equiv (Array vs) (Array ws)
| equiv_object es fs gs :
    NoDup (map fst es) →
    Forall2 (λ e f, e.1 = f.1 ∧ json_equiv e.2 f.2) es fs → fs ≡ₚ gs →
    json_equiv (Object es) (Object gs).

Lemma Value_nested_ind (P : value → Prop)
    (Hnull : P Null) (Hbool : ∀ b, P (Bool b)) (Hnum : ∀ n, P (Num n)) (Hstr : ∀ s, P (Str s))
    (Harray : ∀ vs, Forall P vs → P (Array vs))
    (Hobject : ∀ es, Forall (λ e, P e.2) es → P (Object es)) : ∀ v, P v.
Proof.
  fix IH 1. intros [|b|n|s|vs|es]; [done|apply Hbool|apply Hnum|apply Hstr| |].
  - apply Harray. induction vs; constructor; [apply IH|done].
  - apply Hobject. induction es as [|[k v] es IHes]; constructor; [apply IH|done].
Qed.

Lemma rename_key_map {A B} (f : A → B) values key :
  rename_key (map (λ '(k, v), (k, f v)) values) key = map (λ '(k, v), (k, f v)) (rename_key values key).
Proof.
  assert (∀ k (v : A) l, map_insert k (f v) (map (λ '(k, v), (k, f v)) l) =
                 map (λ '(k, v), (k, f v)) (map_insert k v l)) as Hins.
  { intros k v l. induction l as [|[k' v'] l IH]; cbn; [done|]. destruct (str_cmp k k'); cbn; congruence. }
  assert (map_remove key (map (λ '(k, v), (k, f v)) values) =
          match map_remove key values with
          | Some (v, l) => Some (f v, map (λ '(k, v), (k, f v)) l)
          | None => None
          end) as Hrem.
  { induction values as [|[k v] l IH]; cbn; [done|]. case_bool_decide; [done|].
    rewrite IH. by destruct (map_remove key l) as [[? ?]|]. }
  unfold rename_key. rewrite Hrem. destruct (map_remove key values) as [[v l]|]; [apply Hins|done].
Qed.

(** The equation in the order of the source: first the keys, then the values. *)
Lemma project_object values :
  project_preview100_resource_keys (Object values) =
  Object (map (λ '(k, v), (k, project_preview100_resource_keys v)) (rename_keys values)).
Proof.
  cbn. f_equal. unfold rename_keys. rewrite map_map.
  assert (map (λ x : rstr * value, (let '(k, v) := x in (k, project_preview100_resource_keys v)).1) values
          = map fst values) as -> by (apply map_ext; by intros []).
  generalize (map fst values) as keys. intros keys. revert values.
  induction keys as [|k keys IH]; intros values; cbn; [done|]. by rewrite rename_key_map, IH.
Qed.

#[local] Instance by_key_total {A} : TotalCmp (@by_key A).
Proof. apply (on_total fst str_cmp). apply _. Qed.

Lemma by_key_inj {A} (l : list (rstr * A)) :
  NoDup (map fst l) → ∀ x y, x ∈ l → y ∈ l → by_key x y = Eq → x = y.
Proof.
  intros Hnd [k1 v1] [k2 v2] H1 H2 Hk. unfold by_key in Hk. cbn in Hk. apply str_cmp_Eq in Hk as ->.
  f_equal. apply list_elem_of_lookup in H1 as [i Hi], H2 as [j Hj].
  assert (i = j) as ->; [|congruence].
  eapply NoDup_lookup; [exact Hnd| |]; rewrite list_lookup_fmap; [rewrite Hi|rewrite Hj]; done.
Qed.

Lemma write_separated_ext first ws1 ws2 :
  Forall2 (λ w1 w2, ∀ out, w1 out = w2 out) ws1 ws2 →
  ∀ out, write_separated first ws1 out = write_separated first ws2 out.
Proof.
  intros Hws. revert first. induction Hws as [|w1 w2 ws1 ws2 Hw _ IH]; intros first out; cbn; [done|].
  rewrite Hw. destruct (w2 _); cbn; [apply IH|done].
Qed.

Lemma insert_by_Forall2 {A B} (R : rstr * A → rstr * B → Prop) x y l1 l2 :
  (∀ a b, R a b → a.1 = b.1) → R x y → Forall2 R l1 l2 →
  Forall2 R (insert_by by_key x l1) (insert_by by_key y l2).
Proof.
  intros Hkey Hxy Hl. induction Hl as [|a b l1 l2 Hab Hl IH]; cbn; [by repeat constructor|].
  assert (by_key x a = by_key y b) as ->
    by (unfold by_key; by rewrite (Hkey _ _ Hxy), (Hkey _ _ Hab)).
  destruct (by_key y b); repeat constructor; done.
Qed.
Lemma sort_by_Forall2 {A B} (R : rstr * A → rstr * B → Prop) l1 l2 :
  (∀ a b, R a b → a.1 = b.1) → Forall2 R l1 l2 →
  Forall2 R (sort_by by_key l1) (sort_by by_key l2).
Proof.
  intros Hkey Hl. induction Hl; cbn; [constructor|]. by apply insert_by_Forall2.
Qed.

Lemma map_fst_entries {A B} (f : A → B) (es : list (rstr * A)) :
  map fst (map (λ '(k, v), (k, f v)) es) = map fst es.
Proof. rewrite map_map. apply map_ext. by intros []. Qed.

(** The writer cannot tell equivalent values apart. *)
Lemma write_canonical_json_equiv v w :
  json_equiv v w → ∀ output, write_canonical_json v output = write_canonical_json w output.
Proof.
  revert w. induction v as [|b|n|s|vs IH|es IH] using Value_nested_ind; intros w Hw output;
    inversion Hw as [|vs' ws Hvs|es' fs gs Hnd Hfs Hperm]; subst; try done; cbn.
  - rewrite (write_separated_ext true _ (map write_canonical_json ws)); [done|].
    clear Hw. induction Hvs as [|v w vs ws Hv _ IHvs]; cbn; constructor.
    + apply Forall_cons in IH as [IH _]. by apply IH.
    + apply IHvs. by apply Forall_cons in IH as [_ IH].
  - set (F := λ '(key, v), (key : rstr, write_canonical_json v)).
    assert (sort_by by_key (map F gs) = sort_by by_key (map F fs)) as ->.
    { apply sort_by_perm_eq; [apply _|by rewrite Hperm|]. apply by_key_inj.
      unfold F. rewrite map_fst_entries, <-Hperm.
      enough (map fst fs = map fst es) as -> by done.
      clear -Hfs. induction Hfs as [|e f es fs [? _] _ IH]; cbn; congruence. }
    rewrite (write_separated_ext true (map write_entry (sort_by by_key (map F es)))
               (map write_entry (sort_by by_key (map F fs)))); [done|].
    apply Forall2_fmap, (Forall2_impl (λ a b, a.1 = b.1 ∧ ∀ out, a.2 out = b.2 out)).
    + apply sort_by_Forall2; [by intros ?? []|]. apply Forall2_fmap.
      clear -IH Hfs. induction Hfs as [|[k v] [k' v'] es fs [Hk Hv] _ IHfs]; constructor.
      * apply Forall_cons in IH as [IH _]. split; [exact Hk|]. by apply IH.
      * apply IHfs. by apply Forall_cons in IH as [_ IH].
    + intros [k f] [k' g] [Hk Hg] out. cbn in *. subst k'. unfold write_entry; cbn.
      destruct (append_scalar _ _); cbn; [apply Hg|done].
Qed.

(** *** The key projection on ordered maps *)

Definition ascending {A} (l : list (rstr * A)) : Prop :=
  StronglySorted (λ x y, str_cmp x.1 y.1 = Lt) l.
Definition projected (key : rstr) : Prop := projected_key key = key.

(** Every object below is an ordered map. *)
Fixpoint ordered (v : value) : Prop :=
  match v with
  | Array values => foldr (λ v P, ordered v ∧ P) True values
  | Object values => ascending values ∧ foldr (λ e P, ordered e.2 ∧ P) True values
  | _ => True
  end.

Lemma str_cmp_refl s : str_cmp s s = Eq.
Proof. by apply str_cmp_Eq. Qed.

Lemma str_cmp_gt_lt s t : str_cmp s t = Gt → str_cmp t s = Lt.
Proof. rewrite (cmp_opp (cmp:=str_cmp) s t). by intros ->. Qed.

Lemma str_cmp_trans s t u : str_cmp s t = Lt → str_cmp t u = Lt → str_cmp s u = Lt.
Proof.
  intros H1 H2. assert (str_cmp s u ≠ Gt) as H3
    by (apply (cmp_le_trans (cmp:=str_cmp) s t u); congruence).
  destruct (str_cmp s u) eqn:E; [|done..]. apply str_cmp_Eq in E as ->.
  rewrite (cmp_opp (cmp:=str_cmp) u t), H1 in *. done.
Qed.

Lemma projected_key_projected key : projected (projected_key key).
Proof. unfold projected, projected_key. repeat case_bool_decide; by subst. Qed.

Lemma map_insert_elem {A} key (v : A) l e : e ∈ map_insert key v l → e = (key, v) ∨ e ∈ l.
Proof.
  induction l as [|[k' v'] l IH]; cbn; [set_solver|].
  destruct (str_cmp key k'); set_solver.
Qed.

Lemma map_remove_spec {A} key (l : list (rstr * A)) v l' :
  map_remove key l = Some (v, l') → l ≡ₚ (key, v) :: l' ∧ (ascending l → ascending l').
Proof.
  revert l'. induction l as [|[k w] l IH]; intros l'; cbn; [done|]. case_bool_decide as Hk.
  { intros [= -> ->]. subst. split; [done|]. by inversion 1. }
  destruct (map_remove key l) as [[found rest]|]; [|done]. intros [= -> <-].
  destruct (IH rest eq_refl) as [Hp Hs]. split; [rewrite Hp; apply perm_swap|].
  inversion 1 as [|? ? Hl Hall]; subst. constructor; [by apply Hs|].
  rewrite Hp in Hall. by apply Forall_cons in Hall as [_ Hall].
Qed.

Lemma map_insert_ascending {A} key (v : A) l : ascending l → ascending (map_insert key v l).
Proof.
  induction l as [|[k w] l IH]; cbn; intros Hl; [repeat constructor|].
  inversion Hl as [|? ? Hl' Hall]; subst. destruct (str_cmp key k) eqn:Hc.
  - apply str_cmp_Eq in Hc as ->. by constructor.
  - constructor; [done|]. constructor; [done|]. eapply Forall_impl; [exact Hall|].
    intros [k' v'] ?. cbn in *. by eapply str_cmp_trans.
  - constructor; [by apply IH|]. apply Forall_forall. intros e [->|He]%map_insert_elem.
    + by apply str_cmp_gt_lt.
    + rewrite Forall_forall in Hall. by apply Hall.
Qed.

(** Removing a key and inserting it again gives the map back. *)
Lemma rename_key_fixed {A} (l : list (rstr * A)) key :
  ascending l → projected key → rename_key l key = l.
Proof.
  intros Hl Hp. unfold rename_key. rewrite Hp. clear Hp.
  induction l as [|[k v] l IH]; cbn; [done|]. inversion Hl as [|? ? Hl' Hall]; subst.
  case_bool_decide as Hk.
  - subst k. destruct l as [|[k' v'] l]; cbn; [done|].
    apply Forall_cons in Hall as [Hlt _]. cbn in Hlt. by rewrite Hlt.
  - specialize (IH Hl'). destruct (map_remove key l) as [[found rest]|] eqn:E; [|done].
    cbn. assert (str_cmp key k = Gt) as ->; [|congruence].
    apply map_remove_spec in E as [Hp _]. rewrite Hp in Hall.
    apply Forall_cons in Hall as [Hlt _]. cbn in Hlt.
    by rewrite (cmp_opp (cmp:=str_cmp) k key), Hlt.
Qed.

Lemma rename_key_ascending {A} (l : list (rstr * A)) key :
  ascending l → ascending (rename_key l key).
Proof.
  intros Hl. unfold rename_key. destruct (map_remove key l) as [[v rest]|] eqn:E; [|done].
  apply map_insert_ascending. by apply map_remove_spec in E as [_ ?]; auto.
Qed.

Lemma rename_keys_fixed {A} (l : list (rstr * A)) :
  ascending l → Forall (λ e, projected e.1) l → rename_keys l = l.
Proof.
  intros Hl Hp. unfold rename_keys.
  assert (Forall projected (map fst l)) as Hk by (by apply Forall_fmap).
  clear Hp. revert Hk. generalize (map fst l) as keys. induction keys as [|k keys IH]; cbn; [done|].
  intros [Hk Hks]%Forall_cons. by rewrite rename_key_fixed, IH.
Qed.

Lemma map_remove_None {A} key (l : list (rstr * A)) : map_remove key l = None → key ∉ map fst l.
Proof.
  induction l as [|[k v] l IH]; cbn; [set_solver|]. case_bool_decide; [done|].
  destruct (map_remove key l) as [[? ?]|]; [done|]. set_solver.
Qed.

(** After the loop every key is a projected one: a key is either projected
    already or still to be visited. *)
Lemma rename_keys_projected {A} (l : list (rstr * A)) :
  ascending l → ascending (rename_keys l) ∧ Forall (λ e, projected e.1) (rename_keys l).
Proof.
  unfold rename_keys.
  assert (∀ keys (l : list (rstr * A)), ascending l →
            Forall (λ e, projected e.1 ∨ e.1 ∈ keys) l →
            ascending (foldl rename_key l keys) ∧
            Forall (λ e, projected e.1) (foldl rename_key l keys)) as Hgen.
  { clear l. induction keys as [|key keys IH]; intros l Hl Hk; cbn.
    { split; [done|]. eapply Forall_impl; [exact Hk|]. set_solver. }
    apply IH; [by apply rename_key_ascending|]. unfold rename_key.
    destruct (map_remove key l) as [[v rest]|] eqn:E.
    - assert (key ∉ map fst rest) as Hnotin.
      { pose proof (map_remove_spec _ _ _ _ E) as [Hp Hs]. intros Hin.
        assert (NoDup (map fst l)) as Hnd.
        { clear -Hl. induction Hl as [|e l Hl IH Hall]; cbn; constructor; [|done].
          intros [e' [He' ?]]%list_elem_of_fmap. rewrite Forall_forall in Hall.
          specialize (Hall e' ltac:(done)). rewrite He', str_cmp_refl in Hall. done. }
        rewrite Hp in Hnd. cbn in Hnd. by apply NoDup_cons in Hnd as [? _]. }
      apply map_remove_spec in E as [Hp _]. rewrite Hp in Hk.
      apply Forall_cons in Hk as [_ Hk]. apply Forall_forall. intros e [->|He]%map_insert_elem.
      + left. apply projected_key_projected.
      + rewrite Forall_forall in Hk. destruct (Hk e He) as [?|[Heq|?]%elem_of_cons]; [by left| |by right].
        destruct Hnotin. rewrite <-Heq. by apply list_elem_of_fmap_2.
    - apply map_remove_None in E. apply Forall_forall. intros e He. rewrite Forall_forall in Hk.
      destruct (Hk e He) as [?|[Heq|?]%elem_of_cons]; [by left| |by right].
      destruct E. rewrite <-Heq. by apply list_elem_of_fmap_2. }
  intros Hl. apply Hgen; [done|]. apply Forall_forall. intros e He. right. by apply list_elem_of_fmap_2.
Qed.

Lemma Forall_foldr {A} (P : A → Prop) l : foldr (λ a Q, P a ∧ Q) True l ↔ Forall P l.
Proof. induction l as [|a l IH]; cbn; [by rewrite Forall_nil|]. by rewrite Forall_cons, IH. Qed.

Lemma map_remove_values {A} (P : A → Prop) key (l : list (rstr * A)) v l' :
  map_remove key l = Some (v, l') → Forall (λ e, P e.2) l → P v ∧ Forall (λ e, P e.2) l'.
Proof.
  intros E HP. apply map_remove_spec in E as [Hp _]. rewrite Hp in HP.
  by apply Forall_cons in HP.
Qed.
Lemma rename_keys_values {A} (P : A → Prop) (l : list (rstr * A)) :
  Forall (λ e, P e.2) l → Forall (λ e, P e.2) (rename_keys l).
Proof.
  unfold rename_keys. generalize (map fst l) as keys. intros keys. revert l.
  induction keys as [|k keys IH]; intros l HP; cbn; [done|]. apply IH. unfold rename_key.
  destruct (map_remove k l) as [[v rest]|] eqn:E; [|done].
  destruct (map_remove_values P k l v rest E HP) as [Hv Hrest].
  apply Forall_forall. intros e [->|He]%map_insert_elem; [done|].
  rewrite Forall_forall in Hrest. by apply Hrest.
Qed.

Lemma ascending_map {A B} (f : A → B) (l : list (rstr * A)) :
  ascending l → ascending (map (λ '(k, v), (k, f v)) l).
Proof.
  induction 1 as [|[k v] l _ IH Hall]; cbn; constructor; [done|].
  apply Forall_fmap. eapply Forall_impl; [exact Hall|]. by intros [].
Qed.

(** The projection of an ordered value is a fixed point of the projection. *)
Lemma project_idempotent v :
  ordered v →
  project_preview100_resource_keys (project_preview100_resource_keys v) =
  project_preview100_resource_keys v.
Proof.
  induction v as [|b|n|s|vs IH|es IH] using Value_nested_ind; intros Ho; try done.
  - cbn. f_equal. cbn in Ho. rewrite Forall_foldr in Ho. rewrite map_map.
    apply map_ext_in. intros v Hv%list_elem_of_In. rewrite Forall_forall in IH, Ho. by apply IH, Ho.
  - destruct Ho as [Hasc Ho]. rewrite Forall_foldr in Ho. cbn [project_preview100_resource_keys].
    f_equal. set (es' := map _ es).
    assert (ascending es') as Hasc' by (by apply ascending_map).
    destruct (rename_keys_projected es' Hasc') as [Hr Hp].
    rewrite <-(rename_keys_fixed (rename_keys es')) at 2 by done.
    f_equal. rewrite <-(map_id (rename_keys es')) at 2.
    assert (Forall (λ e, project_preview100_resource_keys e.2 = e.2) (rename_keys es')) as Hfix.
    { apply (rename_keys_values (λ v, project_preview100_resource_keys v = v)).
      unfold es'. apply Forall_fmap, Forall_forall. intros [k v] He. cbn.
      rewrite Forall_forall in IH, Ho. by apply (IH (k, v)), (Ho (k, v)). }
    apply map_ext_in. intros [k v] He%list_elem_of_In. rewrite Forall_forall in Hfix.
    f_equal. by apply (Hfix (k, v)).
Qed.

(** ** Properties *)

(** The canonical text does not depend on the order of object entries: two
    values that differ only in the order of the (distinct) keys of their objects,
    at any depth, are written as the same bytes, or fail with the same error. *)
Theorem canonical_json_order_insensitive (v w : value) (output : list N) (Hvw : json_equiv v w) :
  write_canonical_json v output = write_canonical_json w output.
Proof. by apply write_canonical_json_equiv. Qed.

(** The key migration is stable: in an ordered value the projection to the
    preview.100 spelling renames every resource key once and for all.  Projecting
    again changes nothing, so a value already in the old spelling and its
    projection have the same canonical text. *)
Theorem preview100_projection_stable (v : value) (output : list N) (Hv : ordered v) :
  project_preview100_resource_keys (project_preview100_resource_keys v) =
    project_preview100_resource_keys v ∧
  write_canonical_json (project_preview100_resource_keys (project_preview100_resource_keys v)) output =
    write_canonical_json (project_preview100_resource_keys v) output.
Proof. by rewrite project_idempotent. Qed.

Lemma canonical_digest_normal `{DigestCrateLaws} (job : JobSpec) :
  canonical_job_digest (normalize_job_spec job) = canonical_job_digest job ∧
  ∀ digest, canonical_job_digest job = Ok digest → hex_string 64 digest.
Proof.
  split.
  - unfold canonical_job_digest, canonical_job_bytes. by rewrite normalize_idempotent.
  - intros digest. unfold canonical_job_digest. rewrite bind_Ok. intros (bs & _ & [= <-]).
    apply hex_digest_is_hex_string.
Qed.

(** The job digest is 64 lower-case hexadecimal characters and is the same
    for a job and its normal form: an omitted CPU minimum and the explicit
    default give one digest. *)
Theorem canonical_job_digest_normal `{DigestCrateLaws} (job : JobSpec) :
  canonical_job_digest (normalize_job_spec job) = canonical_job_digest job ∧
  ∀ digest, canonical_job_digest job = Ok digest → hex_string 64 digest.
Proof. apply canonical_digest_normal. Qed.
End writer.

(** ** Evaluation *)
Module ConcreteJson.
(** Scalars of a small subset: no number or string escapes occur in the inputs. *)
Definition scalar_text (v : Value N) : list N :=
  match v with
  | Null => lit "null"
  | Bool true => lit "true"
  | Bool false => lit "false"
  | Num n => fmt_N n
  | Str s => [34%N] ++ bytes s ++ [34%N]
  | _ => []
  end.
(** The part of a job that the witnesses serialise. *)
Definition job_value (job : JobSpec) : Value N :=
  Object [(lit "apiVersion", Str (job_api_version job));
          (lit "requirements", Object [(lit "minCpuCores",
             match req_min_cpu_cores (job_requirements job) with Some n => Num n | None => Null end)])].
#[export] Instance serde_crate : SerdeJsonCrate := {|
  json_number := N; json_error := unit; json_error_display _ := lit "error";
  job_to_value job := Ok (job_value job);
  scalar_to_vec v := Ok (scalar_text v)
|}.
End ConcreteJson.

Lemma canonical_json_order_insensitive_witness :
  let v : Value N := Object [(lit "b", Num 1%N); (lit "a", Null)] in
  let w : Value N := Object [(lit "a", Null); (lit "b", Num 1%N)] in
  write_canonical_json (H := ConcreteJson.serde_crate) v [] =
  write_canonical_json (H := ConcreteJson.serde_crate) w [].
Proof.
  apply (canonical_json_order_insensitive (H := ConcreteJson.serde_crate)).
  apply (equiv_object (H := ConcreteJson.serde_crate)) with [(lit "b", Num 1%N); (lit "a", Null)].
  - apply (bool_decide_unpack _). by vm_compute.
  - repeat constructor.
  - apply perm_swap.
Defined.

Lemma preview100_projection_stable_witness :
  let v : Value N := Object [(lit "diskMiB", Num 1%N); (lit "memoryMiB", Num 2%N)] in
  project_preview100_resource_keys (H := ConcreteJson.serde_crate)
    (project_preview100_resource_keys (H := ConcreteJson.serde_crate) v) =
  Object [(lit "diskMib", Num 1%N); (lit "memoryMib", Num 2%N)].
Proof.
  intros v. etransitivity.
  - apply (preview100_projection_stable (H := ConcreteJson.serde_crate) v []).
    repeat constructor.
  - by vm_compute.
Defined.

Lemma canonical_job_digest_normal_witness :
  canonical_job_digest (H := ConcreteJson.serde_crate) (H0 := Concrete.digest_crate)
    (normalize_job_spec sample_job) =
  canonical_job_digest (H := ConcreteJson.serde_crate) (H0 := Concrete.digest_crate) sample_job.
Proof.
  apply (canonical_job_digest_normal (H := ConcreteJson.serde_crate) (H0 := Concrete.digest_crate)
           (H1 := Concrete.digest_crate_laws)).
Defined.
