(* ===== verification/Scheduler.v ===== *)
(** Placement: [crates/cyc-scheduler/src/lib.rs].

    [evaluate_node] first collects every hard rejection of a node, then scores
    the nodes that have none; [schedule_contexts_at] picks the best candidate and
    explains all of them.  The specification is declarative: [admissible] says
    when a node may take a job, and the theorems relate the decision to it. *)
From Stdlib Require Import ZArith NArith Lia String.
From stdpp Require Import base option list numbers sets sorting.
From S2P Require Import Prelude Text Crates Protocol JobSpec.
Open Scope rust_scope.

(** [Duration::from_secs(15)] in nanoseconds *)
Definition DEFAULT_NODE_FRESHNESS_TTL : N := 15 * 1000000000.

Record SchedulerWeights := {
  sw_priority : Z;
  sw_available_cpu_core : Z;
  sw_available_memory_gib : Z;
  sw_available_disk_10gib : Z;
  sw_cpu_headroom_percent : Z;
  sw_gpu_vram_gib : Z;
  sw_queue_depth_penalty : Z;
  sw_running_job_penalty : Z;
  sw_source_cache_bonus : Z;
  sw_preferred_node_bonus : Z;
  sw_degraded_penalty : Z
}.

Definition SchedulerWeights_balanced : SchedulerWeights :=
  {| sw_priority := 1; sw_available_cpu_core := 12; sw_available_memory_gib := 2;
     sw_available_disk_10gib := 1; sw_cpu_headroom_percent := 2; sw_gpu_vram_gib := 4;
     sw_queue_depth_penalty := 60; sw_running_job_penalty := 25; sw_source_cache_bonus := 180;
     sw_preferred_node_bonus := 250; sw_degraded_penalty := 300 |}%Z.

Definition SchedulerWeights_performance : SchedulerWeights :=
  {| sw_priority := 1; sw_available_cpu_core := 30; sw_available_memory_gib := 5;
     sw_available_disk_10gib := 1; sw_cpu_headroom_percent := 3; sw_gpu_vram_gib := 10;
     sw_queue_depth_penalty := 45; sw_running_job_penalty := 20; sw_source_cache_bonus := 80;
     sw_preferred_node_bonus := 180; sw_degraded_penalty := 400 |}%Z.

Record Scheduler := {
  sched_balanced_weights : SchedulerWeights;
  sched_performance_weights : SchedulerWeights;
  sched_node_freshness_ttl : N
}.
Definition Scheduler_new (balanced performance : SchedulerWeights) : Scheduler :=
  {| sched_balanced_weights := balanced; sched_performance_weights := performance;
     sched_node_freshness_ttl := DEFAULT_NODE_FRESHNESS_TTL |}.
Definition Scheduler_default : Scheduler :=
  Scheduler_new SchedulerWeights_balanced SchedulerWeights_performance.
Definition with_node_freshness_ttl (ttl : N) (s : Scheduler) : Scheduler :=
  {| sched_balanced_weights := sched_balanced_weights s;
     sched_performance_weights := sched_performance_weights s;
     sched_node_freshness_ttl := ttl |}.

Record SchedulingNode := {
  sn_node : Node;
  sn_allowed_job_kinds : list JobKind.t;
  sn_allow_on_battery : bool;
  sn_on_battery : bool;
  sn_cpu_ewma_percent : N;
  sn_memory_used_percent : N;
  sn_temperature_c : option Z;
  sn_max_cpu_percent : option N;
  sn_max_cpu_ewma_percent : option N;
  sn_max_memory_percent : option N;
  sn_max_temperature_c : option Z;
  sn_configured_max_slots : N;
  sn_containment_max_safe_slots : N;
  sn_active_slots : N;
  sn_gpu_device_ids : list (option rstr);
  sn_gpu_active_reservations : list N
}.

Definition SchedulingNode_legacy (node : Node) : SchedulingNode :=
  {| sn_node := node; sn_allowed_job_kinds := []; sn_allow_on_battery := true;
     sn_on_battery := false; sn_cpu_ewma_percent := 0; sn_memory_used_percent := 0;
     sn_temperature_c := None; sn_max_cpu_percent := None; sn_max_cpu_ewma_percent := None;
     sn_max_memory_percent := None; sn_max_temperature_c := None; sn_configured_max_slots := 1;
     sn_containment_max_safe_slots := 1; sn_active_slots := 0; sn_gpu_device_ids := [];
     sn_gpu_active_reservations := [] |}.

Definition effective_slots (sn : SchedulingNode) : N :=
  N.min (sn_configured_max_slots sn) (sn_containment_max_safe_slots sn).

(** ** Hard rejections

    The code pushes on one vector; each block below is the list it pushes. *)
Definition reject (code : RejectionCode.t) (detail : rstr) : list PlacementRejection :=
  [{| rej_code := code; rej_detail := detail |}].

Definition liveness_rejections `{ChronoCrate} (node : Node) (observed_at : DateTime) (freshness_ttl : N) :
    list PlacementRejection :=
  (if negb (node_enabled node) then reject RejectionCode.Disabled (lit "node is disabled") else []) ++
  match node_status node with
  | NodeStatus.Offline => reject RejectionCode.Offline (lit "node is offline")
  | NodeStatus.Draining =>
      reject RejectionCode.Draining (lit "node is draining and accepts no new jobs")
  | NodeStatus.Online | NodeStatus.Degraded => []
  end ++
  match node_last_seen_at node with
  | None => reject RejectionCode.StaleNode (lit "node has never reported a heartbeat")
  | Some last_seen_at =>
      let age := (observed_at - last_seen_at)%Z in
      if (maximum_age freshness_ttl <? age)%Z then
        reject RejectionCode.StaleNode
          (lit "last heartbeat is " ++ fmt_Z (Z.quot age nanos_per_second) ++
           lit " seconds old; freshness TTL is " ++ fmt_N (freshness_ttl / 1000000000)%N ++ lit " seconds")
      else []
  end.

(** An observed percentage above an optional maximum *)
Definition above (observed : N) (maximum : option N) : bool :=
  is_some_and maximum (λ m, (m <? observed)%N).

Definition policy_rejections (job : JobSpec) (sn : SchedulingNode) : list PlacementRejection :=
  (if negb (is_empty (sn_allowed_job_kinds sn))
      && negb (set_contains (job_kind job) (sn_allowed_job_kinds sn)) then
     reject RejectionCode.PolicyJobKindDenied
       (lit "node policy does not allow " ++ JobKind.debug (job_kind job) ++ lit " jobs")
   else []) ++
  (if sn_on_battery sn && negb (sn_allow_on_battery sn) then
     reject RejectionCode.BatteryDisallowed (lit "node is on battery and policy requires AC power")
   else []) ++
  (if above (load_cpu_percent (node_load (sn_node sn))) (sn_max_cpu_percent sn) then
     reject RejectionCode.CpuLimitExceeded
       (lit "observed CPU " ++ fmt_N (load_cpu_percent (node_load (sn_node sn))) ++
        lit "% exceeds policy maximum " ++ fmt_N (unwrap_or (sn_max_cpu_percent sn) 0%N) ++ lit "%")
   else []) ++
  (if above (sn_cpu_ewma_percent sn) (sn_max_cpu_ewma_percent sn) then
     reject RejectionCode.CpuEwmaLimitExceeded
       (lit "CPU EWMA " ++ fmt_N (sn_cpu_ewma_percent sn) ++
        lit "% exceeds policy maximum " ++ fmt_N (unwrap_or (sn_max_cpu_ewma_percent sn) 0%N) ++ lit "%")
   else []) ++
  (if above (sn_memory_used_percent sn) (sn_max_memory_percent sn) then
     reject RejectionCode.MemoryLimitExceeded
       (lit "memory use " ++ fmt_N (sn_memory_used_percent sn) ++
        lit "% exceeds policy maximum " ++ fmt_N (unwrap_or (sn_max_memory_percent sn) 0%N) ++ lit "%")
   else []) ++
  match sn_temperature_c sn, sn_max_temperature_c sn with
  | Some t, Some m =>
      if (m <? t)%Z then
        reject RejectionCode.TemperatureLimitExceeded
          (lit "temperature " ++ fmt_Z t ++ lit " C exceeds policy maximum " ++ fmt_Z m ++ lit " C")
      else []
  | _, _ => []
  end.

Definition slot_rejections (job : JobSpec) (sn : SchedulingNode) : list PlacementRejection :=
  let slots := rr_slots (effective_resource_request job) in
  if effective_slots sn == 0%N then
    reject RejectionCode.ContainmentLimitReached
      (lit "worker containment reports zero safe execution slots")
  else if (effective_slots sn <? u32_saturating_add (sn_active_slots sn) slots)%N then
    if (sn_containment_max_safe_slots sn <? sn_configured_max_slots sn)%N then
      reject RejectionCode.ContainmentLimitReached
        (fmt_N (sn_active_slots sn) ++ lit " active plus " ++ fmt_N slots ++
         lit " requested slots exceed containment maximum " ++
         fmt_N (sn_containment_max_safe_slots sn) ++ lit " (configured " ++
         fmt_N (sn_configured_max_slots sn) ++ lit ")")
    else
      reject RejectionCode.SlotLimitReached
        (fmt_N (sn_active_slots sn) ++ lit " active plus " ++ fmt_N slots ++
         lit " requested slots exceed configured maximum " ++ fmt_N (sn_configured_max_slots sn))
  else [].

Definition manual_rejections `{UuidCrate} (job : JobSpec) (node : Node) : list PlacementRejection :=
  if job_placement_policy job == PlacementPolicy.Manual then
    match job_preferred_node_id job with
    | None => reject RejectionCode.ManualNodeRequired (lit "manual placement requires preferredNodeId")
    | Some preferred =>
        if preferred != node_id node then
          reject RejectionCode.ManualNodeMismatch
            (lit "manual placement selected node " ++ uuid_display preferred)
        else []
    end
  else [].

Definition platform_rejections (requirements : JobRequirements) (node : Node) : list PlacementRejection :=
  match req_os requirements with
  | Some required_os =>
      if node_os node != required_os then
        reject RejectionCode.WrongOs
          (lit "requires " ++ OperatingSystem.debug required_os ++ lit ", node provides " ++
           OperatingSystem.debug (node_os node))
      else []
  | None => []
  end ++
  match req_arch requirements with
  | Some required_arch =>
      if node_arch node != required_arch then
        reject RejectionCode.WrongArchitecture
          (lit "requires " ++ Architecture.debug required_arch ++ lit ", node provides " ++
           Architecture.debug (node_arch node))
      else []
  | None => []
  end ++
  map (λ capability, {| rej_code := RejectionCode.MissingCapability;
                        rej_detail := lit "missing capability `" ++ capability ++ lit "`" |})
    (set_difference (req_capabilities requirements) (node_capabilities node)).

Definition capacity_rejections (request : ResourceRequest) (node : Node) : list PlacementRejection :=
  let res := node_resources node in
  (if (res_available_cpu_cores res <? rr_cpu_cores request)%N
      || (100 <=? load_cpu_percent (node_load node))%N then
     reject RejectionCode.InsufficientCpu
       (lit "requires " ++ fmt_N (rr_cpu_cores request) ++ lit " available CPU cores, node has " ++
        fmt_N (res_available_cpu_cores res) ++ lit " at " ++
        fmt_N (load_cpu_percent (node_load node)) ++ lit "% utilization")
   else []) ++
  (if (res_available_memory_mib res <? rr_memory_mib request)%N then
     reject RejectionCode.InsufficientMemory
       (lit "requires " ++ fmt_N (rr_memory_mib request) ++ lit " MiB available memory, node has " ++
        fmt_N (res_available_memory_mib res) ++ lit " MiB")
   else []) ++
  (if (res_available_disk_mib res <? rr_disk_mib request)%N then
     reject RejectionCode.InsufficientDisk
       (lit "requires " ++ fmt_N (rr_disk_mib request) ++ lit " MiB available disk, node has " ++
        fmt_N (res_available_disk_mib res) ++ lit " MiB")
   else []).

(** [gpu_resource_rejections]: the loop keeps three accumulators and returns as
    soon as a device satisfies the request ([None] below). *)
Record GpuScan := { any_vendor_or_device : bool; any_allocatable : bool; best_vram : N }.

(** The two [continue] conditions of the loop. *)
Definition gpu_skipped (sn : SchedulingNode) (request : GpuResourceRequest) (index : nat)
    (gpu : GpuDevice) : bool :=
  let stable_id := mjoin (sn_gpu_device_ids sn !! index) in
  is_some_and (grr_vendor request) (λ vendor, gpu_vendor gpu != vendor)
  || is_some_and (grr_device_id request) (λ device_id, stable_id != Some device_id).
Definition gpu_reserved (sn : SchedulingNode) (request : GpuResourceRequest) (index : nat) : bool :=
  grr_exclusive request && (0 <? unwrap_or (sn_gpu_active_reservations sn !! index) 0)%N.

Fixpoint gpu_scan (sn : SchedulingNode) (request : GpuResourceRequest) (index : nat)
    (gpus : list GpuDevice) (st : GpuScan) : option GpuScan :=
  match gpus with
  | [] => Some st
  | gpu :: rest =>
      if gpu_skipped sn request index gpu then gpu_scan sn request (S index) rest st
      else
        let st := {| any_vendor_or_device := true; any_allocatable := any_allocatable st;
                     best_vram := best_vram st |} in
        if negb (gpu_allocatable gpu) then gpu_scan sn request (S index) rest st
        else if gpu_reserved sn request index then gpu_scan sn request (S index) rest st
        else
          let st := {| any_vendor_or_device := true; any_allocatable := true;
                       best_vram := N.max (best_vram st) (gpu_available_vram_mib gpu) |} in
          if (grr_vram_mib request <=? gpu_available_vram_mib gpu)%N then None
          else gpu_scan sn request (S index) rest st
  end.

Definition gpu_resource_rejections (sn : SchedulingNode) (request : GpuResourceRequest) :
    list PlacementRejection :=
  let gpus := res_gpus (node_resources (sn_node sn)) in
  if is_empty gpus then reject RejectionCode.GpuRequired (lit "node has no GPU")
  else match gpu_scan sn request 0 gpus
               {| any_vendor_or_device := false; any_allocatable := false; best_vram := 0 |} with
  | None => []
  | Some st =>
      if negb (any_vendor_or_device st) then
        match grr_device_id request with
        | Some device_id =>
            reject RejectionCode.GpuUnavailable
              (lit "node has no GPU device `" ++ device_id ++ lit "`")
        | None =>
            reject RejectionCode.GpuVendorMismatch
              (lit "node has no " ++ debug_option GpuVendor.debug (grr_vendor request) ++ lit " GPU")
        end
      else if negb (any_allocatable st) then
        reject (if grr_exclusive request then RejectionCode.ExclusiveGpuUnavailable
                else RejectionCode.GpuUnavailable)
          (lit "matching GPU is not allocatable")
      else
        reject RejectionCode.InsufficientVram
          (lit "requires " ++ fmt_N (grr_vram_mib request) ++
           lit " MiB available VRAM, best matching GPU has " ++ fmt_N (best_vram st) ++ lit " MiB")
  end.

(** [iter.max().unwrap_or_default()] *)
Definition max_or_zero (l : list N) : N := foldr N.max 0%N l.

Definition gpu_rejections (node : Node) (requirement : GpuRequirement) : list PlacementRejection :=
  let gpus := res_gpus (node_resources node) in
  if is_empty gpus then reject RejectionCode.GpuRequired (lit "node has no GPU")
  else
    let vendor_matches :=
      List.filter (λ gpu, is_none_or (gr_vendor requirement) (λ v, gpu_vendor gpu == v)) gpus in
    if is_empty vendor_matches then
      reject RejectionCode.GpuVendorMismatch
        (lit "node has no " ++ debug_option GpuVendor.debug (gr_vendor requirement) ++ lit " GPU")
    else
      let allocatable_matches := List.filter gpu_allocatable vendor_matches in
      if is_empty allocatable_matches then
        if gr_exclusive requirement then
          reject RejectionCode.ExclusiveGpuUnavailable
            (lit "matching GPUs cannot accept an exclusive lease")
        else
          reject RejectionCode.GpuUnavailable (lit "matching GPUs are administratively unavailable")
      else
        let vram_matches :=
          List.filter (λ gpu, is_none_or (gr_min_vram_mib requirement)
                           (λ minimum, (minimum <=? gpu_available_vram_mib gpu)%N)) allocatable_matches in
        if is_empty vram_matches then
          reject RejectionCode.InsufficientVram
            (lit "requires " ++ fmt_N (unwrap_or (gr_min_vram_mib requirement) 0%N) ++
             lit " MiB available VRAM, best matching GPU has " ++
             fmt_N (max_or_zero (map gpu_available_vram_mib allocatable_matches)) ++ lit " MiB")
        else [].

(** The GPU block at the end of [hard_rejections]. *)
Definition gpu_block (job : JobSpec) (sn : SchedulingNode) : list PlacementRejection :=
  let implicit_gpu := if job_kind job == JobKind.Gpu then Some GpuRequirement_default else None in
  match rr_gpu (effective_resource_request job) with
  | Some request => gpu_resource_rejections sn request
  | None =>
      match (match req_gpu (job_requirements job) with Some g => Some g | None => implicit_gpu end) with
      | Some requirement => gpu_rejections (sn_node sn) requirement
      | None => []
      end
  end.

Definition hard_rejections `{UuidCrate, ChronoCrate} (job : JobSpec) (sn : SchedulingNode)
    (observed_at : DateTime) (freshness_ttl : N) : list PlacementRejection :=
  liveness_rejections (sn_node sn) observed_at freshness_ttl ++
  policy_rejections job sn ++
  slot_rejections job sn ++
  manual_rejections job (sn_node sn) ++
  platform_rejections (job_requirements job) (sn_node sn) ++
  capacity_rejections (effective_resource_request job) (sn_node sn) ++
  gpu_block job sn.

(** ** Scores *)

(** [i64::try_from((value / divisor).min(cap)).unwrap_or(i64::MAX)] *)
Definition capped_units (value divisor cap : N) : Z := i64_of_u64_or_max (N.min (value / divisor) cap).

Definition component (key : rstr) (value : Z) (detail : rstr) : ScoreComponent :=
  {| sc_key := key; sc_value := value; sc_detail := detail |}.

Definition base_components (node : Node) (w : SchedulerWeights) : list ScoreComponent :=
  let res := node_resources node in
  let load := node_load node in
  [component (lit "priority") (i64_saturating_mul (node_priority node) (sw_priority w))
     (lit "configured priority " ++ fmt_Z (node_priority node));
   component (lit "cpu_capacity")
     (i64_saturating_mul (Z.of_N (res_available_cpu_cores res)) (sw_available_cpu_core w))
     (fmt_N (res_available_cpu_cores res) ++ lit " available logical CPU cores");
   component (lit "memory_capacity")
     (i64_saturating_mul (capped_units (res_available_memory_mib res) 1024 1024)
        (sw_available_memory_gib w))
     (fmt_N (res_available_memory_mib res) ++ lit " MiB available memory");
   component (lit "disk_capacity")
     (i64_saturating_mul (capped_units (res_available_disk_mib res) 10240 1024)
        (sw_available_disk_10gib w))
     (fmt_N (res_available_disk_mib res) ++ lit " MiB available disk");
   component (lit "cpu_headroom")
     (i64_saturating_mul (Z.of_N (saturating_sub 100 (N.min (load_cpu_percent load) 100)))
        (sw_cpu_headroom_percent w))
     (fmt_N (load_cpu_percent load) ++ lit "% observed CPU utilization");
   component (lit "queue_penalty")
     (i64_neg (i64_saturating_mul (Z.of_N (load_queue_depth load)) (sw_queue_depth_penalty w)))
     (fmt_N (load_queue_depth load) ++ lit " queued jobs");
   component (lit "running_job_penalty")
     (i64_neg (i64_saturating_mul (Z.of_N (load_running_jobs load)) (sw_running_job_penalty w)))
     (fmt_N (load_running_jobs load) ++ lit " running jobs")].

(** The VRAM the [gpu_capacity] component counts, for GPU work. *)
Definition scored_vram (job : JobSpec) (node : Node) : option N :=
  let request := effective_resource_request job in
  if (job_kind job == JobKind.Gpu) || is_some (req_gpu (job_requirements job)) || is_some (rr_gpu request)
  then
    let requested_vendor :=
      match rr_gpu request ≫= grr_vendor with
      | Some v => Some v
      | None => req_gpu (job_requirements job) ≫= gr_vendor
      end in
    Some (max_or_zero (map gpu_available_vram_mib
      (List.filter (λ gpu, is_none_or requested_vendor (λ v, gpu_vendor gpu == v))
         (res_gpus (node_resources node)))))
  else None.

Definition bonus_components (job : JobSpec) (node : Node) (w : SchedulerWeights) : list ScoreComponent :=
  match scored_vram job node with
  | Some available_vram =>
      [component (lit "gpu_capacity")
         (i64_saturating_mul (capped_units available_vram 1024 1024) (sw_gpu_vram_gib w))
         (fmt_N available_vram ++ lit " MiB available VRAM")]
  | None => []
  end ++
  (if set_contains (SourceSpec.cache_key (job_source job)) (node_cached_sources node)
   then [component (lit "source_cache") (sw_source_cache_bonus w) (lit "exact source is already cached")]
   else []) ++
  (if job_preferred_node_id job == Some (node_id node)
   then [component (lit "preferred_node") (sw_preferred_node_bonus w) (lit "job prefers this node")]
   else []) ++
  (if node_status node == NodeStatus.Degraded
   then [component (lit "degraded_penalty") (i64_neg (sw_degraded_penalty w))
           (lit "node reports degraded health")]
   else []).

Definition score_components (job : JobSpec) (node : Node) (w : SchedulerWeights) : list ScoreComponent :=
  base_components node w ++ bonus_components job node w.

(** [components.iter().fold(0, |total, c| total.saturating_add(c.value))] *)
Definition total_score (components : list ScoreComponent) : Z :=
  foldl (λ total c, i64_saturating_add total (sc_value c)) 0%Z components.

Definition evaluate_node `{UuidCrate, ChronoCrate} (job : JobSpec) (sn : SchedulingNode)
    (weights : SchedulerWeights) (observed_at : DateTime) (freshness_ttl : N) :
    PlacementCandidateExplain :=
  let node := sn_node sn in
  let rejection_reasons := hard_rejections job sn observed_at freshness_ttl in
  if negb (is_empty rejection_reasons) then
    {| cand_node_id := node_id node; cand_node_name := node_name node; cand_eligible := false;
       cand_score := None; cand_score_components := []; cand_rejection_reasons := rejection_reasons |}
  else
    let components := score_components job node weights in
    {| cand_node_id := node_id node; cand_node_name := node_name node; cand_eligible := true;
       cand_score := Some (total_score components); cand_score_components := components;
       cand_rejection_reasons := [] |}.

(** ** The decision *)
Definition candidate_score (c : PlacementCandidateExplain) : Z := unwrap_or (cand_score c) i64_min.

Definition compare_candidates (left right : PlacementCandidateExplain) : comparison :=
  then_with (Z.compare (candidate_score left) (candidate_score right))
            (N.compare (cand_node_id right) (cand_node_id left)).

Definition compare_explained (left right : PlacementCandidateExplain) : comparison :=
  then_with (str_cmp (cand_node_name left) (cand_node_name right))
            (N.compare (cand_node_id left) (cand_node_id right)).

Record PlacementDecision := { dec_node_id : Uuid; dec_score : Z; dec_explanation : PlacementExplain }.

Module ScheduleError.
Inductive t :=
| InvalidJob (e : ValidationError.t)
| NoEligibleNodes (explanation : PlacementExplain).
#[export] Instance eq_dec : EqDecision t.
Proof. solve_decision. Defined.
(** [ScheduleError::explanation] *)
Definition explanation (e : t) : option PlacementExplain :=
  match e with InvalidJob _ => None | NoEligibleNodes explanation => Some explanation end.
End ScheduleError.
Export (hints) ScheduleError.

Definition policy_weights (s : Scheduler) (job : JobSpec) : SchedulerWeights :=
  match job_placement_policy job with
  | PlacementPolicy.Balanced | PlacementPolicy.Manual => sched_balanced_weights s
  | PlacementPolicy.Performance => sched_performance_weights s
  end.

Definition schedule_contexts_at `{UuidCrate, ChronoCrate} (s : Scheduler) (job : JobSpec)
    (nodes : list SchedulingNode) (observed_at : DateTime) : result ScheduleError.t PlacementDecision :=
  map_err ScheduleError.InvalidJob (JobSpec_validate job);;
  let candidates :=
    map (λ sn, evaluate_node job sn (policy_weights s job) observed_at (sched_node_freshness_ttl s)) nodes in
  let selected :=
    (λ c, (cand_node_id c, unwrap_or (cand_score c) 0%Z)) <$>
      max_by compare_candidates (List.filter cand_eligible candidates) in
  let explanation :=
    {| expl_policy := job_placement_policy job; expl_selected_node_id := fst <$> selected;
       expl_candidates := sort_by compare_explained candidates |} in
  match selected with
  | Some (node_id, score) =>
      Ok {| dec_node_id := node_id; dec_score := score; dec_explanation := explanation |}
  | None => Err (ScheduleError.NoEligibleNodes explanation)
  end.

(** [Scheduler::schedule_at]: every node in a legacy context. *)
Definition schedule_at `{UuidCrate, ChronoCrate} (s : Scheduler) (job : JobSpec) (nodes : list Node)
    (observed_at : DateTime) : result ScheduleError.t PlacementDecision :=
  map_err ScheduleError.InvalidJob (JobSpec_validate job);;
  schedule_contexts_at s job (map SchedulingNode_legacy nodes) observed_at.

(** [select_node]; the clock is an argument. *)
Definition select_node `{UuidCrate, ChronoCrate} (now : DateTime) (job : JobSpec) (nodes : list Node) :
    result ScheduleError.t PlacementDecision :=
  schedule_at Scheduler_default job nodes now.

(** ** Specification *)

Definition within (observed : N) (maximum : option N) : Prop :=
  ∀ m, maximum = Some m → (observed ≤ m)%N.

(** Some device of the node serves an explicit request. *)
Definition serves_request (sn : SchedulingNode) (request : GpuResourceRequest) : Prop :=
  ∃ i gpu, res_gpus (node_resources (sn_node sn)) !! i = Some gpu ∧
    (∀ v, grr_vendor request = Some v → gpu_vendor gpu = v) ∧
    (∀ d, grr_device_id request = Some d → sn_gpu_device_ids sn !! i = Some (Some d)) ∧
    gpu_allocatable gpu = true ∧
    (grr_exclusive request = true → unwrap_or (sn_gpu_active_reservations sn !! i) 0%N = 0%N) ∧
    (grr_vram_mib request ≤ gpu_available_vram_mib gpu)%N.

(** Some device of the node serves a legacy requirement. *)
Definition serves_requirement (node : Node) (requirement : GpuRequirement) : Prop :=
  ∃ gpu, gpu ∈ res_gpus (node_resources node) ∧
    (∀ v, gr_vendor requirement = Some v → gpu_vendor gpu = v) ∧
    gpu_allocatable gpu = true ∧
    (∀ m, gr_min_vram_mib requirement = Some m → (m ≤ gpu_available_vram_mib gpu)%N).

(** The GPU a job needs, if any: its effective request first, then its
    requirement, then the default requirement of a GPU job. *)
Definition gpu_served (job : JobSpec) (sn : SchedulingNode) : Prop :=
  match rr_gpu (effective_resource_request job), req_gpu (job_requirements job) with
  | Some request, _ => serves_request sn request
  | None, Some requirement => serves_requirement (sn_node sn) requirement
  | None, None => job_kind job = JobKind.Gpu → serves_requirement (sn_node sn) GpuRequirement_default
  end.

(** When a node may take a job. *)
Record admissible `{ChronoCrate} (job : JobSpec) (sn : SchedulingNode) (now : DateTime) (ttl : N) :
    Prop := {
  adm_enabled : node_enabled (sn_node sn) = true;
  adm_status : node_status (sn_node sn) = NodeStatus.Online ∨
               node_status (sn_node sn) = NodeStatus.Degraded;
  adm_fresh : ∃ seen, node_last_seen_at (sn_node sn) = Some seen ∧ (now - seen ≤ maximum_age ttl)%Z;
  adm_kind : sn_allowed_job_kinds sn = [] ∨ job_kind job ∈ sn_allowed_job_kinds sn;
  adm_power : sn_on_battery sn = true → sn_allow_on_battery sn = true;
  adm_cpu : within (load_cpu_percent (node_load (sn_node sn))) (sn_max_cpu_percent sn);
  adm_ewma : within (sn_cpu_ewma_percent sn) (sn_max_cpu_ewma_percent sn);
  adm_memory : within (sn_memory_used_percent sn) (sn_max_memory_percent sn);
  adm_temperature : ∀ t m, sn_temperature_c sn = Some t → sn_max_temperature_c sn = Some m → (t ≤ m)%Z;
  adm_slots : (1 ≤ effective_slots sn)%N ∧
    (sn_active_slots sn + rr_slots (effective_resource_request job) ≤ effective_slots sn ∨
     u32_max ≤ effective_slots sn)%N;
  adm_manual : job_placement_policy job = PlacementPolicy.Manual →
    job_preferred_node_id job = Some (node_id (sn_node sn));
  adm_os : ∀ os, req_os (job_requirements job) = Some os → node_os (sn_node sn) = os;
  adm_arch : ∀ a, req_arch (job_requirements job) = Some a → node_arch (sn_node sn) = a;
  adm_capabilities : ∀ c, c ∈ req_capabilities (job_requirements job) → c ∈ node_capabilities (sn_node sn);
  adm_capacity :
    (rr_cpu_cores (effective_resource_request job) ≤ res_available_cpu_cores (node_resources (sn_node sn)) ∧
     load_cpu_percent (node_load (sn_node sn)) < 100 ∧
     rr_memory_mib (effective_resource_request job) ≤ res_available_memory_mib (node_resources (sn_node sn)) ∧
     rr_disk_mib (effective_resource_request job) ≤ res_available_disk_mib (node_resources (sn_node sn)))%N;
  adm_gpu : gpu_served job sn
}.

(** ** Rejections against admissibility *)

Lemma app_nil {A} (l1 l2 : list A) : l1 ++ l2 = [] ↔ l1 = [] ∧ l2 = [].
Proof. split; [apply app_eq_nil|by intros [-> ->]]. Qed.

Lemma reject_unless (b : bool) code detail :
  (if b then reject code detail else []) = [] ↔ b = false.
Proof. by destruct b. Qed.

Lemma above_false observed maximum : above observed maximum = false ↔ within observed maximum.
Proof.
  unfold above, within. rewrite is_some_and_false. by setoid_rewrite N.ltb_ge.
Qed.

Lemma liveness_nil `{ChronoCrate} node now ttl :
  liveness_rejections node now ttl = [] ↔
  node_enabled node = true ∧
  (node_status node = NodeStatus.Online ∨ node_status node = NodeStatus.Degraded) ∧
  ∃ seen, node_last_seen_at node = Some seen ∧ (now - seen ≤ maximum_age ttl)%Z.
Proof.
  unfold liveness_rejections. rewrite !app_nil, reject_unless, negb_false_iff.
  destruct (node_status node), (node_last_seen_at node) as [seen|]; try naive_solver.
  all: cbn zeta; rewrite reject_unless, Z.ltb_ge; naive_solver.
Qed.

Lemma policy_nil job sn :
  policy_rejections job sn = [] ↔
  (sn_allowed_job_kinds sn = [] ∨ job_kind job ∈ sn_allowed_job_kinds sn) ∧
  (sn_on_battery sn = true → sn_allow_on_battery sn = true) ∧
  within (load_cpu_percent (node_load (sn_node sn))) (sn_max_cpu_percent sn) ∧
  within (sn_cpu_ewma_percent sn) (sn_max_cpu_ewma_percent sn) ∧
  within (sn_memory_used_percent sn) (sn_max_memory_percent sn) ∧
  ∀ t m, sn_temperature_c sn = Some t → sn_max_temperature_c sn = Some m → (t ≤ m)%Z.
Proof.
  unfold policy_rejections, set_contains. rewrite !app_nil, !reject_unless, !above_false.
  rewrite !andb_false_iff, !negb_false_iff, bool_decide_eq_true.
  assert (is_empty (sn_allowed_job_kinds sn) = true ↔ sn_allowed_job_kinds sn = []) as ->
    by by destruct (sn_allowed_job_kinds sn).
  assert (match sn_temperature_c sn, sn_max_temperature_c sn with
          | Some t, Some m => if (m <? t)%Z then reject RejectionCode.TemperatureLimitExceeded
              (lit "temperature " ++ fmt_Z t ++ lit " C exceeds policy maximum " ++ fmt_Z m ++ lit " C")
              else []
          | _, _ => []
          end = [] ↔
          ∀ t m, sn_temperature_c sn = Some t → sn_max_temperature_c sn = Some m → (t ≤ m)%Z) as ->.
  { destruct (sn_temperature_c sn), (sn_max_temperature_c sn); try naive_solver.
    rewrite reject_unless, Z.ltb_ge. naive_solver. }
  destruct (sn_on_battery sn), (sn_allow_on_battery sn); naive_solver.
Qed.

Lemma slot_nil job sn :
  slot_rejections job sn = [] ↔
  (1 ≤ effective_slots sn)%N ∧
  (sn_active_slots sn + rr_slots (effective_resource_request job) ≤ effective_slots sn ∨
   u32_max ≤ effective_slots sn)%N.
Proof.
  unfold slot_rejections, u32_saturating_add. case_bool_decide as H0.
  { split; [done|]. lia. }
  destruct (N.ltb_spec (effective_slots sn)
    (N.min (sn_active_slots sn + rr_slots (effective_resource_request job)) u32_max)).
  - split; [by destruct (_ <? _)%N|]. lia.
  - split; [|done]. intros _. lia.
Qed.

Lemma manual_nil `{UuidCrate} job node :
  manual_rejections job node = [] ↔
  (job_placement_policy job = PlacementPolicy.Manual → job_preferred_node_id job = Some (node_id node)).
Proof.
  unfold manual_rejections. case_bool_decide; [|naive_solver].
  destruct (job_preferred_node_id job); [|naive_solver].
  rewrite reject_unless, negb_bool_decide_false. naive_solver.
Qed.

Lemma platform_nil requirements node :
  platform_rejections requirements node = [] ↔
  (∀ os, req_os requirements = Some os → node_os node = os) ∧
  (∀ a, req_arch requirements = Some a → node_arch node = a) ∧
  ∀ c, c ∈ req_capabilities requirements → c ∈ node_capabilities node.
Proof.
  unfold platform_rejections. rewrite !app_nil, <-set_difference_nil.
  assert (∀ {A B} (f : A → B) l, map f l = [] ↔ l = []) as -> by (by intros ??? []).
  destruct (req_os requirements), (req_arch requirements);
    rewrite ?reject_unless, ?negb_bool_decide_false; naive_solver.
Qed.

Lemma capacity_nil request node :
  capacity_rejections request node = [] ↔
  (rr_cpu_cores request ≤ res_available_cpu_cores (node_resources node) ∧
   load_cpu_percent (node_load node) < 100 ∧
   rr_memory_mib request ≤ res_available_memory_mib (node_resources node) ∧
   rr_disk_mib request ≤ res_available_disk_mib (node_resources node))%N.
Proof.
  unfold capacity_rejections.
  rewrite !app_nil, !reject_unless, orb_false_iff, !N.ltb_ge, N.leb_gt. tauto.
Qed.

(** A device passes every test of the loop. *)
Definition device_accepted (sn : SchedulingNode) (request : GpuResourceRequest) (i : nat)
    (gpu : GpuDevice) : bool :=
  negb (gpu_skipped sn request i gpu) && gpu_allocatable gpu && negb (gpu_reserved sn request i)
  && (grr_vram_mib request <=? gpu_available_vram_mib gpu)%N.

Lemma gpu_scan_None sn request gpus i st :
  gpu_scan sn request i gpus st = None ↔
  ∃ j gpu, gpus !! j = Some gpu ∧ device_accepted sn request (i + j) gpu = true.
Proof.
  revert i st. induction gpus as [|gpu gpus IH]; intros i st; cbn.
  { split; [done|]. by intros (j & gpu & Hj & _). }
  assert ((∃ j g, (gpu :: gpus) !! j = Some g ∧ device_accepted sn request (i + j) g = true) ↔
          device_accepted sn request i gpu = true ∨
          ∃ j g, gpus !! j = Some g ∧ device_accepted sn request (S i + j) g = true) as ->.
  { split.
    - intros ([|j] & g & Hj & Hg); [left|right].
      + injection Hj as ->. by rewrite Nat.add_0_r in Hg.
      + exists j, g. split; [done|]. by rewrite Nat.add_succ_comm.
    - intros [Hg|(j & g & Hj & Hg)].
      + exists 0, gpu. by rewrite Nat.add_0_r.
      + exists (S j), g. split; [done|]. by rewrite <-Nat.add_succ_comm. }
  unfold device_accepted at 1.
  destruct (gpu_skipped sn request i gpu), (gpu_allocatable gpu),
    (gpu_reserved sn request i); cbn; rewrite ?IH;
    try (split; [by right|by intros [?|?]]).
  destruct (_ <=? _)%N; [split; [by left|done]|]. rewrite IH. split; [by right|by intros [?|?]].
Qed.

Lemma device_accepted_true sn request i gpu :
  device_accepted sn request i gpu = true ↔
  (∀ v, grr_vendor request = Some v → gpu_vendor gpu = v) ∧
  (∀ d, grr_device_id request = Some d → sn_gpu_device_ids sn !! i = Some (Some d)) ∧
  gpu_allocatable gpu = true ∧
  (grr_exclusive request = true → unwrap_or (sn_gpu_active_reservations sn !! i) 0%N = 0%N) ∧
  (grr_vram_mib request ≤ gpu_available_vram_mib gpu)%N.
Proof.
  unfold device_accepted, gpu_skipped, gpu_reserved.
  rewrite !andb_true_iff, !negb_true_iff, orb_false_iff, !is_some_and_false, N.leb_le, andb_false_iff,
    N.ltb_ge.
  setoid_rewrite negb_bool_decide_false.
  assert (∀ d, mjoin (sn_gpu_device_ids sn !! i) = Some d ↔ sn_gpu_device_ids sn !! i = Some (Some d))
    as Hjoin by (intros d; destruct (_ !! i) as [[?|]|]; cbn; naive_solver).
  setoid_rewrite Hjoin. rewrite N.le_0_r. destruct (grr_exclusive request); naive_solver.
Qed.

Lemma gpu_resource_nil sn request :
  gpu_resource_rejections sn request = [] ↔ serves_request sn request.
Proof.
  unfold gpu_resource_rejections, serves_request. setoid_rewrite <-device_accepted_true.
  set (st0 := {| any_vendor_or_device := false; any_allocatable := false; best_vram := 0 |}).
  pose proof (gpu_scan_None sn request (res_gpus (node_resources (sn_node sn))) 0 st0) as Hscan.
  cbn [Nat.add] in Hscan.
  destruct (res_gpus (node_resources (sn_node sn))) as [|g gpus]; cbn [is_empty].
  { split; [done|]. by intros (i & gpu & Hi & _). }
  rewrite <-Hscan. destruct (gpu_scan sn request 0 (g :: gpus) st0) as [st|]; [|done].
  split; [|done]. destruct (negb (any_vendor_or_device st)); [by destruct (grr_device_id request)|].
  by destruct (negb (any_allocatable st)).
Qed.

Lemma filter_is_empty {A} (p : A → bool) l :
  is_empty (List.filter p l) = false ↔ ∃ x, x ∈ l ∧ p x = true.
Proof.
  assert (is_empty (List.filter p l) = false ↔ ∃ x, x ∈ List.filter p l) as ->.
  { destruct (List.filter p l) as [|x l']; cbn; [|split; [exists x; left|done]].
    split; [done|]. by intros [x Hx%not_elem_of_nil]. }
  setoid_rewrite list_elem_of_In. by setoid_rewrite filter_In.
Qed.

Lemma gpu_nil node requirement :
  gpu_rejections node requirement = [] ↔ serves_requirement node requirement.
Proof.
  unfold gpu_rejections, serves_requirement.
  set (gpus := res_gpus (node_resources node)).
  set (vendor := λ gpu, is_none_or (gr_vendor requirement) _).
  set (vram := λ gpu, is_none_or (gr_min_vram_mib requirement) _).
  assert (∀ gpu, vendor gpu = true ↔ ∀ v, gr_vendor requirement = Some v → gpu_vendor gpu = v) as Hv.
  { intros gpu. unfold vendor. rewrite is_none_or_true. by setoid_rewrite bool_decide_eq_true. }
  assert (∀ gpu, vram gpu = true ↔
    ∀ m, gr_min_vram_mib requirement = Some m → (m ≤ gpu_available_vram_mib gpu)%N) as Hm.
  { intros gpu. unfold vram. rewrite is_none_or_true. by setoid_rewrite N.leb_le. }
  setoid_rewrite <-Hv. setoid_rewrite <-Hm. clearbody vendor vram gpus.
  assert ((∃ gpu, gpu ∈ gpus ∧ vendor gpu = true ∧ gpu_allocatable gpu = true ∧ vram gpu = true) ↔
          is_empty (List.filter vram (List.filter gpu_allocatable (List.filter vendor gpus))) = false) as ->.
  { rewrite filter_is_empty. setoid_rewrite list_elem_of_In. setoid_rewrite filter_In.
    setoid_rewrite filter_In. naive_solver. }
  destruct (is_empty gpus) eqn:E1; [destruct gpus; naive_solver|].
  destruct (is_empty (List.filter vendor gpus)) eqn:E2.
  { destruct (List.filter vendor gpus); [|done]. naive_solver. }
  destruct (is_empty (List.filter gpu_allocatable (List.filter vendor gpus))) eqn:E3.
  { destruct (List.filter gpu_allocatable _); [|done]. destruct (gr_exclusive requirement); naive_solver. }
  destruct (is_empty (List.filter vram _)); naive_solver.
Qed.

Lemma gpu_block_nil job sn : gpu_block job sn = [] ↔ gpu_served job sn.
Proof.
  unfold gpu_block, gpu_served. destruct (rr_gpu _); [apply gpu_resource_nil|].
  destruct (req_gpu _); [apply gpu_nil|]. case_bool_decide; [|naive_solver].
  rewrite gpu_nil. naive_solver.
Qed.

Lemma hard_rejections_nil `{UuidCrate, ChronoCrate} job sn now ttl :
  hard_rejections job sn now ttl = [] ↔ admissible job sn now ttl.
Proof.
  unfold hard_rejections.
  rewrite !app_nil, liveness_nil, policy_nil, slot_nil, manual_nil, platform_nil, capacity_nil,
    gpu_block_nil.
  split; [|by intros []; split_and!; tauto].
  intros ((?&?&?) & (?&?&?&?&?&?) & ? & ? & (?&?&?) & ? & ?). by split.
Qed.

(** ** Candidates *)

Section decision.
Context `{UuidCrate, ChronoCrate}.

#[export] Instance compare_candidates_total : TotalCmp compare_candidates.
Proof.
  unfold compare_candidates. apply then_with_total.
  - apply (on_total candidate_score Z.compare). apply _.
  - apply (flip_total (λ l r, N.compare (cand_node_id l) (cand_node_id r))).
    apply (on_total cand_node_id N.compare). apply _.
Qed.
#[export] Instance compare_explained_total : TotalCmp compare_explained.
Proof.
  unfold compare_explained. apply then_with_total.
  - apply (on_total cand_node_name str_cmp). apply _.
  - apply (on_total cand_node_id N.compare). apply _.
Qed.

Definition node_score (s : Scheduler) (job : JobSpec) (sn : SchedulingNode) : Z :=
  total_score (score_components job (sn_node sn) (policy_weights s job)).

Lemma evaluate_node_id job sn w now ttl :
  cand_node_id (evaluate_node job sn w now ttl) = node_id (sn_node sn).
Proof. unfold evaluate_node. by destruct (negb _). Qed.

Lemma evaluate_node_eligible job sn w now ttl :
  cand_eligible (evaluate_node job sn w now ttl) = true ↔ admissible job sn now ttl.
Proof.
  rewrite <-hard_rejections_nil. unfold evaluate_node. by destruct (hard_rejections _ _ _ _).
Qed.

Lemma evaluate_node_score job sn w now ttl :
  admissible job sn now ttl →
  cand_score (evaluate_node job sn w now ttl) = Some (total_score (score_components job (sn_node sn) w)).
Proof. rewrite <-hard_rejections_nil. unfold evaluate_node. by intros ->. Qed.

(** The candidates of a call. *)
Definition candidates_of (s : Scheduler) (job : JobSpec) (nodes : list SchedulingNode) (now : DateTime) :=
  map (λ sn, evaluate_node job sn (policy_weights s job) now (sched_node_freshness_ttl s)) nodes.

Lemma eligible_candidates s job nodes now c :
  c ∈ List.filter cand_eligible (candidates_of s job nodes now) ↔
  ∃ sn, sn ∈ nodes ∧ admissible job sn now (sched_node_freshness_ttl s) ∧
        c = evaluate_node job sn (policy_weights s job) now (sched_node_freshness_ttl s).
Proof.
  rewrite list_elem_of_In, filter_In, <-list_elem_of_In. unfold candidates_of.
  rewrite list_elem_of_fmap. split.
  - intros [(sn & -> & Hsn) He]. apply evaluate_node_eligible in He. eauto.
  - intros (sn & Hsn & Ha & ->). split; [eauto|]. by apply evaluate_node_eligible.
Qed.

Lemma compare_candidates_le c1 c2 :
  cmp_le compare_candidates c1 c2 →
  (candidate_score c1 < candidate_score c2)%Z ∨
  candidate_score c1 = candidate_score c2 ∧ (cand_node_id c2 ≤ cand_node_id c1)%N.
Proof.
  unfold cmp_le, compare_candidates, then_with.
  destruct (Z.compare_spec (candidate_score c1) (candidate_score c2)); [|by left|done].
  destruct (N.compare_spec (cand_node_id c2) (cand_node_id c1)); intros ?; [|right; split; [done|lia]|done].
  right. split; [done|lia].
Qed.

(** What a call returns, in terms of its candidates. *)
Lemma schedule_result s job nodes now :
  JobSpec_validate job = Ok tt →
  schedule_contexts_at s job nodes now =
  let best := max_by compare_candidates (List.filter cand_eligible (candidates_of s job nodes now)) in
  let explanation :=
    {| expl_policy := job_placement_policy job; expl_selected_node_id := cand_node_id <$> best;
       expl_candidates := sort_by compare_explained (candidates_of s job nodes now) |} in
  match best with
  | Some c => Ok {| dec_node_id := cand_node_id c; dec_score := unwrap_or (cand_score c) 0%Z;
                    dec_explanation := explanation |}
  | None => Err (ScheduleError.NoEligibleNodes explanation)
  end.
Proof.
  intros Hv. unfold schedule_contexts_at. rewrite Hv. cbn [map_err mbind result_bind].
  fold (candidates_of s job nodes now). by destruct (max_by _ _).
Qed.

Lemma schedule_Ok_valid s job nodes now d :
  schedule_contexts_at s job nodes now = Ok d → JobSpec_validate job = Ok tt.
Proof. unfold schedule_contexts_at. rewrite bind_unit_Ok, map_err_Ok. tauto. Qed.

Lemma schedule_best_unique s job nodes now d :
  schedule_contexts_at s job nodes now = Ok d →
  ∃ sn, sn ∈ nodes ∧ node_id (sn_node sn) = dec_node_id d ∧
    admissible job sn now (sched_node_freshness_ttl s) ∧ dec_score d = node_score s job sn ∧
    ∀ other, other ∈ nodes → admissible job other now (sched_node_freshness_ttl s) →
      (node_score s job other < dec_score d)%Z ∨
      node_score s job other = dec_score d ∧ (dec_node_id d ≤ node_id (sn_node other))%N.
Proof.
  intros Hs. pose proof (schedule_Ok_valid _ _ _ _ _ Hs) as Hv. rewrite schedule_result in Hs by done.
  cbn zeta in Hs. destruct (max_by _ _) as [c|] eqn:Hmax; [|done]. injection Hs as <-.
  apply (max_by_Some compare_candidates) in Hmax as [Hin Hbest].
  apply eligible_candidates in Hin as (sn & Hsn & Ha & ->).
  exists sn. cbn. rewrite evaluate_node_id, evaluate_node_score by done.
  split_and!; try done. intros other Ho Hao.
  assert (evaluate_node job other (policy_weights s job) now (sched_node_freshness_ttl s)
          ∈ List.filter cand_eligible (candidates_of s job nodes now)) as Hin
    by (apply eligible_candidates; eauto).
  apply Hbest, compare_candidates_le in Hin. unfold candidate_score in Hin.
  rewrite !evaluate_node_id, !evaluate_node_score in Hin by done. exact Hin.
Qed.

Lemma no_best s job nodes now :
  max_by compare_candidates (List.filter cand_eligible (candidates_of s job nodes now)) = None ↔
  ¬ ∃ sn, sn ∈ nodes ∧ admissible job sn now (sched_node_freshness_ttl s).
Proof.
  rewrite max_by_None. split.
  - intros Hnil (sn & Hsn & Ha).
    assert (evaluate_node job sn (policy_weights s job) now (sched_node_freshness_ttl s)
            ∈ List.filter cand_eligible (candidates_of s job nodes now)) as Hin
      by (apply eligible_candidates; eauto).
    rewrite Hnil in Hin. by apply not_elem_of_nil in Hin.
  - intros Hno. destruct (List.filter _ _) as [|c l] eqn:E; [done|].
    assert (c ∈ List.filter cand_eligible (candidates_of s job nodes now)) as Hin by (rewrite E; left).
    apply eligible_candidates in Hin as (sn & ? & ? & _). destruct Hno. eauto.
Qed.

(** The candidates of distinct nodes have distinct identifiers. *)
Lemma candidates_inj s job nodes now c1 c2 :
  NoDup (map (λ sn, node_id (sn_node sn)) nodes) →
  c1 ∈ candidates_of s job nodes now → c2 ∈ candidates_of s job nodes now →
  cand_node_id c1 = cand_node_id c2 → c1 = c2.
Proof.
  unfold candidates_of. rewrite !list_elem_of_fmap.
  intros Hnd (s1 & -> & H1) (s2 & -> & H2). rewrite !evaluate_node_id. intros Heq.
  f_equal. apply list_elem_of_lookup in H1 as [i Hi], H2 as [j Hj].
  assert (i = j) as ->; [|congruence].
  eapply NoDup_lookup; [exact Hnd| |];
    rewrite list_lookup_fmap; [rewrite Hi|rewrite Hj]; cbn; [done|by rewrite Heq].
Qed.

Lemma compare_explained_Eq c1 c2 : compare_explained c1 c2 = Eq → cand_node_id c1 = cand_node_id c2.
Proof.
  unfold compare_explained, then_with. destruct (str_cmp _ _); [|done..]. by intros ?%N.compare_eq.
Qed.
Lemma compare_candidates_Eq c1 c2 : compare_candidates c1 c2 = Eq → cand_node_id c1 = cand_node_id c2.
Proof.
  unfold compare_candidates, then_with. destruct (Z.compare _ _); [|done..]. by intros ?%N.compare_eq.
Qed.

Lemma filter_perm {A} (p : A → bool) l1 l2 : l1 ≡ₚ l2 → List.filter p l1 ≡ₚ List.filter p l2.
Proof.
  induction 1; cbn; try done.
  - by destruct (p x); [constructor|].
  - destruct (p x), (p y); try done. apply perm_swap.
  - by etrans.
Qed.
End decision.

(** ** Score bounds *)

Definition node_in_width (node : Node) : Prop :=
  (-2147483648 ≤ node_priority node ≤ 2147483647)%Z ∧
  in_u32 (res_available_cpu_cores (node_resources node)) ∧
  in_u32 (load_queue_depth (node_load node)) ∧ in_u32 (load_running_jobs (node_load node)).

(** The score as a mathematical sum, with no saturation. *)
Definition exact_score (job : JobSpec) (node : Node) (w : SchedulerWeights) : Z :=
  let res := node_resources node in
  let load := node_load node in
  (node_priority node * sw_priority w
   + Z.of_N (res_available_cpu_cores res) * sw_available_cpu_core w
   + Z.of_N (N.min (res_available_memory_mib res / 1024) 1024) * sw_available_memory_gib w
   + Z.of_N (N.min (res_available_disk_mib res / 10240) 1024) * sw_available_disk_10gib w
   + (100 - Z.of_N (N.min (load_cpu_percent load) 100)) * sw_cpu_headroom_percent w
   - Z.of_N (load_queue_depth load) * sw_queue_depth_penalty w
   - Z.of_N (load_running_jobs load) * sw_running_job_penalty w
   + match scored_vram job node with
     | Some vram => Z.of_N (N.min (vram / 1024) 1024) * sw_gpu_vram_gib w
     | None => 0
     end
   + (if set_contains (SourceSpec.cache_key (job_source job)) (node_cached_sources node)
      then sw_source_cache_bonus w else 0)
   + (if job_preferred_node_id job == Some (node_id node) then sw_preferred_node_bonus w else 0)
   - (if node_status node == NodeStatus.Degraded then sw_degraded_penalty w else 0))%Z.

Definition built_in_weights (w : SchedulerWeights) : Prop :=
  w = SchedulerWeights_balanced ∨ w = SchedulerWeights_performance.

Lemma capped_units_exact value divisor cap :
  (cap ≤ 1024)%N → capped_units value divisor cap = Z.of_N (N.min (value / divisor) cap).
Proof.
  intros Hc. unfold capped_units, i64_of_u64_or_max. generalize (value / divisor)%N. intros q.
  rewrite bool_decide_eq_true_2; [done|]. unfold i64_max. lia.
Qed.

Definition sum_values (l : list ScoreComponent) : Z := foldr (λ c t, (sc_value c + t)%Z) 0%Z l.

(** A fold that never leaves the range never saturates. *)
Lemma total_score_exact bound l :
  Forall (λ c, (Z.abs (sc_value c) ≤ bound)%Z) l →
  (Z.of_nat (length l) * bound ≤ i64_max)%Z → total_score l = sum_values l.
Proof.
  unfold total_score. intros Hl Hb.
  enough (∀ acc, (Z.abs acc + Z.of_nat (length l) * bound ≤ i64_max)%Z →
            foldl (λ total c, i64_saturating_add total (sc_value c)) acc l = (acc + sum_values l)%Z)
    as Hgen by (rewrite Hgen; lia).
  clear Hb. induction Hl as [|c l Hc Hl IH]; intros acc Hacc; cbn [foldl sum_values foldr].
  { lia. }
  cbn [length] in Hacc. fold (sum_values l). unfold i64_saturating_add.
  assert (0 ≤ Z.of_nat (length l) * bound)%Z by (apply Z.mul_nonneg_nonneg; lia).
  rewrite i64_clamp_id by (unfold in_i64, i64_min, i64_max in *; lia).
  rewrite IH; [lia|]. lia.
Qed.

Lemma saturating_mul_exact a b :
  in_i64 (a * b) → i64_saturating_mul a b = (a * b)%Z.
Proof. apply i64_clamp_id. Qed.

(** What each component is worth without saturation. *)
Definition exact_base (node : Node) (w : SchedulerWeights) : list Z :=
  let res := node_resources node in
  let load := node_load node in
  [node_priority node * sw_priority w;
   Z.of_N (res_available_cpu_cores res) * sw_available_cpu_core w;
   Z.of_N (N.min (res_available_memory_mib res / 1024) 1024) * sw_available_memory_gib w;
   Z.of_N (N.min (res_available_disk_mib res / 10240) 1024) * sw_available_disk_10gib w;
   (100 - Z.of_N (N.min (load_cpu_percent load) 100)) * sw_cpu_headroom_percent w;
   - (Z.of_N (load_queue_depth load) * sw_queue_depth_penalty w);
   - (Z.of_N (load_running_jobs load) * sw_running_job_penalty w)]%Z.

Lemma i64_neg_exact z : (i64_min < z)%Z → i64_neg z = (- z)%Z.
Proof. unfold i64_neg. case_bool_decide; lia. Qed.

(** The built-in weights are small and not negative. *)
Definition small_weights (w : SchedulerWeights) : Prop :=
  (Forall (λ x, 0 ≤ x ≤ 400)
    [sw_priority w; sw_available_cpu_core w; sw_available_memory_gib w; sw_available_disk_10gib w;
     sw_cpu_headroom_percent w; sw_gpu_vram_gib w; sw_queue_depth_penalty w;
     sw_running_job_penalty w; sw_source_cache_bonus w; sw_preferred_node_bonus w;
     sw_degraded_penalty w])%Z.
Lemma built_in_small w : built_in_weights w → small_weights w.
Proof. intros [->| ->]; repeat constructor; cbn; lia. Qed.

Definition score_bound : Z := 1717986918000.

Lemma small_product a b :
  (Z.abs a ≤ 4294967295)%Z → (0 ≤ b ≤ 400)%Z →
  (Z.abs (a * b) ≤ score_bound)%Z ∧ i64_saturating_mul a b = (a * b)%Z.
Proof.
  intros Ha Hb. assert (Z.abs (a * b) ≤ score_bound)%Z as H.
  { unfold score_bound. rewrite Z.abs_mul. rewrite (Z.abs_eq b) by lia. nia. }
  split; [done|]. apply i64_clamp_id. unfold in_i64, i64_min, i64_max, score_bound in *. lia.
Qed.

Lemma bounded_min q : (Z.abs (Z.of_N (N.min q 1024)) ≤ 4294967295)%Z.
Proof. lia. Qed.

Lemma base_components_exact node w :
  node_in_width node → small_weights w →
  map sc_value (base_components node w) = exact_base node w ∧
  Forall (λ z, (Z.abs z ≤ score_bound)%Z) (exact_base node w).
Proof.
  intros (Hp & Hc & Hq & Hr) Hw. unfold in_u32, u32_max in *. unfold small_weights in Hw.
  rewrite !Forall_cons in Hw. destruct Hw as (W1&W2&W3&W4&W5&W6&W7&W8&W9&W10&W11&_).
  unfold base_components, exact_base, component. cbn [map sc_value].
  rewrite !capped_units_exact by lia. unfold saturating_sub.
  destruct (small_product (node_priority node) (sw_priority w)) as [B1 ->]; [lia..|].
  destruct (small_product (Z.of_N (res_available_cpu_cores (node_resources node)))
              (sw_available_cpu_core w)) as [B2 ->]; [lia..|].
  destruct (small_product (Z.of_N (N.min (res_available_memory_mib (node_resources node) / 1024) 1024))
              (sw_available_memory_gib w) (bounded_min _) W3) as [B3 ->].
  destruct (small_product (Z.of_N (N.min (res_available_disk_mib (node_resources node) / 10240) 1024))
              (sw_available_disk_10gib w) (bounded_min _) W4) as [B4 ->].
  assert (Z.of_N (100 - N.min (load_cpu_percent (node_load node)) 100) =
          100 - Z.of_N (N.min (load_cpu_percent (node_load node)) 100))%Z as -> by lia.
  destruct (small_product (100 - Z.of_N (N.min (load_cpu_percent (node_load node)) 100))
              (sw_cpu_headroom_percent w)) as [B5 ->]; [lia..|].
  destruct (small_product (Z.of_N (load_queue_depth (node_load node))) (sw_queue_depth_penalty w))
    as [B6 ->]; [lia..|].
  destruct (small_product (Z.of_N (load_running_jobs (node_load node))) (sw_running_job_penalty w))
    as [B7 ->]; [lia..|].
  rewrite !i64_neg_exact by (unfold i64_min, score_bound in *; lia).
  split; [done|]. repeat (constructor; [rewrite ?Z.abs_opp; done|]). constructor.
Qed.

Definition exact_bonus (job : JobSpec) (node : Node) (w : SchedulerWeights) : list Z :=
  match scored_vram job node with
  | Some vram => [(Z.of_N (N.min (vram / 1024) 1024) * sw_gpu_vram_gib w)%Z]
  | None => []
  end ++
  (if set_contains (SourceSpec.cache_key (job_source job)) (node_cached_sources node)
   then [sw_source_cache_bonus w] else []) ++
  (if job_preferred_node_id job == Some (node_id node) then [sw_preferred_node_bonus w] else []) ++
  (if node_status node == NodeStatus.Degraded then [(- sw_degraded_penalty w)%Z] else []).

Lemma bonus_components_exact job node w :
  small_weights w →
  map sc_value (bonus_components job node w) = exact_bonus job node w ∧
  Forall (λ z, (Z.abs z ≤ score_bound)%Z) (exact_bonus job node w) ∧
  (length (exact_bonus job node w) ≤ 4)%nat.
Proof.
  intros Hw. unfold small_weights in Hw.
  rewrite !Forall_cons in Hw. destruct Hw as (W1&W2&W3&W4&W5&W6&W7&W8&W9&W10&W11&_).
  unfold bonus_components, exact_bonus, component.
  assert (i64_neg (sw_degraded_penalty w) = (- sw_degraded_penalty w)%Z) as ->
    by (apply i64_neg_exact; unfold i64_min; lia).
  rewrite !map_app, !Forall_app, !length_app.
  assert (∀ z, (0 ≤ z ≤ 400)%Z → (Z.abs z ≤ score_bound)%Z ∧ (Z.abs (- z) ≤ score_bound)%Z) as Hsmall
    by (unfold score_bound; lia).
  destruct (scored_vram job node) as [vram|].
  - rewrite capped_units_exact by lia.
    destruct (small_product (Z.of_N (N.min (vram / 1024) 1024)) (sw_gpu_vram_gib w) (bounded_min _) W6)
      as [B ->].
    repeat case_bool_decide; destruct (set_contains _ _); cbn [map length app];
      (split; [done|]); (split; [|lia]);
      repeat split; repeat constructor; try done; by apply Hsmall.
  - repeat case_bool_decide; destruct (set_contains _ _); cbn [map length app];
      (split; [done|]); (split; [|lia]);
      repeat split; repeat constructor; by apply Hsmall.
Qed.

Lemma sum_values_map l : sum_values l = foldr Z.add 0%Z (map sc_value l).
Proof. induction l as [|c l IH]; cbn; [done|]. fold (sum_values l). by rewrite IH. Qed.

Lemma exact_score_sum job node w :
  foldr Z.add 0%Z (exact_base node w ++ exact_bonus job node w) = exact_score job node w.
Proof.
  unfold exact_base, exact_bonus, exact_score.
  destruct (scored_vram job node); repeat case_bool_decide; destruct (set_contains _ _); cbn [app foldr]; lia.
Qed.

(** ** Properties *)

Section properties.
Context `{UuidCrate, ChronoCrate}.

(** C36. The placement decision is right: when [schedule_contexts_at] returns a
    decision, its node is one of the given nodes, may take the job
    ([admissible]), carries the reported score, and no other admissible node has
    a higher score, nor the same score with a lower identifier. *)
Theorem schedule_selects_best (s : Scheduler) (job : JobSpec) (nodes : list SchedulingNode)
    (now : DateTime) (d : PlacementDecision) (Hd : schedule_contexts_at s job nodes now = Ok d) :
  ∃ sn, sn ∈ nodes ∧ node_id (sn_node sn) = dec_node_id d ∧
    admissible job sn now (sched_node_freshness_ttl s) ∧ dec_score d = node_score s job sn ∧
    ∀ other, other ∈ nodes → admissible job other now (sched_node_freshness_ttl s) →
      (node_score s job other < dec_score d)%Z ∨
      node_score s job other = dec_score d ∧ (dec_node_id d ≤ node_id (sn_node other))%N.
Proof. by apply schedule_best_unique. Qed.

(** C37. Placement is complete and explained: for a valid job the call succeeds
    exactly when some node is admissible; otherwise it fails with
    [NoEligibleNodes], and either way the explanation has one candidate per
    node, each with its rejections, an empty list exactly when it is admissible. *)
Theorem schedule_complete (s : Scheduler) (job : JobSpec) (nodes : list SchedulingNode)
    (now : DateTime) (Hjob : JobSpec_validate job = Ok tt) :
  ((∃ d, schedule_contexts_at s job nodes now = Ok d) ↔
   ∃ sn, sn ∈ nodes ∧ admissible job sn now (sched_node_freshness_ttl s)) ∧
  ∃ explanation,
    match schedule_contexts_at s job nodes now with
    | Ok d => dec_explanation d = explanation ∧ expl_selected_node_id explanation = Some (dec_node_id d)
    | Err e => e = ScheduleError.NoEligibleNodes explanation ∧ expl_selected_node_id explanation = None
    end ∧
    expl_candidates explanation ≡ₚ candidates_of s job nodes now ∧
    Forall2 (λ sn c, cand_node_id c = node_id (sn_node sn) ∧
        cand_rejection_reasons c = hard_rejections job sn now (sched_node_freshness_ttl s) ∧
        (cand_rejection_reasons c = [] ↔ admissible job sn now (sched_node_freshness_ttl s)))
      nodes (candidates_of s job nodes now).
Proof.
  rewrite schedule_result by done. cbn zeta.
  set (best := max_by compare_candidates _). split.
  - pose proof (no_best s job nodes now) as Hno. fold best in Hno.
    destruct best as [c|] eqn:E.
    + split; [|by eauto]. intros _.
      apply (max_by_Some compare_candidates) in E as [Hin _].
      apply eligible_candidates in Hin as (sn & ? & ? & _). eauto.
    + split; [by intros [??]|]. intros Hex. by destruct (proj1 Hno eq_refl).
  - exists {| expl_policy := job_placement_policy job; expl_selected_node_id := cand_node_id <$> best;
              expl_candidates := sort_by compare_explained (candidates_of s job nodes now) |}.
    split; [by destruct best|]. split; [apply (sort_by_perm compare_explained)|].
    unfold candidates_of. apply Forall2_fmap_r, Forall_Forall2_diag, Forall_forall. intros sn _.
    cbn. rewrite evaluate_node_id, <-hard_rejections_nil.
    unfold evaluate_node. by destruct (hard_rejections _ _ _ _).
Qed.

(** The result depends on the set of nodes only: permuting nodes with
    distinct identifiers changes neither the decision, nor its explanation, nor
    the error. *)
Theorem schedule_order_independent (s : Scheduler) (job : JobSpec) (nodes1 nodes2 : list SchedulingNode)
    (now : DateTime) (Hperm : nodes1 ≡ₚ nodes2)
    (Hids : NoDup (map (λ sn, node_id (sn_node sn)) nodes1)) :
  schedule_contexts_at s job nodes1 now = schedule_contexts_at s job nodes2 now.
Proof.
  destruct (JobSpec_validate job) as [[]|e] eqn:Hv.
  2: { unfold schedule_contexts_at. by rewrite Hv. }
  assert (candidates_of s job nodes1 now ≡ₚ candidates_of s job nodes2 now) as Hc
    by (unfold candidates_of; by rewrite Hperm).
  rewrite !schedule_result by done.
  rewrite (max_by_perm compare_candidates _ _ (filter_perm cand_eligible _ _ Hc)),
    (sort_by_perm_eq compare_explained _ _ Hc); [done|..].
  - intros x y Hx Hy Hxy. apply (candidates_inj s job nodes1 now); auto using compare_explained_Eq.
  - intros x y Hx Hy Hxy. rewrite list_elem_of_In, filter_In, <-list_elem_of_In in Hx, Hy.
    apply (candidates_inj s job nodes1 now); naive_solver auto using compare_candidates_Eq.
Qed.

(** The rejection pass is exact: [hard_rejections] is empty if and only if
    the node is admissible, so every reported reason is a violated condition and
    no violated condition goes unreported (liveness, policy, power, thermal and
    load limits, slots, manual choice, platform, capabilities, capacity, GPU). *)
Theorem hard_rejections_exact (job : JobSpec) (sn : SchedulingNode) (now : DateTime) (ttl : N) :
  hard_rejections job sn now ttl = [] ↔ admissible job sn now ttl.
Proof. apply hard_rejections_nil. Qed.
End properties.

(** With the built-in weights and inputs of their machine width no score
    computation saturates or wraps: the score is the exact weighted sum, and its
    magnitude is below 2^45. *)
Theorem built_in_scores_exact (job : JobSpec) (node : Node) (w : SchedulerWeights)
    (Hw : built_in_weights w) (Hn : node_in_width node) :
  total_score (score_components job node w) = exact_score job node w ∧
  (Z.abs (total_score (score_components job node w)) < 2 ^ 45)%Z.
Proof.
  apply built_in_small in Hw.
  destruct (base_components_exact node w Hn Hw) as [Hb Bb].
  destruct (bonus_components_exact job node w Hw) as (Hx & Bx & Lx).
  assert (map sc_value (score_components job node w) = exact_base node w ++ exact_bonus job node w) as Hv
    by (unfold score_components; by rewrite map_app, Hb, Hx).
  assert (Forall (λ z, (Z.abs z ≤ score_bound)%Z) (exact_base node w ++ exact_bonus job node w)) as B
    by (by apply Forall_app).
  assert (length (exact_base node w ++ exact_bonus job node w) ≤ 11) as L
    by (rewrite length_app; cbn [length exact_base]; lia).
  assert (length (score_components job node w) = length (exact_base node w ++ exact_bonus job node w)) as Hl
    by (rewrite <-Hv; by rewrite length_map).
  rewrite (total_score_exact score_bound).
  - rewrite sum_values_map, Hv. split; [apply exact_score_sum|].
    enough (∀ l, Forall (λ z, (Z.abs z ≤ score_bound)%Z) l →
              (Z.abs (foldr Z.add 0 l) ≤ Z.of_nat (length l) * score_bound)%Z) as Hsum
      by (specialize (Hsum _ B); unfold score_bound in *; nia).
    clear. induction 1 as [|z l Hz _ IH]; cbn [foldr length]; [lia|]. unfold score_bound in *. lia.
  - rewrite <-Hv in B. exact (proj1 (Forall_fmap sc_value _ (score_components job node w)) B).
  - rewrite Hl. unfold i64_max, score_bound. lia.
Qed.

(** ** Witnesses *)
#[local] Existing Instance Concrete.uuid_crate.
#[local] Existing Instance Concrete.chrono_crate.

Definition sample_node (id : Uuid) (cores : N) : Node :=
  {| node_id := id; node_name := lit "worker"; node_enabled := true; node_transport := NodeTransport.Local;
     node_os := OperatingSystem.Linux; node_arch := Architecture.X86_64;
     node_status := NodeStatus.Online; node_capabilities := [lit "shell"];
     node_resources := {| res_logical_cpu_cores := 16; res_available_cpu_cores := cores;
       res_memory_mib := 32768; res_available_memory_mib := 16384; res_disk_mib := 512000;
       res_available_disk_mib := 102400; res_gpus := [] |};
     node_load := {| load_cpu_percent := 10; load_queue_depth := 0; load_running_jobs := 1 |};
     node_priority := 5; node_labels := []; node_cached_sources := [];
     node_last_seen_at := Some 1000000000%Z |}.
Definition sample_context (id : Uuid) (cores : N) : SchedulingNode :=
  SchedulingNode_legacy (sample_node id cores).
Definition sample_now : DateTime := 2000000000%Z.

Lemma schedule_selects_best_witness :
  ∃ d, schedule_contexts_at Scheduler_default sample_job
         [sample_context 4%N 8%N; sample_context 3%N 12%N; sample_context 9%N 12%N] sample_now = Ok d ∧
       dec_node_id d = 3%N ∧
       ∃ sn, node_id (sn_node sn) = dec_node_id d ∧
             admissible sample_job sn sample_now DEFAULT_NODE_FRESHNESS_TTL.
Proof.
  eexists. split; [vm_compute; reflexivity|]. split; [reflexivity|].
  edestruct (schedule_selects_best Scheduler_default sample_job
    [sample_context 4%N 8%N; sample_context 3%N 12%N; sample_context 9%N 12%N] sample_now)
    as (sn & _ & Hid & Ha & _); [vm_compute; reflexivity|].
  exists sn. split; [exact Hid|exact Ha].
Defined.

Lemma schedule_complete_witness :
  (∃ d, schedule_contexts_at Scheduler_default sample_job [sample_context 4%N 0%N] sample_now = Ok d) ↔
  ∃ sn, sn ∈ [sample_context 4%N 0%N] ∧
        admissible sample_job sn sample_now DEFAULT_NODE_FRESHNESS_TTL.
Proof.
  apply (schedule_complete Scheduler_default sample_job [sample_context 4%N 0%N] sample_now).
  by vm_compute.
Defined.

Lemma schedule_order_independent_witness :
  schedule_contexts_at Scheduler_default sample_job [sample_context 4%N 8%N; sample_context 3%N 12%N]
    sample_now =
  schedule_contexts_at Scheduler_default sample_job [sample_context 3%N 12%N; sample_context 4%N 8%N]
    sample_now.
Proof.
  apply schedule_order_independent; [apply perm_swap|].
  apply (bool_decide_unpack _). by vm_compute.
Defined.

Lemma built_in_scores_exact_witness :
  total_score (score_components sample_job (sample_node 4%N 8%N) SchedulerWeights_balanced) =
  exact_score sample_job (sample_node 4%N 8%N) SchedulerWeights_balanced.
Proof.
  apply built_in_scores_exact; [by left|].
  split; [split; (by vm_compute)|]. repeat split; by vm_compute.
Defined.
