(* ===== verification/NodeState.v ===== *)
(** Node state: [crates/cyc-protocol/src/node_state.rs].

    Controller configuration, worker inventory and worker telemetry are separate
    documents; [NodeMergeView::merge] validates them together and derives the
    availability, and [to_node] is the compatibility document the scheduler
    reads.  [to_node] joins GPU inventory and telemetry with an [expect]: a panic
    is the outcome [None] of the model. *)
From Stdlib Require Import ZArith NArith Lia String.
From stdpp Require Import base option list numbers sets.
From S2P Require Import Prelude Text Crates Protocol.
Open Scope rust_scope.

Definition MAX_TEMPERATURE_C : Z := 200.
Definition MIN_TEMPERATURE_C : Z := -100.
Definition unknown : rstr := lit "unknown".

Module NodeStateError.
Inductive t :=
| NilNodeId
| InvalidConfig (field : rstr)
| InvalidInventory (reason : rstr)
| InvalidTelemetry (reason : rstr).
#[export] Instance eq_dec : EqDecision t.
Proof. solve_decision. Defined.
End NodeStateError.
Export (hints) NodeStateError.
Import NodeStateError.

(** [v.trim().is_empty() || v.chars().count() > n || v.chars().any(char::is_control)] *)
Definition bad_text (n : N) (v : rstr) : bool :=
  blank v || (n <? char_count v)%N || has_control v.
(** [!(MIN_TEMPERATURE_C..=MAX_TEMPERATURE_C).contains(&t)] *)
Definition bad_temperature (t : Z) : bool :=
  negb ((MIN_TEMPERATURE_C <=? t)%Z && (t <=? MAX_TEMPERATURE_C)%Z).

(** ** Controller configuration *)
Module NodeDesiredState.
Inductive t := Active | Draining.
#[export] Instance eq_dec : EqDecision t.
Proof. solve_decision. Defined.
Definition default : t := Active.
End NodeDesiredState.
Export (hints) NodeDesiredState.

Record CapacityPolicy := {
  cp_max_concurrent_jobs : N;
  cp_allocatable_cpu_cores : option N;
  cp_allocatable_cpu_percent : option N;
  cp_memory_limit_mib : option N;
  cp_allowed_job_kinds : list JobKind.t;
  cp_allow_on_battery : bool;
  cp_max_cpu_percent : option N;
  cp_max_cpu_ewma_percent : option N;
  cp_max_memory_percent : option N;
  cp_max_temperature_c : option Z
}.
Definition CapacityPolicy_default : CapacityPolicy :=
  {| cp_max_concurrent_jobs := 1; cp_allocatable_cpu_cores := None;
     cp_allocatable_cpu_percent := None; cp_memory_limit_mib := None; cp_allowed_job_kinds := [];
     cp_allow_on_battery := false; cp_max_cpu_percent := None; cp_max_cpu_ewma_percent := None;
     cp_max_memory_percent := None; cp_max_temperature_c := None |}.

Definition CapacityPolicy_validate (c : CapacityPolicy) : result NodeStateError.t unit :=
  reject_if (cp_max_concurrent_jobs c == 0%N) (InvalidConfig (lit "capacity.maxConcurrentJobs"));;
  reject_if (cp_allocatable_cpu_cores c == Some 0%N)
    (InvalidConfig (lit "capacity.allocatableCpuCores"));;
  reject_if (cp_memory_limit_mib c == Some 0%N) (InvalidConfig (lit "capacity.memoryLimitMiB"));;
  for_each (λ '(field, value),
    reject_if (is_some_and value (λ v, (v =? 0)%N || (100 <? v)%N)) (InvalidConfig field))
    [(lit "capacity.allocatableCpuPercent", cp_allocatable_cpu_percent c);
     (lit "capacity.maxCpuPercent", cp_max_cpu_percent c);
     (lit "capacity.maxCpuEwmaPercent", cp_max_cpu_ewma_percent c);
     (lit "capacity.maxMemoryPercent", cp_max_memory_percent c)];;
  reject_if (is_some_and (cp_max_temperature_c c) bad_temperature)
    (InvalidConfig (lit "capacity.maxTemperatureC")).

Record NodeConfig := {
  cfg_name : rstr;
  cfg_enabled : bool;
  cfg_priority : Z;
  cfg_labels : list (rstr * rstr);
  cfg_desired_state : NodeDesiredState.t;
  cfg_capacity : CapacityPolicy
}.
Definition NodeConfig_from_node (node : Node) : NodeConfig :=
  {| cfg_name := node_name node; cfg_enabled := node_enabled node; cfg_priority := node_priority node;
     cfg_labels := node_labels node; cfg_desired_state := NodeDesiredState.default;
     cfg_capacity := CapacityPolicy_default |}.

Definition bad_label (label : rstr * rstr) : bool :=
  let '(key, value) := label in
  blank key || (128 <? char_count key)%N || (1024 <? char_count value)%N
  || has_control key || has_control value.

Definition NodeConfig_validate (c : NodeConfig) : result NodeStateError.t unit :=
  reject_if (bad_text 128 (cfg_name c)) (InvalidConfig (lit "name"));;
  reject_if (existsb bad_label (cfg_labels c)) (InvalidConfig (lit "labels"));;
  CapacityPolicy_validate (cfg_capacity c).

(** ** Worker inventory *)
Record GpuInventory := {
  gi_vendor : GpuVendor.t;
  gi_model : rstr;
  gi_total_vram_mib : N;
  gi_stable_id : option rstr;
  gi_driver_version : option rstr
}.

Module ContainmentBackend.
Inductive t := Legacy | LinuxSubreaperProcessGroup | MacosProcessGroup | WindowsJobObject | Unsupported.
#[export] Instance eq_dec : EqDecision t.
Proof. solve_decision. Defined.
End ContainmentBackend.
Export (hints) ContainmentBackend.

Module HostileIsolationBackend.
Inductive t :=
| Disabled | LinuxCgroupV2DedicatedIdentity | WindowsJobObjectExternalGuard
| MacosExternalReconciliation | Unsupported.
#[export] Instance eq_dec : EqDecision t.
Proof. solve_decision. Defined.
End HostileIsolationBackend.
Export (hints) HostileIsolationBackend.

Record HostileIsolationInventory := {
  hi_opt_in : bool;
  hi_ready : bool;
  hi_backend : HostileIsolationBackend.t;
  hi_dedicated_identity : bool;
  hi_external_reconciliation : bool;
  hi_protected_guard_state : bool;
  hi_worker_state_isolated : bool;
  hi_reason_code : option rstr
}.
Definition HostileIsolationInventory_default : HostileIsolationInventory :=
  {| hi_opt_in := false; hi_ready := false; hi_backend := HostileIsolationBackend.Disabled;
     hi_dedicated_identity := false; hi_external_reconciliation := false;
     hi_protected_guard_state := false; hi_worker_state_isolated := false; hi_reason_code := None |}.

Definition HostileIsolationInventory_validate (h : HostileIsolationInventory) :
    result NodeStateError.t unit :=
  reject_if (is_some_and (hi_reason_code h) (bad_text 128))
    (InvalidInventory (lit "hostile isolation reasonCode is invalid"));;
  if negb (hi_opt_in h) then
    reject_if (hi_ready h || (hi_backend h != HostileIsolationBackend.Disabled)
               || hi_dedicated_identity h || hi_external_reconciliation h
               || hi_protected_guard_state h || hi_worker_state_isolated h
               || is_some (hi_reason_code h))
      (InvalidInventory (lit "disabled hostile isolation must use conservative defaults"))
  else
    reject_if (hi_backend h == HostileIsolationBackend.Disabled)
      (InvalidInventory (lit "opt-in hostile isolation must identify a backend"));;
    reject_if (hi_ready h
               && (negb (hi_dedicated_identity h) || negb (hi_external_reconciliation h)
                   || negb (hi_protected_guard_state h) || negb (hi_worker_state_isolated h)
                   || is_some (hi_reason_code h)
                   || match hi_backend h with
                      | HostileIsolationBackend.MacosExternalReconciliation
                      | HostileIsolationBackend.Unsupported => true
                      | _ => false
                      end))
      (InvalidInventory (lit "ready hostile isolation is missing a required protection"));;
    reject_if (negb (hi_ready h) && is_none (hi_reason_code h))
      (InvalidInventory (lit "unready hostile isolation must provide a reasonCode")).

Record ContainmentInventory := {
  ci_backend : ContainmentBackend.t;
  ci_version : rstr;
  ci_max_safe_slots : N;
  ci_hostile_isolation : HostileIsolationInventory
}.
Definition ContainmentInventory_default : ContainmentInventory :=
  {| ci_backend := ContainmentBackend.Legacy; ci_version := unknown; ci_max_safe_slots := 1;
     ci_hostile_isolation := HostileIsolationInventory_default |}.

Record NodeInventory := {
  inv_transport : NodeTransport.t;
  inv_os : OperatingSystem.t;
  inv_arch : Architecture.t;
  inv_capabilities : list Capability;
  inv_logical_cpu_cores : N;
  inv_memory_mib : N;
  inv_disk_mib : N;
  inv_gpus : list GpuInventory;
  inv_cpu_model : rstr;
  inv_tool_versions : list (rstr * rstr);
  inv_worker_version : rstr;
  inv_protocol_version : N;
  inv_containment : ContainmentInventory
}.
Definition GpuInventory_from_gpu (gpu : GpuDevice) : GpuInventory :=
  {| gi_vendor := gpu_vendor gpu; gi_model := gpu_model gpu;
     gi_total_vram_mib := gpu_total_vram_mib gpu; gi_stable_id := None; gi_driver_version := None |}.
Definition NodeInventory_from_node (node : Node) : NodeInventory :=
  {| inv_transport := node_transport node; inv_os := node_os node; inv_arch := node_arch node;
     inv_capabilities := node_capabilities node;
     inv_logical_cpu_cores := res_logical_cpu_cores (node_resources node);
     inv_memory_mib := res_memory_mib (node_resources node);
     inv_disk_mib := res_disk_mib (node_resources node);
     inv_gpus := map GpuInventory_from_gpu (res_gpus (node_resources node));
     inv_cpu_model := unknown; inv_tool_versions := []; inv_worker_version := unknown;
     inv_protocol_version := PROTOCOL_VERSION; inv_containment := ContainmentInventory_default |}.

(** The [any] closure inserts every stable identifier it meets in a set and
    stops at the first offending device. *)
Fixpoint inventory_gpus_bad (gpu_ids : list rstr) (gpus : list GpuInventory) : bool :=
  match gpus with
  | [] => false
  | gpu :: rest =>
      if bad_text 512 (gi_model gpu) || (gi_total_vram_mib gpu == 0%N) then true
      else if is_some_and (gi_stable_id gpu) (λ id, bad_text 256 id || bool_decide (id ∈ gpu_ids))
      then true
      else if is_some_and (gi_driver_version gpu) (bad_text 128) then true
      else inventory_gpus_bad
             (match gi_stable_id gpu with Some id => id :: gpu_ids | None => gpu_ids end) rest
  end.

Definition bad_tool_version (entry : rstr * rstr) : bool :=
  let '(name, version) := entry in
  blank name || (128 <? char_count name)%N || blank version || (512 <? char_count version)%N
  || has_control name || has_control version.

Definition NodeInventory_validate (i : NodeInventory) : result NodeStateError.t unit :=
  reject_if (existsb (λ c, negb (Capability_is_valid c)) (inv_capabilities i))
    (InvalidInventory (lit "capability names must not be empty"));;
  reject_if (inventory_gpus_bad [] (inv_gpus i)) (InvalidInventory (lit "invalid GPU inventory"));;
  reject_if (bad_text 512 (inv_cpu_model i)) (InvalidInventory (lit "invalid cpuModel"));;
  reject_if (bad_text 128 (inv_worker_version i)) (InvalidInventory (lit "invalid workerVersion"));;
  reject_if (inv_protocol_version i != PROTOCOL_VERSION)
    (InvalidInventory (lit "unsupported protocolVersion"));;
  reject_if (existsb bad_tool_version (inv_tool_versions i))
    (InvalidInventory (lit "invalid toolVersions entry"));;
  reject_if (bad_text 128 (ci_version (inv_containment i))
             || (ci_max_safe_slots (inv_containment i) != 1%N))
    (InvalidInventory (lit "containment must identify the current one-slot backend"));;
  HostileIsolationInventory_validate (ci_hostile_isolation (inv_containment i)).

(** ** Worker telemetry *)
Record GpuTelemetry := {
  gt_available_vram_mib : N;
  gt_allocatable : bool;
  gt_stable_id : option rstr;
  gt_utilization_percent : option N;
  gt_temperature_c : option Z
}.

Module PowerSource.
Inductive t := Ac | Battery | Unknown.
#[export] Instance eq_dec : EqDecision t.
Proof. solve_decision. Defined.
End PowerSource.
Export (hints) PowerSource.

Record BatteryTelemetry := { bat_charge_percent : option N; bat_charging : option bool }.

Record NodeTelemetry := {
  tel_status : NodeStatus.t;
  tel_available_cpu_cores : N;
  tel_available_memory_mib : N;
  tel_available_disk_mib : N;
  tel_gpus : list GpuTelemetry;
  tel_load : NodeLoad;
  tel_cached_sources : list rstr;
  tel_observed_at : DateTime;
  tel_boot_generation : N;
  tel_boot_id : Uuid;
  tel_sequence : N;
  tel_cpu_ewma_percent : N;
  tel_active_run_ids : list Uuid;
  tel_power_source : PowerSource.t;
  tel_battery : option BatteryTelemetry;
  tel_temperature_c : option Z
}.
Definition GpuTelemetry_from_gpu (gpu : GpuDevice) : GpuTelemetry :=
  {| gt_available_vram_mib := gpu_available_vram_mib gpu; gt_allocatable := gpu_allocatable gpu;
     gt_stable_id := None; gt_utilization_percent := None; gt_temperature_c := None |}.
Definition NodeTelemetry_from_node (node : Node) (fallback_observed_at : DateTime) : NodeTelemetry :=
  {| tel_status := node_status node;
     tel_available_cpu_cores := res_available_cpu_cores (node_resources node);
     tel_available_memory_mib := res_available_memory_mib (node_resources node);
     tel_available_disk_mib := res_available_disk_mib (node_resources node);
     tel_gpus := map GpuTelemetry_from_gpu (res_gpus (node_resources node));
     tel_load := node_load node; tel_cached_sources := node_cached_sources node;
     tel_observed_at := unwrap_or (node_last_seen_at node) fallback_observed_at;
     tel_boot_generation := 0; tel_boot_id := 0%N; tel_sequence := 0;
     tel_cpu_ewma_percent := load_cpu_percent (node_load node); tel_active_run_ids := [];
     tel_power_source := PowerSource.Unknown; tel_battery := None; tel_temperature_c := None |}.

(** The device loop of [validate_shape], with the set of identifiers met. *)
Fixpoint validate_gpu_shapes (stable_ids : list rstr) (gpus : list GpuTelemetry) :
    result NodeStateError.t unit :=
  match gpus with
  | [] => Ok tt
  | gpu :: rest =>
      reject_if (is_some_and (gt_utilization_percent gpu) (λ p, (100 <? p)%N))
        (InvalidTelemetry (lit "GPU utilizationPercent must be in 0..=100"));;
      reject_if (is_some_and (gt_temperature_c gpu) bad_temperature)
        (InvalidTelemetry (lit "GPU temperatureC is outside the supported range"));;
      match gt_stable_id gpu with
      | None => validate_gpu_shapes stable_ids rest
      | Some stable_id =>
          reject_if (bad_text 256 stable_id || bool_decide (stable_id ∈ stable_ids))
            (InvalidTelemetry (lit "GPU stableId must be non-empty and unique"));;
          validate_gpu_shapes (stable_id :: stable_ids) rest
      end
  end.

Definition NodeTelemetry_validate_shape (t : NodeTelemetry) : result NodeStateError.t unit :=
  reject_if ((100 <? load_cpu_percent (tel_load t))%N || (100 <? tel_cpu_ewma_percent t)%N)
    (InvalidTelemetry (lit "CPU percentages must be in 0..=100"));;
  reject_if (is_some_and (tel_battery t ≫= bat_charge_percent) (λ p, (100 <? p)%N))
    (InvalidTelemetry (lit "battery chargePercent must be in 0..=100"));;
  reject_if (is_some_and (tel_temperature_c t) bad_temperature)
    (InvalidTelemetry (lit "temperatureC is outside the supported range"));;
  reject_if (any_bad_or_repeated uuid_is_nil [] (tel_active_run_ids t))
    (InvalidTelemetry (lit "activeRunIds must be non-nil and unique"));;
  validate_gpu_shapes [] (tel_gpus t).

(** By stable identifier when the inventory has one, else by index. *)
Definition gpu_for_inventory (t : NodeTelemetry) (index : nat) (inventory : GpuInventory) :
    option GpuTelemetry :=
  match gi_stable_id inventory with
  | None => tel_gpus t !! index
  | Some stable_id =>
      List.find (λ telemetry, gt_stable_id telemetry == Some stable_id) (tel_gpus t)
  end.

(** [inventory.gpus.iter().enumerate().any(...)] from an index *)
Fixpoint gpu_mismatch (t : NodeTelemetry) (index : nat) (gpus : list GpuInventory) : bool :=
  match gpus with
  | [] => false
  | inventory_gpu :: rest =>
      is_none_or (gpu_for_inventory t index inventory_gpu)
        (λ telemetry, (gi_total_vram_mib inventory_gpu <? gt_available_vram_mib telemetry)%N)
      || gpu_mismatch t (S index) rest
  end.

Definition NodeTelemetry_validate (t : NodeTelemetry) (inventory : NodeInventory) :
    result NodeStateError.t unit :=
  NodeTelemetry_validate_shape t;;
  reject_if ((inv_logical_cpu_cores inventory <? tel_available_cpu_cores t)%N
             || (inv_memory_mib inventory <? tel_available_memory_mib t)%N
             || (inv_disk_mib inventory <? tel_available_disk_mib t)%N)
    (InvalidTelemetry (lit "available capacity exceeds inventory total"));;
  reject_if ((length (tel_gpus t) != length (inv_gpus inventory))
             || gpu_mismatch t 0 (inv_gpus inventory))
    (InvalidTelemetry (lit "GPU telemetry does not match inventory")).

(** ** Availability *)
Module NodeAvailability.
Inductive t := Available | Degraded | Draining | Disabled | Offline | Stale.
#[export] Instance eq_dec : EqDecision t.
Proof. solve_decision. Defined.
Definition schedulable (a : t) : bool :=
  match a with Available | Degraded => true | _ => false end.
End NodeAvailability.
Export (hints) NodeAvailability.

Definition NodeAvailability_derive `{ChronoCrate} (config : NodeConfig) (telemetry : NodeTelemetry)
    (received_at now : DateTime) (freshness_ttl : N) : NodeAvailability.t :=
  if negb (cfg_enabled config) then NodeAvailability.Disabled
  else if cfg_desired_state config == NodeDesiredState.Draining then NodeAvailability.Draining
  else if (maximum_age freshness_ttl <? now - received_at)%Z then NodeAvailability.Stale
  else match tel_status telemetry with
  | NodeStatus.Online => NodeAvailability.Available
  | NodeStatus.Degraded => NodeAvailability.Degraded
  | NodeStatus.Draining => NodeAvailability.Draining
  | NodeStatus.Offline => NodeAvailability.Offline
  end.

(** ** The merged view *)
Record NodeMergeView := {
  view_id : Uuid;
  view_config : NodeConfig;
  view_inventory : NodeInventory;
  view_telemetry : NodeTelemetry;
  view_received_at : DateTime;
  view_availability : NodeAvailability.t
}.

Definition NodeMergeView_merge `{ChronoCrate} (id : Uuid) (config : NodeConfig)
    (inventory : NodeInventory) (telemetry : NodeTelemetry) (received_at now : DateTime)
    (freshness_ttl : N) : result NodeStateError.t NodeMergeView :=
  reject_if (uuid_is_nil id) NilNodeId;;
  NodeConfig_validate config;;
  NodeInventory_validate inventory;;
  NodeTelemetry_validate telemetry inventory;;
  Ok {| view_id := id; view_config := config; view_inventory := inventory;
        view_telemetry := telemetry; view_received_at := received_at;
        view_availability :=
          NodeAvailability_derive config telemetry received_at now freshness_ttl |}.

(** The [map] with the [expect]: [None] when some device has no telemetry. *)
Fixpoint join_gpus (t : NodeTelemetry) (index : nat) (gpus : list GpuInventory) :
    option (list GpuDevice) :=
  match gpus with
  | [] => Some []
  | inventory :: rest =>
      telemetry ← gpu_for_inventory t index inventory;
      devices ← join_gpus t (S index) rest;
      Some ({| gpu_vendor := gi_vendor inventory; gpu_model := gi_model inventory;
               gpu_total_vram_mib := gi_total_vram_mib inventory;
               gpu_available_vram_mib := gt_available_vram_mib telemetry;
               gpu_allocatable := gt_allocatable telemetry |} :: devices)
  end.

Definition view_status (v : NodeMergeView) : NodeStatus.t :=
  match view_availability v with
  | NodeAvailability.Available => NodeStatus.Online
  | NodeAvailability.Degraded => NodeStatus.Degraded
  | NodeAvailability.Draining => NodeStatus.Draining
  | NodeAvailability.Disabled => tel_status (view_telemetry v)
  | NodeAvailability.Offline | NodeAvailability.Stale => NodeStatus.Offline
  end.

Definition validate_view (v : NodeMergeView) : result NodeStateError.t unit :=
  NodeConfig_validate (view_config v);;
  NodeInventory_validate (view_inventory v);;
  NodeTelemetry_validate (view_telemetry v) (view_inventory v).

(** [to_node]; [None] is the panic of [expect]. *)
Definition to_node (v : NodeMergeView) : option (result NodeStateError.t Node) :=
  match validate_view v with
  | Err e => Some (Err e)
  | Ok _ =>
      gpus ← join_gpus (view_telemetry v) 0 (inv_gpus (view_inventory v));
      let i := view_inventory v in
      let t := view_telemetry v in
      Some (Ok {| node_id := view_id v; node_name := cfg_name (view_config v);
        node_enabled := cfg_enabled (view_config v); node_transport := inv_transport i;
        node_os := inv_os i; node_arch := inv_arch i; node_status := view_status v;
        node_capabilities := inv_capabilities i;
        node_resources := {| res_logical_cpu_cores := inv_logical_cpu_cores i;
          res_available_cpu_cores := tel_available_cpu_cores t; res_memory_mib := inv_memory_mib i;
          res_available_memory_mib := tel_available_memory_mib t; res_disk_mib := inv_disk_mib i;
          res_available_disk_mib := tel_available_disk_mib t; res_gpus := gpus |};
        node_load := tel_load t; node_priority := cfg_priority (view_config v);
        node_labels := cfg_labels (view_config v); node_cached_sources := tel_cached_sources t;
        node_last_seen_at := Some (view_received_at v) |})
  end.

(** ** Specification *)

(** No capacity of the node exceeds its total. *)
Definition capacity_within (node : Node) : Prop :=
  let r := node_resources node in
  (res_available_cpu_cores r ≤ res_logical_cpu_cores r ∧
   res_available_memory_mib r ≤ res_memory_mib r ∧
   res_available_disk_mib r ≤ res_disk_mib r ∧
   load_cpu_percent (node_load node) ≤ 100)%N ∧
  Forall (λ g, (gpu_available_vram_mib g ≤ gpu_total_vram_mib g)%N) (res_gpus r).

(** The guarantees behind [ready]. *)
Definition hostile_protections (h : HostileIsolationInventory) : Prop :=
  hi_dedicated_identity h = true ∧ hi_external_reconciliation h = true ∧
  hi_protected_guard_state h = true ∧ hi_worker_state_isolated h = true ∧
  hi_reason_code h = None ∧
  (hi_backend h = HostileIsolationBackend.LinuxCgroupV2DedicatedIdentity ∨
   hi_backend h = HostileIsolationBackend.WindowsJobObjectExternalGuard).

Definition hostile_ok (h : HostileIsolationInventory) : Prop :=
  h = HostileIsolationInventory_default ∨
  hi_opt_in h = true ∧ hi_backend h ≠ HostileIsolationBackend.Disabled ∧
  (if hi_ready h then hostile_protections h
   else ∃ reason, hi_reason_code h = Some reason ∧ bad_text 128 reason = false).

(** ** Lemmas *)

Lemma gpu_mismatch_false t gpus index :
  gpu_mismatch t index gpus = false →
  ∃ devices, join_gpus t index gpus = Some devices ∧
    length devices = length gpus ∧
    Forall (λ g, (gpu_available_vram_mib g ≤ gpu_total_vram_mib g)%N) devices.
Proof.
  revert index. induction gpus as [|inventory gpus IH]; intros index; cbn.
  { intros _. eexists. split_and!; [done..|constructor]. }
  rewrite orb_false_iff. intros [Hg Hrest]. apply is_none_or_false in Hg as (telemetry & Ht & Hle).
  apply N.ltb_ge in Hle. destruct (IH _ Hrest) as (devices & Hd & Hlen & Hall).
  rewrite Ht. cbn. rewrite Hd. cbn. eexists. split_and!; [done|cbn; congruence|].
  by constructor.
Qed.

Lemma telemetry_validate_gpus t i :
  NodeTelemetry_validate t i = Ok tt →
  gpu_mismatch t 0 (inv_gpus i) = false ∧
  (tel_available_cpu_cores t ≤ inv_logical_cpu_cores i ∧
   tel_available_memory_mib t ≤ inv_memory_mib i ∧
   tel_available_disk_mib t ≤ inv_disk_mib i ∧
   load_cpu_percent (tel_load t) ≤ 100)%N.
Proof.
  unfold NodeTelemetry_validate, NodeTelemetry_validate_shape.
  rewrite !bind_unit_Ok, !reject_if_Ok, !orb_false_iff, !N.ltb_ge. tauto.
Qed.

Lemma validate_view_join v :
  validate_view v = Ok tt → is_Some (join_gpus (view_telemetry v) 0 (inv_gpus (view_inventory v))).
Proof.
  unfold validate_view. rewrite !bind_unit_Ok. intros (_ & _ & Ht).
  apply telemetry_validate_gpus in Ht as [Hg _]. apply gpu_mismatch_false in Hg as (ds & -> & _).
  eauto.
Qed.

Lemma hostile_validate_Ok h : HostileIsolationInventory_validate h = Ok tt ↔ hostile_ok h.
Proof.
  unfold HostileIsolationInventory_validate, hostile_ok, hostile_protections,
    HostileIsolationInventory_default.
  destruct h as [opt ready backend dedicated external guard isolated reason]; cbn.
  rewrite bind_unit_Ok, reject_if_Ok, is_some_and_false. destruct opt; cbn.
  - rewrite !bind_unit_Ok, !reject_if_Ok, bool_decide_eq_false.
    destruct ready; cbn.
    + rewrite !orb_false_iff, !negb_false_iff, is_some_false.
      destruct backend, dedicated, external, guard, isolated; naive_solver.
    + rewrite is_none_false. naive_solver.
  - rewrite reject_if_Ok, !orb_false_iff, negb_bool_decide_false, is_some_false. split.
    + intros (_ & ((((((-> & ->) & ->) & ->) & ->) & ->) & ->)). by left.
    + intros [[= -> -> -> -> -> -> ->]|[? _]]; [|done]. by split_and!.
Qed.

(** ** Properties *)

(** [to_node] never panics: whatever the view, the [expect] on the GPU join
    is not reached with a missing device.  An invalid view gives the validators'
    error; a valid one gives a node with one device per inventory device, no
    capacity above its total, the controller's receive time, and the status of
    the view's availability. *)
Theorem to_node_never_panics (v : NodeMergeView) :
  match to_node v with
  | None => False
  | Some (Err e) => validate_view v = Err e
  | Some (Ok node) =>
      validate_view v = Ok tt ∧ capacity_within node ∧
      length (res_gpus (node_resources node)) = length (inv_gpus (view_inventory v)) ∧
      node_id node = view_id v ∧ node_last_seen_at node = Some (view_received_at v) ∧
      node_status node = view_status v
  end.
Proof.
  unfold to_node. destruct (validate_view v) as [[]|e] eqn:Hv; [|done].
  pose proof Hv as Hv'. unfold validate_view in Hv'. rewrite !bind_unit_Ok in Hv'.
  destruct Hv' as (_ & _ & Ht). apply telemetry_validate_gpus in Ht as [Hg Hcap].
  apply gpu_mismatch_false in Hg as (ds & -> & Hlen & Hall). cbn.
  unfold capacity_within. cbn. tauto.
Qed.

(** A merged view serves a node at once: a successful [merge] has a non-nil
    identifier and availability derived from its own documents, and its
    [to_node] succeeds. *)
Theorem merged_view_serves `{ChronoCrate} (id : Uuid) (config : NodeConfig) (inventory : NodeInventory)
    (telemetry : NodeTelemetry) (received_at now : DateTime) (ttl : N) (v : NodeMergeView)
    (Hmerge : NodeMergeView_merge id config inventory telemetry received_at now ttl = Ok v) :
  id ≠ 0%N ∧ view_id v = id ∧
  view_availability v = NodeAvailability_derive config telemetry received_at now ttl ∧
  ∃ node, to_node v = Some (Ok node) ∧ node_id node = id ∧ node_name node = cfg_name config.
Proof.
  unfold NodeMergeView_merge in Hmerge. rewrite !bind_unit_Ok, reject_if_Ok in Hmerge.
  destruct Hmerge as (Hid & Hc & Hi & Ht & [= <-]). unfold uuid_is_nil in Hid.
  apply bool_decide_eq_false in Hid. cbn. split_and!; [done..|].
  unfold to_node, validate_view; cbn. rewrite Hc, Hi, Ht. cbn.
  apply telemetry_validate_gpus in Ht as [Hg _]. apply gpu_mismatch_false in Hg as (ds & -> & _).
  cbn. eauto.
Qed.

(** Availability: a node is schedulable exactly when the controller enabled
    it and wants it active, the last report is at most the freshness bound old
    (the TTL, or the largest duration when the TTL does not fit), and the worker
    reports itself online or degraded. *)
Theorem schedulable_spec `{ChronoCrateLaws} (config : NodeConfig) (telemetry : NodeTelemetry)
    (received_at now : DateTime) (ttl : N) :
  NodeAvailability.schedulable (NodeAvailability_derive config telemetry received_at now ttl) = true ↔
  cfg_enabled config = true ∧ cfg_desired_state config = NodeDesiredState.Active ∧
  (now - received_at ≤ Z.min (Z.of_N ttl) duration_max)%Z ∧
  (tel_status telemetry = NodeStatus.Online ∨ tel_status telemetry = NodeStatus.Degraded).
Proof.
  unfold NodeAvailability_derive. rewrite maximum_age_spec.
  destruct (cfg_enabled config); cbn; [|naive_solver].
  destruct (cfg_desired_state config); repeat case_bool_decide; try naive_solver.
  destruct (Z.ltb_spec (Z.min (Z.of_N ttl) duration_max) (now - received_at)); cbn.
  - split; [done|]. intros (_ & _ & ? & _). lia.
  - destruct (tel_status telemetry); cbn; naive_solver.
Qed.

(** Hostile isolation is fail-closed: an inventory validates exactly when it
    is the disabled default, or names a backend and either is ready with every
    protection on a supported backend and no reason code, or is not ready and
    says why. *)
Theorem hostile_isolation_fail_closed (h : HostileIsolationInventory) :
  HostileIsolationInventory_validate h = Ok tt ↔ hostile_ok h.
Proof. apply hostile_validate_Ok. Qed.

Lemma join_legacy_gpus t gpus index :
  (∀ j g, gpus !! j = Some g → tel_gpus t !! (index + j) = Some (GpuTelemetry_from_gpu g)) →
  join_gpus t index (map GpuInventory_from_gpu gpus) = Some gpus.
Proof.
  revert index. induction gpus as [|g gpus IH]; intros index Hg; cbn; [done|].
  unfold gpu_for_inventory. cbn. rewrite <-(Nat.add_0_r index) at 1. rewrite (Hg 0 g) by done. cbn.
  rewrite IH; [by destruct g|]. intros j g' Hj. rewrite Nat.add_succ_comm. by apply Hg.
Qed.

(** The split documents lose nothing of a legacy node: splitting a node that
    was seen into configuration, inventory and telemetry, merging them at the
    time it was seen and converting back gives the very same node, provided it is
    still fresh (a disabled node needs no freshness). *)
Theorem legacy_node_roundtrip `{ChronoCrate} (node : Node) (seen fallback now : DateTime) (ttl : N)
    (v : NodeMergeView) (Hseen : node_last_seen_at node = Some seen)
    (Hfresh : node_enabled node = true → (now - seen ≤ maximum_age ttl)%Z)
    (Hmerge : NodeMergeView_merge (node_id node) (NodeConfig_from_node node)
       (NodeInventory_from_node node) (NodeTelemetry_from_node node fallback) seen now ttl = Ok v) :
  to_node v = Some (Ok node).
Proof.
  pose proof Hmerge as Hm. unfold NodeMergeView_merge in Hm. rewrite !bind_unit_Ok in Hm.
  destruct Hm as (_ & Hc & Hi & Ht & [= <-]).
  unfold to_node, validate_view; cbn [view_config view_inventory view_telemetry].
  rewrite Hc, Hi, Ht. cbn [mbind result_bind].
  cbn [inv_gpus NodeInventory_from_node].
  rewrite join_legacy_gpus by (intros j g Hj; cbn; rewrite list_lookup_fmap, Hj; done).
  cbn. f_equal. f_equal. rewrite <-Hseen.
  assert (view_status {| view_id := node_id node; view_config := NodeConfig_from_node node;
      view_inventory := NodeInventory_from_node node;
      view_telemetry := NodeTelemetry_from_node node fallback; view_received_at := seen;
      view_availability := NodeAvailability_derive (NodeConfig_from_node node)
        (NodeTelemetry_from_node node fallback) seen now ttl |} = node_status node) as ->.
  { unfold view_status, NodeAvailability_derive; cbn. destruct (node_enabled node) eqn:He; cbn; [|done].
    specialize (Hfresh eq_refl). destruct (Z.ltb_spec (maximum_age ttl) (now - seen)); [lia|].
    by destruct (node_status node). }
  by destruct node as [? ? ? ? ? ? ? ? [] ? ? ? ? ?].
Qed.

(** ** Witnesses *)
#[local] Existing Instance Concrete.chrono_crate.
#[local] Existing Instance Concrete.chrono_crate_laws.

Definition legacy_node : Node :=
  {| node_id := 5%N; node_name := lit "gpu-box"; node_enabled := true; node_transport := NodeTransport.Local;
     node_os := OperatingSystem.Windows; node_arch := Architecture.X86_64;
     node_status := NodeStatus.Degraded; node_capabilities := [lit "cuda"];
     node_resources := {| res_logical_cpu_cores := 16; res_available_cpu_cores := 4;
       res_memory_mib := 32768; res_available_memory_mib := 16384; res_disk_mib := 512000;
       res_available_disk_mib := 102400;
       res_gpus := [{| gpu_vendor := GpuVendor.Nvidia; gpu_model := lit "RTX 4070";
         gpu_total_vram_mib := 12288; gpu_available_vram_mib := 8192; gpu_allocatable := true |}] |};
     node_load := {| load_cpu_percent := 10; load_queue_depth := 0; load_running_jobs := 1 |};
     node_priority := 5; node_labels := [(lit "zone", lit "lab")]; node_cached_sources := [];
     node_last_seen_at := Some 1000%Z |}.

Definition legacy_view : NodeMergeView :=
  {| view_id := 5%N; view_config := NodeConfig_from_node legacy_node;
     view_inventory := NodeInventory_from_node legacy_node;
     view_telemetry := NodeTelemetry_from_node legacy_node 0%Z; view_received_at := 1000%Z;
     view_availability := NodeAvailability.Degraded |}.

Lemma legacy_node_roundtrip_witness : to_node legacy_view = Some (Ok legacy_node).
Proof.
  apply (legacy_node_roundtrip legacy_node 1000%Z 0%Z 1500%Z 15000000000%N); [done|by vm_compute|].
  by vm_compute.
Defined.

Lemma merged_view_serves_witness :
  ∃ node, to_node legacy_view = Some (Ok node) ∧ node_id node = 5%N.
Proof.
  destruct (merged_view_serves 5%N (NodeConfig_from_node legacy_node) (NodeInventory_from_node legacy_node)
    (NodeTelemetry_from_node legacy_node 0%Z) 1000%Z 1500%Z 15000000000%N legacy_view)
    as (_ & _ & _ & node & Hn & Hid & _); [by vm_compute|].
  exists node. by split.
Defined.

Lemma schedulable_spec_witness :
  NodeAvailability.schedulable
    (NodeAvailability_derive (NodeConfig_from_node legacy_node)
       (NodeTelemetry_from_node legacy_node 0%Z) 1000%Z 1500%Z 15000000000%N) = true.
Proof. apply schedulable_spec. split_and!; [done..|by right]. Defined.
