(* ===== verification/PlacementBinding.v ===== *)
(** Placement evidence: [crates/cyc-protocol/src/placement_binding.rs].

    A binding freezes a scheduler decision for one canonical job.  Its validator
    is the trust boundary: it is run on documents that came over the wire or from
    disk, so the specification [binding_ok] states the facts a client may use
    after [validate] returned [Ok]. *)
From Stdlib Require Import ZArith NArith Lia String.
From stdpp Require Import base option list numbers sets.
From S2P Require Import Prelude Text Crates Protocol Snapshot JobSpec CanonicalJson.
Open Scope rust_scope.

Definition PLACEMENT_PLAN_BINDING_API_VERSION : rstr := lit "cyc.dev/placement-plan-binding/v1".
Definition MAX_CLOCK_SKEW : Z := 30 * nanos_per_second.
Definition MAX_CANDIDATES : nat := 256.
Definition MAX_EVIDENCE_ITEMS : nat := 64.
Definition MAX_TEXT_BYTES : N := 256.
Definition MAX_SAFE_JSON_I64 : Z := 9007199254740991.

Record PlacementPlanDecisionV1 := {
  pd_node_id : Uuid;
  pd_score : Z;
  pd_explanation : PlacementExplain
}.
Record PlacementPlanBindingV1 := {
  pb_api_version : rstr;
  pb_plan_id : Uuid;
  pb_job_id : Uuid;
  pb_job_digest : rstr;
  pb_created_at : DateTime;
  pb_expires_at : DateTime;
  pb_fleet_revision : Z;
  pb_node_revision : Z;
  pb_policy_revision : Z;
  pb_decision : PlacementPlanDecisionV1
}.
Record SmokeRunBindingV1 := { sb_plan : PlacementPlanBindingV1; sb_run_id : Uuid }.

Module PlacementBindingError.
Inductive t :=
| UnsupportedApiVersion | NilPlanId | NilJobId | NilDecisionNodeId | InvalidJobDigest
| NegativeFleetRevision | FleetRevisionExceedsSafeInteger
| NegativeNodeRevision | NodeRevisionExceedsSafeInteger
| NegativePolicyRevision | PolicyRevisionExceedsSafeInteger
| DecisionScoreOutOfRange | CandidateScoreOutOfRange | ScoreComponentValueOutOfRange
| InvalidTimeRange | CreatedTooFarInFuture | Expired
| ExpectedJobInvalid | ExpectedJobIdMismatch | ExpectedJobDigestMismatch
| ExpectedPolicyMismatch | ExpectedPreferredNodeMismatch
| ExplanationSelectedNodeMismatch | CandidateCountOutOfRange | CandidateNilNodeId
| CandidateNameInvalid | DuplicateCandidateNodeId
| EligibleCandidateMissingScore | EligibleCandidateScoreComponentsOutOfRange
| EligibleCandidateHasRejections | IneligibleCandidateHasScore
| IneligibleCandidateHasScoreComponents | IneligibleCandidateRejectionsOutOfRange
| ScoreComponentKeyInvalid | ScoreComponentDetailInvalid | DuplicateScoreComponentKey
| ScoreComponentSumOverflow | ScoreComponentSumOutOfRange | ScoreComponentSumMismatch
| RejectionDetailInvalid | DuplicateRejectionCode
| SelectedCandidateCountMismatch | SelectedCandidateIneligible | DecisionScoreMismatch | NilRunId.
#[export] Instance eq_dec : EqDecision t.
Proof. solve_decision. Defined.
End PlacementBindingError.
Export (hints) PlacementBindingError.
Import PlacementBindingError.
Abbreviation checked := (result PlacementBindingError.t).

Definition valid_text (value : rstr) : bool :=
  negb (blank value) && (len value <=? MAX_TEXT_BYTES)%N && negb (has_control value).
Definition is_lowercase_sha256 (value : rstr) : bool := lower_hex_of_len 64 value.
Definition is_safe_json_i64 (value : Z) : bool :=
  (- MAX_SAFE_JSON_I64 <=? value)%Z && (value <=? MAX_SAFE_JSON_I64)%Z.

(** The component loop: keys seen so far and the running sum. *)
Fixpoint sum_components (keys : list rstr) (sum : Z) (components : list ScoreComponent) : checked Z :=
  match components with
  | [] => Ok sum
  | component :: rest =>
      reject_if (negb (valid_text (sc_key component))) ScoreComponentKeyInvalid;;
      reject_if (negb (valid_text (sc_detail component))) ScoreComponentDetailInvalid;;
      reject_if (bool_decide (sc_key component ∈ keys)) DuplicateScoreComponentKey;;
      reject_if (negb (is_safe_json_i64 (sc_value component))) ScoreComponentValueOutOfRange;;
      sum ← ok_or (i64_checked_add sum (sc_value component)) ScoreComponentSumOverflow;
      reject_if (negb (is_safe_json_i64 sum)) ScoreComponentSumOutOfRange;;
      sum_components (sc_key component :: keys) sum rest
  end.

(** [items.is_empty() || items.len() > MAX_EVIDENCE_ITEMS] *)
Definition evidence_count_bad {A} (items : list A) : bool :=
  is_empty items || (MAX_EVIDENCE_ITEMS <? length items).

Definition validate_eligible_candidate (candidate : PlacementCandidateExplain) : checked unit :=
  score ← ok_or (cand_score candidate) EligibleCandidateMissingScore;
  reject_if (negb (is_safe_json_i64 score)) CandidateScoreOutOfRange;;
  reject_if (evidence_count_bad (cand_score_components candidate))
    EligibleCandidateScoreComponentsOutOfRange;;
  reject_if (negb (is_empty (cand_rejection_reasons candidate))) EligibleCandidateHasRejections;;
  sum ← sum_components [] 0%Z (cand_score_components candidate);
  reject_if (sum != score) ScoreComponentSumMismatch.

Fixpoint validate_rejections (codes : list RejectionCode.t) (rejections : list PlacementRejection) :
    checked unit :=
  match rejections with
  | [] => Ok tt
  | rejection :: rest =>
      reject_if (negb (valid_text (rej_detail rejection))) RejectionDetailInvalid;;
      reject_if (bool_decide (rej_code rejection ∈ codes)) DuplicateRejectionCode;;
      validate_rejections (rej_code rejection :: codes) rest
  end.

Definition validate_ineligible_candidate (candidate : PlacementCandidateExplain) : checked unit :=
  reject_if (is_some (cand_score candidate)) IneligibleCandidateHasScore;;
  reject_if (negb (is_empty (cand_score_components candidate))) IneligibleCandidateHasScoreComponents;;
  reject_if (evidence_count_bad (cand_rejection_reasons candidate))
    IneligibleCandidateRejectionsOutOfRange;;
  validate_rejections [] (cand_rejection_reasons candidate).

Definition validate_candidate (candidate : PlacementCandidateExplain) : checked unit :=
  if cand_eligible candidate then validate_eligible_candidate candidate
  else validate_ineligible_candidate candidate.

(** The candidate loop: identifiers seen and the selected candidate. *)
Fixpoint scan_candidates (decision_node : Uuid) (node_ids : list Uuid)
    (selected : option PlacementCandidateExplain) (candidates : list PlacementCandidateExplain) :
    checked (option PlacementCandidateExplain) :=
  match candidates with
  | [] => Ok selected
  | candidate :: rest =>
      reject_if (uuid_is_nil (cand_node_id candidate)) CandidateNilNodeId;;
      reject_if (negb (valid_text (cand_node_name candidate))) CandidateNameInvalid;;
      reject_if (bool_decide (cand_node_id candidate ∈ node_ids)) DuplicateCandidateNodeId;;
      validate_candidate candidate;;
      if cand_node_id candidate == decision_node then
        reject_if (is_some selected) SelectedCandidateCountMismatch;;
        scan_candidates decision_node (cand_node_id candidate :: node_ids) (Some candidate) rest
      else scan_candidates decision_node (cand_node_id candidate :: node_ids) selected rest
  end.

Definition validate_explanation (decision : PlacementPlanDecisionV1) : checked unit :=
  let explanation := pd_explanation decision in
  reject_if (expl_selected_node_id explanation != Some (pd_node_id decision))
    ExplanationSelectedNodeMismatch;;
  reject_if (is_empty (expl_candidates explanation)
             || (MAX_CANDIDATES <? length (expl_candidates explanation))) CandidateCountOutOfRange;;
  selected ← scan_candidates (pd_node_id decision) [] None (expl_candidates explanation);
  selected ← ok_or selected SelectedCandidateCountMismatch;
  reject_if (negb (cand_eligible selected)) SelectedCandidateIneligible;;
  reject_if (cand_score selected != Some (pd_score decision)) DecisionScoreMismatch.

Section validate.
Context `{SerdeJsonCrate, DigestCrate}.

(** The block [if let Some(job) = expected_job]. *)
Definition validate_expected_job (b : PlacementPlanBindingV1) (job : JobSpec) : checked unit :=
  map_err (λ _, ExpectedJobInvalid) (JobSpec_validate job);;
  reject_if (pb_job_id b != job_id job) ExpectedJobIdMismatch;;
  digest ← map_err (λ _, ExpectedJobInvalid) (canonical_job_digest job);
  reject_if (pb_job_digest b != digest) ExpectedJobDigestMismatch;;
  reject_if (expl_policy (pd_explanation (pb_decision b)) != job_placement_policy job)
    ExpectedPolicyMismatch;;
  reject_if (is_some_and (job_preferred_node_id job) (λ id, id != pd_node_id (pb_decision b)))
    ExpectedPreferredNodeMismatch.

Definition validate_clock (b : PlacementPlanBindingV1) (now : option DateTime) : checked unit :=
  match now with
  | None => Ok tt
  | Some now =>
      reject_if (now + MAX_CLOCK_SKEW <? pb_created_at b)%Z CreatedTooFarInFuture;;
      reject_if (pb_expires_at b <=? now)%Z Expired
  end.

(** [PlacementPlanBindingV1::validate] *)
Definition PlacementPlanBindingV1_validate (b : PlacementPlanBindingV1) (expected_job : option JobSpec)
    (now : option DateTime) : checked unit :=
  reject_if (pb_api_version b != PLACEMENT_PLAN_BINDING_API_VERSION) UnsupportedApiVersion;;
  reject_if (uuid_is_nil (pb_plan_id b)) NilPlanId;;
  reject_if (uuid_is_nil (pb_job_id b)) NilJobId;;
  reject_if (uuid_is_nil (pd_node_id (pb_decision b))) NilDecisionNodeId;;
  reject_if (negb (is_lowercase_sha256 (pb_job_digest b))) InvalidJobDigest;;
  reject_if (pb_fleet_revision b <? 0)%Z NegativeFleetRevision;;
  reject_if (MAX_SAFE_JSON_I64 <? pb_fleet_revision b)%Z FleetRevisionExceedsSafeInteger;;
  reject_if (pb_node_revision b <? 0)%Z NegativeNodeRevision;;
  reject_if (MAX_SAFE_JSON_I64 <? pb_node_revision b)%Z NodeRevisionExceedsSafeInteger;;
  reject_if (pb_policy_revision b <? 0)%Z NegativePolicyRevision;;
  reject_if (MAX_SAFE_JSON_I64 <? pb_policy_revision b)%Z PolicyRevisionExceedsSafeInteger;;
  reject_if (negb (is_safe_json_i64 (pd_score (pb_decision b)))) DecisionScoreOutOfRange;;
  reject_if (pb_expires_at b <=? pb_created_at b)%Z InvalidTimeRange;;
  validate_clock b now;;
  match expected_job with
  | Some job => validate_expected_job b job
  | None => Ok tt
  end;;
  validate_explanation (pb_decision b).

(** [SmokeRunBindingV1::validate] *)
Definition SmokeRunBindingV1_validate (b : SmokeRunBindingV1) (expected_job : option JobSpec)
    (now : option DateTime) : checked unit :=
  PlacementPlanBindingV1_validate (sb_plan b) expected_job now;;
  reject_if (uuid_is_nil (sb_run_id b)) NilRunId.
End validate.

(** ** Specification *)

Definition good_text (value : rstr) : Prop :=
  blank value = false ∧ (len value ≤ 256)%N ∧ has_control value = false.
Definition safe_i64 (value : Z) : Prop := (Z.abs value ≤ MAX_SAFE_JSON_I64)%Z.
Definition values (components : list ScoreComponent) : list Z := map sc_value components.
Definition total (zs : list Z) : Z := foldr Z.add 0%Z zs.

(** Score components: well-formed, distinct keys, every partial sum exact in JSON. *)
Definition components_ok (components : list ScoreComponent) : Prop :=
  Forall (λ c, good_text (sc_key c) ∧ good_text (sc_detail c) ∧ safe_i64 (sc_value c)) components ∧
  NoDup (map sc_key components) ∧
  (∀ n, n ≤ length components → safe_i64 (total (values (take n components)))).

(** What a candidate's evidence says. *)
Definition candidate_ok (c : PlacementCandidateExplain) : Prop :=
  cand_node_id c ≠ 0%N ∧ good_text (cand_node_name c) ∧
  if cand_eligible c then
    cand_score c = Some (total (values (cand_score_components c))) ∧
    1 ≤ length (cand_score_components c) ≤ 64 ∧ components_ok (cand_score_components c) ∧
    cand_rejection_reasons c = []
  else
    cand_score c = None ∧ cand_score_components c = [] ∧
    1 ≤ length (cand_rejection_reasons c) ≤ 64 ∧
    Forall (λ r, good_text (rej_detail r)) (cand_rejection_reasons c) ∧
    NoDup (map rej_code (cand_rejection_reasons c)).

(** The explanation names one selected candidate, eligible, with the score. *)
Definition explanation_ok (d : PlacementPlanDecisionV1) : Prop :=
  let cs := expl_candidates (pd_explanation d) in
  expl_selected_node_id (pd_explanation d) = Some (pd_node_id d) ∧
  1 ≤ length cs ≤ 256 ∧ Forall candidate_ok cs ∧ NoDup (map cand_node_id cs) ∧
  ∃ c, c ∈ cs ∧ cand_node_id c = pd_node_id d ∧ cand_eligible c = true ∧
       cand_score c = Some (pd_score d).

(** ** Lemmas *)

Lemma valid_text_true v : valid_text v = true ↔ good_text v.
Proof.
  unfold valid_text, good_text, MAX_TEXT_BYTES.
  rewrite !andb_true_iff, !negb_true_iff, N.leb_le. tauto.
Qed.
Lemma is_safe_json_true z : is_safe_json_i64 z = true ↔ safe_i64 z.
Proof. unfold is_safe_json_i64, safe_i64. rewrite andb_true_iff, !Z.leb_le. lia. Qed.
Lemma evidence_count_false {A} (l : list A) : evidence_count_bad l = false ↔ 1 ≤ length l ≤ 64.
Proof.
  unfold evidence_count_bad, MAX_EVIDENCE_ITEMS. rewrite orb_false_iff, Nat.ltb_ge.
  destruct l; cbn [is_empty length]; split; (intros []; done || lia) || lia.
Qed.

Lemma take_prefixes (P : list ScoreComponent → Prop) c cs :
  (∀ n, n ≤ length (c :: cs) → P (take n (c :: cs))) ↔
  P [] ∧ ∀ n, n ≤ length cs → P (c :: take n cs).
Proof.
  split.
  - intros H. split; [apply (H 0); cbn; lia|]. intros n Hn. apply (H (S n)). cbn. lia.
  - intros [H0 H] [|n] Hn; [done|]. cbn in *. apply H. lia.
Qed.

(** A checked step between safe values never overflows. *)
Lemma safe_checked_add sum v z :
  safe_i64 sum → safe_i64 v →
  (ok_or (i64_checked_add sum v) ScoreComponentSumOverflow = Ok z ↔ z = (sum + v)%Z).
Proof.
  unfold safe_i64, MAX_SAFE_JSON_I64, i64_checked_add. intros Hs Hv.
  rewrite bool_decide_eq_true_2 by (unfold i64_min, i64_max; lia). cbn. naive_solver.
Qed.

Lemma sum_components_Ok keys sum cs z :
  safe_i64 sum →
  (sum_components keys sum cs = Ok z ↔
   Forall (λ c, good_text (sc_key c) ∧ good_text (sc_detail c) ∧ safe_i64 (sc_value c)) cs ∧
   NoDup (map sc_key cs) ∧ (∀ k, k ∈ map sc_key cs → k ∉ keys) ∧
   (∀ n, n ≤ length cs → safe_i64 (sum + total (values (take n cs)))) ∧
   z = (sum + total (values cs))%Z).
Proof.
  revert keys sum. induction cs as [|c cs IH]; intros keys sum Hsum; cbn [sum_components].
  { cbn. split.
    - intros [= <-]. split_and!; [constructor|constructor|by intros k ?%not_elem_of_nil| |lia].
      intros n Hn. assert (n = 0) as -> by lia. cbn. by rewrite Z.add_0_r.
    - intros (_ & _ & _ & _ & ->). by rewrite Z.add_0_r. }
  rewrite !bind_unit_Ok, !reject_if_Ok, !negb_false_iff, !valid_text_true, is_safe_json_true,
    bool_decide_eq_false, Forall_cons, bind_Ok.
  rewrite (take_prefixes (λ l, safe_i64 (sum + total (values l)))). cbn [map values total foldr].
  rewrite NoDup_cons. setoid_rewrite bind_unit_Ok. setoid_rewrite reject_if_Ok.
  setoid_rewrite negb_false_iff. setoid_rewrite is_safe_json_true. split.
  - intros (Hk & Hd & Hnk & Hv & s & Hs & Hss & Hrest).
    apply safe_checked_add in Hs as ->; [|done..]. apply IH in Hrest as (H1 & H2 & H3 & H4 & ->); [|done].
    destruct (proj1 (seen_cons _ _ _) (conj Hnk H3)). split_and!; try done.
    + by rewrite Z.add_0_r.
    + intros n Hn. specialize (H4 n Hn). by rewrite <-Z.add_assoc in H4.
    + unfold values, total. lia.
  - intros (((Hk & Hd & Hv) & Hall) & [Hn1 Hn2] & Hn3 & [_ H4] & ->).
    destruct (proj2 (seen_cons _ _ _) (conj Hn1 Hn3)) as [Hnk Hfresh].
    split_and!; try done.
    pose proof (H4 0 (Nat.le_0_l _)) as Hs. cbn in Hs. rewrite Z.add_0_r in Hs.
    exists (sum + sc_value c)%Z. split_and!; [by apply safe_checked_add|done|].
    apply IH; [done|]. split_and!; try done; [|unfold values, total; lia].
    intros n Hn. specialize (H4 n Hn). by rewrite <-Z.add_assoc.
Qed.

Lemma validate_rejections_Ok codes rs :
  validate_rejections codes rs = Ok tt ↔
  Forall (λ r, good_text (rej_detail r)) rs ∧ NoDup (map rej_code rs) ∧
  ∀ c, c ∈ map rej_code rs → c ∉ codes.
Proof.
  revert codes. induction rs as [|r rs IH]; intros codes; cbn [validate_rejections map].
  { split; [|done]. intros _. split_and!; [constructor..|by intros c ?%not_elem_of_nil]. }
  rewrite !bind_unit_Ok, !reject_if_Ok, negb_false_iff, valid_text_true, bool_decide_eq_false, IH,
    Forall_cons, NoDup_cons. pose proof (seen_cons (rej_code r) (map rej_code rs) codes). tauto.
Qed.

Lemma validate_candidate_Ok c :
  cand_node_id c ≠ 0%N → good_text (cand_node_name c) →
  (validate_candidate c = Ok tt ↔ candidate_ok c).
Proof.
  intros Hid Hname. unfold validate_candidate, candidate_ok, components_ok.
  destruct (cand_eligible c).
  - unfold validate_eligible_candidate. rewrite bind_Ok.
    setoid_rewrite ok_or_Ok. setoid_rewrite bind_unit_Ok. setoid_rewrite bind_unit_Ok.
    setoid_rewrite bind_unit_Ok. setoid_rewrite bind_Ok. setoid_rewrite reject_if_Ok.
    setoid_rewrite negb_false_iff. setoid_rewrite is_safe_json_true. setoid_rewrite evidence_count_false.
    setoid_rewrite bool_decide_eq_true.
    assert (safe_i64 0) as H0 by done. setoid_rewrite sum_components_Ok; [|done].
    setoid_rewrite Z.add_0_l. setoid_rewrite Z.add_0_l. split.
    + intros (score & Hs & Hsafe & Hlen & Hrej & sum & (H1 & H2 & H3 & H4 & ->) & <-).
      split_and!; try done; try lia. by destruct (cand_rejection_reasons c).
    + intros (_ & _ & Hs & Hlen & (H1 & H2 & H4) & Hrej). exists (total (values (cand_score_components c))).
      split; [done|]. split; [|split; [done|split]].
      * specialize (H4 (length (cand_score_components c)) ltac:(lia)). by rewrite firstn_all in H4.
      * by rewrite Hrej.
      * eexists. split; [|done]. split_and!; try done.
        intros k _. apply not_elem_of_nil.
  - unfold validate_ineligible_candidate.
    rewrite !bind_unit_Ok, !reject_if_Ok, negb_false_iff, evidence_count_false, is_some_false,
      validate_rejections_Ok.
    assert (is_empty (cand_score_components c) = true ↔ cand_score_components c = []) as ->
      by by destruct (cand_score_components c).
    assert (∀ k : RejectionCode.t, k ∈ map rej_code (cand_rejection_reasons c) → k ∉ []) as Hnil
      by (intros k _; apply not_elem_of_nil).
    tauto.
Qed.

Lemma find_absent node cs :
  node ∉ map cand_node_id cs → List.find (λ c, cand_node_id c == node) cs = None.
Proof.
  intros Hnot. destruct (List.find _ cs) as [c|] eqn:E; [|done].
  apply find_some in E as [Hin Heq]. apply bool_decide_eq_true in Heq. destruct Hnot.
  rewrite <-Heq. by apply list_elem_of_fmap_2, list_elem_of_In.
Qed.

Lemma scan_candidates_Ok node ids selected cs r :
  scan_candidates node ids selected cs = Ok r ↔
  Forall candidate_ok cs ∧ NoDup (map cand_node_id cs) ∧ (∀ i, i ∈ map cand_node_id cs → i ∉ ids) ∧
  (node ∈ map cand_node_id cs → selected = None) ∧
  r = match List.find (λ c, cand_node_id c == node) cs with Some c => Some c | None => selected end.
Proof.
  revert ids selected. induction cs as [|c cs IH]; intros ids selected; cbn [scan_candidates map].
  { cbn. split; [intros [= ->]|by intros (_ & _ & _ & _ & ->)].
    split_and!; [constructor|constructor|by intros i ?%not_elem_of_nil|by intros ?%not_elem_of_nil|done]. }
  rewrite !bind_unit_Ok, !reject_if_Ok, negb_false_iff, valid_text_true.
  unfold uuid_is_nil. rewrite !bool_decide_eq_false, Forall_cons, NoDup_cons.
  assert (candidate_ok c ↔ cand_node_id c ≠ 0%N ∧ good_text (cand_node_name c) ∧
          validate_candidate c = Ok tt) as ->.
  { split; [intros Hc; pose proof Hc as (? & ? & _); split_and!; try done; by apply validate_candidate_Ok|].
    intros (? & ? & ?). by apply validate_candidate_Ok. }
  pose proof (seen_cons (cand_node_id c) (map cand_node_id cs) ids) as Hseen.
  cbn [List.find]. case_bool_decide as Hn.
  - rewrite bind_unit_Ok, reject_if_Ok, is_some_false, IH, elem_of_cons, <-Hn.
    split.
    + intros (H1 & H2 & H3 & H4 & Hsel & H5 & H6 & H7 & H8 & H9).
      assert (cand_node_id c ∉ map cand_node_id cs) as Hnot by (intros Hin; by specialize (H8 Hin)).
      rewrite find_absent in H9 by done. tauto.
    + intros (((H1 & H2 & H3) & Hall) & (H4 & H5) & H6 & H8 & H9).
      rewrite find_absent by done. specialize (H8 (or_introl eq_refl)). tauto.
  - rewrite IH, elem_of_cons. assert (node ≠ cand_node_id c) by done. tauto.
Qed.

Lemma validate_explanation_Ok d : validate_explanation d = Ok tt ↔ explanation_ok d.
Proof.
  unfold validate_explanation, explanation_ok, MAX_CANDIDATES. cbv zeta.
  set (cs := expl_candidates (pd_explanation d)).
  rewrite !bind_unit_Ok, !reject_if_Ok, negb_bool_decide_false, orb_false_iff, Nat.ltb_ge, bind_Ok.
  setoid_rewrite bind_Ok. setoid_rewrite bind_unit_Ok. setoid_rewrite ok_or_Ok.
  setoid_rewrite reject_if_Ok. setoid_rewrite negb_false_iff. setoid_rewrite bool_decide_eq_true.
  setoid_rewrite scan_candidates_Ok.
  assert (is_empty cs = false ∧ (length cs ≤ 256) ↔ 1 ≤ length cs ≤ 256) as ->
    by (destruct cs; cbn; split; (intros []; done || lia) || lia).
  split.
  - intros (He & Hlen & sel & (H1 & H2 & _ & _ & Hf) & c & -> & Hel & Hsc).
    destruct (List.find _ cs) as [c'|] eqn:E; [|done]. injection Hf as <-.
    apply find_some in E as [Hin Heq]. apply bool_decide_eq_true in Heq.
    split_and!; try done; [lia..|]. exists c. split_and!; try done. by apply list_elem_of_In.
  - intros (He & Hlen & H1 & H2 & c & Hin & Hid & Hel & Hsc). split; [done|]. split; [done|].
    assert (List.find (λ c, cand_node_id c == pd_node_id d) cs = Some c) as Hfind.
    { destruct (List.find _ cs) as [c'|] eqn:E.
      - apply find_some in E as [Hin' Heq]. apply bool_decide_eq_true in Heq.
        apply list_elem_of_In in Hin'. f_equal.
        apply list_elem_of_lookup in Hin as [i Hi], Hin' as [j Hj].
        assert (i = j) as ->; [|congruence].
        eapply NoDup_lookup; [exact H2| |]; rewrite list_lookup_fmap; [rewrite Hi|rewrite Hj]; cbn;
          [done|by rewrite Hid, Heq].
      - apply list_elem_of_In in Hin. by eapply find_none in E as E'; [|exact Hin];
          apply bool_decide_eq_false in E'. }
    exists (Some c). split.
    + split_and!; try done; [set_solver|by rewrite Hfind].
    + exists c. by split_and!.
Qed.

Section properties.
Context `{SerdeJsonCrate, DigestCrate}.

Definition safe_revision (z : Z) : Prop := (0 ≤ z ≤ MAX_SAFE_JSON_I64)%Z.

(** The job a binding authorises. *)
Definition binds_job (b : PlacementPlanBindingV1) (job : JobSpec) : Prop :=
  JobSpec_validate job = Ok tt ∧ pb_job_id b = job_id job ∧
  canonical_job_digest job = Ok (pb_job_digest b) ∧
  expl_policy (pd_explanation (pb_decision b)) = job_placement_policy job ∧
  ∀ id, job_preferred_node_id job = Some id → id = pd_node_id (pb_decision b).

Record binding_ok (b : PlacementPlanBindingV1) (expected_job : option JobSpec) (now : option DateTime) :
    Prop := {
  bo_version : pb_api_version b = PLACEMENT_PLAN_BINDING_API_VERSION;
  bo_ids : pb_plan_id b ≠ 0%N ∧ pb_job_id b ≠ 0%N ∧ pd_node_id (pb_decision b) ≠ 0%N;
  bo_digest : hex_string 64 (pb_job_digest b);
  bo_revisions : safe_revision (pb_fleet_revision b) ∧ safe_revision (pb_node_revision b) ∧
                 safe_revision (pb_policy_revision b);
  bo_score : safe_i64 (pd_score (pb_decision b));
  bo_times : (pb_created_at b < pb_expires_at b)%Z;
  bo_clock : ∀ t, now = Some t → (pb_created_at b ≤ t + 30 * nanos_per_second ∧ t < pb_expires_at b)%Z;
  bo_job : ∀ job, expected_job = Some job → binds_job b job;
  bo_explanation : explanation_ok (pb_decision b)
}.

#[local] Opaque JobSpec_validate canonical_job_digest.
Lemma validate_expected_job_Ok b job : validate_expected_job b job = Ok tt ↔ binds_job b job.
Proof.
  unfold validate_expected_job, binds_job.
  rewrite !bind_unit_Ok, map_err_Ok, reject_if_Ok, negb_bool_decide_false, bind_Ok.
  setoid_rewrite map_err_Ok. setoid_rewrite bind_unit_Ok. setoid_rewrite bind_unit_Ok.
  setoid_rewrite reject_if_Ok. setoid_rewrite is_some_and_false.
  repeat setoid_rewrite negb_bool_decide_false. split.
  - intros (Hv & Hid & digest & Hd & <- & Hp & Hn). by split_and!.
  - intros (Hv & Hid & Hd & Hp & Hn). split_and!; [done..|]. eexists. by split_and!.
Qed.

Lemma validate_clock_Ok b now :
  validate_clock b now = Ok tt ↔
  ∀ t, now = Some t → (pb_created_at b ≤ t + 30 * nanos_per_second ∧ t < pb_expires_at b)%Z.
Proof.
  unfold validate_clock, MAX_CLOCK_SKEW. destruct now as [t|]; [|done].
  rewrite bind_unit_Ok, !reject_if_Ok, Z.ltb_ge, Z.leb_gt. naive_solver.
Qed.

Lemma PlacementPlanBindingV1_validate_Ok (b : PlacementPlanBindingV1) (expected_job : option JobSpec)
    (now : option DateTime) :
  PlacementPlanBindingV1_validate b expected_job now = Ok tt ↔ binding_ok b expected_job now.
Proof.
  unfold PlacementPlanBindingV1_validate, is_lowercase_sha256, uuid_is_nil.
  rewrite !bind_unit_Ok, !reject_if_Ok, negb_bool_decide_false, !negb_false_iff, !bool_decide_eq_false,
    is_safe_json_true, !Z.ltb_ge, Z.leb_gt, (lower_hex_of_len_spec 64), validate_clock_Ok,
    validate_explanation_Ok.
  assert (match expected_job with Some job => validate_expected_job b job | None => Ok tt end = Ok tt ↔
          ∀ job, expected_job = Some job → binds_job b job) as ->.
  { destruct expected_job; [rewrite validate_expected_job_Ok|]; naive_solver. }
  split.
  - intros (?&?&?&?&?&?&?&?&?&?&?&?&?&?&?&?). split; unfold safe_revision; try done; split_and!; try done.
  - intros [? (?&?&?) ? ((?&?)&(?&?)&?&?) ? ? ? ? ?]. by split_and!.
Qed.

(** A placement binding validates exactly when it is [binding_ok]: identified
    and versioned; digest a SHA-256; revisions and scores exact in JSON; live at
    the given clock (up to 30 seconds of skew); bound to the given job, if any, by
    identifier, canonical digest, policy and preferred node; and explained by at
    most 256 distinct candidates whose scores are the sums of their components,
    exactly one of which is the selected node, eligible, with the decision's
    score. *)
Theorem binding_validate_spec (b : PlacementPlanBindingV1) (expected_job : option JobSpec)
    (now : option DateTime) :
  PlacementPlanBindingV1_validate b expected_job now = Ok tt ↔ binding_ok b expected_job now.
Proof. apply PlacementPlanBindingV1_validate_Ok. Qed.

(** A binding that was accepted for two jobs was accepted for one: both have
    the binding's identifier and digest, the selected node satisfies a preferred
    node of either, and the smoke validator adds only the run identifier. *)
Theorem smoke_binding_sound (b : SmokeRunBindingV1) (job1 job2 : JobSpec) (now1 now2 : option DateTime)
    (H1 : SmokeRunBindingV1_validate b (Some job1) now1 = Ok tt)
    (H2 : SmokeRunBindingV1_validate b (Some job2) now2 = Ok tt) :
  sb_run_id b ≠ 0%N ∧ job_id job1 = job_id job2 ∧
  canonical_job_digest job1 = canonical_job_digest job2 ∧
  job_placement_policy job1 = job_placement_policy job2.
Proof.
  unfold SmokeRunBindingV1_validate in *. rewrite bind_unit_Ok, reject_if_Ok in H1, H2.
  destruct H1 as [H1 Hrun], H2 as [H2 _].
  apply PlacementPlanBindingV1_validate_Ok in H1 as [_ _ _ _ _ _ _ J1 _], H2 as [_ _ _ _ _ _ _ J2 _].
  destruct (J1 _ eq_refl) as (_ & I1 & D1 & P1 & _), (J2 _ eq_refl) as (_ & I2 & D2 & P2 & _).
  unfold uuid_is_nil in Hrun. apply bool_decide_eq_false in Hrun.
  split_and!; congruence.
Qed.
End properties.

(** ** Witnesses *)
#[local] Existing Instance ConcreteJson.serde_crate.
#[local] Existing Instance Concrete.digest_crate.

Definition sample_digest : rstr :=
  match canonical_job_digest sample_job with Ok d => d | Err _ => [] end.
Definition sample_decision : PlacementPlanDecisionV1 :=
  {| pd_node_id := 3%N; pd_score := 17;
     pd_explanation := {| expl_policy := PlacementPolicy.Balanced; expl_selected_node_id := Some 3%N;
       expl_candidates :=
         [{| cand_node_id := 3%N; cand_node_name := lit "worker"; cand_eligible := true;
             cand_score := Some 17%Z;
             cand_score_components :=
               [{| sc_key := lit "priority"; sc_value := 5; sc_detail := lit "configured priority 5" |};
                {| sc_key := lit "cpu_capacity"; sc_value := 12; sc_detail := lit "1 core" |}];
             cand_rejection_reasons := [] |}] |} |}.
Definition sample_binding : PlacementPlanBindingV1 :=
  {| pb_api_version := PLACEMENT_PLAN_BINDING_API_VERSION; pb_plan_id := 11%N; pb_job_id := 7%N;
     pb_job_digest := sample_digest; pb_created_at := 1000%Z; pb_expires_at := 2000%Z;
     pb_fleet_revision := 1; pb_node_revision := 1; pb_policy_revision := 0;
     pb_decision := sample_decision |}.

Lemma smoke_binding_sound_witness :
  SmokeRunBindingV1_validate {| sb_plan := sample_binding; sb_run_id := 12%N |} (Some sample_job)
    (Some 1500%Z) = Ok tt ∧
  canonical_job_digest sample_job = canonical_job_digest sample_job.
Proof.
  assert (SmokeRunBindingV1_validate {| sb_plan := sample_binding; sb_run_id := 12%N |} (Some sample_job)
            (Some 1500%Z) = Ok tt) as Hv by (by vm_compute).
  split; [exact Hv|].
  apply (smoke_binding_sound {| sb_plan := sample_binding; sb_run_id := 12%N |} sample_job sample_job
           (Some 1500%Z) (Some 1500%Z) Hv Hv).
Defined.
