(* ===== verification/WorkerReports.v ===== *)
(** The worker wire contract, reports and assignments:
    [crates/cyc-protocol/src/worker.rs] up to [HeartbeatResponse].

    Each message has a validator; the theorems say what a controller, or a
    worker, may rely on once a message was accepted. *)
From Stdlib Require Import ZArith NArith Lia String.
From stdpp Require Import base option list numbers sets.
From S2P Require Import Prelude Text Crates Protocol PortablePath Snapshot RunState JobSpec CanonicalJson NodeState.
Open Scope rust_scope.

Definition WORKER_API_VERSION : rstr := lit "cyc.dev/worker/v1".
Definition MAX_SAFE_JSON_INTEGER : N := 9007199254740991.

Module WorkerValidationError.
Inductive t :=
| UnsupportedProtocolVersion (version : N)
| UnsupportedWorkerApiVersion (version : rstr)
| NilIdentifier (field : rstr)
| InvalidCredentialDigest
| EmptyField (field : rstr)
| InvalidDisplayName
| InvalidResource (reason : rstr)
| InvalidNodeReport (reason : rstr)
| DuplicateActiveRun
| InvalidRetryInterval
| JobIdMismatch
| InvalidJobDigest
| JobDigestMismatch
| InvalidJobSpec (message : rstr)
| InvalidWorkspacePath (field : rstr) (source : PortablePathError.t)
| InvalidLimits (reason : rstr)
| TerminalHeartbeat
| MissingTerminalEvidence
| InvalidRunEvidence (reason : rstr)
| DuplicateArtifactId
| EmptyLogBatch
| NonContiguousLogSequence
| InvalidLogMetadata
| InvalidExecutionEvidence (reason : rstr)
| InvalidStreamEvidence (reason : rstr)
| InvalidArtifactPath (source : PortablePathError.t)
| GitMetadataArtifact
| InvalidArtifactDigest
| InvalidMediaType
| NonTerminalCompletion
| ArtifactRunMismatch
| ArtifactManifestMismatch.
#[export] Instance eq_dec : EqDecision t.
Proof. solve_decision. Defined.
End WorkerValidationError.
Export (hints) WorkerValidationError.
Import WorkerValidationError.
Abbreviation wresult := (result WorkerValidationError.t).

(** [validate_lower_hex] with its unit error *)
Definition validate_lower_hex (value : rstr) (length : N) : result unit unit :=
  if lower_hex_of_len length value then Ok tt else Err tt.
Definition valid_sha256 (value : rstr) : bool := lower_hex_of_len 64 value.
Definition valid_object_id (value : rstr) : bool :=
  ((len value == 40%N) || (len value == 64%N)) && forallb is_lower_hex (bytes value).

(** ** Probe *)
Record ProbeReport := {
  probe_protocol_version : N;
  probe_agent_version : rstr;
  probe_observed_at : DateTime;
  probe_hostname : rstr;
  probe_os : OperatingSystem.t;
  probe_arch : Architecture.t;
  probe_capabilities : list Capability;
  probe_resources : NodeResources;
  probe_load : NodeLoad
}.

Definition ProbeReport_validate (p : ProbeReport) : wresult unit :=
  let r := probe_resources p in
  reject_if (probe_protocol_version p != PROTOCOL_VERSION)
    (UnsupportedProtocolVersion (probe_protocol_version p));;
  reject_if (blank (probe_agent_version p)) (EmptyField (lit "agentVersion"));;
  reject_if (blank (probe_hostname p)) (EmptyField (lit "hostname"));;
  reject_if (existsb (λ c, negb (Capability_is_valid c)) (probe_capabilities p))
    (InvalidResource (lit "capability names must not be empty"));;
  reject_if ((res_logical_cpu_cores r == 0%N)
             || (res_logical_cpu_cores r <? res_available_cpu_cores r)%N)
    (InvalidResource (lit "available CPU cores must be no greater than a non-zero logical core count"));;
  reject_if ((res_memory_mib r == 0%N) || (res_memory_mib r <? res_available_memory_mib r)%N)
    (InvalidResource (lit "available memory must be no greater than non-zero total memory"));;
  reject_if ((res_disk_mib r == 0%N) || (res_disk_mib r <? res_available_disk_mib r)%N)
    (InvalidResource (lit "available disk must be no greater than non-zero total disk"));;
  reject_if (100 <? load_cpu_percent (probe_load p))%N
    (InvalidResource (lit "cpuPercent must be in the inclusive range 0..=100"));;
  reject_if (existsb (λ gpu, (gpu_total_vram_mib gpu <? gpu_available_vram_mib gpu)%N) (res_gpus r))
    (InvalidResource (lit "available GPU VRAM must not exceed total VRAM")).

(** ** Pairing *)
Record PairRequest := {
  pr_pairing_id : Uuid;
  pr_intended_node_id : Uuid;
  pr_credential_sha256 : rstr;
  pr_display_name : option rstr;
  pr_probe : ProbeReport
}.
Definition PairRequest_validate (p : PairRequest) : wresult unit :=
  reject_if (uuid_is_nil (pr_pairing_id p)) (NilIdentifier (lit "pairingId"));;
  reject_if (uuid_is_nil (pr_intended_node_id p)) (NilIdentifier (lit "intendedNodeId"));;
  reject_if (negb (valid_sha256 (pr_credential_sha256 p))) InvalidCredentialDigest;;
  reject_if (is_some_and (pr_display_name p) (bad_text 128)) InvalidDisplayName;;
  ProbeReport_validate (pr_probe p).

Record PairResponse := {
  prs_api_version : rstr;
  prs_pairing_id : Uuid;
  prs_controller_id : Uuid;
  prs_node_id : Uuid;
  prs_credential_sha256 : rstr;
  prs_paired_at : DateTime;
  prs_heartbeat_interval_seconds : N;
  prs_lease_seconds : N
}.
Definition PairResponse_validate (p : PairResponse) : wresult unit :=
  reject_if (prs_api_version p != WORKER_API_VERSION) (UnsupportedWorkerApiVersion (prs_api_version p));;
  for_each (λ '(field, id), reject_if (uuid_is_nil id) (NilIdentifier field))
    [(lit "pairingId", prs_pairing_id p); (lit "controllerId", prs_controller_id p);
     (lit "nodeId", prs_node_id p)];;
  reject_if (negb (valid_sha256 (prs_credential_sha256 p))) InvalidCredentialDigest;;
  reject_if ((prs_heartbeat_interval_seconds p == 0%N) || (prs_lease_seconds p == 0%N))
    (InvalidLimits (lit "heartbeat and lease intervals must be greater than zero"));;
  reject_if (prs_lease_seconds p <=? prs_heartbeat_interval_seconds p)%N
    (InvalidLimits (lit "heartbeat interval must be shorter than the lease interval")).

Record PairAckRequest := {
  par_api_version : rstr;
  par_pairing_id : Uuid;
  par_node_id : Uuid;
  par_credential_sha256 : rstr
}.
Definition PairAckRequest_validate (p : PairAckRequest) : wresult unit :=
  reject_if (par_api_version p != WORKER_API_VERSION) (UnsupportedWorkerApiVersion (par_api_version p));;
  reject_if (uuid_is_nil (par_pairing_id p)) (NilIdentifier (lit "pairingId"));;
  reject_if (uuid_is_nil (par_node_id p)) (NilIdentifier (lit "nodeId"));;
  reject_if (negb (valid_sha256 (par_credential_sha256 p))) InvalidCredentialDigest.

Record PairAckResponse := {
  pas_api_version : rstr;
  pas_pairing_id : Uuid;
  pas_node_id : Uuid;
  pas_credential_sha256 : rstr;
  pas_acknowledged_at : DateTime
}.
Definition PairAckResponse_validate (p : PairAckResponse) : wresult unit :=
  PairAckRequest_validate
    {| par_api_version := pas_api_version p; par_pairing_id := pas_pairing_id p;
       par_node_id := pas_node_id p; par_credential_sha256 := pas_credential_sha256 p |}.

(** ** Claims and reports *)
Record ClaimRequest := { cr_probe : ProbeReport; cr_active_run_ids : list Uuid }.
Definition ClaimRequest_validate (c : ClaimRequest) : wresult unit :=
  ProbeReport_validate (cr_probe c);;
  reject_if (any_repeated (cr_active_run_ids c)) DuplicateActiveRun.

Record NodeReportRequest := {
  nr_api_version : rstr;
  nr_inventory : option NodeInventory;
  nr_telemetry : NodeTelemetry
}.
Definition NodeReportRequest_validate (r : NodeReportRequest) : wresult unit :=
  let t := nr_telemetry r in
  reject_if (nr_api_version r != WORKER_API_VERSION) (UnsupportedWorkerApiVersion (nr_api_version r));;
  reject_if (uuid_is_nil (tel_boot_id t)) (InvalidNodeReport (lit "bootId must be non-nil"));;
  reject_if (tel_sequence t == 0%N) (InvalidNodeReport (lit "sequence must be greater than zero"));;
  reject_if ((MAX_SAFE_JSON_INTEGER <? tel_boot_generation t)%N
             || (MAX_SAFE_JSON_INTEGER <? tel_sequence t)%N)
    (InvalidNodeReport (lit "bootGeneration and sequence must not exceed the exact JSON integer limit 9007199254740991"));;
  map_err (λ _, InvalidNodeReport (lit "invalid telemetry")) (NodeTelemetry_validate_shape t);;
  match nr_inventory r with
  | None => Ok tt
  | Some inventory =>
      map_err (λ _, InvalidNodeReport (lit "invalid inventory")) (NodeInventory_validate inventory);;
      reject_if ((inv_logical_cpu_cores inventory == 0%N) || (inv_memory_mib inventory == 0%N)
                 || (inv_disk_mib inventory == 0%N))
        (InvalidNodeReport (lit "inventory totals must be greater than zero"));;
      map_err (λ _, InvalidNodeReport (lit "inventory mismatch")) (NodeTelemetry_validate t inventory)
  end.

(** ** Assignments *)
Record WorkspaceAssignment := {
  ws_relative_root : rstr;
  ws_source_directory : rstr;
  ws_logs_directory : rstr;
  ws_artifacts_directory : rstr
}.
Definition WorkspaceAssignment_validate (w : WorkspaceAssignment) : wresult unit :=
  for_each (λ '(field, value), map_err (InvalidWorkspacePath field) (validate_portable_relative_path value))
    [(lit "relativeRoot", ws_relative_root w); (lit "sourceDirectory", ws_source_directory w);
     (lit "logsDirectory", ws_logs_directory w); (lit "artifactsDirectory", ws_artifacts_directory w)].

Record ExecutionLimits := {
  lim_job_timeout_seconds : N;
  lim_max_log_bytes : N;
  lim_max_artifact_bytes : N;
  lim_max_artifact_count : N
}.
Definition ExecutionLimits_default : ExecutionLimits :=
  {| lim_job_timeout_seconds := 86400; lim_max_log_bytes := 16 * 1024 * 1024;
     lim_max_artifact_bytes := 2 * 1024 * 1024 * 1024; lim_max_artifact_count := 1000 |}.
Definition ExecutionLimits_validate (l : ExecutionLimits) : wresult unit :=
  reject_if ((lim_job_timeout_seconds l == 0%N) || (86400 <? lim_job_timeout_seconds l)%N
             || (lim_max_log_bytes l == 0%N) || (lim_max_artifact_bytes l == 0%N)
             || (lim_max_artifact_count l == 0%N))
    (InvalidLimits (lit "execution limits must be non-zero and jobTimeoutSeconds must not exceed 86400")).

Record ClaimAssignment := {
  ca_job_id : Uuid;
  ca_run_id : Uuid;
  ca_job_digest : rstr;
  ca_lease_id : Uuid;
  ca_lease_until : DateTime;
  ca_state_version : N;
  ca_job_spec : JobSpec;
  ca_workspace : WorkspaceAssignment;
  ca_limits : ExecutionLimits
}.
Record ClaimResponse := { crs_assignment : option ClaimAssignment; crs_retry_after_seconds : N }.

Section assignment.
Context `{SerdeJsonCrate, DigestCrate}.

Definition ClaimAssignment_validate (a : ClaimAssignment) : wresult unit :=
  reject_if (job_id (ca_job_spec a) != ca_job_id a) JobIdMismatch;;
  map_err (λ _, InvalidJobDigest) (validate_lower_hex (ca_job_digest a) 64);;
  map_err (λ e, InvalidJobSpec (ValidationError.display e)) (JobSpec_validate (ca_job_spec a));;
  actual ← map_err (λ e, InvalidJobSpec (json_error_display e)) (canonical_job_digest (ca_job_spec a));
  reject_if (actual != ca_job_digest a) JobDigestMismatch;;
  WorkspaceAssignment_validate (ca_workspace a);;
  ExecutionLimits_validate (ca_limits a).

Definition ClaimResponse_validate (c : ClaimResponse) : wresult unit :=
  reject_if ((crs_retry_after_seconds c == 0%N) || (3600 <? crs_retry_after_seconds c)%N)
    InvalidRetryInterval;;
  match crs_assignment c with
  | Some assignment => ClaimAssignment_validate assignment
  | None => Ok tt
  end.
End assignment.

(** ** Heartbeats *)
Record HeartbeatRequest := {
  hb_run_id : Uuid;
  hb_lease_id : Uuid;
  hb_expected_version : N;
  hb_state : JobState.t;
  hb_probe : option ProbeReport;
  hb_last_log_sequence : option N
}.
Definition HeartbeatRequest_validate (h : HeartbeatRequest) : wresult unit :=
  reject_if (JobState.is_terminal (hb_state h)) TerminalHeartbeat;;
  match hb_probe h with Some probe => ProbeReport_validate probe | None => Ok tt end.

Record HeartbeatResponse := {
  hbr_cancel_requested : bool;
  hbr_current_version : N;
  hbr_lease_until : DateTime
}.

(** ** Specification *)

(** What a probe says about its machine. *)
Definition probe_ok (p : ProbeReport) : Prop :=
  let r := probe_resources p in
  probe_protocol_version p = PROTOCOL_VERSION ∧
  blank (probe_agent_version p) = false ∧ blank (probe_hostname p) = false ∧
  Forall (λ c, blank c = false) (probe_capabilities p) ∧
  (1 ≤ res_logical_cpu_cores r ∧ res_available_cpu_cores r ≤ res_logical_cpu_cores r ∧
   1 ≤ res_memory_mib r ∧ res_available_memory_mib r ≤ res_memory_mib r ∧
   1 ≤ res_disk_mib r ∧ res_available_disk_mib r ≤ res_disk_mib r ∧
   load_cpu_percent (probe_load p) ≤ 100)%N ∧
  Forall (λ g, (gpu_available_vram_mib g ≤ gpu_total_vram_mib g)%N) (res_gpus r).

Lemma ProbeReport_validate_Ok p : ProbeReport_validate p = Ok tt ↔ probe_ok p.
Proof.
  unfold ProbeReport_validate, probe_ok, Capability_is_valid. cbv zeta.
  rewrite !bind_unit_Ok, !reject_if_Ok, !orb_false_iff, negb_bool_decide_false, !bool_decide_eq_false,
    !existsb_false, !N.ltb_ge.
  setoid_rewrite negb_involutive. setoid_rewrite N.ltb_ge.
  assert (∀ n : N, n ≠ 0%N ↔ (1 ≤ n)%N) as Hpos by lia. rewrite !Hpos. tauto.
Qed.

(** An assignment the worker accepts. *)
Definition assignment_ok `{SerdeJsonCrate, DigestCrate} (a : ClaimAssignment) : Prop :=
  job_id (ca_job_spec a) = ca_job_id a ∧ valid_job (ca_job_spec a) ∧
  canonical_job_digest (ca_job_spec a) = Ok (ca_job_digest a) ∧ hex_string 64 (ca_job_digest a) ∧
  Forall (λ d, portable d) [ws_relative_root (ca_workspace a); ws_source_directory (ca_workspace a);
    ws_logs_directory (ca_workspace a); ws_artifacts_directory (ca_workspace a)] ∧
  (1 ≤ lim_job_timeout_seconds (ca_limits a) ≤ 86400 ∧ 1 ≤ lim_max_log_bytes (ca_limits a) ∧
   1 ≤ lim_max_artifact_bytes (ca_limits a) ∧ 1 ≤ lim_max_artifact_count (ca_limits a))%N.

Lemma validate_lower_hex_Ok {E} (e : E) value n :
  map_err (λ _, e) (validate_lower_hex value (N.of_nat n)) = Ok tt ↔ hex_string n value.
Proof.
  rewrite map_err_Ok, <-lower_hex_of_len_spec. unfold validate_lower_hex.
  by destruct (lower_hex_of_len _ _).
Qed.

Lemma validate_path_Ok {E} (f : PortablePathError.t → E) p :
  map_err f (validate_portable_relative_path p) = Ok tt ↔ portable p.
Proof.
  rewrite map_err_Ok. unfold validate_portable_relative_path.
  rewrite validate_portable_relative_Ok. naive_solver.
Qed.

Lemma WorkspaceAssignment_validate_Ok w :
  WorkspaceAssignment_validate w = Ok tt ↔
  Forall (λ d, portable d) [ws_relative_root w; ws_source_directory w; ws_logs_directory w;
                            ws_artifacts_directory w].
Proof.
  unfold WorkspaceAssignment_validate. rewrite for_each_Ok, !Forall_cons, !Forall_nil.
  by rewrite !validate_path_Ok.
Qed.

Lemma ExecutionLimits_validate_Ok l :
  ExecutionLimits_validate l = Ok tt ↔
  (1 ≤ lim_job_timeout_seconds l ≤ 86400 ∧ 1 ≤ lim_max_log_bytes l ∧
   1 ≤ lim_max_artifact_bytes l ∧ 1 ≤ lim_max_artifact_count l)%N.
Proof.
  unfold ExecutionLimits_validate.
  rewrite reject_if_Ok, !orb_false_iff, !bool_decide_eq_false, N.ltb_ge.
  assert (∀ n : N, n ≠ 0%N ↔ (1 ≤ n)%N) as Hpos by lia. rewrite !Hpos. tauto.
Qed.

#[local] Opaque JobSpec_validate canonical_job_digest.

Lemma ClaimAssignment_validate_Ok `{SerdeJsonCrate, DigestCrate} (a : ClaimAssignment) :
  ClaimAssignment_validate a = Ok tt ↔ assignment_ok a.
Proof.
  unfold ClaimAssignment_validate, assignment_ok.
  rewrite !bind_unit_Ok, reject_if_Ok, negb_bool_decide_false, (validate_lower_hex_Ok _ _ 64),
    map_err_Ok, JobSpec_validate_Ok, bind_Ok.
  split.
  - intros (Hid & Hhex & Hv & actual & Hd & Hrest). apply map_err_Ok in Hd.
    rewrite !bind_unit_Ok, reject_if_Ok, negb_bool_decide_false, WorkspaceAssignment_validate_Ok,
      ExecutionLimits_validate_Ok in Hrest. destruct Hrest as (-> & Hw & Hl). tauto.
  - intros (Hid & Hv & Hd & Hhex & Hw & Hl). split; [done|]. split; [done|]. split; [done|].
    exists (ca_job_digest a). rewrite map_err_Ok. split; [done|].
    rewrite !bind_unit_Ok, reject_if_Ok, negb_bool_decide_false, WorkspaceAssignment_validate_Ok,
      ExecutionLimits_validate_Ok. done.
Qed.

(** ** Properties *)

(** No substitution: a worker accepts an assignment exactly when the job it
    carries has the assigned identifier, is valid, and has the assigned digest
    as its canonical digest, all directories are portable (so they stay below the
    worker's root), and the limits are positive with at most a day of run time. *)
Theorem claim_assignment_spec `{SerdeJsonCrate, DigestCrate} (a : ClaimAssignment) :
  ClaimAssignment_validate a = Ok tt ↔ assignment_ok a.
Proof. apply ClaimAssignment_validate_Ok. Qed.

(** An accepted report is mergeable: a report with an inventory that
    validates joins with any valid controller configuration of a non-nil node
    into a merged view, so [merge] never rejects what the report validator let
    through. *)
Theorem accepted_report_merges `{ChronoCrate} (r : NodeReportRequest) (inventory : NodeInventory)
    (config : NodeConfig) (id : Uuid) (received_at now : DateTime) (ttl : N)
    (Hreport : NodeReportRequest_validate r = Ok tt) (Hinv : nr_inventory r = Some inventory)
    (Hconfig : NodeConfig_validate config = Ok tt) (Hid : id ≠ 0%N) :
  ∃ v, NodeMergeView_merge id config inventory (nr_telemetry r) received_at now ttl = Ok v ∧
       view_telemetry v = nr_telemetry r ∧
       (0 < inv_logical_cpu_cores (view_inventory v))%N.
Proof.
  unfold NodeReportRequest_validate in Hreport. rewrite Hinv in Hreport.
  rewrite !bind_unit_Ok, !map_err_Ok, !reject_if_Ok, !orb_false_iff, !bool_decide_eq_false in Hreport.
  destruct Hreport as (_ & _ & _ & _ & _ & Hi & [[Hcpu _] _] & Ht).
  unfold NodeMergeView_merge, uuid_is_nil. rewrite bool_decide_eq_false_2 by done.
  cbn [reject_if mbind result_bind]. rewrite Hconfig, Hi, Ht. cbn [mbind result_bind].
  eexists. split; [reflexivity|]. cbn. split; [done|lia].
Qed.

(** A pairing or claim is only taken from a sane machine: an accepted
    [PairRequest] names a pairing and a node, commits to a SHA-256 of the
    credential, and its probe passes [probe_ok] (current protocol, non-blank
    identity, positive totals, no availability above its total); an accepted
    claim carries such a probe and distinct active runs. *)
Theorem accepted_probe_is_sane (p : PairRequest) (c : ClaimRequest) :
  (PairRequest_validate p = Ok tt ↔
   pr_pairing_id p ≠ 0%N ∧ pr_intended_node_id p ≠ 0%N ∧ hex_string 64 (pr_credential_sha256 p) ∧
   (∀ name, pr_display_name p = Some name → bad_text 128 name = false) ∧ probe_ok (pr_probe p)) ∧
  (ClaimRequest_validate c = Ok tt ↔ probe_ok (cr_probe c) ∧ NoDup (cr_active_run_ids c)).
Proof.
  unfold PairRequest_validate, ClaimRequest_validate, valid_sha256, uuid_is_nil.
  by rewrite !bind_unit_Ok, !reject_if_Ok, !ProbeReport_validate_Ok, !bool_decide_eq_false,
    negb_false_iff, (lower_hex_of_len_spec 64), is_some_and_false, any_repeated_false.
Qed.

(** ** Witness *)
#[local] Existing Instance Concrete.chrono_crate.
Definition sample_report : NodeReportRequest :=
  let t := NodeTelemetry_from_node legacy_node 0%Z in
  {| nr_api_version := WORKER_API_VERSION;
     nr_inventory := Some (NodeInventory_from_node legacy_node);
     nr_telemetry :=
       {| tel_status := tel_status t; tel_available_cpu_cores := tel_available_cpu_cores t;
          tel_available_memory_mib := tel_available_memory_mib t;
          tel_available_disk_mib := tel_available_disk_mib t; tel_gpus := tel_gpus t;
          tel_load := tel_load t; tel_cached_sources := []; tel_observed_at := 0%Z;
          tel_boot_generation := 1; tel_boot_id := 9%N; tel_sequence := 1; tel_cpu_ewma_percent := 10;
          tel_active_run_ids := []; tel_power_source := PowerSource.Ac; tel_battery := None;
          tel_temperature_c := Some 55%Z |} |}.

Lemma accepted_report_merges_witness :
  ∃ v, NodeMergeView_merge 5%N (NodeConfig_from_node legacy_node) (NodeInventory_from_node legacy_node)
         (nr_telemetry sample_report) 1000%Z 1500%Z 15000000000%N = Ok v.
Proof.
  destruct (accepted_report_merges sample_report (NodeInventory_from_node legacy_node)
    (NodeConfig_from_node legacy_node) 5%N 1000%Z 1500%Z 15000000000%N) as (v & Hv & _);
    [by vm_compute|reflexivity|by vm_compute|done|].
  exists v. exact Hv.
Defined.
