(* ===== verification/WorkerRun.v ===== *)
(** The worker wire contract, run evidence: [crates/cyc-protocol/src/worker.rs]
    from [RunEvidence] to [RunCompletion].

    A completion carries the outcome of a run, how its processes ended, what its
    steps and streams did, and the artifact manifest.  The theorems connect an
    accepted completion to the persisted run ([Run::validate]) and to the
    manifest and logs it stands for. *)
From Stdlib Require Import ZArith NArith Lia String.
From stdpp Require Import base option list numbers sets gmap.
From S2P Require Import Prelude Text Crates Protocol PortablePath Snapshot RunState WorkerReports.
Import WorkerValidationError.
Open Scope rust_scope.

Record RunEvidence := {
  ev_started_at : option DateTime;
  ev_finished_at : option DateTime;
  ev_exit_code : option Z;
  ev_error : option rstr;
  ev_artifact_ids : list Uuid
}.
Definition RunEvidence_from_run (r : Run) : RunEvidence :=
  {| ev_started_at := run_started_at r; ev_finished_at := run_finished_at r;
     ev_exit_code := run_exit_code r; ev_error := run_error r; ev_artifact_ids := run_artifact_ids r |}.
Definition apply_to_run (e : RunEvidence) (r : Run) : Run :=
  {| run_id := run_id r; run_job_id := run_job_id r; run_node_id := run_node_id r;
     run_state := run_state r; run_created_at := run_created_at r;
     run_started_at := ev_started_at e; run_finished_at := ev_finished_at e;
     run_exit_code := ev_exit_code e; run_error := ev_error e;
     run_placement := run_placement r; run_artifact_ids := ev_artifact_ids e |}.

(** [iter.collect::<BTreeSet<_>>().len() != len] *)
Definition set_of {A} `{Countable A} (l : list A) : gset A := list_to_set l.
Definition set_len_differs {A} `{Countable A} (l : list A) : bool := size (set_of l) != length l.

(** [RunEvidence::validate_for] *)
Definition validate_for (e : RunEvidence) (state : JobState.t) : wresult unit :=
  reject_if (set_len_differs (ev_artifact_ids e)) DuplicateArtifactId;;
  reject_if (is_some_and (option_zip (ev_started_at e) (ev_finished_at e)) (λ '(s, f), (f <? s)%Z))
    (InvalidRunEvidence (lit "finishedAt must not be earlier than startedAt"));;
  match state with
  | JobState.Succeeded =>
      reject_if (is_none (ev_started_at e) || is_none (ev_finished_at e) || (ev_exit_code e != Some 0%Z)
                 || is_some_and (ev_error e) (λ x, negb (is_empty x)))
        (InvalidRunEvidence (lit "succeeded requires startedAt, finishedAt, exitCode 0, and no error"))
  | JobState.Failed =>
      let has_failure := is_some_and (ev_exit_code e) (λ c, c != 0%Z)
                         || is_some_and (ev_error e) (λ x, negb (blank x)) in
      reject_if (is_none (ev_finished_at e) || negb has_failure)
        (InvalidRunEvidence (lit "failed requires finishedAt and a non-zero exitCode or non-empty error"))
  | JobState.Cancelled =>
      reject_if (is_none (ev_finished_at e)) (InvalidRunEvidence (lit "cancelled requires finishedAt"))
  | JobState.Running | JobState.Verifying =>
      reject_if (is_none (ev_started_at e) || is_some (ev_finished_at e))
        (InvalidRunEvidence (lit "active states require startedAt and no finishedAt"))
  | JobState.Queued | JobState.Preparing =>
      reject_if (is_some (ev_finished_at e))
        (InvalidRunEvidence (lit "queued/preparing states must not contain finishedAt"))
  end.

Record StateUpdate := {
  su_run_id : Uuid;
  su_lease_id : Uuid;
  su_expected_version : N;
  su_next_state : JobState.t;
  su_evidence : option RunEvidence
}.
Definition StateUpdate_validate (u : StateUpdate) : wresult unit :=
  reject_if (JobState.is_terminal (su_next_state u) && is_none (su_evidence u)) MissingTerminalEvidence;;
  match su_evidence u with Some e => validate_for e (su_next_state u) | None => Ok tt end.

(** ** Logs *)
Module LogStream.
Inductive t := Stdout | Stderr | System.
#[export] Instance eq_dec : EqDecision t.
Proof. solve_decision. Defined.
End LogStream.
Export (hints) LogStream.

Record LogRecord := {
  log_sequence : N;
  log_recorded_at : DateTime;
  log_stream : LogStream.t;
  log_message : rstr
}.
Record LogBatch := { lb_run_id : Uuid; lb_lease_id : Uuid; lb_records : list LogRecord }.
Record LogMetadata := {
  lm_first_sequence : N;
  lm_last_sequence : N;
  lm_record_count : N;
  lm_byte_count : N;
  lm_truncated : bool
}.

(** [for window in records.windows(2)] *)
Fixpoint check_windows (records : list LogRecord) : wresult unit :=
  match records with
  | a :: ((b :: _) as rest) =>
      reject_if (log_sequence b != u64_saturating_add (log_sequence a) 1) NonContiguousLogSequence;;
      check_windows rest
  | _ => Ok tt
  end.
Definition LogBatch_validate (b : LogBatch) : wresult unit :=
  reject_if (is_empty (lb_records b)) EmptyLogBatch;;
  check_windows (lb_records b).

(** [Iterator::sum] of [u64]s wraps in a release build. *)
Definition u64_sum (l : list N) : N := (foldr N.add 0 l mod (u64_max + 1))%N.

Definition LogBatch_metadata (b : LogBatch) (truncated : bool) : LogMetadata :=
  {| lm_first_sequence := unwrap_or (log_sequence <$> head (lb_records b)) 0%N;
     lm_last_sequence := unwrap_or (log_sequence <$> last (lb_records b)) 0%N;
     lm_record_count := N.of_nat (length (lb_records b));
     lm_byte_count := u64_sum (map (λ r, len (log_message r)) (lb_records b));
     lm_truncated := truncated |}.

Definition LogMetadata_validate (m : LogMetadata) : wresult unit :=
  if lm_record_count m == 0%N then
    reject_if ((lm_first_sequence m != 0%N) || (lm_last_sequence m != 0%N) || (lm_byte_count m != 0%N))
      InvalidLogMetadata
  else
    reject_if ((lm_last_sequence m <? lm_first_sequence m)%N
               || (u64_saturating_add (saturating_sub (lm_last_sequence m) (lm_first_sequence m)) 1
                     != lm_record_count m))
      InvalidLogMetadata.

(** ** Execution evidence *)
Record ExecutionSourceEvidence := {
  xs_kind : rstr;
  xs_repository : rstr;
  xs_requested_revision : rstr;
  xs_resolved_revision : rstr;
  xs_tree : rstr;
  xs_git_version : rstr
}.
Definition ExecutionSourceEvidence_validate (s : ExecutionSourceEvidence) : wresult unit :=
  reject_if (blank (xs_kind s) || blank (xs_repository s) || blank (xs_git_version s)
             || existsb is_control (xs_kind s ++ xs_repository s) || has_control (xs_git_version s)
             || (512 <? len (xs_git_version s))%N)
    (InvalidExecutionEvidence (lit "source identity contains an empty, control, or oversized field"));;
  if xs_kind s == lit "git" then
    reject_if (negb (valid_object_id (xs_requested_revision s))
               || negb (is_empty (xs_resolved_revision s)) && negb (valid_object_id (xs_resolved_revision s))
               || negb (is_empty (xs_tree s)) && negb (valid_object_id (xs_tree s)))
      (InvalidExecutionEvidence (lit "Git revisions and tree must be complete lowercase object IDs"))
  else if xs_kind s == lit "snapshot" then
    let unresolved := is_empty (xs_resolved_revision s) && is_empty (xs_tree s) in
    let resolved := (xs_resolved_revision s == xs_requested_revision s)
                    && (xs_tree s == xs_requested_revision s) in
    reject_if ((xs_repository s != lit "snapshot") || (xs_git_version s != lit "not-applicable")
               || negb (unresolved || resolved)
               || is_none_or (strip_prefix (lit "sha256:") (xs_requested_revision s))
                    (λ digest, negb (is_ok (validate_lower_hex digest 64))))
      (InvalidExecutionEvidence (lit "snapshot source identity is invalid"))
  else Err (InvalidExecutionEvidence (lit "source kind is unsupported")).

Module TerminationReason.
Inductive t :=
| Exited | TimedOut | CancelRequested | LeaseLost | TransportFailure | SourcePreparationFailed
| ExecutionFailed | ArtifactVerificationFailed.
#[export] Instance eq_dec : EqDecision t.
Proof. solve_decision. Defined.
End TerminationReason.
Export (hints) TerminationReason.

Record StepExecutionEvidence := {
  se_index : N;
  se_name : rstr;
  se_shell : Shell.t;
  se_started_at : DateTime;
  se_finished_at : DateTime;
  se_exit_code : option Z;
  se_termination : TerminationReason.t
}.
Definition StepExecutionEvidence_validate (s : StepExecutionEvidence) : wresult unit :=
  reject_if (blank (se_name s) || has_control (se_name s))
    (InvalidExecutionEvidence (lit "step name is empty or contains a control character"));;
  reject_if (se_finished_at s <? se_started_at s)%Z
    (InvalidExecutionEvidence (lit "step finishedAt precedes startedAt")).

Record StreamEvidence := {
  st_byte_count : N;
  st_sha256 : rstr;
  st_truncated : bool;
  st_chunk_count : N
}.
Definition empty_sha256 : rstr :=
  lit "e3b0c44298fc1c149afbf4c8996fb92427ae41e4649b934ca495991b7852b855".
Definition StreamEvidence_validate (s : StreamEvidence) : wresult unit :=
  map_err (λ _, InvalidStreamEvidence (lit "invalid sha256")) (validate_lower_hex (st_sha256 s) 64);;
  reject_if (negb (eqb (st_byte_count s == 0%N) (st_chunk_count s == 0%N)))
    (InvalidStreamEvidence (lit "byteCount and chunkCount zero state is inconsistent"));;
  reject_if ((st_byte_count s == 0%N) && (st_sha256 s != empty_sha256))
    (InvalidStreamEvidence (lit "empty stream must use the SHA-256 of empty bytes")).

Record RunStreamsEvidence := { rs_stdout : StreamEvidence; rs_stderr : StreamEvidence }.
Definition RunStreamsEvidence_validate (r : RunStreamsEvidence) : wresult unit :=
  StreamEvidence_validate (rs_stdout r);;
  StreamEvidence_validate (rs_stderr r).

Record TerminationEvidence := {
  te_reason : TerminationReason.t;
  te_process_tree_terminated : bool;
  te_forced_kill : bool;
  te_root_exit_code : option Z;
  te_signal : option Z;
  te_observed_at : DateTime
}.
Definition TerminationEvidence_validate (t : TerminationEvidence) : wresult unit :=
  reject_if (te_forced_kill t && negb (te_process_tree_terminated t))
    (InvalidExecutionEvidence (lit "forcedKill requires processTreeTerminated"));;
  reject_if (is_some_and (te_signal t) (λ s, (s <=? 0)%Z))
    (InvalidExecutionEvidence (lit "signal must be positive when present"));;
  reject_if (match te_reason t with
             | TerminationReason.TimedOut | TerminationReason.CancelRequested
             | TerminationReason.LeaseLost => true
             | _ => false
             end && negb (te_process_tree_terminated t))
    (InvalidExecutionEvidence (lit "cancel and timeout termination must cover the process tree")).

Record ExecutionEvidence := {
  xe_source : ExecutionSourceEvidence;
  xe_steps : list StepExecutionEvidence;
  xe_streams : RunStreamsEvidence;
  xe_termination : TerminationEvidence
}.
Definition ExecutionEvidence_validate (x : ExecutionEvidence) : wresult unit :=
  ExecutionSourceEvidence_validate (xe_source x);;
  RunStreamsEvidence_validate (xe_streams x);;
  TerminationEvidence_validate (xe_termination x);;
  for_each_i (λ index step,
    StepExecutionEvidence_validate step;;
    reject_if (se_index step != N.of_nat index)
      (InvalidExecutionEvidence (lit "step indices must start at zero and be contiguous")))
    (xe_steps x).

(** ** Artifacts and completion *)
Record ArtifactMetadata := {
  am_id : Uuid;
  am_run_id : Uuid;
  am_relative_path : rstr;
  am_size_bytes : N;
  am_sha256 : rstr;
  am_media_type : option rstr;
  am_created_at : DateTime
}.
Definition ArtifactMetadata_validate (a : ArtifactMetadata) : wresult unit :=
  map_err InvalidArtifactPath (validate_portable_relative_path (am_relative_path a));;
  reject_if (existsb (λ segment, segment == lit ".git") (split SLASH (am_relative_path a)))
    GitMetadataArtifact;;
  map_err (λ _, InvalidArtifactDigest) (validate_lower_hex (am_sha256 a) 64);;
  reject_if (is_some_and (am_media_type a) (λ m, blank m || has_control m)) InvalidMediaType.

Record RunCompletion := {
  rc_run_id : Uuid;
  rc_lease_id : Uuid;
  rc_expected_version : N;
  rc_final_state : JobState.t;
  rc_evidence : RunEvidence;
  rc_execution : ExecutionEvidence;
  rc_artifacts : list ArtifactMetadata
}.

(** The manifest comparison at the end of [RunCompletion::validate]. *)
Definition manifest_mismatch (c : RunCompletion) : bool :=
  let metadata_ids := map am_id (rc_artifacts c) in
  let evidence_ids := ev_artifact_ids (rc_evidence c) in
  let metadata_paths := map am_relative_path (rc_artifacts c) in
  (size (set_of metadata_ids) != length (rc_artifacts c))
  || (size (set_of metadata_paths) != length (rc_artifacts c))
  || (size (set_of evidence_ids) != length evidence_ids)
  || (set_of metadata_ids != set_of evidence_ids).

Definition RunCompletion_validate (c : RunCompletion) : wresult unit :=
  let t := xe_termination (rc_execution c) in
  reject_if (negb (JobState.is_terminal (rc_final_state c))) NonTerminalCompletion;;
  validate_for (rc_evidence c) (rc_final_state c);;
  ExecutionEvidence_validate (rc_execution c);;
  reject_if (negb (te_process_tree_terminated t))
    (InvalidExecutionEvidence (lit "terminal completion must prove process-tree cleanup"));;
  reject_if (te_root_exit_code t != ev_exit_code (rc_evidence c))
    (InvalidExecutionEvidence (lit "termination rootExitCode must match run exitCode"));;
  reject_if (is_some_and (ev_finished_at (rc_evidence c)) (λ finished, (te_observed_at t <? finished)%Z))
    (InvalidExecutionEvidence (lit "termination observedAt precedes run finishedAt"));;
  reject_if ((rc_final_state c == JobState.Succeeded)
             && ((te_reason t != TerminationReason.Exited) || (te_root_exit_code t != Some 0%Z)
                 || te_forced_kill t
                 || existsb (λ step, (se_exit_code step != Some 0%Z)
                                     || (se_termination step != TerminationReason.Exited))
                      (xe_steps (rc_execution c))))
    (InvalidExecutionEvidence (lit "succeeded completion requires clean exited execution evidence"));;
  reject_if (existsb (λ a, am_run_id a != rc_run_id c) (rc_artifacts c)) ArtifactRunMismatch;;
  for_each ArtifactMetadata_validate (rc_artifacts c);;
  reject_if (manifest_mismatch c) ArtifactManifestMismatch.

(** ** Specification *)

(** The outcome fits the state and the times are ordered. *)
Definition evidence_ok (e : RunEvidence) (state : JobState.t) : Prop :=
  NoDup (ev_artifact_ids e) ∧
  (∀ s f, ev_started_at e = Some s → ev_finished_at e = Some f → (s ≤ f)%Z) ∧
  match state with
  | JobState.Succeeded =>
      is_Some (ev_started_at e) ∧ is_Some (ev_finished_at e) ∧ ev_exit_code e = Some 0%Z ∧
      (ev_error e = None ∨ ev_error e = Some [])
  | JobState.Failed =>
      is_Some (ev_finished_at e) ∧
      ((∃ c, ev_exit_code e = Some c ∧ c ≠ 0%Z) ∨ (∃ x, ev_error e = Some x ∧ blank x = false))
  | JobState.Cancelled => is_Some (ev_finished_at e)
  | JobState.Running | JobState.Verifying => is_Some (ev_started_at e) ∧ ev_finished_at e = None
  | JobState.Queued | JobState.Preparing => ev_finished_at e = None
  end.

(** The evidence is not older than the run. *)
Definition evidence_after (e : RunEvidence) (created : DateTime) : Prop :=
  (∀ s, ev_started_at e = Some s → created ≤ s)%Z ∧ (∀ f, ev_finished_at e = Some f → created ≤ f)%Z.

(** One artifact of the manifest. *)
Definition artifact_ok (a : ArtifactMetadata) : Prop :=
  portable (am_relative_path a) ∧ (lit ".git" ∉ split SLASH (am_relative_path a)) ∧
  hex_string 64 (am_sha256 a).

(** ** Lemmas *)

Lemma set_of_size {A} `{Countable A} (l : list A) : size (set_of l) = length l ↔ NoDup l.
Proof.
  split; [|apply size_list_to_set].
  assert (∀ l : list A, size (set_of l) ≤ length l) as Hle.
  { clear. induction l as [|x l IH]; [done|]. unfold set_of in *. cbn [list_to_set length].
    rewrite size_union_alt, size_singleton.
    assert (size (list_to_set l ∖ {[x]} : gset A) ≤ size (list_to_set l : gset A))
      by (apply subseteq_size; set_solver). lia. }
  induction l as [|x l IH]; [constructor|]. unfold set_of in *. cbn [list_to_set length].
  specialize (Hle l). intros Hs. constructor.
  - intros Hx. assert ({[x]} ∪ list_to_set l = (list_to_set l : gset A)) as Heq by set_solver.
    rewrite Heq in Hs. lia.
  - apply IH. assert (size ({[x]} ∪ list_to_set l : gset A) ≤ 1 + size (list_to_set l : gset A)).
    { rewrite size_union_alt, size_singleton.
      assert (size (list_to_set l ∖ {[x]} : gset A) ≤ size (list_to_set l : gset A))
        by (apply subseteq_size; set_solver). lia. }
    lia.
Qed.

Lemma set_len_differs_false {A} `{Countable A} (l : list A) : set_len_differs l = false ↔ NoDup l.
Proof. unfold set_len_differs. by rewrite negb_bool_decide_false, set_of_size. Qed.

Lemma is_Some_is_none {A} (o : option A) : is_none o = false ↔ is_Some o.
Proof. destruct o; cbn; split; try done; eauto. Qed.

Lemma ordered_times (a b : option DateTime) :
  is_some_and (option_zip a b) (λ '(s, f), (f <? s)%Z) = false ↔
  ∀ s f, a = Some s → b = Some f → (s ≤ f)%Z.
Proof.
  rewrite is_some_and_false. split.
  - intros Hz s f -> ->. specialize (Hz (s, f) eq_refl). cbn in Hz. lia.
  - intros Hle [s f] Hz. destruct a, b; try done. injection Hz as -> ->. apply Z.ltb_ge. auto.
Qed.

Lemma validate_for_Ok e state : validate_for e state = Ok tt ↔ evidence_ok e state.
Proof.
  unfold validate_for, evidence_ok.
  rewrite !bind_unit_Ok, !reject_if_Ok, set_len_differs_false, ordered_times.
  destruct state; rewrite reject_if_Ok, ?orb_false_iff, ?is_Some_is_none, ?is_some_false; try tauto.
  - rewrite negb_bool_decide_false.
    enough (is_some_and (ev_error e) (λ x, negb (is_empty x)) = false ↔
            ev_error e = None ∨ ev_error e = Some []) as -> by tauto.
    destruct (ev_error e) as [[|]|]; naive_solver.
  - rewrite negb_false_iff, orb_true_iff, !is_some_and_true.
    setoid_rewrite negb_bool_decide_true. setoid_rewrite negb_true_iff. tauto.
Qed.

(** The persisted run accepts what the wire validator accepted. *)
Lemma evidence_run_validates e r :
  evidence_ok e (run_state r) → evidence_after e (run_created_at r) →
  Run_validate (apply_to_run e r) = Ok tt.
Proof.
  intros (_ & Horder & Hstate) [Hs Hf].
  unfold Run_validate, apply_to_run; cbn [run_started_at run_finished_at run_created_at].
  assert (is_some_and (ev_started_at e) (λ s, (s <? run_created_at r)%Z) = false) as ->
    by (apply is_some_and_false; intros s E; apply Z.ltb_ge; auto).
  assert (is_some_and (ev_finished_at e) (λ s, (s <? run_created_at r)%Z) = false) as ->
    by (apply is_some_and_false; intros s E; apply Z.ltb_ge; auto).
  rewrite (proj2 (ordered_times _ _) Horder). cbn [reject_if mbind result_bind].
  unfold validate_state_evidence, has_nonzero_exit, has_error; cbn.
  destruct (run_state r); cbn in Hstate;
    repeat match goal with
    | H : _ ∧ _ |- _ => destruct H
    | H : is_Some _ |- _ => let E := fresh "E" in destruct H as [? E]; rewrite E
    | H : _ = None |- _ => rewrite H
    | H : ev_exit_code e = Some 0%Z |- _ => rewrite H
    end; try done.
  - match goal with Hd : _ ∨ _ |- _ => destruct Hd as [-> | ->]; done end.
  - cbn [is_none reject_if mbind result_bind]. apply reject_if_Ok, andb_false_iff.
    match goal with Hd : _ ∨ _ |- _ =>
      destruct Hd as [(c & -> & Hc)|(message & -> & Hx)]; [left|right]; cbn end.
    + by rewrite bool_decide_eq_false_2.
    + by rewrite Hx.
Qed.

Lemma ArtifactMetadata_validate_ok a : ArtifactMetadata_validate a = Ok tt → artifact_ok a.
Proof.
  unfold ArtifactMetadata_validate, artifact_ok.
  rewrite !bind_unit_Ok, validate_path_Ok, (validate_lower_hex_Ok _ _ 64), reject_if_Ok, existsb_false,
    Forall_forall.
  intros (Hp & Hg & Hh & _). split_and!; [done| |done].
  intros Hin. specialize (Hg _ Hin). by apply bool_decide_eq_false in Hg.
Qed.

Lemma manifest_mismatch_false c :
  manifest_mismatch c = false →
  NoDup (map am_id (rc_artifacts c)) ∧ NoDup (map am_relative_path (rc_artifacts c)) ∧
  map am_id (rc_artifacts c) ≡ₚ ev_artifact_ids (rc_evidence c).
Proof.
  unfold manifest_mismatch. rewrite !orb_false_iff, !negb_bool_decide_false.
  intros [[[Hid Hpath] Hev] Heq].
  assert (NoDup (map am_id (rc_artifacts c))) as Hnd
    by (apply set_of_size; by rewrite Hid, length_map).
  split_and!; [done|apply set_of_size; by rewrite Hpath, length_map|].
  apply set_of_size in Hev. apply NoDup_Permutation; [done..|]. intros x.
  assert (x ∈ set_of (map am_id (rc_artifacts c)) ↔ x ∈ set_of (ev_artifact_ids (rc_evidence c))) as Hx
    by by rewrite Heq.
  unfold set_of in Hx. by rewrite !elem_of_list_to_set in Hx.
Qed.

(** Contiguous sequences, clamped at [u64::MAX]. *)
Lemma check_windows_sequences first records :
  (log_sequence <$> head records) = Some first → (first ≤ u64_max)%N →
  check_windows records = Ok tt →
  ∀ i r, records !! i = Some r → log_sequence r = N.min (first + N.of_nat i) u64_max.
Proof.
  revert first. induction records as [|a records IH]; intros first Hf Hle Hw i r Hi; [done|].
  cbn in Hf. injection Hf as <-. destruct i as [|i].
  { injection Hi as <-. lia. }
  destruct records as [|b records]; [by destruct i|]. cbn [check_windows] in Hw.
  rewrite bind_unit_Ok, reject_if_Ok, negb_bool_decide_false in Hw. destruct Hw as [Hb Hw].
  unfold u64_saturating_add in Hb.
  rewrite (IH (log_sequence b) eq_refl ltac:(lia) Hw i r Hi). lia.
Qed.

Lemma last_lookup {A} (l : list A) : last l = l !! (length l - 1).
Proof.
  induction l as [|a l IH]; [done|]. destruct l as [|b l]; [done|].
  cbn [last length] in *. rewrite IH. cbn. by rewrite Nat.sub_0_r.
Qed.

(** ** Properties *)

(** What an accepted completion proves: the state is terminal and the
    outcome fits it; the process tree is gone, its exit code is the run's and it
    was observed after the run finished; steps are numbered 0, 1, 2, ... in
    order; a success means a clean exit of the root process and of every step,
    with nothing killed; every artifact belongs to the run, is portable, outside
    [.git] and digested; and the manifest lists exactly the run's artifact
    identifiers, each once, with distinct paths. *)
Theorem completion_sound (c : RunCompletion) (Hc : RunCompletion_validate c = Ok tt) :
  let t := xe_termination (rc_execution c) in
  JobState.is_terminal (rc_final_state c) = true ∧ evidence_ok (rc_evidence c) (rc_final_state c) ∧
  te_process_tree_terminated t = true ∧ te_root_exit_code t = ev_exit_code (rc_evidence c) ∧
  (∀ f, ev_finished_at (rc_evidence c) = Some f → (f ≤ te_observed_at t)%Z) ∧
  (∀ i s, xe_steps (rc_execution c) !! i = Some s → se_index s = N.of_nat i) ∧
  (rc_final_state c = JobState.Succeeded →
     te_reason t = TerminationReason.Exited ∧ te_root_exit_code t = Some 0%Z ∧ te_forced_kill t = false ∧
     Forall (λ s, se_exit_code s = Some 0%Z ∧ se_termination s = TerminationReason.Exited)
       (xe_steps (rc_execution c))) ∧
  Forall (λ a, artifact_ok a ∧ am_run_id a = rc_run_id c) (rc_artifacts c) ∧
  NoDup (map am_relative_path (rc_artifacts c)) ∧
  map am_id (rc_artifacts c) ≡ₚ ev_artifact_ids (rc_evidence c).
Proof.
  cbv zeta. unfold RunCompletion_validate in Hc. cbv zeta in Hc.
  rewrite !bind_unit_Ok, validate_for_Ok, for_each_Ok in Hc.
  destruct Hc as (Hterm & Hev & Hx & Htree & Hexit & Hobs & Hsucc & Hrun & Harts & Hman).
  rewrite reject_if_Ok in Hterm, Htree, Hexit, Hobs, Hsucc, Hrun, Hman.
  rewrite negb_false_iff in Hterm, Htree. rewrite negb_bool_decide_false in Hexit.
  apply manifest_mismatch_false in Hman as (_ & Hpaths & Hids).
  split_and!; try done.
  - intros f Hf. rewrite is_some_and_false in Hobs. specialize (Hobs f Hf). by apply Z.ltb_ge.
  - intros i s Hi. unfold ExecutionEvidence_validate in Hx. rewrite !bind_unit_Ok, for_each_i_Ok in Hx.
    destruct Hx as (_ & _ & _ & Hsteps). specialize (Hsteps i s Hi).
    by rewrite bind_unit_Ok, reject_if_Ok, negb_bool_decide_false in Hsteps; destruct Hsteps.
  - intros Hs. rewrite bool_decide_eq_true_2 in Hsucc by done. cbn [andb] in Hsucc.
    rewrite !orb_false_iff, !negb_bool_decide_false, existsb_false in Hsucc.
    destruct Hsucc as [[[Hr Hcode] Hkill] Hsteps]. split_and!; try done.
    eapply Forall_impl; [exact Hsteps|]. intros s. cbn.
    by rewrite orb_false_iff, !negb_bool_decide_false.
  - rewrite existsb_false in Hrun. rewrite Forall_forall in Harts, Hrun |- *. intros a Ha.
    split; [by apply ArtifactMetadata_validate_ok, Harts|].
    specialize (Hrun a Ha). cbn in Hrun. by rewrite negb_bool_decide_false in Hrun.
Qed.

(** An accepted completion can be persisted: writing its evidence into a run
    that carries the final state and is not younger than the evidence gives a run
    that [Run::validate] accepts, so the wire check and the storage check agree. *)
Theorem completion_run_validates (c : RunCompletion) (r : Run)
    (Hc : RunCompletion_validate c = Ok tt) (Hstate : run_state r = rc_final_state c)
    (Hafter : evidence_after (rc_evidence c) (run_created_at r)) :
  Run_validate (apply_to_run (rc_evidence c) r) = Ok tt ∧
  RunEvidence_from_run (apply_to_run (rc_evidence c) r) = rc_evidence c.
Proof.
  split; [|by destruct c as [? ? ? ? []]].
  apply evidence_run_validates; [|done]. rewrite Hstate.
  unfold RunCompletion_validate in Hc. cbv zeta in Hc. rewrite !bind_unit_Ok, validate_for_Ok in Hc. tauto.
Qed.

(** Log batches: in an accepted batch the i-th record has sequence
    first + i, clamped at [u64::MAX]; and the metadata computed from the batch
    passes its own validator exactly when no clamping happened, that is when
    first + count - 1 fits in 64 bits. *)
Theorem log_batch_metadata (b : LogBatch) (first : LogRecord) (rest : list LogRecord) (truncated : bool)
    (Hrecords : lb_records b = first :: rest) (Hvalid : LogBatch_validate b = Ok tt)
    (Hwidth : (log_sequence first ≤ u64_max)%N)
    (Hcount : (N.of_nat (length (lb_records b)) ≤ u64_max)%N) :
  (∀ i r, lb_records b !! i = Some r →
     log_sequence r = N.min (log_sequence first + N.of_nat i) u64_max) ∧
  (LogMetadata_validate (LogBatch_metadata b truncated) = Ok tt ↔
   (log_sequence first + N.of_nat (length rest) ≤ u64_max)%N).
Proof.
  unfold LogBatch_validate in Hvalid. rewrite bind_unit_Ok in Hvalid. destruct Hvalid as [_ Hw].
  rewrite Hrecords in *.
  pose proof (check_windows_sequences (log_sequence first) (first :: rest) eq_refl Hwidth Hw) as Hseq.
  split; [done|].
  assert (∃ l, last (first :: rest) = Some l ∧
            log_sequence l = N.min (log_sequence first + N.of_nat (length rest)) u64_max) as (l & Hl & Hls).
  { rewrite last_lookup. cbn [length]. rewrite Nat.sub_succ, Nat.sub_0_r.
    destruct (lookup_lt_is_Some_2 (first :: rest) (length rest)) as [l Hl]; [cbn; lia|].
    exists l. split; [done|]. by apply Hseq. }
  unfold LogMetadata_validate, LogBatch_metadata. rewrite Hrecords.
  cbn [lm_record_count lm_first_sequence lm_last_sequence lm_byte_count head fmap option_fmap option_map
    unwrap_or].
  rewrite Hl. cbn [fmap option_fmap option_map unwrap_or]. rewrite Hls. cbn [length] in *.
  rewrite bool_decide_eq_false_2 by lia.
  rewrite reject_if_Ok, orb_false_iff, negb_bool_decide_false, N.ltb_ge.
  unfold u64_saturating_add, saturating_sub. unfold u64_max in *. lia.
Qed.

(** ** Witnesses *)
Definition sample_evidence : RunEvidence :=
  {| ev_started_at := Some 20%Z; ev_finished_at := Some 30%Z; ev_exit_code := Some 0%Z; ev_error := None;
     ev_artifact_ids := [4%N] |}.
Definition sample_stream : StreamEvidence :=
  {| st_byte_count := 0; st_sha256 := empty_sha256; st_truncated := false; st_chunk_count := 0 |}.
Definition sample_completion : RunCompletion :=
  {| rc_run_id := 2%N; rc_lease_id := 3%N; rc_expected_version := 5; rc_final_state := JobState.Succeeded;
     rc_evidence := sample_evidence;
     rc_execution :=
       {| xe_source := {| xs_kind := lit "git"; xs_repository := lit "https://github.com/o/r";
            xs_requested_revision := replicate 40 (chr "a"); xs_resolved_revision := [];
            xs_tree := []; xs_git_version := lit "git version 2.45" |};
          xe_steps := [{| se_index := 0; se_name := lit "build"; se_shell := Shell.Bash;
            se_started_at := 20%Z; se_finished_at := 29%Z; se_exit_code := Some 0%Z;
            se_termination := TerminationReason.Exited |}];
          xe_streams := {| rs_stdout := sample_stream; rs_stderr := sample_stream |};
          xe_termination := {| te_reason := TerminationReason.Exited; te_process_tree_terminated := true;
            te_forced_kill := false; te_root_exit_code := Some 0%Z; te_signal := None;
            te_observed_at := 31%Z |} |};
     rc_artifacts := [{| am_id := 4%N; am_run_id := 2%N; am_relative_path := lit "out/report.txt";
       am_size_bytes := 10; am_sha256 := replicate 64 (chr "b"); am_media_type := None;
       am_created_at := 30%Z |}] |}.

Lemma sample_completion_accepted : RunCompletion_validate sample_completion = Ok tt.
Proof. by vm_compute. Defined.

Lemma completion_sound_witness :
  Forall (λ a, artifact_ok a ∧ am_run_id a = 2%N) (rc_artifacts sample_completion).
Proof. apply (completion_sound sample_completion sample_completion_accepted). Defined.

Definition sample_run : Run :=
  {| run_id := 2%N; run_job_id := 7%N; run_node_id := None; run_state := JobState.Succeeded;
     run_created_at := 10%Z; run_started_at := None; run_finished_at := None; run_exit_code := None;
     run_error := None; run_placement := None; run_artifact_ids := [] |}.

Lemma completion_run_validates_witness :
  Run_validate (apply_to_run (rc_evidence sample_completion) sample_run) = Ok tt.
Proof.
  apply (completion_run_validates sample_completion sample_run sample_completion_accepted);
    [reflexivity|].
  split; intros x Hx; injection Hx as <-; cbn; lia.
Defined.

Definition sample_records : list LogRecord :=
  map (λ n, {| log_sequence := n; log_recorded_at := 0%Z; log_stream := LogStream.Stdout;
               log_message := lit "x" |}) [u64_max; u64_max].

Lemma log_batch_metadata_witness :
  let b := {| lb_run_id := 1%N; lb_lease_id := 2%N; lb_records := sample_records |} in
  LogBatch_validate b = Ok tt ∧ LogMetadata_validate (LogBatch_metadata b false) ≠ Ok tt.
Proof.
  intros b. assert (LogBatch_validate b = Ok tt) as Hb by (by vm_compute).
  split; [exact Hb|]. intros Hm.
  assert (∃ first rest, sample_records = first :: rest ∧ log_sequence first = u64_max ∧ length rest = 1)
    as (first & rest & Hr & Hf & Hl) by (eexists _, _; split; reflexivity || (split; reflexivity)).
  apply (log_batch_metadata b first rest false Hr Hb) in Hm.
  - rewrite Hf, Hl in Hm. vm_compute in Hm. by apply Hm.
  - rewrite Hf. reflexivity || lia.
  - by vm_compute.
Defined.
