(* ===== verification/Cleanup.v ===== *)
(** Post-terminal cleanup receipts: [crates/cyc-protocol/src/cleanup.rs].

    A receipt proves that the workspace of one run is gone, after the controller
    acknowledged the run's completion. *)
From Stdlib Require Import ZArith NArith Lia String.
From stdpp Require Import base option list numbers sets.
From S2P Require Import Prelude Text Crates PortablePath Snapshot RunState.
Open Scope rust_scope.

Definition CLEANUP_API_VERSION : rstr := lit "cyc.dev/cleanup/v1".

Module CleanupValidationError.
Inductive t :=
| UnsupportedApiVersion | InvalidIdentifier | InvalidCompletionDigest | NonTerminalAck
| BindingMismatch | OutcomeMismatch | CleanupBeforeAck.
#[export] Instance eq_dec : EqDecision t.
Proof. solve_decision. Defined.
End CleanupValidationError.
Export (hints) CleanupValidationError.
Import CleanupValidationError.

Record TerminalCompletionAckV1 := {
  ack_run_id : Uuid;
  ack_lease_id : Uuid;
  ack_completion_sha256 : rstr;
  ack_state_version : N;
  ack_final_state : JobState.t;
  ack_acknowledged_at : DateTime
}.
Definition TerminalCompletionAckV1_validate (a : TerminalCompletionAckV1) :
    result CleanupValidationError.t unit :=
  reject_if (uuid_is_nil (ack_run_id a) || uuid_is_nil (ack_lease_id a)) InvalidIdentifier;;
  reject_if ((len (ack_completion_sha256 a) != 64%N)
             || negb (forallb is_lower_hex (bytes (ack_completion_sha256 a)))) InvalidCompletionDigest;;
  reject_if (negb (JobState.is_terminal (ack_final_state a))) NonTerminalAck.

Module JobRootCleanupOutcomeV1.
Inductive t := Removed | NotCreated.
#[export] Instance eq_dec : EqDecision t.
Proof. solve_decision. Defined.
End JobRootCleanupOutcomeV1.
Export (hints) JobRootCleanupOutcomeV1.

Record CleanupReceiptV1 := {
  cl_api_version : rstr;
  cl_run_id : Uuid;
  cl_lease_id : Uuid;
  cl_relative_root : rstr;
  cl_outcome : JobRootCleanupOutcomeV1.t;
  cl_job_root_deleted : bool;
  cl_observed_at : DateTime;
  cl_terminal_ack : TerminalCompletionAckV1
}.

(** [format!("jobs/{}", run_id)] *)
Definition job_root `{UuidCrate} (run_id : Uuid) : rstr := lit "jobs/" ++ uuid_display run_id.

Definition CleanupReceiptV1_validate `{UuidCrate} (r : CleanupReceiptV1) :
    result CleanupValidationError.t unit :=
  let ack := cl_terminal_ack r in
  reject_if (cl_api_version r != CLEANUP_API_VERSION) UnsupportedApiVersion;;
  TerminalCompletionAckV1_validate ack;;
  reject_if ((cl_run_id r != ack_run_id ack) || (cl_lease_id r != ack_lease_id ack)
             || (cl_relative_root r != job_root (cl_run_id r))) BindingMismatch;;
  reject_if (negb (eqb (cl_job_root_deleted r) (cl_outcome r == JobRootCleanupOutcomeV1.Removed)))
    OutcomeMismatch;;
  reject_if (cl_observed_at r <? ack_acknowledged_at ack)%Z CleanupBeforeAck.

Module CleanupStatusPhaseV1.
Inductive t := Pending | Removed | NotCreated.
#[export] Instance eq_dec : EqDecision t.
Proof. solve_decision. Defined.
End CleanupStatusPhaseV1.
Export (hints) CleanupStatusPhaseV1.
Module CleanupReservationReleaseReasonV1.
Inductive t := RemovedReceipt | DeadlineRecovery | LegacyMigration.
#[export] Instance eq_dec : EqDecision t.
Proof. solve_decision. Defined.
End CleanupReservationReleaseReasonV1.
Export (hints) CleanupReservationReleaseReasonV1.

Module CleanupFailureCodeV1.
Inductive t := RemovedReceiptDeadlineExceeded | LegacyReleaseWithoutCleanupEvidence.
#[export] Instance eq_dec : EqDecision t.
Proof. solve_decision. Defined.
End CleanupFailureCodeV1.
Export (hints) CleanupFailureCodeV1.
Record CleanupFailureV1 := { cf_code : CleanupFailureCodeV1.t; cf_observed_at : DateTime }.

(** ** Lemmas *)

Lemma split_app_sep sep a b : sep ∉ a → split sep (a ++ sep :: b) = a :: split sep b.
Proof.
  induction a as [|c a IH]; intros Ha; cbn.
  - by rewrite N.eqb_refl.
  - destruct (N.eqb_spec c sep) as [->|_]; [set_solver|]. rewrite IH by set_solver. done.
Qed.
Lemma split_single sep a : sep ∉ a → split sep a = [a].
Proof.
  induction a as [|c a IH]; intros Ha; cbn; [done|].
  destruct (N.eqb_spec c sep) as [->|_]; [set_solver|]. by rewrite IH by set_solver.
Qed.

Section roots.
Context `{UuidCrateLaws}.

Lemma uuid_display_avoids u c :
  is_lower_hex c = false → c ≠ 45%N → c ∉ uuid_display u.
Proof.
  intros Hhex Hdash Hin. pose proof (uuid_display_chars u) as Hall.
  rewrite Forall_forall in Hall. specialize (Hall c Hin). cbn in Hall.
  rewrite Hhex in Hall. cbn in Hall. by apply N.eqb_eq in Hall.
Qed.

Lemma job_root_segments u : split SLASH (job_root u) = [lit "jobs"; uuid_display u].
Proof.
  unfold job_root. change (lit "jobs/" ++ uuid_display u) with (lit "jobs" ++ SLASH :: uuid_display u).
  rewrite split_app_sep by (apply (bool_decide_unpack _); by vm_compute).
  by rewrite split_single by (by apply uuid_display_avoids).
Qed.

Lemma job_root_portable u : portable (job_root u).
Proof.
  assert (∀ c, c ∉ lit "jobs/" → is_lower_hex c = false → c ≠ 45%N → c ∉ job_root u) as Hno.
  { intros c Hl Hh Hd. unfold job_root. rewrite elem_of_app. intros [?|Hin]; [done|].
    by apply (uuid_display_avoids u c Hh Hd). }
  split_and!.
  - apply Hno; [apply (bool_decide_unpack _); by vm_compute|done..].
  - apply Hno; [apply (bool_decide_unpack _); by vm_compute|done..].
  - done.
  - rewrite job_root_segments. pose proof (uuid_display_len u) as Hlen.
    repeat constructor; try done; intros Heq; rewrite Heq in Hlen; done.
Qed.

Lemma job_root_inj u v : (u < 2 ^ 128)%N → (v < 2 ^ 128)%N → job_root u = job_root v → u = v.
Proof. intros Hu Hv Heq. apply app_inv_head in Heq. by apply uuid_display_inj. Qed.

(** ** Properties *)

(** What an accepted receipt proves: it is bound to the run and lease of a
    terminal acknowledgement it does not predate; its root is the run's own job
    root, a portable path of two segments (so it stays below the worker's root)
    which no other run shares; and it claims a deletion exactly when it reports
    a removal. *)
Theorem cleanup_receipt_sound (r : CleanupReceiptV1) (Hr : CleanupReceiptV1_validate r = Ok tt) :
  let ack := cl_terminal_ack r in
  cl_run_id r = ack_run_id ack ∧ cl_lease_id r = ack_lease_id ack ∧ cl_run_id r ≠ 0%N ∧
  hex_string 64 (ack_completion_sha256 ack) ∧ JobState.is_terminal (ack_final_state ack) = true ∧
  (ack_acknowledged_at ack ≤ cl_observed_at r)%Z ∧
  portable (cl_relative_root r) ∧ length (split SLASH (cl_relative_root r)) = 2 ∧
  (∀ other, (other < 2 ^ 128)%N → (cl_run_id r < 2 ^ 128)%N → cl_relative_root r = job_root other →
     other = cl_run_id r) ∧
  (cl_job_root_deleted r = true ↔ cl_outcome r = JobRootCleanupOutcomeV1.Removed).
Proof.
  cbv zeta. unfold CleanupReceiptV1_validate, TerminalCompletionAckV1_validate in Hr. cbv zeta in Hr.
  rewrite !bind_unit_Ok, !reject_if_Ok, !orb_false_iff, !negb_false_iff, !bool_decide_eq_true in Hr.
  destruct Hr as (_ & ([Hn _] & [Hlen Hhex] & Hterm) & [[Hrun Hlease] Hroot] & Hout & Hobs).
  apply eqb_prop in Hout. apply Z.ltb_ge in Hobs. unfold uuid_is_nil in Hn.
  apply bool_decide_eq_false in Hn. rewrite Hroot.
  split_and!; try done; try congruence.
  - apply (lower_hex_of_len_spec 64). unfold lower_hex_of_len. rewrite Hhex.
    by rewrite bool_decide_eq_true_2.
  - apply job_root_portable.
  - by rewrite job_root_segments.
  - intros other Ho Hr' Heq. by apply job_root_inj in Heq.
  - rewrite Hout. apply bool_decide_eq_true.
Qed.
End roots.

(** ** Witness *)
Definition sample_receipt : CleanupReceiptV1 :=
  {| cl_api_version := CLEANUP_API_VERSION; cl_run_id := 2%N; cl_lease_id := 3%N;
     cl_relative_root := lit "jobs/00000000-0000-0000-0000-000000000002";
     cl_outcome := JobRootCleanupOutcomeV1.Removed; cl_job_root_deleted := true; cl_observed_at := 50%Z;
     cl_terminal_ack := {| ack_run_id := 2%N; ack_lease_id := 3%N;
       ack_completion_sha256 := replicate 64 (chr "c"); ack_state_version := 6;
       ack_final_state := JobState.Failed; ack_acknowledged_at := 40%Z |} |}.

Lemma cleanup_receipt_sound_witness :
  CleanupReceiptV1_validate (H := Concrete.uuid_crate) sample_receipt = Ok tt ∧
  portable (cl_relative_root sample_receipt).
Proof.
  assert (CleanupReceiptV1_validate (H := Concrete.uuid_crate) sample_receipt = Ok tt) as Hv
    by (by vm_compute).
  split; [exact Hv|].
  apply (cleanup_receipt_sound (H := Concrete.uuid_crate) (H0 := Concrete.uuid_crate_laws)
           sample_receipt Hv).
Defined.
