(* ===== verification/Onboarding.v ===== *)
(** Enrollment contracts: [crates/cyc-protocol/src/onboarding.rs].

    The bundle carries the one-time pairing code; the status is the non-secret
    polling view, whose phase, readiness and error must agree. *)
From Stdlib Require Import ZArith NArith Lia String.
From stdpp Require Import base option list numbers sets.
From S2P Require Import Prelude Text Crates.
Open Scope rust_scope.

Definition ENROLLMENT_API_VERSION : rstr := lit "cyc.dev/enrollment/v1".

Module EnrollmentValidationError.
Inductive t :=
| UnsupportedApiVersion (version : rstr)
| NilIdentifier (field : rstr)
| InvalidField (field : rstr)
| InvalidExpiry
| InconsistentStatus.
#[export] Instance eq_dec : EqDecision t.
Proof. solve_decision. Defined.
End EnrollmentValidationError.
Export (hints) EnrollmentValidationError.
Import EnrollmentValidationError.
Abbreviation eresult := (result EnrollmentValidationError.t).

Record CreatePairingRequestV1 := { cpr_intended_node_id : option Uuid }.
Definition CreatePairingRequestV1_validate (r : CreatePairingRequestV1) : eresult unit :=
  reject_if (is_some_and (cpr_intended_node_id r) uuid_is_nil) (NilIdentifier (lit "intendedNodeId")).

Record EnrollmentBundleV1 := {
  eb_api_version : rstr;
  eb_pairing_id : Uuid;
  eb_controller_id : Uuid;
  eb_intended_node_id : Uuid;
  eb_worker_url : rstr;
  eb_certificate_pem : rstr;
  eb_pairing_code : rstr;
  eb_created_at : DateTime;
  eb_expires_at : DateTime
}.
(** [EnrollmentBundleV1::drop] overwrites every byte of the code with NUL. *)
Definition EnrollmentBundleV1_drop (b : EnrollmentBundleV1) : EnrollmentBundleV1 :=
  {| eb_api_version := eb_api_version b; eb_pairing_id := eb_pairing_id b;
     eb_controller_id := eb_controller_id b; eb_intended_node_id := eb_intended_node_id b;
     eb_worker_url := eb_worker_url b; eb_certificate_pem := eb_certificate_pem b;
     eb_pairing_code := replicate (length (bytes (eb_pairing_code b))) 0%N;
     eb_created_at := eb_created_at b; eb_expires_at := eb_expires_at b |}.

Definition EnrollmentBundleV1_validate (b : EnrollmentBundleV1) : eresult unit :=
  reject_if (eb_api_version b != ENROLLMENT_API_VERSION) (UnsupportedApiVersion (eb_api_version b));;
  for_each (λ '(field, id), reject_if (uuid_is_nil id) (NilIdentifier field))
    [(lit "pairingId", eb_pairing_id b); (lit "controllerId", eb_controller_id b);
     (lit "intendedNodeId", eb_intended_node_id b)];;
  reject_if (blank (eb_worker_url b) || (2048 <? len (eb_worker_url b))%N || has_control (eb_worker_url b))
    (InvalidField (lit "workerUrl"));;
  reject_if (blank (eb_certificate_pem b) || (128 * 1024 <? len (eb_certificate_pem b))%N)
    (InvalidField (lit "certificatePem"));;
  reject_if (negb (between 32 512 (len (eb_pairing_code b)))
             || existsb (λ byte, negb (is_ascii_graphic byte) || is_ascii_whitespace byte)
                  (bytes (eb_pairing_code b)))
    (InvalidField (lit "pairingCode"));;
  reject_if (eb_expires_at b <=? eb_created_at b)%Z InvalidExpiry.

Module PairingPhaseV1.
Inductive t := Pending | Consumed | Ready | Expired | Revoked | Failed.
#[export] Instance eq_dec : EqDecision t.
Proof. solve_decision. Defined.
End PairingPhaseV1.
Export (hints) PairingPhaseV1.
Module PairingFailureCodeV1.
Inductive t := ProvisioningFailed | WorkerInstallFailed | WorkerPairingFailed | WorkerHealthCheckFailed.
#[export] Instance eq_dec : EqDecision t.
Proof. solve_decision. Defined.
End PairingFailureCodeV1.
Export (hints) PairingFailureCodeV1.

Record PairingStatusErrorV1 := {
  pse_code : PairingFailureCodeV1.t;
  pse_message : rstr;
  pse_retryable : bool
}.
Definition PairingStatusErrorV1_validate (e : PairingStatusErrorV1) : eresult unit :=
  reject_if (blank (pse_message e) || (160 <? len (pse_message e))%N || has_control (pse_message e))
    (InvalidField (lit "error.message")).

Record PairingStatusV1 := {
  pst_api_version : rstr;
  pst_pairing_id : Uuid;
  pst_intended_node_id : Uuid;
  pst_node_id : option Uuid;
  pst_phase : PairingPhaseV1.t;
  pst_created_at : DateTime;
  pst_expires_at : DateTime;
  pst_consumed_at : option DateTime;
  pst_revoked_at : option DateTime;
  pst_ready : bool;
  pst_error : option PairingStatusErrorV1
}.
Definition PairingStatusV1_validate (s : PairingStatusV1) : eresult unit :=
  reject_if (pst_api_version s != ENROLLMENT_API_VERSION) (UnsupportedApiVersion (pst_api_version s));;
  for_each (λ '(field, id), reject_if (uuid_is_nil id) (NilIdentifier field))
    [(lit "pairingId", pst_pairing_id s); (lit "intendedNodeId", pst_intended_node_id s)];;
  reject_if (is_some_and (pst_node_id s) uuid_is_nil) (NilIdentifier (lit "nodeId"));;
  reject_if (pst_expires_at s <=? pst_created_at s)%Z InvalidExpiry;;
  reject_if (negb (eqb (pst_ready s) (pst_phase s == PairingPhaseV1.Ready))) InconsistentStatus;;
  reject_if (pst_ready s && ((pst_node_id s != Some (pst_intended_node_id s))
                             || is_none (pst_consumed_at s))) InconsistentStatus;;
  reject_if (negb (eqb (is_some (pst_error s)) (pst_phase s == PairingPhaseV1.Failed)))
    InconsistentStatus;;
  match pst_error s with Some error => PairingStatusErrorV1_validate error | None => Ok tt end.

(** ** Specification *)

Definition status_consistent (s : PairingStatusV1) : Prop :=
  pst_api_version s = ENROLLMENT_API_VERSION ∧
  pst_pairing_id s ≠ 0%N ∧ pst_intended_node_id s ≠ 0%N ∧ pst_node_id s ≠ Some 0%N ∧
  (pst_created_at s < pst_expires_at s)%Z ∧
  match pst_phase s with
  | PairingPhaseV1.Ready =>
      pst_ready s = true ∧ pst_node_id s = Some (pst_intended_node_id s) ∧
      is_Some (pst_consumed_at s) ∧ pst_error s = None
  | PairingPhaseV1.Failed =>
      pst_ready s = false ∧ ∃ e, pst_error s = Some e ∧ blank (pse_message e) = false ∧
        (len (pse_message e) ≤ 160)%N ∧ has_control (pse_message e) = false
  | _ => pst_ready s = false ∧ pst_error s = None
  end.

Lemma error_validate_Ok e :
  PairingStatusErrorV1_validate e = Ok tt ↔
  blank (pse_message e) = false ∧ (len (pse_message e) ≤ 160)%N ∧ has_control (pse_message e) = false.
Proof.
  unfold PairingStatusErrorV1_validate. rewrite reject_if_Ok, !orb_false_iff, N.ltb_ge. tauto.
Qed.

(** The polling view is consistent: a status validates exactly when it is
    versioned, identified and not born expired, and its phase determines the
    rest.  Ready means the intended node consumed the pairing, without error;
    failed carries a bounded printable message; every other phase is neither
    ready nor in error. *)
Theorem pairing_status_spec (s : PairingStatusV1) :
  PairingStatusV1_validate s = Ok tt ↔ status_consistent s.
Proof.
  unfold PairingStatusV1_validate, status_consistent.
  rewrite !bind_unit_Ok, !reject_if_Ok, negb_bool_decide_false, for_each_Ok, !Forall_cons, Forall_nil,
    !reject_if_Ok, !negb_false_iff, !eqb_true_iff, Z.leb_gt, is_some_and_false.
  unfold uuid_is_nil. rewrite !bool_decide_eq_false. setoid_rewrite bool_decide_eq_false.
  assert ((∀ a, pst_node_id s = Some a → a ≠ 0%N) ↔ pst_node_id s ≠ Some 0%N) as -> by naive_solver.
  destruct (pst_phase s), (pst_ready s), (pst_error s) as [e|]; cbn;
    rewrite ?orb_false_iff, ?negb_bool_decide_false, ?is_none_false, ?error_validate_Ok; naive_solver.
Qed.

(** An accepted bundle hands over a usable secret and forgets it: the pairing
    code has 32 to 512 printable ASCII characters and the bundle expires after
    it was made; dropping the bundle leaves a code of the same byte length with
    no byte of the secret. *)
Theorem enrollment_bundle_secret (b : EnrollmentBundleV1) (Hb : EnrollmentBundleV1_validate b = Ok tt) :
  (32 ≤ len (eb_pairing_code b) ≤ 512)%N ∧
  Forall (λ byte, (33 ≤ byte ≤ 126)%N) (bytes (eb_pairing_code b)) ∧
  (eb_created_at b < eb_expires_at b)%Z ∧
  len (eb_pairing_code (EnrollmentBundleV1_drop b)) = len (eb_pairing_code b) ∧
  ∀ byte, byte ∈ bytes (eb_pairing_code (EnrollmentBundleV1_drop b)) →
          byte ∉ bytes (eb_pairing_code b).
Proof.
  unfold EnrollmentBundleV1_validate in Hb.
  rewrite !bind_unit_Ok, !reject_if_Ok, !orb_false_iff, existsb_false, !negb_false_iff, Z.leb_gt in Hb.
  destruct Hb as (_ & _ & _ & _ & [Hlen Hbytes] & Hexp).
  unfold between in Hlen. rewrite andb_true_iff, !N.leb_le in Hlen.
  assert (Forall (λ byte, (33 ≤ byte ≤ 126)%N) (bytes (eb_pairing_code b))) as Hgraphic.
  { eapply Forall_impl; [exact Hbytes|]. intros byte. cbn. unfold is_ascii_graphic, between.
    rewrite orb_false_iff, negb_false_iff, andb_true_iff, !N.leb_le. tauto. }
  assert (∀ n, bytes (replicate n 0%N) = replicate n 0%N) as Hnul
    by (induction n as [|n IH]; [done|]; cbn [replicate]; change (bytes (0%N :: replicate n 0%N))
          with (0%N :: bytes (replicate n 0%N)); by rewrite IH).
  split_and!; try done; try lia.
  - unfold EnrollmentBundleV1_drop, len; cbn [eb_pairing_code]. by rewrite Hnul, length_replicate.
  - unfold EnrollmentBundleV1_drop; cbn [eb_pairing_code]. rewrite Hnul.
    intros byte [-> _]%elem_of_replicate Hin. rewrite Forall_forall in Hgraphic.
    specialize (Hgraphic _ Hin). cbn in Hgraphic. lia.
Qed.

Definition sample_bundle : EnrollmentBundleV1 :=
  {| eb_api_version := ENROLLMENT_API_VERSION; eb_pairing_id := 1%N; eb_controller_id := 2%N;
     eb_intended_node_id := 3%N; eb_worker_url := lit "https://controller.local:8443";
     eb_certificate_pem := lit "-----BEGIN CERTIFICATE-----"; eb_pairing_code := replicate 40 (chr "K");
     eb_created_at := 10%Z; eb_expires_at := 600%Z |}.

Lemma enrollment_bundle_secret_witness :
  EnrollmentBundleV1_validate sample_bundle = Ok tt ∧
  len (eb_pairing_code (EnrollmentBundleV1_drop sample_bundle)) = 40%N.
Proof.
  assert (EnrollmentBundleV1_validate sample_bundle = Ok tt) as Hv by (by vm_compute).
  split; [exact Hv|].
  destruct (enrollment_bundle_secret sample_bundle Hv) as (_ & _ & _ & Hlen & _).
  etransitivity; [exact Hlen|by vm_compute].
Defined.
