(* ===== verification/ControllerDb.v ===== *)
(** The controller's database: the tables of [crates/cyc-controller/src/store.rs],
    its transactions and its errors.

    Each SQL table is a finite map from its primary key to a row record; a column
    that holds a JSON document holds the document itself (serialisation to SQLite
    text is assumed lossless), a TEXT time stamp is its instant, an INTEGER is a
    [Z] in the range of [i64].  A transaction is a computation over the database
    that is dropped as a whole when it fails ([run]): that is what
    [transaction.commit()] at the end of a handler and the rollback of a dropped
    transaction do.  The wall clock and fresh identifiers are the environment: every
    reading takes the next tick. *)
From Stdlib Require Import ZArith NArith Lia String.
From stdpp Require Import base option list numbers sets gmap.
From S2P Require Import Prelude Text Crates Protocol Snapshot RunState JobSpec CanonicalJson Scheduler NodeState PlacementBinding WorkerReports WorkerRun Cleanup Onboarding.
Open Scope rust_scope.

Definition NODE_FRESHNESS_SECONDS : Z := Z.of_N DEFAULT_NODE_FRESHNESS_TTL / nanos_per_second.
Definition PAIRING_TTL_SECONDS : Z := 600.
Definition DISPATCH_TTL_SECONDS : Z := 30.
Definition CLAIM_TTL_SECONDS : Z := 90.
Definition CLEANUP_RESERVATION_TTL_SECONDS : Z := 15 * 60.
Definition MAX_RUN_LOG_BYTES : N := 16 * 1024 * 1024.
Definition MAX_RUN_LOG_CHUNKS : N := 4096.
Definition MAX_RUN_ARTIFACT_BYTES : N := 64 * 1024 * 1024.
Definition MAX_RUN_ARTIFACT_COUNT : N := 1000.

Module StoreError.
Inductive t (json_error : Type) :=
| Database
| Document (e : json_error)
| NodeState (e : NodeStateError.t)
| InvalidNodeConfig
| InvalidNodeReport
| Timestamp
| NotFound
| Conflict
| InvalidTransition
| CancellationPending
| InvalidRunEvidence
| VersionConflict (current_version : N)
| NodeConfigVersionConflict (current_revision : Z)
| WorkerStateConflict (current_version : N) (cancel_requested : bool) (current_state : JobState.t)
| PlanExpired
| PlanStale
| PlanDigestMismatch
| InvalidPlanBinding
| Schedule (e : ScheduleError.t)
| WorkerUnauthorized
| PairingUnavailable
| PairingBindingMismatch
| InvalidCredentialDigest
| PairingAcknowledgementUnavailable
| InvalidPairingOperationKey
| PairingIdempotencyMismatch
| PairingIdempotencyFinalized (phase : PairingPhaseV1.t)
| InvalidPairingFailureState
| PairingFailureMismatch
| PairingFailureFinalized (phase : PairingPhaseV1.t)
| InvalidManagedNode
| RunUnauthorized
| UploadConflict
| UploadOffset
| DigestMismatch
| InvalidUpload
| LogQuotaExceeded
| ArtifactQuotaExceeded
| SnapshotQuotaExceeded
| InvalidCleanupReceipt
| CleanupConflict
| InvalidFleetRevision
| Io
| Panicked.
Arguments Database {json_error}.
Arguments Document {json_error} _.
Arguments NodeState {json_error} _.
Arguments InvalidNodeConfig {json_error}.
Arguments InvalidNodeReport {json_error}.
Arguments Timestamp {json_error}.
Arguments NotFound {json_error}.
Arguments Conflict {json_error}.
Arguments InvalidTransition {json_error}.
Arguments CancellationPending {json_error}.
Arguments InvalidRunEvidence {json_error}.
Arguments VersionConflict {json_error} _.
Arguments NodeConfigVersionConflict {json_error} _.
Arguments WorkerStateConflict {json_error} _ _ _.
Arguments PlanExpired {json_error}.
Arguments PlanStale {json_error}.
Arguments PlanDigestMismatch {json_error}.
Arguments InvalidPlanBinding {json_error}.
Arguments Schedule {json_error} _.
Arguments WorkerUnauthorized {json_error}.
Arguments PairingUnavailable {json_error}.
Arguments PairingBindingMismatch {json_error}.
Arguments InvalidCredentialDigest {json_error}.
Arguments PairingAcknowledgementUnavailable {json_error}.
Arguments InvalidPairingOperationKey {json_error}.
Arguments PairingIdempotencyMismatch {json_error}.
Arguments PairingIdempotencyFinalized {json_error} _.
Arguments InvalidPairingFailureState {json_error}.
Arguments PairingFailureMismatch {json_error}.
Arguments PairingFailureFinalized {json_error} _.
Arguments InvalidManagedNode {json_error}.
Arguments RunUnauthorized {json_error}.
Arguments UploadConflict {json_error}.
Arguments UploadOffset {json_error}.
Arguments DigestMismatch {json_error}.
Arguments InvalidUpload {json_error}.
Arguments LogQuotaExceeded {json_error}.
Arguments ArtifactQuotaExceeded {json_error}.
Arguments SnapshotQuotaExceeded {json_error}.
Arguments InvalidCleanupReceipt {json_error}.
Arguments CleanupConflict {json_error}.
Arguments InvalidFleetRevision {json_error}.
Arguments Io {json_error}.
Arguments Panicked {json_error}.
End StoreError.

(** The [phase] column of a lease. *)
Module LeasePhase.
Inductive t := Dispatch | Execution | CleanupPending | Legacy.
#[export] Instance eq_dec : EqDecision t.
Proof. solve_decision. Defined.
End LeasePhase.
Export (hints) LeasePhase.
Definition PLACEMENT_ATTEMPT_INITIAL : rstr := lit "initial_dispatch".
Definition PLACEMENT_ATTEMPT_DISPATCH_EXPIRED : rstr := lit "dispatch_lease_expired".

#[export] Instance CapacityPolicy_eq_dec : EqDecision CapacityPolicy.
Proof. solve_decision. Defined.
#[export] Instance NodeConfig_eq_dec : EqDecision NodeConfig.
Proof. solve_decision. Defined.
#[export] Instance NodeInventory_eq_dec : EqDecision NodeInventory.
Proof.
  assert (EqDecision GpuInventory) by solve_decision.
  assert (EqDecision HostileIsolationInventory) by solve_decision.
  assert (EqDecision ContainmentInventory) by solve_decision.
  solve_decision.
Defined.
#[export] Instance CleanupReceiptV1_eq_dec : EqDecision CleanupReceiptV1.
Proof.
  assert (EqDecision TerminalCompletionAckV1) by solve_decision.
  solve_decision.
Defined.

(** ** Rows *)
Record NodeRow := { nr_document : Node; nr_updated_at : DateTime; nr_revision : Z }.
Record NodeConfigRow := { ncr_document : NodeConfig; ncr_updated_at : DateTime; ncr_revision : Z }.
Record NodeInventoryRow := {
  nir_document : NodeInventory;
  nir_updated_at : DateTime;
  nir_revision : Z;
  nir_digest : rstr;
  nir_observed_at : DateTime
}.
Record NodeTelemetryRow := {
  ntr_document : NodeTelemetry;
  ntr_received_at : DateTime;
  ntr_boot_generation : Z;
  ntr_boot_id : Uuid;
  ntr_sequence : Z;
  ntr_observed_at : DateTime
}.
Record PlanRow := {
  plr_job_id : Uuid;
  plr_decision : PlacementPlanDecisionV1;
  plr_created_at : Z;
  plr_job_digest : rstr;
  plr_expires_at : Z;
  plr_fleet_revision : Z;
  plr_node_revision : Z;
  plr_policy_revision : Z;
  plr_used_at : option Z
}.
Record JobRow := {
  jr_job_id : Uuid;
  jr_job : JobSpec;
  jr_run : Run;
  jr_created_at : DateTime;
  jr_updated_at : DateTime;
  jr_version : Z;
  jr_cancel_requested : bool;
  jr_lease_id : option Uuid;
  jr_plan_binding : option PlacementPlanBindingV1
}.
Record AttemptRow := {
  ar_plan_id : Uuid;
  ar_node_id : Uuid;
  ar_plan_binding : PlacementPlanBindingV1;
  ar_reason : rstr;
  ar_created_at : Z
}.
Record LeaseRow := {
  lr_run_id : Uuid;
  lr_job_id : Uuid;
  lr_node_id : Uuid;
  lr_cpu_cores : Z;
  lr_memory_mib : Z;
  lr_disk_mib : Z;
  lr_gpu_reserved : Z;
  lr_slots : Z;
  lr_phase : LeasePhase.t;
  lr_created_at : Z;
  lr_expires_at : Z;
  lr_released_at : option Z
}.
Record LeaseGpuRow := { lg_device_id : rstr; lg_vram_mib : Z; lg_exclusive : Z }.
Record PairingRow := {
  pa_code_hash : rstr;
  pa_created_at : Z;
  pa_expires_at : Z;
  pa_used_at : option Z;
  pa_acknowledged_at : option Z;
  pa_revoked_at : option Z;
  pa_node_id : option Uuid;
  pa_intended_node_id : Uuid;
  pa_failed_at : option Z;
  pa_failure_code : option rstr
}.
Record PairingOperationRow := {
  po_pairing_id : Uuid;
  po_requested_node_id : option Uuid;
  po_worker_url : rstr;
  po_certificate_pem : rstr
}.
Record WorkerCredentialRow := {
  wc_pairing_id : Uuid;
  wc_node_id : Uuid;
  wc_credential_hash : rstr;
  wc_created_at : Z;
  wc_activated_at : option Z;
  wc_last_used_at : option Z;
  wc_revoked_at : option Z
}.
Record WorkerClaimRow := {
  wl_node_id : Uuid;
  wl_lease_id : Uuid;
  wl_credential_hash : rstr;
  wl_created_at : Z;
  wl_expires_at : Z;
  wl_revoked_at : option Z
}.
Record LogChunkRow := {
  lc_chunk_length : Z;
  lc_sha256 : rstr;
  lc_relative_path : rstr;
  lc_created_at : Z
}.
Record ArtifactRow := {
  atr_run_id : Uuid;
  atr_name : rstr;
  atr_size : Z;
  atr_sha256 : rstr;
  atr_relative_path : rstr;
  atr_created_at : Z
}.
Record SnapshotRow := {
  snr_size : Z;
  snr_api_version : rstr;
  snr_archive_format : rstr;
  snr_relative_path : rstr;
  snr_created_at : Z
}.
Record CompletionRow := { co_document : RunCompletion; co_document_sha256 : rstr; co_created_at : Z }.
Record CleanupRow := { cu_document : CleanupReceiptV1; cu_document_sha256 : rstr; cu_received_at : Z }.
Record ObligationRow := {
  ob_job_id : Uuid;
  ob_lease_id : Uuid;
  ob_state_version : Z;
  ob_final_state : JobState.t;
  ob_completion_sha256 : rstr;
  ob_terminal_acknowledged_at : Z;
  ob_cleanup_deadline_at : Z;
  ob_reservation_released_at : option Z;
  ob_release_reason : option CleanupReservationReleaseReasonV1.t;
  ob_cleanup_failure_code : option CleanupFailureCodeV1.t;
  ob_failure_observed_at : option Z
}.

(** The database; the key of [log_chunks] is its run, stream and offset. *)
Record Db := {
  db_fleet_revision : Z;
  db_policy_revision : Z;
  db_pairing_seed : rstr;
  db_nodes : gmap Uuid NodeRow;
  db_node_configs : gmap Uuid NodeConfigRow;
  db_node_inventories : gmap Uuid NodeInventoryRow;
  db_node_telemetry : gmap Uuid NodeTelemetryRow;
  db_node_telemetry_boots : gmap (Uuid * Uuid) DateTime;
  db_plans : gmap Uuid PlanRow;
  db_jobs : gmap Uuid JobRow;
  db_attempts : gmap (Uuid * N) AttemptRow;
  db_leases : gmap Uuid LeaseRow;
  db_lease_gpus : gmap Uuid LeaseGpuRow;
  db_pairings : gmap Uuid PairingRow;
  db_pairing_operations : gmap rstr PairingOperationRow;
  db_worker_credentials : gmap Uuid WorkerCredentialRow;
  db_worker_claims : gmap Uuid WorkerClaimRow;
  db_log_chunks : gmap (Uuid * rstr * Z) LogChunkRow;
  db_artifacts : gmap Uuid ArtifactRow;
  db_snapshots : gmap rstr SnapshotRow;
  db_completions : gmap Uuid CompletionRow;
  db_cleanups : gmap Uuid CleanupRow;
  db_obligations : gmap Uuid ObligationRow
}.

(** ** Assignment to a column or a table *)
Ltac assign_db proj v r :=
  refine (Build_Db
    ltac:(field proj db_fleet_revision v r)
    ltac:(field proj db_policy_revision v r)
    ltac:(field proj db_pairing_seed v r)
    ltac:(field proj db_nodes v r)
    ltac:(field proj db_node_configs v r)
    ltac:(field proj db_node_inventories v r)
    ltac:(field proj db_node_telemetry v r)
    ltac:(field proj db_node_telemetry_boots v r)
    ltac:(field proj db_plans v r)
    ltac:(field proj db_jobs v r)
    ltac:(field proj db_attempts v r)
    ltac:(field proj db_leases v r)
    ltac:(field proj db_lease_gpus v r)
    ltac:(field proj db_pairings v r)
    ltac:(field proj db_pairing_operations v r)
    ltac:(field proj db_worker_credentials v r)
    ltac:(field proj db_worker_claims v r)
    ltac:(field proj db_log_chunks v r)
    ltac:(field proj db_artifacts v r)
    ltac:(field proj db_snapshots v r)
    ltac:(field proj db_completions v r)
    ltac:(field proj db_cleanups v r)
    ltac:(field proj db_obligations v r)).
Definition set_db_fleet_revision (v : Z) (r : Db) : Db := ltac:(assign_db db_fleet_revision v r).
Definition set_db_policy_revision (v : Z) (r : Db) : Db := ltac:(assign_db db_policy_revision v r).
Definition set_db_pairing_seed (v : rstr) (r : Db) : Db := ltac:(assign_db db_pairing_seed v r).
Definition set_db_nodes (v : gmap Uuid NodeRow) (r : Db) : Db := ltac:(assign_db db_nodes v r).
Definition set_db_node_configs (v : gmap Uuid NodeConfigRow) (r : Db) : Db := ltac:(assign_db db_node_configs v r).
Definition set_db_node_inventories (v : gmap Uuid NodeInventoryRow) (r : Db) : Db := ltac:(assign_db db_node_inventories v r).
Definition set_db_node_telemetry (v : gmap Uuid NodeTelemetryRow) (r : Db) : Db := ltac:(assign_db db_node_telemetry v r).
Definition set_db_node_telemetry_boots (v : gmap (Uuid * Uuid) DateTime) (r : Db) : Db := ltac:(assign_db db_node_telemetry_boots v r).
Definition set_db_plans (v : gmap Uuid PlanRow) (r : Db) : Db := ltac:(assign_db db_plans v r).
Definition set_db_jobs (v : gmap Uuid JobRow) (r : Db) : Db := ltac:(assign_db db_jobs v r).
Definition set_db_attempts (v : gmap (Uuid * N) AttemptRow) (r : Db) : Db := ltac:(assign_db db_attempts v r).
Definition set_db_leases (v : gmap Uuid LeaseRow) (r : Db) : Db := ltac:(assign_db db_leases v r).
Definition set_db_lease_gpus (v : gmap Uuid LeaseGpuRow) (r : Db) : Db := ltac:(assign_db db_lease_gpus v r).
Definition set_db_pairings (v : gmap Uuid PairingRow) (r : Db) : Db := ltac:(assign_db db_pairings v r).
Definition set_db_pairing_operations (v : gmap rstr PairingOperationRow) (r : Db) : Db := ltac:(assign_db db_pairing_operations v r).
Definition set_db_worker_credentials (v : gmap Uuid WorkerCredentialRow) (r : Db) : Db := ltac:(assign_db db_worker_credentials v r).
Definition set_db_worker_claims (v : gmap Uuid WorkerClaimRow) (r : Db) : Db := ltac:(assign_db db_worker_claims v r).
Definition set_db_log_chunks (v : gmap (Uuid * rstr * Z) LogChunkRow) (r : Db) : Db := ltac:(assign_db db_log_chunks v r).
Definition set_db_artifacts (v : gmap Uuid ArtifactRow) (r : Db) : Db := ltac:(assign_db db_artifacts v r).
Definition set_db_snapshots (v : gmap rstr SnapshotRow) (r : Db) : Db := ltac:(assign_db db_snapshots v r).
Definition set_db_completions (v : gmap Uuid CompletionRow) (r : Db) : Db := ltac:(assign_db db_completions v r).
Definition set_db_cleanups (v : gmap Uuid CleanupRow) (r : Db) : Db := ltac:(assign_db db_cleanups v r).
Definition set_db_obligations (v : gmap Uuid ObligationRow) (r : Db) : Db := ltac:(assign_db db_obligations v r).
Ltac assign_job proj v r :=
  refine (Build_JobRow
    ltac:(field proj jr_job_id v r)
    ltac:(field proj jr_job v r)
    ltac:(field proj jr_run v r)
    ltac:(field proj jr_created_at v r)
    ltac:(field proj jr_updated_at v r)
    ltac:(field proj jr_version v r)
    ltac:(field proj jr_cancel_requested v r)
    ltac:(field proj jr_lease_id v r)
    ltac:(field proj jr_plan_binding v r)).
Definition set_jr_run (v : Run) (r : JobRow) : JobRow := ltac:(assign_job jr_run v r).
Definition set_jr_updated_at (v : DateTime) (r : JobRow) : JobRow := ltac:(assign_job jr_updated_at v r).
Definition set_jr_version (v : Z) (r : JobRow) : JobRow := ltac:(assign_job jr_version v r).
Definition set_jr_cancel_requested (v : bool) (r : JobRow) : JobRow := ltac:(assign_job jr_cancel_requested v r).
Definition set_jr_plan_binding (v : option PlacementPlanBindingV1) (r : JobRow) : JobRow := ltac:(assign_job jr_plan_binding v r).
Ltac assign_lease proj v r :=
  refine (Build_LeaseRow
    ltac:(field proj lr_run_id v r)
    ltac:(field proj lr_job_id v r)
    ltac:(field proj lr_node_id v r)
    ltac:(field proj lr_cpu_cores v r)
    ltac:(field proj lr_memory_mib v r)
    ltac:(field proj lr_disk_mib v r)
    ltac:(field proj lr_gpu_reserved v r)
    ltac:(field proj lr_slots v r)
    ltac:(field proj lr_phase v r)
    ltac:(field proj lr_created_at v r)
    ltac:(field proj lr_expires_at v r)
    ltac:(field proj lr_released_at v r)).
Definition set_lr_phase (v : LeasePhase.t) (r : LeaseRow) : LeaseRow := ltac:(assign_lease lr_phase v r).
Definition set_lr_expires_at (v : Z) (r : LeaseRow) : LeaseRow := ltac:(assign_lease lr_expires_at v r).
Definition set_lr_released_at (v : option Z) (r : LeaseRow) : LeaseRow := ltac:(assign_lease lr_released_at v r).
Ltac assign_plan proj v r :=
  refine (Build_PlanRow
    ltac:(field proj plr_job_id v r)
    ltac:(field proj plr_decision v r)
    ltac:(field proj plr_created_at v r)
    ltac:(field proj plr_job_digest v r)
    ltac:(field proj plr_expires_at v r)
    ltac:(field proj plr_fleet_revision v r)
    ltac:(field proj plr_node_revision v r)
    ltac:(field proj plr_policy_revision v r)
    ltac:(field proj plr_used_at v r)).
Definition set_plr_used_at (v : option Z) (r : PlanRow) : PlanRow := ltac:(assign_plan plr_used_at v r).
Ltac assign_pairing proj v r :=
  refine (Build_PairingRow
    ltac:(field proj pa_code_hash v r)
    ltac:(field proj pa_created_at v r)
    ltac:(field proj pa_expires_at v r)
    ltac:(field proj pa_used_at v r)
    ltac:(field proj pa_acknowledged_at v r)
    ltac:(field proj pa_revoked_at v r)
    ltac:(field proj pa_node_id v r)
    ltac:(field proj pa_intended_node_id v r)
    ltac:(field proj pa_failed_at v r)
    ltac:(field proj pa_failure_code v r)).
Definition set_pa_used_at (v : option Z) (r : PairingRow) : PairingRow := ltac:(assign_pairing pa_used_at v r).
Definition set_pa_acknowledged_at (v : option Z) (r : PairingRow) : PairingRow := ltac:(assign_pairing pa_acknowledged_at v r).
Definition set_pa_revoked_at (v : option Z) (r : PairingRow) : PairingRow := ltac:(assign_pairing pa_revoked_at v r).
Definition set_pa_node_id (v : option Uuid) (r : PairingRow) : PairingRow := ltac:(assign_pairing pa_node_id v r).
Definition set_pa_failed_at (v : option Z) (r : PairingRow) : PairingRow := ltac:(assign_pairing pa_failed_at v r).
Definition set_pa_failure_code (v : option rstr) (r : PairingRow) : PairingRow := ltac:(assign_pairing pa_failure_code v r).
Ltac assign_credential proj v r :=
  refine (Build_WorkerCredentialRow
    ltac:(field proj wc_pairing_id v r)
    ltac:(field proj wc_node_id v r)
    ltac:(field proj wc_credential_hash v r)
    ltac:(field proj wc_created_at v r)
    ltac:(field proj wc_activated_at v r)
    ltac:(field proj wc_last_used_at v r)
    ltac:(field proj wc_revoked_at v r)).
Definition set_wc_activated_at (v : option Z) (r : WorkerCredentialRow) : WorkerCredentialRow := ltac:(assign_credential wc_activated_at v r).
Definition set_wc_last_used_at (v : option Z) (r : WorkerCredentialRow) : WorkerCredentialRow := ltac:(assign_credential wc_last_used_at v r).
Definition set_wc_revoked_at (v : option Z) (r : WorkerCredentialRow) : WorkerCredentialRow := ltac:(assign_credential wc_revoked_at v r).
Ltac assign_claim proj v r :=
  refine (Build_WorkerClaimRow
    ltac:(field proj wl_node_id v r)
    ltac:(field proj wl_lease_id v r)
    ltac:(field proj wl_credential_hash v r)
    ltac:(field proj wl_created_at v r)
    ltac:(field proj wl_expires_at v r)
    ltac:(field proj wl_revoked_at v r)).
Definition set_wl_expires_at (v : Z) (r : WorkerClaimRow) : WorkerClaimRow := ltac:(assign_claim wl_expires_at v r).
Definition set_wl_revoked_at (v : option Z) (r : WorkerClaimRow) : WorkerClaimRow := ltac:(assign_claim wl_revoked_at v r).
Ltac assign_obligation proj v r :=
  refine (Build_ObligationRow
    ltac:(field proj ob_job_id v r)
    ltac:(field proj ob_lease_id v r)
    ltac:(field proj ob_state_version v r)
    ltac:(field proj ob_final_state v r)
    ltac:(field proj ob_completion_sha256 v r)
    ltac:(field proj ob_terminal_acknowledged_at v r)
    ltac:(field proj ob_cleanup_deadline_at v r)
    ltac:(field proj ob_reservation_released_at v r)
    ltac:(field proj ob_release_reason v r)
    ltac:(field proj ob_cleanup_failure_code v r)
    ltac:(field proj ob_failure_observed_at v r)).
Definition set_ob_reservation_released_at (v : option Z) (r : ObligationRow) : ObligationRow := ltac:(assign_obligation ob_reservation_released_at v r).
Definition set_ob_release_reason (v : option CleanupReservationReleaseReasonV1.t) (r : ObligationRow) : ObligationRow := ltac:(assign_obligation ob_release_reason v r).
Definition set_ob_cleanup_failure_code (v : option CleanupFailureCodeV1.t) (r : ObligationRow) : ObligationRow := ltac:(assign_obligation ob_cleanup_failure_code v r).
Definition set_ob_failure_observed_at (v : option Z) (r : ObligationRow) : ObligationRow := ltac:(assign_obligation ob_failure_observed_at v r).
Ltac assign_telemetry proj v r :=
  refine (Build_NodeTelemetryRow
    ltac:(field proj ntr_document v r)
    ltac:(field proj ntr_received_at v r)
    ltac:(field proj ntr_boot_generation v r)
    ltac:(field proj ntr_boot_id v r)
    ltac:(field proj ntr_sequence v r)
    ltac:(field proj ntr_observed_at v r)).
Definition set_ntr_received_at (v : DateTime) (r : NodeTelemetryRow) : NodeTelemetryRow := ltac:(assign_telemetry ntr_received_at v r).
Ltac assign_node proj v r :=
  refine (Build_NodeRow
    ltac:(field proj nr_document v r)
    ltac:(field proj nr_updated_at v r)
    ltac:(field proj nr_revision v r)).
Definition set_nr_updated_at (v : DateTime) (r : NodeRow) : NodeRow := ltac:(assign_node nr_updated_at v r).

(** [Store::from_connection] on a new file: empty tables and the seeded
    [controller_meta]. *)
Definition empty_db (seed : rstr) : Db :=
  {| db_fleet_revision := 0; db_policy_revision := 3; db_pairing_seed := seed; db_nodes := ∅;
     db_node_configs := ∅; db_node_inventories := ∅; db_node_telemetry := ∅;
     db_node_telemetry_boots := ∅; db_plans := ∅; db_jobs := ∅; db_attempts := ∅; db_leases := ∅;
     db_lease_gpus := ∅; db_pairings := ∅; db_pairing_operations := ∅; db_worker_credentials := ∅;
     db_worker_claims := ∅; db_log_chunks := ∅; db_artifacts := ∅; db_snapshots := ∅; db_completions := ∅;
     db_cleanups := ∅; db_obligations := ∅ |}.

(** ** Transactions *)

(** The outside world of one transaction: what the [i]-th reading gives of the
    clock and of the identifier generator. *)
Record Env := { env_clock : nat → DateTime; env_uuid : nat → Uuid }.
(** The files below [object_root] and below [snapshot_root]: relative path (its
    text with [/]) to content.  They are not part of the transaction: what a
    failing handler wrote there stays. *)
Abbreviation Objects := (gmap rstr (list N)).
Record Files := { fs_objects : Objects; fs_snapshots : Objects }.
Record TxState := {
  tx_db : Db;
  tx_committed : Db;  (* what [commit] made durable *)
  tx_files : Files;
  tx_tick : nat
}.

Section tx.
Context `{SerdeJsonCrate}.
Abbreviation store_error := (StoreError.t json_error).

Definition tx (A : Type) : Type := Env → TxState → TxState * result store_error A.
#[export] Instance tx_ret : MRet tx := λ A a env s, (s, Ok a).
#[export] Instance tx_bind : MBind tx := λ A B k m env s,
  match m env s with
  | (s, Ok a) => k a env s
  | (s, Err e) => (s, Err e)
  end.
Definition throw {A} (e : store_error) : tx A := λ env s, (s, Err e).
(** A pure fallible step followed by [?]. *)
Definition liftr {A} (m : result store_error A) : tx A := λ env s, (s, m).
Definition guard_or (b : bool) (e : store_error) : tx unit := if b then throw e else mret tt.
Definition get_db : tx Db := λ env s, (s, Ok (tx_db s)).
Definition get_files : tx Files := λ env s, (s, Ok (tx_files s)).
Definition modify (f : Db → Db) : tx unit := λ env s,
  ({| tx_db := f (tx_db s); tx_committed := tx_committed s; tx_files := tx_files s; tx_tick := tx_tick s |},
   Ok tt).
(** [transaction.commit()] before the end of a method. *)
Definition commit : tx unit := λ env s,
  ({| tx_db := tx_db s; tx_committed := tx_db s; tx_files := tx_files s; tx_tick := tx_tick s |}, Ok tt).
Definition set_files (files : Files) : tx unit := λ env s,
  ({| tx_db := tx_db s; tx_committed := tx_committed s; tx_files := files; tx_tick := tx_tick s |}, Ok tt).
Definition put_object (path : rstr) (data : list N) : tx unit :=
  files ← get_files;
  set_files {| fs_objects := <[path := data]> (fs_objects files); fs_snapshots := fs_snapshots files |}.
Definition put_snapshot_file (path : rstr) (data : list N) : tx unit :=
  files ← get_files;
  set_files {| fs_objects := fs_objects files; fs_snapshots := <[path := data]> (fs_snapshots files) |}.
Definition tick (s : TxState) : TxState :=
  {| tx_db := tx_db s; tx_committed := tx_committed s; tx_files := tx_files s; tx_tick := S (tx_tick s) |}.
(** [Utc::now()], [Uuid::new_v4()] *)
Definition utc_now : tx DateTime := λ env s, (tick s, Ok (env_clock env (tx_tick s))).
Definition new_v4 : tx Uuid := λ env s, (tick s, Ok (env_uuid env (tx_tick s))).
(** [for x in l { body }] *)
Fixpoint for_tx {A} (body : A → tx unit) (l : list A) : tx unit :=
  match l with
  | [] => mret tt
  | x :: l => body x;; for_tx body l
  end.
Fixpoint fold_tx {A B} (body : B → A → tx B) (b : B) (l : list A) : tx B :=
  match l with
  | [] => mret b
  | x :: l => b ← body b x; fold_tx body b l
  end.
Fixpoint map_tx {A B} (f : A → tx B) (l : list A) : tx (list B) :=
  match l with
  | [] => mret []
  | x :: l => y ← f x; ys ← map_tx f l; mret (y :: ys)
  end.

(** The controller's durable state. *)
Record Controller := { ctl_db : Db; ctl_files : Files }.
(** A public method: its transaction is committed if it returns [Ok]; what it did
    not commit before an error is rolled back. *)
Definition run {A} (env : Env) (m : tx A) (c : Controller) : Controller * result store_error A :=
  match m env {| tx_db := ctl_db c; tx_committed := ctl_db c; tx_files := ctl_files c; tx_tick := 0 |} with
  | (s, Ok a) => ({| ctl_db := tx_db s; ctl_files := tx_files s |}, Ok a)
  | (s, Err e) => ({| ctl_db := tx_committed s; ctl_files := tx_files s |}, Err e)
  end.

(** ** Columns *)
Definition as_i64 (value : N) : Z := Z.min (Z.of_N value) i64_max.
Definition as_u64 (value : Z) : N := Z.to_N value.
(** [now.timestamp()] *)
Definition unix (t : DateTime) : Z := (t / nanos_per_second)%Z.
Definition timestamp `{ChronoCrate} (value : Z) : tx DateTime :=
  liftr (ok_or (from_timestamp value) StoreError.Timestamp).
Definition timestamp_opt `{ChronoCrate} (value : option Z) : tx (option DateTime) :=
  match value with
  | None => mret None
  | Some value => t ← timestamp value; mret (Some t)
  end.

(** SQLite's [SUM] over integers, which fails on overflow. *)
Definition sql_sum (values : list Z) : tx Z :=
  let sum := foldr Z.add 0%Z values in
  if bool_decide (i64_min ≤ sum ≤ i64_max)%Z then mret sum else throw StoreError.Database.

(** ** Meta *)
Definition increment_fleet_revision : tx unit :=
  db ← get_db;
  if (db_fleet_revision db <? as_i64 MAX_SAFE_JSON_INTEGER)%Z
  then modify (set_db_fleet_revision (db_fleet_revision db + 1)%Z)
  else throw StoreError.InvalidFleetRevision.

(** ** Secrets *)
Definition bytes_sha256 `{DigestCrate} (data : list N) : rstr := hex (sha256 data).
Definition secret_hash `{DigestCrate} (secret : rstr) : rstr := bytes_sha256 (bytes secret).
(** [u64::try_from(data.len()).unwrap_or(u64::MAX)] *)
Definition byte_len (data : list N) : N := N.min (N.of_nat (length data)) u64_max.
(** [Uuid::simple]: the hexadecimal digits without hyphens *)
Definition uuid_simple `{UuidCrate} (u : Uuid) : rstr :=
  List.filter (λ c, negb (c =? chr "-")%N) (uuid_display u).
Definition random_secret `{UuidCrate} : tx rstr :=
  first ← new_v4; second ← new_v4; mret (uuid_simple first ++ uuid_simple second).
End tx.

(** The rest of [serde_json] that the store uses: the text of a document and the
    value of a text. *)
Class StoreSerde `{SerdeJsonCrate} := {
  completion_to_string : RunCompletion → result json_error rstr;
  receipt_to_string : CleanupReceiptV1 → result json_error rstr;
  inventory_to_string : NodeInventory → result json_error rstr;
  value_from_str : rstr → option (Value json_number);
  number_as_u64 : json_number → option N
}.
