(* ===== verification/Planning.v ===== *)
(** From a scheduler decision to a placement plan: [create_plan] and
    [new_plan_binding] of [crates/cyc-controller/src/store.rs].

    The controller plans against what it read in one transaction (the fresh nodes
    with their revisions, the fleet and policy revisions), lets the scheduler
    choose, and freezes the choice in a binding that it validates before storing.
    The theorems join the three components: node views, scheduler, binding. *)
From Stdlib Require Import ZArith NArith Lia String.
From stdpp Require Import base option list numbers sets sorting.
From S2P Require Import Prelude Text Crates Protocol Snapshot RunState JobSpec CanonicalJson Scheduler NodeState PlacementBinding WorkerReports ControllerDb.
Open Scope rust_scope.

Definition PLAN_TTL_SECONDS : Z := 60.

(** A row of [fresh_available_nodes]. *)
Record SchedulingNodeRecord := { record_scheduling : SchedulingNode; record_revision : Z }.

(** What the transaction read. *)
Record PlanningState := {
  ps_nodes : list SchedulingNodeRecord;
  ps_fleet_revision : Z;
  ps_policy_revision : Z
}.

Section planning.
Context `{UuidCrate, ChronoCrate, SerdeJsonCrate, DigestCrate}.
Abbreviation store_result := (result (StoreError.t json_error)).

(** [new_plan_binding]; the fresh plan identifier is an argument. *)
Definition new_plan_binding (plan_id : Uuid) (job : JobSpec) (job_digest : rstr)
    (decision : PlacementDecision) (created_at : DateTime)
    (fleet_revision node_revision policy_revision : Z) : store_result PlacementPlanBindingV1 :=
  let binding :=
    {| pb_api_version := PLACEMENT_PLAN_BINDING_API_VERSION; pb_plan_id := plan_id;
       pb_job_id := job_id job; pb_job_digest := job_digest; pb_created_at := created_at;
       pb_expires_at := created_at + PLAN_TTL_SECONDS * nanos_per_second;
       pb_fleet_revision := fleet_revision; pb_node_revision := node_revision;
       pb_policy_revision := policy_revision;
       pb_decision := {| pd_node_id := dec_node_id decision; pd_score := dec_score decision;
                         pd_explanation := dec_explanation decision |} |}%Z in
  map_err (λ _, StoreError.InvalidPlanBinding)
    (PlacementPlanBindingV1_validate binding (Some job) (Some created_at));;
  Ok binding.

(** [create_plan] between its reads and [insert_plan_tx].  [now] is the clock
    reading truncated to seconds, [observed_at] the one [schedule_contexts]
    takes. *)
Definition create_plan (scheduler : Scheduler) (state : PlanningState) (plan_id : Uuid) (job : JobSpec)
    (now observed_at : DateTime) : store_result PlacementPlanBindingV1 :=
  map_err (λ e, StoreError.Schedule (ScheduleError.InvalidJob e)) (JobSpec_validate job);;
  let normalized_job := normalize_job_spec job in
  digest ← map_err StoreError.Document (canonical_job_digest normalized_job);
  let nodes := map record_scheduling (ps_nodes state) in
  decision ← map_err StoreError.Schedule
    (schedule_contexts_at scheduler normalized_job nodes observed_at);
  node_revision ← ok_or
    (record_revision <$>
       List.find (λ record, node_id (sn_node (record_scheduling record)) == dec_node_id decision)
         (ps_nodes state))
    StoreError.PlanStale;
  new_plan_binding plan_id normalized_job digest decision now (ps_fleet_revision state) node_revision
    (ps_policy_revision state).
End planning.

(** ** Evidence text *)

Lemma printable_good n c s :
  n ≤ 256 → printable n s → c ∈ s → (33 ≤ c ≤ 126)%N → good_text s.
Proof.
  intros Hn Hp Hin Hc. split_and!.
  - by eapply printable_blank.
  - apply printable_len in Hp. lia.
  - by eapply printable_control.
Qed.
Lemma visible_good n s :
  n ≤ 256 → printable n s → existsb (between 33 126) s = true → good_text s.
Proof.
  intros Hn Hp He. apply existsb_true, Exists_exists in He as (c & Hin & Hc).
  unfold between in Hc. rewrite andb_true_iff, !N.leb_le in Hc. by eapply printable_good.
Qed.
Lemma visible_app_l s t : existsb (between 33 126) s = true → existsb (between 33 126) (s ++ t) = true.
Proof. rewrite existsb_app. by intros ->. Qed.
Lemma visible_app_r s t : existsb (between 33 126) t = true → existsb (between 33 126) (s ++ t) = true.
Proof. rewrite existsb_app. intros ->. apply orb_true_r. Qed.

(** A number of at most 64 bits next to a fixed text. *)
Lemma number_then_text_good n t :
  in_u64 n → bool_decide (length (lit t) ≤ 150) && forallb (between 32 126) (lit t) = true →
  existsb (between 33 126) (lit t) = true → good_text (fmt_N n ++ lit t).
Proof.
  intros Hn Ht Hv. apply (visible_good (64 + 150)); [lia| |by apply visible_app_r].
  apply printable_app; [|by apply lit_printable].
  apply (fmt_N_printable n 63). unfold in_u64, u64_max in Hn. change (2 ^ N.of_nat 64)%N with 18446744073709551616%N.
  lia.
Qed.
Lemma text_then_number_good z t :
  (Z.abs z < 2 ^ 64)%Z → bool_decide (length (lit t) ≤ 150) && forallb (between 32 126) (lit t) = true →
  existsb (between 33 126) (lit t) = true → good_text (lit t ++ fmt_Z z).
Proof.
  intros Hn Ht Hv. apply (visible_good (150 + 65)); [lia| |by apply visible_app_l].
  apply printable_app; [by apply lit_printable|]. by apply (fmt_Z_printable z 63).
Qed.
Lemma text_good t :
  bool_decide (length (lit t) ≤ 150) && forallb (between 32 126) (lit t) = true →
  existsb (between 33 126) (lit t) = true → good_text (lit t).
Proof. intros Ht Hv. apply (visible_good 150); [lia|by apply lit_printable|done]. Qed.

(** ** Score evidence *)

(** The machine widths of what a node reports. *)
Record node_machine (node : Node) : Prop := {
  nm_scored : node_in_width node;
  nm_memory : in_u64 (res_available_memory_mib (node_resources node));
  nm_disk : in_u64 (res_available_disk_mib (node_resources node));
  nm_load : in_u64 (load_cpu_percent (node_load node));
  nm_vram : Forall (λ g, in_u64 (gpu_available_vram_mib g)) (res_gpus (node_resources node))
}.

Definition score_keys : list rstr :=
  [lit "priority"; lit "cpu_capacity"; lit "memory_capacity"; lit "disk_capacity"; lit "cpu_headroom";
   lit "queue_penalty"; lit "running_job_penalty"; lit "gpu_capacity"; lit "source_cache";
   lit "preferred_node"; lit "degraded_penalty"].

Lemma max_or_zero_bound (l : list N) bound : Forall (λ n, (n ≤ bound)%N) l → (max_or_zero l ≤ bound)%N.
Proof. unfold max_or_zero. induction 1; cbn; lia. Qed.

Lemma scored_vram_bound job node vram :
  node_machine node → scored_vram job node = Some vram → in_u64 vram.
Proof.
  intros Hm. unfold scored_vram. destruct (_ || _); [|done]. intros [= <-].
  apply max_or_zero_bound, Forall_fmap, Forall_forall. intros g Hg. cbn.
  apply list_elem_of_In, filter_In in Hg as [Hg _]. apply list_elem_of_In in Hg.
  pose proof (nm_vram _ Hm) as Hv. rewrite Forall_forall in Hv. by apply Hv.
Qed.

Lemma bonus_keys_sublist job node w :
  map sc_key (bonus_components job node w) `sublist_of`
  [lit "gpu_capacity"; lit "source_cache"; lit "preferred_node"; lit "degraded_penalty"].
Proof.
  unfold bonus_components. rewrite !map_app.
  change [lit "gpu_capacity"; lit "source_cache"; lit "preferred_node"; lit "degraded_penalty"]
    with ([lit "gpu_capacity"] ++ [lit "source_cache"] ++ [lit "preferred_node"] ++
          [lit "degraded_penalty"]).
  repeat apply sublist_app.
  - destruct (scored_vram job node); repeat constructor.
  - destruct (set_contains _ _); repeat constructor.
  - case_bool_decide; repeat constructor.
  - case_bool_decide; repeat constructor.
Qed.

Lemma score_keys_sublist job node w :
  map sc_key (score_components job node w) `sublist_of` score_keys.
Proof.
  unfold score_components. rewrite map_app.
  change score_keys with (take 7 score_keys ++ drop 7 score_keys).
  apply sublist_app; [reflexivity|apply bonus_keys_sublist].
Qed.

Lemma score_keys_distinct job node w : NoDup (map sc_key (score_components job node w)).
Proof.
  eapply (sublist_NoDup _ score_keys); [apply (bool_decide_unpack _); by vm_compute|].
  apply score_keys_sublist.
Qed.

Lemma sublist_forall {A} (P : A → Prop) l k : l `sublist_of` k → Forall P k → Forall P l.
Proof. induction 1; rewrite ?Forall_cons; naive_solver. Qed.

Lemma score_keys_good job node w :
  Forall (λ c, good_text (sc_key c)) (score_components job node w).
Proof.
  apply (Forall_fmap sc_key (λ k, good_text k) (score_components job node w)).
  eapply sublist_forall; [apply score_keys_sublist|].
  repeat (constructor; [apply text_good; by vm_compute|]). constructor.
Qed.

Lemma in_u32_u64 n : in_u32 n → in_u64 n.
Proof. unfold in_u32, in_u64, u32_max, u64_max. lia. Qed.

Lemma score_details_good job node w :
  node_machine node → Forall (λ c, good_text (sc_detail c)) (score_components job node w).
Proof.
  intros Hm. pose proof Hm as [(Hp & Hc & Hq & Hr) Hmem Hdisk Hload _].
  apply in_u32_u64 in Hc, Hq, Hr.
  unfold score_components, base_components, bonus_components, component. rewrite !Forall_app. split_and!.
  - constructor; [apply text_then_number_good; [lia|by vm_compute..]|].
    repeat (constructor; [apply number_then_text_good; [done|by vm_compute..]|]). constructor.
  - destruct (scored_vram job node) as [vram|] eqn:E; [|constructor].
    constructor; [|constructor].
    apply number_then_text_good; [by eapply scored_vram_bound|by vm_compute..].
  - destruct (set_contains _ _); repeat constructor; apply text_good; by vm_compute.
  - case_bool_decide; repeat constructor; apply text_good; by vm_compute.
  - case_bool_decide; repeat constructor; apply text_good; by vm_compute.
Qed.

Lemma score_values_bounded job node w :
  node_machine node → built_in_weights w →
  Forall (λ c, (Z.abs (sc_value c) ≤ score_bound)%Z) (score_components job node w) ∧
  7 ≤ length (score_components job node w) ≤ 11.
Proof.
  intros [Hn _ _ _ _] Hw%built_in_small.
  destruct (base_components_exact node w Hn Hw) as [Hb Bb].
  destruct (bonus_components_exact job node w Hw) as (Hx & Bx & Lx).
  rewrite <-Hb in Bb. rewrite <-Hx in Bx, Lx. rewrite length_map in Lx.
  unfold score_components. rewrite length_app. cbn [length base_components]. split; [|lia].
  apply Forall_app. split.
  - exact (proj1 (Forall_fmap sc_value _ (base_components node w)) Bb).
  - exact (proj1 (Forall_fmap sc_value _ (bonus_components job node w)) Bx).
Qed.

Lemma total_bounded bound cs :
  Forall (λ c, (Z.abs (sc_value c) ≤ bound)%Z) cs →
  (Z.abs (total (values cs)) ≤ Z.of_nat (length cs) * bound)%Z.
Proof. induction 1 as [|c cs Hc _ IH]; cbn; [lia|]. unfold total, values in IH. lia. Qed.

(** An eligible candidate's evidence. *)
Lemma score_components_ok job node w :
  node_machine node → built_in_weights w →
  components_ok (score_components job node w) ∧
  total_score (score_components job node w) = total (values (score_components job node w)) ∧
  safe_i64 (total_score (score_components job node w)).
Proof.
  intros Hm Hw. destruct (score_values_bounded job node w Hm Hw) as [Hv Hl].
  assert (∀ n, n ≤ length (score_components job node w) →
            safe_i64 (total (values (take n (score_components job node w))))) as Hpre.
  { intros n Hn. unfold safe_i64, MAX_SAFE_JSON_I64.
    pose proof (total_bounded score_bound (take n (score_components job node w))
                  (Forall_take _ _ _ Hv)) as Ht.
    rewrite length_take in Ht. unfold score_bound in *. lia. }
  assert (total_score (score_components job node w) = total (values (score_components job node w))) as Ht.
  { rewrite (total_score_exact score_bound); [by rewrite sum_values_map|done|].
    unfold score_bound, i64_max. lia. }
  unfold components_ok. split_and!.
  - rewrite Forall_forall. intros c Hc.
    pose proof (score_keys_good job node w) as Hk. pose proof (score_details_good job node w Hm) as Hd.
    rewrite Forall_forall in Hk, Hd, Hv. specialize (Hv c Hc). cbn in Hv.
    split; [by apply Hk|]. split; [by apply Hd|].
    unfold safe_i64, score_bound, MAX_SAFE_JSON_I64 in *. lia.
  - apply score_keys_distinct.
  - exact Hpre.
  - exact Ht.
  - rewrite Ht. specialize (Hpre (length (score_components job node w)) (Nat.le_refl _)).
    by rewrite firstn_all in Hpre.
Qed.

(** ** Rejection evidence *)

Definition missing_capabilities (job : JobSpec) (node : Node) : list rstr :=
  set_difference (req_capabilities (job_requirements job)) (node_capabilities node).

Definition codes_before : list RejectionCode.t :=
  [RejectionCode.Disabled; RejectionCode.Offline; RejectionCode.Draining; RejectionCode.StaleNode] ++
  [RejectionCode.PolicyJobKindDenied; RejectionCode.BatteryDisallowed; RejectionCode.CpuLimitExceeded;
   RejectionCode.CpuEwmaLimitExceeded; RejectionCode.MemoryLimitExceeded;
   RejectionCode.TemperatureLimitExceeded] ++
  [RejectionCode.ContainmentLimitReached; RejectionCode.SlotLimitReached] ++
  [RejectionCode.ManualNodeRequired; RejectionCode.ManualNodeMismatch] ++
  [RejectionCode.WrongOs] ++ [RejectionCode.WrongArchitecture].
Definition codes_after : list RejectionCode.t :=
  [RejectionCode.InsufficientCpu; RejectionCode.InsufficientMemory; RejectionCode.InsufficientDisk] ++
  [RejectionCode.GpuRequired; RejectionCode.GpuVendorMismatch; RejectionCode.ExclusiveGpuUnavailable;
   RejectionCode.GpuUnavailable; RejectionCode.InsufficientVram].

Lemma code_sublist c (l : list RejectionCode.t) : bool_decide (c ∈ l) = true → [c] `sublist_of` l.
Proof. intros Hc%bool_decide_eq_true. by apply singleton_sublist_l. Qed.
(** A block that pushes at most one reason. *)
Lemma reject_sublist code detail l :
  bool_decide (code ∈ l) = true → map rej_code (reject code detail) `sublist_of` l.
Proof. apply code_sublist. Qed.
Ltac block := cbn [map]; first [apply sublist_nil_l | apply reject_sublist; by vm_compute].

Lemma liveness_codes `{ChronoCrate} node now ttl :
  map rej_code (liveness_rejections node now ttl) `sublist_of`
  [RejectionCode.Disabled; RejectionCode.Offline; RejectionCode.Draining; RejectionCode.StaleNode].
Proof.
  unfold liveness_rejections. rewrite !map_app.
  apply (sublist_app _ [_]); [destruct (negb _); block|].
  apply (sublist_app _ [_; _]); [destruct (node_status node); block|].
  destruct (node_last_seen_at node); [|block]. cbn zeta. destruct (_ <? _)%Z; block.
Qed.
Lemma policy_codes job sn :
  map rej_code (policy_rejections job sn) `sublist_of`
  [RejectionCode.PolicyJobKindDenied; RejectionCode.BatteryDisallowed; RejectionCode.CpuLimitExceeded;
   RejectionCode.CpuEwmaLimitExceeded; RejectionCode.MemoryLimitExceeded;
   RejectionCode.TemperatureLimitExceeded].
Proof.
  unfold policy_rejections. rewrite !map_app.
  apply (sublist_app _ [_]); [destruct (_ && _); block|].
  apply (sublist_app _ [_]); [destruct (_ && _); block|].
  apply (sublist_app _ [_]); [destruct (above _ _); block|].
  apply (sublist_app _ [_]); [destruct (above _ _); block|].
  apply (sublist_app _ [_]); [destruct (above _ _); block|].
  destruct (sn_temperature_c sn), (sn_max_temperature_c sn); try block. destruct (_ <? _)%Z; block.
Qed.
Lemma slot_codes job sn :
  map rej_code (slot_rejections job sn) `sublist_of`
  [RejectionCode.ContainmentLimitReached; RejectionCode.SlotLimitReached].
Proof.
  unfold slot_rejections. cbv zeta. case_bool_decide; [block|].
  destruct (_ <? _)%N; [|block]. destruct (_ <? _)%N; block.
Qed.
Lemma manual_codes `{UuidCrate} job node :
  map rej_code (manual_rejections job node) `sublist_of`
  [RejectionCode.ManualNodeRequired; RejectionCode.ManualNodeMismatch].
Proof.
  unfold manual_rejections. case_bool_decide; [|block].
  destruct (job_preferred_node_id job); [|block]. case_bool_decide; block.
Qed.
Lemma capacity_codes request node :
  map rej_code (capacity_rejections request node) `sublist_of`
  [RejectionCode.InsufficientCpu; RejectionCode.InsufficientMemory; RejectionCode.InsufficientDisk].
Proof.
  unfold capacity_rejections. rewrite !map_app.
  apply (sublist_app _ [_]); [destruct (_ || _); block|].
  apply (sublist_app _ [_]); destruct (_ <? _)%N; block.
Qed.
Lemma gpu_codes job sn :
  map rej_code (gpu_block job sn) `sublist_of`
  [RejectionCode.GpuRequired; RejectionCode.GpuVendorMismatch; RejectionCode.ExclusiveGpuUnavailable;
   RejectionCode.GpuUnavailable; RejectionCode.InsufficientVram].
Proof.
  unfold gpu_block. destruct (rr_gpu _) as [request|].
  - unfold gpu_resource_rejections. destruct (is_empty _); [block|].
    destruct (gpu_scan _ _ _ _ _) as [st|]; [|block]. destruct (negb _).
    { destruct (grr_device_id request); block. }
    destruct (negb _); [destruct (grr_exclusive request); block|block].
  - destruct (match req_gpu _ with Some _ => _ | None => _ end) as [requirement|]; [|block].
    unfold gpu_rejections. cbv zeta. destruct (is_empty _); [block|].
    destruct (is_empty _); [block|]. destruct (is_empty _); [destruct (gr_exclusive _); block|].
    destruct (is_empty _); block.
Qed.

Section rejections.
Context `{UuidCrate, ChronoCrate}.

(** Every code comes from a fixed list of distinct codes, except that each
    missing capability pushes its own [MissingCapability]. *)
Lemma rejection_codes job sn now ttl :
  ∃ before after,
    map rej_code (hard_rejections job sn now ttl) =
      before ++ map (λ _, RejectionCode.MissingCapability) (missing_capabilities job (sn_node sn)) ++ after ∧
    before `sublist_of` codes_before ∧ after `sublist_of` codes_after.
Proof.
  unfold hard_rejections, platform_rejections. rewrite !map_app, map_map. cbn [rej_code].
  rewrite <-!app_assoc.
  match goal with |- context [?l1 ++ ?l2 ++ ?l3 ++ ?l4 ++ ?l5 ++ ?l6 ++ map ?f ?l ++ ?l7 ++ ?l8] =>
    exists (l1 ++ l2 ++ l3 ++ l4 ++ l5 ++ l6), (l7 ++ l8) end.
  split; [by rewrite <-!app_assoc|]. split.
  - unfold codes_before.
    apply sublist_app; [apply liveness_codes|]. apply sublist_app; [apply policy_codes|].
    apply sublist_app; [apply slot_codes|]. apply sublist_app; [apply manual_codes|].
    apply sublist_app.
    + destruct (req_os _); [case_bool_decide; block|block].
    + destruct (req_arch _); [case_bool_decide; block|block].
  - unfold codes_after. apply sublist_app; [apply capacity_codes|apply gpu_codes].
Qed.

Lemma NoDup_constant {A B} (b : B) (l : list A) : NoDup (map (λ _, b) l) → length l ≤ 1.
Proof.
  destruct l as [|x [|y l]]; cbn; [lia..|]. rewrite NoDup_cons. intros [Hn _]. destruct Hn. left.
Qed.

Lemma rejection_codes_distinct job sn now ttl :
  NoDup (map rej_code (hard_rejections job sn now ttl)) ↔
  length (missing_capabilities job (sn_node sn)) ≤ 1.
Proof.
  destruct (rejection_codes job sn now ttl) as (before & after & -> & Hb & Ha). split.
  - rewrite NoDup_app. intros (_ & _ & Hn). rewrite NoDup_app in Hn. destruct Hn as [Hn _].
    by apply NoDup_constant in Hn.
  - intros Hl. eapply (sublist_NoDup _ (codes_before ++ [RejectionCode.MissingCapability] ++ codes_after)).
    { apply (bool_decide_unpack _). by vm_compute. }
    apply sublist_app; [done|]. apply sublist_app; [|done].
    destruct (missing_capabilities _ _) as [|x [|y l]]; cbn in *; [apply sublist_nil_l|done|lia].
Qed.

Lemma rejection_count job sn now ttl :
  length (missing_capabilities job (sn_node sn)) ≤ 1 → length (hard_rejections job sn now ttl) ≤ 64.
Proof.
  intros Hl. rewrite <-(length_map rej_code).
  destruct (rejection_codes job sn now ttl) as (before & after & -> & Hb%sublist_length & Ha%sublist_length).
  rewrite !length_app, length_map. cbn in Hb, Ha. lia.
Qed.
End rejections.

(** ** Decisions as binding evidence *)

Definition scheduler_built_in (s : Scheduler) : Prop :=
  built_in_weights (sched_balanced_weights s) ∧ built_in_weights (sched_performance_weights s).
Lemma policy_weights_built_in s job : scheduler_built_in s → built_in_weights (policy_weights s job).
Proof. intros [Hb Hp]. unfold policy_weights. by destruct (job_placement_policy job). Qed.

Section decisions.
Context `{UuidCrate, ChronoCrate, SerdeJsonCrate, DigestCrate}.

(** A node the binding format can describe as a candidate for a job: identified, a
    name and rejection texts of at most 256 bytes without control characters, and at
    most one required capability missing. *)
Record describable (s : Scheduler) (job : JobSpec) (now : DateTime) (sn : SchedulingNode) : Prop := {
  de_id : node_id (sn_node sn) ≠ 0%N;
  de_name : good_text (node_name (sn_node sn));
  de_details : Forall (λ r, good_text (rej_detail r)) (hard_rejections job sn now (sched_node_freshness_ttl s));
  de_capabilities : length (missing_capabilities job (sn_node sn)) ≤ 1
}.

Lemma evaluate_node_ok s job sn now :
  scheduler_built_in s → node_machine (sn_node sn) →
  (candidate_ok (evaluate_node job sn (policy_weights s job) now (sched_node_freshness_ttl s)) ↔
   describable s job now sn).
Proof.
  intros Hs Hm. apply (policy_weights_built_in s job) in Hs.
  destruct (score_components_ok job (sn_node sn) _ Hm Hs) as (Hc & Ht & _).
  destruct (score_values_bounded job (sn_node sn) _ Hm Hs) as [_ Hl].
  pose proof (rejection_count job sn now (sched_node_freshness_ttl s)) as Hcount.
  transitivity (node_id (sn_node sn) ≠ 0%N ∧ good_text (node_name (sn_node sn)) ∧
    Forall (λ r, good_text (rej_detail r)) (hard_rejections job sn now (sched_node_freshness_ttl s)) ∧
    length (missing_capabilities job (sn_node sn)) ≤ 1); [|split; [intros (? & ? & ? & ?)|intros []]; by try split].
  rewrite <-(rejection_codes_distinct job sn now (sched_node_freshness_ttl s)) in Hcount |- *.
  unfold evaluate_node, candidate_ok. cbv zeta.
  destruct (hard_rejections _ _ _ _) as [|r rs] eqn:E; cbn [is_empty negb cand_node_id cand_node_name
    cand_eligible cand_score cand_score_components cand_rejection_reasons].
  - split; [intros (? & ? & _); split_and!; try done; constructor|]. intros (? & ? & _). split_and!; try done; [by rewrite Ht|lia..].
  - split; [tauto|]. intros (? & ? & Hd & Hn). specialize (Hcount Hn). split_and!; try done; cbn [length] in *; lia.
Qed.

Definition plan_decision (d : PlacementDecision) : PlacementPlanDecisionV1 :=
  {| pd_node_id := dec_node_id d; pd_score := dec_score d; pd_explanation := dec_explanation d |}.

Lemma candidates_ids s job nodes now :
  map cand_node_id (candidates_of s job nodes now) = map (λ sn, node_id (sn_node sn)) nodes.
Proof.
  unfold candidates_of. rewrite map_map. apply map_ext. intros sn. apply evaluate_node_id.
Qed.

(** A fleet the binding format can describe. *)
Definition describable_fleet (s : Scheduler) (job : JobSpec) (now : DateTime) (nodes : list SchedulingNode) : Prop :=
  length nodes ≤ 256 ∧ NoDup (map (λ sn, node_id (sn_node sn)) nodes) ∧ Forall (describable s job now) nodes.
Definition machine_nodes (nodes : list SchedulingNode) : Prop := Forall (λ sn, node_machine (sn_node sn)) nodes.

Lemma candidates_describable s job nodes now :
  scheduler_built_in s → machine_nodes nodes →
  (Forall candidate_ok (candidates_of s job nodes now) ↔ Forall (describable s job now) nodes).
Proof.
  intros Hs Hm. unfold candidates_of, machine_nodes in *.
  rewrite (Forall_fmap (λ sn, evaluate_node job sn (policy_weights s job) now (sched_node_freshness_ttl s))
             candidate_ok nodes).
  rewrite !Forall_forall in *.
  split; intros Hall sn Hsn; apply (evaluate_node_ok s job sn now); try done; try (by apply Hm); by apply Hall.
Qed.

(** The binding validator accepts a decision's explanation exactly when the fleet can
    be described. *)
Lemma decision_explained s job nodes now d :
  scheduler_built_in s → machine_nodes nodes → schedule_contexts_at s job nodes now = Ok d →
  (explanation_ok (plan_decision d) ↔ describable_fleet s job now nodes).
Proof.
  intros Hs Hm Hd. unfold describable_fleet. rewrite <-(candidates_describable s job nodes now) by done.
  pose proof (schedule_Ok_valid _ _ _ _ _ Hd) as Hv.
  destruct (schedule_best_unique _ _ _ _ _ Hd) as (sn & Hsn & Hid & Ha & Hscore & _).
  rewrite schedule_result in Hd by done. cbv zeta in Hd.
  destruct (max_by compare_candidates _) as [c|] eqn:Hmax; [|done]. injection Hd as <-.
  cbn [dec_node_id dec_score] in *. unfold explanation_ok, plan_decision. cbn.
  pose proof (sort_by_perm compare_explained (candidates_of s job nodes now)) as Hp.
  pose proof (candidates_ids s job nodes now) as Hids.
  assert (length (candidates_of s job nodes now) = length nodes) as Hlen
    by (unfold candidates_of; by rewrite length_map).
  rewrite Hp, Hlen, Hids. split; [intros (_ & [_ Hcount] & Hall & Hn & _); by split_and!|].
  intros (Hcount & Hn & Hall). split_and!; try done.
  - destruct nodes; [by apply not_elem_of_nil in Hsn|cbn; lia].
  - exists (evaluate_node job sn (policy_weights s job) now (sched_node_freshness_ttl s)).
    rewrite evaluate_node_id, evaluate_node_eligible, evaluate_node_score by done. split_and!; try done.
    + rewrite Hp. unfold candidates_of. apply list_elem_of_In.
      apply (in_map (λ sn, evaluate_node job sn (policy_weights s job) now (sched_node_freshness_ttl s))).
      by apply list_elem_of_In.
    + by rewrite Hscore.
Qed.
End decisions.

(** ** Properties *)

Lemma canonical_job_digest_Ok `{SerdeJsonCrate, DigestCrate} job digest :
  canonical_job_digest job = Ok digest ↔
  ∃ bs, canonical_job_bytes job = Ok bs ∧ digest = hex (sha256 bs).
Proof.
  unfold canonical_job_digest. rewrite bind_Ok. setoid_rewrite Ok_Ok. naive_solver.
Qed.

#[local] Opaque JobSpec_validate canonical_job_digest.

Section properties.
Context `{UuidCrate, ChronoCrate, SerdeJsonCrate, DigestCrate}.

Lemma binding_identity plan_id job digest d created fleet node policy b :
  new_plan_binding plan_id job digest d created fleet node policy = Ok b ↔
  b = {| pb_api_version := PLACEMENT_PLAN_BINDING_API_VERSION; pb_plan_id := plan_id;
         pb_job_id := job_id job; pb_job_digest := digest; pb_created_at := created;
         pb_expires_at := created + PLAN_TTL_SECONDS * nanos_per_second;
         pb_fleet_revision := fleet; pb_node_revision := node; pb_policy_revision := policy;
         pb_decision := plan_decision d |}%Z ∧ binding_ok b (Some job) (Some created).
Proof.
  unfold new_plan_binding. cbv zeta. rewrite bind_unit_Ok, map_err_Ok, PlacementPlanBindingV1_validate_Ok, Ok_Ok.
  split; [intros [Hb <-]; by split|]. intros [-> Hb]. by split.
Qed.

(** The node the scheduler chose is one of the rows read, so the revision is
    found ([PlanStale] is unreachable here). *)
Lemma chosen_revision s state job observed d :
  schedule_contexts_at s job (map record_scheduling (ps_nodes state)) observed = Ok d →
  ∃ record, record ∈ ps_nodes state ∧
    List.find (λ record, node_id (sn_node (record_scheduling record)) == dec_node_id d) (ps_nodes state) =
      Some record ∧
    node_id (sn_node (record_scheduling record)) = dec_node_id d.
Proof.
  intros Hd. destruct (schedule_best_unique _ _ _ _ _ Hd) as (sn & Hsn & Hid & _).
  apply list_elem_of_In, in_map_iff in Hsn as (record & <- & Hin).
  destruct (List.find _ (ps_nodes state)) as [found|] eqn:E.
  - apply find_some in E as [Hf Hq]. apply bool_decide_eq_true in Hq.
    exists found. split_and!; [by apply list_elem_of_In|done..].
  - eapply find_none in E; [|exact Hin]. cbn in E. by apply bool_decide_eq_false in E.
Qed.

Lemma decision_identity s job nodes now d :
  schedule_contexts_at s job nodes now = Ok d →
  expl_policy (dec_explanation d) = job_placement_policy job.
Proof.
  intros Hd. pose proof (schedule_Ok_valid _ _ _ _ _ Hd) as Hv.
  rewrite schedule_result in Hd by done. cbv zeta in Hd.
  destruct (max_by compare_candidates _); [|done]. by injection Hd as <-.
Qed.

(** What the binding requires of the job, the identifiers, the revisions and the fleet,
    once the scheduler has chosen. *)
Record plannable (s : Scheduler) (state : PlanningState) (plan_id : Uuid) (job : JobSpec) (observed_at : DateTime)
    (d : PlacementDecision) : Prop := {
  pn_identified : plan_id ≠ 0%N ∧ job_id job ≠ 0%N;
  pn_preferred : ∀ id, job_preferred_node_id job = Some id → id = dec_node_id d;
  pn_fleet : describable_fleet s (normalize_job_spec job) observed_at (map record_scheduling (ps_nodes state));
  pn_revisions : safe_revision (ps_fleet_revision state) ∧ safe_revision (ps_policy_revision state);
  pn_node_revision : ∃ record, record ∈ ps_nodes state ∧
    node_id (sn_node (record_scheduling record)) = dec_node_id d ∧ safe_revision (record_revision record)
}.

Lemma distinct_same {A B} (f : A → B) (l : list A) x y :
  NoDup (map f l) → x ∈ l → y ∈ l → f x = f y → x = y.
Proof.
  induction l as [|z l IH]; cbn; [by intros _ ?%not_elem_of_nil|].
  rewrite NoDup_cons, !elem_of_cons. intros [Hz Hl] Hx Hy Hf.
  assert (∀ a, a ∈ l → f a ∈ map f l) as Hin by (intros a; rewrite !list_elem_of_In; apply in_map).
  destruct Hx as [->|Hx], Hy as [->|Hy]; [done| | |by apply IH].
  - destruct Hz. rewrite Hf. by apply Hin.
  - destruct Hz. rewrite <-Hf. by apply Hin.
Qed.

Lemma decision_binding_ok s state job observed now d digest plan_id record :
  scheduler_built_in s → machine_nodes (map record_scheduling (ps_nodes state)) →
  canonical_job_digest (normalize_job_spec job) = Ok digest → hex_string 64 digest →
  record ∈ ps_nodes state → node_id (sn_node (record_scheduling record)) = dec_node_id d →
  schedule_contexts_at s (normalize_job_spec job) (map record_scheduling (ps_nodes state)) observed = Ok d →
  (binding_ok
     {| pb_api_version := PLACEMENT_PLAN_BINDING_API_VERSION; pb_plan_id := plan_id;
        pb_job_id := job_id (normalize_job_spec job); pb_job_digest := digest; pb_created_at := now;
        pb_expires_at := now + PLAN_TTL_SECONDS * nanos_per_second;
        pb_fleet_revision := ps_fleet_revision state; pb_node_revision := record_revision record;
        pb_policy_revision := ps_policy_revision state; pb_decision := plan_decision d |}%Z
     (Some (normalize_job_spec job)) (Some now) ↔ plannable s state plan_id job observed d).
Proof.
  intros Hs Hm Hdigest Hhex Hin Hrecord Hd.
  pose proof (decision_explained s (normalize_job_spec job) _ observed d Hs Hm Hd) as Hexplained.
  pose proof (schedule_Ok_valid _ _ _ _ _ Hd) as Hv.
  pose proof (decision_identity _ _ _ _ _ Hd) as Hp.
  destruct (schedule_best_unique _ _ _ _ _ Hd) as (sn & Hsn & Hid & _ & Hscore & _).
  split.
  - intros [_ (Hplan & Hjob & _) _ (Hf & Hn & Hpol) _ _ _ Hj He]. destruct (Hj _ eq_refl) as (_ & _ & _ & _ & Hpref).
    split; [done|exact Hpref|by apply Hexplained|done|by exists record].
  - intros [[Hplan Hjob] Hpref Hfleet [Hf Hpol] (found & Hfin & Hfid & Hrev)].
    assert (safe_i64 (dec_score d)) as Hsafe.
    { unfold machine_nodes in Hm. rewrite Forall_forall in Hm. rewrite Hscore.
      by apply (score_components_ok (normalize_job_spec job) (sn_node sn) _ (Hm sn Hsn)),
        (policy_weights_built_in s (normalize_job_spec job)). }
    pose proof Hfleet as (_ & Hdistinct & Hall). rewrite Forall_forall in Hall.
    pose proof (de_id _ _ _ _ (Hall sn Hsn)) as Hnode. rewrite Hid in Hnode. rewrite map_map in Hdistinct.
    assert (found = record) as -> by (eapply distinct_same; [exact Hdistinct|done|done|cbn; congruence]).
    apply Hexplained in Hfleet.
    unfold PLAN_TTL_SECONDS, nanos_per_second. split; cbn; try done; try lia.
    + intros t [= <-]. unfold nanos_per_second. lia.
    + intros j [= <-]. by split_and!.
Qed.

(** C35. When the controller can issue a plan.  Under the scheduler's built-in weights
    and for nodes whose numbers fit their machine types, [create_plan] returns a plan
    exactly when the job is valid, its canonical digest can be written, the scheduler
    chooses a node, and the binding can say so: the plan and the job are identified, the
    chosen node is the preferred one if the job names any, the revisions are safe
    integers, and the whole fleet (chosen or not) can be described: at most 256 distinct
    identified nodes, names and rejection texts of at most 256 bytes without control
    characters, and no node that misses two required capabilities.  These last
    conditions are imposed by the binding validator alone: the scheduler treats the
    preference as a bonus, and rejects a node once per missing capability. *)
Theorem plan_issued_iff `{!DigestCrateLaws} (s : Scheduler) (state : PlanningState) (plan_id : Uuid)
    (job : JobSpec) (now observed_at : DateTime)
    (Hweights : scheduler_built_in s) (Hmachine : machine_nodes (map record_scheduling (ps_nodes state))) :
  (∃ binding, create_plan s state plan_id job now observed_at = Ok binding) ↔
  JobSpec_validate job = Ok tt ∧ (∃ digest, canonical_job_digest job = Ok digest) ∧
  ∃ d, schedule_contexts_at s (normalize_job_spec job) (map record_scheduling (ps_nodes state))
         observed_at = Ok d ∧ plannable s state plan_id job observed_at d.
Proof.
  destruct (canonical_digest_normal job) as [Hnormal Hhex]. rewrite <-Hnormal in Hhex |- *. unfold create_plan.
  destruct (JobSpec_validate job) as [[]|e]; cbn [map_err mbind result_bind]; [|by split; [intros [? ?]|intros [? _]]].
  destruct (canonical_job_digest (normalize_job_spec job)) as [digest|e] eqn:Hdigest; cbn [map_err mbind result_bind];
    [|by split; [intros [? ?]|intros (_ & [? ?] & _)]].
  destruct (schedule_contexts_at s _ _ _) as [d|e] eqn:Hd; cbn [map_err mbind result_bind];
    [|split; [by intros [? ?]|by intros (_ & _ & ? & ? & _)]].
  destruct (chosen_revision _ _ _ _ _ Hd) as (record & Hin & Hfind & Hrecord).
  rewrite Hfind. cbn [fmap option_fmap option_map ok_or mbind result_bind].
  pose proof (decision_binding_ok s state job observed_at now d digest plan_id record Hweights Hmachine Hdigest
    (Hhex _ eq_refl) Hin Hrecord Hd) as Hiff.
  split.
  - intros [b Hb]. apply binding_identity in Hb as [-> Hb]. split; [done|]. split; [by exists digest|].
    exists d. split; [done|]. by apply Hiff.
  - intros (_ & _ & d' & [= <-] & Hpm). apply Hiff in Hpm. eexists. apply binding_identity. by split.
Qed.

(** What the fleet view shows is what the scheduler uses: for a view merged at
    a clock and time-to-live, the liveness pass over its node rejects nothing
    exactly when the view's availability is schedulable; and a node whose view is
    not schedulable is never chosen, at any later clock, for any job. *)
Theorem unschedulable_view_never_chosen (id : Uuid) (config : NodeConfig) (inventory : NodeInventory)
    (telemetry : NodeTelemetry) (received_at now : DateTime) (ttl : N) (v : NodeMergeView) (node : Node)
    (Hmerge : NodeMergeView_merge id config inventory telemetry received_at now ttl = Ok v)
    (Hnode : to_node v = Some (Ok node)) :
  (liveness_rejections node now ttl = [] ↔ NodeAvailability.schedulable (view_availability v) = true) ∧
  (NodeAvailability.schedulable (view_availability v) = false →
   ∀ s job nodes later d,
     (∀ sn, sn ∈ nodes → node_id (sn_node sn) = id → sn_node sn = node) →
     schedule_contexts_at s job nodes later = Ok d → dec_node_id d ≠ id).
Proof.
  unfold NodeMergeView_merge in Hmerge. rewrite !bind_unit_Ok in Hmerge.
  destruct Hmerge as (_ & _ & _ & _ & [= <-]). unfold to_node in Hnode.
  destruct (validate_view _) as [[]|]; [|done].
  destruct (join_gpus _ _ _) as [gpus|]; [|done]. cbn in Hnode. injection Hnode as <-.
  rewrite liveness_nil. cbn [node_enabled node_status node_last_seen_at view_status view_availability
    view_telemetry view_received_at view_config].
  assert ((∃ seen, Some received_at = Some seen ∧ (now - seen ≤ maximum_age ttl)%Z) ↔
          (maximum_age ttl <? now - received_at)%Z = false) as Hfresh
    by (rewrite Z.ltb_ge; split; [by intros (? & [= <-] & ?)|eauto]).
  rewrite Hfresh. unfold NodeAvailability_derive, view_status. cbn.
  split.
  - destruct (cfg_enabled config); cbn; [|by split; [intros [? _]|]].
    case_bool_decide; cbn; [split; [by intros (_ & [] & _)|done]|].
    destruct (_ <? _)%Z; cbn; [split; [by intros (_ & _ & ?)|done]|].
    destruct (tel_status telemetry); cbn; naive_solver.
  - intros Hbad s job nodes later d Hsame Hd Hid.
    destruct (schedule_best_unique _ _ _ _ _ Hd) as (sn & Hsn & Hsid & [He Hs _ _ _ _ _ _ _ _ _ _ _ _ _ _] & _).
    rewrite (Hsame sn Hsn) in He, Hs by congruence. cbn in He, Hs.
    rewrite He in Hbad, Hs. cbn in Hbad, Hs.
    case_bool_decide; [by destruct Hs|].
    destruct (_ <? _)%Z; [by destruct Hs|]. by destruct (tel_status telemetry), Hs.
Qed.

Lemma hex_inj bs1 bs2 :
  Forall (λ b, (b < 256)%N) bs1 → Forall (λ b, (b < 256)%N) bs2 → hex bs1 = hex bs2 → bs1 = bs2.
Proof.
  intros Hb1. revert bs2. induction Hb1 as [|b bs Hb _ IH]; intros bs2 Hb2 Heq.
  - by destruct Hb2.
  - destruct Hb2 as [|b' bs' Hb' Hbs']; [done|].
    unfold hex in *. cbn [flat_map app hex_byte] in Heq. injection Heq as Hhi Hlo Hrest.
    assert (b / 16 < 16 ∧ b' / 16 < 16)%N as [Hd Hd'] by (split; apply N.Div0.div_lt_upper_bound; lia).
    apply Concrete.hex_digit_inj in Hhi; [|done..].
    apply Concrete.hex_digit_inj in Hlo; [|by apply N.mod_lt..].
    f_equal; [|by apply IH]. rewrite (N.div_mod b 16), (N.div_mod b' 16) by done. congruence.
Qed.

(** No substitution between planning and execution: if a binding was accepted
    for one job and a worker accepted an assignment carrying the binding's job
    identifier and digest, then both jobs have that identifier and the canonical
    bytes of the two jobs have the same SHA-256; different bytes would be a
    collision. *)
Theorem no_job_substitution `{!DigestCrateLaws} (b : PlacementPlanBindingV1) (job : JobSpec)
    (clock : option DateTime) (a : ClaimAssignment)
    (Hplan : PlacementPlanBindingV1_validate b (Some job) clock = Ok tt)
    (Hassigned : ClaimAssignment_validate a = Ok tt)
    (Hdigest : ca_job_digest a = pb_job_digest b) (Hid : ca_job_id a = pb_job_id b) :
  job_id (ca_job_spec a) = job_id job ∧
  ∃ planned executed, canonical_job_bytes job = Ok planned ∧
    canonical_job_bytes (ca_job_spec a) = Ok executed ∧ sha256 planned = sha256 executed.
Proof.
  apply PlacementPlanBindingV1_validate_Ok in Hplan as [_ _ _ _ _ _ _ Hj _].
  destruct (Hj _ eq_refl) as (_ & Hjid & Hjd & _).
  apply ClaimAssignment_validate_Ok in Hassigned as (Haid & _ & Had & _).
  split; [congruence|]. rewrite Hdigest in Had.
  apply canonical_job_digest_Ok in Hjd as (planned & Hp & Hp'), Had as (executed & He & He').
  exists planned, executed. split_and!; try done.
  apply hex_inj; [apply sha256_bytes..|]. congruence.
Qed.
End properties.

(** ** Witnesses *)
#[local] Existing Instance Concrete.uuid_crate.
#[local] Existing Instance Concrete.chrono_crate.
#[local] Existing Instance Concrete.digest_crate.
#[local] Existing Instance Concrete.digest_crate_laws.
#[local] Existing Instance ConcreteJson.serde_crate.

Definition sample_state (nodes : list SchedulingNode) : PlanningState :=
  {| ps_nodes := map (λ sn, {| record_scheduling := sn; record_revision := 1 |}) nodes;
     ps_fleet_revision := 4; ps_policy_revision := 0 |}.

Lemma sample_machine : machine_nodes (map record_scheduling (ps_nodes (sample_state [sample_context 3%N 12%N]))).
Proof.
  constructor; [|constructor].
  split; cbn; try constructor; unfold in_u64, u64_max; try lia; unfold in_u32, u32_max; cbn; lia.
Qed.
Lemma sample_describable :
  describable_fleet Scheduler_default (normalize_job_spec sample_job) sample_now [sample_context 3%N 12%N].
Proof.
  split; [cbn; lia|]. split; [apply (bool_decide_unpack _); by vm_compute|]. constructor; [|constructor]. split.
  - done.
  - by apply valid_text_true.
  - match goal with |- Forall _ ?l => assert (l = []) as -> by (by vm_compute) end. constructor.
  - cbn. lia.
Qed.

Lemma plan_issued_iff_witness :
  ∃ binding, create_plan Scheduler_default (sample_state [sample_context 3%N 12%N]) 9%N sample_job
               sample_now sample_now = Ok binding.
Proof.
  apply (plan_issued_iff Scheduler_default (sample_state [sample_context 3%N 12%N]) 9%N sample_job
           sample_now sample_now).
  - split; [by left|by right].
  - exact sample_machine.
  - split; [by vm_compute|]. split; [eexists; by vm_compute|]. eexists. split; [by vm_compute|].
    split; [done|done|exact sample_describable|by repeat constructor|].
    eexists. split; [by left|]. split; [by vm_compute|]. by repeat constructor.
Defined.

(** The conditions of the binding bite: a second, rejected machine that lacks two of
    the job's capabilities makes the plan for the first fail, and so does a
    preference for a machine that loses the scoring. *)
Definition capable (id : Uuid) (capabilities : list rstr) (cores : N) : SchedulingNode :=
  let node := sample_node id cores in
  SchedulingNode_legacy
    {| node_id := id; node_name := node_name node; node_enabled := true;
       node_transport := node_transport node; node_os := node_os node; node_arch := node_arch node;
       node_status := node_status node; node_capabilities := capabilities;
       node_resources := node_resources node; node_load := node_load node; node_priority := 5;
       node_labels := []; node_cached_sources := []; node_last_seen_at := node_last_seen_at node |}.
Definition job_with (capabilities : list rstr) (preferred : option Uuid) : JobSpec :=
  {| job_api_version := job_api_version sample_job; job_id := job_id sample_job;
     job_origin := job_origin sample_job; job_kind := job_kind sample_job;
     job_source := job_source sample_job;
     job_requirements :=
       {| req_os := None; req_arch := None; req_capabilities := capabilities;
          req_min_cpu_cores := None; req_min_memory_mib := None; req_min_disk_mib := None;
          req_gpu := None |};
     job_resource_request := None; job_steps := job_steps sample_job;
     job_artifacts := job_artifacts sample_job;
     job_timeout_seconds := job_timeout_seconds sample_job;
     job_placement_policy := job_placement_policy sample_job;
     job_preferred_node_id := preferred |}.

Definition both : list rstr := [lit "cargo"; lit "docker"].
Example schedulable_but_unplannable :
  (∃ d, schedule_contexts_at Scheduler_default (job_with both None)
          [capable 3%N both 12%N; capable 4%N [] 12%N] sample_now = Ok d ∧ dec_node_id d = 3%N) ∧
  create_plan Scheduler_default (sample_state [capable 3%N both 12%N; capable 4%N [] 12%N]) 9%N
    (job_with both None) sample_now sample_now = Err StoreError.InvalidPlanBinding ∧
  is_ok (create_plan Scheduler_default (sample_state [capable 3%N both 12%N; capable 4%N [lit "cargo"] 12%N])
    9%N (job_with both None) sample_now sample_now) = true.
Proof. split_and!; [eexists; split; by vm_compute|by vm_compute..]. Qed.
Example preference_is_hard_in_plans :
  (∃ d, schedule_contexts_at Scheduler_default (job_with [] (Some 4%N))
          [sample_context 3%N 40%N; sample_context 4%N 2%N] sample_now = Ok d ∧ dec_node_id d = 3%N) ∧
  create_plan Scheduler_default (sample_state [sample_context 3%N 40%N; sample_context 4%N 2%N]) 9%N
    (job_with [] (Some 4%N)) sample_now sample_now = Err StoreError.InvalidPlanBinding.
Proof. split; [eexists; split; by vm_compute|by vm_compute]. Qed.

(** And so does a valid job that asks for a capability with a long name. *)
Definition long_capability : rstr := replicate 300 99%N.
Example long_capability_unplannable :
  is_ok (JobSpec_validate (job_with [long_capability] None)) = true ∧
  is_ok (schedule_contexts_at Scheduler_default (job_with [long_capability] None)
    [capable 3%N [long_capability] 12%N; capable 4%N [] 12%N] sample_now) = true ∧
  create_plan Scheduler_default (sample_state [capable 3%N [long_capability] 12%N; capable 4%N [] 12%N]) 9%N
    (job_with [long_capability] None) sample_now sample_now = Err StoreError.InvalidPlanBinding.
Proof. split_and!; by vm_compute. Qed.

Lemma unschedulable_view_never_chosen_witness :
  liveness_rejections legacy_node 1500%Z 15000000000%N = [] ↔
  NodeAvailability.schedulable (view_availability legacy_view) = true.
Proof.
  apply (unschedulable_view_never_chosen 5%N (NodeConfig_from_node legacy_node)
    (NodeInventory_from_node legacy_node) (NodeTelemetry_from_node legacy_node 0%Z) 1000%Z 1500%Z
    15000000000%N legacy_view legacy_node); by vm_compute.
Defined.

Definition sample_assignment : ClaimAssignment :=
  {| ca_job_id := 7%N; ca_run_id := 21%N; ca_job_digest := sample_digest; ca_lease_id := 22%N;
     ca_lease_until := 3000%Z; ca_state_version := 1; ca_job_spec := sample_job;
     ca_workspace := {| ws_relative_root := lit "jobs/21"; ws_source_directory := lit "jobs/21/source";
       ws_logs_directory := lit "jobs/21/logs"; ws_artifacts_directory := lit "jobs/21/artifacts" |};
     ca_limits := ExecutionLimits_default |}.
Lemma no_job_substitution_witness :
  ∃ planned executed, canonical_job_bytes sample_job = Ok planned ∧
    canonical_job_bytes (ca_job_spec sample_assignment) = Ok executed ∧ sha256 planned = sha256 executed.
Proof.
  apply (no_job_substitution sample_binding sample_job (Some 1500%Z) sample_assignment);
    [by vm_compute|by vm_compute|done|done].
Defined.
