(* ===== verification/FleetNodes.v ===== *)
(** What the controller schedules on: node documents, capacity policies and active
    reservations of [crates/cyc-controller/src/store.rs].

    [fresh_available_nodes] turns the node tables into the scheduler's input: it
    merges the documents of every node with a current worker credential, applies
    the capacity policy (with the reserved [cyc.policy.*] labels) and takes the
    active leases off the reported capacity. *)
From Stdlib Require Import ZArith NArith Lia String.
From stdpp Require Import base option list numbers sets gmap sorting.
From S2P Require Import Prelude Text Crates Protocol Snapshot RunState JobSpec CanonicalJson Scheduler NodeState PlacementBinding WorkerReports ControllerDb Planning.
Open Scope rust_scope.

(** ** JSON values read from labels *)
Definition object_get {A} (key : rstr) (entries : list (rstr * A)) : option A :=
  snd <$> List.find (λ e, e.1 == key) entries.
Definition as_object {Number} (v : Value Number) : option (list (rstr * Value Number)) :=
  match v with Object entries => Some entries | _ => None end.
(** [Value::get] with a key: [None] unless the value is an object. *)
Definition value_get {Number} (key : rstr) (v : Value Number) : option (Value Number) :=
  as_object v ≫= object_get key.
Definition is_null {Number} (v : Value Number) : bool := match v with Null => true | _ => false end.
Definition value_as_bool {Number} (v : Value Number) : option bool :=
  match v with Bool b => Some b | _ => None end.

(** [BTreeSet<JobKind>::insert]; the derived order is the declaration order. *)
Definition kind_rank (k : JobKind.t) : N :=
  match k with
  | JobKind.Shell => 0 | JobKind.Build => 1 | JobKind.Test => 2 | JobKind.Lint => 3
  | JobKind.Container => 4 | JobKind.Gpu => 5 | JobKind.Batch => 6
  end.
Fixpoint kind_insert (k : JobKind.t) (kinds : list JobKind.t) : list JobKind.t :=
  match kinds with
  | [] => [k]
  | x :: rest =>
      match N.compare (kind_rank k) (kind_rank x) with
      | Lt => k :: x :: rest
      | Eq => x :: rest
      | Gt => x :: kind_insert k rest
      end
  end.

Section nodes.
Context `{UuidCrate, ChronoCrate, SerdeJsonCrate, !StoreSerde, DigestCrate}.
Abbreviation store_result := (result (StoreError.t json_error)).

Definition value_as_u64 (v : Value json_number) : option N :=
  match v with Num n => number_as_u64 n | _ => None end.

(** ** Capacity policies *)
Definition label (key : string) (config : NodeConfig) : option rstr :=
  object_get (lit key) (cfg_labels config).
Definition reserved_kinds : list rstr :=
  [lit "build"; lit "test"; lit "lint"; lit "batch"; lit "gpu"; lit "container"; lit "shell";
   lit "service"].
(** An optional entry that is not null and not an integer in the range. *)
Definition bad_integer (key : string) (maximum : option N) (object : list (rstr * Value json_number)) :
    bool :=
  is_some_and (object_get (lit key) object) (λ value,
    negb (is_null value)
    && is_none_or (value_as_u64 value) (λ n, (n == 0%N) || is_some_and maximum (λ m, (m <? n)%N))).

Definition validate_reserved_policy_labels (config : NodeConfig) : store_result unit :=
  match label "cyc.policy.allowedJobKinds" config with
  | Some value =>
      reject_if (negb (is_empty value)
                 && existsb (λ kind, is_empty kind || negb (bool_decide (kind ∈ reserved_kinds)))
                      (split (chr ",") value)) StoreError.InvalidNodeConfig
  | None => Ok tt
  end;;
  match label "cyc.policy.resource" config with
  | Some value =>
      value ← ok_or (value_from_str value) StoreError.InvalidNodeConfig;
      object ← ok_or (as_object value) StoreError.InvalidNodeConfig;
      reject_if (existsb (λ e, negb (bool_decide (e.1 ∈ [lit "cpuLimitPercent"; lit "maximumParallelJobs";
                                                          lit "memoryLimitBytes"]))) object
                 || bad_integer "cpuLimitPercent" (Some 100%N) object
                 || bad_integer "maximumParallelJobs" (Some 1024%N) object
                 || bad_integer "memoryLimitBytes" None object) StoreError.InvalidNodeConfig
  | None => Ok tt
  end;;
  match label "cyc.policy.battery" config with
  | Some value =>
      value ← ok_or (value_from_str value) StoreError.InvalidNodeConfig;
      object ← ok_or (as_object value) StoreError.InvalidNodeConfig;
      reject_if ((length object != 1)
                 || is_none (object_get (lit "allowOnBattery") object ≫= value_as_bool))
        StoreError.InvalidNodeConfig
  | None => Ok tt
  end.

(** The job kind of an element of [cyc.policy.allowedJobKinds]. *)
Definition policy_kind (kind : rstr) : store_result JobKind.t :=
  if (kind == lit "shell") || (kind == lit "service") then Ok JobKind.Shell
  else if kind == lit "build" then Ok JobKind.Build
  else if kind == lit "test" then Ok JobKind.Test
  else if kind == lit "lint" then Ok JobKind.Lint
  else if kind == lit "container" then Ok JobKind.Container
  else if kind == lit "gpu" then Ok JobKind.Gpu
  else if kind == lit "batch" then Ok JobKind.Batch
  else Err StoreError.InvalidNodeConfig.
Fixpoint insert_kinds (kinds : list rstr) (allowed : list JobKind.t) : store_result (list JobKind.t) :=
  match kinds with
  | [] => Ok allowed
  | kind :: rest => kind ← policy_kind kind; insert_kinds rest (kind_insert kind allowed)
  end.

Definition allowed_kinds (config : NodeConfig) : store_result (list JobKind.t) :=
  let allowed := cp_allowed_job_kinds (cfg_capacity config) in
  if is_empty allowed then
    match label "cyc.policy.allowedJobKinds" config with
    | Some value => insert_kinds (List.filter (λ kind, negb (is_empty kind)) (split (chr ",") value)) allowed
    | None => Ok allowed
    end
  else Ok allowed.

(** The parsed label, if there is one. *)
Definition policy_document (label : option rstr) : store_result (option (Value json_number)) :=
  match label with
  | Some value => value ← ok_or (value_from_str value) StoreError.InvalidNodeConfig; Ok (Some value)
  | None => Ok None
  end.

Definition document_get (key : string) (document : option (Value json_number)) :
    option (Value json_number) :=
  match document with Some value => value_get (lit key) value | None => None end.

Definition battery_allowed (config : NodeConfig) : store_result bool :=
  if cp_allow_on_battery (cfg_capacity config) then Ok true
  else
    battery ← policy_document (label "cyc.policy.battery" config);
    Ok (unwrap_or (document_get "allowOnBattery" battery ≫= value_as_bool) false).

Definition effective_capacity_policy (config : NodeConfig) : store_result CapacityPolicy :=
  validate_reserved_policy_labels config;;
  let capacity := cfg_capacity config in
  allowed ← allowed_kinds config;
  resource ← policy_document (label "cyc.policy.resource" config);
  let entry (key : string) : option N := document_get key resource ≫= value_as_u64 in
  let max_cpu_percent : option N :=
    if is_none (cp_max_cpu_percent capacity)
    then match entry "cpuLimitPercent"%string with
         | Some n => if (n <=? u8_max)%N then Some n else None
         | None => None
         end
    else cp_max_cpu_percent capacity in
  let max_concurrent_jobs :=
    if cp_max_concurrent_jobs capacity == 1%N
    then match entry "maximumParallelJobs"%string with
         | Some n => if (n <=? u32_max)%N then n else cp_max_concurrent_jobs capacity
         | None => cp_max_concurrent_jobs capacity
         end
    else cp_max_concurrent_jobs capacity in
  let memory_limit_mib : option N :=
    if is_none (cp_memory_limit_mib capacity)
    then (λ bytes, u64_saturating_add bytes 1048575 / 1048576)%N <$> entry "memoryLimitBytes"%string
    else cp_memory_limit_mib capacity in
  allow_on_battery ← battery_allowed config;
  let capacity :=
    {| cp_max_concurrent_jobs := max_concurrent_jobs;
       cp_allocatable_cpu_cores := cp_allocatable_cpu_cores capacity;
       cp_allocatable_cpu_percent := cp_allocatable_cpu_percent capacity;
       cp_memory_limit_mib := memory_limit_mib; cp_allowed_job_kinds := allowed;
       cp_allow_on_battery := allow_on_battery; cp_max_cpu_percent := max_cpu_percent;
       cp_max_cpu_ewma_percent := cp_max_cpu_ewma_percent capacity;
       cp_max_memory_percent := cp_max_memory_percent capacity;
       cp_max_temperature_c := cp_max_temperature_c capacity |} in
  map_err (λ _, StoreError.InvalidNodeConfig) (CapacityPolicy_validate capacity);;
  Ok capacity.

(** ** Credentials *)

(** [(SELECT COUNT(_) FROM worker_credentials WHERE pairing_id = id)] *)
Definition credential_count (db : Db) (pairing_id : Uuid) : nat :=
  length (List.filter (λ e : Uuid * WorkerCredentialRow, wc_pairing_id e.2 == pairing_id)
            (map_to_list (db_worker_credentials db))).
(** A credential that authenticates: activated, not revoked, and the only one of a
    consumed, acknowledged, live pairing bound to the same node. *)
Definition credential_current (db : Db) (wc : WorkerCredentialRow) : bool :=
  is_some (wc_activated_at wc) && is_none (wc_revoked_at wc)
  && match db_pairings db !! wc_pairing_id wc with
     | Some p =>
         is_some (pa_used_at p) && is_some (pa_acknowledged_at p) && is_none (pa_revoked_at p)
         && is_none (pa_failed_at p) && is_none (pa_failure_code p)
         && (pa_node_id p == Some (wc_node_id wc)) && (pa_intended_node_id p == wc_node_id wc)
         && (credential_count db (wc_pairing_id wc) == 1)
     | None => false
     end.

(** ** Reservations *)
Definition lease_active (now : Z) (l : LeaseRow) : bool :=
  is_none (lr_released_at l)
  && ((now <? lr_expires_at l)%Z || (lr_phase l == LeasePhase.CleanupPending)).
Definition active_leases (db : Db) (now : Z) : list (Uuid * LeaseRow) :=
  List.filter (λ e : Uuid * LeaseRow, lease_active now e.2) (map_to_list (db_leases db)).

Record ReservationTotals := {
  rt_slots : N;
  rt_cpu_cores : N;
  rt_memory_mib : N;
  rt_disk_mib : N;
  rt_gpu_reservations : N;
  rt_count : N
}.
Record GpuReservationTotals := { gt_vram_mib : N; gt_exclusive : bool; gt_count : N }.

Definition reservation_totals (leases : list LeaseRow) : tx ReservationTotals :=
  slots ← sql_sum (map lr_slots leases);
  cpu_cores ← sql_sum (map lr_cpu_cores leases);
  memory_mib ← sql_sum (map lr_memory_mib leases);
  disk_mib ← sql_sum (map lr_disk_mib leases);
  gpu_reservations ← sql_sum (map lr_gpu_reserved leases);
  mret {| rt_slots := as_u64 slots; rt_cpu_cores := as_u64 cpu_cores; rt_memory_mib := as_u64 memory_mib;
          rt_disk_mib := as_u64 disk_mib; rt_gpu_reservations := as_u64 gpu_reservations;
          rt_count := N.of_nat (length leases) |}.
(** The rows grouped by node. *)
Definition active_reservations (now : Z) : tx (list (Uuid * ReservationTotals)) :=
  db ← get_db;
  let leases := map snd (active_leases db now) in
  map_tx (λ node,
    totals ← reservation_totals (List.filter (λ l, lr_node_id l == node) leases);
    mret (node, totals)) (remove_dups (map lr_node_id leases)).

(** The reservations of devices, with the node of their lease. *)
Definition active_gpu_rows (db : Db) (now : Z) : list ((Uuid * rstr) * LeaseGpuRow) :=
  omap (λ '(id, l), g ← db_lease_gpus db !! id; Some ((lr_node_id l, lg_device_id g), g))
    (active_leases db now).
Definition active_gpu_reservations (now : Z) : tx (list ((Uuid * rstr) * GpuReservationTotals)) :=
  db ← get_db;
  let rows := active_gpu_rows db now in
  map_tx (λ key,
    let group := map snd (List.filter (λ r, r.1 == key) rows) in
    vram_mib ← sql_sum (map lg_vram_mib group);
    mret (key, {| gt_vram_mib := as_u64 vram_mib;
                  gt_exclusive := foldr Z.max 0%Z (map lg_exclusive group) != 0%Z;
                  gt_count := N.min (N.of_nat (length group)) u32_max |})) (remove_dups (map fst rows)).

(** ** Views *)
Definition freshness_ttl : N := Z.to_N (NODE_FRESHNESS_SECONDS * nanos_per_second).
Definition node_view_from_documents (id : Uuid) (config : NodeConfig) (inventory : NodeInventory)
    (telemetry : NodeTelemetry) (received_at now : DateTime) : store_result NodeMergeView :=
  map_err StoreError.NodeState (NodeMergeView_merge id config inventory telemetry received_at now freshness_ttl).
(** [view.to_node()?] *)
Definition view_to_node (view : NodeMergeView) : tx Node :=
  match to_node view with
  | Some result => liftr (map_err StoreError.NodeState result)
  | None => throw StoreError.Panicked
  end.

(** The four rows of a node, joined. *)
Record NodeRows := {
  rows_id : Uuid;
  rows_node : NodeRow;
  rows_config : NodeConfigRow;
  rows_inventory : NodeInventoryRow;
  rows_telemetry : NodeTelemetryRow
}.
Definition node_rows (db : Db) (id : Uuid) : option NodeRows :=
  n ← db_nodes db !! id; c ← db_node_configs db !! id; i ← db_node_inventories db !! id;
  t ← db_node_telemetry db !! id;
  Some {| rows_id := id; rows_node := n; rows_config := c; rows_inventory := i; rows_telemetry := t |}.
(** [ORDER BY t.received_at DESC], then by identifier. *)
Definition by_received (x y : NodeRows) : comparison :=
  then_with (Z.compare (ntr_received_at (rows_telemetry y)) (ntr_received_at (rows_telemetry x)))
    (N.compare (rows_id x) (rows_id y)).
Definition all_node_rows (db : Db) : list NodeRows :=
  sort_by by_received (omap (λ e : Uuid * NodeRow, node_rows db e.1) (map_to_list (db_nodes db))).
Definition view_of_rows (now : DateTime) (r : NodeRows) : store_result NodeMergeView :=
  node_view_from_documents (rows_id r) (ncr_document (rows_config r)) (nir_document (rows_inventory r))
    (ntr_document (rows_telemetry r)) (ntr_received_at (rows_telemetry r)) now.

Definition list_all_node_views (now : DateTime) : tx (list NodeMergeView) :=
  db ← get_db;
  map_tx (λ r, liftr (view_of_rows now r)) (all_node_rows db).

Definition list_node_views : tx (list NodeMergeView) := now ← utc_now; list_all_node_views now.
Definition list_nodes : tx (list Node) := views ← list_node_views; map_tx view_to_node views.

(** ** The scheduler's input *)
Definition is_managed (t : NodeTransport.t) : bool :=
  match t with NodeTransport.Managed _ _ => true | _ => false end.

(** Capacity limits, then reservations, off the reported resources. *)
Definition allocatable_cpu (capacity : CapacityPolicy) (r : NodeResources) : N :=
  let cores := match cp_allocatable_cpu_cores capacity with
               | Some limit => N.min (res_available_cpu_cores r) limit
               | None => res_available_cpu_cores r
               end in
  match cp_allocatable_cpu_percent capacity with
  | Some percent =>
      N.min cores (N.min (N.min (res_logical_cpu_cores r * percent) u64_max / 100) u32_max)
  | None => cores
  end.
Definition allocatable_memory (capacity : CapacityPolicy) (r : NodeResources) : N :=
  match cp_memory_limit_mib capacity with
  | Some limit => N.min (res_available_memory_mib r) limit
  | None => res_available_memory_mib r
  end.

(** The loop over the devices: the devices, their reservation counts and the
    running total of detailed reservations. *)
Fixpoint reserve_gpus (find : rstr → option GpuReservationTotals) (ids : list (option rstr))
    (gpus : list GpuDevice) (detailed : N) : list GpuDevice * list N * N :=
  match gpus with
  | [] => ([], [], detailed)
  | gpu :: gpus =>
      let '(id, ids) := match ids with id :: ids => (id, ids) | [] => (None, []) end in
      let '(gpu, count, detailed) :=
        match id ≫= find with
        | Some reserved =>
            let available := saturating_sub (gpu_available_vram_mib gpu) (gt_vram_mib reserved) in
            ({| gpu_vendor := gpu_vendor gpu; gpu_model := gpu_model gpu;
                gpu_total_vram_mib := gpu_total_vram_mib gpu;
                gpu_available_vram_mib := if gt_exclusive reserved then 0%N else available;
                gpu_allocatable := if gt_exclusive reserved then false else gpu_allocatable gpu |},
             gt_count reserved, u64_saturating_add detailed (gt_count reserved))
        | None => (gpu, 0%N, detailed)
        end in
      let '(gpus, counts, detailed) := reserve_gpus find ids gpus detailed in
      (gpu :: gpus, count :: counts, detailed)
  end.
Definition unavailable_gpu (gpu : GpuDevice) : GpuDevice :=
  {| gpu_vendor := gpu_vendor gpu; gpu_model := gpu_model gpu;
     gpu_total_vram_mib := gpu_total_vram_mib gpu; gpu_available_vram_mib := 0; gpu_allocatable := false |}.

(** The identifiers under which devices are reserved, by telemetry position. *)
Fixpoint gpu_ids_from (index : nat) (inventory : list GpuInventory) (telemetry : list GpuTelemetry) :
    list (option rstr) :=
  match telemetry with
  | [] => []
  | t :: telemetry =>
      let stable := inventory !! index ≫= gi_stable_id in
      let id := match stable with
                | Some id => Some id
                | None => match gt_stable_id t with
                          | Some id => Some id
                          | None => Some (lit "gpu-index-" ++ fmt_N (N.of_nat index))
                          end
                end in
      id :: gpu_ids_from (S index) inventory telemetry
  end.

Definition memory_used_percent (i : NodeInventory) (t : NodeTelemetry) : N :=
  if inv_memory_mib i == 0%N then 100
  else N.min (N.min (saturating_sub (inv_memory_mib i) (tel_available_memory_mib t) * 100) u64_max
              / inv_memory_mib i) 100.

(** One record, given the node document, its policy and its reservations. *)
Definition scheduling_node (view : NodeMergeView) (node : Node) (capacity : CapacityPolicy)
    (reserved : option ReservationTotals) (find_gpu : rstr → option GpuReservationTotals) :
    SchedulingNode :=
  let r := node_resources node in
  let cpu := allocatable_cpu capacity r in
  let memory := allocatable_memory capacity r in
  let gpu_device_ids := gpu_ids_from 0 (inv_gpus (view_inventory view)) (tel_gpus (view_telemetry view)) in
  let '(gpus, counts, detailed) := reserve_gpus find_gpu gpu_device_ids (res_gpus r) 0 in
  let gpus := if is_some_and reserved (λ t, (detailed <? rt_gpu_reservations t)%N)
              then map unavailable_gpu gpus else gpus in
  let resources :=
    {| res_logical_cpu_cores := res_logical_cpu_cores r;
       res_available_cpu_cores := match reserved with
         | Some t => saturating_sub cpu (N.min (rt_cpu_cores t) u32_max) | None => cpu end;
       res_memory_mib := res_memory_mib r;
       res_available_memory_mib := match reserved with
         | Some t => saturating_sub memory (rt_memory_mib t) | None => memory end;
       res_disk_mib := res_disk_mib r;
       res_available_disk_mib := match reserved with
         | Some t => saturating_sub (res_available_disk_mib r) (rt_disk_mib t)
         | None => res_available_disk_mib r end;
       res_gpus := gpus |} in
  let load := node_load node in
  let load := match reserved with
    | Some t => {| load_cpu_percent := load_cpu_percent load;
                   load_queue_depth := u32_saturating_add (load_queue_depth load) (N.min (rt_count t) u32_max);
                   load_running_jobs := load_running_jobs load |}
    | None => load end in
  let telemetry := view_telemetry view in
  {| sn_node :=
       {| node_id := node_id node; node_name := node_name node; node_enabled := node_enabled node;
          node_transport := node_transport node; node_os := node_os node; node_arch := node_arch node;
          node_status := node_status node; node_capabilities := node_capabilities node;
          node_resources := resources; node_load := load; node_priority := node_priority node;
          node_labels := node_labels node; node_cached_sources := node_cached_sources node;
          node_last_seen_at := node_last_seen_at node |};
     sn_allowed_job_kinds := cp_allowed_job_kinds capacity;
     sn_allow_on_battery := cp_allow_on_battery capacity;
     sn_on_battery := tel_power_source telemetry == PowerSource.Battery;
     sn_cpu_ewma_percent := tel_cpu_ewma_percent telemetry;
     sn_memory_used_percent := memory_used_percent (view_inventory view) telemetry;
     sn_temperature_c := tel_temperature_c telemetry;
     sn_max_cpu_percent := cp_max_cpu_percent capacity;
     sn_max_cpu_ewma_percent := cp_max_cpu_ewma_percent capacity;
     sn_max_memory_percent := cp_max_memory_percent capacity;
     sn_max_temperature_c := cp_max_temperature_c capacity;
     sn_configured_max_slots := cp_max_concurrent_jobs capacity;
     sn_containment_max_safe_slots := ci_max_safe_slots (inv_containment (view_inventory view));
     sn_active_slots := match reserved with Some t => N.min (rt_slots t) u32_max | None => 0%N end;
     sn_gpu_device_ids := gpu_device_ids;
     sn_gpu_active_reservations := counts |}.

(** The nodes that have a current credential. *)
Definition credentialed (db : Db) (id : Uuid) : bool :=
  existsb (λ e : Uuid * WorkerCredentialRow,
    (wc_node_id e.2 == id) && credential_current db e.2) (map_to_list (db_worker_credentials db)).

Definition fresh_available_nodes (now : DateTime) : tx (list SchedulingNodeRecord) :=
  db ← get_db;
  let rows := List.filter (λ r, credentialed db (rows_id r)) (all_node_rows db) in
  reservations ← active_reservations (unix now);
  gpu_reservations ← active_gpu_reservations (unix now);
  nodes ← map_tx (λ r,
    view ← liftr (view_of_rows now r);
    node ← view_to_node view;
    if negb (is_managed (node_transport node)) then mret None
    else
      capacity ← liftr (effective_capacity_policy (view_config view));
      let reserved := snd <$> List.find (λ e, e.1 == node_id node) reservations in
      let find_gpu device := snd <$> List.find (λ e, e.1 == (node_id node, device)) gpu_reservations in
      mret (Some {| record_scheduling := scheduling_node view node capacity reserved find_gpu;
                    record_revision := nr_revision (rows_node r) |})) rows;
  mret (omap id nodes).

(** ** GPU reservations of a job *)
Definition effective_gpu_request (job : JobSpec) : option GpuResourceRequest :=
  match rr_gpu (effective_resource_request job) with
  | Some request => Some request
  | None =>
      if job_kind job == JobKind.Gpu
      then Some {| grr_device_id := None; grr_vendor := None; grr_vram_mib := 0; grr_exclusive := true |}
      else None
  end.

Definition find_record (nodes : list SchedulingNodeRecord) (id : Uuid) : option SchedulingNodeRecord :=
  List.find (λ r, node_id (sn_node (record_scheduling r)) == id) nodes.

Definition gpu_candidate (sn : SchedulingNode) (request : GpuResourceRequest) (e : nat * GpuDevice) : bool :=
  let '(index, gpu) := e in
  gpu_allocatable gpu && (grr_vram_mib request <=? gpu_available_vram_mib gpu)%N
  && is_none_or (grr_vendor request) (λ vendor, vendor == gpu_vendor gpu)
  && is_none_or (grr_device_id request) (λ requested,
       (sn_gpu_device_ids sn !! index ≫= id) == Some requested)
  && (negb (grr_exclusive request) || (unwrap_or (sn_gpu_active_reservations sn !! index) 0%N == 0%N)).
(** Most free memory; the lower index wins a tie. *)
Definition compare_gpus (x y : nat * GpuDevice) : comparison :=
  then_with (N.compare (gpu_available_vram_mib x.2) (gpu_available_vram_mib y.2))
    (Nat.compare y.1 x.1).

Definition select_gpu_reservation (nodes : list SchedulingNodeRecord) (node_id : Uuid)
    (request : option GpuResourceRequest) : store_result (option (rstr * GpuResourceRequest)) :=
  match request with
  | None => Ok None
  | Some request =>
      record ← ok_or (find_record nodes node_id) StoreError.PlanStale;
      let sn := record_scheduling record in
      let gpus := imap (λ i g, (i, g)) (res_gpus (node_resources (sn_node sn))) in
      match max_by compare_gpus (List.filter (gpu_candidate sn request) gpus) with
      | None => Err StoreError.InvalidTransition
      | Some (index, _) =>
          device_id ← ok_or (sn_gpu_device_ids sn !! index ≫= id) StoreError.InvalidTransition;
          Ok (Some (device_id, request))
      end
  end.
End nodes.
