(* ===== verification/Leases.v ===== *)
(** Jobs, leases and their expiry in [crates/cyc-controller/src/store.rs].

    A job row holds the run document and an optimistic version; a lease row holds
    the capacity reserved for the run and a phase.  [expire_leases] runs at the
    start of every operation that needs current leases: it reaps cleanup
    reservations past their deadline, fails runs whose execution lease expired,
    releases expired dispatches and places their jobs again. *)
From Stdlib Require Import ZArith NArith Lia String.
From stdpp Require Import base option list numbers sets gmap sorting.
From S2P Require Import Prelude Text Crates Protocol Snapshot RunState JobSpec CanonicalJson Scheduler NodeState PlacementBinding WorkerReports WorkerRun Cleanup ControllerDb Planning FleetNodes.
Open Scope rust_scope.

Record StoredJob := {
  st_job : JobSpec;
  st_run : Run;
  st_plan_binding : option PlacementPlanBindingV1;
  st_version : N;
  st_cancel_requested : bool;
  st_lease_id : option Uuid
}.
Ltac assign_stored proj v r :=
  refine (Build_StoredJob ltac:(field proj st_job v r) ltac:(field proj st_run v r)
    ltac:(field proj st_plan_binding v r) ltac:(field proj st_version v r)
    ltac:(field proj st_cancel_requested v r) ltac:(field proj st_lease_id v r)).
Definition set_st_run (v : Run) (r : StoredJob) : StoredJob := ltac:(assign_stored st_run v r).
Definition set_st_plan_binding (v : option PlacementPlanBindingV1) (r : StoredJob) : StoredJob :=
  ltac:(assign_stored st_plan_binding v r).
Definition set_st_version (v : N) (r : StoredJob) : StoredJob := ltac:(assign_stored st_version v r).
Definition set_st_cancel_requested (v : bool) (r : StoredJob) : StoredJob :=
  ltac:(assign_stored st_cancel_requested v r).

Ltac assign_run proj v r :=
  refine (Build_Run ltac:(field proj run_id v r) ltac:(field proj run_job_id v r)
    ltac:(field proj run_node_id v r) ltac:(field proj run_state v r)
    ltac:(field proj run_created_at v r) ltac:(field proj run_started_at v r)
    ltac:(field proj run_finished_at v r) ltac:(field proj run_exit_code v r)
    ltac:(field proj run_error v r) ltac:(field proj run_placement v r)
    ltac:(field proj run_artifact_ids v r)).
Definition set_run_node_id (v : option Uuid) (r : Run) : Run := ltac:(assign_run run_node_id v r).
Definition set_run_placement (v : option PlacementExplain) (r : Run) : Run :=
  ltac:(assign_run run_placement v r).
Definition set_run_exit_code (v : option Z) (r : Run) : Run := ltac:(assign_run run_exit_code v r).
Definition set_run_error (v : option rstr) (r : Run) : Run := ltac:(assign_run run_error v r).
Definition set_run_artifact_ids (v : list Uuid) (r : Run) : Run := ltac:(assign_run run_artifact_ids v r).

Record StoredPlan := { sp_binding : PlacementPlanBindingV1; sp_used_at : option DateTime }.
Record StoredCompletion := {
  sc_completion : RunCompletion;
  sc_sha256 : rstr;
  sc_created_at : DateTime
}.
Record StoredCleanup := { su_receipt : CleanupReceiptV1; su_received_at : DateTime }.
Record StoredCleanupObligation := {
  so_job_id : Uuid;
  so_run_id : Uuid;
  so_lease_id : Uuid;
  so_state_version : N;
  so_final_state : JobState.t;
  so_completion_sha256 : rstr;
  so_terminal_acknowledged_at : DateTime;
  so_cleanup_deadline_at : DateTime;
  so_reservation_released_at : option DateTime;
  so_release_reason : option CleanupReservationReleaseReasonV1.t;
  so_cleanup_failure : option CleanupFailureV1
}.

Section leases.
Context `{UuidCrate, ChronoCrate, SerdeJsonCrate, !StoreSerde, DigestCrate}.
Abbreviation store_result := (result (StoreError.t json_error)).

(** ** Reading jobs *)
Definition decode_job_row (row : JobRow) : store_result StoredJob :=
  let job := jr_job row in
  let run := jr_run row in
  reject_if (run_job_id run != job_id job) StoreError.InvalidPlanBinding;;
  match jr_plan_binding row with
  | Some binding =>
      map_err (λ _, StoreError.InvalidPlanBinding) (PlacementPlanBindingV1_validate binding (Some job) None);;
      reject_if (is_some (run_node_id run)
                 && (run_node_id run != Some (pd_node_id (pb_decision binding)))) StoreError.InvalidPlanBinding;;
      reject_if (is_none (run_node_id run) && (run_state run != JobState.Queued)) StoreError.InvalidPlanBinding
  | None => Ok tt
  end;;
  Ok {| st_job := job; st_run := run; st_plan_binding := jr_plan_binding row;
        st_version := as_u64 (jr_version row); st_cancel_requested := jr_cancel_requested row;
        st_lease_id := jr_lease_id row |}.

Definition job_by_run_id (db : Db) (run_id : Uuid) : store_result StoredJob :=
  row ← ok_or (db_jobs db !! run_id) StoreError.NotFound; decode_job_row row.
Definition job_by_job_id (db : Db) (job_id : Uuid) : store_result StoredJob :=
  row ← ok_or (snd <$> List.find (λ e : Uuid * JobRow, jr_job_id e.2 == job_id) (map_to_list (db_jobs db)))
          StoreError.NotFound;
  decode_job_row row.
Definition get_job_by_run_id (run_id : Uuid) : tx StoredJob :=
  db ← get_db; liftr (job_by_run_id db run_id).
Definition get_job_by_job_id (job_id : Uuid) : tx StoredJob :=
  db ← get_db; liftr (job_by_job_id db job_id).
Definition get_job_prefer_job_id (id : Uuid) : tx StoredJob :=
  db ← get_db;
  match job_by_job_id db id with
  | Err StoreError.NotFound => liftr (job_by_run_id db id)
  | r => liftr r
  end.

(** ** Writing jobs *)
Definition update_job_cas (stored : StoredJob) : tx StoredJob :=
  let id := run_id (st_run stored) in
  let next_version := u64_saturating_add (st_version stored) 1 in
  updated_at ← utc_now;
  db ← get_db;
  match db_jobs db !! id with
  | None => throw StoreError.NotFound
  | Some row =>
      if jr_version row == as_i64 (st_version stored) then
        modify (set_db_jobs (<[id :=
          set_jr_run (st_run stored) (set_jr_cancel_requested (st_cancel_requested stored)
            (set_jr_version (as_i64 next_version) (set_jr_updated_at updated_at
              (set_jr_plan_binding (st_plan_binding stored) row))))]> (db_jobs db)));;
        mret (set_st_version next_version stored)
      else throw (StoreError.VersionConflict (as_u64 (jr_version row)))
  end.

Definition update_lease (id : Uuid) (f : LeaseRow → LeaseRow) : tx unit :=
  modify (λ db, set_db_leases (alter f id (db_leases db)) db).
Definition release_lease (lease_id : option Uuid) (now : Z) : tx bool :=
  match lease_id with
  | None => mret false
  | Some id =>
      db ← get_db;
      match db_leases db !! id with
      | Some row =>
          if is_none (lr_released_at row) then
            update_lease id (set_lr_released_at (Some now));;
            increment_fleet_revision;;
            mret true
          else mret false
      | None => mret false
      end
  end.
(** [UPDATE worker_claims SET revoked_at = now WHERE run_id = .. AND revoked_at IS NULL] *)
Definition revoke_claim (run_id : Uuid) (now : Z) : tx unit :=
  modify (λ db, set_db_worker_claims
    (alter (λ c, if is_none (wl_revoked_at c) then set_wl_revoked_at (Some now) c else c) run_id
       (db_worker_claims db)) db).

(** [stored.run.transition(next)] *)
Definition transition_run_to (next : JobState.t) (error : StoreError.t json_error) (stored : StoredJob) :
    tx StoredJob :=
  now ← utc_now;
  run ← liftr (map_err (λ _, error) (Run_transition now next (st_run stored)));
  mret (set_st_run run stored).
Definition validate_run (stored : StoredJob) : tx unit :=
  liftr (map_err (λ _, StoreError.InvalidRunEvidence) (Run_validate (st_run stored))).

(** ** Plans and placement attempts *)
Definition insert_plan_tx (binding : PlacementPlanBindingV1) (used_at : option DateTime) : tx unit :=
  liftr (map_err (λ _, StoreError.InvalidPlanBinding) (PlacementPlanBindingV1_validate binding None None));;
  db ← get_db;
  if is_some (db_plans db !! pb_plan_id binding) then throw StoreError.Database
  else modify (set_db_plans (<[pb_plan_id binding :=
    {| plr_job_id := pb_job_id binding; plr_decision := pb_decision binding;
       plr_created_at := unix (pb_created_at binding); plr_job_digest := pb_job_digest binding;
       plr_expires_at := unix (pb_expires_at binding); plr_fleet_revision := pb_fleet_revision binding;
       plr_node_revision := pb_node_revision binding; plr_policy_revision := pb_policy_revision binding;
       plr_used_at := unix <$> used_at |}]> (db_plans db))).

Definition get_plan (plan_id : Uuid) : tx StoredPlan :=
  db ← get_db;
  row ← liftr (ok_or (db_plans db !! plan_id) StoreError.NotFound);
  created_at ← timestamp (plr_created_at row);
  expires_at ← timestamp (plr_expires_at row);
  let binding :=
    {| pb_api_version := PLACEMENT_PLAN_BINDING_API_VERSION; pb_plan_id := plan_id;
       pb_job_id := plr_job_id row; pb_job_digest := plr_job_digest row; pb_created_at := created_at;
       pb_expires_at := expires_at; pb_fleet_revision := plr_fleet_revision row;
       pb_node_revision := plr_node_revision row; pb_policy_revision := plr_policy_revision row;
       pb_decision := plr_decision row |} in
  liftr (map_err (λ _, StoreError.InvalidPlanBinding) (PlacementPlanBindingV1_validate binding None None));;
  used_at ← timestamp_opt (plr_used_at row);
  mret {| sp_binding := binding; sp_used_at := used_at |}.

(** [SELECT COALESCE(MAX(attempt), 0) + 1] *)
Definition next_attempt (db : Db) (run_id : Uuid) : N :=
  (foldr N.max 0 (map (λ e : (Uuid * N) * AttemptRow, e.1.2)
     (List.filter (λ e : (Uuid * N) * AttemptRow, e.1.1 == run_id) (map_to_list (db_attempts db)))) + 1)%N.
Definition insert_placement_attempt_tx (run_id : Uuid) (binding : PlacementPlanBindingV1) (reason : rstr) :
    tx N :=
  guard_or (negb ((reason == PLACEMENT_ATTEMPT_INITIAL) || (reason == PLACEMENT_ATTEMPT_DISPATCH_EXPIRED)))
    StoreError.InvalidPlanBinding;;
  liftr (map_err (λ _, StoreError.InvalidPlanBinding) (PlacementPlanBindingV1_validate binding None None));;
  db ← get_db;
  row ← liftr (ok_or (db_jobs db !! run_id) StoreError.NotFound);
  guard_or (jr_job_id row != pb_job_id binding) StoreError.InvalidPlanBinding;;
  let attempt := next_attempt db run_id in
  guard_or (existsb (λ e : (Uuid * N) * AttemptRow, ar_plan_id e.2 == pb_plan_id binding)
              (map_to_list (db_attempts db))) StoreError.Database;;
  modify (set_db_attempts (<[(run_id, attempt) :=
    {| ar_plan_id := pb_plan_id binding; ar_node_id := pd_node_id (pb_decision binding);
       ar_plan_binding := binding; ar_reason := reason;
       ar_created_at := unix (pb_created_at binding) |}]> (db_attempts db)));;
  mret attempt.

(** ** Completions, receipts and obligations *)
Definition get_completion_tx (run_id : Uuid) : tx (option StoredCompletion) :=
  db ← get_db;
  match db_completions db !! run_id with
  | None => mret None
  | Some row =>
      created_at ← timestamp (co_created_at row);
      mret (Some {| sc_completion := co_document row; sc_sha256 := co_document_sha256 row;
                    sc_created_at := created_at |})
  end.
Definition get_cleanup_tx (run_id : Uuid) : tx (option StoredCleanup) :=
  db ← get_db;
  match db_cleanups db !! run_id with
  | None => mret None
  | Some row =>
      received_at ← timestamp (cu_received_at row);
      mret (Some {| su_receipt := cu_document row; su_received_at := received_at |})
  end.
Definition get_cleanup_obligation_tx (run_id : Uuid) : tx (option StoredCleanupObligation) :=
  db ← get_db;
  match db_obligations db !! run_id with
  | None => mret None
  | Some row =>
      failure_observed_at ← timestamp_opt (ob_failure_observed_at row);
      cleanup_failure ←
        match ob_cleanup_failure_code row, failure_observed_at with
        | Some code, Some observed_at => mret (Some {| cf_code := code; cf_observed_at := observed_at |})
        | None, None => mret None
        | _, _ => throw StoreError.InvalidRunEvidence
        end;
      terminal_acknowledged_at ← timestamp (ob_terminal_acknowledged_at row);
      cleanup_deadline_at ← timestamp (ob_cleanup_deadline_at row);
      reservation_released_at ← timestamp_opt (ob_reservation_released_at row);
      mret (Some
        {| so_job_id := ob_job_id row; so_run_id := run_id; so_lease_id := ob_lease_id row;
           so_state_version := as_u64 (ob_state_version row); so_final_state := ob_final_state row;
           so_completion_sha256 := ob_completion_sha256 row;
           so_terminal_acknowledged_at := terminal_acknowledged_at;
           so_cleanup_deadline_at := cleanup_deadline_at;
           so_reservation_released_at := reservation_released_at;
           so_release_reason := ob_release_reason row; so_cleanup_failure := cleanup_failure |})
  end.
Definition update_obligation (run_id : Uuid) (f : ObligationRow → ObligationRow) : tx unit :=
  modify (λ db, set_db_obligations (alter f run_id (db_obligations db)) db).

(** [release_cleanup_reservation_tx] *)
Definition release_cleanup_reservation_tx (run_id lease_id : Uuid) (now : Z) : tx unit :=
  current ← get_cleanup_obligation_tx run_id;
  current ← liftr (ok_or current StoreError.InvalidCleanupReceipt);
  guard_or (so_lease_id current != lease_id) StoreError.InvalidCleanupReceipt;;
  (if is_none (so_reservation_released_at current)
   then update_obligation run_id (λ row,
          set_ob_reservation_released_at (Some now)
            (set_ob_release_reason (Some CleanupReservationReleaseReasonV1.RemovedReceipt) row))
   else mret tt);;
  release_lease (Some lease_id) now;;
  mret tt.

(** ** Expiry *)

(** [ORDER BY cleanup_deadline_at, run_id] *)
Definition due_obligations (db : Db) (now : Z) : list Uuid :=
  map fst (sort_by (λ x y : Uuid * ObligationRow,
      then_with (Z.compare (ob_cleanup_deadline_at x.2) (ob_cleanup_deadline_at y.2)) (N.compare x.1 y.1))
    (List.filter (λ e : Uuid * ObligationRow,
        is_none (ob_reservation_released_at e.2) && (ob_cleanup_deadline_at e.2 <=? now)%Z)
      (map_to_list (db_obligations db)))).

(** The evidence that the reservation belongs to a finished run. *)
Definition proven_terminal (db : Db) (obligation : StoredCleanupObligation) (stored : StoredJob)
    (completion : StoredCompletion) : bool :=
  JobState.is_terminal (run_state (st_run stored))
  && (job_id (st_job stored) == so_job_id obligation)
  && (run_id (st_run stored) == so_run_id obligation)
  && (st_lease_id stored == Some (so_lease_id obligation))
  && (st_version stored == so_state_version obligation)
  && (run_state (st_run stored) == so_final_state obligation)
  && (sc_sha256 completion == so_completion_sha256 obligation)
  && (sc_created_at completion == so_terminal_acknowledged_at obligation)
  && match db_leases db !! so_lease_id obligation with
     | Some l => is_none (lr_released_at l) && (lr_run_id l == so_run_id obligation)
                 && (lr_job_id l == so_job_id obligation) && (lr_phase l == LeasePhase.CleanupPending)
     | None => false
     end.

Definition reap_obligation (now : Z) (reaped : N) (run_id : Uuid) : tx N :=
  obligation ← get_cleanup_obligation_tx run_id;
  obligation ← liftr (ok_or obligation StoreError.InvalidRunEvidence);
  stored ← get_job_by_run_id run_id;
  completion ← get_completion_tx run_id;
  completion ← liftr (ok_or completion StoreError.InvalidRunEvidence);
  db ← get_db;
  if negb (proven_terminal db obligation stored completion) then
    update_obligation run_id (λ row,
      if is_none (ob_reservation_released_at row) then
        set_ob_cleanup_failure_code
          (Some (unwrap_or (ob_cleanup_failure_code row) CleanupFailureCodeV1.RemovedReceiptDeadlineExceeded))
          (set_ob_failure_observed_at (Some (unwrap_or (ob_failure_observed_at row) now)) row)
      else row);;
    mret reaped
  else
    match db_obligations db !! run_id with
    | Some row =>
        if (ob_lease_id row == so_lease_id obligation) && is_none (ob_reservation_released_at row)
           && (ob_cleanup_deadline_at row <=? now)%Z then
          update_obligation run_id (λ row,
            set_ob_reservation_released_at (Some now)
              (set_ob_release_reason (Some CleanupReservationReleaseReasonV1.DeadlineRecovery)
                (set_ob_cleanup_failure_code (Some CleanupFailureCodeV1.RemovedReceiptDeadlineExceeded)
                  (set_ob_failure_observed_at (Some now) row))));;
          release_lease (Some (so_lease_id obligation)) now;;
          mret (u64_saturating_add reaped 1)
        else mret reaped
    | None => mret reaped
    end.
Definition reap_expired_cleanup_reservations_tx (now : Z) : tx N :=
  db ← get_db; fold_tx (reap_obligation now) 0%N (due_obligations db now).

(** [ORDER BY expires_at, id] *)
Definition expired_leases (db : Db) (now : Z) : list (Uuid * LeaseRow) :=
  sort_by (λ x y : Uuid * LeaseRow,
      then_with (Z.compare (lr_expires_at x.2) (lr_expires_at y.2)) (N.compare x.1 y.1))
    (List.filter (λ e : Uuid * LeaseRow,
        is_none (lr_released_at e.2) && (lr_expires_at e.2 <=? now)%Z
        && (lr_phase e.2 != LeasePhase.CleanupPending))
      (map_to_list (db_leases db))).

Definition lease_lost : rstr := lit "worker execution lease expired before completion".
(** What becomes of the run of an expired lease. *)
Definition expire_run (phase : LeasePhase.t) (run_id : Uuid) : tx unit :=
  db ← get_db;
  match job_by_run_id db run_id with
  | Ok stored =>
      if (phase == LeasePhase.Dispatch) && (run_state (st_run stored) == JobState.Queued) then
        update_job_cas (set_st_run (set_run_node_id None (set_run_placement None (st_run stored))) stored);;
        mret tt
      else if negb (JobState.is_terminal (run_state (st_run stored))) then
        stored ← transition_run_to JobState.Failed StoreError.InvalidTransition stored;
        let stored := set_st_run (set_run_exit_code None (set_run_error (Some lease_lost) (st_run stored)))
                        stored in
        validate_run stored;;
        update_job_cas stored;;
        mret tt
      else mret tt
  | Err StoreError.NotFound => mret tt
  | Err e => throw e
  end.
Definition expire_lease (now : Z) (count : N) (e : Uuid * LeaseRow) : tx N :=
  let '(id, lease) := e in
  expire_run (lr_phase lease) (lr_run_id lease);;
  revoke_claim (lr_run_id lease) now;;
  release_lease (Some id) now;;
  mret (u64_saturating_add count 1).

(** ** Placing a job again *)

(** Queued jobs whose lease is gone, released or expired, [ORDER BY created_at, run_id]. *)
Definition redispatchable (db : Db) (now : Z) : list (Uuid * JobRow) :=
  sort_by (λ x y : Uuid * JobRow,
      then_with (Z.compare (jr_created_at x.2) (jr_created_at y.2)) (N.compare x.1 y.1))
    (List.filter (λ e : Uuid * JobRow,
        negb (jr_cancel_requested e.2)
        && match jr_lease_id e.2 ≫= λ id, db_leases db !! id with
           | None => true
           | Some l => is_some (lr_released_at l) || (lr_expires_at l <=? now)%Z
           end)
      (map_to_list (db_jobs db))).

(** [DELETE FROM lease_gpu_reservations] and the insertion of a new one. *)
Definition reserve_gpu (lease_id : Uuid) (reservation : option (rstr * GpuResourceRequest)) : tx unit :=
  modify (λ db, set_db_lease_gpus (delete lease_id (db_lease_gpus db)) db);;
  match reservation with
  | Some (device_id, request) =>
      modify (λ db, set_db_lease_gpus (<[lease_id :=
        {| lg_device_id := device_id; lg_vram_mib := as_i64 (grr_vram_mib request);
           lg_exclusive := if grr_exclusive request then 1%Z else 0%Z |}]> (db_lease_gpus db)) db)
  | None => mret tt
  end.

Definition rearm_lease (lease_id : Uuid) (stored : StoredJob) (node_id : Uuid) (now : Z) : tx unit :=
  let resources := effective_resource_request (st_job stored) in
  db ← get_db;
  match db_leases db !! lease_id with
  | Some l =>
      if (lr_run_id l == run_id (st_run stored))
         && (is_some (lr_released_at l) || (lr_expires_at l <=? now)%Z) then
        modify (set_db_leases (<[lease_id :=
          {| lr_run_id := lr_run_id l; lr_job_id := lr_job_id l; lr_node_id := node_id;
             lr_cpu_cores := Z.of_N (rr_cpu_cores resources); lr_memory_mib := as_i64 (rr_memory_mib resources);
             lr_disk_mib := as_i64 (rr_disk_mib resources);
             lr_gpu_reserved := if is_some (effective_gpu_request (st_job stored)) then 1%Z else 0%Z;
             lr_slots := Z.of_N (rr_slots resources); lr_phase := LeasePhase.Dispatch;
             lr_created_at := lr_created_at l;
             lr_expires_at := i64_saturating_add now DISPATCH_TTL_SECONDS; lr_released_at := None |}]>
          (db_leases db)))
      else throw StoreError.InvalidTransition
  | None => throw StoreError.InvalidTransition
  end.

(** The placement of one queued job; the result says whether it was reactivated. *)
Definition place_again (now : Z) (scheduler : Scheduler) (lease_id : Uuid) (stored : StoredJob) : tx bool :=
  observed_at ← timestamp now;
  nodes ← fresh_available_nodes observed_at;
  match schedule_contexts_at scheduler (st_job stored) (map record_scheduling nodes) observed_at with
  | Err (ScheduleError.NoEligibleNodes explanation) =>
      if is_some (run_node_id (st_run stored)) || (run_placement (st_run stored) != Some explanation) then
        update_job_cas (set_st_run
          (set_run_node_id None (set_run_placement (Some explanation) (st_run stored))) stored);;
        mret false
      else mret false
  | Err e => throw (StoreError.Schedule e)
  | Ok decision =>
      node_revision ← liftr (ok_or (record_revision <$> find_record nodes (dec_node_id decision))
                               StoreError.PlanStale);
      digest ← liftr (map_err StoreError.Document (canonical_job_digest (st_job stored)));
      db ← get_db;
      plan_id ← new_v4;
      binding ← liftr (new_plan_binding plan_id (st_job stored) digest decision observed_at
                         (db_fleet_revision db) node_revision (db_policy_revision db));
      insert_plan_tx binding (Some observed_at);;
      insert_placement_attempt_tx (run_id (st_run stored)) binding PLACEMENT_ATTEMPT_DISPATCH_EXPIRED;;
      reservation ← liftr (select_gpu_reservation nodes (dec_node_id decision)
                             (effective_gpu_request (st_job stored)));
      rearm_lease lease_id stored (dec_node_id decision) now;;
      reserve_gpu lease_id reservation;;
      update_job_cas (set_st_plan_binding (Some binding) (set_st_run
        (set_run_node_id (Some (dec_node_id decision))
          (set_run_placement (Some (dec_explanation decision)) (st_run stored))) stored));;
      mret true
  end.

Definition redispatch_job (now : Z) (scheduler : Scheduler) (reactivated : bool) (e : Uuid * JobRow) :
    tx bool :=
  stored ← liftr (decode_job_row e.2);
  if run_state (st_run stored) != JobState.Queued then mret reactivated
  else
    match st_lease_id stored with
    | None => mret reactivated
    | Some lease_id =>
        placed ← place_again now scheduler lease_id stored;
        mret (reactivated || placed)
    end.
Definition redispatch_queued_jobs (now : Z) (scheduler : Scheduler) : tx unit :=
  db ← get_db;
  reactivated ← fold_tx (redispatch_job now scheduler) false (redispatchable db now);
  if reactivated : bool then increment_fleet_revision else mret tt.

Definition expire_leases (now : Z) : tx N :=
  count ← reap_expired_cleanup_reservations_tx now;
  db ← get_db;
  count ← fold_tx (expire_lease now) count (expired_leases db now);
  redispatch_queued_jobs now Scheduler_default;;
  mret count.
End leases.
