(* ===== verification/NodeWrites.v ===== *)
(** Writing node documents: [upsert_node_tx], node reports, configuration updates
    and worker authentication of [crates/cyc-controller/src/store.rs].

    Configuration belongs to the controller, inventory and telemetry to the
    worker.  A report is accepted only if it is newer than the stored one: by boot
    generation, then by sequence within one boot. *)
From Stdlib Require Import ZArith NArith Lia String.
From stdpp Require Import base option list numbers sets gmap.
From S2P Require Import Prelude Text Crates Protocol NodeState Scheduler CanonicalJson WorkerReports ControllerDb Planning FleetNodes Leases.
Open Scope rust_scope.

Module NodeWriteAuthority.
Inductive t := Controller | Worker | PairingProbe.
#[export] Instance eq_dec : EqDecision t.
Proof. solve_decision. Defined.
End NodeWriteAuthority.
Export (hints) NodeWriteAuthority.

Record StoredNodeConfig := { snc_node_id : Uuid; snc_revision : Z; snc_config : NodeConfig }.
Record NodeReportOutcome := {
  nro_node_id : Uuid;
  nro_accepted : bool;
  nro_inventory_revision : Z;
  nro_inventory_digest : rstr;
  nro_telemetry_boot_generation : N;
  nro_telemetry_boot_id : Uuid;
  nro_telemetry_sequence : N;
  nro_received_at : DateTime
}.

Ltac assign_tel proj v r :=
  refine (Build_NodeTelemetry ltac:(field proj tel_status v r)
    ltac:(field proj tel_available_cpu_cores v r) ltac:(field proj tel_available_memory_mib v r)
    ltac:(field proj tel_available_disk_mib v r) ltac:(field proj tel_gpus v r)
    ltac:(field proj tel_load v r) ltac:(field proj tel_cached_sources v r)
    ltac:(field proj tel_observed_at v r) ltac:(field proj tel_boot_generation v r)
    ltac:(field proj tel_boot_id v r) ltac:(field proj tel_sequence v r)
    ltac:(field proj tel_cpu_ewma_percent v r) ltac:(field proj tel_active_run_ids v r)
    ltac:(field proj tel_power_source v r) ltac:(field proj tel_battery v r)
    ltac:(field proj tel_temperature_c v r)).
Definition set_tel_status (v : NodeStatus.t) (r : NodeTelemetry) : NodeTelemetry :=
  ltac:(assign_tel tel_status v r).

Section nodes.
Context `{UuidCrate, ChronoCrate, SerdeJsonCrate, !StoreSerde, DigestCrate}.
Abbreviation store_result := (result (StoreError.t json_error)).

(** [?] on a [NodeStateError] *)
Definition node_state {A} (m : result NodeStateError.t A) : tx A := liftr (map_err StoreError.NodeState m).
Definition inventory_digest (inventory : NodeInventory) : tx rstr :=
  text ← liftr (map_err StoreError.Document (inventory_to_string inventory));
  mret (lit "sha256:" ++ bytes_sha256 (bytes text)).

(** The configuration a write leaves in place. *)
Definition chosen_config (authority : NodeWriteAuthority.t) (existing : option NodeConfig)
    (incoming : NodeConfig) : NodeConfig :=
  match authority, existing with
  | (NodeWriteAuthority.Worker | NodeWriteAuthority.PairingProbe), Some existing => existing
  | _, None => incoming
  | NodeWriteAuthority.Controller, Some _ => incoming
  end.

Definition upsert_node_tx (node : Node) (authority : NodeWriteAuthority.t) : tx unit :=
  received_at ← (if authority == NodeWriteAuthority.PairingProbe then mret 0%Z else utc_now);
  let id := node_id node in
  let incoming_config := NodeConfig_from_node node in
  let inventory := NodeInventory_from_node node in
  let telemetry := NodeTelemetry_from_node node received_at in
  let telemetry := if authority == NodeWriteAuthority.PairingProbe
                   then set_tel_status NodeStatus.Offline telemetry else telemetry in
  node_state (NodeConfig_validate incoming_config);;
  node_state (NodeInventory_validate inventory);;
  node_state (NodeTelemetry_validate telemetry inventory);;
  db ← get_db;
  let existing_config := ncr_document <$> db_node_configs db !! id in
  let existing_config_revision := unwrap_or (ncr_revision <$> db_node_configs db !! id) 0%Z in
  let existing_inventory := nir_document <$> db_node_inventories db !! id in
  let existing_inventory_revision := unwrap_or (nir_revision <$> db_node_inventories db !! id) 0%Z in
  let config := chosen_config authority existing_config incoming_config in
  let material_changed := (existing_config != Some config) || (existing_inventory != Some inventory) in
  let config_revision :=
    if (authority == NodeWriteAuthority.Controller) && is_some_and existing_config (λ e, e != config)
    then i64_saturating_add existing_config_revision 1 else existing_config_revision in
  let current_revision := unwrap_or (nr_revision <$> db_nodes db !! id) 0%Z in
  let next_revision :=
    if material_changed then i64_saturating_add current_revision 1 else current_revision in
  view ← node_state (NodeMergeView_merge id config inventory telemetry received_at received_at freshness_ttl);
  document ← view_to_node view;
  modify (λ db, set_db_nodes (<[id :=
    {| nr_document := document; nr_updated_at := received_at; nr_revision := next_revision |}]>
    (db_nodes db)) db);;
  (if (authority == NodeWriteAuthority.Controller) || is_none existing_config then
     modify (λ db, set_db_node_configs (<[id :=
       {| ncr_document := config; ncr_updated_at := received_at; ncr_revision := config_revision |}]>
       (db_node_configs db)) db)
   else mret tt);;
  let inventory_revision :=
    if is_some_and existing_inventory (λ e, e != inventory)
    then i64_saturating_add existing_inventory_revision 1 else existing_inventory_revision in
  digest ← inventory_digest inventory;
  modify (λ db, set_db_node_inventories (<[id :=
    {| nir_document := inventory; nir_updated_at := received_at; nir_revision := inventory_revision;
       nir_digest := digest; nir_observed_at := tel_observed_at telemetry |}]>
    (db_node_inventories db)) db);;
  modify (λ db, set_db_node_telemetry (<[id :=
    {| ntr_document := telemetry; ntr_received_at := received_at;
       ntr_boot_generation := as_i64 (tel_boot_generation telemetry);
       ntr_boot_id := tel_boot_id telemetry; ntr_sequence := as_i64 (tel_sequence telemetry);
       ntr_observed_at := tel_observed_at telemetry |}]> (db_node_telemetry db)) db);;
  if material_changed then increment_fleet_revision else mret tt.

Definition upsert_legacy_probe_tx (node : Node) : tx unit :=
  db ← get_db;
  if is_some_and (ntr_boot_id <$> db_node_telemetry db !! node_id node) (λ boot_id, negb (uuid_is_nil boot_id))
  then mret tt
  else upsert_node_tx node NodeWriteAuthority.Worker.

Definition upsert_node (node : Node) : tx unit := upsert_node_tx node NodeWriteAuthority.Controller.

Definition touch_node (id : Uuid) : tx unit :=
  now ← utc_now;
  db ← get_db;
  guard_or (is_none (db_node_telemetry db !! id)) StoreError.NotFound;;
  modify (λ db, set_db_node_telemetry (alter (set_ntr_received_at now) id (db_node_telemetry db)) db);;
  modify (λ db, set_db_nodes (alter (set_nr_updated_at now) id (db_nodes db)) db).

Definition get_node_config (id : Uuid) : tx StoredNodeConfig :=
  db ← get_db;
  row ← liftr (ok_or (db_node_configs db !! id) StoreError.NotFound);
  mret {| snc_node_id := id; snc_revision := ncr_revision row; snc_config := ncr_document row |}.

Definition update_node_config (id : Uuid) (expected_revision : Z) (config : NodeConfig) :
    tx StoredNodeConfig :=
  liftr (map_err (λ _, StoreError.InvalidNodeConfig) (NodeConfig_validate config));;
  liftr (validate_reserved_policy_labels config);;
  liftr (effective_capacity_policy config);;
  guard_or (expected_revision <? 0)%Z StoreError.InvalidNodeConfig;;
  db ← get_db;
  rows ← liftr (ok_or (node_rows db id) StoreError.NotFound);
  let revision := ncr_revision (rows_config rows) in
  guard_or (revision != expected_revision) (StoreError.NodeConfigVersionConflict revision);;
  let next_revision := i64_saturating_add revision 1 in
  now ← utc_now;
  view ← node_state (NodeMergeView_merge id config (nir_document (rows_inventory rows))
           (ntr_document (rows_telemetry rows)) (ntr_received_at (rows_telemetry rows)) now freshness_ttl);
  modify (λ db, set_db_node_configs (<[id :=
    {| ncr_document := config; ncr_updated_at := now; ncr_revision := next_revision |}]>
    (db_node_configs db)) db);;
  document ← view_to_node view;
  modify (λ db, set_db_nodes (<[id :=
    {| nr_document := document; nr_updated_at := now;
       nr_revision := i64_saturating_add (nr_revision (rows_node rows)) 1 |}]> (db_nodes db)) db);;
  increment_fleet_revision;;
  mret {| snc_node_id := id; snc_revision := next_revision; snc_config := config |}.

(** ** Authentication *)
Definition authenticate_worker_tx (credential : rstr) (now : Z) : tx Uuid :=
  let hash := secret_hash credential in
  db ← get_db;
  match List.find (λ e : Uuid * WorkerCredentialRow,
            (wc_credential_hash e.2 == hash) && is_some (db_nodes db !! wc_node_id e.2)
            && credential_current db e.2) (map_to_list (db_worker_credentials db)) with
  | None => throw StoreError.WorkerUnauthorized
  | Some (_, wc) =>
      modify (λ db, set_db_worker_credentials
        ((λ c, if wc_credential_hash c == hash then set_wc_last_used_at (Some now) c else c) <$>
           db_worker_credentials db) db);;
      mret (wc_node_id wc)
  end.
Definition authenticate_worker (credential : rstr) : tx Uuid :=
  now ← utc_now; authenticate_worker_tx credential (unix now).

(** ** Reports *)

(** [generation_order_reject]: the stored telemetry is not older than the report. *)
Definition report_rejected (db : Db) (id : Uuid) (stored : NodeTelemetryRow) (t : NodeTelemetry) : bool :=
  let previous_generation := as_u64 (ntr_boot_generation stored) in
  let previous_boot := ntr_boot_id stored in
  let previous_sequence := as_u64 (ntr_sequence stored) in
  let legacy_retired_boot_replay :=
    (previous_generation == 0%N) && (tel_boot_generation t == 0%N) && (previous_boot != tel_boot_id t)
    && is_some (db_node_telemetry_boots db !! (id, tel_boot_id t)) in
  if (previous_generation == 0%N) && (tel_boot_generation t == 0%N) then
    (previous_boot == tel_boot_id t) && (tel_sequence t <=? previous_sequence)%N
    || legacy_retired_boot_replay
  else
    (tel_boot_generation t <? previous_generation)%N
    || (tel_boot_generation t == previous_generation)
       && ((tel_boot_id t != previous_boot) || (tel_sequence t <=? previous_sequence)%N).

Definition record_node_report (credential : rstr) (report : NodeReportRequest) : tx NodeReportOutcome :=
  liftr (map_err (λ _, StoreError.InvalidNodeReport) (NodeReportRequest_validate report));;
  now ← utc_now;
  expire_leases (unix now);;
  id ← authenticate_worker_tx credential (unix now);
  db ← get_db;
  rows ← liftr (ok_or (node_rows db id) StoreError.NotFound);
  let stored := rows_telemetry rows in
  let telemetry := nr_telemetry report in
  if report_rejected db id stored telemetry then
    mret {| nro_node_id := id; nro_accepted := false;
            nro_inventory_revision := nir_revision (rows_inventory rows);
            nro_inventory_digest := nir_digest (rows_inventory rows);
            nro_telemetry_boot_generation := as_u64 (ntr_boot_generation stored);
            nro_telemetry_boot_id := ntr_boot_id stored;
            nro_telemetry_sequence := as_u64 (ntr_sequence stored);
            nro_received_at := ntr_received_at stored |}
  else
  let previous_inventory := nir_document (rows_inventory rows) in
  let inventory := unwrap_or (nr_inventory report) previous_inventory in
  node_state (NodeInventory_validate inventory);;
  guard_or (negb (is_managed (inv_transport inventory))) StoreError.InvalidManagedNode;;
  node_state (NodeTelemetry_validate telemetry inventory);;
  let inventory_supplied := is_some (nr_inventory report) in
  let inventory_changed := inventory_supplied && (inventory != previous_inventory) in
  let revision := nir_revision (rows_inventory rows) in
  let inventory_revision := if inventory_changed then i64_saturating_add revision 1 else revision in
  digest ← (if inventory_supplied then inventory_digest inventory
            else mret (nir_digest (rows_inventory rows)));
  view ← node_state (NodeMergeView_merge id (ncr_document (rows_config rows)) inventory telemetry now now
                       freshness_ttl);
  (if inventory_supplied then
     modify (λ db, set_db_node_inventories (<[id :=
       {| nir_document := inventory; nir_updated_at := now; nir_revision := inventory_revision;
          nir_digest := digest; nir_observed_at := tel_observed_at telemetry |}]>
       (db_node_inventories db)) db)
   else mret tt);;
  modify (λ db, set_db_node_telemetry (<[id :=
    {| ntr_document := telemetry; ntr_received_at := now;
       ntr_boot_generation := as_i64 (tel_boot_generation telemetry);
       ntr_boot_id := tel_boot_id telemetry; ntr_sequence := as_i64 (tel_sequence telemetry);
       ntr_observed_at := tel_observed_at telemetry |}]> (db_node_telemetry db)) db);;
  modify (λ db, set_db_node_telemetry_boots
    (match db_node_telemetry_boots db !! (id, tel_boot_id telemetry) with
     | Some _ => db_node_telemetry_boots db
     | None => <[(id, tel_boot_id telemetry) := now]> (db_node_telemetry_boots db)
     end) db);;
  document ← view_to_node view;
  modify (λ db, set_db_nodes (<[id :=
    {| nr_document := document; nr_updated_at := now;
       nr_revision := if inventory_changed then i64_saturating_add (nr_revision (rows_node rows)) 1
                      else nr_revision (rows_node rows) |}]> (db_nodes db)) db);;
  (if inventory_changed then increment_fleet_revision else mret tt);;
  redispatch_queued_jobs (unix now) Scheduler_default;;
  mret {| nro_node_id := id; nro_accepted := true; nro_inventory_revision := inventory_revision;
          nro_inventory_digest := digest;
          nro_telemetry_boot_generation := tel_boot_generation telemetry;
          nro_telemetry_boot_id := tel_boot_id telemetry;
          nro_telemetry_sequence := tel_sequence telemetry; nro_received_at := now |}.
End nodes.
