(* ===== verification/Uploads.v ===== *)
(** Run authorization and what a run uploads: logs, artifacts and snapshots of
    [crates/cyc-controller/src/store.rs].

    A worker acts on a run with two secrets: its node credential and the one-time
    credential of its claim.  Log chunks and artifacts are rows that point to
    files named by the controller; a file, once written, is never replaced by
    other content. *)
From Stdlib Require Import ZArith NArith Lia String.
From stdpp Require Import base option list numbers sets gmap sorting.
From S2P Require Import Prelude Text Crates Protocol PortablePath Snapshot RunState JobSpec CanonicalJson WorkerReports ControllerDb FleetNodes Leases NodeWrites.
Open Scope rust_scope.

Record LogChunk := {
  lgc_run_id : Uuid;
  lgc_stream : rstr;
  lgc_offset : N;
  lgc_length : N;
  lgc_sha256 : rstr;
  lgc_created_at : DateTime
}.
Record StoredArtifact := {
  sa_id : Uuid;
  sa_run_id : Uuid;
  sa_name : rstr;
  sa_size : N;
  sa_sha256 : rstr;
  sa_created_at : DateTime
}.
Record StoredSnapshot := { ss_metadata : SnapshotMetadataV1; ss_relative_path : rstr }.
Record SnapshotDownload := { sd_metadata : SnapshotMetadataV1; sd_path : rstr }.

Definition valid_stream (stream : rstr) : bool := (stream == lit "stdout") || (stream == lit "stderr").
Definition valid_artifact_name (name : rstr) : bool :=
  (len name <=? 512)%N && is_ok (validate_portable_relative_path name)
  && negb (existsb (λ segment, segment == lit ".git") (split SLASH name)).

(** [Path::components] of a relative path with [/] separators are all normal:
    it is not absolute, no component is [..] and it does not start with [.]. *)
Definition safe_object_path (relative : rstr) : bool :=
  negb (starts_with [SLASH] relative)
  && match split SLASH relative with
     | first :: rest =>
         (first != dot_segment) && (first != parent_segment)
         && forallb (λ segment, segment != parent_segment) rest
     | [] => true
     end.

Section uploads.
Context `{UuidCrate, ChronoCrate, SerdeJsonCrate, !StoreSerde, DigestCrate}.
Abbreviation store_result := (result (StoreError.t json_error)).

(** ** Authorization *)

Definition claim_live (now : Z) (c : WorkerClaimRow) : bool :=
  is_none (wl_revoked_at c) && (now <? wl_expires_at c)%Z.
(** A lease whose execution may be renewed or reported on. *)
Definition lease_executing (now : Z) (l : LeaseRow) : bool :=
  is_none (lr_released_at l) && (now <? lr_expires_at l)%Z
  && ((lr_phase l == LeasePhase.Execution) || (lr_phase l == LeasePhase.Legacy)).

Definition authorize_run_tx (worker_credential run_credential : rstr) (run_id lease_id : Uuid) (now : Z) :
    tx Uuid :=
  id ← authenticate_worker_tx worker_credential now;
  db ← get_db;
  match db_worker_claims db !! run_id with
  | Some c =>
      if (wl_lease_id c == lease_id) && (wl_credential_hash c == secret_hash run_credential)
         && claim_live now c
         && is_some_and (db_leases db !! lease_id) (λ l, (lr_run_id l == run_id) && lease_executing now l)
      then
        guard_or (wl_node_id c != id) StoreError.RunUnauthorized;;
        mret id
      else throw StoreError.RunUnauthorized
  | None => throw StoreError.RunUnauthorized
  end.

Definition authorize_completion_receipt_tx (worker_credential run_credential : rstr)
    (run_id lease_id : Uuid) (now : Z) : tx Uuid :=
  id ← authenticate_worker_tx worker_credential now;
  db ← get_db;
  match db_worker_claims db !! run_id with
  | Some c =>
      if (wl_lease_id c == lease_id) && (wl_credential_hash c == secret_hash run_credential) then
        guard_or (wl_node_id c != id) StoreError.RunUnauthorized;;
        mret id
      else throw StoreError.RunUnauthorized
  | None => throw StoreError.RunUnauthorized
  end.

Definition preauthorize_run_route (worker_credential run_credential : rstr) (run_id : Uuid)
    (allow_revoked_completion : bool) : tx unit :=
  now ← utc_now;
  let now := unix now in
  id ← authenticate_worker_tx worker_credential now;
  db ← get_db;
  match db_worker_claims db !! run_id with
  | Some c =>
      if (wl_credential_hash c == secret_hash run_credential)
         && (claim_live now c || allow_revoked_completion && is_some (db_completions db !! run_id))
      then guard_or (wl_node_id c != id) StoreError.RunUnauthorized
      else throw StoreError.RunUnauthorized
  | None => throw StoreError.RunUnauthorized
  end.

Fixpoint ensure_artifacts_belong_to_run (run_id : Uuid) (artifact_ids : list Uuid) : tx unit :=
  match artifact_ids with
  | [] => mret tt
  | id :: rest =>
      db ← get_db;
      row ← liftr (ok_or (db_artifacts db !! id) StoreError.InvalidRunEvidence);
      guard_or (atr_run_id row != run_id) StoreError.InvalidRunEvidence;;
      ensure_artifacts_belong_to_run run_id rest
  end.

(** ** Files *)

(** [fs::read(safe_object_path(root, relative)?)] *)
Definition read_generated_object (relative : rstr) : tx (list N) :=
  guard_or (negb (safe_object_path relative)) StoreError.InvalidUpload;;
  files ← get_files;
  liftr (ok_or (fs_objects files !! relative) StoreError.Io).
(** The temporary name is a fresh identifier. *)
Definition write_immutable_object (relative : rstr) (data : list N) (expected_sha256 : rstr) : tx unit :=
  guard_or (negb (safe_object_path relative)) StoreError.InvalidUpload;;
  files ← get_files;
  match fs_objects files !! relative with
  | Some existing =>
      guard_or (negb ((bytes_sha256 existing == expected_sha256) && (existing == data)))
        StoreError.UploadConflict
  | None => new_v4;; put_object relative data
  end.

(** [{offset:020}] *)
Definition pad_left (width : nat) (c : char) (s : rstr) : rstr := replicate (width - length s) c ++ s.
Definition generated_log_relative_path (job_id run_id : Uuid) (stream : rstr) (offset : N)
    (sha256 : rstr) : rstr :=
  join SLASH [uuid_display job_id; uuid_display run_id; lit "logs"; stream;
    pad_left 20 (chr "0") (fmt_N offset) ++ lit "-" ++ sha256 ++ lit ".chunk"].
Definition generated_artifact_relative_path (job_id run_id artifact_id : Uuid) : rstr :=
  join SLASH [uuid_display job_id; uuid_display run_id; lit "artifacts"; uuid_display artifact_id ++ lit ".bin"].

(** ** Logs *)
Definition log_rows (db : Db) (run_id : Uuid) : list (((Uuid * rstr) * Z) * LogChunkRow) :=
  List.filter (λ e : ((Uuid * rstr) * Z) * LogChunkRow, e.1.1.1 == run_id) (map_to_list (db_log_chunks db)).
(** [ORDER BY stream, chunk_offset] *)
Definition by_stream_offset (x y : ((Uuid * rstr) * Z) * LogChunkRow) : comparison :=
  then_with (str_cmp x.1.1.2 y.1.1.2) (Z.compare x.1.2 y.1.2).
Definition stream_rows (db : Db) (run_id : Uuid) (stream : rstr) : list (Z * LogChunkRow) :=
  map (λ e : ((Uuid * rstr) * Z) * LogChunkRow, (e.1.2, e.2))
    (sort_by by_stream_offset (List.filter (λ e, e.1.1.2 == stream) (log_rows db run_id))).

Definition log_chunk (run_id : Uuid) (stream : rstr) (offset : N) (row : LogChunkRow) : tx LogChunk :=
  created_at ← timestamp (lc_created_at row);
  mret {| lgc_run_id := run_id; lgc_stream := stream; lgc_offset := offset;
          lgc_length := as_u64 (lc_chunk_length row); lgc_sha256 := lc_sha256 row;
          lgc_created_at := created_at |}.
Definition get_log_chunk (run_id : Uuid) (stream : rstr) (offset : N) : tx (option LogChunk) :=
  db ← get_db;
  match db_log_chunks db !! (run_id, stream, as_i64 offset) with
  | None => mret None
  | Some row => chunk ← log_chunk run_id stream offset row; mret (Some chunk)
  end.

Definition put_log_chunk (worker_credential run_credential : rstr) (run_id lease_id : Uuid)
    (stream : rstr) (offset : N) (expected_sha256 : rstr) (data : list N) : tx LogChunk :=
  guard_or (negb (valid_stream stream) || negb (valid_sha256 expected_sha256) || is_empty data)
    StoreError.InvalidUpload;;
  guard_or (bytes_sha256 data != expected_sha256) StoreError.DigestMismatch;;
  now ← utc_now;
  expire_leases (unix now);;
  authorize_run_tx worker_credential run_credential run_id lease_id (unix now);;
  existing ← get_log_chunk run_id stream offset;
  match existing with
  | Some existing =>
      if (lgc_sha256 existing == expected_sha256) && (lgc_length existing == byte_len data)
      then mret existing
      else throw StoreError.UploadConflict
  | None =>
      db ← get_db;
      total_bytes ← sql_sum (map (λ e, lc_chunk_length e.2) (log_rows db run_id));
      let total_chunks := N.of_nat (length (log_rows db run_id)) in
      guard_or ((MAX_RUN_LOG_BYTES <? u64_saturating_add (as_u64 total_bytes) (byte_len data))%N
                || (MAX_RUN_LOG_CHUNKS <=? total_chunks)%N) StoreError.LogQuotaExceeded;;
      next_offset ← sql_sum (map (λ e, lc_chunk_length e.2) (stream_rows db run_id stream));
      guard_or (as_u64 next_offset != offset) StoreError.UploadOffset;;
      stored ← get_job_by_run_id run_id;
      let relative := generated_log_relative_path (job_id (st_job stored)) run_id stream offset expected_sha256 in
      write_immutable_object relative data expected_sha256;;
      modify (λ db, set_db_log_chunks (<[(run_id, stream, as_i64 offset) :=
        {| lc_chunk_length := as_i64 (byte_len data); lc_sha256 := expected_sha256;
           lc_relative_path := relative; lc_created_at := unix now |}]> (db_log_chunks db)) db);;
      mret {| lgc_run_id := run_id; lgc_stream := stream; lgc_offset := offset;
              lgc_length := byte_len data; lgc_sha256 := expected_sha256; lgc_created_at := now |}
  end.

Definition list_log_chunks (id : Uuid) : tx (list LogChunk) :=
  stored ← get_job_prefer_job_id id;
  db ← get_db;
  let run := run_id (st_run stored) in
  map_tx (λ e : ((Uuid * rstr) * Z) * LogChunkRow, log_chunk run e.1.1.2 (as_u64 e.1.2) e.2)
    (sort_by by_stream_offset (log_rows db run)).

(** The loop of [read_log] over the ordered rows. *)
Fixpoint read_chunks (output : list N) (rows : list (Z * LogChunkRow)) : tx (list N) :=
  match rows with
  | [] => mret output
  | (offset, row) :: rows =>
      guard_or (as_u64 offset != byte_len output) StoreError.UploadOffset;;
      data ← read_generated_object (lc_relative_path row);
      guard_or ((byte_len data != as_u64 (lc_chunk_length row)) || (bytes_sha256 data != lc_sha256 row))
        StoreError.DigestMismatch;;
      read_chunks (output ++ data) rows
  end.
Definition read_log (id : Uuid) (stream : rstr) : tx (list N) :=
  guard_or (negb (valid_stream stream)) StoreError.InvalidUpload;;
  stored ← get_job_prefer_job_id id;
  db ← get_db;
  read_chunks [] (stream_rows db (run_id (st_run stored)) stream).

(** ** Artifacts *)
Definition stored_artifact (id : Uuid) (row : ArtifactRow) : tx StoredArtifact :=
  created_at ← timestamp (atr_created_at row);
  mret {| sa_id := id; sa_run_id := atr_run_id row; sa_name := atr_name row;
          sa_size := as_u64 (atr_size row); sa_sha256 := atr_sha256 row; sa_created_at := created_at |}.
Definition get_artifact (id : Uuid) : tx (option StoredArtifact) :=
  db ← get_db;
  match db_artifacts db !! id with
  | None => mret None
  | Some row => artifact ← stored_artifact id row; mret (Some artifact)
  end.
Definition artifact_rows (db : Db) (run_id : Uuid) : list (Uuid * ArtifactRow) :=
  List.filter (λ e : Uuid * ArtifactRow, atr_run_id e.2 == run_id) (map_to_list (db_artifacts db)).

Definition put_artifact (worker_credential run_credential : rstr) (run_id lease_id artifact_id : Uuid)
    (name expected_sha256 : rstr) (data : list N) : tx StoredArtifact :=
  guard_or (negb (valid_artifact_name name) || negb (valid_sha256 expected_sha256)) StoreError.InvalidUpload;;
  guard_or (bytes_sha256 data != expected_sha256) StoreError.DigestMismatch;;
  now ← utc_now;
  expire_leases (unix now);;
  authorize_run_tx worker_credential run_credential run_id lease_id (unix now);;
  existing ← get_artifact artifact_id;
  match existing with
  | Some existing =>
      if (sa_run_id existing == run_id) && (sa_sha256 existing == expected_sha256)
         && (sa_size existing == byte_len data) && (sa_name existing == name)
      then mret existing
      else throw StoreError.UploadConflict
  | None =>
      db ← get_db;
      total_bytes ← sql_sum (map (λ e, atr_size e.2) (artifact_rows db run_id));
      let total_count := N.of_nat (length (artifact_rows db run_id)) in
      guard_or ((MAX_RUN_ARTIFACT_BYTES <? u64_saturating_add (as_u64 total_bytes) (byte_len data))%N
                || (MAX_RUN_ARTIFACT_COUNT <=? total_count)%N) StoreError.ArtifactQuotaExceeded;;
      stored ← get_job_by_run_id run_id;
      let relative := generated_artifact_relative_path (job_id (st_job stored)) run_id artifact_id in
      write_immutable_object relative data expected_sha256;;
      modify (λ db, set_db_artifacts (<[artifact_id :=
        {| atr_run_id := run_id; atr_name := name; atr_size := as_i64 (byte_len data);
           atr_sha256 := expected_sha256; atr_relative_path := relative; atr_created_at := unix now |}]>
        (db_artifacts db)) db);;
      mret {| sa_id := artifact_id; sa_run_id := run_id; sa_name := name; sa_size := byte_len data;
              sa_sha256 := expected_sha256; sa_created_at := now |}
  end.

(** [ORDER BY created_at, id] *)
Definition by_artifact_created (x y : Uuid * ArtifactRow) : comparison :=
  then_with (Z.compare (atr_created_at x.2) (atr_created_at y.2)) (N.compare x.1 y.1).
Definition list_artifacts (id : Uuid) : tx (list StoredArtifact) :=
  stored ← get_job_prefer_job_id id;
  db ← get_db;
  map_tx (λ e : Uuid * ArtifactRow, stored_artifact e.1 e.2)
    (sort_by by_artifact_created (artifact_rows db (run_id (st_run stored)))).

Definition read_artifact (id artifact_id : Uuid) : tx (StoredArtifact * list N) :=
  stored ← get_job_prefer_job_id id;
  artifact ← get_artifact artifact_id;
  artifact ← liftr (ok_or artifact StoreError.NotFound);
  guard_or (sa_run_id artifact != run_id (st_run stored)) StoreError.NotFound;;
  db ← get_db;
  row ← liftr (ok_or (db_artifacts db !! artifact_id) StoreError.Database);
  data ← read_generated_object (atr_relative_path row);
  guard_or ((byte_len data != sa_size artifact) || (bytes_sha256 data != sa_sha256 artifact))
    StoreError.DigestMismatch;;
  mret (artifact, data).

(** ** Snapshots *)
Definition snapshot_digest_of (data : list N) : rstr := lit "sha256:" ++ bytes_sha256 data.
Definition get_snapshot (digest : rstr) : tx (option StoredSnapshot) :=
  db ← get_db;
  match db_snapshots db !! digest with
  | None => mret None
  | Some row =>
      created_at ← timestamp (snr_created_at row);
      let metadata :=
        {| snap_api_version := snr_api_version row; snap_format := snr_archive_format row;
           snap_digest := digest; snap_size_bytes := as_u64 (snr_size row);
           snap_created_at := created_at |} in
      liftr (map_err (λ _, StoreError.InvalidUpload) (SnapshotMetadataV1_validate metadata));;
      mret (Some {| ss_metadata := metadata; ss_relative_path := snr_relative_path row |})
  end.
Definition generated_snapshot_relative_path (digest : rstr) : store_result rstr :=
  digits ← map_err (λ _, StoreError.InvalidUpload) (snapshot_digest_hex digest);
  Ok (join SLASH [lit "sha256"; digits ++ lit ".tar.zst"]).

(** The directories and the file are plain ones: their links and reparse points
    are outside the model. *)
Definition verify_snapshot_object (stored : StoredSnapshot) : tx rstr :=
  guard_or (negb (safe_object_path (ss_relative_path stored))) StoreError.InvalidUpload;;
  files ← get_files;
  data ← liftr (ok_or (fs_snapshots files !! ss_relative_path stored) StoreError.Io);
  guard_or (byte_len data != snap_size_bytes (ss_metadata stored)) StoreError.DigestMismatch;;
  guard_or (snapshot_digest_of data != snap_digest (ss_metadata stored)) StoreError.DigestMismatch;;
  mret (ss_relative_path stored).
Definition write_immutable_snapshot (relative : rstr) (data : list N) (expected_digest : rstr) : tx unit :=
  guard_or (negb (safe_object_path relative)) StoreError.InvalidUpload;;
  files ← get_files;
  match fs_snapshots files !! relative with
  | Some existing =>
      guard_or (negb ((byte_len existing <=? MAX_SNAPSHOT_ARCHIVE_BYTES)%N
                      && (snapshot_digest_of existing == expected_digest) && (existing == data)))
        StoreError.UploadConflict
  | None => new_v4;; put_snapshot_file relative data
  end.

Definition put_snapshot (digest : rstr) (declared_size : N) (data : list N) : tx SnapshotMetadataV1 :=
  candidate_time ← utc_now;
  liftr (map_err (λ _, StoreError.InvalidUpload)
    (SnapshotMetadataV1_validate (SnapshotMetadataV1_new digest declared_size candidate_time)));;
  guard_or (MAX_SNAPSHOT_ARCHIVE_BYTES <? byte_len data)%N StoreError.SnapshotQuotaExceeded;;
  guard_or (byte_len data != declared_size) StoreError.InvalidUpload;;
  guard_or (snapshot_digest_of data != digest) StoreError.DigestMismatch;;
  existing ← get_snapshot digest;
  match existing with
  | Some existing =>
      let m := ss_metadata existing in
      guard_or ((snap_size_bytes m != declared_size) || (snap_api_version m != SNAPSHOT_API_VERSION)
                || (snap_format m != SNAPSHOT_ARCHIVE_FORMAT)) StoreError.UploadConflict;;
      verify_snapshot_object existing;;
      mret m
  | None =>
      relative ← liftr (generated_snapshot_relative_path digest);
      write_immutable_snapshot relative data digest;;
      now ← utc_now;
      now ← timestamp (unix now);
      modify (λ db, set_db_snapshots (<[digest :=
        {| snr_size := as_i64 declared_size; snr_api_version := SNAPSHOT_API_VERSION;
           snr_archive_format := SNAPSHOT_ARCHIVE_FORMAT; snr_relative_path := relative;
           snr_created_at := unix now |}]> (db_snapshots db)) db);;
      mret (SnapshotMetadataV1_new digest declared_size now)
  end.
Definition get_snapshot_metadata (digest : rstr) : tx SnapshotMetadataV1 :=
  liftr (map_err (λ _, StoreError.InvalidUpload) (validate_snapshot_digest digest));;
  stored ← get_snapshot digest;
  stored ← liftr (ok_or stored StoreError.NotFound);
  verify_snapshot_object stored;;
  mret (ss_metadata stored).

Definition authorize_snapshot_download (worker_credential run_credential : rstr) (run_id lease_id : Uuid)
    (requested_digest : rstr) : tx SnapshotDownload :=
  liftr (map_err (λ _, StoreError.InvalidUpload) (validate_snapshot_digest requested_digest));;
  now ← utc_now;
  expire_leases (unix now);;
  authorize_run_tx worker_credential run_credential run_id lease_id (unix now);;
  stored_job ← get_job_by_run_id run_id;
  expected_size ←
    match job_source (st_job stored_job) with
    | SourceSpec.Snapshot digest (Some size_bytes) =>
        if digest == requested_digest then mret size_bytes else throw StoreError.RunUnauthorized
    | _ => throw StoreError.RunUnauthorized
    end;
  stored ← get_snapshot requested_digest;
  stored ← liftr (ok_or stored StoreError.NotFound);
  guard_or (snap_size_bytes (ss_metadata stored) != expected_size) StoreError.DigestMismatch;;
  path ← verify_snapshot_object stored;
  mret {| sd_metadata := ss_metadata stored; sd_path := path |}.
End uploads.
