(* ===== verification/CompletionEvidence.v ===== *)
(** The controller's check of a managed completion: [validate_managed_completion]
    of [crates/cyc-controller/src/store.rs] and the functions it calls.

    The message itself was validated by [RunCompletion_validate]; here it is
    compared with what the controller knows: the job's source and steps, the log
    chunks it stored, and the artifacts it stored. *)
From Stdlib Require Import ZArith NArith Lia String.
From stdpp Require Import base option list numbers sets gmap sorting.
From S2P Require Import Prelude Text Crates Protocol RunState JobSpec CanonicalJson NodeState WorkerReports WorkerRun ControllerDb FleetNodes Leases Uploads.
Open Scope rust_scope.

Section completion.
Context `{UuidCrate, ChronoCrate, SerdeJsonCrate, !StoreSerde, DigestCrate}.
Abbreviation store_result := (result (StoreError.t json_error)).

(** The reasons for which a run may end before its source was resolved. *)
Definition unresolved_reason (r : TerminationReason.t) : bool :=
  match r with
  | TerminationReason.SourcePreparationFailed | TerminationReason.CancelRequested
  | TerminationReason.LeaseLost | TerminationReason.TimedOut
  | TerminationReason.TransportFailure => true
  | _ => false
  end.
Definition validate_execution_source (source : SourceSpec.t) (final_state : JobState.t)
    (execution : ExecutionEvidence) : store_result unit :=
  let observed := xe_source execution in
  let unresolved := is_empty (xs_resolved_revision observed) && is_empty (xs_tree observed) in
  let refused := (final_state == JobState.Succeeded)
                 || negb (unresolved_reason (te_reason (xe_termination execution))) in
  match source with
  | SourceSpec.Git repository revision =>
      reject_if ((xs_kind observed != lit "git") || (xs_repository observed != repository)
                 || (xs_requested_revision observed != revision)) StoreError.InvalidRunEvidence;;
      if unresolved then reject_if refused StoreError.InvalidRunEvidence
      else
        reject_if ((xs_resolved_revision observed != revision) || negb (valid_object_id (xs_tree observed))
                   || negb (starts_with (lit "git version ") (xs_git_version observed)))
          StoreError.InvalidRunEvidence
  | SourceSpec.Snapshot digest _ =>
      reject_if ((xs_kind observed != lit "snapshot") || (xs_repository observed != lit "snapshot")
                 || (xs_requested_revision observed != digest)
                 || (xs_git_version observed != lit "not-applicable")) StoreError.InvalidRunEvidence;;
      if unresolved then reject_if refused StoreError.InvalidRunEvidence
      else
        reject_if ((xs_resolved_revision observed != digest) || (xs_tree observed != digest))
          StoreError.InvalidRunEvidence
  end.

Definition default_shell (os : OperatingSystem.t) : Shell.t :=
  match os with
  | OperatingSystem.Windows => Shell.Powershell
  | OperatingSystem.Linux => Shell.Bash
  | OperatingSystem.Macos => Shell.Zsh
  end.
(** [steps.iter().zip(&job.steps)] *)
Fixpoint check_steps (shell : Shell.t) (started_at : option DateTime) (finished_at : DateTime)
    (previous_finished : option DateTime) (steps : list (StepExecutionEvidence * JobStep)) :
    store_result unit :=
  match steps with
  | [] => Ok tt
  | (observed, expected) :: steps =>
      reject_if ((se_name observed != step_name expected)
                 || (se_shell observed != unwrap_or (step_shell expected) shell)
                 || is_some_and started_at (λ started, (se_started_at observed <? started)%Z)
                 || (finished_at <? se_finished_at observed)%Z
                 || is_some_and previous_finished (λ finished, (se_started_at observed <? finished)%Z))
        StoreError.InvalidRunEvidence;;
      check_steps shell started_at finished_at (Some (se_finished_at observed)) steps
  end.
Definition validate_step_evidence (job : JobSpec) (os : OperatingSystem.t) (completion : RunCompletion) :
    store_result unit :=
  let execution := rc_execution completion in
  let steps := xe_steps execution in
  reject_if (bool_decide (length (job_steps job) < length steps)
             || ((rc_final_state completion == JobState.Succeeded) && (length steps != length (job_steps job)))
             || (is_empty (xs_resolved_revision (xe_source execution)) && is_empty (xs_tree (xe_source execution))
                 && negb (is_empty steps))) StoreError.InvalidRunEvidence;;
  finished_at ← ok_or (ev_finished_at (rc_evidence completion)) StoreError.InvalidRunEvidence;
  check_steps (default_shell os) (ev_started_at (rc_evidence completion)) finished_at None
    (zip steps (job_steps job));;
  reject_if ((rc_final_state completion == JobState.Cancelled)
             && negb (match te_reason (xe_termination execution) with
                      | TerminationReason.CancelRequested | TerminationReason.TimedOut
                      | TerminationReason.LeaseLost => true
                      | _ => false
                      end)) StoreError.InvalidRunEvidence.

(** ** Stored streams *)

(** The loop of [verify_stream_evidence]: the bytes hashed so far, their number
    and the number of chunks. *)
Fixpoint hash_chunks (hashed : list N) (byte_count chunk_count : N) (rows : list (Z * LogChunkRow)) :
    tx (list N * N * N) :=
  match rows with
  | [] => mret (hashed, byte_count, chunk_count)
  | (offset, row) :: rows =>
      let length := as_u64 (lc_chunk_length row) in
      guard_or ((as_u64 offset != byte_count) || (length == 0%N) || negb (valid_sha256 (lc_sha256 row)))
        StoreError.InvalidRunEvidence;;
      data ← read_generated_object (lc_relative_path row);
      guard_or ((byte_len data != length) || (bytes_sha256 data != lc_sha256 row)) StoreError.DigestMismatch;;
      hash_chunks (hashed ++ data) (u64_saturating_add byte_count length)
        (u64_saturating_add chunk_count 1) rows
  end.
Definition verify_stream_evidence (run_id : Uuid) (stream : rstr) (expected : StreamEvidence) :
    tx (N * N) :=
  db ← get_db;
  hashed ← hash_chunks [] 0 0 (stream_rows db run_id stream);
  let '(data, byte_count, chunk_count) := hashed in
  guard_or ((st_byte_count expected != byte_count) || (st_chunk_count expected != chunk_count)
            || (st_sha256 expected != bytes_sha256 data)) StoreError.InvalidRunEvidence;;
  mret (byte_count, chunk_count).

(** ** Stored artifacts *)

(** [ORDER BY id] *)
Definition artifacts_by_id (db : Db) (run_id : Uuid) : list (Uuid * ArtifactRow) :=
  sort_by (λ x y : Uuid * ArtifactRow, N.compare x.1 y.1) (artifact_rows db run_id).
(** [!ids.insert(id)] cannot hold: [id] is the primary key of [artifacts].
    The entry of [collect::<BTreeMap<_, _>>()]: the last one with the identifier. *)
Definition manifest_entry (artifacts : list ArtifactMetadata) (id : Uuid) : option ArtifactMetadata :=
  List.find (λ a, am_id a == id) (rev artifacts).
Fixpoint check_artifacts (completion : RunCompletion) (total_bytes : N)
    (rows : list (Uuid * ArtifactRow)) : tx N :=
  match rows with
  | [] => mret total_bytes
  | (id, row) :: rows =>
      let size := as_u64 (atr_size row) in
      manifest ← liftr (ok_or (manifest_entry (rc_artifacts completion) id) StoreError.InvalidRunEvidence);
      guard_or ((am_run_id manifest != rc_run_id completion) || (am_relative_path manifest != atr_name row)
                || (am_size_bytes manifest != size) || (am_sha256 manifest != atr_sha256 row)
                || is_some (am_media_type manifest)) StoreError.InvalidRunEvidence;;
      data ← read_generated_object (atr_relative_path row);
      guard_or ((byte_len data != size) || (bytes_sha256 data != atr_sha256 row)) StoreError.DigestMismatch;;
      check_artifacts completion (u64_saturating_add total_bytes size) rows
  end.
Definition validate_artifact_manifest (completion : RunCompletion) : tx unit :=
  db ← get_db;
  let rows := artifacts_by_id db (rc_run_id completion) in
  guard_or (length rows != length (rc_artifacts completion)) StoreError.InvalidRunEvidence;;
  total_bytes ← check_artifacts completion 0%N rows;
  let manifests := remove_dups (map am_id (rc_artifacts completion)) in
  guard_or ((MAX_RUN_ARTIFACT_COUNT <? N.of_nat (length manifests))%N
            || (MAX_RUN_ARTIFACT_BYTES <? total_bytes)%N) StoreError.InvalidRunEvidence.

Definition validate_managed_completion (stored : StoredJob) (completion : RunCompletion) : tx unit :=
  id ← liftr (ok_or (run_node_id (st_run stored)) StoreError.RunUnauthorized);
  db ← get_db;
  row ← liftr (ok_or (db_nodes db !! id) StoreError.RunUnauthorized);
  let node := nr_document row in
  guard_or (negb (is_managed (node_transport node))) StoreError.RunUnauthorized;;
  liftr (validate_execution_source (job_source (st_job stored)) (rc_final_state completion)
           (rc_execution completion));;
  liftr (validate_step_evidence (st_job stored) (node_os node) completion);;
  stdout ← verify_stream_evidence (rc_run_id completion) (lit "stdout")
             (rs_stdout (xe_streams (rc_execution completion)));
  stderr ← verify_stream_evidence (rc_run_id completion) (lit "stderr")
             (rs_stderr (xe_streams (rc_execution completion)));
  guard_or ((MAX_RUN_LOG_BYTES <? u64_saturating_add stdout.1 stderr.1)%N
            || (MAX_RUN_LOG_CHUNKS <? u64_saturating_add stdout.2 stderr.2)%N)
    StoreError.InvalidRunEvidence;;
  validate_artifact_manifest completion.
End completion.
