(* ===== verification/RunControl.v ===== *)
(** The controller's operations on plans, jobs and runs: [create_plan] to
    [reap_expired_leases] of [impl Store] in [crates/cyc-controller/src/store.rs].

    Each definition is one public method, from its argument checks to its commit;
    [ControllerDb.run] is the transaction around it.  Almost every method first
    expires leases at the current clock, so its guards see no lease that is past
    its deadline. *)
From Stdlib Require Import ZArith NArith Lia String.
From stdpp Require Import base option list numbers sets gmap sorting.
From S2P Require Import Prelude Text Crates Protocol Snapshot RunState JobSpec CanonicalJson Scheduler NodeState PlacementBinding WorkerReports WorkerRun Cleanup ControllerDb Planning FleetNodes Leases NodeWrites Uploads CompletionEvidence.
Open Scope rust_scope.

(** [store::RunEvidence]: what a transition writes into the run. *)
Module TransitionEvidence.
Record RunEvidence := {
  exit_code : option Z;
  error : option rstr;
  artifact_ids : option (list Uuid)
}.
Definition default : RunEvidence := {| exit_code := None; error := None; artifact_ids := None |}.
(** The guard of both transition methods. *)
Definition present (e : RunEvidence) : bool :=
  is_some (exit_code e) || is_some (error e) || is_some (artifact_ids e).
End TransitionEvidence.
Import TransitionEvidence.

Record WorkerClaim := {
  wcl_stored : StoredJob;
  wcl_job_digest : rstr;
  wcl_lease_id : Uuid;
  wcl_lease_until : DateTime;
  wcl_run_credential : rstr
}.
Record WorkerHeartbeat := {
  whb_stored : StoredJob;
  whb_lease_id : Uuid;
  whb_lease_until : DateTime
}.
Record LeaseRenewal := { ren_run_id : Uuid; ren_lease_id : Uuid; ren_expires_at : DateTime }.
Record CleanupSnapshot := {
  csn_stored : StoredJob;
  csn_cleanup : option StoredCleanup;
  csn_completion : option StoredCompletion;
  csn_obligation : option StoredCleanupObligation
}.

Definition apply_run_evidence (evidence : RunEvidence) (run : Run) : Run :=
  let run := if JobState.is_terminal (run_state run)
             then set_run_exit_code (exit_code evidence) (set_run_error (error evidence) run)
             else run in
  match artifact_ids evidence with
  | Some ids => set_run_artifact_ids ids run
  | None => run
  end.

Section control.
Context `{UuidCrate, ChronoCrate, SerdeJsonCrate, !StoreSerde, DigestCrate}.
Abbreviation store_result := (result (StoreError.t json_error)).
Abbreviation store_error := (StoreError.t json_error).

Definition worker_state_conflict (stored : StoredJob) : store_error :=
  StoreError.WorkerStateConflict (st_version stored) (st_cancel_requested stored)
    (run_state (st_run stored)).
(** [Utc::now()] cut to whole seconds. *)
Definition now_in_seconds : tx DateTime := now ← utc_now; timestamp (unix now).

(** ** Plans *)

(** [job.validate()], the normal form and its digest. *)
Definition normalized (job : JobSpec) : tx (JobSpec * rstr) :=
  liftr (map_err (λ e, StoreError.Schedule (ScheduleError.InvalidJob e)) (JobSpec_validate job));;
  let normalized_job := normalize_job_spec job in
  digest ← liftr (map_err StoreError.Document (canonical_job_digest normalized_job));
  mret (normalized_job, digest).
(** [scheduler.schedule_contexts]: the scheduler reads the clock. *)
Definition schedule_now (scheduler : Scheduler) (job : JobSpec) (nodes : list SchedulingNodeRecord) :
    tx PlacementDecision :=
  observed_at ← utc_now;
  liftr (map_err StoreError.Schedule
    (schedule_contexts_at scheduler job (map record_scheduling nodes) observed_at)).
(** The decision for a job and the binding that freezes it. *)
Definition new_plan (scheduler : Scheduler) (normalized_job : JobSpec) (digest : rstr) (now : DateTime)
    (nodes : list SchedulingNodeRecord) : tx (PlacementDecision * PlacementPlanBindingV1) :=
  decision ← schedule_now scheduler normalized_job nodes;
  node_revision ← liftr (ok_or (record_revision <$> find_record nodes (dec_node_id decision))
                           StoreError.PlanStale);
  db ← get_db;
  plan_id ← new_v4;
  binding ← liftr (new_plan_binding plan_id normalized_job digest decision now (db_fleet_revision db)
                     node_revision (db_policy_revision db));
  mret (decision, binding).

Definition create_plan (job : JobSpec) (scheduler : Scheduler) : tx StoredPlan :=
  job ← normalized job;
  let '(normalized_job, digest) := job in
  now ← now_in_seconds;
  expire_leases (unix now);;
  nodes ← fresh_available_nodes now;
  plan ← new_plan scheduler normalized_job digest now nodes;
  insert_plan_tx plan.2 None;;
  mret {| sp_binding := plan.2; sp_used_at := None |}.

(** ** Submission *)

(** [SELECT 1 FROM jobs WHERE job_id = id OR run_id = id] *)
Definition id_taken (db : Db) (id : Uuid) : bool :=
  existsb (λ e : Uuid * JobRow, (jr_job_id e.2 == id) || (e.1 == id)) (map_to_list (db_jobs db)).

Fixpoint unique_queued_run (attempts : nat) (job_id : Uuid) : tx Run :=
  match attempts with
  | O => throw StoreError.Conflict
  | S attempts =>
      id ← new_v4;
      now ← utc_now;
      let run := Run_queued id now job_id in
      if run_id run == job_id then unique_queued_run attempts job_id
      else
        db ← get_db;
        if id_taken db (run_id run) then unique_queued_run attempts job_id else mret run
  end.

(** The guards of a submission under an external plan. *)
Definition check_plan (plan : StoredPlan) (normalized_job : JobSpec) (digest : rstr) (now : DateTime)
    (nodes : list SchedulingNodeRecord) (db : Db) : store_result unit :=
  let binding := sp_binding plan in
  reject_if ((pb_job_id binding != job_id normalized_job) || (pb_job_digest binding != digest))
    StoreError.PlanDigestMismatch;;
  reject_if (is_some (sp_used_at plan)) StoreError.PlanStale;;
  reject_if (pb_expires_at binding <=? now)%Z StoreError.PlanExpired;;
  map_err (λ _, StoreError.InvalidPlanBinding)
    (PlacementPlanBindingV1_validate binding (Some normalized_job) (Some now));;
  reject_if ((pb_fleet_revision binding != db_fleet_revision db)
             || (pb_policy_revision binding != db_policy_revision db)) StoreError.PlanStale;;
  revision ← ok_or (record_revision <$> find_record nodes (pd_node_id (pb_decision binding)))
               StoreError.PlanStale;
  reject_if (revision != pb_node_revision binding) StoreError.PlanStale.

(** The decision and the binding of a submission. *)
Definition submission_plan (scheduler : Scheduler) (plan_id : option Uuid) (normalized_job : JobSpec)
    (digest : rstr) (now : DateTime) (nodes : list SchedulingNodeRecord) :
    tx (PlacementDecision * PlacementPlanBindingV1) :=
  match plan_id with
  | Some plan_id =>
      plan ← get_plan plan_id;
      db ← get_db;
      liftr (check_plan plan normalized_job digest now nodes db);;
      refreshed ← schedule_now scheduler normalized_job nodes;
      guard_or (dec_node_id refreshed != pd_node_id (pb_decision (sp_binding plan))) StoreError.PlanStale;;
      mret (refreshed, sp_binding plan)
  | None =>
      plan ← new_plan scheduler normalized_job digest now nodes;
      insert_plan_tx plan.2 (Some now);;
      mret plan
  end.

(** [INSERT INTO leases]: the identifier and the run are unique. *)
Definition insert_lease (id : Uuid) (row : LeaseRow) : tx unit :=
  db ← get_db;
  guard_or (is_some (db_leases db !! id)
            || existsb (λ e : Uuid * LeaseRow, lr_run_id e.2 == lr_run_id row)
                 (map_to_list (db_leases db))) StoreError.Database;;
  modify (λ db, set_db_leases (<[id := row]> (db_leases db)) db).
(** [INSERT INTO jobs]: the run and the job are unique. *)
Definition insert_job (id : Uuid) (row : JobRow) : tx unit :=
  db ← get_db;
  guard_or (is_some (db_jobs db !! id)
            || existsb (λ e : Uuid * JobRow, jr_job_id e.2 == jr_job_id row) (map_to_list (db_jobs db)))
    StoreError.Database;;
  modify (λ db, set_db_jobs (<[id := row]> (db_jobs db)) db).
Definition insert_lease_gpu (lease_id : Uuid) (reservation : option (rstr * GpuResourceRequest)) : tx unit :=
  match reservation with
  | None => mret tt
  | Some (device_id, request) =>
      db ← get_db;
      guard_or (is_some (db_lease_gpus db !! lease_id)) StoreError.Database;;
      modify (λ db, set_db_lease_gpus (<[lease_id :=
        {| lg_device_id := device_id; lg_vram_mib := as_i64 (grr_vram_mib request);
           lg_exclusive := if grr_exclusive request then 1%Z else 0%Z |}]> (db_lease_gpus db)) db)
  end.
(** [UPDATE plans SET used_at = now WHERE id = .. AND used_at IS NULL] *)
Definition use_plan (plan_id : Uuid) (now : Z) : tx unit :=
  db ← get_db;
  match db_plans db !! plan_id with
  | Some row =>
      if is_none (plr_used_at row)
      then modify (set_db_plans (<[plan_id := set_plr_used_at (Some now) row]> (db_plans db)))
      else throw StoreError.PlanStale
  | None => throw StoreError.PlanStale
  end.

Definition dispatch_lease (run : Run) (job : JobSpec) (node : Uuid) (now : Z) : LeaseRow :=
  let resources := effective_resource_request job in
  {| lr_run_id := run_id run; lr_job_id := job_id job; lr_node_id := node;
     lr_cpu_cores := Z.of_N (rr_cpu_cores resources); lr_memory_mib := as_i64 (rr_memory_mib resources);
     lr_disk_mib := as_i64 (rr_disk_mib resources);
     lr_gpu_reserved := if is_some (effective_gpu_request job) then 1%Z else 0%Z;
     lr_slots := Z.of_N (rr_slots resources); lr_phase := LeasePhase.Dispatch; lr_created_at := now;
     lr_expires_at := i64_saturating_add now DISPATCH_TTL_SECONDS; lr_released_at := None |}.

Definition submit_job (job : JobSpec) (plan_id : option Uuid) (scheduler : Scheduler) : tx StoredJob :=
  job ← normalized job;
  let '(normalized_job, digest) := job in
  now ← now_in_seconds;
  db ← get_db;
  guard_or (id_taken db (job_id normalized_job)) StoreError.Conflict;;
  expire_leases (unix now);;
  nodes ← fresh_available_nodes now;
  plan ← submission_plan scheduler plan_id normalized_job digest now nodes;
  let '(decision, plan_binding) := plan in
  run ← unique_queued_run 16 (job_id normalized_job);
  let run := set_run_placement (Some (dec_explanation decision))
               (set_run_node_id (Some (dec_node_id decision)) run) in
  lease_id ← new_v4;
  reservation ← liftr (select_gpu_reservation nodes (dec_node_id decision)
                         (effective_gpu_request normalized_job));
  insert_lease lease_id (dispatch_lease run normalized_job (dec_node_id decision) (unix now));;
  insert_lease_gpu lease_id reservation;;
  insert_job (run_id run)
    {| jr_job_id := job_id normalized_job; jr_job := normalized_job; jr_run := run; jr_created_at := now;
       jr_updated_at := now; jr_version := 0; jr_cancel_requested := false; jr_lease_id := Some lease_id;
       jr_plan_binding := Some plan_binding |};;
  insert_placement_attempt_tx (run_id run) plan_binding PLACEMENT_ATTEMPT_INITIAL;;
  match plan_id with Some plan_id => use_plan plan_id (unix now) | None => mret tt end;;
  increment_fleet_revision;;
  mret {| st_job := normalized_job; st_run := run; st_plan_binding := Some plan_binding; st_version := 0;
          st_cancel_requested := false; st_lease_id := Some lease_id |}.

(** ** Claims *)

(** Runs with a live lease on the node, [ORDER BY j.created_at, j.run_id]. *)
Definition claimable (db : Db) (node : Uuid) (now : Z) : list (Uuid * JobRow) :=
  sort_by (λ x y : Uuid * JobRow,
      then_with (Z.compare (jr_created_at x.2) (jr_created_at y.2)) (N.compare x.1 y.1))
    (List.filter (λ e : Uuid * JobRow,
        existsb (λ l : Uuid * LeaseRow,
            (lr_run_id l.2 == e.1) && (lr_node_id l.2 == node) && is_none (lr_released_at l.2)
            && (now <? lr_expires_at l.2)%Z) (map_to_list (db_leases db)))
      (map_to_list (db_jobs db))).

(** [INSERT INTO worker_claims]: the run and the credential hash are unique. *)
Definition insert_claim (run_id : Uuid) (row : WorkerClaimRow) : tx unit :=
  db ← get_db;
  guard_or (is_some (db_worker_claims db !! run_id)
            || existsb (λ e : Uuid * WorkerClaimRow, wl_credential_hash e.2 == wl_credential_hash row)
                 (map_to_list (db_worker_claims db))) StoreError.Database;;
  modify (λ db, set_db_worker_claims (<[run_id := row]> (db_worker_claims db)) db).

(** [UPDATE leases .. WHERE id AND run_id AND released_at IS NULL AND phase IN (..)],
    and whether it changed a row. *)
Definition update_live_lease (id run_id : Uuid) (allowed : LeaseRow → bool) (f : LeaseRow → LeaseRow) :
    tx bool :=
  db ← get_db;
  match db_leases db !! id with
  | Some l =>
      if (lr_run_id l == run_id) && is_none (lr_released_at l) && allowed l
      then modify (set_db_leases (<[id := f l]> (db_leases db)));; mret true
      else mret false
  | None => mret false
  end.

Definition claim_run (now : DateTime) (node : Uuid) (stored : StoredJob) : tx WorkerClaim :=
  guard_or (st_cancel_requested stored) StoreError.CancellationPending;;
  guard_or (is_some_and (st_plan_binding stored) (λ b, pd_node_id (pb_decision b) != node))
    StoreError.InvalidPlanBinding;;
  lease_id ← liftr (ok_or (st_lease_id stored) StoreError.InvalidTransition);
  stored ← transition_run_to JobState.Preparing StoreError.InvalidTransition stored;
  stored ← update_job_cas stored;
  run_credential ← random_secret;
  let expires_at := (now + CLAIM_TTL_SECONDS * nanos_per_second)%Z in
  let id := run_id (st_run stored) in
  insert_claim id
    {| wl_node_id := node; wl_lease_id := lease_id; wl_credential_hash := secret_hash run_credential;
       wl_created_at := unix now; wl_expires_at := unix expires_at; wl_revoked_at := None |};;
  changed ← update_live_lease lease_id id
    (λ l, (lr_phase l == LeasePhase.Dispatch) || (lr_phase l == LeasePhase.Legacy))
    (λ l, set_lr_expires_at (unix expires_at) (set_lr_phase LeasePhase.Execution l));
  guard_or (negb changed) StoreError.InvalidTransition;;
  job_digest ← liftr (map_err StoreError.Document (canonical_job_digest (st_job stored)));
  mret {| wcl_stored := stored; wcl_job_digest := job_digest; wcl_lease_id := lease_id;
          wcl_lease_until := expires_at; wcl_run_credential := run_credential |}.

Definition claim_job (worker_credential : rstr) (observed_node : Node) : tx (option WorkerClaim) :=
  now ← utc_now;
  expire_leases (unix now);;
  id ← authenticate_worker_tx worker_credential (unix now);
  guard_or (id != node_id observed_node) StoreError.WorkerUnauthorized;;
  upsert_legacy_probe_tx observed_node;;
  db ← get_db;
  rows ← map_tx (λ e : Uuid * JobRow, liftr (decode_job_row e.2)) (claimable db id (unix now));
  match List.find (λ stored, run_state (st_run stored) == JobState.Queued) rows with
  | None => mret None
  | Some stored => claim ← claim_run now id stored; mret (Some claim)
  end.

(** ** Heartbeats and transitions of a claimed run *)
Definition worker_heartbeat (worker_credential run_credential : rstr) (run_id lease_id : Uuid)
    (expected_version : N) (expected_state : JobState.t) : tx WorkerHeartbeat :=
  now ← utc_now;
  expire_leases (unix now);;
  authorize_run_tx worker_credential run_credential run_id lease_id (unix now);;
  stored ← get_job_by_run_id run_id;
  guard_or ((st_version stored != expected_version)
            && negb (st_cancel_requested stored && (expected_version <? st_version stored)%N))
    (worker_state_conflict stored);;
  guard_or (run_state (st_run stored) != expected_state) (worker_state_conflict stored);;
  guard_or (JobState.is_terminal (run_state (st_run stored))) (worker_state_conflict stored);;
  let expires_at := (now + CLAIM_TTL_SECONDS * nanos_per_second)%Z in
  db ← get_db;
  claim_changed ←
    match db_worker_claims db !! run_id with
    | Some c =>
        if (wl_lease_id c == lease_id) && claim_live (unix now) c
        then modify (set_db_worker_claims (<[run_id := set_wl_expires_at (unix expires_at) c]>
               (db_worker_claims db)));; mret true
        else mret false
    | None => mret false
    end;
  lease_changed ← update_live_lease lease_id run_id (lease_executing (unix now))
                    (set_lr_expires_at (unix expires_at));
  guard_or (negb claim_changed || negb lease_changed) StoreError.RunUnauthorized;;
  mret {| whb_stored := stored; whb_lease_id := lease_id; whb_lease_until := expires_at |}.

(** Transition, evidence, validation and the compare-and-swap. *)
Definition commit_transition (next : JobState.t) (evidence : RunEvidence) (error : store_error)
    (stored : StoredJob) : tx StoredJob :=
  stored ← transition_run_to next error stored;
  let stored := set_st_run (apply_run_evidence evidence (st_run stored)) stored in
  validate_run stored;;
  update_job_cas stored.
(** [!matches!(next, JobState::Cancelled | JobState::Failed)] *)
Definition not_stopping (next : JobState.t) : bool :=
  negb ((next == JobState.Cancelled) || (next == JobState.Failed)).

Definition worker_transition_inner (worker_credential run_credential : rstr) (run_id lease_id : Uuid)
    (expected_version : N) (next : JobState.t) (evidence : RunEvidence) : tx StoredJob :=
  now ← utc_now;
  expire_leases (unix now);;
  authorize_run_tx worker_credential run_credential run_id lease_id (unix now);;
  stored ← get_job_by_run_id run_id;
  guard_or (st_version stored != expected_version) (worker_state_conflict stored);;
  guard_or (st_cancel_requested stored && not_stopping next) (worker_state_conflict stored);;
  guard_or (negb (JobState.is_terminal next) && present evidence) StoreError.InvalidRunEvidence;;
  match artifact_ids evidence with
  | Some ids => ensure_artifacts_belong_to_run run_id ids
  | None => mret tt
  end;;
  stored ← commit_transition next evidence (worker_state_conflict stored) stored;
  (if JobState.is_terminal (run_state (st_run stored)) then
     revoke_claim run_id (unix now);;
     release_lease (Some lease_id) (unix now);;
     mret tt
   else mret tt);;
  mret stored.

Definition worker_transition (worker_credential run_credential : rstr) (run_id lease_id : Uuid)
    (expected_version : N) (next : JobState.t) : tx StoredJob :=
  guard_or (JobState.is_terminal next || (next == JobState.Queued)) StoreError.InvalidTransition;;
  worker_transition_inner worker_credential run_credential run_id lease_id expected_version next
    TransitionEvidence.default.

(** ** Completion *)
Definition obligation_of (completion : RunCompletion) (stored : StoredJob) (document_sha256 : rstr)
    (now : Z) : ObligationRow :=
  {| ob_job_id := job_id (st_job stored); ob_lease_id := rc_lease_id completion;
     ob_state_version := as_i64 (st_version stored); ob_final_state := run_state (st_run stored);
     ob_completion_sha256 := document_sha256; ob_terminal_acknowledged_at := now;
     ob_cleanup_deadline_at := i64_saturating_add now CLEANUP_RESERVATION_TTL_SECONDS;
     ob_reservation_released_at := None; ob_release_reason := None; ob_cleanup_failure_code := None;
     ob_failure_observed_at := None |}.
(** [INSERT INTO run_completions], [INSERT INTO run_cleanup_obligations]: the run is
    unique in both, the lease in the second. *)
Definition insert_completion (run_id : Uuid) (row : CompletionRow) : tx unit :=
  db ← get_db;
  guard_or (is_some (db_completions db !! run_id)) StoreError.Database;;
  modify (λ db, set_db_completions (<[run_id := row]> (db_completions db)) db).
Definition insert_obligation (run_id : Uuid) (row : ObligationRow) : tx unit :=
  db ← get_db;
  guard_or (is_some (db_obligations db !! run_id)
            || existsb (λ e : Uuid * ObligationRow, ob_lease_id e.2 == ob_lease_id row)
                 (map_to_list (db_obligations db))) StoreError.Database;;
  modify (λ db, set_db_obligations (<[run_id := row]> (db_obligations db)) db).

(** The first terminal commit of a run. *)
Definition commit_completion (now : Z) (document_sha256 : rstr) (completion : RunCompletion)
    (stored : StoredJob) : tx StoredJob :=
  let id := rc_run_id completion in
  let e := rc_evidence completion in
  guard_or (st_version stored != rc_expected_version completion) (worker_state_conflict stored);;
  guard_or (st_cancel_requested stored && not_stopping (rc_final_state completion))
    (worker_state_conflict stored);;
  validate_managed_completion stored completion;;
  stored ← transition_run_to (rc_final_state completion) (worker_state_conflict stored) stored;
  let stored := set_st_run (set_run_artifact_ids (ev_artifact_ids e) (set_run_error (ev_error e)
                  (set_run_exit_code (ev_exit_code e) (st_run stored)))) stored in
  validate_run stored;;
  stored ← update_job_cas stored;
  insert_completion id
    {| co_document := completion; co_document_sha256 := document_sha256; co_created_at := now |};;
  revoke_claim id now;;
  insert_obligation id (obligation_of completion stored document_sha256 now);;
  changed ← update_live_lease (rc_lease_id completion) id
    (λ l, (lr_job_id l == job_id (st_job stored)) && (lr_phase l == LeasePhase.Execution))
    (λ l, set_lr_expires_at (i64_saturating_add now CLEANUP_RESERVATION_TTL_SECONDS)
            (set_lr_phase LeasePhase.CleanupPending l));
  guard_or (negb changed) StoreError.InvalidTransition;;
  mret stored.

Definition worker_complete_managed (worker_credential run_credential : rstr) (completion : RunCompletion) :
    tx StoredJob :=
  liftr (map_err (λ _, StoreError.InvalidRunEvidence) (RunCompletion_validate completion));;
  document ← liftr (map_err StoreError.Document (completion_to_string completion));
  let document_sha256 := bytes_sha256 (bytes document) in
  now ← utc_now;
  let now := unix now in
  expire_leases now;;
  id ← authorize_completion_receipt_tx worker_credential run_credential (rc_run_id completion)
         (rc_lease_id completion) now;
  stored ← get_job_by_run_id (rc_run_id completion);
  guard_or (run_node_id (st_run stored) != Some id) StoreError.RunUnauthorized;;
  if JobState.is_terminal (run_state (st_run stored)) then
    db ← get_db;
    if co_document_sha256 <$> db_completions db !! rc_run_id completion == Some document_sha256
    then mret stored
    else throw (worker_state_conflict stored)
  else
    authorize_run_tx worker_credential run_credential (rc_run_id completion) (rc_lease_id completion) now;;
    commit_completion now document_sha256 completion stored.

Definition get_completion (run_id : Uuid) : tx StoredCompletion :=
  completion ← get_completion_tx run_id;
  liftr (ok_or completion StoreError.NotFound).

(** ** Cleanup receipts *)

(** The receipt names the obligation of the completed run. *)
Definition receipt_matches (obligation : StoredCleanupObligation) (stored : StoredJob)
    (receipt : CleanupReceiptV1) : bool :=
  let ack := cl_terminal_ack receipt in
  (so_job_id obligation == job_id (st_job stored))
  && (so_run_id obligation == cl_run_id receipt)
  && (so_lease_id obligation == cl_lease_id receipt)
  && (so_state_version obligation == ack_state_version ack)
  && (so_final_state obligation == ack_final_state ack)
  && (so_completion_sha256 obligation == ack_completion_sha256 ack)
  && (so_terminal_acknowledged_at obligation == ack_acknowledged_at ack).

Definition record_cleanup (worker_credential run_credential : rstr) (receipt : CleanupReceiptV1) :
    tx StoredCleanup :=
  let ack := cl_terminal_ack receipt in
  let run := cl_run_id receipt in
  liftr (map_err (λ _, StoreError.InvalidCleanupReceipt) (CleanupReceiptV1_validate receipt));;
  document ← liftr (map_err StoreError.Document (receipt_to_string receipt));
  let document_sha256 := bytes_sha256 (bytes document) in
  received_at ← now_in_seconds;
  let now := unix received_at in
  expire_leases now;;
  id ← authorize_completion_receipt_tx worker_credential run_credential run (cl_lease_id receipt) now;
  stored ← get_job_by_run_id run;
  guard_or ((run_node_id (st_run stored) != Some id)
            || (run_state (st_run stored) != ack_final_state ack)
            || (st_version stored != ack_state_version ack)) StoreError.InvalidCleanupReceipt;;
  obligation ← get_cleanup_obligation_tx run;
  obligation ← liftr (ok_or obligation StoreError.InvalidCleanupReceipt);
  guard_or (negb (receipt_matches obligation stored receipt)) StoreError.InvalidCleanupReceipt;;
  db ← get_db;
  completion ← liftr (ok_or (db_completions db !! run) StoreError.InvalidCleanupReceipt);
  guard_or (co_document_sha256 completion != ack_completion_sha256 ack) StoreError.InvalidCleanupReceipt;;
  completed_at ← timestamp (co_created_at completion);
  guard_or (completed_at != ack_acknowledged_at ack) StoreError.InvalidCleanupReceipt;;
  let release :=
    if cl_outcome receipt == JobRootCleanupOutcomeV1.Removed
    then release_cleanup_reservation_tx run (cl_lease_id receipt) now else mret tt in
  match db_cleanups db !! run with
  | Some existing =>
      guard_or ((cu_document_sha256 existing != document_sha256) || (cu_document existing != receipt))
        StoreError.CleanupConflict;;
      release;;
      commit;;
      existing_received_at ← timestamp (cu_received_at existing);
      mret {| su_receipt := cu_document existing; su_received_at := existing_received_at |}
  | None =>
      modify (λ db, set_db_cleanups (<[run :=
        {| cu_document := receipt; cu_document_sha256 := document_sha256; cu_received_at := now |}]>
        (db_cleanups db)) db);;
      release;;
      mret {| su_receipt := receipt; su_received_at := received_at |}
  end.

Definition get_cleanup (run_id : Uuid) : tx (option StoredCleanup) := get_cleanup_tx run_id.
(** [expire_leases(&transaction, Utc::now().timestamp())] *)
Definition expire_now : tx N := now ← utc_now; expire_leases (unix now).
Definition get_cleanup_snapshot (id : Uuid) : tx CleanupSnapshot :=
  expire_now;;
  stored ← get_job_prefer_job_id id;
  let run := run_id (st_run stored) in
  cleanup ← get_cleanup_tx run;
  completion ← get_completion_tx run;
  obligation ← get_cleanup_obligation_tx run;
  mret {| csn_stored := stored; csn_cleanup := cleanup; csn_completion := completion;
          csn_obligation := obligation |}.

(** ** Reading and controlling jobs *)
Definition get_job (id : Uuid) : tx StoredJob := expire_now;; get_job_prefer_job_id id.
Definition get_job_by_job (job_id : Uuid) : tx StoredJob := expire_now;; get_job_by_job_id job_id.
Definition get_job_by_run (run_id : Uuid) : tx StoredJob := expire_now;; get_job_by_run_id run_id.
(** [ORDER BY updated_at DESC LIMIT limit]; ties are broken by the run. *)
Definition list_jobs_tx (limit : N) : tx (list StoredJob) :=
  db ← get_db;
  let rows := sort_by (λ x y : Uuid * JobRow,
      then_with (Z.compare (jr_updated_at y.2) (jr_updated_at x.2)) (N.compare x.1 y.1))
    (map_to_list (db_jobs db)) in
  map_tx (λ e : Uuid * JobRow, liftr (decode_job_row e.2)) (take (N.to_nat (N.min limit 500)) rows).
Definition list_jobs (limit : N) : tx (list StoredJob) := expire_now;; list_jobs_tx limit.

Definition transition_run_with_evidence (run_id : Uuid) (expected_version : N) (next : JobState.t)
    (evidence : RunEvidence) : tx StoredJob :=
  expire_now;;
  stored ← get_job_by_run_id run_id;
  guard_or (st_version stored != expected_version) (StoreError.VersionConflict (st_version stored));;
  guard_or (st_cancel_requested stored && not_stopping next) StoreError.CancellationPending;;
  guard_or (negb (JobState.is_terminal next) && present evidence) StoreError.InvalidRunEvidence;;
  stored ← commit_transition next evidence StoreError.InvalidTransition stored;
  (if JobState.is_terminal (run_state (st_run stored)) then
     now ← utc_now; release_lease (st_lease_id stored) (unix now);; mret tt
   else mret tt);;
  mret stored.
Definition transition_run (run_id : Uuid) (expected_version : N) (next : JobState.t) : tx StoredJob :=
  transition_run_with_evidence run_id expected_version next TransitionEvidence.default.

(** Validation and compare-and-swap of a cancellation, and the release. *)
Definition commit_cancel (stored : StoredJob) : tx StoredJob :=
  validate_run stored;;
  stored ← update_job_cas stored;
  (if run_state (st_run stored) == JobState.Cancelled then
     now ← utc_now; release_lease (st_lease_id stored) (unix now);; mret tt
   else mret tt);;
  mret stored.
Definition cancel_job (id : Uuid) (expected_version : option N) : tx StoredJob :=
  expire_now;;
  stored ← get_job_prefer_job_id id;
  guard_or (is_some_and expected_version (λ expected, st_version stored != expected))
    (StoreError.VersionConflict (st_version stored));;
  match run_state (st_run stored) with
  | JobState.Queued =>
      stored ← transition_run_to JobState.Cancelled StoreError.InvalidTransition stored;
      commit_cancel stored
  | JobState.Preparing | JobState.Running | JobState.Verifying =>
      if st_cancel_requested stored then mret stored
      else commit_cancel (set_st_cancel_requested true stored)
  | JobState.Succeeded | JobState.Failed | JobState.Cancelled => throw StoreError.InvalidTransition
  end.

Definition renew_lease (run_id : Uuid) : tx LeaseRenewal :=
  now ← utc_now;
  expire_leases (unix now);;
  stored ← get_job_by_run_id run_id;
  guard_or (JobState.is_terminal (run_state (st_run stored))) StoreError.InvalidTransition;;
  guard_or (st_cancel_requested stored) StoreError.CancellationPending;;
  lease_id ← liftr (ok_or (st_lease_id stored) StoreError.InvalidTransition);
  let renewed_at := i64_saturating_add (unix now) CLAIM_TTL_SECONDS in
  changed ← update_live_lease lease_id run_id (lease_executing (unix now))
              (λ l, set_lr_expires_at (Z.max (lr_expires_at l) renewed_at) l);
  guard_or (negb changed) StoreError.InvalidTransition;;
  db ← get_db;
  row ← liftr (ok_or (db_leases db !! lease_id) StoreError.Database);
  commit;;
  expires_at ← timestamp (lr_expires_at row);
  mret {| ren_run_id := run_id; ren_lease_id := lease_id; ren_expires_at := expires_at |}.

Definition reap_expired_leases : tx N := expire_now.
End control.
