(* ===== verification/FleetView.v ===== *)
(** The picture of the fleet that the controller gives to its clients
    ([crates/cyc-controller/src/store.rs]): every node with its documents, the slots and
    resources left on it, its reservations and the reasons that keep it from work. *)
From Stdlib Require Import ZArith NArith Lia String.
From stdpp Require Import base option list numbers sets gmap sorting.
From S2P Require Import Prelude Text Crates Protocol Snapshot RunState JobSpec CanonicalJson Scheduler NodeState PlacementBinding WorkerReports WorkerRun Cleanup ControllerDb Planning FleetNodes Leases NodeWrites Uploads CompletionEvidence RunControl.
Open Scope rust_scope.

Record FleetDocument (T : Type) := {
  fd_document : T;
  fd_revision : option Z;
  fd_digest : option rstr;
  fd_observed_at : DateTime;
  fd_received_at : DateTime
}.
Arguments fd_document {T} _.
Arguments fd_revision {T} _.
Record FleetSlotView := {
  fs_configured : N;
  fs_containment_max_safe : N;
  fs_effective : N;
  fs_reserved : N;
  fs_available : N
}.
Record FleetReservationView := {
  fr_lease_id : Uuid;
  fr_run_id : Uuid;
  fr_job_id : Uuid;
  fr_phase : LeasePhase.t;
  fr_slots : N;
  fr_cpu_cores : N;
  fr_memory_mib : N;
  fr_disk_mib : N;
  fr_gpu_device_id : option rstr;
  fr_gpu_vram_mib : N;
  fr_gpu_exclusive : bool;
  fr_expires_at : DateTime
}.
Record FleetNodeView := {
  fn_node_id : Uuid;
  fn_config : FleetDocument NodeConfig;
  fn_inventory : FleetDocument NodeInventory;
  fn_telemetry : FleetDocument NodeTelemetry;
  fn_availability : NodeAvailability.t;
  fn_availability_reasons : list rstr;
  fn_effective_slots : FleetSlotView;
  fn_effective_resources : NodeResources;
  fn_reservations : list FleetReservationView
}.
Record FleetSnapshot := {
  fl_fleet_revision : N;
  fl_observed_at : DateTime;
  fl_nodes : list Node;
  fl_node_views : list FleetNodeView;
  fl_recent_jobs : list StoredJob
}.

(** ** Reasons *)
Definition availability_reasons (view : NodeMergeView) : list rstr :=
  match view_availability view with
  | NodeAvailability.Available => []
  | NodeAvailability.Degraded => [lit "worker reports degraded health"]
  | NodeAvailability.Draining => [lit "controller or worker is draining new work"]
  | NodeAvailability.Disabled => [lit "node is disabled by controller configuration"]
  | NodeAvailability.Offline => [lit "worker reports offline"]
  | NodeAvailability.Stale =>
      [lit "last accepted telemetry is older than " ++ fmt_Z NODE_FRESHNESS_SECONDS ++ lit " seconds"]
  end.
Definition reason_if (b : bool) (reason : rstr) : list rstr := if b then [reason] else [].
Definition exceeds (maximum : option N) (value : N) : bool := is_some_and maximum (λ m, (m <? value)%N).
(** The reasons that capacity policy and reservations add. *)
Definition policy_reasons (capacity : CapacityPolicy) (inventory : NodeInventory) (telemetry : NodeTelemetry)
    (containment_max_safe reserved_slots : N) : list rstr :=
  let configured := cp_max_concurrent_jobs capacity in
  let effective := N.min configured containment_max_safe in
  let cpu := load_cpu_percent (tel_load telemetry) in
  let memory := memory_used_percent inventory telemetry in
  reason_if (containment_max_safe <? configured)%N
    (lit "configured slots " ++ fmt_N configured ++ lit " clamped by containment maxSafeSlots " ++
     fmt_N containment_max_safe)
  ++ reason_if (0 <? reserved_slots)%N (fmt_N reserved_slots ++ lit " execution slots reserved")
  ++ reason_if ((tel_power_source telemetry == PowerSource.Battery) && negb (cp_allow_on_battery capacity))
       (lit "battery power is disallowed by policy")
  ++ reason_if (exceeds (cp_max_cpu_percent capacity) cpu)
       (lit "CPU " ++ fmt_N cpu ++ lit "% exceeds policy maximum " ++
        fmt_N (unwrap_or (cp_max_cpu_percent capacity) 0%N) ++ lit "%")
  ++ reason_if (exceeds (cp_max_cpu_ewma_percent capacity) (tel_cpu_ewma_percent telemetry))
       (lit "CPU EWMA " ++ fmt_N (tel_cpu_ewma_percent telemetry) ++ lit "% exceeds policy maximum " ++
        fmt_N (unwrap_or (cp_max_cpu_ewma_percent capacity) 0%N) ++ lit "%")
  ++ reason_if (exceeds (cp_max_memory_percent capacity) memory)
       (lit "memory use " ++ fmt_N memory ++ lit "% exceeds policy maximum " ++
        fmt_N (unwrap_or (cp_max_memory_percent capacity) 0%N) ++ lit "%")
  ++ match tel_temperature_c telemetry, cp_max_temperature_c capacity with
     | Some temperature, Some maximum =>
         reason_if (maximum <? temperature)%Z
           (lit "temperature " ++ fmt_Z temperature ++ lit " C exceeds policy maximum " ++ fmt_Z maximum ++ lit " C")
     | _, _ => []
     end
  ++ reason_if (effective <=? reserved_slots)%N (lit "no effective execution slots remain").

Section views.
Context `{UuidCrate, ChronoCrate, SerdeJsonCrate, !StoreSerde, DigestCrate}.
Abbreviation store_result := (result (StoreError.t json_error)).

(** ** Reservations *)

(** [ORDER BY l.node_id, l.created_at, l.id] *)
Definition by_node_and_age (x y : Uuid * LeaseRow) : comparison :=
  then_with (N.compare (lr_node_id x.2) (lr_node_id y.2))
    (then_with (Z.compare (lr_created_at x.2) (lr_created_at y.2)) (N.compare x.1 y.1)).
Definition reservation_view (db : Db) (e : Uuid * LeaseRow) : tx (Uuid * FleetReservationView) :=
  let '(id, l) := e in
  let gpu := db_lease_gpus db !! id in
  expires_at ← timestamp (lr_expires_at l);
  mret (lr_node_id l,
    {| fr_lease_id := id; fr_run_id := lr_run_id l; fr_job_id := lr_job_id l; fr_phase := lr_phase l;
       fr_slots := N.min (as_u64 (lr_slots l)) u32_max; fr_cpu_cores := N.min (as_u64 (lr_cpu_cores l)) u32_max;
       fr_memory_mib := as_u64 (lr_memory_mib l); fr_disk_mib := as_u64 (lr_disk_mib l);
       fr_gpu_device_id := lg_device_id <$> gpu;
       fr_gpu_vram_mib := match gpu with Some g => as_u64 (lg_vram_mib g) | None => 0 end;
       fr_gpu_exclusive := match gpu with Some g => lg_exclusive g != 0%Z | None => false end;
       fr_expires_at := expires_at |}).
(** In the order of the query, with their nodes. *)
Definition list_fleet_reservations (now : Z) : tx (list (Uuid * FleetReservationView)) :=
  db ← get_db;
  map_tx (reservation_view db) (sort_by by_node_and_age (active_leases db now)).
Definition node_reservations (reservations : list (Uuid * FleetReservationView)) (id : Uuid) :
    list FleetReservationView :=
  map snd (List.filter (λ e : Uuid * FleetReservationView, e.1 == id) reservations).
Definition slots_reserved (reservations : list FleetReservationView) : N :=
  fold_left (λ total r, u32_saturating_add total (fr_slots r)) reservations 0%N.

(** ** Nodes *)
Definition NodeResources_default : NodeResources :=
  {| res_logical_cpu_cores := 0; res_available_cpu_cores := 0; res_memory_mib := 0; res_available_memory_mib := 0;
     res_disk_mib := 0; res_available_disk_mib := 0; res_gpus := [] |}.
(** What the scheduler sees of the node, or else its own report. *)
Definition effective_resources (scheduling : list SchedulingNodeRecord) (merged : NodeMergeView) : tx NodeResources :=
  match find_record scheduling (view_id merged) with
  | Some record => mret (node_resources (sn_node (record_scheduling record)))
  | None =>
      match to_node merged with
      | Some (Ok node) => mret (node_resources node)
      | Some (Err _) => mret NodeResources_default
      | None => throw StoreError.Panicked
      end
  end.
Definition fleet_node_view (now : DateTime) (scheduling : list SchedulingNodeRecord)
    (reservations : list (Uuid * FleetReservationView)) (r : NodeRows) : tx FleetNodeView :=
  let config := ncr_document (rows_config r) in
  let inventory := nir_document (rows_inventory r) in
  let telemetry := ntr_document (rows_telemetry r) in
  merged ← liftr (view_of_rows now r);
  let own := node_reservations reservations (rows_id r) in
  let reserved_slots := slots_reserved own in
  capacity ← liftr (effective_capacity_policy config);
  let configured := cp_max_concurrent_jobs capacity in
  let containment_max_safe := ci_max_safe_slots (inv_containment inventory) in
  let effective := N.min configured containment_max_safe in
  resources ← effective_resources scheduling merged;
  mret
    {| fn_node_id := rows_id r;
       fn_config :=
         {| fd_document := config; fd_revision := Some (ncr_revision (rows_config r)); fd_digest := None;
            fd_observed_at := ncr_updated_at (rows_config r); fd_received_at := ncr_updated_at (rows_config r) |};
       fn_inventory :=
         {| fd_document := inventory; fd_revision := Some (nir_revision (rows_inventory r));
            fd_digest := Some (nir_digest (rows_inventory r)); fd_observed_at := nir_observed_at (rows_inventory r);
            fd_received_at := nir_updated_at (rows_inventory r) |};
       fn_telemetry :=
         {| fd_document := telemetry; fd_revision := None; fd_digest := None;
            fd_observed_at := ntr_observed_at (rows_telemetry r);
            fd_received_at := ntr_received_at (rows_telemetry r) |};
       fn_availability := view_availability merged;
       fn_availability_reasons :=
         availability_reasons merged
         ++ policy_reasons capacity inventory telemetry containment_max_safe reserved_slots;
       fn_effective_slots :=
         {| fs_configured := configured; fs_containment_max_safe := containment_max_safe; fs_effective := effective;
            fs_reserved := reserved_slots; fs_available := saturating_sub effective reserved_slots |};
       fn_effective_resources := resources;
       fn_reservations := own |}.
Definition list_fleet_node_views_tx (now : DateTime) : tx (list FleetNodeView) :=
  db ← get_db;
  scheduling ← fresh_available_nodes now;
  reservations ← list_fleet_reservations (unix now);
  map_tx (fleet_node_view now scheduling reservations) (all_node_rows db).
Definition list_fleet_node_views : tx (list FleetNodeView) :=
  now ← utc_now;
  expire_leases (unix now);;
  list_fleet_node_views_tx now.

(** ** The snapshot *)
Definition read_safe_fleet_revision : tx N :=
  db ← get_db;
  let revision := db_fleet_revision db in
  if ((0 <=? revision) && (as_u64 revision <=? MAX_SAFE_JSON_INTEGER)%N)%Z then mret (as_u64 revision)
  else throw StoreError.InvalidFleetRevision.
Definition read_fleet_snapshot_tx (fleet_revision : N) (observed_at : DateTime) (limit : N) : tx FleetSnapshot :=
  views ← list_all_node_views observed_at;
  nodes ← map_tx view_to_node views;
  node_views ← list_fleet_node_views_tx observed_at;
  recent_jobs ← list_jobs_tx limit;
  mret {| fl_fleet_revision := fleet_revision; fl_observed_at := observed_at; fl_nodes := nodes;
          fl_node_views := node_views; fl_recent_jobs := recent_jobs |}.
(** Maintenance is committed first; what follows only reads. *)
Definition fleet_snapshot (limit : N) : tx FleetSnapshot :=
  expire_now;;
  commit;;
  revision ← read_safe_fleet_revision;
  observed_at ← utc_now;
  read_fleet_snapshot_tx revision observed_at limit.
End views.
