(* ===== verification/Pairings.v ===== *)
(** Worker enrollment: the pairing operations of [impl Store] in
    [crates/cyc-controller/src/store.rs].

    A pairing is a one-time code for one intended node.  [consume_pairing] binds it
    to the digest of a credential the worker made, staged; [acknowledge_pairing]
    activates that credential and retires every other one of the node.  The phase
    of a pairing is derived from its row and the credentials made under it. *)
From Stdlib Require Import ZArith NArith Lia String.
From stdpp Require Import base option list numbers sets gmap.
From S2P Require Import Prelude Text Crates Protocol CanonicalJson NodeState WorkerReports Onboarding ControllerDb FleetNodes Leases NodeWrites.
Open Scope rust_scope.

Record PairingSecret := {
  ps_id : Uuid;
  ps_intended_node_id : Uuid;
  ps_code : rstr;
  ps_created_at : DateTime;
  ps_expires_at : DateTime
}.
(** [impl Drop for PairingSecret]: the bytes of the code are zeroed. *)
Definition PairingSecret_drop (s : PairingSecret) : PairingSecret :=
  {| ps_id := ps_id s; ps_intended_node_id := ps_intended_node_id s;
     ps_code := replicate (length (bytes (ps_code s))) 0%N; ps_created_at := ps_created_at s;
     ps_expires_at := ps_expires_at s |}.
Record IdempotentPairing := {
  ip_pairing : PairingSecret;
  ip_worker_url : rstr;
  ip_certificate_pem : rstr;
  ip_replayed : bool
}.
Record StoredPairingStatus := {
  sps_pairing_id : Uuid;
  sps_intended_node_id : Uuid;
  sps_node_id : option Uuid;
  sps_phase : PairingPhaseV1.t;
  sps_created_at : DateTime;
  sps_expires_at : DateTime;
  sps_consumed_at : option DateTime;
  sps_acknowledged_at : option DateTime;
  sps_revoked_at : option DateTime;
  sps_failed_at : option DateTime;
  sps_failure_code : option PairingFailureCodeV1.t
}.
Record PairedWorker := {
  pw_pairing_id : Uuid;
  pw_node_id : Uuid;
  pw_credential_sha256 : rstr;
  pw_consumed_at : DateTime;
  pw_replayed : bool
}.
Record PairingAcknowledgement := {
  pk_pairing_id : Uuid;
  pk_node_id : Uuid;
  pk_credential_sha256 : rstr;
  pk_acknowledged_at : DateTime
}.

(** The credentials made under a pairing, counted by what became of them; the
    last four count only those of the pairing's node. *)
Record PairingCredentialState := {
  pcs_total : Z;
  pcs_staged_unrevoked : Z;
  pcs_active_unrevoked : Z;
  pcs_staged_revoked : Z;
  pcs_active_revoked : Z
}.

Definition valid_pairing_operation_key (value : rstr) : bool :=
  (1 <=? len value)%N && (len value <=? 128)%N
  && forallb (λ byte, is_ascii_alphanumeric byte || bool_decide (byte ∈ [chr "."; chr "_"; chr ":"; chr "-"]))
       (bytes value).

Definition pairing_failure_code_name (value : PairingFailureCodeV1.t) : rstr :=
  match value with
  | PairingFailureCodeV1.ProvisioningFailed => lit "provisioning_failed"
  | PairingFailureCodeV1.WorkerInstallFailed => lit "worker_install_failed"
  | PairingFailureCodeV1.WorkerPairingFailed => lit "worker_pairing_failed"
  | PairingFailureCodeV1.WorkerHealthCheckFailed => lit "worker_health_check_failed"
  end.

(** [u128::to_be_bytes], [i64::to_be_bytes] *)
Fixpoint be_bytes (width : nat) (value : N) : list N :=
  match width with
  | O => []
  | S width => ((value / 256 ^ N.of_nat width) mod 256)%N :: be_bytes width value
  end.
Definition i64_be_bytes (value : Z) : list N := be_bytes 8 (Z.to_N (value mod 2 ^ 64)).

Section pairings.
Context `{UuidCrate, ChronoCrate, SerdeJsonCrate, !StoreSerde, DigestCrate}.
Abbreviation store_result := (result (StoreError.t json_error)).

Definition pairing_failure_code (value : rstr) : store_result PairingFailureCodeV1.t :=
  if value == lit "provisioning_failed" then Ok PairingFailureCodeV1.ProvisioningFailed
  else if value == lit "worker_install_failed" then Ok PairingFailureCodeV1.WorkerInstallFailed
  else if value == lit "worker_pairing_failed" then Ok PairingFailureCodeV1.WorkerPairingFailed
  else if value == lit "worker_health_check_failed" then Ok PairingFailureCodeV1.WorkerHealthCheckFailed
  else Err StoreError.InvalidPairingFailureState.
Definition pairing_failure_state (failed_at : option Z) (failure_code : option rstr) :
    store_result (option DateTime * option PairingFailureCodeV1.t) :=
  match failed_at, failure_code with
  | None, None => Ok (None, None)
  | Some failed_at, Some failure_code =>
      failed_at ← ok_or (from_timestamp failed_at) StoreError.InvalidPairingFailureState;
      failure_code ← pairing_failure_code failure_code;
      Ok (Some failed_at, Some failure_code)
  | _, _ => Err StoreError.InvalidPairingFailureState
  end.

Definition derive_pairing_code (seed operation_key : rstr) (pairing_id intended_node_id : Uuid)
    (created_at : Z) : rstr :=
  hex (sha256 (bytes (lit "cyc-pairing-code-v1") ++ [0%N] ++ bytes seed ++ [0%N] ++ bytes operation_key
    ++ [0%N] ++ be_bytes 16 pairing_id ++ be_bytes 16 intended_node_id ++ i64_be_bytes created_at)).

(** ** The phase of a pairing *)
Definition classify_pairing_phase (intended_node_id : Uuid) (node_id : option Uuid) (expires_at : DateTime)
    (consumed acknowledged revoked failed node_exists : bool) (credentials : PairingCredentialState)
    (now : DateTime) : store_result PairingPhaseV1.t :=
  let c := credentials in
  reject_if ((pcs_total c <? 0)%Z || (pcs_staged_unrevoked c <? 0)%Z || (pcs_active_unrevoked c <? 0)%Z
             || (pcs_staged_revoked c <? 0)%Z || (pcs_active_revoked c <? 0)%Z
             || ((pcs_staged_unrevoked c + pcs_active_unrevoked c + pcs_staged_revoked c
                  + pcs_active_revoked c)%Z != pcs_total c)) StoreError.InvalidPairingFailureState;;
  let clean_pending := negb consumed && negb acknowledged && is_none node_id && (pcs_total c == 0%Z)
                       && negb failed in
  let clean_failed := failed && negb consumed && negb acknowledged && is_none node_id
                      && (pcs_total c == 0%Z) in
  let exact_node := (node_id == Some intended_node_id) && node_exists in
  let exact_consumed := negb failed && consumed && negb acknowledged && exact_node && (pcs_total c == 1%Z)
                        && (if revoked then pcs_staged_revoked c == 1%Z else pcs_staged_unrevoked c == 1%Z) in
  let exact_ready := negb failed && consumed && acknowledged && exact_node && (pcs_total c == 1%Z)
                     && (if revoked then pcs_active_revoked c == 1%Z else pcs_active_unrevoked c == 1%Z) in
  reject_if (negb clean_pending && negb clean_failed && negb exact_consumed && negb exact_ready)
    StoreError.InvalidPairingFailureState;;
  if revoked then Ok PairingPhaseV1.Revoked
  else if exact_ready then Ok PairingPhaseV1.Ready
  else if exact_consumed then Ok PairingPhaseV1.Consumed
  else if clean_failed then Ok PairingPhaseV1.Failed
  else if (expires_at <=? now)%Z then Ok PairingPhaseV1.Expired
  else Ok PairingPhaseV1.Pending.

(** The sub-selects over [worker_credentials] of one pairing row. *)
Definition pairing_credentials (db : Db) (pairing_id : Uuid) : list (Uuid * WorkerCredentialRow) :=
  List.filter (λ e : Uuid * WorkerCredentialRow, wc_pairing_id e.2 == pairing_id)
    (map_to_list (db_worker_credentials db)).
Definition credential_state (db : Db) (pairing_id : Uuid) (p : PairingRow) : PairingCredentialState :=
  let all := map snd (pairing_credentials db pairing_id) in
  let count (activated revoked : bool) : Z :=
    Z.of_nat (length (List.filter (λ wc,
      (pa_node_id p == Some (wc_node_id wc)) && eqb (is_some (wc_activated_at wc)) activated
      && eqb (is_some (wc_revoked_at wc)) revoked) all)) in
  {| pcs_total := Z.of_nat (length all); pcs_staged_unrevoked := count false false;
     pcs_active_unrevoked := count true false; pcs_staged_revoked := count false true;
     pcs_active_revoked := count true true |}.
(** [EXISTS(SELECT 1 FROM nodes n WHERE n.id = p.node_id)] *)
Definition pairing_node_exists (db : Db) (p : PairingRow) : bool :=
  is_some (pa_node_id p ≫= λ id, db_nodes db !! id).
Definition row_phase (db : Db) (pairing_id : Uuid) (p : PairingRow) (expires_at : DateTime) (failed : bool)
    (now : DateTime) : store_result PairingPhaseV1.t :=
  classify_pairing_phase (pa_intended_node_id p) (pa_node_id p) expires_at (is_some (pa_used_at p))
    (is_some (pa_acknowledged_at p)) (is_some (pa_revoked_at p)) failed (pairing_node_exists db p)
    (credential_state db pairing_id p) now.

(** ** Issuing *)

(** [INSERT INTO pairings]: the identifier and the code hash are unique. *)
Definition insert_pairing (secret : PairingSecret) : tx unit :=
  let hash := secret_hash (ps_code secret) in
  db ← get_db;
  guard_or (is_some (db_pairings db !! ps_id secret)
            || existsb (λ e : Uuid * PairingRow, pa_code_hash e.2 == hash) (map_to_list (db_pairings db)))
    StoreError.Database;;
  modify (λ db, set_db_pairings (<[ps_id secret :=
    {| pa_code_hash := hash; pa_created_at := unix (ps_created_at secret);
       pa_expires_at := unix (ps_expires_at secret); pa_used_at := None; pa_acknowledged_at := None;
       pa_revoked_at := None; pa_node_id := None; pa_intended_node_id := ps_intended_node_id secret;
       pa_failed_at := None; pa_failure_code := None |}]> (db_pairings db)) db).

Definition create_pairing_for (intended_node_id : option Uuid) : tx PairingSecret :=
  now ← utc_now;
  now ← timestamp (unix now);
  id ← new_v4;
  intended ← match intended_node_id with Some id => mret id | None => new_v4 end;
  code ← random_secret;
  let pairing :=
    {| ps_id := id; ps_intended_node_id := intended; ps_code := code; ps_created_at := now;
       ps_expires_at := (now + PAIRING_TTL_SECONDS * nanos_per_second)%Z |} in
  insert_pairing pairing;;
  mret pairing.
Definition create_pairing : tx PairingSecret := create_pairing_for None.

(** The replay of an operation whose pairing exists. *)
Definition replay_pairing (operation_key : rstr) (requested_node_id : option Uuid)
    (operation : PairingOperationRow) (p : PairingRow) : tx IdempotentPairing :=
  guard_or (po_requested_node_id operation != requested_node_id) StoreError.PairingIdempotencyMismatch;;
  created_at ← timestamp (pa_created_at p);
  expires_at ← timestamp (pa_expires_at p);
  failure ← liftr (pairing_failure_state (pa_failed_at p) (pa_failure_code p));
  now ← utc_now;
  db ← get_db;
  phase ← liftr (row_phase db (po_pairing_id operation) p expires_at (is_some failure.1) now);
  guard_or (phase != PairingPhaseV1.Pending) (StoreError.PairingIdempotencyFinalized phase);;
  mret {| ip_pairing :=
            {| ps_id := po_pairing_id operation; ps_intended_node_id := pa_intended_node_id p;
               ps_code := derive_pairing_code (db_pairing_seed db) operation_key (po_pairing_id operation)
                            (pa_intended_node_id p) (unix created_at);
               ps_created_at := created_at; ps_expires_at := expires_at |};
          ip_worker_url := po_worker_url operation; ip_certificate_pem := po_certificate_pem operation;
          ip_replayed := true |}.

Definition create_pairing_idempotent (operation_key : rstr) (requested_node_id : option Uuid)
    (worker_url certificate_pem : rstr) : tx IdempotentPairing :=
  guard_or (negb (valid_pairing_operation_key operation_key)) StoreError.InvalidPairingOperationKey;;
  guard_or (is_empty worker_url || (2048 <? len worker_url)%N || has_control worker_url
            || is_empty certificate_pem || (128 * 1024 <? len certificate_pem)%N) StoreError.InvalidUpload;;
  db ← get_db;
  let existing :=
    operation ← db_pairing_operations db !! operation_key;
    p ← db_pairings db !! po_pairing_id operation; Some (operation, p) in
  match existing with
  | Some (operation, p) => replay_pairing operation_key requested_node_id operation p
  | None =>
      now ← utc_now;
      created_at ← timestamp (unix now);
      pairing_id ← new_v4;
      intended ← match requested_node_id with Some id => mret id | None => new_v4 end;
      let pairing :=
        {| ps_id := pairing_id; ps_intended_node_id := intended;
           ps_code := derive_pairing_code (db_pairing_seed db) operation_key pairing_id intended
                        (unix created_at);
           ps_created_at := created_at;
           ps_expires_at := (created_at + PAIRING_TTL_SECONDS * nanos_per_second)%Z |} in
      insert_pairing pairing;;
      db ← get_db;
      guard_or (is_some (db_pairing_operations db !! operation_key)
                || existsb (λ e : rstr * PairingOperationRow, po_pairing_id e.2 == pairing_id)
                     (map_to_list (db_pairing_operations db))) StoreError.Database;;
      modify (λ db, set_db_pairing_operations (<[operation_key :=
        {| po_pairing_id := pairing_id; po_requested_node_id := requested_node_id;
           po_worker_url := worker_url; po_certificate_pem := certificate_pem |}]>
        (db_pairing_operations db)) db);;
      mret {| ip_pairing := pairing; ip_worker_url := worker_url; ip_certificate_pem := certificate_pem;
              ip_replayed := false |}
  end.

Definition get_pairing_status (pairing_id : Uuid) : tx StoredPairingStatus :=
  db ← get_db;
  p ← liftr (ok_or (db_pairings db !! pairing_id) StoreError.NotFound);
  created_at ← timestamp (pa_created_at p);
  expires_at ← timestamp (pa_expires_at p);
  consumed_at ← timestamp_opt (pa_used_at p);
  acknowledged_at ← timestamp_opt (pa_acknowledged_at p);
  revoked_at ← timestamp_opt (pa_revoked_at p);
  failure ← liftr (pairing_failure_state (pa_failed_at p) (pa_failure_code p));
  now ← utc_now;
  phase ← liftr (row_phase db pairing_id p expires_at (is_some failure.1) now);
  mret {| sps_pairing_id := pairing_id; sps_intended_node_id := pa_intended_node_id p;
          sps_node_id := pa_node_id p; sps_phase := phase; sps_created_at := created_at;
          sps_expires_at := expires_at; sps_consumed_at := consumed_at;
          sps_acknowledged_at := acknowledged_at; sps_revoked_at := revoked_at;
          sps_failed_at := failure.1; sps_failure_code := failure.2 |}.

Definition update_pairing (id : Uuid) (f : PairingRow → PairingRow) : tx unit :=
  modify (λ db, set_db_pairings (alter f id (db_pairings db)) db).

(** ** Failure *)
Definition fail_pairing (pairing_id : Uuid) (failure_code : PairingFailureCodeV1.t) : tx unit :=
  now ← utc_now;
  let now := unix now in
  db ← get_db;
  p ← liftr (ok_or (db_pairings db !! pairing_id) StoreError.NotFound);
  expires_at ← liftr (ok_or (from_timestamp (pa_expires_at p)) StoreError.InvalidPairingFailureState);
  failure ← liftr (pairing_failure_state (pa_failed_at p) (pa_failure_code p));
  observed_at ← utc_now;
  phase ← liftr (row_phase db pairing_id p expires_at (is_some failure.1) observed_at);
  match phase with
  | PairingPhaseV1.Pending =>
      if is_none (pa_used_at p) && is_none (pa_acknowledged_at p) && is_none (pa_revoked_at p)
         && is_none (pa_failed_at p) && is_none (pa_failure_code p) && is_none (pa_node_id p)
         && (now <? pa_expires_at p)%Z && is_empty (pairing_credentials db pairing_id)
      then update_pairing pairing_id (λ p,
             set_pa_failed_at (Some now)
               (set_pa_failure_code (Some (pairing_failure_code_name failure_code)) p))
      else throw StoreError.InvalidPairingFailureState
  | PairingPhaseV1.Failed =>
      guard_or (failure.2 != Some failure_code) StoreError.PairingFailureMismatch
  | phase => throw (StoreError.PairingFailureFinalized phase)
  end.

(** ** Consumption *)

(** The live pairing with the hash of the code. *)
Definition pairing_by_code (db : Db) (code_hash : rstr) (now : Z) : option (Uuid * PairingRow) :=
  List.find (λ e : Uuid * PairingRow,
    (pa_code_hash e.2 == code_hash) && is_none (pa_revoked_at e.2) && (now <? pa_expires_at e.2)%Z
    && is_none (pa_failed_at e.2) && is_none (pa_failure_code e.2)) (map_to_list (db_pairings db)).

Definition preauthorize_pairing (code : rstr) : tx unit :=
  now ← utc_now;
  db ← get_db;
  match pairing_by_code db (secret_hash code) (unix now) with
  | Some (id, p) =>
      let credentials := map snd (pairing_credentials db id) in
      let fresh := is_none (pa_used_at p) && is_none (pa_acknowledged_at p) && is_none (pa_node_id p)
                   && is_empty credentials in
      let staged := is_some (pa_used_at p) && is_none (pa_acknowledged_at p)
                    && (pa_node_id p == Some (pa_intended_node_id p)) && pairing_node_exists db p
                    && existsb (λ wc, (pa_node_id p == Some (wc_node_id wc)) && is_none (wc_activated_at wc)
                                      && is_none (wc_revoked_at wc)) credentials
                    && (length credentials == 1) in
      guard_or (negb (fresh || staged)) StoreError.PairingUnavailable
  | None => throw StoreError.PairingUnavailable
  end.

(** The second presentation of a code: only the same credential is accepted. *)
Definition replay_consumption (db : Db) (pairing_id intended_node_id : Uuid) (p : PairingRow)
    (credential_sha256 : rstr) (consumed_at : Z) : tx PairedWorker :=
  stored_node_id ← liftr (ok_or (pa_node_id p) StoreError.PairingBindingMismatch);
  guard_or (is_some (pa_acknowledged_at p) || (stored_node_id != intended_node_id)
            || (length (pairing_credentials db pairing_id) != 1) || negb (pairing_node_exists db p))
    StoreError.PairingUnavailable;;
  guard_or (negb (existsb (λ e : Uuid * WorkerCredentialRow,
              (wc_node_id e.2 == intended_node_id) && (wc_credential_hash e.2 == credential_sha256)
              && is_none (wc_activated_at e.2) && is_none (wc_revoked_at e.2))
              (pairing_credentials db pairing_id))) StoreError.PairingBindingMismatch;;
  commit;;
  consumed_at ← timestamp consumed_at;
  mret {| pw_pairing_id := pairing_id; pw_node_id := intended_node_id;
          pw_credential_sha256 := credential_sha256; pw_consumed_at := consumed_at; pw_replayed := true |}.

(** [INSERT INTO worker_credentials]: identifier and hash are unique. *)
Definition insert_credential (id : Uuid) (row : WorkerCredentialRow) : tx unit :=
  db ← get_db;
  guard_or (is_some (db_worker_credentials db !! id)
            || existsb (λ e : Uuid * WorkerCredentialRow, wc_credential_hash e.2 == wc_credential_hash row)
                 (map_to_list (db_worker_credentials db))) StoreError.Database;;
  modify (λ db, set_db_worker_credentials (<[id := row]> (db_worker_credentials db)) db).

Definition set_node_id (id : Uuid) (n : Node) : Node :=
  {| node_id := id; node_name := node_name n; node_enabled := node_enabled n;
     node_transport := node_transport n; node_os := node_os n; node_arch := node_arch n;
     node_status := node_status n; node_capabilities := node_capabilities n;
     node_resources := node_resources n; node_load := node_load n; node_priority := node_priority n;
     node_labels := node_labels n; node_cached_sources := node_cached_sources n;
     node_last_seen_at := node_last_seen_at n |}.

(** The three writes of a first consumption.  The UPDATE repeats, in its WHERE, the
    guards that the same transaction has just read. *)
Definition stage_credential (credential_id pairing_id intended_node_id : Uuid) (credential_sha256 : rstr)
    (now : Z) (node : Node) : tx unit :=
  update_pairing pairing_id (λ p, set_pa_used_at (Some now) (set_pa_node_id (Some intended_node_id) p));;
  upsert_node_tx (set_node_id intended_node_id node) NodeWriteAuthority.PairingProbe;;
  insert_credential credential_id
    {| wc_pairing_id := pairing_id; wc_node_id := intended_node_id;
       wc_credential_hash := credential_sha256; wc_created_at := now; wc_activated_at := None;
       wc_last_used_at := None; wc_revoked_at := None |}.

Definition consume_pairing (code : rstr) (pairing_id intended_node_id : Uuid) (credential_sha256 : rstr)
    (node : Node) : tx PairedWorker :=
  guard_or (negb (is_managed (node_transport node))) StoreError.InvalidManagedNode;;
  guard_or (negb (valid_sha256 credential_sha256)) StoreError.InvalidCredentialDigest;;
  now ← utc_now;
  let now := unix now in
  credential_id ← new_v4;
  db ← get_db;
  found ← liftr (ok_or (pairing_by_code db (secret_hash code) now) StoreError.PairingUnavailable);
  let '(stored_pairing_id, p) := found in
  guard_or ((pairing_id != stored_pairing_id) || (intended_node_id != pa_intended_node_id p)
            || (node_id node != pa_intended_node_id p)) StoreError.PairingBindingMismatch;;
  match pa_used_at p with
  | Some consumed_at => replay_consumption db pairing_id intended_node_id p credential_sha256 consumed_at
  | None =>
      guard_or (is_some (pa_acknowledged_at p) || is_some (pa_node_id p)
                || negb (is_empty (pairing_credentials db pairing_id))) StoreError.PairingUnavailable;;
      guard_or (existsb (λ e : Uuid * WorkerCredentialRow, wc_credential_hash e.2 == credential_sha256)
                  (map_to_list (db_worker_credentials db))) StoreError.PairingBindingMismatch;;
      stage_credential credential_id pairing_id intended_node_id credential_sha256 now node;;
      commit;;
      consumed_at ← timestamp now;
      mret {| pw_pairing_id := pairing_id; pw_node_id := intended_node_id;
              pw_credential_sha256 := credential_sha256; pw_consumed_at := consumed_at;
              pw_replayed := false |}
  end.

(** ** Acknowledgement *)

(** A credential of a consumed pairing that is staged, or active under an
    acknowledged one, and the only one of its pairing. *)
Definition acknowledgeable (db : Db) (wc : WorkerCredentialRow) (p : PairingRow) : bool :=
  is_none (wc_revoked_at wc) && is_some (pa_used_at p) && is_none (pa_revoked_at p)
  && is_none (pa_failed_at p) && is_none (pa_failure_code p)
  && (pa_node_id p == Some (wc_node_id wc)) && (pa_intended_node_id p == wc_node_id wc)
  && is_some (db_nodes db !! wc_node_id wc)
  && eqb (is_some (pa_acknowledged_at p)) (is_some (wc_activated_at wc))
  && (length (pairing_credentials db (wc_pairing_id wc)) == 1).
Definition credential_by_hash (db : Db) (hash : rstr) : option (Uuid * WorkerCredentialRow) :=
  List.find (λ e : Uuid * WorkerCredentialRow, wc_credential_hash e.2 == hash)
    (map_to_list (db_worker_credentials db)).

Definition preauthorize_pairing_ack (credential : rstr) : tx unit :=
  db ← get_db;
  match credential_by_hash db (secret_hash credential) with
  | Some (_, wc) =>
      guard_or (negb (is_some_and (db_pairings db !! wc_pairing_id wc) (acknowledgeable db wc)))
        StoreError.PairingAcknowledgementUnavailable
  | None => throw StoreError.PairingAcknowledgementUnavailable
  end.

(** [worker_credentials_one_active_node_idx] *)
Definition one_active_per_node (db : Db) (node : Uuid) : bool :=
  bool_decide (length (List.filter (λ e : Uuid * WorkerCredentialRow,
    (wc_node_id e.2 == node) && is_some (wc_activated_at e.2) && is_none (wc_revoked_at e.2))
    (map_to_list (db_worker_credentials db))) ≤ 1).

Definition update_credentials (f : Uuid → WorkerCredentialRow → WorkerCredentialRow) : tx unit :=
  modify (λ db, set_db_worker_credentials (map_imap (λ id wc, Some (f id wc)) (db_worker_credentials db)) db).

(** The three updates of a first acknowledgement, and the end of the node's other
    pairings. *)
Definition activate_credential (credential_id pairing_id node : Uuid) (now : Z) : tx unit :=
  update_credentials (λ _ wc,
    if (wc_node_id wc == node) && (wc_pairing_id wc != pairing_id) && is_none (wc_revoked_at wc)
    then set_wc_revoked_at (Some now) wc else wc);;
  update_credentials (λ id wc,
    if id == credential_id then set_wc_activated_at (Some now) (set_wc_last_used_at (Some now) wc) else wc);;
  db ← get_db;
  guard_or (negb (one_active_per_node db node)) StoreError.Database;;
  update_pairing pairing_id (set_pa_acknowledged_at (Some now));;
  modify (λ db, set_db_pairings (map_imap (λ id p, Some
    (if (pa_intended_node_id p == node) && (id != pairing_id) && is_none (pa_revoked_at p)
     then set_pa_revoked_at (Some now) p else p)) (db_pairings db)) db).

Definition acknowledge_pairing (credential : rstr) (pairing_id node : Uuid) (credential_sha256 : rstr) :
    tx PairingAcknowledgement :=
  guard_or (negb (valid_sha256 credential_sha256) || (secret_hash credential != credential_sha256))
    StoreError.PairingAcknowledgementUnavailable;;
  now ← utc_now;
  let now := unix now in
  db ← get_db;
  let found :=
    '(id, wc) ← credential_by_hash db credential_sha256;
    p ← db_pairings db !! wc_pairing_id wc;
    if (wc_pairing_id wc == pairing_id) && (wc_node_id wc == node) && acknowledgeable db wc p
    then Some (id, p) else None in
  found ← liftr (ok_or found StoreError.PairingAcknowledgementUnavailable);
  let '(credential_id, p) := found in
  acknowledged_at ←
    match pa_acknowledged_at p with
    | Some acknowledged_at => mret acknowledged_at
    | None => activate_credential credential_id pairing_id node now;; mret now
    end;
  commit;;
  acknowledged_at ← timestamp acknowledged_at;
  mret {| pk_pairing_id := pairing_id; pk_node_id := node; pk_credential_sha256 := credential_sha256;
          pk_acknowledged_at := acknowledged_at |}.

(** ** Revocation *)
Definition revoke_pairing (pairing_id : Uuid) : tx unit :=
  now ← utc_now;
  let now := unix now in
  db ← get_db;
  guard_or (is_none (db_pairings db !! pairing_id)) StoreError.NotFound;;
  update_pairing pairing_id (λ p, set_pa_revoked_at (Some (unwrap_or (pa_revoked_at p) now)) p);;
  update_credentials (λ _ wc,
    if wc_pairing_id wc == pairing_id
    then set_wc_revoked_at (Some (unwrap_or (wc_revoked_at wc) now)) wc else wc).
End pairings.
