(* ===== verification/TxLogic.v ===== *)
(** Reasoning about transactions: a weakest-precondition calculus for [ControllerDb.tx].

    [wp R m env s Q] says that [m], run from state [s], moves the database only
    along the preorder [R], commits only states on that way, never loses or
    replaces a file, and on success establishes [Q].  Errors need no
    postcondition: a failing method is rolled back to what it committed. *)
From Stdlib Require Import ZArith NArith Lia String.
From stdpp Require Import base option list numbers sets gmap.
From S2P Require Import Prelude Text Crates CanonicalJson ControllerDb.
Open Scope rust_scope.

(** Every file of the first state is still there, with its content. *)
Record files_le (f f' : Files) : Prop := {
  le_objects : fs_objects f ⊆ fs_objects f';
  le_snapshots : fs_snapshots f ⊆ fs_snapshots f'
}.
#[export] Instance files_le_preorder : PreOrder files_le.
Proof. split; [by intros []|]. intros ??? [] []. split; by etrans. Qed.

(** A family of preorders on databases, indexed by the files that exist. *)
Record Movement := {
  along :> Files → relation Db;
  #[export] movement_preorder :: ∀ f, PreOrder (along f);
  movement_mono : ∀ f f' d d', files_le f f' → along f d d' → along f' d d'
}.

Definition with_db (f : Db → Db) (s : TxState) : TxState :=
  {| tx_db := f (tx_db s); tx_committed := tx_committed s; tx_files := tx_files s; tx_tick := tx_tick s |}.

Section wp.
Context `{SerdeJsonCrate} (R : Movement).

(** What a computation may do to the state. *)
Record moves (s s' : TxState) : Prop := {
  mv_db : R (tx_files s') (tx_db s) (tx_db s');
  mv_files : files_le (tx_files s) (tx_files s');
  mv_committed : tx_committed s' = tx_committed s ∨
    R (tx_files s') (tx_db s) (tx_committed s') ∧ R (tx_files s') (tx_committed s') (tx_db s')
}.
#[export] Instance moves_preorder : PreOrder moves.
Proof.
  split; [intros s; split; [done|done|by left]|].
  intros s1 s2 s3 [D1 F1 C1] [D2 F2 C2].
  pose proof (movement_mono R _ _ _ _ F2 D1) as D1'.
  split; [by etrans|by etrans|].
  destruct C2 as [->|[A B]].
  - destruct C1 as [->|[A B]]; [by left|]. right.
    split; [by eapply movement_mono|]. etrans; [by eapply movement_mono|done].
  - right. split; [by etrans|done].
Qed.

(** What a failing computation may do: the transaction's own writes are lost. *)
Record kept (s s' : TxState) : Prop := {
  kt_files : files_le (tx_files s) (tx_files s');
  kt_committed : tx_committed s' = tx_committed s ∨ R (tx_files s') (tx_db s) (tx_committed s')
}.
Lemma moves_kept s s' : moves s s' → kept s s'.
Proof. intros [D F C]. split; [done|]. destruct C as [?|[? _]]; auto. Qed.
Lemma moves_then_kept s1 s2 s3 : moves s1 s2 → kept s2 s3 → kept s1 s3.
Proof.
  intros [D1 F1 C1] [F2 C2]. split; [by etrans|]. destruct C2 as [->|C2].
  - destruct C1 as [->|[A _]]; [by left|]. right. by eapply movement_mono.
  - right. etrans; [by eapply movement_mono|done].
Qed.

Definition wp {A} (m : tx A) (env : Env) (s : TxState) (Q : A → TxState → Prop) : Prop :=
  match m env s with
  | (s', Ok a) => moves s s' ∧ Q a s'
  | (s', Err _) => kept s s'
  end.

Lemma kept_refl s : kept s s.
Proof. by apply moves_kept. Qed.
Lemma wp_ret {A} (a : A) env s (Q : A → TxState → Prop) : Q a s → wp (mret a) env s Q.
Proof. intros HQ. by split. Qed.
Lemma wp_throw {A} e env s (Q : A → TxState → Prop) : wp (throw e) env s Q.
Proof. apply kept_refl. Qed.
Lemma wp_bind {A B} (m : tx A) (k : A → tx B) env s (Q : B → TxState → Prop) :
  wp m env s (λ a s', wp (k a) env s' Q) → wp (mbind k m) env s Q.
Proof.
  unfold wp at 1. unfold wp at 2. unfold mbind, tx_bind.
  destruct (m env s) as [s1 [a|e]]; [|done]. intros [M K]. unfold wp in K.
  destruct (k a env s1) as [s2 [b|e]]; [|by eapply moves_then_kept].
  destruct K as [M' K]. split; [by etrans|done].
Qed.
Lemma wp_mono {A} (m : tx A) env s (Q Q' : A → TxState → Prop) :
  wp m env s Q → (∀ a s', moves s s' → Q a s' → Q' a s') → wp m env s Q'.
Proof. unfold wp. destruct (m env s) as [s' [a|e]]; [|done]. intros [M K] HQ. auto. Qed.
Lemma wp_liftr {A} (r : result (StoreError.t json_error) A) env s (Q : A → TxState → Prop) :
  (∀ a, r = Ok a → Q a s) → wp (liftr r) env s Q.
Proof. intros HQ. unfold wp, liftr. destruct r; [split; [done|by apply HQ]|apply kept_refl]. Qed.
Lemma wp_guard b e env s (Q : unit → TxState → Prop) :
  (b = false → Q tt s) → wp (guard_or b e) env s Q.
Proof. unfold guard_or. destruct b; [intros _; apply wp_throw|]. intros HQ. apply wp_ret. auto. Qed.
Lemma wp_get_db env s (Q : Db → TxState → Prop) : Q (tx_db s) s → wp get_db env s Q.
Proof. intros HQ. by split. Qed.
Lemma wp_get_files env s (Q : Files → TxState → Prop) : Q (tx_files s) s → wp get_files env s Q.
Proof. intros HQ. by split. Qed.
Lemma wp_modify f env s (Q : unit → TxState → Prop) :
  R (tx_files s) (tx_db s) (f (tx_db s)) → Q tt (with_db f s) → wp (modify f) env s Q.
Proof. intros HR HQ. split; [|done]. split; [done|done|by left]. Qed.
Lemma wp_utc_now env s (Q : DateTime → TxState → Prop) :
  Q (env_clock env (tx_tick s)) (tick s) → wp utc_now env s Q.
Proof. intros HQ. split; [|done]. split; [done|done|by left]. Qed.
Lemma wp_new_v4 env s (Q : Uuid → TxState → Prop) :
  Q (env_uuid env (tx_tick s)) (tick s) → wp new_v4 env s Q.
Proof. intros HQ. split; [|done]. split; [done|done|by left]. Qed.
Lemma wp_commit env s (Q : unit → TxState → Prop) :
  (∀ s', moves s s' → tx_db s' = tx_db s → tx_files s' = tx_files s → Q tt s') → wp commit env s Q.
Proof.
  intros HQ. assert (moves s (commit env s).1) as M by (split; [done|done|by right]).
  split; [done|]. by apply HQ.
Qed.

Lemma wp_for_tx {A} (body : A → tx unit) (I : list A → TxState → Prop) l env s (Q : unit → TxState → Prop) :
  I l s → (∀ x l s, I (x :: l) s → wp (body x) env s (λ _ s', I l s')) → (∀ s, I [] s → Q tt s) →
  wp (for_tx body l) env s Q.
Proof.
  intros HI Hbody HQ. revert s HI. induction l as [|x l IH]; intros s HI; [by apply wp_ret, HQ|].
  apply wp_bind. eapply wp_mono; [by apply Hbody|]. intros ? s' _ HI'. by apply IH.
Qed.
Lemma wp_fold_tx {A B} (body : B → A → tx B) (I : list A → TxState → Prop) l b env s
    (Q : B → TxState → Prop) :
  I l s → (∀ b x l s, I (x :: l) s → wp (body b x) env s (λ _ s', I l s')) →
  (∀ b s, I [] s → Q b s) → wp (fold_tx body b l) env s Q.
Proof.
  intros HI Hbody HQ. revert b s HI. induction l as [|x l IH]; intros b s HI; [by apply wp_ret, HQ|].
  apply wp_bind. eapply wp_mono; [by apply Hbody|]. intros b' s' _ HI'. by apply IH.
Qed.
Lemma wp_map_tx {A B} (f : A → tx B) (I : TxState → Prop) l env s (Q : list B → TxState → Prop) :
  I s → (∀ x s, I s → wp (f x) env s (λ _ s', I s')) → (∀ ys s, I s → Q ys s) →
  wp (map_tx f l) env s Q.
Proof.
  intros HI Hf. revert s HI Q. induction l as [|x l IH]; intros s HI Q HQ; [by apply wp_ret, HQ|].
  apply wp_bind. eapply wp_mono; [by apply Hf|]. intros y s' _ HI'.
  apply wp_bind. apply IH; [done|]. intros ys s'' HI''. by apply wp_ret, HQ.
Qed.

(** A method as a whole: on success and on failure the committed database has
    moved, and no file is lost. *)
Lemma run_moves {A} env (m : tx A) c (Q : A → TxState → Prop) :
  wp m env {| tx_db := ctl_db c; tx_committed := ctl_db c; tx_files := ctl_files c; tx_tick := 0 |} Q →
  let '(c', r) := run env m c in
  R (ctl_files c') (ctl_db c) (ctl_db c') ∧ files_le (ctl_files c) (ctl_files c') ∧
  ∀ a, r = Ok a → ∃ s, Q a s ∧ ctl_db c' = tx_db s ∧ ctl_files c' = tx_files s.
Proof.
  unfold wp, run. destruct (m env _) as [s [a|e]].
  - intros [[D F C] K]. split_and!; [done..|]. intros ? [= <-]. eauto.
  - intros [F C]. split_and!; [|done|by intros ? [=]]. cbn in *. by destruct C as [->|?].
Qed.
End wp.

(** ** Computations that only read *)

(** [m] changes nothing but the clock. *)
Definition reads `{SerdeJsonCrate} {A} (m : tx A) : Prop :=
  ∀ env s, let s' := (m env s).1 in
    tx_db s' = tx_db s ∧ tx_committed s' = tx_committed s ∧ tx_files s' = tx_files s.

Section reads.
Context `{SerdeJsonCrate}.
Lemma reads_ret {A} (a : A) : reads (mret a).
Proof. done. Qed.
Lemma reads_throw {A} e : reads (throw e : tx A).
Proof. done. Qed.
Lemma reads_liftr {A} (r : result _ A) : reads (liftr r).
Proof. done. Qed.
Lemma reads_guard b e : reads (guard_or b e).
Proof. by destruct b. Qed.
Lemma reads_get_db : reads get_db.
Proof. done. Qed.
Lemma reads_get_files : reads get_files.
Proof. done. Qed.
Lemma reads_utc_now : reads utc_now.
Proof. done. Qed.
Lemma reads_new_v4 : reads new_v4.
Proof. done. Qed.
Lemma reads_bind {A B} (m : tx A) (k : A → tx B) : reads m → (∀ a, reads (k a)) → reads (mbind k m).
Proof.
  intros Hm Hk env s. specialize (Hm env s). unfold mbind, tx_bind.
  destruct (m env s) as [s1 [a|e]]; cbn in *; [|done].
  specialize (Hk a env s1). cbn in Hk. destruct Hm as (-> & -> & ->) in Hk. done.
Qed.
Lemma reads_map_tx {A B} (f : A → tx B) l : (∀ x, reads (f x)) → reads (map_tx f l).
Proof.
  intros Hf. induction l as [|x l IH]; cbn; [apply reads_ret|].
  apply reads_bind; [done|]. intros y. apply reads_bind; [done|]. intros ys. apply reads_ret.
Qed.
Lemma reads_timestamp `{ChronoCrate} z : reads (timestamp z).
Proof. apply reads_liftr. Qed.
Lemma reads_timestamp_opt `{ChronoCrate} o : reads (timestamp_opt o).
Proof. destruct o; [|done]. apply reads_bind; [done|]. intros ?. apply reads_ret. Qed.
Lemma reads_sql_sum l : reads (sql_sum l).
Proof. unfold sql_sum. by case_bool_decide. Qed.
Lemma reads_random_secret `{UuidCrate} : reads random_secret.
Proof. done. Qed.

(** A reader keeps every assertion about database and files; its result is
    described by the state it started from. *)
Lemma wp_reads (R : Movement) {A} (m : tx A) env s (Q : A → TxState → Prop) :
  reads m →
  (∀ a s', (m env s).2 = Ok a → tx_db s' = tx_db s → tx_files s' = tx_files s → Q a s') →
  wp R m env s Q.
Proof.
  intros Hm HQ. specialize (Hm env s). unfold wp. destruct (m env s) as [s' [a|e]]; cbn in *;
    destruct Hm as (E1 & E2 & E3).
  - split; [split; [by rewrite E1|by rewrite E3|by left]|by apply HQ].
  - split; [by rewrite E3|by left].
Qed.
End reads.

Create HintDb reads discriminated.
#[export] Hint Resolve reads_ret reads_throw reads_liftr reads_guard reads_get_db reads_get_files
  reads_utc_now reads_new_v4 reads_map_tx reads_timestamp reads_timestamp_opt reads_sql_sum
  reads_random_secret : reads.
(** [reads_auto] follows the structure of a reading computation. *)
Ltac reads_auto :=
  repeat (cbn beta zeta;
    lazymatch goal with
    | |- ∀ _, _ => intro
    | |- reads (mbind _ _) => apply reads_bind
    | |- reads (map_tx _ _) => apply reads_map_tx
    | |- reads (if ?b then _ else _) => destruct b
    | |- reads (match ?x with _ => _ end) => destruct x
    | |- reads (let _ := _ in _) => cbv zeta
    | |- reads _ => solve [auto with reads]
    end).

(** ** Compound changes *)

(** [m] writes no file and commits nothing. *)
Definition quiet `{SerdeJsonCrate} {A} (m : tx A) : Prop :=
  ∀ env s, let s' := (m env s).1 in tx_committed s' = tx_committed s ∧ tx_files s' = tx_files s.
(** No restriction at all. *)
Definition loose : Movement :=
  {| along := λ _ _ _, True; movement_preorder := λ _, Build_PreOrder _ (λ _, I) (λ _ _ _ _ _, I);
     movement_mono := λ _ _ _ _ _ _, I |}.

Section quiet.
Context `{SerdeJsonCrate}.
Lemma quiet_reads {A} (m : tx A) : reads m → quiet m.
Proof. intros Hm env s. by destruct (Hm env s) as (_ & ? & ?). Qed.
Lemma quiet_modify f : quiet (modify f).
Proof. done. Qed.
Lemma quiet_bind {A B} (m : tx A) (k : A → tx B) : quiet m → (∀ a, quiet (k a)) → quiet (mbind k m).
Proof.
  intros Hm Hk env s. specialize (Hm env s). unfold mbind, tx_bind.
  destruct (m env s) as [s1 [a|e]]; cbn in *; [|done].
  specialize (Hk a env s1). cbn in Hk. destruct Hm as (-> & ->) in Hk. done.
Qed.
(** A quiet computation counts as one step, whatever it does in between. *)
Lemma wp_atomic (R : Movement) {A} (m : tx A) env s (Q : A → TxState → Prop) :
  quiet m → wp loose m env s (λ a s', R (tx_files s) (tx_db s) (tx_db s') ∧ Q a s') → wp R m env s Q.
Proof.
  intros Hm. specialize (Hm env s). unfold wp. destruct (m env s) as [s' [a|e]]; cbn in Hm;
    destruct Hm as [E1 E2].
  - intros [_ [HR HQ]]. split; [|done]. split; [by rewrite E2|by rewrite E2|by left].
  - intros _. split; [by rewrite E2|by left].
Qed.
End quiet.
Ltac quiet_auto :=
  repeat (cbn beta zeta;
    lazymatch goal with
    | |- ∀ _, _ => intro
    | |- quiet (mbind _ _) => apply quiet_bind
    | |- quiet (modify _) => apply quiet_modify
    | |- quiet (if ?b then _ else _) => destruct b
    | |- quiet (match ?x with _ => _ end) => destruct x
    | |- quiet (let _ := _ in _) => cbv zeta
    | |- quiet _ => apply quiet_reads; solve [auto with reads]
    end).

(** [wp_step] symbolically executes the head of the computation. *)
Ltac wp_head :=
  lazymatch goal with
  | |- wp _ (mbind _ _) _ _ _ => apply wp_bind
  | |- wp _ (mret _) _ _ _ => apply wp_ret
  | |- wp _ (throw _) _ _ _ => apply wp_throw
  | |- wp _ (liftr _) _ _ _ => apply wp_liftr
  | |- wp _ (guard_or _ _) _ _ _ => apply wp_guard
  | |- wp _ get_db _ _ _ => apply wp_get_db
  | |- wp _ get_files _ _ _ => apply wp_get_files
  | |- wp _ utc_now _ _ _ => apply wp_utc_now
  | |- wp _ new_v4 _ _ _ => apply wp_new_v4
  | |- wp _ (modify _) _ _ _ => apply wp_modify
  | |- wp _ (timestamp _) _ _ _ => apply wp_liftr
  | |- wp _ (if ?b then _ else _) _ _ _ => let E := fresh "E" in destruct b eqn:E
  | |- wp _ (match ?x with _ => _ end) _ _ _ => let E := fresh "E" in destruct x eqn:E
  end.
Ltac wp_step := first [wp_head; intros; cbn beta | progress (intros; cbn beta zeta)].
