(* ===== verification/Changes.v ===== *)
(** The atomic changes of the controller's database.

    [change f db db'] lists every way in which the controller writes one fact:
    which rows it inserts, which columns it updates, and the condition under which
    it does.  The files [f] matter for rows that point to them.  [ChangeProofs]
    shows that every public method only ever composes such changes; the theorems of
    [ControllerSafety] then follow by induction on them.  Pairing changes are
    compound: their columns only make sense together. *)
From Stdlib Require Import ZArith NArith Lia String.
From stdpp Require Import base option list numbers sets gmap relations.
From S2P Require Import Prelude Text Crates Protocol Snapshot RunState JobSpec CanonicalJson NodeState PlacementBinding WorkerReports WorkerRun Cleanup Onboarding ControllerDb FleetNodes Leases Uploads CompletionEvidence Pairings TxLogic.
Open Scope rust_scope.

Definition row_state (row : JobRow) : JobState.t := run_state (jr_run row).

(** A compare-and-swap of a run that is not over. *)
Record job_write (row row' : JobRow) : Prop := {
  jw_job : jr_job row' = jr_job row;
  jw_job_id : jr_job_id row' = jr_job_id row;
  jw_created : jr_created_at row' = jr_created_at row;
  jw_lease : jr_lease_id row' = jr_lease_id row;
  jw_run : run_id (jr_run row') = run_id (jr_run row);
  jw_run_job : run_job_id (jr_run row') = run_job_id (jr_run row);
  jw_live : JobState.is_terminal (row_state row) = false;
  jw_state : row_state row' = row_state row ∨
    JobState.can_transition_to (row_state row) (row_state row') = true;
  jw_node : row_state row ≠ JobState.Queued → run_node_id (jr_run row') = run_node_id (jr_run row);
  jw_binding : row_state row ≠ JobState.Queued → jr_plan_binding row' = jr_plan_binding row;
  jw_cancel : jr_cancel_requested row = true → jr_cancel_requested row' = true ∧
    (row_state row' = row_state row ∨ row_state row' = JobState.Cancelled ∨ row_state row' = JobState.Failed);
  jw_version : (0 ≤ jr_version row)%Z ∧ jr_version row' = Z.min (jr_version row + 1) i64_max
}.
Record new_job (db : Db) (id : Uuid) (row : JobRow) : Prop := {
  nj_run : run_id (jr_run row) = id;
  nj_job : jr_job_id row = job_id (jr_job row);
  nj_valid : JobSpec_validate (jr_job row) = Ok tt;
  nj_state : row_state row = JobState.Queued;
  nj_version : jr_version row = 0%Z;
  nj_cancel : jr_cancel_requested row = false;
  nj_unique : ∀ id' row', db_jobs db !! id' = Some row' → jr_job_id row' ≠ jr_job_id row;
  nj_lease : ∀ lease, jr_lease_id row = Some lease →
    ∃ l, db_leases db !! lease = Some l ∧ lr_run_id l = id
}.

(** The run of a lease is in a state. *)
Definition lease_run_is (p : JobState.t → bool) (db : Db) (l : LeaseRow) : Prop :=
  ∃ row, db_jobs db !! lr_run_id l = Some row ∧ p (row_state row) = true.
(** The cleanup obligation of a lease was discharged. *)
Definition discharged (db : Db) (lease : Uuid) : Prop :=
  ∃ run ob, db_obligations db !! run = Some ob ∧ ob_lease_id ob = lease ∧
    is_Some (ob_reservation_released_at ob).

(** What a lease holds of its node is not negative. *)
Record reserves (l : LeaseRow) : Prop := {
  rv_slots : (0 ≤ lr_slots l)%Z;
  rv_cpu_cores : (0 ≤ lr_cpu_cores l)%Z;
  rv_memory_mib : (0 ≤ lr_memory_mib l)%Z;
  rv_disk_mib : (0 ≤ lr_disk_mib l)%Z;
  rv_gpu_reserved : (0 ≤ lr_gpu_reserved l)%Z
}.
Inductive lease_write (db : Db) (id : Uuid) (l : LeaseRow) : LeaseRow → Prop :=
| lw_release now :
    lr_released_at l = None → lr_phase l ≠ LeasePhase.CleanupPending ∨ discharged db id →
    lease_write db id l (set_lr_released_at (Some now) l)
| lw_extend t :
    lr_released_at l = None → lr_phase l ≠ LeasePhase.CleanupPending →
    lease_write db id l (set_lr_expires_at t l)
| lw_claim t :
    lr_released_at l = None → lr_phase l = LeasePhase.Dispatch ∨ lr_phase l = LeasePhase.Legacy →
    lease_write db id l (set_lr_expires_at t (set_lr_phase LeasePhase.Execution l))
| lw_complete t :
    lr_released_at l = None → lr_phase l = LeasePhase.Execution →
    lease_run_is JobState.is_terminal db l →
    lease_write db id l (set_lr_expires_at t (set_lr_phase LeasePhase.CleanupPending l))
| lw_rearm l' :
    lr_run_id l' = lr_run_id l → lr_job_id l' = lr_job_id l → lr_phase l' = LeasePhase.Dispatch →
    lr_released_at l' = None → reserves l' → lease_run_is (λ s, s == JobState.Queued) db l →
    lease_write db id l l'.

Record obligation_write (o o' : ObligationRow) : Prop := {
  ow_job : ob_job_id o' = ob_job_id o;
  ow_lease : ob_lease_id o' = ob_lease_id o;
  ow_version : ob_state_version o' = ob_state_version o;
  ow_state : ob_final_state o' = ob_final_state o;
  ow_digest : ob_completion_sha256 o' = ob_completion_sha256 o;
  ow_acknowledged : ob_terminal_acknowledged_at o' = ob_terminal_acknowledged_at o;
  ow_deadline : ob_cleanup_deadline_at o' = ob_cleanup_deadline_at o;
  ow_open : ob_reservation_released_at o = None
}.

(** A completion and the cleanup obligation that goes with it agree with the row of
    their run, which has ended; the completion passed the checks of its source and of its
    steps. *)
Record settles `{SerdeJsonCrate, !StoreSerde, DigestCrate} (run : Uuid) (row : JobRow) (c : CompletionRow) (o : ObligationRow) : Prop := {
  se_run : rc_run_id (co_document c) = run;
  se_document : ∃ document, completion_to_string (co_document c) = Ok document ∧
    co_document_sha256 c = bytes_sha256 (bytes document);
  se_lease : ob_lease_id o = rc_lease_id (co_document c);
  se_digest : ob_completion_sha256 o = co_document_sha256 c;
  se_time : ob_terminal_acknowledged_at o = co_created_at c;
  se_terminal : JobState.is_terminal (row_state row) = true;
  se_job : ob_job_id o = job_id (jr_job row);
  se_version : ob_state_version o = jr_version row;
  se_state : ob_final_state o = row_state row;
  se_valid : RunCompletion_validate (co_document c) = Ok tt;
  se_final : rc_final_state (co_document c) = row_state row;
  se_source : validate_execution_source (job_source (jr_job row)) (row_state row) (rc_execution (co_document c)) = Ok tt;
  se_steps : ∃ os, validate_step_evidence (jr_job row) os (co_document c) = Ok tt
}.
Definition finishes `{SerdeJsonCrate, !StoreSerde, DigestCrate} (db : Db) (run : Uuid) (c : CompletionRow) (o : ObligationRow) : Prop :=
  ob_reservation_released_at o = None ∧ ∃ row, db_jobs db !! run = Some row ∧ settles run row c o.

(** A cleanup receipt is valid and acknowledges the completion of its run, which has
    ended as it says. *)
Record receipted `{UuidCrate} (db : Db) (run : Uuid) (receipt : CleanupReceiptV1) : Prop := {
  rp_valid : CleanupReceiptV1_validate receipt = Ok tt;
  rp_run : cl_run_id receipt = run;
  rp_completion : ∃ c, db_completions db !! run = Some c ∧
    co_document_sha256 c = ack_completion_sha256 (cl_terminal_ack receipt);
  rp_state : ∃ row, db_jobs db !! run = Some row ∧ row_state row = ack_final_state (cl_terminal_ack receipt)
}.

(** A safe path names a file with a digest and a size. *)
Definition stored_object `{DigestCrate} (f : Files) (path sha : rstr) (size : Z) : Prop :=
  safe_object_path path = true ∧
  ∃ data, fs_objects f !! path = Some data ∧ bytes_sha256 data = sha ∧ Z.of_nat (length data) = size.

(** A snapshot row points to the archive of its digest: its path is the safe one derived
    from the digest, its size the archive's, within the limit. *)
Definition stored_snapshot `{SerdeJsonCrate, DigestCrate} (f : Files) (digest : rstr) (row : SnapshotRow) : Prop :=
  safe_object_path (snr_relative_path row) = true ∧
  generated_snapshot_relative_path digest = Ok (snr_relative_path row) ∧
  ∃ data, fs_snapshots f !! snr_relative_path row = Some data ∧ snapshot_digest_of data = digest ∧
    snr_size row = Z.of_nat (length data) ∧ (byte_len data ≤ MAX_SNAPSHOT_ARCHIVE_BYTES)%N.

(** A log chunk continues its stream, points to a file with its content and belongs to a
    claimed run whose row can be read. *)
Record new_log (f : Files) (db : Db) (run : Uuid) (stream : rstr) (offset : Z) (row : LogChunkRow)
    `{SerdeJsonCrate, DigestCrate} : Prop := {
  nl_claim : is_Some (db_worker_claims db !! run);
  nl_job : ∃ job, db_jobs db !! run = Some job ∧ is_ok (decode_job_row job) = true;
  nl_stream : valid_stream stream = true;
  nl_length : (0 < lc_chunk_length row)%Z;
  nl_offset : offset =
    Z.max 0 (foldr Z.add 0%Z (map (λ e, lc_chunk_length e.2) (stream_rows db run stream)));
  nl_quota : (foldr Z.add 0 (map (λ e, lc_chunk_length e.2) (log_rows db run)) + lc_chunk_length row
              ≤ Z.of_N MAX_RUN_LOG_BYTES)%Z;
  nl_count : (N.of_nat (length (log_rows db run)) < MAX_RUN_LOG_CHUNKS)%N;
  nl_file : stored_object f (lc_relative_path row) (lc_sha256 row) (lc_chunk_length row)
}.
Record new_artifact (f : Files) (db : Db) (row : ArtifactRow) `{DigestCrate} : Prop := {
  na_quota : (foldr Z.add 0 (map (λ e, atr_size e.2) (artifact_rows db (atr_run_id row))) + atr_size row
              ≤ Z.of_N MAX_RUN_ARTIFACT_BYTES)%Z;
  na_count : (N.of_nat (length (artifact_rows db (atr_run_id row))) < MAX_RUN_ARTIFACT_COUNT)%N;
  na_name : valid_artifact_name (atr_name row) = true;
  na_file : stored_object f (atr_relative_path row) (atr_sha256 row) (atr_size row)
}.

(** ** Pairings *)
Definition fresh_pairing (p : PairingRow) : Prop :=
  pa_used_at p = None ∧ pa_acknowledged_at p = None ∧ pa_node_id p = None ∧
  pa_failed_at p = None ∧ pa_failure_code p = None.
Definition no_credentials (db : Db) (id : Uuid) : Prop :=
  ∀ cid wc, db_worker_credentials db !! cid = Some wc → wc_pairing_id wc ≠ id.

(** The credentials and pairings after an acknowledgement. *)
Definition retired_credential (pairing node : Uuid) (now : Z) (wc : WorkerCredentialRow) : WorkerCredentialRow :=
  if (wc_node_id wc == node) && (wc_pairing_id wc != pairing) && is_none (wc_revoked_at wc)
  then set_wc_revoked_at (Some now) wc else wc.
Definition activated_credential (cid : Uuid) (now : Z) (id : Uuid) (wc : WorkerCredentialRow) :
    WorkerCredentialRow :=
  if id == cid then set_wc_activated_at (Some now) (set_wc_last_used_at (Some now) wc) else wc.
Definition acknowledged_pairing (pairing node : Uuid) (now : Z) (id : Uuid) (p : PairingRow) : PairingRow :=
  if id == pairing then set_pa_acknowledged_at (Some now) p
  else if (pa_intended_node_id p == node) && is_none (pa_revoked_at p) then set_pa_revoked_at (Some now) p
  else p.
Definition revoked_credential (pairing : Uuid) (now : Z) (wc : WorkerCredentialRow) : WorkerCredentialRow :=
  if wc_pairing_id wc == pairing
  then set_wc_revoked_at (Some (unwrap_or (wc_revoked_at wc) now)) wc else wc.

Inductive pairing_change : Db → Db → Prop :=
| pc_new db id p :
    db_pairings db !! id = None → fresh_pairing p → pa_revoked_at p = None →
    pairing_change db (set_db_pairings (<[id := p]> (db_pairings db)) db)
| pc_operation db key row :
    db_pairing_operations db !! key = None →
    pairing_change db (set_db_pairing_operations (<[key := row]> (db_pairing_operations db)) db)
| pc_fail db id p now code :
    db_pairings db !! id = Some p → fresh_pairing p → pa_revoked_at p = None → no_credentials db id →
    pairing_change db (set_db_pairings
      (<[id := set_pa_failed_at (Some now) (set_pa_failure_code (Some (pairing_failure_code_name code)) p)]>
         (db_pairings db)) db)
| pc_consume db id p cid wc now :
    db_pairings db !! id = Some p → fresh_pairing p → pa_revoked_at p = None → no_credentials db id →
    is_Some (db_nodes db !! pa_intended_node_id p) →
    db_worker_credentials db !! cid = None →
    (∀ i c, db_worker_credentials db !! i = Some c → wc_credential_hash c ≠ wc_credential_hash wc) →
    wc_pairing_id wc = id → wc_node_id wc = pa_intended_node_id p →
    wc_activated_at wc = None → wc_revoked_at wc = None →
    pairing_change db
      (set_db_worker_credentials (<[cid := wc]> (db_worker_credentials db))
        (set_db_pairings (<[id := set_pa_used_at (Some now)
           (set_pa_node_id (Some (pa_intended_node_id p)) p)]> (db_pairings db)) db))
| pc_acknowledge db id p cid wc now :
    db_pairings db !! id = Some p → db_worker_credentials db !! cid = Some wc →
    acknowledgeable db wc p = true → wc_pairing_id wc = id → pa_acknowledged_at p = None →
    pairing_change db
      (set_db_pairings (map_imap (λ i p, Some (acknowledged_pairing id (wc_node_id wc) now i p))
         (db_pairings db))
        (set_db_worker_credentials
          (map_imap (λ i c, Some (activated_credential cid now i (retired_credential id (wc_node_id wc) now c)))
             (db_worker_credentials db)) db))
| pc_revoke db id p now :
    db_pairings db !! id = Some p →
    pairing_change db
      (set_db_worker_credentials (revoked_credential id now <$> db_worker_credentials db)
        (set_db_pairings (<[id := set_pa_revoked_at (Some (unwrap_or (pa_revoked_at p) now)) p]>
           (db_pairings db)) db)).

(** ** Nodes *)
Inductive node_change : Db → Db → Prop :=
| nc_nodes db v :
    (∀ id, is_Some (db_nodes db !! id) → is_Some (v !! id)) → node_change db (set_db_nodes v db)
| nc_configs db v : node_change db (set_db_node_configs v db)
| nc_inventories db v : node_change db (set_db_node_inventories v db)
| nc_telemetry db v : node_change db (set_db_node_telemetry v db)
| nc_boots db v : node_change db (set_db_node_telemetry_boots v db)
| nc_fleet db :
    (db_fleet_revision db < as_i64 MAX_SAFE_JSON_INTEGER)%Z →
    node_change db (set_db_fleet_revision (db_fleet_revision db + 1)%Z db).

(** ** Runs and their leases: all that the passage of time may change *)
Inductive lease_change : Db → Db → Prop :=
| lc_job db id row row' :
    db_jobs db !! id = Some row → job_write row row' →
    lease_change db (set_db_jobs (<[id := row']> (db_jobs db)) db)
| lc_lease db id l l' :
    db_leases db !! id = Some l → lease_write db id l l' →
    is_Some (lr_released_at l') ∨ lr_phase l' = LeasePhase.Dispatch →
    lease_change db (set_db_leases (<[id := l']> (db_leases db)) db)
| lc_lease_gpus db v : lease_change db (set_db_lease_gpus v db)
| lc_revoke_claim db run c now :
    db_worker_claims db !! run = Some c → wl_revoked_at c = None →
    lease_change db (set_db_worker_claims (<[run := set_wl_revoked_at (Some now) c]> (db_worker_claims db)) db)
| lc_obligation db run o o' :
    db_obligations db !! run = Some o → obligation_write o o' →
    lease_change db (set_db_obligations (<[run := o']> (db_obligations db)) db)
| lc_new_plan db id row :
    db_plans db !! id = None → lease_change db (set_db_plans (<[id := row]> (db_plans db)) db)
| lc_new_attempt db key row :
    db_attempts db !! key = None →
    lease_change db (set_db_attempts (<[key := row]> (db_attempts db)) db)
| lc_fleet db :
    (db_fleet_revision db < as_i64 MAX_SAFE_JSON_INTEGER)%Z →
    lease_change db (set_db_fleet_revision (db_fleet_revision db + 1)%Z db).

(** ** All changes *)
Inductive change `{UuidCrate, SerdeJsonCrate, !StoreSerde, DigestCrate} (f : Files) : Db → Db → Prop :=
| ch_lease db db' : lease_change db db' → change f db db'
| ch_node db db' : node_change db db' → change f db db'
| ch_pairing db db' : pairing_change db db' → change f db db'
| ch_new_job db id row :
    db_jobs db !! id = None → new_job db id row →
    change f db (set_db_jobs (<[id := row]> (db_jobs db)) db)
| ch_new_lease db id l :
    db_leases db !! id = None → lr_phase l = LeasePhase.Dispatch → reserves l →
    change f db (set_db_leases (<[id := l]> (db_leases db)) db)
| ch_lease_write db id l l' :
    db_leases db !! id = Some l → lease_write db id l l' →
    change f db (set_db_leases (<[id := l']> (db_leases db)) db)
| ch_renew_claim db run c t :
    db_worker_claims db !! run = Some c → wl_revoked_at c = None →
    change f db (set_db_worker_claims (<[run := set_wl_expires_at t c]> (db_worker_claims db)) db)
| ch_new_claim db run c :
    db_worker_claims db !! run = None → (∃ row, db_jobs db !! run = Some row ∧ row_state row ≠ JobState.Queued) →
    change f db (set_db_worker_claims (<[run := c]> (db_worker_claims db)) db)
| ch_finish db run row o :
    db_completions db !! run = None → db_obligations db !! run = None → finishes db run row o →
    change f db (set_db_obligations (<[run := o]> (db_obligations db))
                  (set_db_completions (<[run := row]> (db_completions db)) db))
| ch_new_cleanup db run row :
    db_cleanups db !! run = None → receipted db run (cu_document row) →
    change f db (set_db_cleanups (<[run := row]> (db_cleanups db)) db)
| ch_use_plan db id row now :
    db_plans db !! id = Some row → plr_used_at row = None →
    change f db (set_db_plans (<[id := set_plr_used_at (Some now) row]> (db_plans db)) db)
| ch_log db run stream offset row :
    db_log_chunks db !! (run, stream, offset) = None → new_log f db run stream offset row →
    change f db (set_db_log_chunks (<[(run, stream, offset) := row]> (db_log_chunks db)) db)
| ch_artifact db id row :
    db_artifacts db !! id = None → new_artifact f db row →
    change f db (set_db_artifacts (<[id := row]> (db_artifacts db)) db)
| ch_snapshot db digest row :
    db_snapshots db !! digest = None → stored_snapshot f digest row →
    change f db (set_db_snapshots (<[digest := row]> (db_snapshots db)) db)
| ch_last_used db hash now :
    change f db (set_db_worker_credentials
      ((λ c, if wc_credential_hash c == hash then set_wc_last_used_at (Some now) c else c) <$>
         db_worker_credentials db) db).

(** ** The invariant that the methods rely on *)
Record consistent (db : Db) : Prop := {
  cs_keyed : ∀ id row, db_jobs db !! id = Some row → run_id (jr_run row) = id;
  cs_linked : ∀ id row lease, db_jobs db !! id = Some row → jr_lease_id row = Some lease →
    ∃ l, db_leases db !! lease = Some l ∧ lr_run_id l = id;
  cs_cleanup : ∀ id l, db_leases db !! id = Some l → lr_phase l = LeasePhase.CleanupPending →
    lease_run_is JobState.is_terminal db l;
  cs_valid : ∀ id row, db_jobs db !! id = Some row → JobSpec_validate (jr_job row) = Ok tt;
  cs_version : ∀ id row, db_jobs db !! id = Some row → (0 ≤ jr_version row ≤ i64_max)%Z;
  cs_reserves : ∀ id l, db_leases db !! id = Some l → reserves l
}.

Section movement.
Context `{UuidCrate, SerdeJsonCrate, !StoreSerde, DigestCrate}.
Lemma stored_object_mono f f' path sha size :
  fs_objects f ⊆ fs_objects f' → stored_object f path sha size → stored_object f' path sha size.
Proof.
  intros Hf (Hs & data & ? & ? & ?). split; [done|]. exists data. split_and!; [by eapply lookup_weaken|done..].
Qed.
Lemma change_mono f f' db db' : files_le f f' → change f db db' → change f' db db'.
Proof.
  intros [Ho Hs] Hc. destruct Hc as
    [d d' Hc|d d' Hn|d d' Hp|d i r Hr Hn|d i l Hl Hp Hv|d i l l' Hl Hw|d r c t Hc Hu|d r c Hc|d r row o Hr Hob Hf|d r row Hr Hrp
    |d i row now Hr Hu|d r s off row Hr Hn|d i row Hr Hn|d dg row Hr Hn|d h now].
  - by apply ch_lease.
  - by apply ch_node.
  - by apply ch_pairing.
  - by apply ch_new_job.
  - by apply ch_new_lease.
  - by eapply ch_lease_write.
  - by apply ch_renew_claim.
  - by apply ch_new_claim.
  - by apply ch_finish.
  - by apply ch_new_cleanup.
  - by apply ch_use_plan.
  - destruct Hn as [? ? ? ? ? ? ? ?]. apply ch_log; [done|]. split; [done..|]. by eapply stored_object_mono.
  - destruct Hn as [? ? ? ?]. apply ch_artifact; [done|]. split; [done..|]. by eapply stored_object_mono.
  - destruct Hn as (? & ? & data & ? & ?). apply ch_snapshot; [done|]. split_and!; [done..|]. exists data.
    split; [by eapply lookup_weaken|done].
  - apply ch_last_used.
Qed.
Lemma rtc_mono_change f f' d d' : files_le f f' → rtc (change f) d d' → rtc (change f') d d'.
Proof.
  intros Hf Hr. induction Hr as [|d1 d2 d3 Hc _ IH]; [done|].
  eapply rtc_l; [by eapply change_mono|done].
Qed.
Definition moved : Movement :=
  {| along := λ f, rtc (change f); movement_preorder := λ f, rtc_po; movement_mono := rtc_mono_change |}.
Lemma moved_once f db db' : change f db db' → moved f db db'.
Proof. intros Hc. change (rtc (change f) db db'). by apply rtc_once. Qed.

Lemma lease_run_is_insert p db l id row :
  (∀ old, db_jobs db !! id = Some old → p (row_state old) = true → p (row_state row) = true) →
  lease_run_is p db l → lease_run_is p (set_db_jobs (<[id := row]> (db_jobs db)) db) l.
Proof.
  intros Hp (old & Hold & Hs). destruct (decide (lr_run_id l = id)) as [<-|Hne].
  - exists row. cbn. rewrite lookup_insert_eq. split; [done|]. by eapply Hp.
  - exists old. cbn. by rewrite lookup_insert_ne.
Qed.

Lemma node_change_tables db db' :
  node_change db db' → db_jobs db' = db_jobs db ∧ db_leases db' = db_leases db.
Proof. by intros []. Qed.
Lemma pairing_change_tables db db' :
  pairing_change db db' → db_jobs db' = db_jobs db ∧ db_leases db' = db_leases db.
Proof. by intros []. Qed.

Lemma consistent_tables db db' :
  db_jobs db' = db_jobs db → db_leases db' = db_leases db → consistent db → consistent db'.
Proof.
  intros Hj Hl [K L C V W]. split.
  - rewrite Hj. done.
  - rewrite Hj, Hl. done.
  - rewrite Hl. intros id l Hid Hp. destruct (C _ _ Hid Hp) as (row & ? & ?). exists row. by rewrite Hj.
  - rewrite Hj. done.
  - rewrite Hj. done.
  - rewrite Hl. done.
Qed.
Lemma consistent_job db id row row' :
  consistent db → db_jobs db !! id = Some row → job_write row row' →
  consistent (set_db_jobs (<[id := row']> (db_jobs db)) db).
Proof.
  intros [K L C V W R] Hid Hw. split; cbn.
  - intros i r [[<- <-]|[_ ?]]%lookup_insert_Some; [|by apply K].
    rewrite (jw_run _ _ Hw). by apply K.
  - intros i r lease [[<- <-]|[_ ?]]%lookup_insert_Some Hr; [|by eapply L].
    rewrite (jw_lease _ _ Hw) in Hr. by eapply L.
  - intros i l Hi Hp. apply lease_run_is_insert; [|by eapply C].
    intros old Hold Ht. assert (old = row) as -> by congruence. by rewrite (jw_live _ _ Hw) in Ht.
  - intros i r [[<- <-]|[_ ?]]%lookup_insert_Some; [|by eapply V].
    rewrite (jw_job _ _ Hw). by eapply V.
  - intros i r [[<- <-]|[_ ?]]%lookup_insert_Some; [|by eapply W].
    destruct (jw_version _ _ Hw) as [? ->]. unfold i64_max. lia.
  - exact R.
Qed.
Lemma consistent_new_job db id row :
  consistent db → db_jobs db !! id = None → new_job db id row →
  consistent (set_db_jobs (<[id := row]> (db_jobs db)) db).
Proof.
  intros [K L C V W R] Hid Hn. split; cbn.
  - intros i r [[<- <-]|[_ ?]]%lookup_insert_Some; [exact (nj_run _ _ _ Hn)|by apply K].
  - intros i r lease [[<- <-]|[_ ?]]%lookup_insert_Some Hr; [by apply (nj_lease _ _ _ Hn)|by eapply L].
  - intros i l Hi Hp. apply lease_run_is_insert; [|by eapply C]. intros old Hold. congruence.
  - intros i r [[<- <-]|[_ ?]]%lookup_insert_Some; [exact (nj_valid _ _ _ Hn)|by eapply V].
  - intros i r [[<- <-]|[_ ?]]%lookup_insert_Some; [by rewrite (nj_version _ _ _ Hn)|by eapply W].
  - exact R.
Qed.
Lemma lease_write_run db id l l' : lease_write db id l l' → lr_run_id l' = lr_run_id l.
Proof. by intros []. Qed.
Lemma lease_write_reserves db id l l' : reserves l → lease_write db id l l' → reserves l'.
Proof. intros [? ? ? ? ?] []; done. Qed.
Lemma consistent_lease db id l l' :
  consistent db → db_leases db !! id = Some l → lease_write db id l l' →
  consistent (set_db_leases (<[id := l']> (db_leases db)) db).
Proof.
  intros [K L C V W R] Hid Hw. pose proof (lease_write_run _ _ _ _ Hw) as Hrun. split; cbn; [done| | |exact V|exact W|].
  - intros i r lease Hi Hl. destruct (L _ _ _ Hi Hl) as (l0 & Hl0 & Hr0).
    destruct (decide (lease = id)) as [->|Hne].
    + exists l'. rewrite lookup_insert_eq. split; [done|]. congruence.
    + exists l0. by rewrite lookup_insert_ne.
  - intros i x [[<- <-]|[_ Hi]]%lookup_insert_Some Hp; [|by apply (C i)].
    destruct Hw as [now|t|t|t ? ? Ht|l' ? ? ?]; cbn in Hp; try done; [exact (C _ _ Hid Hp)|congruence].
  - intros i x [[<- <-]|[_ Hi]]%lookup_insert_Some; [|by apply (R i)]. eapply lease_write_reserves; [by eapply R|exact Hw].
Qed.
Lemma consistent_new_lease db id l :
  consistent db → db_leases db !! id = None → lr_phase l = LeasePhase.Dispatch → reserves l →
  consistent (set_db_leases (<[id := l]> (db_leases db)) db).
Proof.
  intros [K L C V W R] Hid Hp Hv. split; cbn; [done| | |exact V|exact W|].
  - intros i r lease Hi Hl. destruct (L _ _ _ Hi Hl) as (l0 & Hl0 & Hr0). exists l0.
    rewrite lookup_insert_ne; [done|]. congruence.
  - intros i x [[<- <-]|[_ Hi]]%lookup_insert_Some Hx; [congruence|by apply (C i)].
  - intros i x [[<- <-]|[_ Hi]]%lookup_insert_Some; [exact Hv|by apply (R i)].
Qed.
Lemma consistent_lease_change db db' : lease_change db db' → consistent db → consistent db'.
Proof.
  intros Hc Hi. destruct Hc; [by eapply consistent_job|by eapply consistent_lease|..];
    (eapply consistent_tables; [| |exact Hi]; reflexivity).
Qed.
Lemma consistent_change f db db' : change f db db' → consistent db → consistent db'.
Proof.
  intros Hc Hi. destruct Hc as [d d' Hc|d d' Hn|d d' Hp|d i r Hr Hn|d i l Hl Hp Hv|d i l l' Hl Hw| | | | | | | | | ];
    [by eapply consistent_lease_change| | |by apply consistent_new_job|by apply consistent_new_lease|
     by eapply consistent_lease|
     eapply consistent_tables; [| |exact Hi]; reflexivity..].
  - apply node_change_tables in Hn as [? ?]. by eapply consistent_tables.
  - apply pairing_change_tables in Hp as [? ?]. by eapply consistent_tables.
Qed.

(** ** Movements in which leases may expire *)
Record LeaseMovement := {
  lease_along :> Movement;
  along_lease : ∀ f d d', lease_change d d' → lease_along f d d';
  along_consistent : ∀ f d d', lease_along f d d' → consistent d → consistent d'
}.

Lemma moved_consistent f db db' : moved f db db' → consistent db → consistent db'.
Proof.
  intros Hr. change (rtc (change f) db db') in Hr.
  induction Hr as [|d1 d2 d3 Hc _ IH]; [done|]. intros Hi. by eapply IH, consistent_change.
Qed.
Canonical Structure moved_leases : LeaseMovement :=
  {| lease_along := moved; along_lease := λ f d d' Hc, moved_once f d d' (ch_lease f d d' Hc);
     along_consistent := moved_consistent |}.
End movement.

(** Only leases expire. *)
Definition lease_moved : Movement :=
  {| along := λ _, rtc lease_change; movement_preorder := λ _, rtc_po;
     movement_mono := λ _ _ _ _ _ Hr, Hr |}.
Lemma lease_moved_consistent (f : Files) db db' : lease_moved f db db' → consistent db → consistent db'.
Proof.
  intros Hr. change (rtc lease_change db db') in Hr.
  induction Hr as [|d1 d2 d3 Hc _ IH]; [done|]. intros Hi. by eapply IH, consistent_lease_change.
Qed.
Lemma lease_moved_once (f : Files) db db' : lease_change db db' → lease_moved f db db'.
Proof. intros Hc. change (rtc lease_change db db'). by apply rtc_once. Qed.
Canonical Structure lease_moved_leases : LeaseMovement :=
  {| lease_along := lease_moved; along_lease := lease_moved_once;
     along_consistent := lease_moved_consistent |}.
(** Only node documents change. *)
Definition node_moved : Movement :=
  {| along := λ _, rtc node_change; movement_preorder := λ _, rtc_po;
     movement_mono := λ _ _ _ _ _ Hr, Hr |}.
Lemma node_moved_moved `{UuidCrate, SerdeJsonCrate, !StoreSerde, DigestCrate} (f : Files) db db' : node_moved f db db' → moved f db db'.
Proof.
  intros Hr. change (rtc node_change db db') in Hr. change (rtc (change f) db db').
  induction Hr as [|d1 d2 d3 Hc _ IH]; [done|]. eapply rtc_l; [by apply ch_node|done].
Qed.
Lemma lease_moved_moved `{UuidCrate, SerdeJsonCrate, !StoreSerde, DigestCrate} (f : Files) db db' : lease_moved f db db' → moved f db db'.
Proof.
  intros Hr. change (rtc lease_change db db') in Hr. change (rtc (change f) db db').
  induction Hr as [|d1 d2 d3 Hc _ IH]; [done|]. eapply rtc_l; [by apply ch_lease|done].
Qed.
