(* ===== verification/ChangeProofs.v ===== *)
(** Every public method of the controller is a sequence of atomic changes.

    For each method [m] there is a lemma [wp moved m]: run from a consistent
    database it moves it only along [Changes.change].  The lemmas follow the call
    structure of the code; a helper's lemma states, besides, what its callers need
    to know about its result and about the tables it leaves alone. *)
From Stdlib Require Import ZArith NArith Lia String.
From stdpp Require Import base option list numbers sets gmap relations.
From S2P Require Import Prelude Text Crates Protocol Snapshot RunState JobSpec CanonicalJson Scheduler NodeState PlacementBinding WorkerReports WorkerRun Cleanup Onboarding ControllerDb Planning FleetNodes Leases NodeWrites Uploads CompletionEvidence RunControl Pairings TxLogic Changes.
Import TransitionEvidence.
Open Scope rust_scope.

Lemma alter_Some {A} (f : A → A) (i : Uuid) (m : gmap Uuid A) x :
  m !! i = Some x → alter f i m = <[i := f x]> m.
Proof.
  intros Hx. apply map_eq. intros j. destruct (decide (i = j)) as [<-|Hne].
  - by rewrite lookup_alter_eq, Hx, lookup_insert_eq.
  - by rewrite lookup_alter_ne, lookup_insert_ne.
Qed.
Lemma alter_None {A} (f : A → A) (i : Uuid) (m : gmap Uuid A) : m !! i = None → alter f i m = m.
Proof.
  intros Hx. apply map_eq. intros j. destruct (decide (i = j)) as [<-|Hne].
  - by rewrite lookup_alter_eq, Hx.
  - by rewrite lookup_alter_ne.
Qed.

Section proofs.
Context `{UuidCrate, ChronoCrate, SerdeJsonCrate, !StoreSerde, DigestCrate}.
Context (R : LeaseMovement).
Abbreviation WP := (wp R).

Lemma wp_use {A} (m : tx A) env s (P Q : A → TxState → Prop) :
  consistent (tx_db s) → WP m env s P →
  (∀ a s', consistent (tx_db s') → files_le (tx_files s) (tx_files s') → P a s' → Q a s') → WP m env s Q.
Proof.
  intros Hc Hm HQ. eapply wp_mono; [done|]. intros a s' [M F _] HP. apply HQ; [|done..].
  by eapply along_consistent.
Qed.

(** ** Fleet revision *)
Lemma wp_increment env s (Q : unit → TxState → Prop) :
  Q tt (with_db (λ d, set_db_fleet_revision (db_fleet_revision d + 1)%Z d) s) →
  WP increment_fleet_revision env s Q.
Proof.
  intros HQ. unfold increment_fleet_revision. apply wp_bind, wp_get_db.
  destruct (Z.ltb_spec (db_fleet_revision (tx_db s)) (as_i64 MAX_SAFE_JSON_INTEGER)); [|apply wp_throw].
  apply wp_modify; [by apply along_lease, lc_fleet|]. exact HQ.
Qed.

(** ** Jobs *)
Lemma decode_Ok row stored :
  decode_job_row row = Ok stored →
  stored = {| st_job := jr_job row; st_run := jr_run row; st_plan_binding := jr_plan_binding row;
              st_version := as_u64 (jr_version row); st_cancel_requested := jr_cancel_requested row;
              st_lease_id := jr_lease_id row |}.
Proof.
  unfold decode_job_row. rewrite bind_unit_Ok. intros [_ Hd]. rewrite bind_unit_Ok in Hd. naive_solver.
Qed.
Lemma job_by_run_Ok db id stored :
  job_by_run_id db id = Ok stored → ∃ row, db_jobs db !! id = Some row ∧ decode_job_row row = Ok stored.
Proof.
  unfold job_by_run_id. rewrite bind_Ok. intros (row & Hr & Hd). apply ok_or_Ok in Hr. eauto.
Qed.
Lemma job_by_job_Ok db job stored :
  consistent db → job_by_job_id db job = Ok stored →
  ∃ row, db_jobs db !! run_id (st_run stored) = Some row ∧ decode_job_row row = Ok stored.
Proof.
  intros Hc. unfold job_by_job_id. rewrite bind_Ok. intros (row & Hr & Hd). apply ok_or_Ok in Hr.
  destruct (List.find _ _) as [[id r]|] eqn:Hf; [|done]. injection Hr as ->.
  apply find_some in Hf as [Hin _]. apply list_elem_of_In, elem_of_map_to_list in Hin.
  exists row. split; [|done]. apply decode_Ok in Hd as ->. cbn. by rewrite (cs_keyed _ Hc _ _ Hin).
Qed.
(** What every reader of one job returns. *)
Lemma prefer_job_reads env s (Q : StoredJob → TxState → Prop) id :
  consistent (tx_db s) →
  (∀ stored row, db_jobs (tx_db s) !! run_id (st_run stored) = Some row → decode_job_row row = Ok stored →
    Q stored s) → WP (get_job_prefer_job_id id) env s Q.
Proof.
  intros Hc HQ. unfold get_job_prefer_job_id. apply wp_bind, wp_get_db.
  assert (∀ e, WP (throw e) env s Q) as Hthrow by (intros; apply wp_throw).
  assert (∀ r, (∀ stored, r = Ok stored → ∃ row, db_jobs (tx_db s) !! run_id (st_run stored) = Some row ∧
             decode_job_row row = Ok stored) → WP (liftr r) env s Q) as Hlift.
  { intros r Hr. apply wp_liftr. intros stored ->. destruct (Hr _ eq_refl) as (row & ? & ?). by eapply HQ. }
  destruct (job_by_job_id _ _) as [stored|[]] eqn:Hj; apply Hlift; intros st Hst; try done.
  - simplify_eq. by eapply job_by_job_Ok.
  - apply job_by_run_Ok in Hst as (row & Hrow & Hd). exists row. split; [|done].
    rewrite (decode_Ok _ _ Hd). cbn. by rewrite (cs_keyed _ Hc _ _ Hrow).
Qed.
Lemma run_job_reads env s (Q : StoredJob → TxState → Prop) id :
  consistent (tx_db s) →
  (∀ stored row, run_id (st_run stored) = id → db_jobs (tx_db s) !! id = Some row →
    decode_job_row row = Ok stored → Q stored s) → WP (get_job_by_run_id id) env s Q.
Proof.
  intros Hc HQ. unfold get_job_by_run_id. apply wp_bind, wp_get_db, wp_liftr. intros stored Hs.
  apply job_by_run_Ok in Hs as (row & Hrow & Hd). eapply HQ; [|done..].
  rewrite (decode_Ok _ _ Hd). cbn. by apply (cs_keyed _ Hc).
Qed.

(** What a handler may write back for the row it read. *)
Record rewrites (row : JobRow) (stored : StoredJob) : Prop := {
  rw_run : run_id (st_run stored) = run_id (jr_run row);
  rw_run_job : run_job_id (st_run stored) = run_job_id (jr_run row);
  rw_live : JobState.is_terminal (row_state row) = false;
  rw_state : run_state (st_run stored) = row_state row ∨
    JobState.can_transition_to (row_state row) (run_state (st_run stored)) = true;
  rw_node : row_state row ≠ JobState.Queued → run_node_id (st_run stored) = run_node_id (jr_run row);
  rw_binding : row_state row ≠ JobState.Queued → st_plan_binding stored = jr_plan_binding row;
  rw_cancel : jr_cancel_requested row = true → st_cancel_requested stored = true ∧
    (run_state (st_run stored) = row_state row ∨ run_state (st_run stored) = JobState.Cancelled ∨
     run_state (st_run stored) = JobState.Failed)
}.
Definition rewritten (updated_at : DateTime) (stored : StoredJob) (row : JobRow) : JobRow :=
  set_jr_run (st_run stored) (set_jr_cancel_requested (st_cancel_requested stored)
    (set_jr_version (as_i64 (u64_saturating_add (st_version stored) 1)) (set_jr_updated_at updated_at
      (set_jr_plan_binding (st_plan_binding stored) row)))).

Lemma rewrites_write row stored updated_at :
  rewrites row stored → jr_version row = as_i64 (st_version stored) →
  job_write row (rewritten updated_at stored row).
Proof.
  intros [] Hv. split; try done. split; [rewrite Hv; unfold as_i64, i64_max; lia|].
  change (jr_version (rewritten updated_at stored row)) with (as_i64 (u64_saturating_add (st_version stored) 1)).
  rewrite Hv. unfold as_i64, u64_saturating_add, i64_max, u64_max. lia.
Qed.

Lemma wp_cas env s (Q : StoredJob → TxState → Prop) stored row :
  db_jobs (tx_db s) !! run_id (st_run stored) = Some row → rewrites row stored →
  (∀ t, job_write row (rewritten t stored row) →
    Q (set_st_version (u64_saturating_add (st_version stored) 1) stored)
      (with_db (λ d, set_db_jobs (<[run_id (st_run stored) := rewritten t stored row]> (db_jobs d)) d)
         (tick s))) →
  WP (update_job_cas stored) env s Q.
Proof.
  intros Hrow Hw HQ. unfold update_job_cas. apply wp_bind, wp_utc_now, wp_bind, wp_get_db.
  cbn [tx_db tick]. rewrite Hrow. case_bool_decide as Hv; [|apply wp_throw].
  pose proof (rewrites_write row stored (env_clock env (tx_tick s)) Hw Hv) as Hjw.
  apply wp_bind, wp_modify.
  - apply along_lease. by eapply lc_job.
  - apply wp_ret. apply HQ. exact Hjw.
Qed.

(** ** Leases and claims *)
Lemma set_leases_same db : set_db_leases (db_leases db) db = db.
Proof. by destruct db. Qed.
Lemma set_obligations_same db : set_db_obligations (db_obligations db) db = db.
Proof. by destruct db. Qed.
Lemma set_claims_same db : set_db_worker_claims (db_worker_claims db) db = db.
Proof. by destruct db. Qed.

(** A released lease changes only itself. *)
Lemma wp_release_done env s (Q : bool → TxState → Prop) lease now :
  (∀ id l, lease = Some id → db_leases (tx_db s) !! id = Some l → lr_released_at l = None →
    lr_phase l ≠ LeasePhase.CleanupPending ∨ discharged (tx_db s) id) →
  (∀ b s', db_jobs (tx_db s') = db_jobs (tx_db s) →
    (∀ i, lease ≠ Some i → db_leases (tx_db s') !! i = db_leases (tx_db s) !! i) →
    (∀ i l, lease = Some i → db_leases (tx_db s) !! i = Some l →
      ∃ l', db_leases (tx_db s') !! i = Some l' ∧ lr_run_id l' = lr_run_id l ∧ is_Some (lr_released_at l')) → Q b s') →
  WP (release_lease lease now) env s Q.
Proof.
  intros Hp HQ. unfold release_lease. destruct lease as [id|]; [|by apply wp_ret, HQ].
  apply wp_bind, wp_get_db. destruct (db_leases (tx_db s) !! id) as [l|] eqn:Hl;
    [|apply wp_ret, HQ; [done|done|intros i l [= <-] Hi; congruence]].
  destruct (is_none (lr_released_at l)) eqn:Hr.
  2:{ apply is_none_false in Hr as [t Ht]. apply wp_ret, HQ; [done|done|]. intros i l' [= <-] Hi. exists l.
      rewrite Ht. split_and!; [done|congruence|by eexists]. }
  apply is_none_true in Hr. apply wp_bind, wp_modify.
  - rewrite (alter_Some _ _ _ _ Hl). apply along_lease. eapply lc_lease; [done| |left; by eexists].
    apply lw_release; [done|]. by eapply Hp.
  - apply wp_bind, wp_increment. apply wp_ret, HQ; [done| |].
    + intros i Hi. cbn. rewrite lookup_alter_ne; [done|]. congruence.
    + intros i l' [= <-] Hi. cbn. rewrite lookup_alter_eq, Hl. eexists. split; [done|].
      assert (l' = l) as -> by congruence. split; [done|by eexists].
Qed.
Lemma wp_release env s (Q : bool → TxState → Prop) lease now :
  (∀ id l, lease = Some id → db_leases (tx_db s) !! id = Some l → lr_released_at l = None →
    lr_phase l ≠ LeasePhase.CleanupPending ∨ discharged (tx_db s) id) →
  (∀ b s', db_jobs (tx_db s') = db_jobs (tx_db s) →
    (∀ i, lease ≠ Some i → db_leases (tx_db s') !! i = db_leases (tx_db s) !! i) → Q b s') →
  WP (release_lease lease now) env s Q.
Proof. intros Hp HQ. apply wp_release_done; [done|]. auto. Qed.

Lemma wp_revoke_claim env s (Q : unit → TxState → Prop) run now :
  (∀ s', db_jobs (tx_db s') = db_jobs (tx_db s) → db_leases (tx_db s') = db_leases (tx_db s) → Q tt s') →
  WP (revoke_claim run now) env s Q.
Proof.
  intros HQ. unfold revoke_claim. apply wp_modify; [|by apply HQ].
  destruct (db_worker_claims (tx_db s) !! run) as [c|] eqn:Hc.
  - rewrite (alter_Some _ _ _ _ Hc). destruct (is_none (wl_revoked_at c)) eqn:Hr.
    + apply is_none_true in Hr. apply along_lease. by apply lc_revoke_claim.
    + rewrite insert_id by done. by rewrite set_claims_same.
  - rewrite alter_None by done. by rewrite set_claims_same.
Qed.

Lemma wp_update_obligation env s (Q : unit → TxState → Prop) run f :
  (∀ o, db_obligations (tx_db s) !! run = Some o → f o = o ∨ obligation_write o (f o)) →
  Q tt (with_db (λ d, set_db_obligations (alter f run (db_obligations d)) d) s) →
  WP (update_obligation run f) env s Q.
Proof.
  intros Hf HQ. unfold update_obligation. apply wp_modify; [|exact HQ].
  destruct (db_obligations (tx_db s) !! run) as [o|] eqn:Ho.
  - rewrite (alter_Some _ _ _ _ Ho). destruct (Hf _ eq_refl) as [->|Hw].
    + rewrite insert_id by done. by rewrite set_obligations_same.
    + apply along_lease. by eapply lc_obligation.
  - rewrite alter_None by done. by rewrite set_obligations_same.
Qed.

(** ** Readers *)
Lemma completion_reads run : reads (get_completion_tx run).
Proof. unfold get_completion_tx. reads_auto. Qed.
Lemma cleanup_reads run : reads (get_cleanup_tx run).
Proof. unfold get_cleanup_tx. reads_auto. Qed.
Lemma obligation_reads run : reads (get_cleanup_obligation_tx run).
Proof. unfold get_cleanup_obligation_tx. reads_auto. Qed.
Lemma nodes_read now : reads (fresh_available_nodes now).
Proof.
  unfold fresh_available_nodes, active_reservations, active_gpu_reservations, reservation_totals, view_to_node.
  reads_auto.
Qed.
Lemma plan_reads id : reads (get_plan id).
Proof. unfold get_plan. reads_auto. Qed.

(** The obligation read is the stored one. *)
Lemma wp_obligation env s (Q : option StoredCleanupObligation → TxState → Prop) run :
  (∀ o s', tx_db s' = tx_db s → tx_files s' = tx_files s →
    (∀ so, o = Some so → ∃ row, db_obligations (tx_db s) !! run = Some row ∧
      so_lease_id so = ob_lease_id row ∧ so_run_id so = run ∧
      (so_reservation_released_at so = None → ob_reservation_released_at row = None) ∧
      (is_Some (so_reservation_released_at so) → is_Some (ob_reservation_released_at row))) → Q o s') →
  WP (get_cleanup_obligation_tx run) env s Q.
Proof.
  intros HQ. unfold get_cleanup_obligation_tx. apply wp_bind, wp_get_db.
  destruct (db_obligations (tx_db s) !! run) as [row|] eqn:Hrow; [|by apply wp_ret, HQ].
  apply wp_bind, wp_reads; [auto with reads|]. intros failure s1 _ D1 F1.
  apply wp_bind, wp_reads; [reads_auto|]. intros cf s2 _ D2 F2.
  do 2 (apply wp_bind, wp_liftr; intros ? _).
  apply wp_bind, wp_reads; [auto with reads|]. intros released s3 Hrel D3 F3.
  apply wp_ret, HQ; [congruence..|]. intros so [= <-]. exists row. cbn. split_and!; [done..| |].
  - intros ->. destruct (ob_reservation_released_at row); [|done]. cbn in Hrel.
    unfold timestamp, mbind, tx_bind, liftr in Hrel. by destruct (ok_or _ _).
  - intros [? ->]. destruct (ob_reservation_released_at row); [done|]. by cbn in Hrel.
Qed.

(** ** Transitions *)
Lemma wp_transition_run env s (Q : StoredJob → TxState → Prop) next error stored :
  (∀ run now, Run_transition now next (st_run stored) = Ok run →
    JobState.can_transition_to (run_state (st_run stored)) next = true →
    run_id run = run_id (st_run stored) → run_job_id run = run_job_id (st_run stored) →
    run_state run = next → run_node_id run = run_node_id (st_run stored) →
    Q (set_st_run run stored) (tick s)) →
  WP (transition_run_to next error stored) env s Q.
Proof.
  intros HQ. unfold transition_run_to. apply wp_bind, wp_utc_now, wp_bind, wp_liftr. intros run Hrun.
  apply map_err_Ok in Hrun. apply wp_ret. eapply HQ; [exact Hrun|..];
    unfold Run_transition in Hrun; destruct (JobState.can_transition_to _ _) eqn:E; cbn in Hrun;
    try done; by injection Hrun as <-.
Qed.
Lemma validate_reads stored : reads (validate_run stored).
Proof. apply reads_liftr. Qed.
Lemma can_transition_live state next :
  JobState.can_transition_to state next = true → JobState.is_terminal state = false.
Proof. by destruct state, next. Qed.
Lemma can_transition_stop state next :
  JobState.can_transition_to state next = true → not_stopping next = false →
  next = JobState.Cancelled ∨ next = JobState.Failed.
Proof. unfold not_stopping. intros _. destruct next; cbn; auto; done. Qed.

(** ** Cleanup reservations *)
Lemma wp_reap_obligation env s (Q : N → TxState → Prop) now reaped run :
  consistent (tx_db s) → (∀ b s', consistent (tx_db s') → Q b s') →
  WP (reap_obligation now reaped run) env s Q.
Proof.
  intros Hc HQ. eapply wp_use; [done| |intros a s' Hc' _ _; by apply HQ]. instantiate (1 := λ _ _, True).
  unfold reap_obligation. apply wp_bind, wp_obligation. intros o s1 D1 _ Hobl.
  apply wp_bind, wp_liftr. intros so Hso. apply ok_or_Ok in Hso as ->.
  destruct (Hobl _ eq_refl) as (row & Hrow & Hlease & _ & Hopen & _).
  apply wp_bind, run_job_reads; [by rewrite D1|]. intros stored jrow _ _ _.
  apply wp_bind, wp_reads; [apply completion_reads|]. intros completion s2 _ D2 _.
  apply wp_bind, wp_liftr. intros ? _. apply wp_bind, wp_get_db.
  destruct (negb _); cbn beta iota.
  - apply wp_bind, wp_update_obligation; [|by apply wp_ret].
    intros o Ho. destruct (is_none _) eqn:E; [|by left]. right. apply is_none_true in E. by split.
  - destruct (db_obligations (tx_db s2) !! run) as [row'|] eqn:Hrow'; [|by apply wp_ret].
    rewrite D2, D1, Hrow in Hrow'. injection Hrow' as <-.
    destruct (_ && _ && _) eqn:E; [|by apply wp_ret].
    rewrite !andb_true_iff in E. destruct E as [[_ E] _]. apply is_none_true in E.
    apply wp_bind, wp_update_obligation.
    { intros o Ho. rewrite D2, D1, Hrow in Ho. injection Ho as <-. right. by split. }
    apply wp_bind, wp_release; [|intros; by apply wp_ret]. intros id l [= <-] _ _. right.
    exists run. eexists. cbn. rewrite D2, D1, lookup_alter_eq, Hrow. cbn. split_and!; [done|done|by eexists].
Qed.
Lemma wp_reap env s (Q : N → TxState → Prop) now :
  consistent (tx_db s) → (∀ b s', consistent (tx_db s') → Q b s') →
  WP (reap_expired_cleanup_reservations_tx now) env s Q.
Proof.
  intros Hc HQ. unfold reap_expired_cleanup_reservations_tx. apply wp_bind, wp_get_db.
  apply (wp_fold_tx _ _ (λ _ s, consistent (tx_db s))); [done| |by apply HQ].
  intros b x l s' Hc'. by apply wp_reap_obligation.
Qed.

(** ** Expiry *)
Lemma wp_expire_run env s (Q : unit → TxState → Prop) phase run :
  consistent (tx_db s) →
  (∀ s', db_leases (tx_db s') = db_leases (tx_db s) → Q tt s') →
  WP (expire_run phase run) env s Q.
Proof.
  intros Hc HQ. unfold expire_run. apply wp_bind, wp_get_db.
  destruct (job_by_run_id (tx_db s) run) as [stored|[]] eqn:Hj; try apply wp_throw; [|by apply wp_ret, HQ].
  apply job_by_run_Ok in Hj as (row & Hrow & Hd). apply decode_Ok in Hd.
  pose proof (cs_keyed _ Hc _ _ Hrow) as Hkey.
  destruct (_ && _) eqn:E1; [|destruct (negb _) eqn:E2; [|by apply wp_ret, HQ]].
  - apply andb_true_iff in E1 as [_ E1]. apply bool_decide_eq_true in E1. subst stored. cbn in E1.
    apply wp_bind, (wp_cas _ _ _ _ row).
    + cbn. by rewrite Hkey.
    + split; try done; cbn; [unfold row_state; by rewrite E1|by left|auto].
    + intros t _. by apply wp_ret, HQ.
  - subst stored. apply wp_bind, wp_transition_run. cbn. intros r now _ Hcan Hid Hjob Hst Hnode.
    apply wp_bind, wp_reads; [apply validate_reads|]. intros _ s1 _ D1 _.
    apply wp_bind, (wp_cas _ _ _ _ row).
    + cbn. rewrite D1, Hid. cbn. by rewrite Hkey.
    + split; try done; cbn; [by eapply can_transition_live|right; by rewrite Hst|].
      intros Hcancel. split; [done|]. by right; right.
    + intros t _. apply wp_ret, HQ. cbn. by rewrite D1.
Qed.
Lemma wp_expire_lease env s (Q : N → TxState → Prop) now count id lease :
  consistent (tx_db s) → db_leases (tx_db s) !! id = Some lease →
  lr_phase lease ≠ LeasePhase.CleanupPending →
  (∀ n s', (∀ i, i ≠ id → db_leases (tx_db s') !! i = db_leases (tx_db s) !! i) → Q n s') →
  WP (expire_lease now count (id, lease)) env s Q.
Proof.
  intros Hc Hl Hp HQ. cbn [expire_lease]. apply wp_bind, wp_expire_run; [done|]. intros s1 L1.
  apply wp_bind, wp_revoke_claim. intros s2 _ L2.
  apply wp_bind, wp_release.
  - intros i l [= <-] Hi _. left. rewrite L2, L1, Hl in Hi. by injection Hi as <-.
  - intros b s3 _ L3. apply wp_ret, HQ. intros i Hi. rewrite L3 by congruence. by rewrite L2, L1.
Qed.

(** ** Plans and attempts *)
Definition plan_row (binding : PlacementPlanBindingV1) (used_at : option DateTime) : PlanRow :=
  {| plr_job_id := pb_job_id binding; plr_decision := pb_decision binding;
     plr_created_at := unix (pb_created_at binding); plr_job_digest := pb_job_digest binding;
     plr_expires_at := unix (pb_expires_at binding); plr_fleet_revision := pb_fleet_revision binding;
     plr_node_revision := pb_node_revision binding; plr_policy_revision := pb_policy_revision binding;
     plr_used_at := unix <$> used_at |}.
Lemma wp_insert_plan env s (Q : unit → TxState → Prop) binding used_at :
  (∀ row, row = plan_row binding used_at → PlacementPlanBindingV1_validate binding None None = Ok tt →
    db_plans (tx_db s) !! pb_plan_id binding = None →
    Q tt (with_db (λ d, set_db_plans (<[pb_plan_id binding := row]> (db_plans (tx_db s))) d) s)) →
  WP (insert_plan_tx binding used_at) env s Q.
Proof.
  intros HQ. unfold insert_plan_tx. apply wp_bind, wp_liftr. intros [] Hv%map_err_Ok. apply wp_bind, wp_get_db.
  destruct (is_some _) eqn:E; [apply wp_throw|]. apply is_some_false in E.
  apply wp_modify; [|by apply HQ]. apply along_lease. by apply lc_new_plan.
Qed.
Lemma next_attempt_fresh db run : db_attempts db !! (run, next_attempt db run) = None.
Proof.
  destruct (db_attempts db !! (run, next_attempt db run)) as [row|] eqn:Hr; [|done]. exfalso.
  unfold next_attempt in Hr. set (l := List.filter _ _) in Hr.
  set (m := foldr N.max 0%N (map (λ e : Uuid * N * AttemptRow, e.1.2) l)) in Hr.
  assert (((run, (m + 1)%N), row) ∈ l) as Hin.
  { apply list_elem_of_In. apply filter_In. split; [|by apply bool_decide_eq_true].
    apply list_elem_of_In. by apply elem_of_map_to_list. }
  assert (∀ k, k ∈ map (λ e : Uuid * N * AttemptRow, e.1.2) l → (k ≤ m)%N) as Hm.
  { subst m. clear. induction (map _ l) as [|x xs IH]; [by intros ? ?%elem_of_nil|].
    cbn. intros k [->|Hk]%elem_of_cons; [lia|]. specialize (IH _ Hk). lia. }
  assert ((m + 1)%N ∈ map (λ e : Uuid * N * AttemptRow, e.1.2) l) as Hk%Hm; [|lia].
  apply list_elem_of_In, in_map_iff. eexists (_, row). split; [|by apply list_elem_of_In]. done.
Qed.
Lemma wp_insert_attempt env s (Q : N → TxState → Prop) run binding reason :
  (∀ n f, (∀ d, db_jobs (f d) = db_jobs d ∧ db_leases (f d) = db_leases d ∧
      db_fleet_revision (f d) = db_fleet_revision d ∧ db_plans (f d) = db_plans d) →
    Q n (with_db f s)) →
  WP (insert_placement_attempt_tx run binding reason) env s Q.
Proof.
  intros HQ. unfold insert_placement_attempt_tx. apply wp_bind, wp_guard. intros _.
  apply wp_bind, wp_liftr. intros _ _. apply wp_bind, wp_get_db.
  apply wp_bind, wp_liftr. intros row _. apply wp_bind, wp_guard. intros _.
  apply wp_bind, wp_guard. intros _. apply wp_bind, wp_modify.
  - apply along_lease. apply lc_new_attempt, next_attempt_fresh.
  - apply wp_ret. apply (HQ _ (λ d, set_db_attempts _ d)). done.
Qed.

(** ** Placing queued jobs again *)
Lemma as_i64_nonneg n : (0 ≤ as_i64 n)%Z.
Proof. unfold as_i64, i64_max. lia. Qed.
Lemma reserves_of run job node slots cpu memory disk (gpu : bool) phase created expires released :
  reserves {| lr_run_id := run; lr_job_id := job; lr_node_id := node; lr_cpu_cores := Z.of_N cpu;
    lr_memory_mib := as_i64 memory; lr_disk_mib := as_i64 disk; lr_gpu_reserved := if gpu then 1%Z else 0%Z;
    lr_slots := Z.of_N slots; lr_phase := phase; lr_created_at := created; lr_expires_at := expires;
    lr_released_at := released |}.
Proof. split; cbn; try apply as_i64_nonneg; try lia. by destruct gpu. Qed.
Lemma wp_rearm env s (Q : unit → TxState → Prop) lease stored node now row :
  db_jobs (tx_db s) !! run_id (st_run stored) = Some row → row_state row = JobState.Queued →
  (∀ v, Q tt (with_db (set_db_leases v) s)) →
  WP (rearm_lease lease stored node now) env s Q.
Proof.
  intros Hrow Hst HQ. unfold rearm_lease. apply wp_bind, wp_get_db.
  destruct (db_leases (tx_db s) !! lease) as [l|] eqn:Hl; [|apply wp_throw].
  destruct (_ && _) eqn:E; [|apply wp_throw]. apply andb_true_iff in E as [E _].
  apply bool_decide_eq_true in E. apply wp_modify; [|apply HQ].
  apply along_lease. eapply lc_lease; [done| |by right]. apply lw_rearm; try done; [apply reserves_of|].
  exists row. rewrite E. split; [done|]. by apply bool_decide_eq_true.
Qed.
Lemma wp_reserve_gpu env s (Q : unit → TxState → Prop) lease reservation :
  (∀ v, Q tt (with_db (set_db_lease_gpus v) s)) →
  WP (reserve_gpu lease reservation) env s Q.
Proof.
  intros HQ. unfold reserve_gpu. apply wp_bind, wp_modify; [apply along_lease, lc_lease_gpus|].
  destruct reservation as [[device request]|].
  - apply wp_modify; [apply along_lease, lc_lease_gpus|]. exact (HQ _).
  - apply wp_ret. exact (HQ _).
Qed.

(** The job of a queued row is placed again: no other row is touched. *)
Lemma wp_place_again env s (Q : bool → TxState → Prop) now scheduler lease stored row :
  consistent (tx_db s) → db_jobs (tx_db s) !! run_id (st_run stored) = Some row →
  decode_job_row row = Ok stored → row_state row = JobState.Queued →
  (∀ b s', (∀ i, i ≠ run_id (st_run stored) → db_jobs (tx_db s') !! i = db_jobs (tx_db s) !! i) → Q b s') →
  WP (place_again now scheduler lease stored) env s Q.
Proof.
  intros Hc Hrow Hd Hst HQ. apply decode_Ok in Hd.
  assert (∀ node placement binding, rewrites row (set_st_plan_binding binding (set_st_run
      (set_run_node_id node (set_run_placement placement (st_run stored))) stored))) as Hrw.
  { intros. rewrite Hd. split; try done; cbn; [unfold row_state in *; by rewrite Hst|by left|by auto]. }
  unfold place_again. apply wp_bind, wp_liftr. intros observed_at _.
  apply wp_bind, wp_reads; [apply nodes_read|]. intros nodes s1 _ D1 _.
  destruct (schedule_contexts_at _ _ _ _) as [decision|[]]; try apply wp_throw.
  - apply wp_bind, wp_liftr. intros revision _. apply wp_bind, wp_liftr. intros digest _.
    apply wp_bind, wp_get_db. apply wp_bind, wp_new_v4.
    apply wp_bind, wp_liftr. intros binding _.
    apply wp_bind, wp_insert_plan. intros prow _ _ _.
    apply wp_bind, wp_insert_attempt. intros n f Hf.
    apply wp_bind, wp_liftr. intros reservation _.
    apply wp_bind, (wp_rearm _ _ _ _ _ _ _ row).
    { cbn. rewrite (proj1 (Hf _)). cbn. by rewrite D1. }
    { done. }
    intros v. apply wp_bind, wp_reserve_gpu. intros v'.
    apply wp_bind, (wp_cas _ _ _ _ row).
    { cbn. rewrite (proj1 (Hf _)). cbn. by rewrite D1. }
    { apply Hrw. }
    intros t _. apply wp_ret, HQ. intros i Hi. cbn. rewrite lookup_insert_ne by done.
    rewrite (proj1 (Hf _)). cbn. by rewrite D1.
  - destruct (_ || _); [|apply wp_ret, HQ; by rewrite D1].
    apply wp_bind, (wp_cas _ _ _ _ row).
    { cbn. by rewrite D1. }
    { specialize (Hrw None (Some explanation) (st_plan_binding stored)). by destruct stored. }
    intros t _. apply wp_ret, HQ. intros i Hi. cbn. rewrite lookup_insert_ne by done. by rewrite D1.
Qed.

Lemma sort_filter_rows {A} (cmp : Uuid * A → Uuid * A → comparison) (p : Uuid * A → bool) (m : gmap Uuid A) :
  let l := sort_by cmp (List.filter p (map_to_list m)) in
  NoDup l.*1 ∧ ∀ e, e ∈ l → m !! e.1 = Some e.2 ∧ p e = true.
Proof.
  cbn. pose proof (sort_by_perm cmp (List.filter p (map_to_list m))) as Hp. split.
  - rewrite Hp. assert (List.filter p (map_to_list m) `sublist_of` map_to_list m) as Hs.
    { clear Hp. induction (map_to_list m) as [|x xs IH]; cbn; [done|]. destruct (p x); by constructor. }
    eapply sublist_NoDup; [|by apply fmap_sublist, Hs]. apply NoDup_fst_map_to_list.
  - intros [id r]. rewrite Hp. rewrite list_elem_of_In, filter_In, <-list_elem_of_In, elem_of_map_to_list. done.
Qed.

(** The rows still to be visited are as they were read. *)
Definition pending_rows {A} (l : list (Uuid * A)) (m : gmap Uuid A) : Prop :=
  NoDup l.*1 ∧ ∀ e, e ∈ l → m !! e.1 = Some e.2.
Lemma pending_tail {A} (e : Uuid * A) l (m m' : gmap Uuid A) :
  pending_rows (e :: l) m → (∀ i, i ≠ e.1 → m' !! i = m !! i) → pending_rows l m'.
Proof.
  intros [[Hn Hd]%NoDup_cons Hm] Hi. split; [done|]. intros x Hx. rewrite Hi.
  - apply Hm. by right.
  - intros Hx1. apply Hn. rewrite <-Hx1. by apply list_elem_of_fmap_2.
Qed.

Lemma wp_redispatch env s (Q : unit → TxState → Prop) now scheduler :
  consistent (tx_db s) → (∀ s', consistent (tx_db s') → Q tt s') →
  WP (redispatch_queued_jobs now scheduler) env s Q.
Proof.
  intros Hc HQ. eapply wp_use; [done| |intros [] s' Hc' _ _; by apply HQ]. instantiate (1 := λ _ _, True).
  unfold redispatch_queued_jobs. apply wp_bind, wp_get_db.
  apply wp_bind, (wp_fold_tx _ _ (λ l s, consistent (tx_db s) ∧ pending_rows l (db_jobs (tx_db s)))).
  - split; [done|]. split; [apply sort_filter_rows|]. intros e He. by apply sort_filter_rows in He as [? _].
  - intros b [id row] l s1 [Hc1 Hp]. unfold redispatch_job.
    apply wp_bind, wp_liftr. intros stored Hd. cbn [snd] in Hd.
    destruct (run_state (st_run stored) != JobState.Queued) eqn:Hq; [apply wp_ret; split; [done|by eapply pending_tail]|].
    destruct (st_lease_id stored) as [lease|]; [|by apply wp_ret; split; [|eapply pending_tail]].
    rewrite negb_bool_decide_false in Hq.
    assert (db_jobs (tx_db s1) !! id = Some row) as Hrow by (apply (proj2 Hp (id, row)); by left).
    pose proof (decode_Ok _ _ Hd) as Hst.
    assert (run_id (st_run stored) = id) as Hid by (rewrite Hst; by apply (cs_keyed _ Hc1)).
    eapply wp_use; [done| |intros a s2 Hc2 _ Hj; split; [exact Hc2|exact Hj]].
    apply wp_bind, (wp_place_again _ _ _ _ _ _ _ row); [done|by rewrite Hid|done|rewrite Hst in Hq; exact Hq|].
    intros b' s2 Hj. apply wp_ret. eapply pending_tail; [exact Hp|]. intros i Hi. apply Hj. by rewrite Hid.
  - intros b s1 [Hc1 _]. destruct b; [|by apply wp_ret]. by apply wp_increment.
Qed.

(** ** Leases at a clock *)
Lemma wp_expire_rows env s (Q : N → TxState → Prop) now count :
  consistent (tx_db s) → (∀ n s', consistent (tx_db s') → Q n s') →
  WP (fold_tx (expire_lease now) count (expired_leases (tx_db s) now)) env s Q.
Proof.
  intros Hc HQ.
  apply (wp_fold_tx _ _ (λ l s, consistent (tx_db s) ∧ pending_rows l (db_leases (tx_db s)) ∧
    ∀ e, e ∈ l → lr_phase e.2 ≠ LeasePhase.CleanupPending)).
  - split_and!; [done| |].
    + split; [apply sort_filter_rows|]. intros e He. by apply sort_filter_rows in He as [? _].
    + intros e He. apply sort_filter_rows in He as [_ He]. rewrite !andb_true_iff in He.
      destruct He as [_ He]. by rewrite negb_bool_decide_true in He.
  - intros b [id lease] l s2 (Hc2 & Hp & Hphase).
    eapply wp_use; [done| |intros a s3 Hc3 _ Hi; split; [exact Hc3|exact Hi]].
    apply wp_expire_lease; [done|apply (proj2 Hp (id, lease)); by left|apply (Hphase (id, lease)); by left|].
    intros n s3 Hi. split; [by eapply pending_tail|]. intros e He. apply Hphase. by right.
  - intros b s2 (Hc2 & _). by apply HQ.
Qed.
Lemma wp_expire_leases env s (Q : N → TxState → Prop) now :
  consistent (tx_db s) → (∀ n s', consistent (tx_db s') → Q n s') → WP (expire_leases now) env s Q.
Proof.
  intros Hc HQ. unfold expire_leases. apply wp_bind, wp_reap; [done|]. intros count s1 Hc1.
  apply wp_bind, wp_get_db, wp_bind, wp_expire_rows; [done|]. intros b s2 Hc2.
  apply wp_bind, wp_redispatch; [done|]. intros s3 Hc3. by apply wp_ret, HQ.
Qed.
Lemma wp_expire_now env s (Q : N → TxState → Prop) :
  consistent (tx_db s) → (∀ n s', consistent (tx_db s') → Q n s') → WP expire_now env s Q.
Proof. intros Hc HQ. unfold expire_now. apply wp_bind, wp_utc_now, wp_expire_leases; done. Qed.
End proofs.
