(* ===== verification/MethodProofs.v ===== *)
(** Every public method of the controller is a sequence of atomic changes, second
    part: nodes and credentials, uploads, plans and submission.  The lemmas of run
    uploads also record who was authorized, for [ControllerSafety]. *)
From Stdlib Require Import ZArith NArith Lia String.
From stdpp Require Import base option list numbers sets gmap relations.
From S2P Require Import Prelude Text Crates Protocol Snapshot RunState JobSpec CanonicalJson Scheduler NodeState PlacementBinding WorkerReports WorkerRun Cleanup Onboarding ControllerDb Planning FleetNodes Leases NodeWrites Uploads CompletionEvidence RunControl Pairings TxLogic Changes ChangeProofs.
Import TransitionEvidence.
Open Scope rust_scope.

(** ** Node documents *)
Record NodeMovement := {
  node_along :> Movement;
  along_node : ∀ f d d', node_change d d' → node_along f d d'
}.
Lemma node_moved_once (f : Files) db db' : node_change db db' → node_moved f db db'.
Proof. intros Hc. change (rtc node_change db db'). by apply rtc_once. Qed.
Canonical Structure node_moved_nodes : NodeMovement :=
  {| node_along := node_moved; along_node := node_moved_once |}.
Canonical Structure moved_nodes `{UuidCrate, SerdeJsonCrate, !StoreSerde, DigestCrate} : NodeMovement :=
  {| node_along := moved; along_node := λ f d d' Hc, moved_once f d d' (ch_node f d d' Hc) |}.

Section node_proofs.
Context `{UuidCrate, ChronoCrate, SerdeJsonCrate, !StoreSerde, DigestCrate}.
Context (R : NodeMovement).
Abbreviation WP := (wp R).

Lemma wp_node_increment env s (Q : unit → TxState → Prop) :
  Q tt (with_db (λ d, set_db_fleet_revision (db_fleet_revision d + 1)%Z d) s) →
  WP increment_fleet_revision env s Q.
Proof.
  intros HQ. unfold increment_fleet_revision. apply wp_bind, wp_get_db.
  destruct (Z.ltb_spec (db_fleet_revision (tx_db s)) (as_i64 MAX_SAFE_JSON_INTEGER)); [|apply wp_throw].
  apply wp_modify; [by apply along_node, nc_fleet|]. exact HQ.
Qed.
Lemma wp_set_node env s (Q : unit → TxState → Prop) f :
  (∀ d id, is_Some (db_nodes d !! id) → is_Some (f d !! id)) →
  Q tt (with_db (λ d, set_db_nodes (f d) d) s) →
  WP (modify (λ d, set_db_nodes (f d) d)) env s Q.
Proof. intros Hf HQ. apply wp_modify; [|exact HQ]. apply along_node. apply nc_nodes, Hf. Qed.
Lemma insert_keeps (m : gmap Uuid NodeRow) i x id : is_Some (m !! id) → is_Some (<[i := x]> m !! id).
Proof. intros Hm. apply lookup_insert_is_Some'. by right. Qed.
Lemma view_node_reads v : reads (view_to_node v).
Proof. unfold view_to_node. reads_auto. Qed.
Lemma digest_reads i : reads (inventory_digest i).
Proof. unfold inventory_digest. reads_auto. Qed.

Lemma wp_upsert_node env s (Q : unit → TxState → Prop) node authority :
  (∀ s', is_Some (db_nodes (tx_db s') !! node_id node) → Q tt s') →
  WP (upsert_node_tx node authority) env s Q.
Proof.
  intros HQ. unfold upsert_node_tx.
  apply wp_bind, wp_reads; [destruct (_ == _); auto with reads|]. intros received s1 _ _ _.
  cbv zeta. do 3 (apply wp_bind, wp_liftr; intros ? _). apply wp_bind, wp_get_db.
  apply wp_bind, wp_liftr. intros view _.
  apply wp_bind, wp_reads; [apply view_node_reads|]. intros document s2 _ _ _.
  apply wp_bind, (wp_set_node _ _ _ (λ d, <[node_id node := _]> (db_nodes d))); [by intros; apply insert_keeps|].
  set (s3 := with_db _ s2). assert (is_Some (db_nodes (tx_db s3) !! node_id node)) as Hin.
  { cbn. rewrite lookup_insert_eq. done. }
  assert (∀ s4, db_nodes (tx_db s4) = db_nodes (tx_db s3) → is_Some (db_nodes (tx_db s4) !! node_id node)) as Hk
    by (by intros s4 ->).
  clearbody s3. apply wp_bind.
  eapply (wp_mono _ _ _ _ (λ _ s4, db_nodes (tx_db s4) = db_nodes (tx_db s3))).
  { destruct (_ || _); [|by apply wp_ret]. apply wp_modify; [apply along_node, nc_configs|done]. }
  intros _ s4 _ E4. apply wp_bind, wp_reads; [apply digest_reads|]. intros digest s5 _ D5 _.
  apply wp_bind, wp_modify; [apply along_node, nc_inventories|].
  apply wp_bind, wp_modify; [apply along_node, nc_telemetry|].
  destruct (_ || _); [apply wp_node_increment|apply wp_ret]; apply HQ; apply Hk; cbn; by rewrite D5.
Qed.
Lemma wp_upsert_legacy env s node : WP (upsert_legacy_probe_tx node) env s (λ _ _, True).
Proof.
  unfold upsert_legacy_probe_tx. apply wp_bind, wp_get_db.
  destruct (is_some_and _ _); [by apply wp_ret|]. by apply wp_upsert_node.
Qed.
Lemma wp_touch_node env s id : WP (touch_node id) env s (λ _ _, True).
Proof.
  unfold touch_node. apply wp_bind, wp_utc_now, wp_bind, wp_get_db, wp_bind, wp_guard. intros _.
  apply wp_bind, wp_modify; [apply along_node, nc_telemetry|].
  apply (wp_set_node _ _ _ (λ d, alter _ id (db_nodes d))); [|done].
  intros d i. destruct (decide (id = i)) as [<-|Hne]; [|by rewrite lookup_alter_ne].
  rewrite lookup_alter_eq. by intros [? ->].
Qed.
Lemma wp_update_config env s id revision config :
  WP (update_node_config id revision config) env s (λ _ _, True).
Proof.
  unfold update_node_config. do 3 (apply wp_bind, wp_liftr; intros ? _).
  apply wp_bind, wp_guard. intros _. apply wp_bind, wp_get_db, wp_bind, wp_liftr. intros rows _. cbv zeta.
  apply wp_bind, wp_guard. intros _. apply wp_bind, wp_utc_now, wp_bind, wp_liftr. intros view _.
  apply wp_bind, wp_modify; [apply along_node, nc_configs|].
  apply wp_bind, wp_reads; [apply view_node_reads|]. intros document s2 _ _ _.
  apply wp_bind, (wp_set_node _ _ _ (λ d, <[id := _]> (db_nodes d))); [by intros; apply insert_keeps|].
  apply wp_bind, wp_node_increment. by apply wp_ret.
Qed.
End node_proofs.

Section proofs.
Context `{UuidCrate, ChronoCrate, SerdeJsonCrate, !StoreSerde, DigestCrate}.
Abbreviation WP := (wp moved).
Ltac by_change := apply moved_once.

(** ** Authentication *)

(** [credential] belongs to a worker of the node. *)
Definition authentic (db : Db) (credential : rstr) (node : Uuid) : Prop :=
  ∃ id wc, db_worker_credentials db !! id = Some wc ∧ wc_credential_hash wc = secret_hash credential ∧
    is_Some (db_nodes db !! node) ∧ credential_current db wc = true ∧ wc_node_id wc = node.
(** ... and [run_credential] to its live claim on an executing lease. *)
Definition authorized (db : Db) (credential run_credential : rstr) (run lease node : Uuid) (now : Z) : Prop :=
  authentic db credential node ∧
  (∃ c, db_worker_claims db !! run = Some c ∧ wl_lease_id c = lease ∧
     wl_credential_hash c = secret_hash run_credential ∧ wl_node_id c = node ∧ claim_live now c = true) ∧
  ∃ l, db_leases db !! lease = Some l ∧ lr_run_id l = run ∧ lease_executing now l = true.

Lemma wp_authenticate env s (Q : Uuid → TxState → Prop) credential now :
  (∀ node v, authentic (tx_db s) credential node →
    Q node (with_db (λ d, set_db_worker_credentials (v d) d) s)) →
  WP (authenticate_worker_tx credential now) env s Q.
Proof.
  intros HQ. unfold authenticate_worker_tx. cbv zeta. apply wp_bind, wp_get_db.
  destruct (List.find _ _) as [[id wc]|] eqn:Hf; [|apply wp_throw].
  apply find_some in Hf as [Hin Hp]. apply list_elem_of_In, elem_of_map_to_list in Hin. cbn in Hp.
  rewrite !andb_true_iff in Hp. destruct Hp as [[Hh Hn] Hcur]. apply bool_decide_eq_true in Hh.
  apply wp_bind, wp_modify; [by_change; apply ch_last_used|]. apply wp_ret.
  apply (HQ _ (λ d, _ <$> db_worker_credentials d)). exists id, wc. split_and!; try done.
  apply is_some_true in Hn as [? Hn]. by eexists.
Qed.
Lemma wp_authorize env s (Q : Uuid → TxState → Prop) credential run_credential run lease now :
  (∀ node v, authorized (tx_db s) credential run_credential run lease node now →
    Q node (with_db (λ d, set_db_worker_credentials (v d) d) s)) →
  WP (authorize_run_tx credential run_credential run lease now) env s Q.
Proof.
  intros HQ. unfold authorize_run_tx. apply wp_bind, wp_authenticate. intros node v Ha.
  apply wp_bind, wp_get_db. cbn [tx_db with_db db_worker_claims set_db_worker_credentials].
  destruct (db_worker_claims (tx_db s) !! run) as [c|] eqn:Hc; [|apply wp_throw].
  destruct (_ && _) eqn:E; [|apply wp_throw]. rewrite !andb_true_iff, !bool_decide_eq_true in E.
  destruct E as [[[El Eh] Elive] Elease].
  apply wp_bind, wp_guard. intros Hg. rewrite negb_bool_decide_false in Hg. apply wp_ret, HQ.
  split; [done|]. split; [by exists c|].
  cbn in Elease. apply is_some_and_true in Elease as (l & Hl & El').
  rewrite andb_true_iff, bool_decide_eq_true in El'. exists l. by destruct El'.
Qed.
(** ... and [run_credential] to its claim, live or revoked. *)
Definition holds_claim (db : Db) (run_credential : rstr) (run lease node : Uuid) : Prop :=
  ∃ c, db_worker_claims db !! run = Some c ∧ wl_lease_id c = lease ∧
    wl_credential_hash c = secret_hash run_credential ∧ wl_node_id c = node.
Lemma wp_authorize_receipt env s (Q : Uuid → TxState → Prop) credential run_credential run lease now :
  (∀ node v, authentic (tx_db s) credential node →
    holds_claim (tx_db s) run_credential run lease node →
    Q node (with_db (λ d, set_db_worker_credentials (v d) d) s)) →
  WP (authorize_completion_receipt_tx credential run_credential run lease now) env s Q.
Proof.
  intros HQ. unfold authorize_completion_receipt_tx. apply wp_bind, wp_authenticate. intros node v Ha.
  apply wp_bind, wp_get_db. cbn [tx_db with_db db_worker_claims set_db_worker_credentials].
  destruct (db_worker_claims (tx_db s) !! run) as [c|] eqn:Hc; [|apply wp_throw].
  destruct (_ && _) eqn:E; [|apply wp_throw]. rewrite !andb_true_iff, !bool_decide_eq_true in E.
  destruct E as [El Eh]. apply wp_bind, wp_guard. intros Hg. rewrite negb_bool_decide_false in Hg.
  apply wp_ret, HQ; [done|]. by exists c.
Qed.

(** ** Time: what expiry may have changed *)
Lemma wp_embed (R R' : Movement) {A} (m : tx A) env s (P Q : A → TxState → Prop) :
  (∀ f d d', R f d d' → R' f d d') → wp R m env s P →
  (∀ a s', R (tx_files s') (tx_db s) (tx_db s') → files_le (tx_files s) (tx_files s') → P a s' → Q a s') →
  wp R' m env s Q.
Proof.
  unfold wp. intros Hsub. destruct (m env s) as [s' [a|e]].
  - intros [[D F C] HP] HQ. split; [|by apply HQ]. split; [by apply Hsub|done|].
    destruct C as [?|[? ?]]; [by left|right; split; by apply Hsub].
  - intros [F C] _. split; [done|]. destruct C as [?|?]; [by left|right; by apply Hsub].
Qed.
Lemma wp_expire env s (Q : N → TxState → Prop) now :
  consistent (tx_db s) →
  (∀ n s', consistent (tx_db s') → rtc lease_change (tx_db s) (tx_db s') → Q n s') →
  WP (expire_leases now) env s Q.
Proof.
  intros Hc HQ. eapply (wp_embed lease_moved moved); [intros ? ? ?; apply lease_moved_moved| |].
  - apply (wp_expire_leases lease_moved_leases _ _ (λ _ s', consistent (tx_db s'))); [done|auto].
  - intros n s' Hr _ Hc'. by apply HQ.
Qed.

(** Expiry creates no credential, claim or lease that could authorize a call. *)
Record lapsed (db db' : Db) : Prop := {
  lp_credentials : db_worker_credentials db' = db_worker_credentials db;
  lp_pairings : db_pairings db' = db_pairings db;
  lp_nodes : db_nodes db' = db_nodes db;
  lp_claims : ∀ run c, db_worker_claims db' !! run = Some c → wl_revoked_at c = None →
    db_worker_claims db !! run = Some c;
  lp_holders : ∀ run c, db_worker_claims db' !! run = Some c → ∃ c', db_worker_claims db !! run = Some c' ∧
    wl_lease_id c' = wl_lease_id c ∧ wl_credential_hash c' = wl_credential_hash c ∧ wl_node_id c' = wl_node_id c;
  lp_leases : ∀ id l, db_leases db' !! id = Some l → lr_released_at l = None →
    lr_phase l ≠ LeasePhase.Dispatch → db_leases db !! id = Some l;
  lp_completions : db_completions db' = db_completions db
}.
#[export] Instance lapsed_preorder : PreOrder lapsed.
Proof.
  split; [split; try done; eauto|]. intros d1 d2 d3 [? ? ? A1 H1' B1 C1] [? ? ? A2 H2' B2 C2].
  split; [congruence..| | | |congruence]; eauto. intros run c Hc. destruct (H2' _ _ Hc) as (c2 & Hc2 & <- & <- & <-). eauto.
Qed.
Lemma lease_change_lapsed db db' : lease_change db db' → lapsed db db'.
Proof.
  intros Hc. destruct Hc as [db id row row' Hr Hw|db id l l' Hl Hw Hlapse|db v|db run c now Hc Hu|db run o o' Ho Hw
    |db id row Hr|db k row Hr|db Hf]; split; try done; try (by eauto).
  - cbn. intros i x [[<- <-]|[_ ?]]%lookup_insert_Some Hx Hp; [|done].
    destruct Hlapse as [[? Hl']|?]; congruence.
  - cbn. intros i x [[<- <-]|[_ ?]]%lookup_insert_Some Hx; [|done]. by cbn in Hx.
  - cbn. intros i x [[<- <-]|[_ ?]]%lookup_insert_Some; [|by eauto]. eexists. by split.
Qed.
Lemma expired_lapsed db db' : rtc lease_change db db' → lapsed db db'.
Proof. induction 1 as [|d1 d2 d3 Hc _ IH]; [done|]. etrans; [by apply lease_change_lapsed|done]. Qed.

Lemma credential_current_same db db' wc :
  db_pairings db' = db_pairings db → db_worker_credentials db' = db_worker_credentials db →
  credential_current db' wc = credential_current db wc.
Proof. intros Hp Hc. unfold credential_current, credential_count. by rewrite Hp, Hc. Qed.
Lemma authentic_before db db' credential node :
  lapsed db db' → authentic db' credential node → authentic db credential node.
Proof.
  intros [Ec Ep En _ _ _] (id & wc & Hw & Hh & Hn & Hcur & Hid). exists id, wc.
  rewrite Ec in Hw. rewrite En in Hn. rewrite (credential_current_same db) in Hcur by done. done.
Qed.
Lemma holds_before db db' run_credential run lease node :
  lapsed db db' → holds_claim db' run_credential run lease node → holds_claim db run_credential run lease node.
Proof.
  intros Hl (c & Hc & E1 & E2 & E3). destruct (lp_holders _ _ Hl _ _ Hc) as (c' & Hc' & F1 & F2 & F3).
  exists c'. split_and!; congruence.
Qed.
Lemma executing_phase now l :
  lease_executing now l = true → lr_released_at l = None ∧ lr_phase l ≠ LeasePhase.Dispatch ∧
    lr_phase l ≠ LeasePhase.CleanupPending.
Proof.
  unfold lease_executing. rewrite !andb_true_iff, orb_true_iff, !bool_decide_eq_true, is_none_true.
  intros [[Hr _] [-> | ->]]; done.
Qed.
(** What is stored under a digest as the completion of a run. *)
Definition completed_as (db : Db) (run : Uuid) (sha : rstr) : Prop :=
  ∃ c, db_completions db !! run = Some c ∧ co_document_sha256 c = sha.
Lemma completed_before db db' run sha : lapsed db db' → completed_as db' run sha → completed_as db run sha.
Proof. intros Hl. unfold completed_as. by rewrite (lp_completions _ _ Hl). Qed.
Lemma authorized_before db db' credential run_credential run lease node now :
  lapsed db db' → authorized db' credential run_credential run lease node now →
  authorized db credential run_credential run lease node now.
Proof.
  intros Hl (Ha & (c & Hc & E1 & E2 & E3 & Hlive) & l & Hlease & Er & Hex).
  split; [by eapply authentic_before|]. split.
  - exists c. split_and!; try done. apply (lp_claims _ _ Hl); [done|].
    unfold claim_live in Hlive. apply andb_true_iff in Hlive as [Hu _]. by apply is_none_true.
  - exists l. split_and!; try done. pose proof (executing_phase _ _ Hex) as (? & ? & ?).
    by apply (lp_leases _ _ Hl).
Qed.

(** ** Node reports and routes *)
Lemma wp_redispatch_any env s now scheduler :
  consistent (tx_db s) → WP (redispatch_queued_jobs now scheduler) env s (λ _ _, True).
Proof. intros Hc. by apply (wp_redispatch moved_leases). Qed.
Lemma consistent_same s s' : tx_db s' = tx_db s → consistent (tx_db s) → consistent (tx_db s').
Proof. by intros ->. Qed.
(** What a [modify] of other tables keeps. *)
Lemma consistent_with f s :
  (∀ d, db_jobs (f d) = db_jobs d ∧ db_leases (f d) = db_leases d) →
  consistent (tx_db s) → consistent (tx_db (with_db f s)).
Proof. intros Hf. destruct (Hf (tx_db s)). by apply consistent_tables. Qed.

Lemma wp_node_report env s credential report :
  consistent (tx_db s) →
  WP (record_node_report credential report) env s (λ o _,
    authentic (tx_db s) credential (nro_node_id o)).
Proof.
  intros Hc. unfold record_node_report. apply wp_bind, wp_liftr. intros _ _.
  apply wp_bind, wp_utc_now, wp_bind, wp_expire; [exact Hc|]. intros _ s1 Hc1 Hl%expired_lapsed.
  apply wp_bind, wp_authenticate. intros node v Ha%(authentic_before _ _ _ _ Hl).
  apply wp_bind, wp_get_db, wp_bind, wp_liftr. intros rows _. cbv zeta.
  destruct (report_rejected _ _ _ _); [by apply wp_ret|].
  apply wp_bind, wp_liftr. intros _ _. apply wp_bind, wp_guard. intros _.
  apply wp_bind, wp_liftr. intros _ _.
  apply wp_bind, wp_reads; [destruct (is_some _); [apply digest_reads|apply reads_ret]|]. intros digest s2 _ D2 _.
  apply wp_bind, wp_liftr. intros view _.
  assert (consistent (tx_db s2)) as Hc2 by (rewrite D2; by apply consistent_with). clear D2 Hc1.
  apply wp_bind. eapply (wp_mono _ _ _ _ (λ _ s3, consistent (tx_db s3))).
  { destruct (is_some _); [|by apply wp_ret].
    apply wp_modify; [by_change; apply ch_node, nc_inventories|]. by apply consistent_with. }
  intros _ s3 _ Hc3. apply wp_bind, wp_modify; [by_change; apply ch_node, nc_telemetry|].
  apply wp_bind, wp_modify; [by_change; apply ch_node, nc_boots|].
  apply wp_bind, wp_reads; [apply view_node_reads|]. intros document s4 _ D4 _.
  apply wp_bind, (wp_set_node moved_nodes _ _ _ (λ d, <[node := _]> (db_nodes d)));
    [by intros; apply insert_keeps|].
  set (s5 := with_db _ s4). assert (consistent (tx_db s5)) as Hc5.
  { apply consistent_with; [done|]. rewrite D4. do 2 (apply consistent_with; [done|]). done. }
  clearbody s5. apply wp_bind.
  eapply (wp_mono _ _ _ _ (λ _ s6, consistent (tx_db s6))).
  { destruct (_ && _); [|by apply wp_ret]. apply (wp_node_increment moved_nodes).
    by apply consistent_with. }
  intros _ s6 _ Hc6. apply wp_bind. eapply wp_mono; [by apply wp_redispatch_any|]. intros _ s7 _ _.
  by apply wp_ret.
Qed.
Lemma wp_authenticate_worker env s credential :
  WP (authenticate_worker credential) env s (λ node _, authentic (tx_db s) credential node).
Proof. unfold authenticate_worker. by apply wp_bind, wp_utc_now, wp_authenticate. Qed.
(** The claim of the run belongs to both credentials; it is live, or the run is
    completed and that is enough for the route. *)
Definition admitted (db : Db) (credential run_credential : rstr) (run : Uuid) (allow : bool) (now : Z) : Prop :=
  ∃ node c, authentic db credential node ∧ db_worker_claims db !! run = Some c ∧
    wl_credential_hash c = secret_hash run_credential ∧ wl_node_id c = node ∧
    (claim_live now c = true ∨ allow = true ∧ is_Some (db_completions db !! run)).
Lemma wp_preauthorize env s credential run_credential run allow :
  WP (preauthorize_run_route credential run_credential run allow) env s (λ _ _,
    admitted (tx_db s) credential run_credential run allow (unix (env_clock env (tx_tick s)))).
Proof.
  unfold preauthorize_run_route. apply wp_bind, wp_utc_now. cbv zeta.
  apply wp_bind, wp_authenticate. intros node v Ha. apply wp_bind, wp_get_db.
  cbn [tx_db with_db db_worker_claims set_db_worker_credentials tick].
  destruct (db_worker_claims (tx_db s) !! run) as [c|] eqn:Hc; [|apply wp_throw].
  destruct (_ && _) eqn:E; [|apply wp_throw].
  rewrite andb_true_iff, orb_true_iff, andb_true_iff, bool_decide_eq_true in E. destruct E as [Eh Elive].
  apply wp_guard. intros Hg. rewrite negb_bool_decide_false in Hg. exists node, c. split_and!; try done.
  destruct Elive as [?|[? Hs]]; [by left|right]. split; [done|]. cbn in Hs.
  apply is_some_true in Hs as [? ->]. by eexists.
Qed.

(** The prologue of the methods of a claimed run. *)
Lemma wp_claimed {A} (k : DateTime → tx A) env s (Q : A → TxState → Prop) credential run_credential run lease :
  consistent (tx_db s) →
  (∀ node s', let now := env_clock env (tx_tick s) in
    authorized (tx_db s) credential run_credential run lease node (unix now) →
    consistent (tx_db s') →
    (∃ l, db_leases (tx_db s') !! lease = Some l ∧ lr_run_id l = run ∧ lease_executing (unix now) l = true) ∧
      is_Some (db_worker_claims (tx_db s') !! run) →
    WP (k now) env s' Q) →
  WP (now ← utc_now; expire_leases (unix now);;
      authorize_run_tx credential run_credential run lease (unix now);; k now) env s Q.
Proof.
  intros Hc Hk. apply wp_bind, wp_utc_now, wp_bind, wp_expire; [exact Hc|].
  intros _ s1 Hc1 Hl%expired_lapsed. apply wp_bind, wp_authorize. intros node v Ha.
  apply (Hk node); [by eapply authorized_before|by apply consistent_with|].
  destruct Ha as (_ & (c & Hclaim & _) & ?). split; [done|]. by exists c.
Qed.

(** ** Files *)
Lemma wp_write_object env s (Q : unit → TxState → Prop) relative data sha :
  (∀ s', tx_db s' = tx_db s → safe_object_path relative = true →
    fs_objects (tx_files s') !! relative = Some data → Q tt s') →
  WP (write_immutable_object relative data sha) env s Q.
Proof.
  intros HQ. unfold write_immutable_object. apply wp_bind, wp_guard. intros Hsafe%negb_false_iff. apply wp_bind, wp_get_files.
  destruct (fs_objects (tx_files s) !! relative) as [existing|] eqn:He.
  - apply wp_guard. intros Hg. rewrite negb_false_iff, andb_true_iff, !bool_decide_eq_true in Hg.
    destruct Hg as [_ ->]. by apply HQ.
  - apply wp_bind, wp_new_v4. split.
    + split; [done| |by left]. split; [|done]. cbn. by apply insert_subseteq.
    + apply HQ; [done|done|]. cbn. by rewrite lookup_insert_eq.
Qed.
Lemma wp_write_snapshot env s (Q : unit → TxState → Prop) relative data digest :
  (∀ s', tx_db s' = tx_db s → safe_object_path relative = true →
    fs_snapshots (tx_files s') !! relative = Some data → Q tt s') →
  WP (write_immutable_snapshot relative data digest) env s Q.
Proof.
  intros HQ. unfold write_immutable_snapshot. apply wp_bind, wp_guard. intros Hsafe%negb_false_iff.
  apply wp_bind, wp_get_files.
  destruct (fs_snapshots (tx_files s) !! relative) as [existing|] eqn:He.
  - apply wp_guard. intros Hg. rewrite negb_false_iff, !andb_true_iff, !bool_decide_eq_true in Hg.
    destruct Hg as [_ ->]. by apply HQ.
  - apply wp_bind, wp_new_v4. split.
    + split; [done| |by left]. split; [done|]. cbn. by apply insert_subseteq.
    + apply HQ; [done..|]. cbn. by rewrite lookup_insert_eq.
Qed.
Lemma object_reads relative : reads (read_generated_object relative).
Proof. unfold read_generated_object. reads_auto. Qed.
Lemma log_chunk_reads run stream offset : reads (get_log_chunk run stream offset).
Proof. unfold get_log_chunk, log_chunk. reads_auto. Qed.
Lemma artifact_reads id : reads (get_artifact id).
Proof. unfold get_artifact, stored_artifact. reads_auto. Qed.
Lemma snapshot_reads digest : reads (get_snapshot digest).
Proof. unfold get_snapshot. reads_auto. Qed.
Lemma verify_snapshot_reads stored : reads (verify_snapshot_object stored).
Proof. unfold verify_snapshot_object. reads_auto. Qed.
Lemma bind_get_db {A} (k : Db → tx A) env s : mbind k get_db env s = k (tx_db s) env s.
Proof. done. Qed.
Lemma some_not_None {A B} (m : tx A) (f : A → B) env s :
  (mbind (λ a, mret (Some (f a))) m env s).2 ≠ Ok None.
Proof. unfold mbind, tx_bind. by destruct (m env s) as [? []]. Qed.
Lemma log_chunk_None run stream offset env s :
  (get_log_chunk run stream offset env s).2 = Ok None →
  db_log_chunks (tx_db s) !! (run, stream, as_i64 offset) = None.
Proof.
  unfold get_log_chunk. rewrite bind_get_db.
  destruct (db_log_chunks (tx_db s) !! _); [|done]. intros Hex. by apply (some_not_None _ id) in Hex.
Qed.
Lemma log_chunk_Some run stream offset env s chunk :
  (get_log_chunk run stream offset env s).2 = Ok (Some chunk) →
  ∃ row, db_log_chunks (tx_db s) !! (run, stream, as_i64 offset) = Some row ∧
    lgc_sha256 chunk = lc_sha256 row ∧ lgc_length chunk = as_u64 (lc_chunk_length row).
Proof.
  unfold get_log_chunk. rewrite bind_get_db. destruct (db_log_chunks (tx_db s) !! _) as [row|]; [|done].
  unfold log_chunk, timestamp, liftr, mbind, tx_bind. destruct (ok_or _ _); [|done]. cbn. intros [= <-]. by exists row.
Qed.
Lemma artifact_None id env s :
  (get_artifact id env s).2 = Ok None → db_artifacts (tx_db s) !! id = None.
Proof.
  unfold get_artifact. rewrite bind_get_db.
  destruct (db_artifacts (tx_db s) !! _); [|done]. intros Hex. by apply (some_not_None _ Datatypes.id) in Hex.
Qed.
Lemma wp_sql_sum env s (Q : Z → TxState → Prop) l :
  let sum := foldr Z.add 0%Z l in (in_i64 sum → Q sum s) → WP (sql_sum l) env s Q.
Proof. intros sum HQ. unfold sql_sum. case_bool_decide as E; [by apply wp_ret, HQ|apply wp_throw]. Qed.
(** Within a quota nothing saturates or clamps. *)
Lemma within_quota (total : Z) data (bound : N) :
  (bound < 2 ^ 62)%N → (u64_saturating_add (as_u64 total) (byte_len data) ≤ bound)%N →
  as_i64 (byte_len data) = Z.of_nat (length data) ∧
  (total + as_i64 (byte_len data) ≤ Z.of_N bound)%Z.
Proof. unfold u64_saturating_add, byte_len, as_i64, as_u64, u64_max, i64_max. lia. Qed.
Lemma chunk_length_exact data :
  as_i64 (byte_len data) = Z.of_nat (length data) → as_u64 (as_i64 (byte_len data)) = byte_len data.
Proof. unfold byte_len, as_i64, as_u64, u64_max, i64_max. lia. Qed.
Lemma next_offset_exact (next : Z) offset :
  in_i64 next → as_u64 next = offset → as_i64 offset = Z.max 0 next.
Proof. intros Hn <-. unfold as_u64, as_i64, in_i64, i64_min, i64_max in *. lia. Qed.

(** ** Uploads *)
Lemma wp_put_log env s credential run_credential run lease stream offset sha data :
  consistent (tx_db s) →
  WP (put_log_chunk credential run_credential run lease stream offset sha data) env s (λ _ s',
    (∃ node, authorized (tx_db s) credential run_credential run lease node
              (unix (env_clock env (tx_tick s)))) ∧
    valid_stream stream = true ∧
    ∃ row, db_log_chunks (tx_db s') !! (run, stream, as_i64 offset) = Some row ∧
      lc_sha256 row = sha ∧ as_u64 (lc_chunk_length row) = byte_len data).
Proof.
  intros Hc. unfold put_log_chunk. apply wp_bind, wp_guard. intros Hg1.
  rewrite !orb_false_iff, !negb_false_iff in Hg1. destruct Hg1 as [[Hstream _] Hempty].
  apply wp_bind, wp_guard. intros Hsha. rewrite negb_bool_decide_false in Hsha.
  apply wp_claimed; [done|]. cbn zeta. intros node s1 Ha Hc1 [_ Hclaim].
  eapply wp_mono; [|intros ? s' _ Hrow; split; [by exists node|split; [done|exact Hrow]]]. clear Ha Hc.
  apply wp_bind, wp_reads; [apply log_chunk_reads|]. intros existing s2 Hex D2 _.
  destruct existing as [existing|].
  { destruct (_ && _) eqn:Hsame; [|apply wp_throw]. apply wp_ret. rewrite D2.
    rewrite andb_true_iff, !bool_decide_eq_true in Hsame. destruct Hsame as [Es El].
    apply log_chunk_Some in Hex as (row & Hrow & Hsh & Hlen). exists row. split_and!; [done|congruence..]. }
  apply log_chunk_None in Hex as Hfresh.
  apply wp_bind, wp_get_db. rewrite D2. apply wp_bind, wp_sql_sum. intros Htotal.
  apply wp_bind, wp_guard. intros Hquota. rewrite orb_false_iff, N.ltb_ge, N.leb_gt in Hquota.
  destruct Hquota as [Hquota Hcount].
  apply wp_bind, wp_sql_sum. intros Hnext. apply wp_bind, wp_guard. intros Hoffset.
  rewrite negb_bool_decide_false in Hoffset.
  apply wp_bind, run_job_reads; [by rewrite D2|]. intros stored row _ Hjob Hdecode.
  apply wp_bind, wp_write_object. intros s3 D3 Hsafe Hfile. rewrite D2 in D3, Hjob.
  apply within_quota in Hquota as [Hlen Hquota]; [|done].
  apply wp_bind, wp_modify.
  - rewrite D3. by_change. apply ch_log; [done|]. split; cbn.
    + done.
    + exists row. split; [done|]. by rewrite Hdecode.
    + done.
    + rewrite Hlen. destruct data; [done|]. cbn. lia.
    + by apply next_offset_exact.
    + done.
    + done.
    + split; [done|]. exists data. by rewrite Hlen.
  - apply wp_ret. cbn. eexists. rewrite lookup_insert_eq. split_and!; [done|done|]. cbn.
    by apply chunk_length_exact.
Qed.
Lemma wp_put_artifact env s credential run_credential run lease id name sha data :
  consistent (tx_db s) →
  WP (put_artifact credential run_credential run lease id name sha data) env s (λ _ _,
    ∃ node, authorized (tx_db s) credential run_credential run lease node
              (unix (env_clock env (tx_tick s)))).
Proof.
  intros Hc. unfold put_artifact. apply wp_bind, wp_guard. intros Hg1.
  rewrite orb_false_iff, !negb_false_iff in Hg1. destruct Hg1 as [Hname _].
  apply wp_bind, wp_guard. intros Hsha. rewrite negb_bool_decide_false in Hsha.
  apply wp_claimed; [done|]. cbn zeta. intros node s1 Ha Hc1 _.
  eapply wp_mono; [|intros; by exists node]. instantiate (1 := λ _ _, True). clear Ha Hc.
  apply wp_bind, wp_reads; [apply artifact_reads|]. intros existing s2 Hex D2 _.
  destruct existing as [existing|]; [destruct (_ && _); [by apply wp_ret|apply wp_throw]|].
  apply artifact_None in Hex as Hfresh.
  apply wp_bind, wp_get_db. rewrite D2. apply wp_bind, wp_sql_sum. intros Htotal.
  apply wp_bind, wp_guard. intros Hquota. rewrite orb_false_iff, N.ltb_ge, N.leb_gt in Hquota.
  destruct Hquota as [Hquota Hcount].
  apply wp_bind, run_job_reads; [by rewrite D2|]. intros stored row _ _ _.
  apply wp_bind, wp_write_object. intros s3 D3 Hsafe Hfile. rewrite D2 in D3.
  apply within_quota in Hquota as [Hlen Hquota]; [|done].
  apply wp_bind, wp_modify; [|by apply wp_ret]. rewrite D3. by_change. apply ch_artifact; [done|].
  split; cbn.
  - done.
  - done.
  - done.
  - split; [done|]. exists data. by rewrite Hlen.
Qed.
Lemma archive_size data :
  (byte_len data ≤ MAX_SNAPSHOT_ARCHIVE_BYTES)%N → as_i64 (byte_len data) = Z.of_nat (length data).
Proof.
  change MAX_SNAPSHOT_ARCHIVE_BYTES with 67108864%N. unfold as_i64, byte_len, u64_max, i64_max. lia.
Qed.
Lemma wp_put_snapshot env s digest size data : WP (put_snapshot digest size data) env s (λ _ _, True).
Proof.
  unfold put_snapshot. apply wp_bind, wp_utc_now, wp_bind, wp_liftr. intros _ _.
  apply wp_bind, wp_guard. intros Hquota%N.ltb_ge. apply wp_bind, wp_guard. intros Hsize.
  apply wp_bind, wp_guard. intros Hd. rewrite negb_bool_decide_false in Hsize. rewrite negb_bool_decide_false in Hd.
  apply wp_bind, wp_reads; [apply snapshot_reads|]. intros existing s1 Hex D1 _.
  destruct existing as [existing|].
  - cbv zeta. apply wp_bind, wp_guard. intros _.
    apply wp_bind, wp_reads; [apply verify_snapshot_reads|]. intros _ s2 _ _ _. by apply wp_ret.
  - assert (db_snapshots (tx_db s1) !! digest = None) as Hfresh.
    { rewrite D1. unfold get_snapshot, mbind, tx_bind, get_db in Hex. cbn in Hex.
      cbn. destruct (db_snapshots (tx_db s) !! digest); [|done].
      unfold timestamp, liftr, mret, tx_ret in Hex. destruct (ok_or _ _); cbn in Hex; [|done].
      by destruct (map_err _ _). }
    apply wp_bind, wp_liftr. intros relative Hpath. apply wp_bind, wp_write_snapshot. intros s2 D2 Hsafe Hfile.
    apply wp_bind, wp_utc_now, wp_bind, wp_liftr. intros now _.
    apply wp_bind, wp_modify; [|by apply wp_ret]. cbn [tx_db tick tx_files]. rewrite D2. by_change.
    apply ch_snapshot; [done|]. split_and!; [done..|]. exists data. split_and!; [done..| |done].
    cbn. rewrite <-Hsize. by apply archive_size.
Qed.
Lemma wp_authorize_snapshot env s credential run_credential run lease digest :
  consistent (tx_db s) →
  WP (authorize_snapshot_download credential run_credential run lease digest) env s (λ _ _,
    ∃ node, authorized (tx_db s) credential run_credential run lease node
              (unix (env_clock env (tx_tick s)))).
Proof.
  intros Hc. unfold authorize_snapshot_download. apply wp_bind, wp_liftr. intros _ _.
  apply wp_claimed; [done|]. cbn zeta. intros node s1 Ha Hc1 _.
  eapply wp_mono; [|intros; by exists node]. instantiate (1 := λ _ _, True).
  apply wp_bind, run_job_reads; [done|]. intros stored row _ _ _.
  apply wp_bind, wp_reads; [destruct (job_source _) as [|? []]; [| |]; reads_auto|].
  intros size s2 _ _ _.
  apply wp_bind, wp_reads; [apply snapshot_reads|]. intros existing s3 _ _ _.
  apply wp_bind, wp_liftr. intros snapshot _. apply wp_bind, wp_guard. intros _.
  apply wp_bind, wp_reads; [apply verify_snapshot_reads|]. intros path s4 _ _ _. by apply wp_ret.
Qed.

(** ** Completion evidence *)
Lemma hash_reads rows : ∀ hashed bytes chunks, reads (hash_chunks hashed bytes chunks rows).
Proof.
  induction rows as [|[offset row] rows IH]; intros hashed b c; cbn [hash_chunks]; [apply reads_ret|].
  cbv zeta. apply reads_bind; [apply reads_guard|]. intros _. apply reads_bind; [apply object_reads|].
  intros data. apply reads_bind; [apply reads_guard|]. intros _. apply IH.
Qed.
Lemma check_artifacts_reads completion rows : ∀ total, reads (check_artifacts completion total rows).
Proof.
  induction rows as [|[id row] rows IH]; intros total; cbn [check_artifacts]; [apply reads_ret|].
  cbv zeta. apply reads_bind; [apply reads_liftr|]. intros m. apply reads_bind; [apply reads_guard|].
  intros _. apply reads_bind; [apply object_reads|]. intros data.
  apply reads_bind; [apply reads_guard|]. intros _. apply IH.
Qed.
Lemma stream_reads run stream expected : reads (verify_stream_evidence run stream expected).
Proof.
  unfold verify_stream_evidence. apply reads_bind; [apply reads_get_db|]. intros db.
  apply reads_bind; [apply hash_reads|]. intros [[data b] c]. reads_auto.
Qed.
Lemma completion_evidence_reads stored completion : reads (validate_managed_completion stored completion).
Proof.
  unfold validate_managed_completion, validate_artifact_manifest. cbv zeta.
  repeat (apply reads_bind;
    [solve [auto using stream_reads, check_artifacts_reads with reads]|intros ?; cbv zeta]).
  auto with reads.
Qed.
Lemma managed_checked env s stored completion u :
  (validate_managed_completion stored completion env s).2 = Ok u →
  validate_execution_source (job_source (st_job stored)) (rc_final_state completion) (rc_execution completion) = Ok tt ∧
  ∃ os, validate_step_evidence (st_job stored) os completion = Ok tt.
Proof.
  unfold validate_managed_completion, mbind, tx_bind, liftr, guard_or, get_db.
  destruct (ok_or _ _) as [id|]; [|done]. destruct (ok_or _ _) as [row|]; [|done].
  destruct (negb _); [done|]. cbn. destruct (validate_execution_source _ _ _) as [[]|]; [|done].
  destruct (validate_step_evidence _ _ _) as [[]|] eqn:E; [|done]. intros _. split; [done|by eexists].
Qed.
Lemma artifacts_read run ids : reads (ensure_artifacts_belong_to_run run ids).
Proof. induction ids as [|id ids IH]; cbn; [apply reads_ret|]. reads_auto. Qed.

(** ** Plans and submission *)
Lemma wp_normalized env s (Q : JobSpec * rstr → TxState → Prop) job :
  (∀ digest, JobSpec_validate job = Ok tt → canonical_job_digest (normalize_job_spec job) = Ok digest →
    Q (normalize_job_spec job, digest) s) → WP (normalized job) env s Q.
Proof.
  intros HQ. unfold normalized. apply wp_bind, wp_liftr. intros [] Hv%map_err_Ok. cbv zeta.
  apply wp_bind, wp_liftr. intros digest Hd%map_err_Ok. by apply wp_ret, HQ.
Qed.
Lemma wp_seconds env s (Q : DateTime → TxState → Prop) : 
  (∀ t, from_timestamp (unix (env_clock env (tx_tick s))) = Some t → Q t (tick s)) → WP now_in_seconds env s Q.
Proof.
  intros HQ. unfold now_in_seconds. apply wp_bind, wp_utc_now, wp_liftr. intros t Ht%ok_or_Ok. by apply HQ.
Qed.
Lemma new_plan_reads scheduler job digest now nodes : reads (new_plan scheduler job digest now nodes).
Proof. unfold new_plan, schedule_now. reads_auto. Qed.
Lemma wp_create_plan env s job scheduler :
  consistent (tx_db s) → WP (create_plan job scheduler) env s (λ _ _, True).
Proof.
  intros Hc. unfold create_plan. apply wp_bind, wp_normalized. intros digest _ _.
  apply wp_bind, wp_seconds. intros now _. apply wp_bind, wp_expire; [exact Hc|]. intros _ s1 Hc1 _.
  apply wp_bind, wp_reads; [apply nodes_read|]. intros nodes s2 _ _ _.
  apply wp_bind, wp_reads; [apply new_plan_reads|]. intros plan s3 _ _ _.
  apply wp_bind, (wp_insert_plan moved_leases). intros row _ _ _. by apply wp_ret.
Qed.
Lemma queued_run_reads n job : reads (unique_queued_run n job).
Proof. induction n as [|n IH]; cbn [unique_queued_run]; [apply reads_throw|]. reads_auto. Qed.
Lemma wp_queued_run env s (Q : Run → TxState → Prop) n job :
  (∀ id now s', tx_db s' = tx_db s → Q (Run_queued id now job) s') →
  WP (unique_queued_run n job) env s Q.
Proof.
  revert s. induction n as [|n IH]; intros s HQ; cbn [unique_queued_run]; [apply wp_throw|].
  apply wp_bind, wp_new_v4, wp_bind, wp_utc_now.
  destruct (_ == _); [apply IH; intros; by apply HQ|]. apply wp_bind, wp_get_db.
  destruct (id_taken _ _); [apply IH; intros; by apply HQ|]. by apply wp_ret, HQ.
Qed.
Lemma wp_submission_plan env s (Q : PlacementDecision * PlacementPlanBindingV1 → TxState → Prop)
    scheduler plan_id job digest now nodes :
  (∀ p s', db_jobs (tx_db s') = db_jobs (tx_db s) → db_leases (tx_db s') = db_leases (tx_db s) → Q p s') →
  WP (submission_plan scheduler plan_id job digest now nodes) env s Q.
Proof.
  intros HQ. unfold submission_plan. destruct plan_id as [plan_id|].
  - apply wp_bind, wp_reads; [apply plan_reads|]. intros plan s1 _ D1 _. apply wp_bind, wp_get_db.
    apply wp_bind, wp_liftr. intros _ _. unfold schedule_now.
    apply wp_bind, wp_bind, wp_utc_now, wp_liftr. intros refreshed _.
    apply wp_bind, wp_guard. intros _. apply wp_ret, HQ; cbn; by rewrite D1.
  - apply wp_bind, wp_reads; [apply new_plan_reads|]. intros plan s1 _ D1 _.
    apply wp_bind, (wp_insert_plan moved_leases). intros row _ _ _. apply wp_ret, HQ; cbn; by rewrite D1.
Qed.
Lemma wp_use_plan env s (Q : unit → TxState → Prop) id now :
  (∀ v, Q tt (with_db (set_db_plans v) s)) → WP (use_plan id now) env s Q.
Proof.
  intros HQ. unfold use_plan. apply wp_bind, wp_get_db.
  destruct (db_plans (tx_db s) !! id) as [row|] eqn:Hr; [|apply wp_throw].
  destruct (is_none _) eqn:E; [|apply wp_throw]. apply is_none_true in E.
  apply wp_modify; [|apply HQ]. by_change. by apply ch_use_plan.
Qed.
Lemma wp_insert_lease env s (Q : unit → TxState → Prop) id row :
  lr_phase row = LeasePhase.Dispatch → reserves row →
  Q tt (with_db (λ d, set_db_leases (<[id := row]> (db_leases d)) d) s) →
  WP (insert_lease id row) env s Q.
Proof.
  intros Hp Hv HQ. unfold insert_lease. apply wp_bind, wp_get_db, wp_bind, wp_guard. intros Hg.
  rewrite orb_false_iff, is_some_false in Hg. destruct Hg as [Hg _].
  apply wp_modify; [|done]. by_change. by apply ch_new_lease.
Qed.
Lemma wp_insert_lease_gpu env s (Q : unit → TxState → Prop) id reservation :
  (∀ v, Q tt (with_db (λ d, set_db_lease_gpus (v d) d) s)) →
  WP (insert_lease_gpu id reservation) env s Q.
Proof.
  intros HQ. unfold insert_lease_gpu. destruct reservation as [[device request]|].
  - apply wp_bind, wp_get_db, wp_bind, wp_guard. intros _.
    apply wp_modify; [by_change; apply ch_lease, lc_lease_gpus|]. exact (HQ (λ d, <[id := _]> (db_lease_gpus d))).
  - apply wp_ret. specialize (HQ db_lease_gpus).
    assert (with_db (λ d, set_db_lease_gpus (db_lease_gpus d) d) s = s) as <-; [|done].
    destruct s as [[] ? ? ?]; reflexivity.
Qed.
Lemma wp_insert_job env s (Q : unit → TxState → Prop) id row :
  (db_jobs (tx_db s) !! id = None →
   (∀ id' row', db_jobs (tx_db s) !! id' = Some row' → jr_job_id row' ≠ jr_job_id row) →
   new_job (tx_db s) id row) →
  (∀ v, Q tt (with_db (λ d, set_db_jobs (v d) d) s)) →
  WP (insert_job id row) env s Q.
Proof.
  intros Hn HQ. unfold insert_job. apply wp_bind, wp_get_db, wp_bind, wp_guard. intros Hg.
  rewrite orb_false_iff, is_some_false, existsb_false in Hg. destruct Hg as [Hfresh Hall].
  apply wp_modify; [|exact (HQ (λ d, <[id := row]> (db_jobs d)))]. by_change. apply ch_new_job; [done|].
  apply Hn; [done|]. intros id' row' Hr Heq. rewrite Forall_forall in Hall.
  specialize (Hall (id', row')). rewrite elem_of_map_to_list in Hall. specialize (Hall Hr). cbn in Hall.
  by apply bool_decide_eq_false in Hall.
Qed.
Lemma wp_submit env s job plan_id scheduler :
  consistent (tx_db s) → WP (submit_job job plan_id scheduler) env s (λ _ _, True).
Proof.
  intros Hc. unfold submit_job. apply wp_bind, wp_normalized. intros digest Hvalid _.
  apply wp_bind, wp_seconds. intros now _. apply wp_bind, wp_get_db, wp_bind, wp_guard. intros _.
  apply wp_bind, wp_expire; [exact Hc|]. intros _ s1 Hc1 _.
  apply wp_bind, wp_reads; [apply nodes_read|]. intros nodes s2 _ _ _.
  apply wp_bind, wp_submission_plan. intros [decision binding] s3 _ _.
  apply wp_bind, wp_queued_run. intros id created s4 _. cbv zeta.
  apply wp_bind, wp_new_v4, wp_bind, wp_liftr. intros reservation _.
  apply wp_bind, wp_insert_lease; [done|apply reserves_of|]. apply wp_bind, wp_insert_lease_gpu. intros v.
  apply wp_bind, wp_insert_job.
  { intros _ Hu. split; try done; [by rewrite <- Hvalid; apply validate_normalize|]. intros lease [= <-]. eexists. cbn. rewrite lookup_insert_eq. done. }
  intros v'. apply wp_bind, (wp_insert_attempt moved_leases). intros n f Hf.
  apply wp_bind. eapply (wp_mono _ _ _ _ (λ _ _, True)).
  { destruct plan_id; [by apply wp_use_plan|by apply wp_ret]. }
  intros _ s5 _ _. apply wp_bind, (wp_increment moved_leases). by apply wp_ret.
Qed.
End proofs.
