(* ===== verification/RunProofs.v ===== *)
(** Every public method of the controller is a sequence of atomic changes, third
    part: claims, heartbeats, transitions, completions, cleanup receipts and
    cancellation. *)
From Stdlib Require Import ZArith NArith Lia String.
From stdpp Require Import base option list numbers sets gmap relations.
From S2P Require Import Prelude Text Crates Protocol Snapshot RunState JobSpec CanonicalJson Scheduler NodeState PlacementBinding WorkerReports WorkerRun Cleanup ControllerDb Planning FleetNodes Leases NodeWrites Uploads CompletionEvidence RunControl Pairings TxLogic Changes ChangeProofs MethodProofs.
Import TransitionEvidence.
Open Scope rust_scope.

Section proofs.
Context `{UuidCrate, ChronoCrate, SerdeJsonCrate, !StoreSerde, DigestCrate}.
Abbreviation WP := (wp moved).
Ltac by_change := apply moved_once.

Lemma list_jobs_reads limit : reads (list_jobs_tx limit).
Proof. unfold list_jobs_tx. reads_auto. Qed.

(** A lease that is still held is updated, or nothing happens. *)
Lemma wp_update_live env s (Q : bool → TxState → Prop) id run allowed f :
  (∀ l, db_leases (tx_db s) !! id = Some l → lr_run_id l = run → lr_released_at l = None →
    allowed l = true → lease_write (tx_db s) id l (f l)) →
  (∀ b v, Q b (with_db (λ d, set_db_leases (v d) d) s)) →
  WP (update_live_lease id run allowed f) env s Q.
Proof.
  intros Hw HQ. unfold update_live_lease. apply wp_bind, wp_get_db.
  assert (with_db (λ d, set_db_leases (db_leases d) d) s = s) as Hsame by (by destruct s as [[] ? ? ?]).
  assert (Q false s) as Hfalse by (rewrite <-Hsame; apply (HQ false db_leases)).
  destruct (db_leases (tx_db s) !! id) as [l|] eqn:Hl; [|by apply wp_ret].
  destruct (_ && _) eqn:E; [|by apply wp_ret].
  rewrite !andb_true_iff, bool_decide_eq_true, is_none_true in E. destruct E as [[E1 E2] E3].
  apply wp_bind, wp_modify.
  - by_change. eapply ch_lease_write; [done|]. by apply Hw.
  - apply wp_ret. exact (HQ true (λ _, _)).
Qed.

(** ** Claims *)
Lemma wp_insert_claim env s (Q : unit → TxState → Prop) run row :
  (∃ job, db_jobs (tx_db s) !! run = Some job ∧ row_state job ≠ JobState.Queued) →
  (∀ v, Q tt (with_db (λ d, set_db_worker_claims (v d) d) s)) →
  WP (insert_claim run row) env s Q.
Proof.
  intros Hjob HQ. unfold insert_claim. apply wp_bind, wp_get_db, wp_bind, wp_guard. intros Hg.
  rewrite orb_false_iff, is_some_false in Hg. destruct Hg as [Hg _].
  apply wp_modify; [by_change; by apply ch_new_claim|]. exact (HQ (λ d, <[run := row]> (db_worker_claims d))).
Qed.
(** What is handed to a worker: a valid job, its digest, and a fresh secret. *)
Record sound_claim (claim : WorkerClaim) : Prop := {
  sc_valid : JobSpec_validate (st_job (wcl_stored claim)) = Ok tt;
  sc_digest : canonical_job_digest (st_job (wcl_stored claim)) = Ok (wcl_job_digest claim);
  sc_secret : ∃ first second, wcl_run_credential claim = uuid_simple first ++ uuid_simple second
}.
Lemma wp_random_secret env s (Q : rstr → TxState → Prop) :
  (∀ first second s', tx_db s' = tx_db s → Q (uuid_simple first ++ uuid_simple second) s') →
  WP random_secret env s Q.
Proof. intros HQ. unfold random_secret. apply wp_bind, wp_new_v4, wp_bind, wp_new_v4, wp_ret. by apply HQ. Qed.
Lemma wp_claim_run env s now node stored row :
  consistent (tx_db s) → db_jobs (tx_db s) !! run_id (st_run stored) = Some row →
  decode_job_row row = Ok stored →
  WP (claim_run now node stored) env s (λ claim _, sound_claim claim).
Proof.
  intros Hc Hrow Hd. apply decode_Ok in Hd. unfold claim_run.
  pose proof (cs_valid _ Hc _ _ Hrow) as Hvalid.
  apply wp_bind, wp_guard. intros Hcancel. apply wp_bind, wp_guard. intros _.
  apply wp_bind, wp_liftr. intros lease _.
  apply wp_bind, wp_transition_run. intros run t _ Hcan Hid Hjob Hstate Hnode.
  apply wp_bind, (wp_cas moved_leases _ _ _ _ row).
  { cbn. by rewrite Hid. }
  { rewrite Hd in *. split; cbn in *; try done.
    - by eapply can_transition_live.
    - right. by rewrite Hstate.
    - congruence. }
  intros t' _. apply wp_bind, wp_random_secret. intros first second s1 D1. cbv zeta.
  apply wp_bind, wp_insert_claim.
  { eexists. cbn. rewrite D1. cbn. rewrite lookup_insert_eq. split; [done|]. unfold row_state. cbn. by rewrite Hstate. }
  intros v.
  apply wp_bind, wp_update_live.
  { intros l _ _ Hr Ha. rewrite orb_true_iff, !bool_decide_eq_true in Ha. by apply lw_claim. }
  intros b v'. apply wp_bind, wp_guard. intros _. apply wp_bind, wp_liftr. intros digest Hdigest%map_err_Ok.
  apply wp_ret. split; cbn in *; [by subst stored|done|by eexists _, _].
Qed.
(** The rows that a claim decodes are rows of the database. *)
Lemma map_decode_rows rows env s (Q : list StoredJob → TxState → Prop) :
  (∀ stored, (∀ x, x ∈ stored → ∃ e, e ∈ rows ∧ decode_job_row e.2 = Ok x) → Q stored s) →
  WP (map_tx (λ e : Uuid * JobRow, liftr (decode_job_row e.2)) rows) env s Q.
Proof.
  revert Q. induction rows as [|e rows IH]; intros Q HQ; cbn [map_tx].
  - apply wp_ret, HQ. by intros x ?%elem_of_nil.
  - apply wp_bind, wp_liftr. intros x Hx. apply wp_bind, IH. intros xs Hxs. apply wp_ret, HQ.
    intros y [->|Hy]%elem_of_cons.
    + exists e. split; [by left|done].
    + destruct (Hxs _ Hy) as (e' & ? & ?). exists e'. split; [by right|done].
Qed.
Lemma wp_claim_job env s credential node :
  consistent (tx_db s) →
  WP (claim_job credential node) env s (λ claim _,
    authentic (tx_db s) credential (node_id node) ∧ from_option sound_claim True claim).
Proof.
  intros Hc. unfold claim_job. apply wp_bind, wp_utc_now, wp_bind, wp_expire; [exact Hc|].
  intros _ s1 Hc1 Hl%expired_lapsed. apply wp_bind, wp_authenticate.
  intros id v Ha%(authentic_before _ _ _ _ Hl). apply wp_bind, wp_guard. intros Hid.
  rewrite negb_bool_decide_false in Hid. subst id.
  eapply wp_mono; [|intros a s' _ Hs; split; [exact Ha|exact Hs]]. clear Ha Hl Hc.
  assert (consistent (tx_db (with_db (λ d, set_db_worker_credentials (v d) d) s1))) as Hc2 by by apply consistent_with.
  apply wp_bind. eapply (wp_use moved_leases); [exact Hc2|apply (wp_upsert_legacy moved_nodes)|].
  intros _ s2 Hc3 _ _. apply wp_bind, wp_get_db, wp_bind, map_decode_rows. intros rows Hrows.
  destruct (List.find _ _) as [stored|] eqn:Hf; [|by apply wp_ret].
  apply find_some in Hf as [Hin%list_elem_of_In _]. destruct (Hrows _ Hin) as ([run row] & He & Hd).
  apply sort_filter_rows in He as [Hrow _]. cbn in Hrow, Hd.
  assert (run_id (st_run stored) = run) as Hrun by (rewrite (decode_Ok _ _ Hd); by apply (cs_keyed _ Hc3)).
  apply wp_bind. eapply wp_mono; [by eapply (wp_claim_run _ _ _ _ _ row); [|rewrite Hrun|]|].
  intros claim s3 _ Hs. by apply wp_ret.
Qed.

(** ** Heartbeats *)
Lemma wp_heartbeat env s credential run_credential run lease version state :
  consistent (tx_db s) →
  WP (worker_heartbeat credential run_credential run lease version state) env s (λ _ _,
    ∃ node, authorized (tx_db s) credential run_credential run lease node
              (unix (env_clock env (tx_tick s)))).
Proof.
  intros Hc. unfold worker_heartbeat. apply wp_claimed; [done|]. cbn zeta. intros node s1 Ha Hc1 _.
  eapply wp_mono; [|intros; by exists node]. instantiate (1 := λ _ _, True). clear Ha Hc.
  apply wp_bind, run_job_reads; [done|]. intros stored row _ _ _.
  do 3 (apply wp_bind, wp_guard; intros _). cbv zeta. apply wp_bind, wp_get_db, wp_bind.
  eapply (wp_mono _ _ _ _ (λ _ _, True)).
  { destruct (db_worker_claims (tx_db s1) !! run) as [c|] eqn:Hcl; [|by apply wp_ret].
    destruct (_ && _) eqn:E; [|by apply wp_ret]. unfold claim_live in E.
    rewrite !andb_true_iff, is_none_true in E. destruct E as [_ [E _]].
    apply wp_bind, wp_modify; [|by apply wp_ret]. by_change. by apply ch_renew_claim. }
  intros b s2 _ _. apply wp_bind, wp_update_live.
  { intros l _ _ Hr (_ & _ & Hp)%executing_phase. by apply lw_extend. }
  intros b' v. apply wp_bind, wp_guard. intros _. by apply wp_ret.
Qed.

(** ** Transitions *)
Lemma evidence_keeps evidence run :
  let run' := apply_run_evidence evidence run in
  run_id run' = run_id run ∧ run_job_id run' = run_job_id run ∧ run_state run' = run_state run ∧
  run_node_id run' = run_node_id run.
Proof. unfold apply_run_evidence. by destruct (JobState.is_terminal _), (artifact_ids _). Qed.

(** The run was rewritten under its identifier and nothing else changed. *)
Definition job_committed (row row' : JobRow) (stored : StoredJob) (s s' : TxState) : Prop :=
  tx_db s' = set_db_jobs (<[run_id (jr_run row) := row']> (db_jobs (tx_db s))) (tx_db s) ∧
  job_write row row' ∧ jr_run row' = st_run stored ∧
  st_lease_id stored = jr_lease_id row ∧ st_job stored = jr_job row.
Lemma wp_commit_transition env s (Q : StoredJob → TxState → Prop) next evidence error stored row :
  consistent (tx_db s) → db_jobs (tx_db s) !! run_id (st_run stored) = Some row →
  decode_job_row row = Ok stored →
  st_cancel_requested stored && not_stopping next = false →
  (∀ stored' row' s', job_committed row row' stored' s s' → run_state (st_run stored') = next → Q stored' s') →
  WP (commit_transition next evidence error stored) env s Q.
Proof.
  intros Hc Hrow Hd Hstop HQ. apply decode_Ok in Hd. unfold commit_transition.
  apply wp_bind, wp_transition_run. intros run t _ Hcan Hid Hjob Hstate Hnode. cbv zeta.
  apply wp_bind, wp_reads; [apply validate_reads|]. intros _ s1 _ D1 _.
  destruct (evidence_keeps evidence run) as (E1 & E2 & E3 & E4).
  apply (wp_cas moved_leases _ _ _ _ row).
  { cbn. by rewrite E1, Hid, D1. }
  { rewrite Hd in *. split; cbn in *; rewrite ?E1, ?E2, ?E3, ?E4; try done.
    - by eapply can_transition_live.
    - right. by rewrite Hstate.
    - intros Hcr. split; [done|]. rewrite Hcr in Hstop. right. rewrite Hstate.
      by eapply can_transition_stop. }
  intros t' Hw. eapply HQ; [|cbn; by rewrite E3].
  split_and!; [|exact Hw|done|by rewrite Hd..]. cbn. rewrite D1, E1, Hid. by rewrite Hd.
Qed.

Lemma wp_worker_transition_inner env s credential run_credential run lease version next evidence :
  consistent (tx_db s) →
  WP (worker_transition_inner credential run_credential run lease version next evidence) env s (λ _ _,
    ∃ node, authorized (tx_db s) credential run_credential run lease node
              (unix (env_clock env (tx_tick s)))).
Proof.
  intros Hc. unfold worker_transition_inner. apply wp_claimed; [done|]. cbn zeta.
  intros node s1 Ha Hc1 [(l & Hl & _ & Hex) _]. apply executing_phase in Hex as (_ & _ & Hp).
  eapply wp_mono; [|intros; by exists node]. instantiate (1 := λ _ _, True). clear Ha Hc.
  apply wp_bind, run_job_reads; [done|]. intros stored row Hid Hrow Hd. rewrite <-Hid in Hrow.
  apply wp_bind, wp_guard. intros _. apply wp_bind, wp_guard. intros Hstop.
  apply wp_bind, wp_guard. intros _.
  apply wp_bind, wp_reads; [destruct (artifact_ids _); [apply artifacts_read|apply reads_ret]|].
  intros _ s2 _ D2 _. rewrite <-D2 in Hrow, Hc1, Hl.
  apply wp_bind, (wp_commit_transition _ _ _ _ _ _ _ row); [done..|].
  intros stored' row' s3 (D3 & _) _. apply wp_bind. eapply (wp_mono _ _ _ _ (λ _ _, True)).
  { destruct (JobState.is_terminal _); [|by apply wp_ret].
    apply wp_bind, (wp_revoke_claim moved_leases). intros s4 _ L4.
    apply wp_bind, (wp_release moved_leases); [|intros; by apply wp_ret].
    intros id l' [= <-] Hl' _. left. rewrite L4, D3 in Hl'. cbn in Hl'. congruence. }
  intros _ s5 _ _. by apply wp_ret.
Qed.
Lemma wp_worker_transition env s credential run_credential run lease version next :
  consistent (tx_db s) →
  WP (worker_transition credential run_credential run lease version next) env s (λ _ _,
    ∃ node, authorized (tx_db s) credential run_credential run lease node
              (unix (env_clock env (tx_tick s)))).
Proof.
  intros Hc. unfold worker_transition. apply wp_bind, wp_guard. intros _. by apply wp_worker_transition_inner.
Qed.

(** The lease of a live job may be released. *)
Lemma live_lease_releasable db row stored s s' row' :
  consistent db → db = tx_db s → db_jobs db !! run_id (jr_run row) = Some row →
  job_committed row row' stored s s' →
  ∀ id l, st_lease_id stored = Some id → db_leases (tx_db s') !! id = Some l →
    lr_phase l ≠ LeasePhase.CleanupPending.
Proof.
  intros Hc -> Hrow (D & Hw & _ & Hlease & _) id l Hid Hl Hp. rewrite D in Hl. cbn in Hl.
  rewrite Hlease in Hid. destruct (cs_linked _ Hc _ _ _ Hrow Hid) as (l' & Hl' & Hrun).
  assert (l' = l) as -> by congruence.
  destruct (cs_cleanup _ Hc _ _ Hl Hp) as (r & Hr & Ht). rewrite Hrun, Hrow in Hr. injection Hr as <-.
  by rewrite (jw_live _ _ Hw) in Ht.
Qed.
Lemma wp_transition_run_evidence env s run version next evidence :
  consistent (tx_db s) →
  WP (transition_run_with_evidence run version next evidence) env s (λ _ _, True).
Proof.
  intros Hc. unfold transition_run_with_evidence.
  apply wp_bind, (wp_expire_now moved_leases); [done|]. intros _ s1 Hc1.
  apply wp_bind, run_job_reads; [done|]. intros stored row Hid Hrow Hd. rewrite <-Hid in Hrow.
  apply wp_bind, wp_guard. intros _. apply wp_bind, wp_guard. intros Hstop.
  apply wp_bind, wp_guard. intros _.
  apply wp_bind, (wp_commit_transition _ _ _ _ _ _ _ row); [done..|].
  intros stored' row' s2 Hcommit _. apply wp_bind. eapply (wp_mono _ _ _ _ (λ _ _, True)).
  { destruct (JobState.is_terminal _); [|by apply wp_ret]. apply wp_bind, wp_utc_now.
    apply wp_bind, (wp_release moved_leases); [|intros; by apply wp_ret].
    intros id l Hlid Hl _. left. rewrite (decode_Ok _ _ Hd) in Hrow. cbn in Hrow.
    by eapply (live_lease_releasable (tx_db s1) row). }
  intros _ s3 _ _. by apply wp_ret.
Qed.

(** ** Cancellation and renewal *)
(** What a job that was cancelled in the queue leaves behind. *)
Definition cancelled_row (s : TxState) (stored : StoredJob) : Prop :=
  run_state (st_run stored) = JobState.Cancelled →
  ∃ row, db_jobs (tx_db s) !! run_id (st_run stored) = Some row ∧ jr_run row = st_run stored ∧
    jr_plan_binding row = st_plan_binding stored ∧ jr_cancel_requested row = st_cancel_requested stored ∧
    ∀ lease, jr_lease_id row = Some lease →
      ∃ l, db_leases (tx_db s) !! lease = Some l ∧ lr_run_id l = run_id (st_run stored) ∧ is_Some (lr_released_at l).
Lemma wp_commit_cancel env s stored row :
  consistent (tx_db s) → db_jobs (tx_db s) !! run_id (st_run stored) = Some row →
  rewrites row stored → st_lease_id stored = jr_lease_id row → st_job stored = jr_job row →
  run_id (st_run stored) = run_id (jr_run row) →
  WP (commit_cancel stored) env s (λ stored' s', cancelled_row s' stored').
Proof.
  intros Hc Hrow Hw Hlease Hjob Hid. unfold commit_cancel.
  apply wp_bind, wp_reads; [apply validate_reads|]. intros _ s1 _ D1 _.
  apply wp_bind, (wp_cas moved_leases _ _ _ _ row); [by rewrite D1|done|].
  intros t Hjw. apply wp_bind. set (s2 := with_db _ _).
  assert (db_jobs (tx_db s2) !! run_id (st_run stored) = Some (rewritten t stored row)) as Hnew
    by (cbn; by rewrite lookup_insert_eq).
  destruct (run_state (st_run (set_st_version _ stored)) == JobState.Cancelled) eqn:Hs.
  - apply wp_bind, wp_utc_now. apply wp_bind, (wp_release_done moved_leases).
    + intros id l Hlid Hl _. left. rewrite Hid in Hrow.
      eapply (live_lease_releasable (tx_db s) row stored s1); [done|by rewrite D1|done| |exact Hlid|exact Hl].
      split_and!; try done. cbn. by rewrite Hid.
    + intros b s3 J3 _ L3. do 2 apply wp_ret. intros _. exists (rewritten t stored row).
      rewrite J3. split_and!; [exact Hnew|done|done|done|]. intros lease Hjl. cbn in Hjl.
      destruct (cs_linked _ Hc _ _ _ Hrow Hjl) as (l & Hl & Hr).
      destruct (L3 lease l) as (l' & Hl' & Hr' & Hrel); [by rewrite <-Hjl|cbn; by rewrite D1|].
      exists l'. split_and!; [done|cbn; congruence|done].
  - do 2 apply wp_ret. intros Hs'. apply bool_decide_eq_false in Hs. by destruct Hs.
Qed.
Lemma wp_cancel_job env s id version :
  consistent (tx_db s) → WP (cancel_job id version) env s (λ stored s', cancelled_row s' stored).
Proof.
  intros Hc. unfold cancel_job. apply wp_bind, (wp_expire_now moved_leases); [done|]. intros _ s1 Hc1.
  apply wp_bind, (prefer_job_reads moved_leases); [done|]. intros stored row Hrow Hd.
  pose proof (decode_Ok _ _ Hd) as Hst. apply wp_bind, wp_guard. intros _.
  destruct (run_state (st_run stored)) eqn:Hs; try apply wp_throw.
  - apply wp_bind, wp_transition_run. intros run t _ Hcan Hid Hjob Hstate Hnode.
    eapply wp_commit_cancel; [done|cbn; by rewrite Hid| |cbn; by rewrite Hst|cbn; by rewrite Hst|
                              cbn; rewrite Hid; by rewrite Hst].
    rewrite Hst in *. split; cbn in *; try done; try congruence.
    + by eapply can_transition_live.
    + right. by rewrite Hstate.
    + intros Hcr. split; [done|]. right. by left.
  - destruct (st_cancel_requested stored); [by apply wp_ret; intros Hs'; rewrite Hs in Hs'|].
    eapply wp_commit_cancel; [done|done| |by rewrite Hst..]. rewrite Hst in *.
    split; cbn in *; try done; [unfold row_state; by rewrite Hs|by left|by auto].
  - destruct (st_cancel_requested stored); [by apply wp_ret; intros Hs'; rewrite Hs in Hs'|].
    eapply wp_commit_cancel; [done|done| |by rewrite Hst..]. rewrite Hst in *.
    split; cbn in *; try done; [unfold row_state; by rewrite Hs|by left|by auto].
  - destruct (st_cancel_requested stored); [by apply wp_ret; intros Hs'; rewrite Hs in Hs'|].
    eapply wp_commit_cancel; [done|done| |by rewrite Hst..]. rewrite Hst in *.
    split; cbn in *; try done; [unfold row_state; by rewrite Hs|by left|by auto].
Qed.
Lemma wp_renew_lease env s run : consistent (tx_db s) → WP (renew_lease run) env s (λ _ _, True).
Proof.
  intros Hc. unfold renew_lease. apply wp_bind, wp_utc_now, wp_bind, wp_expire; [exact Hc|].
  intros _ s1 Hc1 _. apply wp_bind, run_job_reads; [done|]. intros stored row _ _ _.
  do 2 (apply wp_bind, wp_guard; intros _). apply wp_bind, wp_liftr. intros lease _. cbv zeta.
  apply wp_bind, wp_update_live.
  { intros l _ _ Hr (_ & _ & Hp)%executing_phase. by apply lw_extend. }
  intros b v. apply wp_bind, wp_guard. intros _. apply wp_bind, wp_get_db, wp_bind, wp_liftr.
  intros l _. apply wp_bind, wp_commit. intros s2 _ _ _. apply wp_bind, wp_liftr. intros t _. by apply wp_ret.
Qed.

(** ** Completion *)
Record finished (db : Db) (completion : RunCompletion) (stored : StoredJob) : Prop := {
  fd_completion : ∃ c document, db_completions db !! rc_run_id completion = Some c ∧
    completion_to_string completion = Ok document ∧ co_document_sha256 c = bytes_sha256 (bytes document);
  fd_job : ∃ row, db_jobs db !! rc_run_id completion = Some row ∧ JobState.is_terminal (row_state row) = true ∧
    row_state row = run_state (st_run stored) ∧ jr_version row = as_i64 (st_version stored)
}.
(** The completion and the obligation are one change; the claim is revoked in between. *)
Lemma wp_finish {A} (k : tx A) env s (Q : A → TxState → Prop) run now c o :
  (db_completions (tx_db s) !! run = None → db_obligations (tx_db s) !! run = None →
   finishes (tx_db s) run c o) →
  (∀ v, WP k env (with_db (λ d, set_db_obligations (<[run := o]> (db_obligations d))
      (set_db_worker_claims (v d) (set_db_completions (<[run := c]> (db_completions d)) d))) s) Q) →
  WP (insert_completion run c;; revoke_claim run now;; insert_obligation run o;; k) env s Q.
Proof.
  intros Hf HQ. unfold insert_completion, revoke_claim, insert_obligation.
  assert (∀ d, moved (tx_files s) d (set_db_worker_claims
    (alter (λ c, if is_none (wl_revoked_at c) then set_wl_revoked_at (Some now) c else c) run (db_worker_claims d)) d)) as Hrevoke.
  { intros d. destruct (db_worker_claims d !! run) as [cl|] eqn:Hcl; [|by rewrite alter_None, set_claims_same].
    rewrite (alter_Some _ _ _ _ Hcl). destruct (is_none (wl_revoked_at cl)) eqn:Hr.
    - apply is_none_true in Hr. by apply moved_once, ch_lease, lc_revoke_claim.
    - by rewrite insert_id, set_claims_same. }
  unfold wp, mbind, tx_bind, get_db, guard_or, modify. cbn [tx_db with_db].
  destruct (is_some (db_completions (tx_db s) !! run)) eqn:Hcompletion; [apply kept_refl|]. cbn.
  destruct (is_some (db_obligations (tx_db s) !! run) || _) eqn:Hobligation; [split; [done|by left]|]. cbn.
  rewrite is_some_false in Hcompletion. rewrite orb_false_iff, is_some_false in Hobligation. destruct Hobligation as [Hobligation _].
  specialize (HQ (λ d, alter (λ c, if is_none (wl_revoked_at c) then set_wl_revoked_at (Some now) c else c) run (db_worker_claims d))).
  set (s' := with_db _ s) in HQ.
  assert (moves moved s s') as Hmoves.
  { split; [|done|by left]. etrans; [apply (Hrevoke (tx_db s))|]. apply moved_once.
    exact (ch_finish _ (set_db_worker_claims _ (tx_db s)) run c o Hcompletion Hobligation (Hf Hcompletion Hobligation)). }
  change (match k env s' with (s2, Ok a) => moves moved s s2 ∧ Q a s2 | (s2, Err _) => kept moved s s2 end).
  unfold wp in HQ. destruct (k env s') as [s2 [a|e]]; [|by eapply moves_then_kept].
  destruct HQ as [HM HQ]. split; [by etrans|done].
Qed.
Lemma completion_terminal completion :
  RunCompletion_validate completion = Ok tt → JobState.is_terminal (rc_final_state completion) = true.
Proof.
  unfold RunCompletion_validate. cbv zeta. rewrite bind_unit_Ok, reject_if_Ok, negb_false_iff. by intros [? _].
Qed.
Lemma wp_commit_completion env s now document completion stored row :
  consistent (tx_db s) → run_id (st_run stored) = rc_run_id completion →
  db_jobs (tx_db s) !! rc_run_id completion = Some row → decode_job_row row = Ok stored →
  RunCompletion_validate completion = Ok tt → completion_to_string completion = Ok document →
  WP (commit_completion now (bytes_sha256 (bytes document)) completion stored) env s
    (λ stored' s', finished (tx_db s') completion stored').
Proof.
  intros Hc Hrun Hrow Hd Hvalid Hdoc. pose proof (completion_terminal _ Hvalid) as Hterm. apply decode_Ok in Hd. unfold commit_completion. cbv zeta.
  apply wp_bind, wp_guard. intros _. apply wp_bind, wp_guard. intros Hstop.
  apply wp_bind, wp_reads; [apply completion_evidence_reads|]. intros _ s1 [Hsource Hsteps]%managed_checked D1 _.
  apply wp_bind, wp_transition_run. intros run t _ Hcan Hid Hjob Hstate Hnode.
  apply wp_bind, wp_reads; [apply validate_reads|]. intros _ s2 _ D2 _. cbn [tx_db tick] in D2.
  apply wp_bind, (wp_cas moved_leases _ _ _ _ row).
  { cbn. rewrite Hid, Hrun, D2, D1. exact Hrow. }
  { rewrite Hd in *. split; cbn in *; try done; try congruence.
    - by eapply can_transition_live.
    - right. by rewrite Hstate.
    - intros Hcr. split; [done|]. rewrite Hcr in Hstop. right. rewrite Hstate.
      by eapply can_transition_stop. }
  intros t' Hw. set (stored' := set_st_version _ _).
  set (s3 := with_db _ _). assert (∃ row3, db_jobs (tx_db s3) !! rc_run_id completion = Some row3 ∧
    row_state row3 = rc_final_state completion ∧ run_state (st_run stored') = rc_final_state completion ∧
    jr_job row3 = st_job stored' ∧ jr_version row3 = as_i64 (st_version stored') ∧ st_job stored' = st_job stored)
    as (row3 & Hrow3 & Hstate3 & Hstate' & Hjob3 & Hversion3 & Hsame).
  { eexists. cbn. rewrite Hid, Hrun, lookup_insert_eq. split; [done|]. unfold row_state. cbn. split_and!; try done.
    by rewrite Hd. }
  clearbody s3 stored'. apply wp_finish.
  { intros _ _. split; [done|]. exists row3. split; [done|]. split; try done; [by exists document|by rewrite Hstate3|..];
      cbn; rewrite ?Hjob3, ?Hsame, ?Hstate3; done || congruence. }
  intros v. apply wp_bind, wp_update_live.
  { intros l Hl Hlr Hr Ha. rewrite andb_true_iff, !bool_decide_eq_true in Ha. destruct Ha as [_ Hp].
    apply lw_complete; [done..|]. exists row3. cbn. rewrite Hlr, Hrow3. split; [done|]. by rewrite Hstate3. }
  intros b v'. apply wp_bind, wp_guard. intros _. apply wp_ret. split; cbn.
  - eexists _, document. rewrite lookup_insert_eq. done.
  - exists row3. split_and!; [done|by rewrite Hstate3|congruence|done].
Qed.
(** The completion is the one that is already stored, to the byte. *)
Definition repeated (db : Db) (completion : RunCompletion) : Prop :=
  ∃ document, completion_to_string completion = Ok document ∧
    completed_as db (rc_run_id completion) (bytes_sha256 (bytes document)).
Lemma wp_complete env s credential run_credential completion :
  consistent (tx_db s) →
  WP (worker_complete_managed credential run_credential completion) env s (λ stored s',
    (∃ node, authentic (tx_db s) credential node ∧
      holds_claim (tx_db s) run_credential (rc_run_id completion) (rc_lease_id completion) node ∧
      (authorized (tx_db s) credential run_credential (rc_run_id completion) (rc_lease_id completion) node
         (unix (env_clock env (tx_tick s))) ∨ repeated (tx_db s) completion)) ∧
    finished (tx_db s') completion stored).
Proof.
  intros Hc. unfold worker_complete_managed. apply wp_bind, wp_liftr. intros [] Hv%map_err_Ok.
  apply wp_bind, wp_liftr. intros document Hdoc%map_err_Ok. cbv zeta.
  apply wp_bind, wp_utc_now, wp_bind, wp_expire; [exact Hc|]. intros _ s1 Hc1 Hl%expired_lapsed. cbv zeta.
  apply wp_bind, wp_authorize_receipt.
  intros node v Ha Hh. pose proof (authentic_before _ _ _ _ Hl Ha) as Ha'.
  apply (holds_before _ _ _ _ _ _ Hl) in Hh.
  assert (consistent (tx_db (with_db (λ d, set_db_worker_credentials (v d) d) s1))) as Hc2 by by apply consistent_with.
  apply wp_bind, run_job_reads; [done|]. intros stored row Hid Hrow Hd.
  apply wp_bind, wp_guard. intros _. destruct (JobState.is_terminal _) eqn:Ht.
  - apply wp_bind, wp_get_db. destruct (_ == _) eqn:E; [|apply wp_throw]. apply wp_ret.
    apply bool_decide_eq_true, fmap_Some in E as (c & Hcompletion & Hsha). split; [|split].
    + exists node. split_and!; [done..|]. right. exists document. split; [done|].
      apply (completed_before _ _ _ _ Hl). by exists c.
    + by exists c, document.
    + exists row. pose proof (cs_version _ Hc2 _ _ Hrow) as Hversion. rewrite (decode_Ok _ _ Hd) in Ht |- *.
      split_and!; try done. unfold as_i64, as_u64. cbn. lia.
  - apply wp_bind, wp_authorize. intros node' v' (_ & Hclaim & Hlease).
    destruct Hh as (c & Hc' & Hrest), Hclaim as (c' & Hc'' & Hlease' & Hhash' & Hnode' & Hlive).
    pose proof (lp_claims _ _ Hl) as Hbefore. cbn in Hc''.
    assert (c' = c) as -> by
      (apply Hbefore in Hc''; [congruence|unfold claim_live in Hlive; by apply andb_true_iff in Hlive as [?%is_none_true _]]).
    eapply wp_mono; [apply (wp_commit_completion _ _ _ _ _ _ row);
      [by apply consistent_with|done..]|].
    intros stored' s' _ Hf. split; [|done]. exists node. split_and!; [done|by exists c|]. left.
    apply (authorized_before _ _ _ _ _ _ _ _ Hl). split; [done|]. split; [|done].
    exists c. destruct Hrest as (_ & _ & <-). by split_and!.
Qed.

(** ** Cleanup receipts *)
Lemma wp_release_cleanup env s run lease now : WP (release_cleanup_reservation_tx run lease now) env s (λ _ _, True).
Proof.
  unfold release_cleanup_reservation_tx. apply wp_bind, (wp_obligation moved_leases). intros o s1 D1 _ Hobl.
  apply wp_bind, wp_liftr. intros so Hso%ok_or_Ok. destruct (Hobl _ Hso) as (row & Hrow & Hlease & _ & Hopen & Hrel).
  apply wp_bind, wp_guard. intros Hg. rewrite negb_bool_decide_false in Hg.
  apply wp_bind. eapply (wp_mono _ _ _ _ (λ _ s2, ∃ ob, db_obligations (tx_db s2) !! run = Some ob ∧
    ob_lease_id ob = lease ∧ is_Some (ob_reservation_released_at ob))).
  { destruct (is_none _) eqn:E.
    - apply is_none_true in E. apply (wp_update_obligation moved_leases).
      + intros ob Hob. rewrite D1, Hrow in Hob. injection Hob as <-. right. split; try done. by apply Hopen.
      + eexists. cbn. rewrite D1, lookup_alter_eq, Hrow. split; [done|]. cbn. split; [congruence|by eexists].
    - apply is_none_false in E as [t E]. apply wp_ret. exists row. rewrite D1. split_and!; [done|congruence|].
      apply Hrel. by rewrite E. }
  intros _ s2 _ (ob & Hob & Hol & Hor). apply wp_bind, (wp_release moved_leases); [|intros; by apply wp_ret].
  intros id l [= <-] _ _. right. by exists run, ob.
Qed.
Lemma wp_record_cleanup env s credential run_credential receipt :
  consistent (tx_db s) →
  WP (record_cleanup credential run_credential receipt) env s (λ _ _,
    ∃ node, authentic (tx_db s) credential node ∧
      holds_claim (tx_db s) run_credential (cl_run_id receipt) (cl_lease_id receipt) node ∧
      completed_as (tx_db s) (cl_run_id receipt) (ack_completion_sha256 (cl_terminal_ack receipt))).
Proof.
  intros Hc. unfold record_cleanup. cbv zeta. apply wp_bind, wp_liftr. intros [] Hvalid.
  apply wp_bind, wp_liftr. intros document _. apply wp_bind, wp_seconds. intros received_at _.
  apply wp_bind, wp_expire; [exact Hc|]. intros _ s1 Hc1 Hl%expired_lapsed.
  apply wp_bind, wp_authorize_receipt. intros node v Ha%(authentic_before _ _ _ _ Hl) Hh%(holds_before _ _ _ _ _ _ Hl).
  apply wp_bind, run_job_reads; [by apply consistent_with|]. intros stored row _ Hrow Hd.
  apply wp_bind, wp_guard. intros [[_ Hstate]%orb_false_iff _]%orb_false_iff.
  apply wp_bind, wp_reads; [apply obligation_reads|]. intros obligation s2 _ D2 _.
  apply wp_bind, wp_liftr. intros so _. apply wp_bind, wp_guard. intros _.
  apply wp_bind, wp_get_db, wp_bind, wp_liftr. intros crow Hcrow. apply wp_bind, wp_guard. intros Hsha.
  assert (completed_as (tx_db s) (cl_run_id receipt) (ack_completion_sha256 (cl_terminal_ack receipt))) as Hdone.
  { apply (completed_before _ _ _ _ Hl). apply ok_or_Ok in Hcrow. rewrite D2 in Hcrow.
    rewrite negb_bool_decide_false in Hsha. by exists crow. }
  eapply wp_mono; [|intros; by exists node]. instantiate (1 := λ _ _, True).
  apply wp_bind, wp_liftr. intros completed_at _. apply wp_bind, wp_guard. intros _.
  assert (∀ env s, WP (if cl_outcome receipt == JobRootCleanupOutcomeV1.Removed
    then release_cleanup_reservation_tx (cl_run_id receipt) (cl_lease_id receipt) (unix received_at)
    else mret tt) env s (λ _ _, True)) as Hrelease.
  { intros env' s'. destruct (cl_outcome receipt == _); [apply wp_release_cleanup|by apply wp_ret]. }
  destruct (db_cleanups (tx_db s2) !! cl_run_id receipt) as [existing|] eqn:Hex.
  - apply wp_bind, wp_guard. intros _. apply wp_bind. eapply wp_mono; [apply Hrelease|]. intros _ s3 _ _.
    apply wp_bind, wp_commit. intros s4 _ _ _. apply wp_bind, wp_liftr. intros t _. by apply wp_ret.
  - assert (receipted (tx_db s2) (cl_run_id receipt) receipt) as Hr.
    { rewrite (decode_Ok _ _ Hd) in Hstate. rewrite negb_bool_decide_false in Hsha. rewrite negb_bool_decide_false in Hstate.
      apply map_err_Ok in Hvalid. apply ok_or_Ok in Hcrow. split; [done|done|by exists crow|].
      exists row. by rewrite D2. }
    apply wp_bind, wp_modify; [by_change; by apply ch_new_cleanup|].
    apply wp_bind. eapply wp_mono; [apply Hrelease|]. intros _ s3 _ _. by apply wp_ret.
Qed.

(** ** Readers that expire leases first *)
Lemma wp_expire_then {A} (m : tx A) env s :
  consistent (tx_db s) → reads m → WP (expire_now;; m) env s (λ _ _, True).
Proof.
  intros Hc Hm. apply wp_bind, (wp_expire_now moved_leases); [done|]. intros _ s1 _. by apply wp_reads.
Qed.
Lemma prefer_reads id : reads (get_job_prefer_job_id id).
Proof. unfold get_job_prefer_job_id. reads_auto. Qed.
Lemma snapshot_status_reads id : reads (
  stored ← get_job_prefer_job_id id; let run := run_id (st_run stored) in
  cleanup ← get_cleanup_tx run; completion ← get_completion_tx run;
  obligation ← get_cleanup_obligation_tx run;
  mret {| csn_stored := stored; csn_cleanup := cleanup; csn_completion := completion;
          csn_obligation := obligation |}).
Proof.
  apply reads_bind; [apply prefer_reads|]. intros stored. cbv zeta.
  apply reads_bind; [apply cleanup_reads|]. intros ?. apply reads_bind; [apply completion_reads|]. intros ?.
  apply reads_bind; [apply obligation_reads|]. intros ?. apply reads_ret.
Qed.
End proofs.
