(* ===== verification/PairingProofs.v ===== *)
(** Every public method of the controller is a sequence of atomic changes, last
    part: pairings.  Their writes only make sense together, so a method's writes
    are one change. *)
From Stdlib Require Import ZArith NArith Lia String.
From stdpp Require Import base option list numbers sets gmap relations.
From S2P Require Import Prelude Text Crates Protocol CanonicalJson NodeState WorkerReports Onboarding ControllerDb FleetNodes Leases NodeWrites Pairings TxLogic Changes ChangeProofs MethodProofs.
Open Scope rust_scope.

Section proofs.
Context `{UuidCrate, ChronoCrate, SerdeJsonCrate, !StoreSerde, DigestCrate}.
Abbreviation WP := (wp moved).
Ltac by_change := apply moved_once.

(** ** Issuing *)
Definition new_pairing (secret : PairingSecret) : PairingRow :=
  {| pa_code_hash := secret_hash (ps_code secret); pa_created_at := unix (ps_created_at secret);
     pa_expires_at := unix (ps_expires_at secret); pa_used_at := None; pa_acknowledged_at := None;
     pa_revoked_at := None; pa_node_id := None; pa_intended_node_id := ps_intended_node_id secret;
     pa_failed_at := None; pa_failure_code := None |}.
Lemma wp_insert_pairing env s (Q : unit → TxState → Prop) secret :
  Q tt (with_db (λ d, set_db_pairings (<[ps_id secret := new_pairing secret]> (db_pairings d)) d) s) →
  WP (insert_pairing secret) env s Q.
Proof.
  intros HQ. unfold insert_pairing. cbv zeta. apply wp_bind, wp_get_db, wp_bind, wp_guard. intros Hg.
  rewrite orb_false_iff, is_some_false in Hg. destruct Hg as [Hg _].
  apply wp_modify; [|exact HQ]. by_change. apply ch_pairing. by apply (pc_new _ _ (new_pairing secret)).
Qed.
Lemma intended_reads (o : option Uuid) : reads (match o with Some id => mret id | None => new_v4 end).
Proof. by destruct o. Qed.
Lemma wp_create_pairing env s intended : WP (create_pairing_for intended) env s (λ _ _, True).
Proof.
  unfold create_pairing_for. apply wp_bind, wp_utc_now, wp_bind, wp_liftr. intros now _.
  apply wp_bind, wp_new_v4, wp_bind, wp_reads; [apply intended_reads|]. intros node s1 _ _ _.
  apply wp_bind, wp_reads; [apply reads_random_secret|]. intros code s2 _ _ _. cbv zeta.
  apply wp_bind, wp_insert_pairing. by apply wp_ret.
Qed.
Lemma replay_reads key requested operation p : reads (replay_pairing key requested operation p).
Proof. unfold replay_pairing. reads_auto. Qed.

(** The stored operation of a key, and the answer that it determines. *)
Record answers (d : Db) (key : rstr) (requested : option Uuid) (a : IdempotentPairing)
    (operation : PairingOperationRow) (p : PairingRow) : Prop := {
  an_operation : db_pairing_operations d !! key = Some operation;
  an_pairing : db_pairings d !! po_pairing_id operation = Some p;
  an_requested : po_requested_node_id operation = requested;
  an_id : ps_id (ip_pairing a) = po_pairing_id operation;
  an_intended : ps_intended_node_id (ip_pairing a) = pa_intended_node_id p;
  an_code : ps_code (ip_pairing a) = derive_pairing_code (db_pairing_seed d) key (po_pairing_id operation)
    (pa_intended_node_id p) (pa_created_at p);
  an_created : ps_created_at (ip_pairing a) = (pa_created_at p * nanos_per_second)%Z;
  an_expires : ps_expires_at (ip_pairing a) = (pa_expires_at p * nanos_per_second)%Z;
  an_url : ip_worker_url a = po_worker_url operation;
  an_pem : ip_certificate_pem a = po_certificate_pem operation
}.
Lemma unix_seconds (z : Z) : unix (z * nanos_per_second)%Z = z.
Proof. unfold unix. by apply Z.div_mul. Qed.
Lemma wp_replay env s key requested operation p :
  db_pairing_operations (tx_db s) !! key = Some operation →
  db_pairings (tx_db s) !! po_pairing_id operation = Some p →
  WP (replay_pairing key requested operation p) env s (λ a s',
    (ChronoCrateLaws → answers (tx_db s') key requested a operation p) ∧ ip_replayed a = true).
Proof.
  intros Ho Hp. unfold replay_pairing. apply wp_bind, wp_guard. intros Hr. rewrite negb_bool_decide_false in Hr.
  apply wp_bind, wp_liftr. intros created Hc%ok_or_Ok.
  apply wp_bind, wp_liftr. intros expires He%ok_or_Ok.
  apply wp_bind, wp_liftr. intros failure _. apply wp_bind, wp_utc_now, wp_bind, wp_get_db, wp_bind, wp_liftr.
  intros phase _. apply wp_bind, wp_guard. intros _. apply wp_ret. split; [|done].
  intros Hlaws. apply from_timestamp_spec in Hc, He. split; try done. cbn. by rewrite Hc, unix_seconds.
Qed.
Lemma wp_create_idempotent env s key requested url pem :
  WP (create_pairing_idempotent key requested url pem) env s (λ a s',
    (ChronoCrateLaws → ∃ operation p, answers (tx_db s') key requested a operation p) ∧
    (is_Some (db_pairing_operations (tx_db s) !! key ≫= λ o, db_pairings (tx_db s) !! po_pairing_id o) →
     ip_replayed a = true)).
Proof.
  unfold create_pairing_idempotent. apply wp_bind, wp_guard. intros _. apply wp_bind, wp_guard. intros _.
  apply wp_bind, wp_get_db. cbv zeta. destruct (db_pairing_operations (tx_db s) !! key) as [operation|] eqn:Ho;
    [destruct (db_pairings (tx_db s) !! po_pairing_id operation) as [p|] eqn:Hp|]; cbn; rewrite ?Hp; cbn;
    [eapply wp_mono; [by apply wp_replay|]; intros a s' _ [Ha Hr]; split; [intros Hlaws; exists operation, p; auto|done]|..];
    (apply wp_bind, wp_utc_now, wp_bind, wp_liftr; intros now Hnow%ok_or_Ok; apply wp_bind, wp_new_v4;
     apply wp_bind, wp_reads; [apply intended_reads|]; intros node s1 _ D1 _;
     apply wp_bind, wp_insert_pairing, wp_bind, wp_get_db, wp_bind, wp_guard; intros Hg;
     rewrite orb_false_iff, is_some_false in Hg; destruct Hg as [Hg _];
     apply wp_bind, wp_modify; [by_change; apply ch_pairing; by apply pc_operation|]; apply wp_ret).
  - cbn in Hg. rewrite D1 in Hg. cbn in Hg. congruence.
  - split; [|by intros [? [=]]]. intros Hlaws. apply from_timestamp_spec in Hnow. eexists _, _.
    split; cbn; [by rewrite lookup_insert_eq|by rewrite lookup_insert_eq|..]; cbn; try done.
    + by rewrite D1.
    + by rewrite Hnow, unix_seconds.
    + rewrite Hnow. unfold nanos_per_second. rewrite <-Z.mul_add_distr_r. by rewrite unix_seconds.
Qed.

(** ** Failure *)
Lemma no_credentials_nil db id : is_empty (pairing_credentials db id) = true → no_credentials db id.
Proof.
  intros He cid wc Hc Hp. unfold pairing_credentials in He.
  assert ((cid, wc) ∈ List.filter (λ e : Uuid * WorkerCredentialRow, wc_pairing_id e.2 == id)
            (map_to_list (db_worker_credentials db))) as Hin.
  { apply list_elem_of_In, filter_In. split; [by apply list_elem_of_In, elem_of_map_to_list|].
    by apply bool_decide_eq_true. }
  destruct (List.filter _ _); [by apply elem_of_nil in Hin|done].
Qed.
Lemma wp_fail_pairing env s id code : WP (fail_pairing id code) env s (λ _ _, True).
Proof.
  unfold fail_pairing. cbv zeta. apply wp_bind, wp_utc_now, wp_bind, wp_get_db, wp_bind, wp_liftr.
  intros p Hp%ok_or_Ok. do 2 (apply wp_bind, wp_liftr; intros ? _). apply wp_bind, wp_utc_now, wp_bind, wp_liftr.
  intros phase _. destruct phase; try apply wp_throw; [|by apply wp_guard].
  destruct (_ && _) eqn:E; [|apply wp_throw]. rewrite !andb_true_iff, !is_none_true in E.
  destruct E as [[[[[[[E1 E2] E3] E4] E5] E6] _] E8]. apply no_credentials_nil in E8.
  apply wp_modify; [|done]. by_change. apply ch_pairing. cbn in Hp. cbn. rewrite (alter_Some _ _ _ p) by done.
  apply (pc_fail _ id p); done.
Qed.

(** ** Consumption *)
Lemma node_change_pairings v d d' : node_change d d' → node_change (set_db_pairings v d) (set_db_pairings v d').
Proof.
  intros [db w Hw|db w|db w|db w|db w|db Hf].
  - by apply (nc_nodes (set_db_pairings v db)).
  - apply (nc_configs (set_db_pairings v db)).
  - apply (nc_inventories (set_db_pairings v db)).
  - apply (nc_telemetry (set_db_pairings v db)).
  - apply (nc_boots (set_db_pairings v db)).
  - by apply (nc_fleet (set_db_pairings v db)).
Qed.
Lemma node_changes_pairings v d d' :
  rtc node_change d d' → rtc node_change (set_db_pairings v d) (set_db_pairings v d').
Proof. apply rtc_congruence. apply node_change_pairings. Qed.
Lemma node_changes_frame d d' :
  rtc node_change d d' →
  db_pairings d' = db_pairings d ∧ db_worker_credentials d' = db_worker_credentials d.
Proof.
  induction 1 as [|d1 d2 d3 Hc _ [-> ->]]; [done|]. by destruct Hc.
Qed.
Lemma upsert_quiet node authority : quiet (upsert_node_tx node authority).
Proof.
  unfold upsert_node_tx. apply quiet_bind; [destruct (_ == _); apply quiet_reads; auto with reads|].
  intros received. cbv zeta. do 3 (apply quiet_bind; [apply quiet_reads, reads_liftr|intros ?]).
  apply quiet_bind; [apply quiet_reads, reads_get_db|intros ?].
  apply quiet_bind; [apply quiet_reads, reads_liftr|]. intros view.
  apply quiet_bind; [apply quiet_reads, view_node_reads|]. intros document.
  apply quiet_bind; [apply quiet_modify|]. intros ?.
  apply quiet_bind; [destruct (_ || _); [apply quiet_modify|apply quiet_reads; auto with reads]|]. intros ?.
  apply quiet_bind; [apply quiet_reads, digest_reads|]. intros digest.
  do 2 (apply quiet_bind; [apply quiet_modify|intros ?]).
  destruct (_ || _); [|apply quiet_reads; auto with reads]. unfold increment_fleet_revision. quiet_auto.
Qed.
Lemma wp_stage env s (Q : unit → TxState → Prop) cid id sha now node p :
  db_pairings (tx_db s) !! id = Some p → fresh_pairing p → pa_revoked_at p = None →
  no_credentials (tx_db s) id → (∀ s', Q tt s') →
  WP (stage_credential cid id (pa_intended_node_id p) sha now node) env s Q.
Proof.
  intros Hp Hfresh Hrev Hnone HQ. apply wp_atomic.
  { unfold stage_credential. apply quiet_bind; [apply quiet_modify|]. intros ?.
    apply quiet_bind; [apply upsert_quiet|]. intros ?. unfold insert_credential. quiet_auto. }
  unfold stage_credential, update_pairing. apply wp_bind, wp_modify; [done|].
  apply wp_bind, (wp_embed node_moved loose _ _ _ (λ _ s', is_Some (db_nodes (tx_db s') !! pa_intended_node_id p)));
    [done|by apply (wp_upsert_node node_moved_nodes)|].
  intros _ s1 Hr _ Hnode. cbn in Hr. change (rtc node_change (set_db_pairings
    (alter (λ p0, set_pa_used_at (Some now) (set_pa_node_id (Some (pa_intended_node_id p)) p0)) id
       (db_pairings (tx_db s))) (tx_db s)) (tx_db s1)) in Hr.
  rewrite (alter_Some _ _ _ p) in Hr by done.
  destruct (node_changes_frame _ _ Hr) as [Ep Ec]. cbn in Ep, Ec.
  unfold insert_credential. apply wp_bind, wp_get_db, wp_bind, wp_guard. intros Hg.
  rewrite orb_false_iff, is_some_false, existsb_false in Hg. destruct Hg as [Hg Hunique].
  apply wp_modify; [done|]. split; [|apply HQ]. cbn [tx_db with_db].
  set (d1 := set_db_pairings (db_pairings (tx_db s)) (tx_db s1)).
  transitivity d1.
  { apply node_moved_moved. apply (node_changes_pairings (db_pairings (tx_db s))) in Hr.
    replace (tx_db s) with (set_db_pairings (db_pairings (tx_db s)) (tx_db s)) at 1 by by destruct (tx_db s). done. }
  apply moved_once, ch_pairing.
  replace (tx_db s1) with (set_db_pairings (<[id := set_pa_used_at (Some now)
    (set_pa_node_id (Some (pa_intended_node_id p)) p)]> (db_pairings d1)) d1).
  - apply (pc_consume d1 id p); try done; [unfold no_credentials; cbn; by rewrite Ec|].
    intros i c Hi Heq. cbn in Hi. rewrite Forall_forall in Hunique.
    specialize (Hunique (i, c)). rewrite bool_decide_eq_false in Hunique. apply Hunique; [|done].
    by apply elem_of_map_to_list.
  - cbn. rewrite <-Ep. by destruct (tx_db s1).
Qed.
Lemma pairing_by_code_Some db hash now id p :
  pairing_by_code db hash now = Some (id, p) →
  db_pairings db !! id = Some p ∧ pa_revoked_at p = None ∧ (now < pa_expires_at p)%Z ∧
  pa_failed_at p = None ∧ pa_failure_code p = None ∧ pa_code_hash p = hash.
Proof.
  intros Hf. apply find_some in Hf as [Hin Hp]. apply list_elem_of_In, elem_of_map_to_list in Hin.
  cbn in Hp. rewrite !andb_true_iff, !is_none_true, bool_decide_eq_true, Z.ltb_lt in Hp. tauto.
Qed.
(** A pairing whose code is presented while it lives. *)
Definition live_code (db : Db) (code : rstr) (now : Z) (id : Uuid) (p : PairingRow) : Prop :=
  db_pairings db !! id = Some p ∧ pa_revoked_at p = None ∧ (now < pa_expires_at p)%Z ∧
  pa_failed_at p = None ∧ pa_failure_code p = None ∧ pa_code_hash p = secret_hash code.
Lemma wp_preauthorize_pairing env s code :
  WP (preauthorize_pairing code) env s (λ _ _,
    ∃ id p, live_code (tx_db s) code (unix (env_clock env (tx_tick s))) id p).
Proof.
  unfold preauthorize_pairing. apply wp_bind, wp_utc_now, wp_bind, wp_get_db.
  destruct (pairing_by_code _ _ _) as [[id p]|] eqn:Hf; [|apply wp_throw]. cbv zeta. apply wp_guard. intros _.
  exists id, p. by apply pairing_by_code_Some in Hf.
Qed.
Lemma wp_consume env s code id intended sha node :
  WP (consume_pairing code id intended sha node) env s (λ _ _,
    ∃ p, live_code (tx_db s) code (unix (env_clock env (tx_tick s))) id p ∧ pa_intended_node_id p = intended).
Proof.
  unfold consume_pairing. do 2 (apply wp_bind, wp_guard; intros _). cbv zeta.
  apply wp_bind, wp_utc_now, wp_bind, wp_new_v4, wp_bind, wp_get_db, wp_bind, wp_liftr.
  intros [stored p] Hf%ok_or_Ok. apply pairing_by_code_Some in Hf as Hlive.
  destruct Hlive as (Hp & Hrev & _ & Hfail & Hcode & _).
  apply wp_bind, wp_guard. intros Hg. rewrite !orb_false_iff, !negb_bool_decide_false in Hg.
  destruct Hg as [[-> ->] _]. eapply (wp_mono _ _ _ _ (λ _ _, True));
    [|intros; exists p; split; [by apply pairing_by_code_Some in Hf|done]]. destruct (pa_used_at p) as [used|] eqn:Hused.
  - unfold replay_consumption. apply wp_bind, wp_liftr. intros node' _.
    do 2 (apply wp_bind, wp_guard; intros _). apply wp_bind, wp_commit. intros s2 _ _ _.
    apply wp_bind, wp_liftr. intros t _. by apply wp_ret.
  - apply wp_bind, wp_guard. intros Hg. rewrite !orb_false_iff, !is_some_false, negb_false_iff in Hg.
    destruct Hg as [[Hack Hnode] Hnone%no_credentials_nil]. apply wp_bind, wp_guard. intros _.
    apply wp_bind, wp_stage; [done..|]. intros s2. apply wp_bind, wp_commit. intros s3 _ _ _.
    apply wp_bind, wp_liftr. intros t _. by apply wp_ret.
Qed.

(** ** Acknowledgement and revocation *)
Lemma pairing_change_eq d d1 d2 : pairing_change d d1 → d1 = d2 → pairing_change d d2.
Proof. by intros ? <-. Qed.
Lemma credential_by_hash_Some db hash id wc :
  credential_by_hash db hash = Some (id, wc) →
  db_worker_credentials db !! id = Some wc ∧ wc_credential_hash wc = hash.
Proof.
  intros Hf. apply find_some in Hf as [Hin Hp]. apply list_elem_of_In, elem_of_map_to_list in Hin.
  by apply bool_decide_eq_true in Hp.
Qed.
Lemma wp_activate env s (Q : unit → TxState → Prop) cid id p wc now :
  db_pairings (tx_db s) !! id = Some p → db_worker_credentials (tx_db s) !! cid = Some wc →
  acknowledgeable (tx_db s) wc p = true → wc_pairing_id wc = id → pa_acknowledged_at p = None →
  (∀ s', Q tt s') → WP (activate_credential cid id (wc_node_id wc) now) env s Q.
Proof.
  intros Hp Hwc Hack Hid Hnone HQ. apply wp_atomic; [unfold activate_credential, update_credentials, update_pairing; quiet_auto|].
  unfold activate_credential, update_credentials, update_pairing.
  apply wp_bind, wp_modify; [done|]. apply wp_bind, wp_modify; [done|].
  apply wp_bind, wp_get_db, wp_bind, wp_guard. intros _. apply wp_bind, wp_modify; [done|].
  apply wp_modify; [done|]. split; [|apply HQ]. cbn [tx_db with_db tx_files].
  by_change. apply ch_pairing.
  eapply pairing_change_eq; [by apply (pc_acknowledge (tx_db s) id p cid wc now)|].
  match goal with |- _ = set_db_pairings ?P (set_db_pairings _ (set_db_worker_credentials ?C _)) =>
    transitivity (set_db_pairings P (set_db_worker_credentials C (tx_db s))); [f_equal; [|f_equal]|reflexivity] end.
  - apply map_eq. intros i. cbn. rewrite !map_lookup_imap. destruct (decide (id = i)) as [<-|Hne].
    + rewrite lookup_alter_eq, Hp. cbn. unfold acknowledged_pairing. rewrite bool_decide_true by done. cbn.
      by rewrite andb_false_r.
    + rewrite lookup_alter_ne by done. destruct (db_pairings (tx_db s) !! i) as [x|]; [|done]. cbn.
      unfold acknowledged_pairing. rewrite !(bool_decide_false (i = id)) by congruence. cbn.
      by rewrite andb_true_r.
  - apply map_eq. intros i. cbn. rewrite !map_lookup_imap. by destruct (db_worker_credentials (tx_db s) !! i).
Qed.
(** A credential that may acknowledge its pairing: unrevoked, staged by a consumed,
    live pairing of its node or active under an acknowledged one. *)
Definition acknowledging (db : Db) (credential : rstr) (id node : Uuid) : Prop :=
  ∃ i wc p, db_worker_credentials db !! i = Some wc ∧ wc_credential_hash wc = secret_hash credential ∧
    wc_pairing_id wc = id ∧ wc_node_id wc = node ∧ db_pairings db !! id = Some p ∧ acknowledgeable db wc p = true.
Lemma wp_preauthorize_ack env s credential :
  WP (preauthorize_pairing_ack credential) env s (λ _ _, ∃ id node, acknowledging (tx_db s) credential id node).
Proof.
  unfold preauthorize_pairing_ack. apply wp_bind, wp_get_db.
  destruct (credential_by_hash _ _) as [[i wc]|] eqn:Hc; [|apply wp_throw]. apply wp_guard.
  intros Hg%negb_false_iff%is_some_and_true. destruct Hg as (p & Hp & Hack).
  apply credential_by_hash_Some in Hc as [Hc Hh]. exists (wc_pairing_id wc), (wc_node_id wc), i, wc, p. by split_and!.
Qed.
Lemma wp_acknowledge env s credential id node sha :
  WP (acknowledge_pairing credential id node sha) env s (λ _ _,
    acknowledging (tx_db s) credential id node ∧ secret_hash credential = sha).
Proof.
  unfold acknowledge_pairing. apply wp_bind, wp_guard. intros [_ Hsha]%orb_false_iff.
  rewrite negb_bool_decide_false in Hsha. subst sha. cbv zeta.
  apply wp_bind, wp_utc_now, wp_bind, wp_get_db, wp_bind, wp_liftr. intros [cid p] Hf%ok_or_Ok.
  destruct (credential_by_hash _ _) as [[i wc]|] eqn:Hc; [|done]. cbn in Hf.
  destruct (db_pairings _ !! wc_pairing_id wc) as [p'|] eqn:Hp; [|done]. cbn in Hf.
  destruct (_ && _) eqn:E; [|done]. injection Hf as -> ->.
  rewrite !andb_true_iff, !bool_decide_eq_true in E. destruct E as [[E1 E2] E3].
  apply credential_by_hash_Some in Hc as [Hc Hh]. subst id node.
  eapply (wp_mono _ _ _ _ (λ _ _, True)); [|intros; split; [by exists cid, wc, p|done]]. apply wp_bind.
  eapply (wp_mono _ _ _ _ (λ _ _, True)).
  { destruct (pa_acknowledged_at p) eqn:Ha; [by apply wp_ret|].
    apply wp_bind, (wp_activate _ _ _ _ _ p); done. }
  intros ? s2 _ _. apply wp_bind, wp_commit. intros s3 _ _ _. apply wp_bind, wp_liftr. intros t _. by apply wp_ret.
Qed.
Lemma wp_revoke env s id : WP (revoke_pairing id) env s (λ _ _, True).
Proof.
  unfold revoke_pairing. cbv zeta. apply wp_bind, wp_utc_now, wp_bind, wp_get_db, wp_bind, wp_guard. intros Hg.
  apply is_none_false in Hg as [p Hp].
  apply wp_atomic; [unfold update_credentials, update_pairing; quiet_auto|]. unfold update_credentials, update_pairing.
  apply wp_bind, wp_modify; [done|]. apply wp_modify; [done|]. split; [|done]. cbn [tx_db with_db tx_files tick].
  by_change. apply ch_pairing. cbn in Hp. cbn [tx_db tick]. rewrite (alter_Some _ _ _ p) by done.
  eapply pairing_change_eq; [by apply (pc_revoke (tx_db s) id p)|]. cbn [tx_db with_db tick].
  match goal with |- _ = set_db_worker_credentials ?C (set_db_pairings ?P _) =>
    transitivity (set_db_worker_credentials C (set_db_pairings P (tx_db s))); [f_equal|reflexivity] end.
  apply map_eq. intros i. cbn. rewrite map_lookup_imap, lookup_fmap.
  by destruct (db_worker_credentials (tx_db s) !! i).
Qed.
End proofs.
