(* ===== verification/ControllerCalls.v ===== *)
(** The controller as a whole: every public method of [Store] in
    [crates/cyc-controller/src/store.rs] as a request, and the theorem that any
    request only composes atomic changes.

    [handle] gives each request its transaction; [calls] is the step relation of a
    controller that answers one request, [controls] its closure and [reachable] the
    controllers that a new one can become.  The theorems of [ControllerSafety] are
    inductions over the changes that [controls_moved] exposes. *)
From Stdlib Require Import ZArith NArith Lia String.
From stdpp Require Import base option list numbers sets gmap relations.
From S2P Require Import Prelude Text Crates Protocol Snapshot RunState JobSpec CanonicalJson Scheduler NodeState PlacementBinding WorkerReports WorkerRun Cleanup Onboarding ControllerDb Planning FleetNodes Leases NodeWrites Uploads CompletionEvidence RunControl FleetView Pairings TxLogic Changes ChangeProofs MethodProofs RunProofs PairingProofs.
Import TransitionEvidence.
Open Scope rust_scope.

(** A request, indexed by the type of its answer. *)
Inductive Request : Type → Type :=
| UpsertNode (node : Node) : Request unit
| TouchNode (id : Uuid) : Request unit
| ListNodes : Request (list Node)
| ListNodeViews : Request (list NodeMergeView)
| GetNodeConfig (id : Uuid) : Request StoredNodeConfig
| UpdateNodeConfig (id : Uuid) (revision : Z) (config : NodeConfig) : Request StoredNodeConfig
| CreatePairing (intended : option Uuid) : Request PairingSecret
| CreatePairingIdempotent (key : rstr) (requested : option Uuid) (url pem : rstr) : Request IdempotentPairing
| GetPairingStatus (id : Uuid) : Request StoredPairingStatus
| FailPairing (id : Uuid) (code : PairingFailureCodeV1.t) : Request unit
| PreauthorizePairing (code : rstr) : Request unit
| ConsumePairing (code : rstr) (id intended : Uuid) (sha : rstr) (node : Node) : Request PairedWorker
| PreauthorizePairingAck (credential : rstr) : Request unit
| AcknowledgePairing (credential : rstr) (id node : Uuid) (sha : rstr) : Request PairingAcknowledgement
| RevokePairing (id : Uuid) : Request unit
| AuthenticateWorker (credential : rstr) : Request Uuid
| RecordNodeReport (credential : rstr) (report : NodeReportRequest) : Request NodeReportOutcome
| PreauthorizeRunRoute (credential run_credential : rstr) (run : Uuid) (allow_completed : bool) : Request unit
| CreatePlan (job : JobSpec) (scheduler : Scheduler) : Request StoredPlan
| GetPlan (id : Uuid) : Request StoredPlan
| SubmitJob (job : JobSpec) (plan : option Uuid) (scheduler : Scheduler) : Request StoredJob
| ClaimJob (credential : rstr) (node : Node) : Request (option WorkerClaim)
| HeartbeatRun (credential run_credential : rstr) (run lease : Uuid) (version : N) (state : JobState.t) :
    Request WorkerHeartbeat
| WorkerTransition (credential run_credential : rstr) (run lease : Uuid) (version : N) (next : JobState.t) :
    Request StoredJob
| WorkerComplete (credential run_credential : rstr) (completion : RunCompletion) : Request StoredJob
| GetCompletion (run : Uuid) : Request StoredCompletion
| RecordCleanup (credential run_credential : rstr) (receipt : CleanupReceiptV1) : Request StoredCleanup
| GetCleanup (run : Uuid) : Request (option StoredCleanup)
| GetCleanupSnapshot (id : Uuid) : Request CleanupSnapshot
| PutSnapshot (digest : rstr) (size : N) (data : list N) : Request SnapshotMetadataV1
| GetSnapshotMetadata (digest : rstr) : Request SnapshotMetadataV1
| AuthorizeSnapshotDownload (credential run_credential : rstr) (run lease : Uuid) (digest : rstr) :
    Request SnapshotDownload
| PutLogChunk (credential run_credential : rstr) (run lease : Uuid) (stream : rstr) (offset : N) (sha : rstr)
    (data : list N) : Request LogChunk
| ListLogChunks (id : Uuid) : Request (list LogChunk)
| ReadLog (id : Uuid) (stream : rstr) : Request (list N)
| PutArtifact (credential run_credential : rstr) (run lease artifact : Uuid) (name sha : rstr)
    (data : list N) : Request StoredArtifact
| ListArtifacts (id : Uuid) : Request (list StoredArtifact)
| ReadArtifact (id artifact : Uuid) : Request (StoredArtifact * list N)
| GetJob (id : Uuid) : Request StoredJob
| GetJobByJob (id : Uuid) : Request StoredJob
| GetJobByRun (id : Uuid) : Request StoredJob
| ListJobs (limit : N) : Request (list StoredJob)
| TransitionRun (run : Uuid) (version : N) (next : JobState.t) (evidence : RunEvidence) : Request StoredJob
| CancelJob (id : Uuid) (version : option N) : Request StoredJob
| RenewLease (run : Uuid) : Request LeaseRenewal
| ReapExpiredLeases : Request N
| Ping : Request unit
| ListFleetNodeViews : Request (list FleetNodeView)
| ReadFleetSnapshot (limit : N) : Request FleetSnapshot.

Section calls.
Context `{UuidCrate, ChronoCrate, SerdeJsonCrate, !StoreSerde, DigestCrate}.

Definition handle {A} (r : Request A) : tx A :=
  match r with
  | UpsertNode node => upsert_node node
  | TouchNode id => touch_node id
  | ListNodes => list_nodes
  | ListNodeViews => list_node_views
  | GetNodeConfig id => get_node_config id
  | UpdateNodeConfig id revision config => update_node_config id revision config
  | CreatePairing intended => create_pairing_for intended
  | CreatePairingIdempotent key requested url pem => create_pairing_idempotent key requested url pem
  | GetPairingStatus id => get_pairing_status id
  | FailPairing id code => fail_pairing id code
  | PreauthorizePairing code => preauthorize_pairing code
  | ConsumePairing code id intended sha node => consume_pairing code id intended sha node
  | PreauthorizePairingAck credential => preauthorize_pairing_ack credential
  | AcknowledgePairing credential id node sha => acknowledge_pairing credential id node sha
  | RevokePairing id => revoke_pairing id
  | AuthenticateWorker credential => authenticate_worker credential
  | RecordNodeReport credential report => record_node_report credential report
  | PreauthorizeRunRoute credential run_credential run allow =>
      preauthorize_run_route credential run_credential run allow
  | CreatePlan job scheduler => create_plan job scheduler
  | GetPlan id => get_plan id
  | SubmitJob job plan scheduler => submit_job job plan scheduler
  | ClaimJob credential node => claim_job credential node
  | HeartbeatRun credential run_credential run lease version state =>
      worker_heartbeat credential run_credential run lease version state
  | WorkerTransition credential run_credential run lease version next =>
      worker_transition credential run_credential run lease version next
  | WorkerComplete credential run_credential completion =>
      worker_complete_managed credential run_credential completion
  | GetCompletion run => get_completion run
  | RecordCleanup credential run_credential receipt => record_cleanup credential run_credential receipt
  | GetCleanup run => get_cleanup run
  | GetCleanupSnapshot id => get_cleanup_snapshot id
  | PutSnapshot digest size data => put_snapshot digest size data
  | GetSnapshotMetadata digest => get_snapshot_metadata digest
  | AuthorizeSnapshotDownload credential run_credential run lease digest =>
      authorize_snapshot_download credential run_credential run lease digest
  | PutLogChunk credential run_credential run lease stream offset sha data =>
      put_log_chunk credential run_credential run lease stream offset sha data
  | ListLogChunks id => list_log_chunks id
  | ReadLog id stream => read_log id stream
  | PutArtifact credential run_credential run lease artifact name sha data =>
      put_artifact credential run_credential run lease artifact name sha data
  | ListArtifacts id => list_artifacts id
  | ReadArtifact id artifact => read_artifact id artifact
  | GetJob id => get_job id
  | GetJobByJob id => get_job_by_job id
  | GetJobByRun id => get_job_by_run id
  | ListJobs limit => list_jobs limit
  | TransitionRun run version next evidence => transition_run_with_evidence run version next evidence
  | CancelJob id version => cancel_job id version
  | RenewLease run => renew_lease run
  | ReapExpiredLeases => reap_expired_leases
  | Ping => mret tt
  | ListFleetNodeViews => list_fleet_node_views
  | ReadFleetSnapshot limit => fleet_snapshot limit
  end.

(** ** Every request is a sequence of atomic changes *)
Lemma list_views_reads : reads list_node_views.
Proof. unfold list_node_views, list_all_node_views. reads_auto. Qed.
Lemma list_nodes_reads : reads list_nodes.
Proof.
  unfold list_nodes. apply reads_bind; [apply list_views_reads|]. intros views.
  apply reads_map_tx, view_node_reads.
Qed.
Lemma node_config_reads id : reads (get_node_config id).
Proof. unfold get_node_config. reads_auto. Qed.
Lemma status_reads id : reads (get_pairing_status id).
Proof. unfold get_pairing_status. reads_auto. Qed.
Lemma preauthorize_reads code : reads (preauthorize_pairing code).
Proof. unfold preauthorize_pairing. reads_auto. Qed.
Lemma preauthorize_ack_reads credential : reads (preauthorize_pairing_ack credential).
Proof. unfold preauthorize_pairing_ack. reads_auto. Qed.
Lemma get_completion_reads run : reads (get_completion run).
Proof. unfold get_completion. apply reads_bind; [apply completion_reads|]. reads_auto. Qed.
Lemma chunk_row_reads run stream offset row : reads (log_chunk run stream offset row).
Proof. unfold log_chunk. reads_auto. Qed.
Lemma list_chunks_reads id : reads (list_log_chunks id).
Proof.
  unfold list_log_chunks. apply reads_bind; [apply prefer_reads|]. intros stored.
  apply reads_bind; [apply reads_get_db|]. intros db. cbv zeta. apply reads_map_tx. intros ?. apply chunk_row_reads.
Qed.
Lemma read_chunks_reads rows : ∀ output, reads (read_chunks output rows).
Proof.
  induction rows as [|[offset row] rows IH]; intros output; cbn; [apply reads_ret|].
  apply reads_bind; [apply reads_guard|]. intros ?. apply reads_bind; [apply object_reads|]. intros data.
  apply reads_bind; [apply reads_guard|]. intros ?. apply IH.
Qed.
Lemma read_log_reads id stream : reads (read_log id stream).
Proof.
  unfold read_log. apply reads_bind; [apply reads_guard|]. intros ?. apply reads_bind; [apply prefer_reads|].
  intros ?. apply reads_bind; [apply reads_get_db|]. intros ?. apply read_chunks_reads.
Qed.
Lemma stored_artifact_reads id row : reads (stored_artifact id row).
Proof. unfold stored_artifact. reads_auto. Qed.
Lemma list_artifacts_reads id : reads (list_artifacts id).
Proof.
  unfold list_artifacts. apply reads_bind; [apply prefer_reads|]. intros stored.
  apply reads_bind; [apply reads_get_db|]. intros db. apply reads_map_tx. intros ?. apply stored_artifact_reads.
Qed.
Lemma read_artifact_reads id artifact : reads (read_artifact id artifact).
Proof.
  unfold read_artifact. repeat first
    [ apply prefer_reads | apply artifact_reads | apply object_reads | apply stored_artifact_reads
    | apply reads_bind; [|intros ?] | solve [auto with reads] | progress cbv zeta | destruct (_ : bool)
    | case_match ].
Qed.
Lemma snapshot_metadata_reads digest : reads (get_snapshot_metadata digest).
Proof.
  unfold get_snapshot_metadata. repeat first
    [ apply snapshot_reads | apply verify_snapshot_reads
    | apply reads_bind; [|intros ?] | solve [auto with reads] | progress cbv zeta | case_match ].
Qed.

Lemma fleet_views_reads now : reads (list_fleet_node_views_tx now).
Proof.
  unfold list_fleet_node_views_tx. apply reads_bind; [apply reads_get_db|]. intros db.
  apply reads_bind; [apply nodes_read|]. intros scheduling.
  apply reads_bind; [unfold list_fleet_reservations, reservation_view; reads_auto|]. intros reservations.
  apply reads_map_tx. intros r. unfold fleet_node_view, effective_resources. reads_auto.
Qed.
Lemma fleet_read_reads limit : reads (
  revision ← read_safe_fleet_revision; observed_at ← utc_now; read_fleet_snapshot_tx revision observed_at limit).
Proof.
  apply reads_bind; [unfold read_safe_fleet_revision; reads_auto|]. intros revision.
  apply reads_bind; [reads_auto|]. intros observed_at. unfold read_fleet_snapshot_tx.
  apply reads_bind; [unfold list_all_node_views; reads_auto|]. intros views.
  apply reads_bind; [apply reads_map_tx, view_node_reads|]. intros nodes.
  apply reads_bind; [apply fleet_views_reads|]. intros node_views.
  apply reads_bind; [apply list_jobs_reads|]. intros jobs. apply reads_ret.
Qed.
Lemma wp_fleet_snapshot limit env s : consistent (tx_db s) → wp moved (fleet_snapshot limit) env s (λ _ _, True).
Proof.
  intros Hc. apply wp_bind, (wp_expire_now moved_leases); [exact Hc|]. intros _ s1 _.
  apply wp_bind, wp_commit. intros s2 _ _ _. apply wp_reads; [apply fleet_read_reads|done].
Qed.
Lemma wp_fleet_views env s : consistent (tx_db s) → wp moved list_fleet_node_views env s (λ _ _, True).
Proof.
  intros Hc. unfold list_fleet_node_views. apply wp_bind, wp_utc_now, wp_bind, (wp_expire_leases moved_leases); [exact Hc|].
  intros _ s1 _. apply wp_reads; [apply fleet_views_reads|done].
Qed.

(** A request served from a consistent database. *)
Lemma wp_handle {A} (r : Request A) env s : consistent (tx_db s) → wp moved (handle r) env s (λ _ _, True).
Proof.
  intros Hc. destruct r; cbn [handle];
    lazymatch goal with
    | |- context [upsert_node] => by apply (wp_upsert_node moved_nodes)
    | |- context [touch_node] => apply (wp_touch_node moved_nodes)
    | |- context [update_node_config] => apply (wp_update_config moved_nodes)
    | |- context [create_pairing_for] => apply wp_create_pairing
    | |- context [create_pairing_idempotent] => eapply wp_mono; [apply wp_create_idempotent|done]
    | |- context [fail_pairing] => apply wp_fail_pairing
    | |- context [consume_pairing] => eapply wp_mono; [apply wp_consume|done]
    | |- context [acknowledge_pairing] => eapply wp_mono; [apply wp_acknowledge|done]
    | |- context [revoke_pairing] => apply wp_revoke
    | |- context [authenticate_worker] => eapply wp_mono; [apply wp_authenticate_worker|done]
    | |- context [record_node_report] => eapply wp_mono; [by apply wp_node_report|done]
    | |- context [preauthorize_run_route] => eapply wp_mono; [apply wp_preauthorize|done]
    | |- context [create_plan] => by apply wp_create_plan
    | |- context [submit_job] => by apply wp_submit
    | |- context [claim_job] => eapply wp_mono; [by apply wp_claim_job|done]
    | |- context [worker_heartbeat] => eapply wp_mono; [by apply wp_heartbeat|done]
    | |- context [worker_transition] => eapply wp_mono; [by apply wp_worker_transition|done]
    | |- context [worker_complete_managed] => eapply wp_mono; [by apply wp_complete|done]
    | |- context [record_cleanup] => eapply wp_mono; [by apply wp_record_cleanup|done]
    | |- context [put_snapshot] => apply wp_put_snapshot
    | |- context [authorize_snapshot_download] => eapply wp_mono; [by apply wp_authorize_snapshot|done]
    | |- context [put_log_chunk] => eapply wp_mono; [by apply wp_put_log|done]
    | |- context [put_artifact] => eapply wp_mono; [by apply wp_put_artifact|done]
    | |- context [get_cleanup_snapshot] => apply wp_expire_then; [done|apply snapshot_status_reads]
    | |- context [get_job] => apply wp_expire_then; [done|apply prefer_reads]
    | |- context [get_job_by_job] => by apply wp_expire_then
    | |- context [get_job_by_run] => by apply wp_expire_then
    | |- context [list_jobs] => apply wp_expire_then; [done|apply list_jobs_reads]
    | |- context [transition_run_with_evidence] => by apply wp_transition_run_evidence
    | |- context [cancel_job] => eapply wp_mono; [by apply wp_cancel_job|done]
    | |- context [renew_lease] => by apply wp_renew_lease
    | |- context [fleet_snapshot] => by apply wp_fleet_snapshot
    | |- context [list_fleet_node_views] => by apply wp_fleet_views
    | |- context [reap_expired_leases] => apply (wp_expire_now moved_leases); done
    | |- _ => apply wp_reads; [|done]
    end.
  - apply list_nodes_reads.
  - apply list_views_reads.
  - apply node_config_reads.
  - apply status_reads.
  - apply preauthorize_reads.
  - apply preauthorize_ack_reads.
  - apply plan_reads.
  - apply get_completion_reads.
  - apply cleanup_reads.
  - apply snapshot_metadata_reads.
  - apply list_chunks_reads.
  - apply read_log_reads.
  - apply list_artifacts_reads.
  - apply read_artifact_reads.
  - apply reads_ret.
Qed.

(** ** Controllers *)

(** One request, with any clock and any fresh identifiers. *)
Definition calls (c c' : Controller) : Prop :=
  ∃ env A (r : Request A), c' = (run env (handle r) c).1.
(** A new controller: empty tables, no files. *)
Definition new_controller (seed : rstr) : Controller :=
  {| ctl_db := empty_db seed; ctl_files := {| fs_objects := ∅; fs_snapshots := ∅ |} |}.
Definition reachable (c : Controller) : Prop := ∃ seed, rtc calls (new_controller seed) c.

Lemma empty_consistent seed : consistent (empty_db seed).
Proof. split; done. Qed.
Lemma calls_moved c c' :
  consistent (ctl_db c) → calls c c' →
  moved (ctl_files c') (ctl_db c) (ctl_db c') ∧ files_le (ctl_files c) (ctl_files c').
Proof.
  intros Hc (env & A & r & ->). pose proof (run_moves moved env (handle r) c (λ _ _, True)) as Hrun.
  assert (wp moved (handle r) env _ (λ _ _, True)) as Hwp by exact (wp_handle r env {| tx_db := ctl_db c;
    tx_committed := ctl_db c; tx_files := ctl_files c; tx_tick := 0 |} Hc).
  specialize (Hrun Hwp). destruct (run env (handle r) c) as [c' res]. tauto.
Qed.
Lemma controls_moved c c' :
  consistent (ctl_db c) → rtc calls c c' →
  moved (ctl_files c') (ctl_db c) (ctl_db c') ∧ files_le (ctl_files c) (ctl_files c').
Proof.
  intros Hc Hr. revert Hc. induction Hr as [c|c1 c2 c3 Hcall _ IH]; intros Hc; [done|].
  destruct (calls_moved _ _ Hc Hcall) as [M1 F1].
  destruct IH as [M2 F2]; [by eapply moved_consistent|]. split; [|by etrans].
  etrans; [|exact M2]. by eapply movement_mono.
Qed.
Lemma reachable_consistent c : reachable c → consistent (ctl_db c).
Proof.
  intros [seed Hr]. eapply moved_consistent; [|apply (empty_consistent seed)].
  by apply (controls_moved (new_controller seed) c (empty_consistent seed)).
Qed.
End calls.
