(* ===== verification/RunSafety.v ===== *)
(** What no sequence of requests can do to runs, leases, evidence and claims.

    Each theorem follows a row through [ControllerCalls.calls]: a relation between
    its value before and after that contains every atomic change and is transitive. *)
From Stdlib Require Import ZArith NArith Lia String.
From stdpp Require Import base option list numbers sets gmap relations.
From S2P Require Import Prelude Text Crates Protocol Snapshot RunState JobSpec CanonicalJson NodeState PlacementBinding WorkerReports WorkerRun Cleanup Onboarding ControllerDb FleetNodes Leases NodeWrites Uploads CompletionEvidence RunControl Pairings TxLogic Changes ChangeProofs MethodProofs RunProofs PairingProofs ControllerCalls.
Open Scope rust_scope.

(** Rows of a table only move along [P]. *)
Definition table_follows {K A} `{Countable K} (P : A → A → Prop) (m m' : gmap K A) : Prop :=
  ∀ k x, m !! k = Some x → ∃ x', m' !! k = Some x' ∧ P x x'.
#[export] Instance table_follows_preorder {K A} `{Countable K} (P : A → A → Prop) `{!PreOrder P} :
  PreOrder (table_follows (K := K) P).
Proof.
  split; [intros m k x Hx; by exists x|]. intros m1 m2 m3 M1 M2 k x Hx.
  destruct (M1 _ _ Hx) as (y & Hy & ?), (M2 _ _ Hy) as (z & Hz & ?). exists z. split; [done|by etrans].
Qed.
Section tables.
Context {K A : Type} `{Countable K} (P : A → A → Prop) `{!PreOrder P}.
Lemma table_follows_update (m : gmap K A) k x x' :
  m !! k = Some x → P x x' → table_follows P m (<[k := x']> m).
Proof.
  intros Hk Hp i y Hi. destruct (decide (i = k)) as [->|Hne].
  - exists x'. rewrite lookup_insert_eq. split; [done|]. by simplify_eq.
  - exists y. by rewrite lookup_insert_ne.
Qed.
Lemma table_follows_new (m : gmap K A) k x : m !! k = None → table_follows P m (<[k := x]> m).
Proof. intros Hk i y Hi. exists y. rewrite lookup_insert_ne; [done|congruence]. Qed.
Lemma table_follows_map (m : gmap K A) f : (∀ k x, m !! k = Some x → P x (f k x)) →
  table_follows P m (map_imap (λ k x, Some (f k x)) m).
Proof. intros Hf k x Hx. exists (f k x). rewrite map_lookup_imap, Hx. split; [done|by apply Hf]. Qed.
Lemma table_follows_fmap (m : gmap K A) (f : A → A) : (∀ k x, m !! k = Some x → P x (f x)) →
  table_follows P m (f <$> m).
Proof. intros Hf k x Hx. exists (f x). rewrite lookup_fmap, Hx. split; [done|by eapply Hf]. Qed.
End tables.

Ltac table_update := eapply table_follows_update; [apply _|eassumption|].
Ltac table_new := apply table_follows_new; [apply _|assumption].

(** A preorder on databases that contains every change is kept by every request. *)
Section closure.
Context `{UuidCrate, ChronoCrate, SerdeJsonCrate, !StoreSerde, DigestCrate}.
Lemma controls_closed (R : relation Db) `{!PreOrder R} c c' :
  (∀ f d d', consistent d → change f d d' → R d d') → reachable c → rtc calls c c' → R (ctl_db c) (ctl_db c').
Proof.
  intros Hch Hreach Hr. pose proof (reachable_consistent c Hreach) as Hc.
  destruct (controls_moved c c' Hc Hr) as [Hm _]. change (rtc (change (ctl_files c')) (ctl_db c) (ctl_db c')) in Hm.
  revert Hc. induction Hm as [d|d1 d2 d3 Hd _ IH]; [done|]. intros Hc. etrans; [by eapply Hch|].
  apply IH. by eapply consistent_change.
Qed.
(** An invariant that every change keeps holds of every reachable controller. *)
Lemma reachable_invariant (I : Files → Db → Prop) :
  (∀ seed f, I f (empty_db seed)) → (∀ f d d', consistent d → I f d → change f d d' → I f d') →
  ∀ c, reachable c → I (ctl_files c) (ctl_db c).
Proof.
  intros Hempty Hch c [seed Hr].
  destruct (controls_moved (new_controller seed) c (empty_consistent seed) Hr) as [Hm _].
  change (rtc (change (ctl_files c)) (empty_db seed) (ctl_db c)) in Hm.
  generalize (empty_consistent seed) (Hempty seed (ctl_files c)). induction Hm as [d|d1 d2 d3 Hd _ IH]; [done|].
  intros Hc Hi. apply IH; [by eapply consistent_change|by eapply Hch].
Qed.
End closure.

(** ** The life of a run *)

(** What may become of a job's row. *)
Record row_follows (row row' : JobRow) : Prop := {
  rf_job : jr_job row' = jr_job row ∧ jr_job_id row' = jr_job_id row ∧ jr_created_at row' = jr_created_at row ∧
    jr_lease_id row' = jr_lease_id row;
  rf_run : run_id (jr_run row') = run_id (jr_run row) ∧ run_job_id (jr_run row') = run_job_id (jr_run row);
  rf_state : rtc (λ s s', JobState.can_transition_to s s' = true) (row_state row) (row_state row');
  rf_terminal : JobState.is_terminal (row_state row) = true → row' = row;
  rf_version : row' = row ∨ (0 ≤ jr_version row ∧ jr_version row' ≤ i64_max ∧
    (jr_version row < jr_version row' ∨ jr_version row' = i64_max))%Z;
  rf_placed : row_state row ≠ JobState.Queued →
    run_node_id (jr_run row') = run_node_id (jr_run row) ∧ jr_plan_binding row' = jr_plan_binding row;
  rf_cancel : jr_cancel_requested row = true → jr_cancel_requested row' = true ∧
    (row_state row' = row_state row ∨ row_state row' = JobState.Cancelled ∨ row_state row' = JobState.Failed)
}.
Lemma can_transition_unqueued s s' : JobState.can_transition_to s s' = true → s' ≠ JobState.Queued.
Proof. by destruct s, s'. Qed.
Lemma unqueued_stays s s' :
  rtc (λ s s', JobState.can_transition_to s s' = true) s s' → s ≠ JobState.Queued → s' ≠ JobState.Queued.
Proof.
  induction 1 as [|s1 s2 s3 Hs _ IH]; [done|]. intros _. apply IH. by eapply can_transition_unqueued.
Qed.
#[export] Instance row_follows_preorder : PreOrder row_follows.
Proof.
  split.
  - intros row. split; [done|done|reflexivity|done|by left|done|auto].
  - intros r1 r2 r3 [J1 R1 S1 T1 V1 P1 C1] [J2 R2 S2 T2 V2 P2 C2]. split.
    + intuition congruence.
    + intuition congruence.
    + by etrans.
    + intros Ht. specialize (T1 Ht). subst r2. by apply T2.
    + destruct V1 as [->|V1]; [done|]. destruct V2 as [->|V2]; [by right|]. right. lia.
    + intros Hq. destruct (P1 Hq) as [<- <-]. apply P2. by eapply unqueued_stays.
    + intros Hc. destruct (C1 Hc) as [Hc2 Hs2]. destruct (C2 Hc2) as [Hc3 Hs3]. split; [done|].
      destruct Hs3 as [Hs3|Hs3]; [rewrite Hs3; exact Hs2|by right].
Qed.
Lemma job_write_follows row row' : job_write row row' → row_follows row row'.
Proof.
  intros [J I Cr L R RJ Li S N B C [V0 V]]. split; try tauto.
  - destruct S as [->|?]; [done|by apply rtc_once].
  - rewrite Li. done.
  - right. rewrite V. unfold i64_max. lia.
Qed.

Section jobs.
Context `{UuidCrate, ChronoCrate, SerdeJsonCrate, !StoreSerde, DigestCrate}.

Definition jobs_follow (d d' : Db) : Prop := table_follows row_follows (db_jobs d) (db_jobs d').
#[export] Instance jobs_follow_preorder : PreOrder jobs_follow.
Proof. split; unfold jobs_follow; [intros d; reflexivity|intros d1 d2 d3; apply transitivity]. Qed.
Lemma change_jobs f d d' : change f d d' → jobs_follow d d'.
Proof.
  unfold jobs_follow.
  destruct 1 as [d d' Hc|d d' Hn|d d' Hp|d i r Hr Hn|d i l Hl Hp Hv|d i l l' Hl Hw|d r c t Hc Hu|d r c Hc|d r row o Hr Hob Hf|d r row Hr Hrp
    |d i row now Hr Hu|d r s off row Hr Hn|d i row Hr Hn|d dg row Hr Hn|d h now]; try done.
  - destruct Hc; try done. table_update. by apply job_write_follows.
  - by rewrite (proj1 (node_change_tables _ _ Hn)).
  - by rewrite (proj1 (pairing_change_tables _ _ Hp)).
  - table_new.
Qed.

(** ** Evidence *)

(** What is only ever added; a plan is used at most once, and an obligation keeps
    its binding and, once discharged, everything. *)
Definition plan_follows (p p' : PlanRow) : Prop :=
  p' = p ∨ plr_used_at p = None ∧ ∃ now, p' = set_plr_used_at (Some now) p.
Definition obligation_follows (o o' : ObligationRow) : Prop := o' = o ∨ obligation_write o o'.
#[export] Instance plan_follows_preorder : PreOrder plan_follows.
Proof.
  split; [by left|]. intros p1 p2 p3 [->|[Hn [t ->]]] [->|[Hn' [t' ->]]]; [by left|right; eauto..|]. done.
Qed.
#[export] Instance obligation_follows_preorder : PreOrder obligation_follows.
Proof.
  split; [by left|]. intros o1 o2 o3 [->|W1]; [done|]. intros [->|W2]; [by right|]. right.
  destruct W1, W2. split; congruence.
Qed.
Record evidence_kept (d d' : Db) : Prop := {
  ek_completions : db_completions d ⊆ db_completions d';
  ek_cleanups : db_cleanups d ⊆ db_cleanups d';
  ek_logs : db_log_chunks d ⊆ db_log_chunks d';
  ek_artifacts : db_artifacts d ⊆ db_artifacts d';
  ek_snapshots : db_snapshots d ⊆ db_snapshots d';
  ek_attempts : db_attempts d ⊆ db_attempts d';
  ek_plans : table_follows plan_follows (db_plans d) (db_plans d');
  ek_obligations : table_follows obligation_follows (db_obligations d) (db_obligations d')
}.
#[export] Instance evidence_kept_preorder : PreOrder evidence_kept.
Proof.
  split; [by split|]. intros d1 d2 d3 [] []. split; by etrans.
Qed.
Ltac evidence_step := split; cbn; try done; try (by apply insert_subseteq).
Lemma lease_change_evidence d d' : lease_change d d' → evidence_kept d d'.
Proof.
  destruct 1; try done; evidence_step.
  - table_update. by right.
  - table_new.
Qed.
Lemma change_evidence f d d' : change f d d' → evidence_kept d d'.
Proof.
  destruct 1 as [d d' Hc|d d' Hn|d d' Hp|d i r Hr Hn|d i l Hl Hp Hv|d i l l' Hl Hw|d r c t Hc Hu|d r c Hc|d r row o Hr Hob Hf|d r row Hr Hrp
    |d i row now Hr Hu|d r s off row Hr Hn|d i row Hr Hn|d dg row Hr Hn|d h now]; try (by evidence_step).
  - by apply lease_change_evidence.
  - by destruct Hn.
  - by destruct Hp.
  - evidence_step. table_new.
  - evidence_step. table_update. right. eauto.
Qed.

(** ** Leases *)

(** A lease is never lost, and one whose run is over and waits for its cleanup
    keeps its resources until the obligation is discharged. *)
Definition lease_held (l : LeaseRow) : Prop :=
  lr_phase l = LeasePhase.CleanupPending ∧ lr_released_at l = None.
Record leases_follow (d d' : Db) : Prop := {
  lf_kept : ∀ id l, db_leases d !! id = Some l → ∃ l', db_leases d' !! id = Some l' ∧ lr_run_id l' = lr_run_id l;
  lf_held : ∀ id l, db_leases d !! id = Some l → lr_phase l = LeasePhase.CleanupPending →
    ∃ l', db_leases d' !! id = Some l' ∧ (l' = l ∨ lr_released_at l = None ∧ discharged d' id ∧
      ∃ now, l' = set_lr_released_at (Some now) l);
  lf_discharged : ∀ id, discharged d id → discharged d' id
}.
#[export] Instance leases_follow_preorder : PreOrder leases_follow.
Proof.
  split; [intros d; split; eauto|]. intros d1 d2 d3 [K1 P1 D1] [K2 P2 D2]. split; [| |by auto].
  - intros id l Hl. destruct (K1 _ _ Hl) as (l1 & Hl1 & <-). by apply K2.
  - intros id l Hl Hp. destruct (P1 _ _ Hl Hp) as (l1 & Hl1 & [->|(Hn & Hd & now & ->)]).
    + by apply P2.
    + destruct (P2 _ _ Hl1 Hp) as (l2 & Hl2 & [->|(Hn2 & _)]); [|done].
      eexists. split; [done|]. right. split_and!; eauto.
Qed.
Lemma discharged_follows d d' id :
  table_follows obligation_follows (db_obligations d) (db_obligations d') → discharged d id → discharged d' id.
Proof.
  intros Ht (run & o & Ho & Hl & [t Hr]). destruct (Ht _ _ Ho) as (o' & Ho' & [->|W]).
  - exists run, o. split_and!; eauto.
  - destruct W as [? ? ? ? ? ? ? Hopen]. congruence.
Qed.
Lemma leases_same d d' : db_leases d' = db_leases d →
  table_follows obligation_follows (db_obligations d) (db_obligations d') → leases_follow d d'.
Proof.
  intros El Ho. split; rewrite ?El; [by eauto|by eauto|]. intros id. by apply discharged_follows.
Qed.
Lemma lease_write_leases d id l l' :
  consistent d → db_leases d !! id = Some l → lease_write d id l l' →
  leases_follow d (set_db_leases (<[id := l']> (db_leases d)) d).
Proof.
  intros Hc Hl Hw. pose proof (lease_write_run _ _ _ _ Hw) as Hrun. split; cbn; [| |done].
  - intros i x Hx. destruct (decide (i = id)) as [->|Hne].
    + exists l'. rewrite lookup_insert_eq. split; [done|]. congruence.
    + exists x. by rewrite lookup_insert_ne.
  - intros i x Hx Hp. destruct (decide (i = id)) as [->|Hne].
    2:{ exists x. rewrite lookup_insert_ne by done. auto. }
    assert (x = l) as -> by congruence. exists l'. rewrite lookup_insert_eq. split; [done|].
    destruct Hw as [now Hn Hd|t Hn Hd|t Hn Hd|t Hn Hd _|l' _ _ Hd _ _ Hq]; try (destruct Hd; congruence); try congruence.
    + right. destruct Hd as [?|Hd]; [done|]. eauto.
    + exfalso. destruct (cs_cleanup _ Hc _ _ Hl Hp) as (row & Hrow & Ht), Hq as (row' & Hrow' & Hs).
      assert (row' = row) as -> by congruence. apply bool_decide_eq_true in Hs. by rewrite Hs in Ht.
Qed.
Lemma change_leases f d d' : consistent d → change f d d' → leases_follow d d'.
Proof.
  intros Hc Hch. pose proof (ek_obligations _ _ (change_evidence _ _ _ Hch)) as Ho.
  destruct Hch as [d d' Hch|d d' Hn|d d' Hp|d i r Hr Hn|d i l Hl Hp Hv|d i l l' Hl Hw|d r c t Hcl Hu|d r c Hcl|d r row o Hr Hob Hf|d r row Hr Hrp
    |d i row now Hr Hu|d r s off row Hr Hn|d i row Hr Hn|d dg row Hr Hn|d h now]; try (by apply leases_same).
  - destruct Hch; try (by apply leases_same). by eapply lease_write_leases.
  - apply leases_same; [by apply (node_change_tables _ _ Hn)|done].
  - apply leases_same; [by apply (pairing_change_tables _ _ Hp)|done].
  - split; cbn; [| |done]; intros j x Hx; [|intros _]; exists x; rewrite lookup_insert_ne by congruence; auto.
  - by eapply lease_write_leases.
Qed.

(** ** Revocation *)
Definition claim_follows (c c' : WorkerClaimRow) : Prop :=
  wl_node_id c' = wl_node_id c ∧ wl_lease_id c' = wl_lease_id c ∧ wl_credential_hash c' = wl_credential_hash c ∧
  (is_Some (wl_revoked_at c) → c' = c).
Definition credential_follows (c c' : WorkerCredentialRow) : Prop :=
  wc_pairing_id c' = wc_pairing_id c ∧ wc_node_id c' = wc_node_id c ∧
  wc_credential_hash c' = wc_credential_hash c ∧
  (is_Some (wc_revoked_at c) → wc_revoked_at c' = wc_revoked_at c ∧ wc_activated_at c' = wc_activated_at c).
Definition pairing_follows (p p' : PairingRow) : Prop :=
  pa_code_hash p' = pa_code_hash p ∧ pa_intended_node_id p' = pa_intended_node_id p ∧
  pa_created_at p' = pa_created_at p ∧ pa_expires_at p' = pa_expires_at p ∧
  (is_Some (pa_revoked_at p) → pa_revoked_at p' = pa_revoked_at p) ∧
  (is_Some (pa_used_at p) → pa_used_at p' = pa_used_at p ∧ pa_node_id p' = pa_node_id p) ∧
  (is_Some (pa_acknowledged_at p) → pa_acknowledged_at p' = pa_acknowledged_at p) ∧
  (is_Some (pa_failed_at p) → pa_failed_at p' = pa_failed_at p ∧ pa_failure_code p' = pa_failure_code p ∧
     pa_used_at p' = pa_used_at p).
#[export] Instance claim_follows_preorder : PreOrder claim_follows.
Proof.
  split; [by intros c|]. intros c1 c2 c3 (N1 & L1 & H1' & R1) (N2 & L2 & H2' & R2).
  split_and!; [congruence..|]. intros Hr. specialize (R1 Hr). subst c2. auto.
Qed.
#[export] Instance credential_follows_preorder : PreOrder credential_follows.
Proof.
  split; [by intros c|]. intros c1 c2 c3 (P1 & N1 & H1' & R1) (P2 & N2 & H2' & R2).
  split_and!; [congruence..|]. intros Hr. destruct (R1 Hr) as [E1 E2].
  destruct R2 as [E3 E4]; [by rewrite E1|]. split; congruence.
Qed.
#[export] Instance pairing_follows_preorder : PreOrder pairing_follows.
Proof.
  split; [by intros p|]. intros p1 p2 p3 (C1 & I1 & A1 & B1 & R1 & U1 & K1 & F1) (C2 & I2 & A2 & B2 & R2 & U2 & K2 & F2).
  split_and!; [congruence..| | | |].
  - intros Hs. rewrite R2; [auto|]. by rewrite R1.
  - intros Hs. destruct (U1 Hs) as [E1 E2]. destruct U2 as [E3 E4]; [by rewrite E1|]. split; congruence.
  - intros Hs. rewrite K2; [auto|]. by rewrite K1.
  - intros Hs. destruct (F1 Hs) as (E1 & E2 & E3). destruct F2 as (E4 & E5 & E6); [by rewrite E1|].
    split_and!; congruence.
Qed.
Record access_follows (d d' : Db) : Prop := {
  af_claims : table_follows claim_follows (db_worker_claims d) (db_worker_claims d');
  af_credentials : table_follows credential_follows (db_worker_credentials d) (db_worker_credentials d');
  af_pairings : table_follows pairing_follows (db_pairings d) (db_pairings d');
  af_operations : db_pairing_operations d ⊆ db_pairing_operations d';
  af_seed : db_pairing_seed d' = db_pairing_seed d
}.
#[export] Instance access_follows_preorder : PreOrder access_follows.
Proof. split; [by split|]. intros d1 d2 d3 [] []. split; [by etrans..|congruence]. Qed.
Lemma lease_change_access d d' : lease_change d d' → access_follows d d'.
Proof.
  destruct 1; try done; split; cbn; try done. table_update. split_and!; try done. intros [? Hs]. cbn in *. congruence.
Qed.
Lemma node_change_access d d' : node_change d d' → access_follows d d'.
Proof. by intros []. Qed.
Lemma is_Some_None {A} (P : Prop) (o : option A) : o = None → is_Some o → P.
Proof. intros -> [? [=]]. Qed.
Lemma retired_follows pairing node now c : credential_follows c (retired_credential pairing node now c).
Proof.
  unfold retired_credential. destruct (_ && _) eqn:E; [|done]. rewrite !andb_true_iff, is_none_true in E.
  split_and!; try done. apply is_Some_None. tauto.
Qed.
Lemma revoked_follows pairing now c : credential_follows c (revoked_credential pairing now c).
Proof.
  unfold revoked_credential. case_bool_decide; [|done]. split_and!; try done. cbn. by intros [t ->].
Qed.
Lemma acknowledged_follows pairing node now i p :
  (i = pairing → pa_acknowledged_at p = None) → pairing_follows p (acknowledged_pairing pairing node now i p).
Proof.
  intros Hack. unfold acknowledged_pairing. case_bool_decide.
  - split_and!; try done. cbn. by apply is_Some_None, Hack.
  - destruct (_ && _) eqn:E; [|done]. rewrite andb_true_iff, is_none_true in E.
    split_and!; try done. apply is_Some_None. tauto.
Qed.
Lemma pairing_change_access d d' : pairing_change d d' → access_follows d d'.
Proof.
  destruct 1 as [d id p Hp Hf Hr|d key row Hk|d id p now code Hp Hf Hr Hn|d id p cid wc now Hp Hf Hr Hn Hnode Hc Hu Hpi Hni Ha Hre
    |d id p cid wc now Hp Hc Hack Hid Hn|d id p now Hp]; split; cbn; try done.
  - table_new.
  - by apply insert_subseteq.
  - destruct Hf as (F1 & F2 & F3 & F4 & F5). table_update. split_and!; try done. cbn. by apply is_Some_None.
  - table_new.
  - destruct Hf as (F1 & F2 & F3 & F4 & F5). table_update. split_and!; try done; cbn; by apply is_Some_None.
  - apply table_follows_map. intros i c Hi. etrans; [apply retired_follows|]. unfold activated_credential.
    case_bool_decide as Heq; [|done]. split_and!; try done. subst i. assert (c = wc) as -> by congruence.
    unfold retired_credential. rewrite (bool_decide_true (wc_pairing_id wc = id)) by done. cbn.
    rewrite andb_false_r. cbn. apply is_Some_None. unfold acknowledgeable in Hack.
    rewrite !andb_true_iff, is_none_true in Hack. tauto.
  - apply table_follows_map. intros i x Hi. apply acknowledged_follows. intros ->. congruence.
  - apply table_follows_fmap. intros i c Hi. apply revoked_follows.
  - table_update. split_and!; try done. cbn. by intros [t ->].
Qed.
Lemma change_access f d d' : change f d d' → access_follows d d'.
Proof.
  destruct 1 as [d d' Hc|d d' Hn|d d' Hp|d i r Hr Hn|d i l Hl Hp Hv|d i l l' Hl Hw|d r c t Hc Hu|d r c Hc|d r row o Hr Hob Hf|d r row Hr Hrp
    |d i row now Hr Hu|d r s off row Hr Hn|d i row Hr Hn|d dg row Hr Hn|d h now]; try done.
  - by apply lease_change_access.
  - by apply node_change_access.
  - by apply pairing_change_access.
  - split; cbn; try done. table_update. split_and!; try done. by apply is_Some_None.
  - split; cbn; try done. table_new.
  - split; cbn; try done. apply table_follows_fmap. intros i c _. by case_bool_decide.
Qed.

Lemma reachable_access c c' : reachable c → rtc calls c c' → access_follows (ctl_db c) (ctl_db c').
Proof.
  intros Hr Hc. apply (controls_closed access_follows); [intros f d d' _; apply change_access|done..].
Qed.
Lemma reachable_calls c c' : reachable c → rtc calls c c' → reachable c'.
Proof. intros [seed Hr] Hc. exists seed. by etrans. Qed.

(** ** Stored evidence *)

(** Rows point to files with the content they name. *)
Record intact (f : Files) (d : Db) : Prop := {
  in_logs : ∀ key row, db_log_chunks d !! key = Some row →
    stored_object f (lc_relative_path row) (lc_sha256 row) (lc_chunk_length row);
  in_artifacts : ∀ id row, db_artifacts d !! id = Some row →
    valid_artifact_name (atr_name row) = true ∧
    stored_object f (atr_relative_path row) (atr_sha256 row) (atr_size row);
  in_snapshots : ∀ digest row, db_snapshots d !! digest = Some row → stored_snapshot f digest row
}.
Lemma change_intact f d d' : intact f d → change f d d' → intact f d'.
Proof.
  intros [L A S]. destruct 1 as [d d' Hc|d d' Hn|d d' Hp|d i r Hr Hn|d i l Hl Hp Hv|d i l l' Hl Hw|d r c t Hc Hu|d r c Hc|d r row o Hr Hob Hf|d r row Hr Hrp
    |d i row now Hr Hu|d r s off row Hr Hn|d i row Hr Hn|d dg row Hr Hn|d h now];
    try (by split); try (by destruct Hc); try (by destruct Hn); try (by destruct Hp).
  - split; cbn; try done. intros key x [[<- <-]|[_ ?]]%lookup_insert_Some; [|by eapply L].
    exact (nl_file _ _ _ _ _ _ Hn).
  - split; cbn; try done. intros j x [[<- <-]|[_ ?]]%lookup_insert_Some; [|by eapply A].
    destruct Hn as [_ _ Hname Hf]. by split.
  - split; cbn; try done. intros j x [[<- <-]|[_ ?]]%lookup_insert_Some; [done|by eapply S].
Qed.

(** ** Settled runs *)

(** Completions and obligations come in pairs, and agree with the row of their run. *)
Record runs_settled (d : Db) : Prop := {
  rs_completion : ∀ run c, db_completions d !! run = Some c →
    ∃ row o, db_jobs d !! run = Some row ∧ db_obligations d !! run = Some o ∧ settles run row c o;
  rs_obligation : ∀ run, is_Some (db_obligations d !! run) → is_Some (db_completions d !! run)
}.
Lemma settles_follows run row row' c o o' :
  row_follows row row' → obligation_follows o o' → settles run row c o → settles run row' c o'.
Proof.
  intros Hrow Ho Hs. rewrite (rf_terminal _ _ Hrow (se_terminal _ _ _ _ Hs)).
  destruct Ho as [->|W]; [done|]. destruct Hs, W. by split; try congruence.
Qed.
Lemma settled_follows d d' :
  jobs_follow d d' → table_follows obligation_follows (db_obligations d) (db_obligations d') →
  db_completions d' = db_completions d →
  (∀ run, is_Some (db_obligations d' !! run) → is_Some (db_obligations d !! run)) →
  runs_settled d → runs_settled d'.
Proof.
  intros Hjobs Hobls Hsame Hdom [C O]. split; rewrite Hsame; [|by auto].
  intros run c Hc. destruct (C _ _ Hc) as (row & o & Hrow & Ho & Hs).
  destruct (Hjobs _ _ Hrow) as (row' & Hrow' & Hr), (Hobls _ _ Ho) as (o' & Ho' & Hf).
  exists row', o'. split_and!; [done..|]. by eapply settles_follows.
Qed.
Lemma change_settled f d d' : runs_settled d → change f d d' → runs_settled d'.
Proof.
  intros Hs Hch. pose proof (change_jobs _ _ _ Hch) as Hj. pose proof (ek_obligations _ _ (change_evidence _ _ _ Hch)) as Ho.
  destruct Hch as [d d' Hc|d d' Hn|d d' Hp|d i r Hr Hn|d i l Hl Hp Hv|d i l l' Hl Hw|d r c t Hc Hu|d r c Hc|d r row o Hr Hob Hf|d r row Hr Hrp
    |d i row now Hr Hu|d r s off row Hr Hn|d i row Hr Hn|d dg row Hr Hn|d h now];
    try (by apply (settled_follows d)).
  - apply (settled_follows d); [done|done|by destruct Hc| |done].
    destruct Hc; try done. intros r. cbn. rewrite lookup_insert_is_Some'. intros [<-|?]; [by eexists|done].
  - by destruct Hn; apply (settled_follows db).
  - by destruct Hp; apply (settled_follows db).
  - destruct Hs as [C O], Hf as (_ & jrow & Hjrow & Hset). split; cbn.
    + intros run c [[<- <-]|[Hne Hc]]%lookup_insert_Some; [exists jrow, o; by rewrite lookup_insert_eq|].
      destruct (C _ _ Hc) as (row' & o' & ? & ? & ?). exists row', o'. by rewrite lookup_insert_ne.
    + intros run. rewrite !lookup_insert_is_Some'. intros [->|Hrun]; [by left|right; by apply O].
Qed.

(** ** Cleanup receipts *)

(** Stored receipts stay valid, and stay those of their run. *)
Definition receipts_settled (d : Db) : Prop :=
  ∀ run row, db_cleanups d !! run = Some row → receipted d run (cu_document row).
Lemma receipted_follows d d' run receipt :
  jobs_follow d d' → db_completions d ⊆ db_completions d' → receipted d run receipt → receipted d' run receipt.
Proof.
  intros Hjobs Hsub [Hv Hr (c & Hc & Hsha) (row & Hrow & Hstate)]. split; [done|done| |].
  - exists c. split; [by eapply lookup_weaken|done].
  - destruct (Hjobs _ _ Hrow) as (row' & Hrow' & Hf). exists row'. split; [done|].
    rewrite (rf_terminal _ _ Hf); [done|]. rewrite Hstate. unfold CleanupReceiptV1_validate, TerminalCompletionAckV1_validate in Hv.
    cbv zeta in Hv. rewrite !bind_unit_Ok, !reject_if_Ok, !negb_false_iff in Hv. tauto.
Qed.
Lemma change_receipted f d d' : receipts_settled d → change f d d' → receipts_settled d'.
Proof.
  intros Hs Hch run row Hrow.
  pose proof (change_jobs _ _ _ Hch) as Hj. pose proof (ek_completions _ _ (change_evidence _ _ _ Hch)) as Hc.
  apply (receipted_follows d); [done|done|].
  destruct Hch as [d d' Hx|d d' Hn|d d' Hp|d i r Hr Hn|d i l Hl Hp Hv|d i l l' Hl Hw|d r c t Hx Hu|d r c Hx|d r row' o Hr Hob Hf|d r row' Hr Hrp
    |d i row' now Hr Hu|d r s off row' Hr Hn|d i row' Hr Hn|d dg row' Hr Hn|d h now]; try (by apply Hs).
  - apply Hs. by destruct Hx.
  - apply Hs. by destruct Hn.
  - apply Hs. by destruct Hp.
  - cbn in Hrow. apply lookup_insert_Some in Hrow as [[<- <-]|[_ Hrow]]; [done|by apply Hs].
Qed.

(** ** Names of jobs *)

(** A job has one run, and its row is filed under its own identifier. *)
Record jobs_named (d : Db) : Prop := {
  jn_job : ∀ run row, db_jobs d !! run = Some row → jr_job_id row = job_id (jr_job row);
  jn_unique : ∀ run run' row row', db_jobs d !! run = Some row → db_jobs d !! run' = Some row' →
    jr_job_id row = jr_job_id row' → run = run'
}.
Lemma named_follows d d' :
  (∀ run row', db_jobs d' !! run = Some row' → ∃ row, db_jobs d !! run = Some row ∧ row_follows row row') →
  jobs_named d → jobs_named d'.
Proof.
  intros Hf [J U]. split.
  - intros run row' (row & Hrow & [(Hj & Hi & _) _ _ _ _ _ _])%Hf. rewrite Hj, Hi. by eapply J.
  - intros r1 r2 x1 x2 (y1 & Hy1 & F1)%Hf (y2 & Hy2 & F2)%Hf. destruct (rf_job _ _ F1) as (_ & -> & _), (rf_job _ _ F2) as (_ & -> & _).
    by apply U.
Qed.
Lemma change_named f d d' : jobs_named d → change f d d' → jobs_named d'.
Proof.
  intros Hs Hch. destruct Hch as [d d' Hx|d d' Hn|d d' Hp|d i r Hr Hn|d i l Hl Hp Hv|d i l l' Hl Hw|d r c t Hx Hu|d r c Hx|d r row' o Hr Hob Hf|d r row' Hr Hrp
    |d i row' now Hr Hu|d r s off row' Hr Hn|d i row' Hr Hn|d dg row' Hr Hn|d h now]; try (by destruct Hs; split).
  - destruct Hx; try (by destruct Hs; split). eapply named_follows; [|exact Hs]. cbn.
    intros run row'' [[<- <-]|[_ Hrow]]%lookup_insert_Some; [eexists; split; [done|by apply job_write_follows]|by eexists].
  - destruct Hs. split; by rewrite (proj1 (node_change_tables _ _ Hn)).
  - destruct Hs. split; by rewrite (proj1 (pairing_change_tables _ _ Hp)).
  - destruct Hs as [J U]. split; cbn.
    + intros run row [[<- <-]|[_ Hrow]]%lookup_insert_Some; [apply (nj_job _ _ _ Hn)|by eapply J].
    + intros r1 r2 x1 x2 [[<- <-]|[N1 Hx1]]%lookup_insert_Some [[<- <-]|[N2 Hx2]]%lookup_insert_Some He; [done| | |by eapply U].
      * by destruct (nj_unique _ _ _ Hn _ _ Hx2).
      * by destruct (nj_unique _ _ _ Hn _ _ Hx1).
Qed.
(** Rows with log chunks: their run was claimed, and their job stays readable. *)
Record logs_owned (d : Db) : Prop := {
  lw_claims : ∀ run c, db_worker_claims d !! run = Some c →
    ∃ row, db_jobs d !! run = Some row ∧ row_state row ≠ JobState.Queued;
  lw_chunks : ∀ run stream offset chunk, db_log_chunks d !! (run, stream, offset) = Some chunk →
    ∃ row, db_jobs d !! run = Some row ∧ row_state row ≠ JobState.Queued ∧ is_ok (decode_job_row row) = true
}.
Lemma decode_follows row row' :
  row_follows row row' → row_state row ≠ JobState.Queued → is_ok (decode_job_row row) = true →
  row_state row' ≠ JobState.Queued ∧ is_ok (decode_job_row row') = true.
Proof.
  intros [(Hj & _) (_ & Hrj) Hs _ _ Hp _] Hq. destruct (Hp Hq) as [Hn Hb].
  pose proof (unqueued_stays _ _ Hs Hq) as Hq'. intros Hd. split; [done|]. revert Hd. unfold decode_job_row.
  rewrite Hj, Hrj, Hn, Hb. unfold row_state in Hq, Hq'. rewrite !(bool_decide_false (run_state _ = _)) by done.
  destruct (reject_if (_ != _) _) as [[]|e]; [|done]. destruct (jr_plan_binding row) as [b|]; [|done].
  destruct (map_err _ _) as [[]|e]; [|done]. cbn. by repeat destruct (reject_if _ _) as [[]|?].
Qed.
Lemma owned_follows d d' :
  jobs_follow d d' → logs_owned d →
  (∀ run c, db_worker_claims d' !! run = Some c → is_Some (db_worker_claims d !! run)) →
  (∀ key, is_Some (db_log_chunks d' !! key) → is_Some (db_log_chunks d !! key)) → logs_owned d'.
Proof.
  intros Hf [C L] Hc Hl. split.
  - intros run c (c0 & Hc0)%Hc. destruct (C _ _ Hc0) as (row & Hrow & Hq). destruct (Hf _ _ Hrow) as (row' & Hrow' & F).
    exists row'. split; [done|]. eapply unqueued_stays; [apply F|done].
  - intros run stream offset chunk Hx. destruct (Hl (run, stream, offset)) as [x Hx']; [by eexists|].
    destruct (L _ _ _ _ Hx') as (row & Hrow & Hq & Hd). destruct (Hf _ _ Hrow) as (row' & Hrow' & F).
    exists row'. split; [done|]. by eapply decode_follows.
Qed.
Lemma change_owned f d d' : logs_owned d → change f d d' → logs_owned d'.
Proof.
  intros Ho Hch. pose proof (change_jobs f d d' Hch) as Hf.
  destruct Hch as [d d' Hx|d d' Hn|d d' Hp|d i r Hr Hn|d i l Hl Hp Hv|d i l l' Hl Hw|d r c t Hx Hu|d r c Hx Hq|d r row' o Hr Hob Hfi|d r row' Hr Hrp
    |d i row' now Hr Hu|d r s off row' Hr Hn|d i row' Hr Hn|d dg row' Hr Hn|d h now]; try (by eapply owned_follows; eauto).
  - apply (owned_follows d); [done..| |]; destruct Hx; cbn; try done; try (by eauto).
    intros run' c' [[<- _]|[_ ?]]%lookup_insert_Some; by eexists.
  - apply (owned_follows d); [done..| |]; destruct Hn; cbn; try done; by eauto.
  - apply (owned_follows d); [done..| |]; destruct Hp; cbn; try done; by eauto.
  - apply (owned_follows d); [done..| |done]. cbn. intros run' c' [[<- _]|[_ ?]]%lookup_insert_Some; by eexists.
  - destruct Ho as [C L]. split; [|exact L]. cbn. intros run' c' [[<- _]|[_ ?]]%lookup_insert_Some; [done|by eapply C].
  - destruct Ho as [C L]. split; [exact C|]. cbn.
    intros run' stream' offset' x [[[= <- <- <-] _]|[_ Hx]]%lookup_insert_Some; [|by eapply L].
    destruct (nl_job _ _ _ _ _ _ Hn) as (job & Hjob & Hd), (nl_claim _ _ _ _ _ _ Hn) as [c Hc].
    destruct (C _ _ Hc) as (job' & Hjob' & Hq). exists job. split_and!; [done|congruence|done].
Qed.
End jobs.
