(* ===== verification/Scenario.v ===== *)
(** A concrete controller, driven through a whole job: a worker is paired, reports,
    is given a job, uploads a log and an artifact, completes the run and cleans up.

    Everything is evaluated, with the concrete instances of the crates; the
    theorems on controllers are applied to these states in their witnesses. *)
From Stdlib Require Import ZArith NArith Lia String.
From stdpp Require Import base option list numbers sets gmap relations.
From S2P Require Import Prelude Text Crates Protocol Snapshot RunState JobSpec CanonicalJson Scheduler NodeState PlacementBinding WorkerReports WorkerRun Cleanup Onboarding ControllerDb Planning FleetNodes Leases NodeWrites Uploads CompletionEvidence RunControl Pairings TxLogic Changes ControllerCalls.
Open Scope rust_scope.

#[export] Existing Instance Concrete.uuid_crate.
#[export] Existing Instance Concrete.chrono_crate.
#[export] Existing Instance Concrete.chrono_crate_laws.
#[export] Existing Instance Concrete.digest_crate.
#[export] Existing Instance Concrete.digest_crate_laws.
#[export] Existing Instance ConcreteJson.serde_crate.
(** Short texts that tell the documents of the scenario apart; no label of it holds
    a JSON text. *)
#[export] Instance store_serde : StoreSerde := {|
  completion_to_string c := Ok (lit "completion " ++ fmt_N (rc_run_id c) ++ lit " " ++ fmt_N (rc_expected_version c));
  receipt_to_string r := Ok (lit "receipt " ++ fmt_N (cl_run_id r));
  inventory_to_string i := Ok (lit "inventory " ++ inv_cpu_model i);
  value_from_str _ := None;
  number_as_u64 n := Some n
|}.

(** One second per step; identifiers count up from a base that each call chooses. *)
Definition at_second (second : Z) (base : N) : Env :=
  {| env_clock _ := (second * nanos_per_second)%Z; env_uuid i := (base + N.of_nat i)%N |}.
Definition ask {A} (second : Z) (base : N) (r : Request A) (c : Controller) : Controller * result _ A :=
  run (at_second second base) (handle r) c.
Definition after {A} (second : Z) (base : N) (r : Request A) (c : Controller) : Controller :=
  (ask second base r c).1.

Definition worker_node : Node :=
  let n := sample_node 3%N 12%N in
  {| node_id := node_id n; node_name := node_name n; node_enabled := true;
     node_transport := NodeTransport.Managed (lit "https://worker.local:7443") (lit "cred-3"); node_os := node_os n; node_arch := node_arch n;
     node_status := node_status n; node_capabilities := node_capabilities n;
     node_resources := node_resources n; node_load := node_load n; node_priority := node_priority n;
     node_labels := []; node_cached_sources := []; node_last_seen_at := None |}.

Definition worker_credential : rstr := lit "worker-credential-0123456789abcdef".
Definition paired : Controller :=
  let c := after 10 100 (CreatePairing (Some 3%N)) (new_controller (lit "seed")) in
  let code := uuid_simple 102%N ++ uuid_simple 103%N in
  let c := after 11 200 (ConsumePairing code 101%N 3%N (secret_hash worker_credential) worker_node) c in
  after 12 300 (AcknowledgePairing worker_credential 101%N 3%N (secret_hash worker_credential)) c.
Definition worker_report (sequence : N) : NodeReportRequest :=
  let t := NodeTelemetry_from_node worker_node 0%Z in
  {| nr_api_version := WORKER_API_VERSION; nr_inventory := None;
     nr_telemetry :=
       {| tel_status := tel_status t; tel_available_cpu_cores := tel_available_cpu_cores t;
          tel_available_memory_mib := tel_available_memory_mib t;
          tel_available_disk_mib := tel_available_disk_mib t; tel_gpus := tel_gpus t;
          tel_load := tel_load t; tel_cached_sources := []; tel_observed_at := 0%Z;
          tel_boot_generation := 1; tel_boot_id := 9%N; tel_sequence := sequence; tel_cpu_ewma_percent := 10;
          tel_active_run_ids := []; tel_power_source := PowerSource.Ac; tel_battery := None;
          tel_temperature_c := None |} |}.
Definition reported : Controller := after 13 400 (RecordNodeReport worker_credential (worker_report 1)) paired.
Definition submitted : Controller := after 14 500 (SubmitJob sample_job None Scheduler_default) reported.
Definition claimed : Controller := after 15 600 (ClaimJob worker_credential worker_node) submitted.
Definition run_credential : rstr := uuid_simple 603%N ++ uuid_simple 604%N.
Definition running : Controller :=
  after 16 700 (WorkerTransition worker_credential run_credential 503%N 505%N 1%N JobState.Running) claimed.
Definition chunk (stream text : string) (offset : N) : Request LogChunk :=
  PutLogChunk worker_credential run_credential 503%N 505%N (lit stream) offset
    (bytes_sha256 (bytes (lit text))) (bytes (lit text)).
Definition logged : Controller :=
  let c := after 17 800 (chunk "stdout" "compiling" 0) running in
  let c := after 18 900 (chunk "stdout" " done" 9) c in
  let c := after 19 1000 (chunk "stderr" "warning" 0) c in
  after 20 1100 (PutArtifact worker_credential run_credential 503%N 505%N 90%N (lit "out/report.txt")
    (bytes_sha256 (bytes (lit "report"))) (bytes (lit "report"))) c.
Definition verifying : Controller :=
  after 21 1200 (WorkerTransition worker_credential run_credential 503%N 505%N 2%N JobState.Verifying) logged.

Definition seconds (n : Z) : DateTime := (n * nanos_per_second)%Z.
Definition stream_of (text : string) (chunks : N) : StreamEvidence :=
  let data := bytes (lit text) in
  {| st_byte_count := byte_len data; st_sha256 := bytes_sha256 data; st_truncated := false;
     st_chunk_count := chunks |}.
Definition snapshot_source : rstr := lit "sha256:" ++ replicate 64 (chr "a").
Definition success : RunCompletion :=
  {| rc_run_id := 503%N; rc_lease_id := 505%N; rc_expected_version := 3; rc_final_state := JobState.Succeeded;
     rc_evidence := {| ev_started_at := Some (seconds 16); ev_finished_at := Some (seconds 21);
       ev_exit_code := Some 0%Z; ev_error := None; ev_artifact_ids := [90%N] |};
     rc_execution :=
       {| xe_source := {| xs_kind := lit "snapshot"; xs_repository := lit "snapshot";
            xs_requested_revision := snapshot_source; xs_resolved_revision := snapshot_source;
            xs_tree := snapshot_source; xs_git_version := lit "not-applicable" |};
          xe_steps := [{| se_index := 0; se_name := lit "test"; se_shell := Shell.Bash;
            se_started_at := seconds 17; se_finished_at := seconds 20; se_exit_code := Some 0%Z;
            se_termination := TerminationReason.Exited |}];
          xe_streams := {| rs_stdout := stream_of "compiling done" 2; rs_stderr := stream_of "warning" 1 |};
          xe_termination := {| te_reason := TerminationReason.Exited; te_process_tree_terminated := true;
            te_forced_kill := false; te_root_exit_code := Some 0%Z; te_signal := None;
            te_observed_at := seconds 21 |} |};
     rc_artifacts := [{| am_id := 90%N; am_run_id := 503%N; am_relative_path := lit "out/report.txt";
       am_size_bytes := 6; am_sha256 := bytes_sha256 (bytes (lit "report")); am_media_type := None;
       am_created_at := seconds 20 |}] |}.
Definition completed : Controller :=
  after 22 1300 (WorkerComplete worker_credential run_credential success) verifying.
Definition completion_digest : rstr := bytes_sha256 (bytes (lit "completion 503 3")).
Definition removal : CleanupReceiptV1 :=
  {| cl_api_version := CLEANUP_API_VERSION; cl_run_id := 503%N; cl_lease_id := 505%N;
     cl_relative_root := job_root 503%N;
     cl_outcome := JobRootCleanupOutcomeV1.Removed; cl_job_root_deleted := true;
     cl_observed_at := seconds 23;
     cl_terminal_ack := {| ack_run_id := 503%N; ack_lease_id := 505%N;
       ack_completion_sha256 := completion_digest; ack_state_version := 4;
       ack_final_state := JobState.Succeeded; ack_acknowledged_at := seconds 22 |} |}.
Definition cleaned : Controller :=
  after 24 1400 (RecordCleanup worker_credential run_credential removal) completed.
Definition revoked : Controller := after 25 1500 (RevokePairing 101%N) cleaned.

(** ** Every state of the scenario is reachable *)
Lemma after_calls {A} second base (r : Request A) c : calls c (after second base r c).
Proof. by exists (at_second second base), A, r. Qed.
Lemma after_reachable {A} second base (r : Request A) c : reachable c → reachable (after second base r c).
Proof. intros [seed Hc]. exists seed. eapply rtc_r; [exact Hc|apply after_calls]. Qed.
Lemma after_rtc {A} second base (r : Request A) c c' : rtc calls c c' → rtc calls c (after second base r c').
Proof. intros Hc. eapply rtc_r; [exact Hc|apply after_calls]. Qed.
Lemma new_reachable seed : reachable (new_controller seed).
Proof. by exists seed. Qed.
(** Back through the requests, to a new controller or to the state named on the left. *)
Ltac scenario :=
  repeat lazymatch goal with
  | |- rtc _ ?c ?c => reflexivity
  | |- reachable (new_controller _) => apply new_reachable
  | |- reachable _ => apply after_reachable
  | |- rtc _ _ _ => apply after_rtc
  end.
Lemma paired_reachable : reachable paired.
Proof. scenario. Qed.
Lemma reported_reachable : reachable reported.
Proof. scenario. Qed.
Lemma submitted_reachable : reachable submitted.
Proof. scenario. Qed.
Lemma claimed_reachable : reachable claimed.
Proof. scenario. Qed.
Lemma running_reachable : reachable running.
Proof. scenario. Qed.
Lemma logged_reachable : reachable logged.
Proof. scenario. Qed.
Lemma completed_reachable : reachable completed.
Proof. scenario. Qed.
Lemma cleaned_reachable : reachable cleaned.
Proof. scenario. Qed.
Lemma revoked_reachable : reachable revoked.
Proof. scenario. Qed.
Lemma submitted_completed : rtc calls submitted completed.
Proof. scenario. Qed.
Lemma running_completed : rtc calls running completed.
Proof. scenario. Qed.
Lemma completed_cleaned : rtc calls completed cleaned.
Proof. scenario. Qed.
Lemma cleaned_revoked : rtc calls cleaned revoked.
Proof. scenario. Qed.

(** What the states of the scenario hold. *)
Lemma fmap_value {A B} (f : A → B) o x y : f <$> o = Some y → o = Some x → f x = y.
Proof. intros Hf ->. by injection Hf. Qed.
Lemma submitted_row : row_state <$> db_jobs (ctl_db submitted) !! 503%N = Some JobState.Queued.
Proof. by vm_compute. Qed.
Lemma completed_row : row_state <$> db_jobs (ctl_db completed) !! 503%N = Some JobState.Succeeded.
Proof. by vm_compute. Qed.
Lemma completed_lease :
  (λ l, (lr_phase l, lr_released_at l)) <$> db_leases (ctl_db completed) !! 505%N = Some (LeasePhase.CleanupPending, None).
Proof. by vm_compute. Qed.
Lemma cleaned_lease :
  lr_released_at <$> db_leases (ctl_db cleaned) !! 505%N = Some (Some 24%Z).
Proof. by vm_compute. Qed.
Lemma cleaned_claim :
  (λ c, is_some (wl_revoked_at c)) <$> db_worker_claims (ctl_db cleaned) !! 503%N = Some true.
Proof. by vm_compute. Qed.
Lemma revoked_credential_row :
  (λ c, (is_some (wc_revoked_at c), wc_credential_hash c)) <$> db_worker_credentials (ctl_db revoked) !! 201%N
  = Some (true, secret_hash worker_credential).
Proof. by vm_compute. Qed.
