(* ===== verification/ControllerSafety.v ===== *)
(** The safety theorems of the controller.

    Each one is about every request of [ControllerCalls] at once; the work is in the
    preorders of [RunSafety], which contain every change.  The witnesses apply them to
    the states of [Scenario]. *)
From Stdlib Require Import ZArith NArith Lia String.
From stdpp Require Import base option list numbers sets gmap relations.
From S2P Require Import Prelude Text Crates Protocol Snapshot RunState JobSpec CanonicalJson Scheduler NodeState PlacementBinding WorkerReports WorkerRun Cleanup Onboarding ControllerDb FleetNodes Leases NodeWrites Uploads CompletionEvidence RunControl Pairings TxLogic Changes ChangeProofs MethodProofs RunProofs PairingProofs ControllerCalls RunSafety Scenario.
Open Scope rust_scope.

Section safety.
Context `{UuidCrate, ChronoCrate, SerdeJsonCrate, !StoreSerde, DigestCrate}.

(** What an accepted request proves about its caller.  A worker's credential is
    current.  A request of a run carries the credential of the node's live claim on the
    executing, unexpired lease of that run; a completion may instead repeat the stored
    one to the byte, a cleanup receipt names the completion that is stored, and the check
    of a route before its body asks for the live claim or, where the route allows it, for
    a completed run.  A pairing is joined with its unexpired code and acknowledged by
    the unrevoked credential that was staged for its node. *)
Definition demands (db : Db) (now : Z) {A} (r : Request A) : Prop :=
  match r with
  | AuthenticateWorker credential | RecordNodeReport credential _ => ∃ node, authentic db credential node
  | ClaimJob credential node => authentic db credential (node_id node)
  | HeartbeatRun credential run_credential run lease _ _
  | WorkerTransition credential run_credential run lease _ _
  | PutLogChunk credential run_credential run lease _ _ _ _
  | PutArtifact credential run_credential run lease _ _ _ _
  | AuthorizeSnapshotDownload credential run_credential run lease _ =>
      ∃ node, authorized db credential run_credential run lease node now
  | WorkerComplete credential run_credential completion =>
      let run := rc_run_id completion in let lease := rc_lease_id completion in
      ∃ node, authentic db credential node ∧ holds_claim db run_credential run lease node ∧
        (authorized db credential run_credential run lease node now ∨ repeated db completion)
  | RecordCleanup credential run_credential receipt =>
      ∃ node, authentic db credential node ∧
        holds_claim db run_credential (cl_run_id receipt) (cl_lease_id receipt) node ∧
        completed_as db (cl_run_id receipt) (ack_completion_sha256 (cl_terminal_ack receipt))
  | PreauthorizeRunRoute credential run_credential run allow =>
      admitted db credential run_credential run allow now
  | PreauthorizePairing code => ∃ id p, live_code db code now id p
  | ConsumePairing code id intended _ _ => ∃ p, live_code db code now id p ∧ pa_intended_node_id p = intended
  | PreauthorizePairingAck credential => ∃ id node, acknowledging db credential id node
  | AcknowledgePairing credential id node sha =>
      acknowledging db credential id node ∧ secret_hash credential = sha
  | _ => True
  end.
Lemma handle_demands {A} (r : Request A) env c a :
  consistent (ctl_db c) → (run env (handle r) c).2 = Ok a →
  demands (ctl_db c) (unix (env_clock env 0)) r.
Proof.
  intros Hc Ha. set (s := {| tx_db := ctl_db c; tx_committed := ctl_db c; tx_files := ctl_files c; tx_tick := 0 |}).
  assert (wp moved (handle r) env s (λ _ _, demands (ctl_db c) (unix (env_clock env 0)) r)) as Hwp.
  { destruct r; try (eapply wp_mono; [by apply wp_handle|done]); cbn [handle demands].
    - apply (wp_preauthorize_pairing env s).
    - apply (wp_consume env s).
    - apply (wp_preauthorize_ack env s).
    - apply (wp_acknowledge env s).
    - eapply wp_mono; [apply wp_authenticate_worker|]. intros n s' _ Hn. by exists n.
    - eapply wp_mono; [by apply wp_node_report|]. intros o s' _ Hn. by exists (nro_node_id o).
    - apply (wp_preauthorize env s).
    - eapply wp_mono; [by apply wp_claim_job|]. by intros ? ? _ [? _].
    - by apply (wp_heartbeat env s).
    - by apply (wp_worker_transition env s).
    - eapply wp_mono; [by apply (wp_complete env s)|]. by intros ? ? _ [? _].
    - by apply (wp_record_cleanup env s).
    - by apply (wp_authorize_snapshot env s).
    - eapply wp_mono; [by apply (wp_put_log env s)|]. by intros ? ? _ [? _].
    - by apply (wp_put_artifact env s). }
  pose proof (run_moves moved env (handle r) c _ Hwp) as Hrun. destruct (run env (handle r) c) as [c' res].
  destruct Hrun as (_ & _ & Hok). cbn in Ha. by destruct (Hok a Ha) as (_ & ? & _).
Qed.

(** C1. The life of a run.  Whatever requests a reachable controller answers, each job
    row stays: its job, run, creation and lease identity never change, its state only
    moves along the transitions of the protocol, a finished row is frozen, every write
    raises the version (until it saturates), the node and the plan of a run are fixed
    once it leaves the queue, and a run whose cancellation was requested can only end
    cancelled or failed. *)
Theorem run_lifecycle (c c' : Controller) (Hreach : reachable c) (Hcalls : rtc calls c c') id row
    (Hrow : db_jobs (ctl_db c) !! id = Some row) :
  ∃ row', db_jobs (ctl_db c') !! id = Some row' ∧ row_follows row row'.
Proof.
  assert (jobs_follow (ctl_db c) (ctl_db c')) as Hf; [|by apply Hf].
  apply (controls_closed jobs_follow); [intros f d d' _; apply change_jobs|done..].
Qed.

(** C6. Evidence is only added.  Completions, cleanup receipts, log chunks, artifacts,
    snapshots and placement attempts are never changed or removed, nor are the files
    they point to; a plan only ever gains its first use, and a cleanup obligation keeps
    its binding and, once discharged, all of itself. *)
Theorem evidence_immutable (c c' : Controller) (Hreach : reachable c) (Hcalls : rtc calls c c') :
  evidence_kept (ctl_db c) (ctl_db c') ∧ files_le (ctl_files c) (ctl_files c').
Proof.
  split; [|by apply (controls_moved c c' (reachable_consistent c Hreach) Hcalls)].
  apply (controls_closed evidence_kept); [intros f d d' _; apply change_evidence|done..].
Qed.

(** C8. Stored evidence is intact.  In every reachable controller each log chunk,
    artifact and snapshot row has a safe path to an existing file whose length and
    SHA-256 are those of the row; artifact names are portable, and a snapshot's path is
    the one its digest determines and its size is within the limit. *)
Theorem stored_evidence_intact (c : Controller) (Hreach : reachable c) : intact (ctl_files c) (ctl_db c).
Proof.
  apply (reachable_invariant intact); [by split|intros f d d' _; apply change_intact|done].
Qed.

(** C7. A cleanup reservation is held until it is discharged.  The lease of a finished
    run that waits for its cleanup keeps its row, and stays active (so its resources stay
    reserved) at every later time, until the cleanup obligation of that lease has been
    discharged; it is never handed to another placement. *)
Theorem cleanup_reservation_held (c c' : Controller) (Hreach : reachable c) (Hcalls : rtc calls c c') id l
    (Hlease : db_leases (ctl_db c) !! id = Some l) (Hheld : lease_held l) now :
  ∃ l', db_leases (ctl_db c') !! id = Some l' ∧ lr_phase l' = LeasePhase.CleanupPending ∧
    lr_node_id l' = lr_node_id l ∧ lr_run_id l' = lr_run_id l ∧
    (l' = l ∧ lease_active now l' = true ∨ discharged (ctl_db c') id).
Proof.
  assert (leases_follow (ctl_db c) (ctl_db c')) as Hf
    by (apply (controls_closed leases_follow); [intros f d d'; apply change_leases|done..]).
  destruct Hheld as [Hp Hr]. destruct (lf_held _ _ Hf _ _ Hlease Hp) as (l' & Hl' & [->|(_ & Hd & t & ->)]).
  - exists l. split_and!; try done. left. split; [done|]. unfold lease_active. rewrite Hr, Hp.
    by rewrite bool_decide_true, orb_true_r.
  - eexists. split_and!; try done. by right.
Qed.

(** C2. Accepted requests are authorised.  If a reachable controller accepts a worker's
    request, then just before it the worker credential was the current one of its node,
    and: for a heartbeat, a transition, a log chunk, an artifact or a snapshot download
    the run credential belonged to the live claim of that node on the executing,
    unexpired lease of that run; a completion had the same, or repeated to the byte the
    completion stored for the run; a cleanup receipt held the run's claim (live or
    revoked) and named the digest of the stored completion; the check of a run's route
    held the live claim or, where the route allows it, the claim of a completed run.  A
    pairing code was live and meant for the node that joined, and an acknowledgement
    carried the unrevoked credential staged under a live pairing of its node. *)
Theorem accepted_requests_authorised {A} (r : Request A) env c a (Hreach : reachable c)
    (Haccepted : (run env (handle r) c).2 = Ok a) :
  demands (ctl_db c) (unix (env_clock env 0)) r.
Proof. by eapply handle_demands; [apply reachable_consistent|]. Qed.

(** ** Revocation *)
Definition unique_hashes (d : Db) : Prop :=
  ∀ i j x y, db_worker_credentials d !! i = Some x → db_worker_credentials d !! j = Some y →
    wc_credential_hash x = wc_credential_hash y → i = j.
Lemma unique_hashes_same d m :
  (∀ i x, m !! i = Some x → ∃ y, db_worker_credentials d !! i = Some y ∧ wc_credential_hash y = wc_credential_hash x) →
  unique_hashes d → unique_hashes (set_db_worker_credentials m d).
Proof.
  intros Hm Hu i j x y Hx Hy Heq. cbn in Hx, Hy. destruct (Hm _ _ Hx) as (x' & Hx' & Ex), (Hm _ _ Hy) as (y' & Hy' & Ey).
  eapply Hu; [done..|]. congruence.
Qed.
Lemma change_unique f d d' : unique_hashes d → change f d d' → unique_hashes d'.
Proof.
  intros Hu. destruct 1 as [d d' Hc|d d' Hn|d d' Hp|d i r Hr Hn|d i l Hl Hp Hv|d i l l' Hl Hw|d r c t Hc Hr|d r c Hc|d r row o Hr Hob Hf|d r row Hr Hrp
    |d i row now Hr Hx|d r s off row Hr Hn|d i row Hr Hn|d dg row Hr Hn|d h now]; try done.
  - by destruct Hc.
  - by destruct Hn.
  - destruct Hp as [d id p Hp Hf Hr|d key row Hk|d id p now code Hp Hf Hr Hn|d id p cid wc now Hp Hf Hr Hn Hnode Hc Hnew Hpi Hni Ha Hre
      |d id p cid wc now Hp Hc Hack Hid Hn|d id p now Hp]; try done.
    + intros i j x y. cbn. intros [[<- <-]|[Hi Hx]]%lookup_insert_Some [[<- <-]|[Hj Hy]]%lookup_insert_Some Heq; try done.
      * by destruct (Hnew _ _ Hy).
      * by destruct (Hnew _ _ Hx).
      * by eapply Hu.
    + apply (unique_hashes_same d); [|done]. intros i x. rewrite map_lookup_imap, bind_Some. intros (y & Hy & [= <-]).
      exists y. split; [done|]. unfold activated_credential, retired_credential. by repeat case_match.
    + apply (unique_hashes_same (set_db_pairings _ d)); [|done]. intros i x. rewrite lookup_fmap, fmap_Some.
      intros (y & Hy & ->). exists y. split; [done|]. unfold revoked_credential. by case_match.
  - apply (unique_hashes_same d); [|done]. intros i x. rewrite lookup_fmap, fmap_Some. intros (y & Hy & ->).
    exists y. split; [done|]. by case_match.
Qed.
Lemma reachable_unique c : reachable c → unique_hashes (ctl_db c).
Proof.
  intros Hc. by apply (reachable_invariant (λ _, unique_hashes)); [|intros f d d' _; apply change_unique|].
Qed.
(** The worker credential that a request carries, and the run whose live claim it
    needs. *)
Definition worker_of {A} (r : Request A) : option rstr :=
  match r with
  | AuthenticateWorker credential | RecordNodeReport credential _ | ClaimJob credential _
  | HeartbeatRun credential _ _ _ _ _ | WorkerTransition credential _ _ _ _ _
  | PutLogChunk credential _ _ _ _ _ _ _ | PutArtifact credential _ _ _ _ _ _ _
  | AuthorizeSnapshotDownload credential _ _ _ _ | WorkerComplete credential _ _
  | RecordCleanup credential _ _ | PreauthorizeRunRoute credential _ _ _
  | PreauthorizePairingAck credential | AcknowledgePairing credential _ _ _ => Some credential
  | _ => None
  end.
Definition executing_run {A} (r : Request A) : option Uuid :=
  match r with
  | HeartbeatRun _ _ run _ _ _ | WorkerTransition _ _ run _ _ _ | PutLogChunk _ _ run _ _ _ _ _
  | PutArtifact _ _ run _ _ _ _ _ | AuthorizeSnapshotDownload _ _ run _ _
  | PreauthorizeRunRoute _ _ run false => Some run
  | _ => None
  end.
Lemma authentic_unrevoked db credential node :
  authentic db credential node → ∃ i x, db_worker_credentials db !! i = Some x ∧
    wc_credential_hash x = secret_hash credential ∧ wc_revoked_at x = None.
Proof.
  intros (i & x & Hx & Hh & _ & Hcur & _). exists i, x. split_and!; [done..|].
  unfold credential_current in Hcur. rewrite !andb_true_iff, is_none_true in Hcur. tauto.
Qed.
Lemma acknowledging_unrevoked db credential id node :
  acknowledging db credential id node → ∃ i x, db_worker_credentials db !! i = Some x ∧
    wc_credential_hash x = secret_hash credential ∧ wc_revoked_at x = None.
Proof.
  intros (i & x & p & Hx & Hh & _ & _ & _ & Hack). exists i, x. split_and!; [done..|].
  unfold acknowledgeable in Hack. rewrite !andb_true_iff, is_none_true in Hack. tauto.
Qed.
Lemma demands_unrevoked {A} (r : Request A) db now credential :
  worker_of r = Some credential → demands db now r → ∃ i x, db_worker_credentials db !! i = Some x ∧
    wc_credential_hash x = secret_hash credential ∧ wc_revoked_at x = None.
Proof.
  destruct r; try done; intros [= <-]; cbn; unfold authorized, admitted; intros Hd;
    by naive_solver eauto using authentic_unrevoked, acknowledging_unrevoked.
Qed.
Lemma demands_live {A} (r : Request A) db now run_id :
  executing_run r = Some run_id → demands db now r →
  ∃ claim, db_worker_claims db !! run_id = Some claim ∧ wl_revoked_at claim = None.
Proof.
  assert (∀ c, claim_live now c = true → wl_revoked_at c = None) as Hlive.
  { unfold claim_live. by intros c [?%is_none_true _]%andb_true_iff. }
  destruct r; try done; [destruct allow_completed; [done|]|..]; intros [= <-]; cbn; unfold authorized, admitted;
    naive_solver.
Qed.

(** C3. Revocation is final.  Once a worker credential is revoked, no request that
    carries it, the acknowledgement of a pairing and the checks before a body included,
    is ever accepted again.  Once the claim of a run is revoked, no heartbeat, transition,
    upload or download of that run and no route check that needs a live claim is ever
    accepted again, and a completion is only accepted as a repetition of the stored one. *)
Theorem revocation_is_final {A} (r : Request A) env (c c' : Controller) (Hreach : reachable c)
    (Hcalls : rtc calls c c') :
  (∀ id wc credential, db_worker_credentials (ctl_db c) !! id = Some wc → is_Some (wc_revoked_at wc) →
     wc_credential_hash wc = secret_hash credential → worker_of r = Some credential →
     is_ok (run env (handle r) c').2 = false) ∧
  (∀ run_id claim, db_worker_claims (ctl_db c) !! run_id = Some claim → is_Some (wl_revoked_at claim) →
     (executing_run r = Some run_id → is_ok (run env (handle r) c').2 = false) ∧
     (∀ credential run_credential completion, rc_run_id completion = run_id →
        is_ok (run env (handle (WorkerComplete credential run_credential completion)) c').2 = true →
        repeated (ctl_db c') completion)).
Proof.
  pose proof (reachable_access _ _ Hreach Hcalls) as [Hclaims Hcreds _ _ _].
  pose proof (reachable_calls _ _ Hreach Hcalls) as Hreach'.
  pose proof (reachable_consistent _ Hreach') as Hcons.
  split.
  - intros id wc credential Hwc Hrev Hhash Hworker. destruct (run env (handle r) c').2 as [a|e] eqn:Ha; [|done].
    apply handle_demands in Ha; [|done].
    apply (demands_unrevoked _ _ _ credential) in Ha as (i & x & Hx & Hxh & Hcur); [|done].
    destruct (Hcreds _ _ Hwc) as (y & Hy & _ & _ & Hyh & Hyr). destruct (Hyr Hrev) as [Hyr' _].
    assert (i = id) as -> by (eapply (reachable_unique c' Hreach'); [done..|congruence]).
    destruct Hrev as [t Ht]. assert (x = y) as -> by congruence. congruence.
  - intros run_id claim Hclaim Hrev. destruct (Hclaims _ _ Hclaim) as (y & Hy & _ & _ & _ & Hyr).
    specialize (Hyr Hrev). subst y. destruct Hrev as [t Ht]. split.
    + intros Hrun. destruct (run env (handle r) c').2 as [a|e] eqn:Ha; [|done].
      apply handle_demands in Ha; [|done]. destruct (demands_live _ _ _ _ Hrun Ha) as (? & ? & ?). congruence.
    + intros credential run_credential completion <- Hok.
      destruct (run env _ c').2 as [a|e] eqn:Ha; [|done]. apply handle_demands in Ha; [|done].
      destruct Ha as (node & _ & _ & [(_ & (x & Hx & _ & _ & _ & Hlive) & _)|?]); [|done].
      unfold claim_live in Hlive. apply andb_true_iff in Hlive as [?%is_none_true _]. congruence.
Qed.
End safety.

(** ** Witnesses *)
Open Scope N_scope.

Lemma run_lifecycle_witness : ∃ row row',
  db_jobs (ctl_db submitted) !! 503 = Some row ∧ row_state row = JobState.Queued ∧
  db_jobs (ctl_db completed) !! 503 = Some row' ∧ row_state row' = JobState.Succeeded ∧ row_follows row row'.
Proof.
  pose proof submitted_row as Hs. apply fmap_Some in Hs as (row & Hrow & Hs).
  destruct (run_lifecycle _ _ submitted_reachable submitted_completed _ _ Hrow) as (row' & Hrow' & Hf).
  pose proof (fmap_value _ _ _ _ completed_row Hrow') as Hs'.
  exists row, row'. split_and!; [exact Hrow|exact (eq_sym Hs)|exact Hrow'|exact Hs'|exact Hf].
Defined.

Lemma evidence_immutable_witness :
  db_log_chunks (ctl_db logged) !! (503, lit "stdout", 9%Z) ≠ None ∧
  evidence_kept (ctl_db running) (ctl_db completed) ∧ files_le (ctl_files running) (ctl_files completed).
Proof. split; [by vm_compute|]. apply (evidence_immutable running completed running_reachable running_completed). Defined.

Lemma stored_evidence_intact_witness :
  is_some (db_artifacts (ctl_db completed) !! 90) = true ∧ intact (ctl_files completed) (ctl_db completed).
Proof. split; [by vm_compute|]. apply (stored_evidence_intact completed completed_reachable). Defined.

Lemma cleanup_reservation_held_witness : ∃ l l',
  db_leases (ctl_db completed) !! 505 = Some l ∧ db_leases (ctl_db cleaned) !! 505 = Some l' ∧
  lr_released_at l' = Some 24%Z ∧ discharged (ctl_db cleaned) 505.
Proof.
  pose proof completed_lease as Hs. apply fmap_Some in Hs as (l & Hl & [= Hp Hr]).
  destruct (cleanup_reservation_held _ _ completed_reachable completed_cleaned _ _ Hl (conj (eq_sym Hp) (eq_sym Hr)) 24%Z)
    as (l' & Hl' & _ & _ & _ & Hor).
  pose proof (fmap_value _ _ _ _ cleaned_lease Hl') as Hn.
  exists l, l'. split_and!; [exact Hl|exact Hl'|exact Hn|]. destruct Hor as [[-> _]|Hd]; [congruence|exact Hd].
Defined.

Lemma accepted_requests_authorised_witness : ∃ node,
  authorized (ctl_db running) worker_credential run_credential 503 505 node 17%Z.
Proof.
  pose (r := chunk "stdout" "compiling" 0).
  assert (is_ok (ask 17 800 r running).2 = true) as Hok by by vm_compute.
  destruct (ask 17 800 r running).2 as [a|] eqn:Ha; [|done].
  exact (accepted_requests_authorised r (at_second 17 800) running a running_reachable Ha).
Defined.

Lemma revocation_is_final_witness :
  is_ok (ask 26 1600 (AuthenticateWorker worker_credential) revoked).2 = false ∧
  is_ok (ask 26 1600 (PreauthorizePairingAck worker_credential) revoked).2 = false ∧
  is_ok (ask 26 1600 (chunk "stdout" "late" 14) revoked).2 = false.
Proof.
  pose proof revoked_credential_row as Hs. apply fmap_Some in Hs as (wc & Hwc & [= Hr Hh]).
  pose proof cleaned_claim as Hc. apply fmap_Some in Hc as (claim & Hclaim & Hrc). split; [|split].
  - eapply (proj1 (revocation_is_final (AuthenticateWorker worker_credential) (at_second 26 1600) revoked revoked
      revoked_reachable (rtc_refl _ _))); [exact Hwc|by apply is_some_true|done|done].
  - eapply (proj1 (revocation_is_final (PreauthorizePairingAck worker_credential) (at_second 26 1600) revoked revoked
      revoked_reachable (rtc_refl _ _))); [exact Hwc|by apply is_some_true|done|done].
  - eapply (proj2 (revocation_is_final (chunk "stdout" "late" 14) (at_second 26 1600) cleaned revoked
      cleaned_reachable cleaned_revoked)); [exact Hclaim|by apply is_some_true|done].
Defined.
