(* ===== verification/PairingSafety.v ===== *)
(** What pairings are in every reachable controller: their phase is always
    defined, at most one credential of a node is active, and an idempotent request is
    answered with the same code. *)
From Stdlib Require Import ZArith NArith Lia String.
From stdpp Require Import base option list numbers sets gmap relations.
From S2P Require Import Prelude Text Crates Protocol CanonicalJson NodeState WorkerReports Onboarding ControllerDb FleetNodes Leases NodeWrites Pairings TxLogic Changes ChangeProofs MethodProofs PairingProofs ControllerCalls RunSafety Scenario.
Open Scope rust_scope.

(** ** The invariant *)

(** The one credential of a consumed pairing. *)
Record consumed_by (d : Db) (id : Uuid) (p : PairingRow) (cid : Uuid) (wc : WorkerCredentialRow) : Prop := {
  cb_row : db_worker_credentials d !! cid = Some wc;
  cb_pairing : wc_pairing_id wc = id;
  cb_node : wc_node_id wc = pa_intended_node_id p;
  cb_only : ∀ i c, db_worker_credentials d !! i = Some c → wc_pairing_id c = id → i = cid;
  cb_active : is_some (pa_acknowledged_at p) = is_some (wc_activated_at wc);
  cb_revoked : is_some (pa_revoked_at p) = is_some (wc_revoked_at wc)
}.
Inductive pairing_state (d : Db) (id : Uuid) (p : PairingRow) : Prop :=
| ps_unused : fresh_pairing p → no_credentials d id → pairing_state d id p
| ps_failed now code :
    pa_used_at p = None → pa_acknowledged_at p = None → pa_node_id p = None → pa_failed_at p = Some now →
    pa_failure_code p = Some (pairing_failure_code_name code) → no_credentials d id → pairing_state d id p
| ps_consumed cid wc :
    is_Some (pa_used_at p) → pa_node_id p = Some (pa_intended_node_id p) →
    is_Some (db_nodes d !! pa_intended_node_id p) → pa_failed_at p = None → pa_failure_code p = None →
    consumed_by d id p cid wc → pairing_state d id p.
Definition active (c : WorkerCredentialRow) : Prop := is_Some (wc_activated_at c) ∧ wc_revoked_at c = None.
Record pairings_ok (d : Db) : Prop := {
  pk_state : ∀ id p, db_pairings d !! id = Some p → pairing_state d id p;
  pk_linked : ∀ cid c, db_worker_credentials d !! cid = Some c → is_Some (db_pairings d !! wc_pairing_id c);
  pk_active : ∀ i j x y, db_worker_credentials d !! i = Some x → db_worker_credentials d !! j = Some y →
    active x → active y → wc_node_id x = wc_node_id y → i = j
}.

(** The columns of a pairing that say how far it got. *)
Definition same_progress (p p' : PairingRow) : Prop :=
  pa_used_at p' = pa_used_at p ∧ pa_node_id p' = pa_node_id p ∧
  pa_intended_node_id p' = pa_intended_node_id p ∧ pa_failed_at p' = pa_failed_at p ∧
  pa_failure_code p' = pa_failure_code p.
(** Credentials rewritten row by row. *)
Record rewrites_credentials (f : Uuid → WorkerCredentialRow → WorkerCredentialRow) (d d' : Db) : Prop := {
  rc_rows : ∀ i, db_worker_credentials d' !! i = f i <$> db_worker_credentials d !! i;
  rc_identity : ∀ i c, wc_pairing_id (f i c) = wc_pairing_id c ∧ wc_node_id (f i c) = wc_node_id c;
  rc_nodes : ∀ i, is_Some (db_nodes d !! i) → is_Some (db_nodes d' !! i)
}.
Lemma rewritten_row f d d' i c' :
  rewrites_credentials f d d' → db_worker_credentials d' !! i = Some c' →
  ∃ c, db_worker_credentials d !! i = Some c ∧ c' = f i c ∧ wc_pairing_id c' = wc_pairing_id c ∧
    wc_node_id c' = wc_node_id c.
Proof.
  intros [R I _] Hi. rewrite R in Hi. destruct (_ !! i) as [c|]; [|done]. injection Hi as <-.
  exists c. split_and!; try done; by apply I.
Qed.
Lemma no_credentials_rewritten f d d' id :
  rewrites_credentials f d d' → no_credentials d id → no_credentials d' id.
Proof. intros Hf Hn i c Hi. destruct (rewritten_row _ _ _ _ _ Hf Hi) as (c0 & Hc & _ & -> & _). by apply (Hn i). Qed.
Lemma pairing_state_rewritten f d d' id p p' :
  rewrites_credentials f d d' → same_progress p p' →
  (pa_used_at p = None → pa_acknowledged_at p' = pa_acknowledged_at p) →
  (∀ cid wc, consumed_by d id p cid wc →
     is_some (pa_acknowledged_at p') = is_some (wc_activated_at (f cid wc)) ∧
     is_some (pa_revoked_at p') = is_some (wc_revoked_at (f cid wc))) →
  pairing_state d id p → pairing_state d' id p'.
Proof.
  intros Hf (E1 & E2 & E3 & E4 & E5) Hack Hcol [(F1 & F2 & F3 & F4 & F5) Hn|now code F1 F2 F3 F4 F5 Hn|cid wc F1 F2 F3 F4 F5 Hc].
  - apply ps_unused; [|by eapply no_credentials_rewritten]. unfold fresh_pairing. rewrite E1, E2, E4, E5, Hack; done.
  - eapply ps_failed; [..|by eapply no_credentials_rewritten]; rewrite ?E1, ?E2, ?E4, ?E5, ?Hack; done.
  - destruct (Hcol _ _ Hc) as [Ha Hr]. destruct Hc as [C1 C2 C3 C4 C5 C6].
    eapply (ps_consumed _ _ _ cid (f cid wc)); rewrite ?E1, ?E2, ?E3, ?E4, ?E5; try done.
    + by apply (rc_nodes _ _ _ Hf).
    + destruct (rc_identity _ _ _ Hf cid wc) as [I1 I2]. split; try done; try congruence.
      * by rewrite (rc_rows _ _ _ Hf), C1.
      * intros i c Hi Hp. destruct (rewritten_row _ _ _ _ _ Hf Hi) as (c0 & Hc0 & _ & E & _). apply (C4 i c0); congruence.
Qed.
Lemma pairings_ok_rewritten f g d d' :
  rewrites_credentials f d d' →
  (∀ id, db_pairings d' !! id = g id <$> db_pairings d !! id) →
  (∀ id p, db_pairings d !! id = Some p → same_progress p (g id p) ∧
     (pa_used_at p = None → pa_acknowledged_at (g id p) = pa_acknowledged_at p) ∧
     ∀ cid wc, consumed_by d id p cid wc →
       is_some (pa_acknowledged_at (g id p)) = is_some (wc_activated_at (f cid wc)) ∧
       is_some (pa_revoked_at (g id p)) = is_some (wc_revoked_at (f cid wc))) →
  (∀ i j x y, db_worker_credentials d !! i = Some x → db_worker_credentials d !! j = Some y →
     active (f i x) → active (f j y) → wc_node_id x = wc_node_id y → i = j) →
  pairings_ok d → pairings_ok d'.
Proof.
  intros Hf Hg Hp Ha [S L _]. split.
  - intros id p'. rewrite Hg. destruct (_ !! id) as [p|] eqn:E; [|done]. intros [= <-].
    destruct (Hp _ _ E) as (P1 & P2 & P3). by eapply pairing_state_rewritten; [..|apply S].
  - intros cid c Hc. destruct (rewritten_row _ _ _ _ _ Hf Hc) as (c0 & Hc0 & _ & -> & _).
    rewrite Hg. destruct (L _ _ Hc0) as [p ->]. by eexists.
  - intros i j x y Hx Hy. destruct (rewritten_row _ _ _ _ _ Hf Hx) as (x0 & Hx0 & -> & _ & ->).
    destruct (rewritten_row _ _ _ _ _ Hf Hy) as (y0 & Hy0 & -> & _ & ->). by eapply Ha.
Qed.
(** Nothing about pairings changed. *)
Lemma pairings_ok_same d d' :
  db_pairings d' = db_pairings d → db_worker_credentials d' = db_worker_credentials d →
  (∀ i, is_Some (db_nodes d !! i) → is_Some (db_nodes d' !! i)) → pairings_ok d → pairings_ok d'.
Proof.
  intros Ep Ec Hn Hok. apply (pairings_ok_rewritten (λ _ c, c) (λ _ p, p) d d'); [| | | |done].
  - split; [|done|done]. intros i. rewrite Ec. by destruct (_ !! i).
  - intros i. rewrite Ep. by destruct (_ !! i).
  - intros id p _. split_and!; try done. intros cid wc [? ? ? ? ? ?]. done.
  - apply (pk_active _ Hok).
Qed.
Lemma pairing_state_same d d' id p :
  db_worker_credentials d' = db_worker_credentials d → db_nodes d' = db_nodes d →
  pairing_state d id p → pairing_state d' id p.
Proof.
  intros Ec En. apply (pairing_state_rewritten (λ _ c, c)); try done.
  - split; [|done|by rewrite En]. intros i. rewrite Ec. by destruct (_ !! i).
  - intros cid wc [? ? ? ? ? ?]. done.
Qed.

(** A pairing row is written, the credentials stay. *)
Lemma pairings_ok_written d id p :
  pairing_state d id p → pairings_ok d → pairings_ok (set_db_pairings (<[id := p]> (db_pairings d)) d).
Proof.
  intros Hp [S L A]. split; cbn.
  - intros i x [[<- <-]|[_ Hx]]%lookup_insert_Some; apply (pairing_state_same d); try done. by apply S.
  - intros cid c Hc. apply lookup_insert_is_Some'. right. by eapply L.
  - exact A.
Qed.
Lemma pairings_ok_consumed d id p cid wc now :
  db_pairings d !! id = Some p → fresh_pairing p → pa_revoked_at p = None → no_credentials d id →
  is_Some (db_nodes d !! pa_intended_node_id p) → db_worker_credentials d !! cid = None →
  wc_pairing_id wc = id → wc_node_id wc = pa_intended_node_id p →
  wc_activated_at wc = None → wc_revoked_at wc = None → pairings_ok d →
  pairings_ok (set_db_worker_credentials (<[cid := wc]> (db_worker_credentials d))
    (set_db_pairings (<[id := set_pa_used_at (Some now)
       (set_pa_node_id (Some (pa_intended_node_id p)) p)]> (db_pairings d)) d)).
Proof.
  intros Hp (F1 & F2 & F3 & F4 & F5) Hr Hn Hnode Hcid Hw1 Hw2 Hw3 Hw4 [S L A]. split; cbn.
  - intros i x [[<- <-]|[Hi Hx]]%lookup_insert_Some.
    + apply (ps_consumed _ _ _ cid wc); try done. split; cbn; try done.
      * by rewrite lookup_insert_eq.
      * intros j c [[<- <-]|[_ Hc]]%lookup_insert_Some Hc'; [done|]. by destruct (Hn _ _ Hc).
      * by rewrite F2, Hw3.
      * by rewrite Hr, Hw4.
    + destruct (S _ _ Hx) as [Ff Fn|t code G1 G2 G3 G4 G5 Gn|cid' wc' G1 G2 G3 G4 G5 [C1 C2 C3 C4 C5 C6]].
      * apply ps_unused; [done|]. intros j c; cbn; intros [[<- <-]|[_ Hc]]%lookup_insert_Some; [congruence|by eapply Fn].
      * eapply ps_failed; try done. intros j c; cbn; intros [[<- <-]|[_ Hc]]%lookup_insert_Some; [congruence|by eapply Gn].
      * apply (ps_consumed _ _ _ cid' wc'); try done. split; try done.
        -- cbn. rewrite lookup_insert_ne; [done|congruence].
        -- intros j c; cbn; intros [[<- <-]|[_ Hc]]%lookup_insert_Some Hc'; [congruence|by eapply C4].
  - intros i c [[<- <-]|[_ Hc]]%lookup_insert_Some; apply lookup_insert_is_Some'; [by left|right].
    by eapply L.
  - intros i j x y [[<- <-]|[_ Hx]]%lookup_insert_Some [[<- <-]|[_ Hy]]%lookup_insert_Some [Ax Ax'] [Ay Ay'] Hxy;
      try done; [by rewrite Hw3 in Ax; destruct Ax|by rewrite Hw3 in Ay; destruct Ay|by eapply A].
Qed.
Lemma acknowledgeable_true d wc p :
  acknowledgeable d wc p = true →
  wc_revoked_at wc = None ∧ pa_revoked_at p = None ∧ is_Some (pa_used_at p) ∧ pa_node_id p = Some (wc_node_id wc) ∧
  pa_intended_node_id p = wc_node_id wc.
Proof.
  unfold acknowledgeable. rewrite !andb_true_iff, !is_none_true, is_some_true, !bool_decide_eq_true. tauto.
Qed.
Lemma pairings_ok_acknowledged d id p cid wc now :
  db_pairings d !! id = Some p → db_worker_credentials d !! cid = Some wc →
  acknowledgeable d wc p = true → wc_pairing_id wc = id → pairings_ok d →
  pairings_ok (set_db_pairings (map_imap (λ i p, Some (acknowledged_pairing id (wc_node_id wc) now i p)) (db_pairings d))
    (set_db_worker_credentials
       (map_imap (λ i c, Some (activated_credential cid now i (retired_credential id (wc_node_id wc) now c)))
          (db_worker_credentials d)) d)).
Proof.
  intros Hp Hwc Hack Hid Hok. apply acknowledgeable_true in Hack as (Hwr & Hpr & Hused & Hnode & Hint).
  assert (∀ i c, db_worker_credentials d !! i = Some c → wc_pairing_id c = id → i = cid) as Honly.
  { intros i c Hi Hc. destruct (pk_state _ Hok _ _ Hp) as [[F _] _|t code F _ _ _ _ _|cid' wc' _ _ _ _ _ [_ _ _ C _ _]].
    1,2: rewrite F in Hused; by destruct Hused.
    rewrite (C _ _ Hi Hc). symmetry. by eapply C. }
  apply (pairings_ok_rewritten
    (λ i c, activated_credential cid now i (retired_credential id (wc_node_id wc) now c))
    (acknowledged_pairing id (wc_node_id wc) now) d); [| | | |done].
  - split; cbn; [|intros i c; unfold activated_credential, retired_credential; by repeat case_match|done].
    intros i. rewrite map_lookup_imap. by destruct (_ !! i).
  - intros i. cbn. rewrite map_lookup_imap. by destruct (_ !! i).
  - intros i x Hx. unfold acknowledged_pairing. destruct (decide (i = id)) as [->|Hne].
    + rewrite bool_decide_true by done. assert (x = p) as -> by congruence. split_and!; try done.
      { intros Hu. rewrite Hu in Hused. by destruct Hused. }
      intros cid' wc' [C1 C2 C3 C4 C5 C6]. assert (cid' = cid) as -> by (by apply (Honly _ _ C1)).
      assert (wc' = wc) as -> by congruence. unfold activated_credential, retired_credential.
      rewrite (bool_decide_true (wc_pairing_id wc = id)), andb_false_r by done. cbn.
      rewrite bool_decide_true by done. cbn. by rewrite Hpr, Hwr.
    + rewrite bool_decide_false by done. split_and!; [by case_match|by case_match|].
      intros cid' wc' [C1 C2 C3 C4 C5 C6]. assert (cid' ≠ cid) as Hcid by congruence.
      unfold activated_credential, retired_credential. rewrite (bool_decide_false (cid' = cid)) by done.
      rewrite (bool_decide_false (wc_pairing_id wc' = id)) by congruence. cbn. rewrite andb_true_r, C3.
      destruct (pa_revoked_at x) eqn:Er, (wc_revoked_at wc') eqn:Ew; try done; cbn; rewrite ?andb_false_r, ?andb_true_r;
        rewrite ?Er, ?Ew; try done; case_bool_decide; cbn; rewrite ?Er, ?Ew; done.
  - assert (∀ i c, db_worker_credentials d !! i = Some c → wc_node_id c = wc_node_id wc →
      active (activated_credential cid now i (retired_credential id (wc_node_id wc) now c)) → i = cid) as Hnodes.
    { intros i c Hi Hn [_ Ha]. destruct (decide (i = cid)) as [|Hne]; [done|].
      unfold activated_credential in Ha. rewrite bool_decide_false in Ha by done. unfold retired_credential in Ha.
      rewrite (bool_decide_true (wc_node_id c = wc_node_id wc)) in Ha by done. cbn in Ha.
      destruct (decide (wc_pairing_id c = id)) as [Hc|Hc]; [by eapply Honly|].
      rewrite bool_decide_false in Ha by done. cbn in Ha. destruct (wc_revoked_at c) eqn:Er; cbn in Ha; congruence. }
    intros i j x y Hx Hy Ax Ay Hxy. destruct (decide (wc_node_id x = wc_node_id wc)) as [Hn|Hn].
    + rewrite (Hnodes _ _ Hx Hn Ax). symmetry. apply (Hnodes _ _ Hy); [congruence|done].
    + assert (∀ k c, db_worker_credentials d !! k = Some c → wc_node_id c ≠ wc_node_id wc →
        active (activated_credential cid now k (retired_credential id (wc_node_id wc) now c)) → active c) as Hold.
      { intros k c Hk Hkn. unfold activated_credential, retired_credential.
        rewrite (bool_decide_false (k = cid)) by congruence.
        rewrite (bool_decide_false (wc_node_id c = wc_node_id wc)) by done. done. }
      eapply (pk_active _ Hok); [exact Hx|exact Hy|by eapply Hold|eapply Hold; [done|congruence|done]|done].
Qed.
Lemma pairings_ok_revoked d id p now :
  db_pairings d !! id = Some p → pairings_ok d →
  pairings_ok (set_db_worker_credentials (revoked_credential id now <$> db_worker_credentials d)
    (set_db_pairings (<[id := set_pa_revoked_at (Some (unwrap_or (pa_revoked_at p) now)) p]> (db_pairings d)) d)).
Proof.
  intros Hp Hok. apply (pairings_ok_rewritten (λ _, revoked_credential id now)
    (λ i p, if i == id then set_pa_revoked_at (Some (unwrap_or (pa_revoked_at p) now)) p else p) d); [| | | |done].
  - split; cbn; [|intros i c; unfold revoked_credential; by case_match|done].
    intros i. by rewrite lookup_fmap.
  - intros i. cbn. destruct (decide (i = id)) as [->|Hne].
    + by rewrite lookup_insert_eq, Hp, bool_decide_true.
    + rewrite lookup_insert_ne by done. destruct (_ !! i); [|done]. cbn. by rewrite bool_decide_false.
  - intros i x Hx. destruct (decide (i = id)) as [->|Hne].
    + rewrite bool_decide_true by done. split_and!; try done. intros cid wc [C1 C2 C3 C4 C5 C6].
      unfold revoked_credential. by rewrite C2, bool_decide_true.
    + rewrite bool_decide_false by done. split_and!; try done. intros cid wc [C1 C2 C3 C4 C5 C6].
      unfold revoked_credential. by rewrite C2, bool_decide_false.
  - intros i j x y Hx Hy Ax Ay. assert (∀ c, active (revoked_credential id now c) → active c) as Hold.
    { intros c. unfold revoked_credential, active. case_bool_decide; [|done]. by intros [_ [=]]. }
    apply (pk_active _ Hok); eauto.
Qed.
Lemma change_pairings `{UuidCrate, SerdeJsonCrate, !StoreSerde, DigestCrate} f d d' : pairings_ok d → change f d d' → pairings_ok d'.
Proof.
  intros Hok. destruct 1 as [d d' Hc|d d' Hn|d d' Hp|d i r Hr Hn|d i l Hl Hp Hv|d i l l' Hl Hw|d r c t Hc Hr|d r c Hc|d r row o Hr Hob Hf|d r row Hr Hrp
    |d i row now Hr Hx|d r s off row Hr Hn|d i row Hr Hn|d dg row Hr Hn|d h now];
    try (by apply (pairings_ok_same d)).
  - apply (pairings_ok_same d); [by destruct Hc..|done].
  - destruct (node_changes_frame d d' (rtc_once _ _ Hn)) as [Ep Ec]. apply (pairings_ok_same d); try done.
    by destruct Hn.
  - destruct Hp as [d id p Hp Hf Hr|d key row Hk|d id p now code Hp Hf Hr Hn|d id p cid wc now Hp Hf Hr Hn Hnode Hc Hnew Hpi Hni Ha Hre
      |d id p cid wc now Hp Hc Hack Hid Hn|d id p now Hp].
    + apply pairings_ok_written; [|done]. apply ps_unused; [done|]. intros cid c Hc Hcp.
      destruct (pk_linked _ Hok _ _ Hc) as [? Hl]. congruence.
    + by apply (pairings_ok_same d).
    + apply pairings_ok_written; [|done]. destruct Hf as (F1 & F2 & F3 & F4 & F5). by apply (ps_failed _ _ _ now code).
    + by apply pairings_ok_consumed.
    + by apply (pairings_ok_acknowledged d id p).
    + by apply pairings_ok_revoked.
  - apply (pairings_ok_rewritten (λ _ c, if wc_credential_hash c == h then set_wc_last_used_at (Some now) c else c)
      (λ _ p, p) d); [| | | |done].
    + split; cbn; [|intros i c; by case_match|done]. intros i. by rewrite lookup_fmap.
    + intros i. cbn. by destruct (_ !! i).
    + intros id p _. split_and!; try done. intros cid wc [C1 C2 C3 C4 C5 C6]. by case_match.
    + intros i j x y Hx Hy Ax Ay. apply (pk_active _ Hok); try done; revert Ax Ay; unfold active; by repeat case_match.
Qed.

(** ** Counting *)
Lemma NoDup_filter_rows {A} (q : Uuid * A → bool) (m : gmap Uuid A) : NoDup (List.filter q (map_to_list m)).
Proof.
  pose proof (NoDup_map_to_list m) as Hnd. induction (map_to_list m) as [|e l IH]; [constructor|].
  apply NoDup_cons in Hnd as [He Hnd]. cbn. destruct (q e); [|by apply IH]. constructor; [|by apply IH].
  intros Hin%list_elem_of_In%filter_In. apply He, list_elem_of_In. tauto.
Qed.
Lemma elem_of_filter_rows {A} (q : Uuid * A → bool) (m : gmap Uuid A) i x :
  (i, x) ∈ List.filter q (map_to_list m) ↔ m !! i = Some x ∧ q (i, x) = true.
Proof. by rewrite list_elem_of_In, filter_In, <-list_elem_of_In, elem_of_map_to_list. Qed.
Lemma pairing_credentials_none d id : no_credentials d id → pairing_credentials d id = [].
Proof.
  intros Hn. unfold pairing_credentials. destruct (List.filter _ _) as [|[i x] l] eqn:E; [done|].
  assert ((i, x) ∈ (i, x) :: l) as Hin by left. rewrite <-E, elem_of_filter_rows in Hin.
  destruct Hin as [Hi Hx]. apply bool_decide_eq_true in Hx. by destruct (Hn _ _ Hi).
Qed.
Lemma pairing_credentials_one d id p cid wc :
  consumed_by d id p cid wc → pairing_credentials d id = [(cid, wc)].
Proof.
  intros [C1 C2 _ C4 _ _]. apply Permutation_singleton_r. apply NoDup_Permutation; [apply NoDup_filter_rows|
    apply NoDup_singleton|]. intros [i x]. unfold pairing_credentials. rewrite elem_of_filter_rows, list_elem_of_singleton.
  cbn. rewrite bool_decide_eq_true. split.
  - intros [Hi Hx]. assert (i = cid) as -> by by eapply C4. congruence.
  - by intros [= -> ->].
Qed.
Lemma NoDup_equal_short {A} (l : list A) : NoDup l → (∀ x y, x ∈ l → y ∈ l → x = y) → length l ≤ 1.
Proof.
  intros Hnd Heq. destruct l as [|x [|y l]]; cbn; try lia. apply NoDup_cons in Hnd as [Hx _]. destruct Hx.
  rewrite (Heq x y); [left|left|right; left].
Qed.
Lemma one_active_ok d node : pairings_ok d → one_active_per_node d node = true.
Proof.
  intros Hok. unfold one_active_per_node. apply bool_decide_eq_true. apply NoDup_equal_short; [apply NoDup_filter_rows|].
  intros [i x] [j y]. rewrite !elem_of_filter_rows. cbn. rewrite !andb_true_iff, !bool_decide_eq_true, !is_none_true.
  intros (Hx & (Nx & Ax) & Rx) (Hy & (Ny & Ay) & Ry). apply is_some_true in Ax, Ay.
  assert (i = j) as -> by (eapply (pk_active _ Hok); [exact Hx|exact Hy|done|done|congruence]). congruence.
Qed.

(** The phase that the columns of a pairing spell out. *)
Definition phase_of (p : PairingRow) (expires_at now : DateTime) : PairingPhaseV1.t :=
  if is_some (pa_revoked_at p) then PairingPhaseV1.Revoked
  else if is_some (pa_acknowledged_at p) then PairingPhaseV1.Ready
  else if is_some (pa_used_at p) then PairingPhaseV1.Consumed
  else if is_some (pa_failed_at p) then PairingPhaseV1.Failed
  else if (expires_at <=? now)%Z then PairingPhaseV1.Expired
  else PairingPhaseV1.Pending.

Section phases.
Context `{UuidCrate, ChronoCrate, SerdeJsonCrate, !StoreSerde, DigestCrate}.
Lemma row_phase_defined d id p expires_at now :
  pairing_state d id p →
  row_phase d id p expires_at (is_some (pa_failed_at p)) now = Ok (phase_of p expires_at now).
Proof.
  unfold row_phase, phase_of, credential_state, classify_pairing_phase, pairing_node_exists. cbv zeta.
  intros [(F1 & F2 & F3 & F4 & F5) Hn|t code F1 F2 F3 F4 F5 Hn|cid wc F1 F2 F3 F4 F5 Hc].
  - rewrite (pairing_credentials_none _ _ Hn), F1, F2, F3, F4. cbn. by destruct (pa_revoked_at p), (expires_at <=? now)%Z.
  - rewrite (pairing_credentials_none _ _ Hn), F1, F2, F3, F4. cbn. by destruct (pa_revoked_at p).
  - rewrite (pairing_credentials_one _ _ _ _ _ Hc), F2, F4. destruct F1 as [used ->], F3 as [row Hrow], Hc as [C1 C2 C3 C4 C5 C6].
    cbn. rewrite Hrow, C3. rewrite !bool_decide_true by done. cbn.
    destruct (pa_acknowledged_at p), (pa_revoked_at p), (wc_activated_at wc), (wc_revoked_at wc); try done.
Qed.
Lemma reachable_pairings c : reachable c → pairings_ok (ctl_db c).
Proof.
  intros Hc. apply (reachable_invariant (λ _, pairings_ok)); [by split|intros f d d' _ Hok; by apply change_pairings|done].
Qed.

(** C33. Every pairing of a reachable controller has a phase.  The classification of
    pairings never meets an inconsistent row: it returns the phase that the row's own
    columns spell out; a failure time and a failure code, which decodes, come together;
    and no node ever has two active credentials. *)
Theorem pairing_phases_consistent (c : Controller) (Hreach : reachable c) :
  (∀ id p expires_at now, db_pairings (ctl_db c) !! id = Some p →
     row_phase (ctl_db c) id p expires_at (is_some (pa_failed_at p)) now = Ok (phase_of p expires_at now) ∧
     (is_some (pa_failed_at p) = is_some (pa_failure_code p)) ∧
     (∀ code, pa_failure_code p = Some code → is_ok (pairing_failure_code code) = true)) ∧
  ∀ node, one_active_per_node (ctl_db c) node = true.
Proof.
  pose proof (reachable_pairings c Hreach) as Hok. split; [|intros node; by apply one_active_ok].
  intros id p expires_at now Hp. pose proof (pk_state _ Hok _ _ Hp) as Hs.
  split; [by apply row_phase_defined|].
  destruct Hs as [(F1 & F2 & F3 & F4 & F5) Hn|t code F1 F2 F3 F4 F5 Hn|cid wc F1 F2 F3 F4 F5 Hc]; rewrite F4, F5; try done.
  split; [done|]. intros ? [= <-]. by destruct code.
Qed.

(** ** Idempotent requests *)
Lemma answers_follow d d' key requested a operation p :
  access_follows d d' → answers d key requested a operation p →
  ∃ p', answers d' key requested a operation p'.
Proof.
  intros [_ _ Hp Ho Hs] [A1 A2 A3 A4 A5 A6 A7 A8 A9 A10].
  destruct (Hp _ _ A2) as (p' & Hp' & _ & E2 & E3 & E4 & _). exists p'.
  split; rewrite ?E2, ?E3, ?E4, ?Hs; try done. by eapply lookup_weaken.
Qed.
Lemma created_answers env c key requested url pem a :
  ChronoCrateLaws → (run env (create_pairing_idempotent key requested url pem) c).2 = Ok a →
  let c' := (run env (create_pairing_idempotent key requested url pem) c).1 in
  (∃ operation p, answers (ctl_db c') key requested a operation p) ∧
  (is_Some (db_pairing_operations (ctl_db c) !! key ≫= λ o, db_pairings (ctl_db c) !! po_pairing_id o) →
   ip_replayed a = true).
Proof.
  intros Hlaws Ha. pose proof (run_moves moved env _ c _ (wp_create_idempotent env _ key requested url pem)) as Hrun.
  destruct (run env _ c) as [c' r]. cbn in *. destruct Hrun as (_ & _ & Hok).
  destruct (Hok a Ha) as (s & [Han Hr] & -> & _). split; [by apply Han|done].
Qed.

(** C32. An idempotent pairing is answered once and for all.  If a controller answered a
    pairing request under an operation key, then every later request under that key that
    it accepts, whatever happened in between, is a replay: the same pairing with the same
    one-time code, node, creation and expiry times, worker URL and certificate, and it
    asked for the same node. *)
Theorem idempotent_pairing_replays `{!ChronoCrateLaws} (c c2 : Controller) (Hreach : reachable c)
    env env' key requested requested' url url' pem pem' first again
    (Hfirst : (run env (handle (CreatePairingIdempotent key requested url pem)) c).2 = Ok first)
    (Hcalls : rtc calls (run env (handle (CreatePairingIdempotent key requested url pem)) c).1 c2)
    (Hagain : (run env' (handle (CreatePairingIdempotent key requested' url' pem')) c2).2 = Ok again) :
  ip_pairing again = ip_pairing first ∧ ip_worker_url again = ip_worker_url first ∧
  ip_certificate_pem again = ip_certificate_pem first ∧ requested' = requested ∧ ip_replayed again = true.
Proof.
  cbn [handle] in *. set (c1 := (run env _ c).1) in *.
  assert (calls c c1) as Hcall by (by exists env, _, (CreatePairingIdempotent key requested url pem)).
  assert (reachable c1) as Hr1 by (by apply (reachable_calls c); [|apply rtc_once]).
  pose proof (reachable_calls _ _ Hr1 Hcalls) as Hr2.
  destruct (created_answers _ _ _ _ _ _ _ _ Hfirst) as [(o & p & Han) _].
  destruct (answers_follow _ _ _ _ _ _ _ (reachable_access _ _ Hr1 Hcalls) Han) as [p2 Han2].
  destruct (created_answers _ _ _ _ _ _ _ _ Hagain) as [(o' & p' & Han') Hrep].
  set (c3 := (run env' _ c2).1) in *.
  assert (calls c2 c3) as Hcall2 by (by exists env', _, (CreatePairingIdempotent key requested' url' pem')).
  pose proof (reachable_access c2 c3 Hr2 (rtc_once _ _ Hcall2)) as Hf.
  destruct (answers_follow _ _ _ _ _ _ _ Hf Han2) as [p3 Han3].
  assert (ip_replayed again = true) as ->.
  { apply Hrep. rewrite (an_operation _ _ _ _ _ _ Han2). cbn. rewrite (an_pairing _ _ _ _ _ _ Han2). by eexists. }
  destruct Han3 as [A1 A2 A3 A4 A5 A6 A7 A8 A9 A10], Han' as [B1 B2 B3 B4 B5 B6 B7 B8 B9 B10].
  assert (o' = o) as -> by congruence. assert (p3 = p') as -> by congruence.
  split_and!; try congruence. destruct (ip_pairing again), (ip_pairing first). cbn in *. congruence.
Qed.
End phases.

(** ** Witnesses *)
Lemma pairing_phases_consistent_witness : ∃ p,
  db_pairings (ctl_db paired) !! 101%N = Some p ∧
  row_phase (ctl_db paired) 101%N p (seconds 910) (is_some (pa_failed_at p)) (seconds 20) = Ok PairingPhaseV1.Ready.
Proof.
  assert ((λ p, phase_of p (seconds 910) (seconds 20)) <$> db_pairings (ctl_db paired) !! 101%N = Some PairingPhaseV1.Ready)
    as Hp by by vm_compute.
  apply fmap_Some in Hp as (p & Hp & Hphase). exists p. split; [done|]. rewrite Hphase.
  apply (proj1 (pairing_phases_consistent paired paired_reachable) _ _ _ _ Hp).
Defined.

(** The same request twice, with the worker's whole job in between. *)
Definition operation (url : string) : Request IdempotentPairing :=
  CreatePairingIdempotent (lit "0123456789abcdef0123456789abcdef") None (lit url) (lit "pem").
Lemma idempotent_pairing_replays_witness : ∃ first again,
  (ask 30 2000 (operation "https://controller.local:7443") cleaned).2 = Ok first ∧
  (ask 40 2100 (operation "https://elsewhere.local:7443") (after 30 2000 (operation "https://controller.local:7443") cleaned)).2 = Ok again ∧
  ip_pairing again = ip_pairing first ∧ ip_worker_url again = ip_worker_url first.
Proof.
  destruct (ask 30 2000 (operation "https://controller.local:7443") cleaned).2 as [first|] eqn:Hfirst;
    [|by vm_compute in Hfirst].
  destruct (ask 40 2100 (operation "https://elsewhere.local:7443")
    (after 30 2000 (operation "https://controller.local:7443") cleaned)).2 as [again|] eqn:Hagain;
    [|by vm_compute in Hagain].
  destruct (idempotent_pairing_replays cleaned _ cleaned_reachable (at_second 30 2000) (at_second 40 2100)
    _ _ _ _ _ _ _ first again Hfirst (rtc_refl _ _) Hagain) as (Hpairing & Hurl & _).
  exists first, again. split_and!; [reflexivity|reflexivity|exact Hpairing|exact Hurl].
Defined.
