(* ===== verification/LogSafety.v ===== *)
(** What the log streams and artifacts of a reachable controller are: the chunks of a
    stream follow one another without gap or overlap and stay within the quotas of
    their run, so that reading a stream always succeeds and returns what was uploaded. *)
From Stdlib Require Import ZArith NArith Lia String.
From stdpp Require Import base option list numbers sorting sets gmap relations.
From S2P Require Import Prelude Text Crates Protocol RunState JobSpec CanonicalJson Scheduler WorkerReports WorkerRun ControllerDb FleetNodes Leases NodeWrites Uploads Pairings TxLogic Changes ChangeProofs MethodProofs ControllerCalls RunSafety Scenario.
Open Scope rust_scope.

(** ** Rows of a table, filtered and sorted *)
Lemma sort_by_snoc {A} (cmp : A → A → comparison) `{!TotalCmp cmp} l l' x :
  l' ≡ₚ x :: l → (∀ y, y ∈ l → cmp y x = Lt) →
  (∀ y z, y ∈ l → z ∈ l → cmp y z = Eq → y = z) → sort_by cmp l' = sort_by cmp l ++ [x].
Proof.
  intros Hp Hlast Hinj. apply (StronglySorted_unique_strong (cmp_le cmp)).
  - intros y z Hy Hz H1 H2. pose proof (cmp_le_eq cmp _ _ H1 H2) as Heq.
    rewrite (sort_by_perm cmp l'), Hp in Hy. rewrite (sort_by_perm cmp l) in Hz.
    rewrite elem_of_app, list_elem_of_singleton in Hz. rewrite elem_of_cons in Hy.
    destruct Hz as [Hz| ->], Hy as [->|Hy]; auto.
    + rewrite (cmp_opp (cmp:=cmp) z x), (Hlast _ Hz) in Heq. done.
    + rewrite (Hlast _ Hy) in Heq. done.
  - by apply sort_by_sorted.
  - apply StronglySorted_app_2; [|by apply sort_by_sorted|by repeat constructor].
    intros y z Hy. rewrite list_elem_of_singleton. intros ->. rewrite sort_by_perm in Hy. unfold cmp_le. by rewrite Hlast.
  - rewrite (sort_by_perm cmp l'), (sort_by_perm cmp l), Hp. apply Permutation_cons_append.
Qed.
Lemma filter_insert_rows {K A} `{Countable K} (p : K * A → bool) (m : gmap K A) k x :
  m !! k = None →
  List.filter p (map_to_list (<[k := x]> m)) ≡ₚ (if p (k, x) then [(k, x)] else []) ++ List.filter p (map_to_list m).
Proof. intros Hk. rewrite (filter_perm p _ _ (map_to_list_insert m k x Hk)). cbn. by destruct (p _). Qed.
Lemma sum_app l1 l2 : foldr Z.add 0%Z (l1 ++ l2) = (foldr Z.add 0 l1 + foldr Z.add 0 l2)%Z.
Proof. induction l1; cbn; lia. Qed.
Lemma sum_perm l1 l2 : l1 ≡ₚ l2 → foldr Z.add 0%Z l1 = foldr Z.add 0%Z l2.
Proof. induction 1; cbn; lia. Qed.
Lemma sum_filter {A} (p : A → bool) (f : A → Z) l :
  (∀ x, x ∈ l → 0 ≤ f x)%Z → (foldr Z.add 0 (map f (List.filter p l)) ≤ foldr Z.add 0 (map f l))%Z.
Proof.
  induction l as [|x l IH]; cbn; [done|]. intros Hf.
  assert (0 ≤ f x)%Z by (apply Hf; left). assert (∀ y, y ∈ l → 0 ≤ f y)%Z by (intros; apply Hf; by right).
  specialize (IH ltac:(done)). destruct (p x); cbn; lia.
Qed.

(** ** Streams *)
Abbreviation LogEntry := (((Uuid * rstr) * Z) * LogChunkRow)%type.
Definition entries (d : Db) (run : Uuid) (stream : rstr) : list LogEntry :=
  List.filter (λ e : LogEntry, e.1.1.2 == stream) (log_rows d run).
#[export] Instance by_stream_offset_total : TotalCmp by_stream_offset.
Proof.
  unfold by_stream_offset. apply then_with_total; [apply (on_total (λ e : LogEntry, e.1.1.2) str_cmp); apply _|].
  apply (on_total (λ e : LogEntry, e.1.2) Z.compare). apply _.
Qed.
Lemma elem_of_log_rows d run (e : LogEntry) :
  e ∈ log_rows d run ↔ db_log_chunks d !! e.1 = Some e.2 ∧ e.1.1.1 = run.
Proof.
  destruct e as [k x]. unfold log_rows. rewrite list_elem_of_In, filter_In, <-list_elem_of_In, elem_of_map_to_list.
  by rewrite bool_decide_eq_true.
Qed.
Lemma elem_of_entries d run stream (e : LogEntry) :
  e ∈ entries d run stream ↔ db_log_chunks d !! e.1 = Some e.2 ∧ e.1.1.1 = run ∧ e.1.1.2 = stream.
Proof.
  unfold entries. rewrite list_elem_of_In, filter_In, <-list_elem_of_In, elem_of_log_rows, bool_decide_eq_true. tauto.
Qed.
Lemma by_offset d run stream x y :
  x ∈ entries d run stream → y.1.1.2 = stream → by_stream_offset x y = Z.compare x.1.2 y.1.2.
Proof.
  rewrite elem_of_entries. intros (_ & _ & Hx) Hy. unfold by_stream_offset. rewrite Hx, Hy.
  by rewrite (cmp_refl str_cmp).
Qed.
Lemma entries_injective d run stream x y :
  x ∈ entries d run stream → y ∈ entries d run stream → by_stream_offset x y = Eq → x = y.
Proof.
  intros Hx Hy Hc. pose proof Hx as (Lx & Rx & Sx)%elem_of_entries. pose proof Hy as (Ly & Ry & Sy)%elem_of_entries.
  rewrite (by_offset d run stream) in Hc by done. apply Z.compare_eq in Hc.
  destruct x as [[[? ?] ?] ?], y as [[[? ?] ?] ?]. cbn in *. subst. congruence.
Qed.

Section insert.
Context (d : Db) (run : Uuid) (stream : rstr) (offset : Z) (row : LogChunkRow).
Context (Hnew : db_log_chunks d !! (run, stream, offset) = None).
Let d' := set_db_log_chunks (<[(run, stream, offset) := row]> (db_log_chunks d)) d.
Lemma log_rows_insert r :
  log_rows d' r ≡ₚ (if bool_decide (run = r) then [((run, stream, offset), row)] else []) ++ log_rows d r.
Proof. unfold log_rows, d'. cbn. by rewrite filter_insert_rows. Qed.
Lemma entries_insert r s :
  entries d' r s ≡ₚ (if bool_decide (run = r ∧ stream = s) then [((run, stream, offset), row)] else []) ++ entries d r s.
Proof.
  unfold entries. rewrite (filter_perm _ _ _ (log_rows_insert r)), List.filter_app.
  destruct (decide (run = r)) as [->|Hr]; [rewrite (bool_decide_true (r = r)) by done|
    rewrite (bool_decide_false (run = r)), bool_decide_false by naive_solver; done].
  cbn. destruct (decide (stream = s)) as [->|Hs]; [by rewrite !bool_decide_true|].
  by rewrite !bool_decide_false by naive_solver.
Qed.
Lemma stream_rows_insert :
  (∀ e, e ∈ entries d run stream → (e.1.2 < offset)%Z) →
  stream_rows d' run stream = stream_rows d run stream ++ [(offset, row)].
Proof.
  intros Hlast. unfold stream_rows. change (List.filter _ (log_rows ?x run)) with (entries x run stream).
  rewrite (sort_by_snoc by_stream_offset (entries d run stream) _ ((run, stream, offset), row)).
  - by rewrite map_app.
  - rewrite entries_insert. by rewrite bool_decide_true.
  - intros y Hy. rewrite (by_offset d run stream) by done. apply Z.compare_lt_iff. by apply Hlast.
  - apply entries_injective.
Qed.
Lemma stream_rows_other r s : ¬ (run = r ∧ stream = s) → stream_rows d' r s = stream_rows d r s.
Proof.
  intros Hne. unfold stream_rows. change (List.filter _ (log_rows ?x r)) with (entries x r s).
  f_equal. symmetry. apply sort_by_perm_eq; [apply _| |apply entries_injective].
  rewrite entries_insert. by rewrite bool_decide_false.
Qed.
End insert.

(** ** The invariant *)

(** Chunks without gap or overlap, each with content, from [start] on. *)
Fixpoint contiguous_from (start : Z) (rows : list (Z * LogChunkRow)) : Prop :=
  match rows with
  | [] => True
  | (offset, row) :: rows =>
      offset = start ∧ (0 < lc_chunk_length row)%Z ∧ contiguous_from (start + lc_chunk_length row) rows
  end.
Definition stream_length (rows : list (Z * LogChunkRow)) : Z :=
  foldr Z.add 0%Z (map (λ e, lc_chunk_length e.2) rows).
Lemma contiguous_length start rows : contiguous_from start rows → (0 ≤ stream_length rows)%Z.
Proof.
  revert start. induction rows as [|[o row] rows IH]; intros start; cbn; [done|].
  intros (_ & Hl & Hr). specialize (IH _ Hr). unfold stream_length in IH. lia.
Qed.
Lemma contiguous_before start rows offset row :
  contiguous_from start rows → (offset, row) ∈ rows →
  (start ≤ offset ∧ 0 < lc_chunk_length row ∧ offset + lc_chunk_length row ≤ start + stream_length rows)%Z.
Proof.
  revert start. induction rows as [|[o r] rows IH]; intros start; cbn; [by intros _ ?%not_elem_of_nil|].
  intros (-> & Hl & Hr). pose proof (contiguous_length _ _ Hr) as Hlen. unfold stream_length in *. cbn.
  rewrite elem_of_cons. intros [[= -> ->]|Hin]; [lia|]. specialize (IH _ Hr Hin). lia.
Qed.
Lemma contiguous_snoc start rows offset row :
  contiguous_from start rows → offset = (start + stream_length rows)%Z → (0 < lc_chunk_length row)%Z →
  contiguous_from start (rows ++ [(offset, row)]).
Proof.
  revert start. induction rows as [|[o r] rows IH]; intros start; unfold stream_length in *; cbn.
  - intros _ -> Hl. split_and!; [lia|done|done].
  - intros (-> & Hl & Hr) -> Hrow. split_and!; [done|done|]. apply IH; [done|lia|done].
Qed.

Record logs_ok (d : Db) : Prop := {
  lo_positive : ∀ k row, db_log_chunks d !! k = Some row → (0 < lc_chunk_length row)%Z;
  lo_stream : ∀ k row, db_log_chunks d !! k = Some row → valid_stream k.1.2 = true;
  lo_contiguous : ∀ run stream, contiguous_from 0 (stream_rows d run stream);
  lo_bytes : ∀ run, (foldr Z.add 0 (map (λ e : LogEntry, lc_chunk_length e.2) (log_rows d run)) ≤ Z.of_N MAX_RUN_LOG_BYTES)%Z;
  lo_count : ∀ run, (N.of_nat (length (log_rows d run)) ≤ MAX_RUN_LOG_CHUNKS)%N;
  lo_artifact_bytes : ∀ run,
    (foldr Z.add 0 (map (λ e : Uuid * ArtifactRow, atr_size e.2) (artifact_rows d run)) ≤ Z.of_N MAX_RUN_ARTIFACT_BYTES)%Z;
  lo_artifact_count : ∀ run, (N.of_nat (length (artifact_rows d run)) ≤ MAX_RUN_ARTIFACT_COUNT)%N
}.
Lemma logs_same d d' :
  db_log_chunks d' = db_log_chunks d → db_artifacts d' = db_artifacts d → logs_ok d → logs_ok d'.
Proof.
  intros El Ea [P S C B N AB AN]. unfold stream_rows, log_rows, artifact_rows in *. split;
    unfold stream_rows, log_rows, artifact_rows; rewrite ?El, ?Ea; done.
Qed.
Lemma empty_logs seed : logs_ok (empty_db seed).
Proof.
  assert (∀ run, log_rows (empty_db seed) run = []) as Hl by (intros; unfold log_rows; cbn; by rewrite map_to_list_empty).
  assert (∀ run, artifact_rows (empty_db seed) run = []) as Ha
    by (intros; unfold artifact_rows; cbn; by rewrite map_to_list_empty).
  split; intros; rewrite ?Hl, ?Ha; done.
Qed.

Section logs.
Context `{UuidCrate, ChronoCrate, SerdeJsonCrate, !StoreSerde, DigestCrate}.

Lemma logs_new_chunk f d run stream offset row :
  db_log_chunks d !! (run, stream, offset) = None → new_log f d run stream offset row → logs_ok d →
  logs_ok (set_db_log_chunks (<[(run, stream, offset) := row]> (db_log_chunks d)) d).
Proof.
  intros Hnew [_ _ Hs Hl Ho Hq Hn _] [P S C B N AB AN].
  pose proof (contiguous_length _ _ (C run stream)) as Hlen. unfold stream_length in Hlen.
  assert (offset = (0 + stream_length (stream_rows d run stream))%Z) as Hoff by (unfold stream_length; lia).
  split; try done.
  - intros k x. cbn. intros [[<- <-]|[_ ?]]%lookup_insert_Some; [done|by eapply P].
  - intros k x. cbn. intros [[<- <-]|[_ ?]]%lookup_insert_Some; [done|by eapply S].
  - intros r s. destruct (decide (run = r ∧ stream = s)) as [[<- <-]|Hne]; [|by rewrite stream_rows_other].
    rewrite stream_rows_insert; [by apply contiguous_snoc|done|].
    intros [k x] He.
    destruct (contiguous_before _ _ k.2 x (C run stream)) as (_ & Hlt & Hle); [|cbn; lia].
    unfold stream_rows. apply list_elem_of_In, in_map_iff. exists (k, x). split; [done|].
    apply list_elem_of_In. by rewrite (sort_by_perm by_stream_offset).
  - intros r. rewrite (sum_perm _ _ (Permutation_map _ (log_rows_insert d run stream offset row Hnew r))).
      case_bool_decide as Hr; cbn; [subst r; lia|by apply B].
  - intros r. rewrite (Permutation_length (log_rows_insert d run stream offset row Hnew r)).
      case_bool_decide as Hr; cbn; [subst r; lia|by apply N].
Qed.
Lemma logs_new_artifact f d id row :
  db_artifacts d !! id = None → new_artifact f d row → logs_ok d →
  logs_ok (set_db_artifacts (<[id := row]> (db_artifacts d)) d).
Proof.
  intros Hnew [Hq Hn _ _] [P S C B N AB AN].
  assert (∀ r, artifact_rows (set_db_artifacts (<[id := row]> (db_artifacts d)) d) r ≡ₚ
    (if bool_decide (atr_run_id row = r) then [(id, row)] else []) ++ artifact_rows d r) as Hrows
    by (intros; unfold artifact_rows; cbn; by rewrite filter_insert_rows).
  split; try done; intros r.
  - rewrite (sum_perm _ _ (Permutation_map _ (Hrows r))). case_bool_decide as Hr; cbn; [subst r; lia|by apply AB].
  - rewrite (Permutation_length (Hrows r)). case_bool_decide as Hr; cbn; [subst r; lia|by apply AN].
Qed.
Lemma change_logs f d d' : logs_ok d → change f d d' → logs_ok d'.
Proof.
  intros Hok. destruct 1 as [d d' Hc|d d' Hn|d d' Hp|d i r Hr Hn|d i l Hl Hp Hv|d i l l' Hl Hw|d r c t Hc Hu|d r c Hc|d r row o Hr Hob Hf|d r row Hr Hrp
    |d i row now Hr Hu|d r s off row Hr Hn|d i row Hr Hn|d dg row Hr Hn|d h now]; try (by apply (logs_same d)).
  - destruct Hc; by refine (logs_same _ _ _ _ Hok).
  - destruct Hn; by refine (logs_same _ _ _ _ Hok).
  - destruct Hp; by refine (logs_same _ _ _ _ Hok).
  - by eapply logs_new_chunk.
  - by eapply logs_new_artifact.
Qed.
Lemma reachable_logs c : reachable c → logs_ok (ctl_db c).
Proof.
  intros Hc. apply (reachable_invariant (λ _, logs_ok)); [intros; apply empty_logs|intros f d d' _ Hok; by apply change_logs|done].
Qed.

(** ** Reading *)
Lemma equal_not_different (P : Prop) `{Decision P} : P → negb (bool_decide P) = false.
Proof. by rewrite negb_bool_decide_false. Qed.

(** The content that a chunk's row points to. *)
Definition chunk_content (f : Files) (e : Z * LogChunkRow) (data : list N) : Prop :=
  safe_object_path (lc_relative_path e.2) = true ∧
  fs_objects f !! lc_relative_path e.2 = Some data ∧
  bytes_sha256 data = lc_sha256 e.2 ∧ Z.of_nat (length data) = lc_chunk_length e.2.
Lemma contents_exist f rows :
  (∀ e, e ∈ rows → stored_object f (lc_relative_path e.2) (lc_sha256 e.2) (lc_chunk_length e.2)) →
  ∃ contents, Forall2 (chunk_content f) rows contents.
Proof.
  induction rows as [|e rows IH]; intros Hrows; [exists []; constructor|].
  destruct IH as [contents Hc]; [intros e' He'; apply Hrows; by right|].
  destruct (Hrows e) as (Hs & data & Hd & Hsha & Hl); [left|]. exists (data :: contents). by constructor.
Qed.
Lemma contents_length f rows contents :
  Forall2 (chunk_content f) rows contents → Z.of_nat (length (concat contents)) = stream_length rows.
Proof.
  unfold stream_length. induction 1 as [|e data rows contents (_ & _ & _ & Hl) _ IH]; cbn; [done|].
  rewrite length_app. lia.
Qed.
Lemma byte_len_exact (data : list N) : (Z.of_nat (length data) ≤ Z.of_N u64_max)%Z → Z.of_N (byte_len data) = Z.of_nat (length data).
Proof. unfold byte_len. lia. Qed.
Lemma tx_bind_Ok {A B} (m : tx A) (k : A → tx B) env s s' a :
  m env s = (s', Ok a) → mbind k m env s = k a env s'.
Proof. unfold mbind, tx_bind. by intros ->. Qed.
Lemma read_object_Ok path data env s :
  safe_object_path path = true → fs_objects (tx_files s) !! path = Some data →
  read_generated_object path env s = (s, Ok data).
Proof.
  intros Hs Hd. unfold read_generated_object. rewrite Hs. change (negb true) with false.
  unfold guard_or, get_files, liftr, mbind, tx_bind, mret, tx_ret. by rewrite Hd.
Qed.
Lemma read_chunks_Ok rows contents env s output :
  contiguous_from (Z.of_nat (length output)) rows → Forall2 (chunk_content (tx_files s)) rows contents →
  (Z.of_nat (length output) + stream_length rows ≤ Z.of_N u64_max)%Z →
  read_chunks output rows env s = (s, Ok (output ++ concat contents)).
Proof.
  intros Hc Hf. revert output Hc. induction Hf as [|[offset row] data rows contents (Hs & Hd & Hsha & Hl) Hf IH];
    intros output Hc Hmax; [cbn; by rewrite app_nil_r|].
  destruct Hc as (Ho & Hpos & Hc). pose proof (contiguous_length _ _ Hc) as Hlen. unfold stream_length in Hmax, Hlen. cbn [map foldr fst snd] in *.
  assert (Z.of_N (byte_len output) = Z.of_nat (length output)) as Eo by (apply byte_len_exact; lia).
  assert (Z.of_N (byte_len data) = Z.of_nat (length data)) as Ed by (apply byte_len_exact; lia).
  cbn [read_chunks]. rewrite (tx_bind_Ok _ _ _ _ s tt);
    [|unfold guard_or, as_u64; rewrite equal_not_different; [done|lia]].
  rewrite (tx_bind_Ok _ _ _ _ s data); [|by apply read_object_Ok].
  rewrite (tx_bind_Ok _ _ _ _ s tt);
    [|unfold guard_or, as_u64; rewrite !equal_not_different; [done|done|lia]].
  rewrite IH; [by rewrite <-app_assoc|by rewrite length_app, Nat2Z.inj_add, Hl|].
  rewrite length_app, Nat2Z.inj_add. unfold stream_length. lia.
Qed.
Lemma chunk_slice f start rows contents e :
  contiguous_from start rows → Forall2 (chunk_content f) rows contents → e ∈ rows →
  ∃ data, chunk_content f e data ∧ take (length data) (drop (Z.to_nat (e.1 - start)) (concat contents)) = data.
Proof.
  intros Hc Hf. revert start Hc. induction Hf as [|[o row] data rows contents Hd Hf IH]; intros start Hc;
    [by intros ?%not_elem_of_nil|].
  destruct Hc as (-> & Hpos & Hc). rewrite elem_of_cons. intros [->|He].
  - exists data. split; [done|]. cbn [fst concat]. rewrite Z.sub_diag. change (Z.to_nat 0) with 0%nat.
    by rewrite drop_0, take_app_length.
  - destruct (IH _ Hc He) as (piece & Hp & Ht). exists piece. split; [done|]. destruct Hd as (_ & _ & _ & Hl).
    destruct e as [o e]. destruct (contiguous_before _ _ _ _ Hc He) as [Hle _]. cbn in *. rewrite <-Ht at 2. f_equal.
    rewrite drop_app_ge by lia. f_equal. lia.
Qed.
Lemma elem_of_stream_rows d run stream offset row :
  (offset, row) ∈ stream_rows d run stream ↔ db_log_chunks d !! (run, stream, offset) = Some row.
Proof.
  unfold stream_rows. change (List.filter _ (log_rows d run)) with (entries d run stream).
  rewrite list_elem_of_In, in_map_iff. setoid_rewrite <-list_elem_of_In.
  setoid_rewrite (sort_by_perm by_stream_offset). setoid_rewrite elem_of_entries. split.
  - intros ([[[r s] o] x] & [= -> ->] & Hx & Hr & Hs). cbn in *. by subst.
  - intros Hx. by exists ((run, stream, offset), row).
Qed.
Lemma stream_within_log d run stream :
  logs_ok d → (stream_length (stream_rows d run stream) ≤ Z.of_N MAX_RUN_LOG_BYTES)%Z ∧
    (length (stream_rows d run stream) ≤ length (log_rows d run))%nat.
Proof.
  intros Hok. unfold stream_length, stream_rows. rewrite map_map, length_map. cbn.
  rewrite (sum_perm _ _ (Permutation_map _ (sort_by_perm by_stream_offset _))), (sort_by_perm by_stream_offset).
  split; [|apply List.filter_length_le]. etrans; [apply sum_filter|by apply (lo_bytes _ Hok)].
  intros e He%elem_of_log_rows. destruct He as [He _]. pose proof (lo_positive _ Hok _ _ He). lia.
Qed.

(** The job that a reader finds under an identifier. *)
Definition job_named (d : Db) (id : Uuid) : result (StoreError.t json_error) StoredJob :=
  match job_by_job_id d id with Err StoreError.NotFound => job_by_run_id d id | r => r end.
Lemma prefer_named env s id : get_job_prefer_job_id id env s = (s, job_named (tx_db s) id).
Proof. unfold get_job_prefer_job_id, job_named, mbind, tx_bind, get_db. by destruct (job_by_job_id _ _) as [|[]]. Qed.
Lemma stream_contents c run stream :
  reachable c → ∃ contents, Forall2 (chunk_content (ctl_files c)) (stream_rows (ctl_db c) run stream) contents.
Proof.
  intros Hc. apply contents_exist. intros [offset row] He%elem_of_stream_rows.
  assert (intact (ctl_files c) (ctl_db c)) as Hi.
  { apply (reachable_invariant intact); [by split|intros f d d' _; apply change_intact|done]. }
  by eapply (in_logs _ _ Hi).
Qed.
Lemma read_log_Ok c env id stored stream contents :
  reachable c → job_named (ctl_db c) id = Ok stored → valid_stream stream = true →
  Forall2 (chunk_content (ctl_files c)) (stream_rows (ctl_db c) (run_id (st_run stored)) stream) contents →
  run env (read_log id stream) c = (c, Ok (concat contents)).
Proof.
  intros Hc Hjob Hs Hcontents. pose proof (reachable_logs c Hc) as Hok.
  set (s := {| tx_db := ctl_db c; tx_committed := ctl_db c; tx_files := ctl_files c; tx_tick := 0 |}).
  assert (read_log id stream env s = (s, Ok (concat contents))) as Hread.
  { unfold read_log. rewrite (tx_bind_Ok _ _ _ _ s tt) by (by rewrite Hs).
    rewrite (tx_bind_Ok _ _ _ _ s stored) by (by rewrite prefer_named, <-Hjob).
    rewrite (tx_bind_Ok _ _ _ _ s (ctl_db c)) by done.
    rewrite (read_chunks_Ok _ contents); [done|apply (lo_contiguous _ Hok)|done|].
    destruct (stream_within_log _ (run_id (st_run stored)) stream Hok) as [Hle _].
    etrans; [apply Z.add_le_mono; [reflexivity|exact Hle]|]. by vm_compute. }
  unfold run. fold s. rewrite Hread. by destruct c.
Qed.

Lemma accepted_chunk_row c env credential run_credential run_id' lease stream offset sha data chunk :
  reachable c →
  (run env (put_log_chunk credential run_credential run_id' lease stream offset sha data) c).2 = Ok chunk →
  valid_stream stream = true ∧
  ∃ row, db_log_chunks (ctl_db (run env (put_log_chunk credential run_credential run_id' lease stream offset sha data) c).1)
      !! (run_id', stream, as_i64 offset) = Some row ∧
    lc_sha256 row = sha ∧ as_u64 (lc_chunk_length row) = byte_len data.
Proof.
  intros Hreach Ha.
  pose proof (run_moves moved env _ c _ (wp_put_log env {| tx_db := ctl_db c; tx_committed := ctl_db c;
    tx_files := ctl_files c; tx_tick := 0 |} credential run_credential run_id' lease stream offset sha data
    (reachable_consistent c Hreach))) as Hrun.
  destruct (run env _ c) as [c' r]. cbn in *. destruct Hrun as (_ & _ & Hok).
  destruct (Hok chunk Ha) as (s & (_ & Hs & Hrow) & -> & _). done.
Qed.
(** A chunk within the quota has the offset and length that were sent. *)
Lemma within_stream offset (data piece : list N) row total :
  (0 ≤ as_i64 offset)%Z → (as_i64 offset + lc_chunk_length row ≤ 0 + total)%Z → (0 < lc_chunk_length row)%Z → (total ≤ Z.of_N MAX_RUN_LOG_BYTES)%Z →
  Z.of_nat (length piece) = lc_chunk_length row → as_u64 (lc_chunk_length row) = byte_len data →
  Z.to_nat (as_i64 offset) = N.to_nat offset ∧ length piece = N.to_nat (byte_len data) ∧
  byte_len piece = byte_len data.
Proof.
  unfold as_i64, as_u64, byte_len, i64_max, u64_max.
  intros. assert (Z.of_N MAX_RUN_LOG_BYTES < 2 ^ 62)%Z by by vm_compute. lia.
Qed.

(** The bytes of a stored chunk inside its stream. *)
Lemma stored_piece c run_id' stream offset row contents (data : list N) sha :
  logs_ok (ctl_db c) → db_log_chunks (ctl_db c) !! (run_id', stream, as_i64 offset) = Some row →
  Forall2 (chunk_content (ctl_files c)) (stream_rows (ctl_db c) run_id' stream) contents →
  lc_sha256 row = sha → as_u64 (lc_chunk_length row) = byte_len data →
  let piece := take (N.to_nat (byte_len data)) (drop (N.to_nat offset) (concat contents)) in
  byte_len piece = byte_len data ∧ bytes_sha256 piece = sha.
Proof.
  intros Hok Hrow2 Hc Hsha Hlen. cbn zeta.
  apply elem_of_stream_rows in Hrow2. pose proof (lo_contiguous _ Hok run_id' stream) as Hcont.
  destruct (contiguous_before _ _ _ _ Hcont Hrow2) as (Hoff0 & Hpos & Hoff).
  destruct (stream_within_log _ run_id' stream Hok) as [Hbytes _].
  destruct (chunk_slice _ _ _ _ _ Hcont Hc Hrow2) as (piece & (_ & _ & Hpsha & Hplen) & Hslice).
  cbn [fst snd] in *. rewrite Z.sub_0_r in Hslice.
  destruct (within_stream offset data piece row (stream_length (stream_rows (ctl_db c) run_id' stream)))
    as (E1 & E2 & E3); [done..|]. rewrite <-E1, <-E2, Hslice. split; [congruence|congruence].
Qed.

(** An identifier under which a reader finds the row of a run: its job's, or its own if
    no job bears it. *)
Definition found_as (d : Db) (run : Uuid) (row : JobRow) (id : Uuid) : Prop :=
  id = jr_job_id row ∨ id = run ∧ ∀ r x, db_jobs d !! r = Some x → jr_job_id x ≠ id.
Lemma found_named c run row id :
  reachable c → db_jobs (ctl_db c) !! run = Some row → found_as (ctl_db c) run row id →
  is_ok (decode_job_row row) = true →
  ∃ stored, job_named (ctl_db c) id = Ok stored ∧ run_id (st_run stored) = run.
Proof.
  intros Hc Hrow Hid Hok. destruct (decode_job_row row) as [stored|e] eqn:Hd; [clear Hok|done]. exists stored.
  assert (jobs_named (ctl_db c)) as [_ Hunique].
  { apply (reachable_invariant (λ _, jobs_named)); [by split|intros f d d' _; apply change_named|done]. }
  split; [|rewrite (decode_Ok _ _ Hd); by apply (cs_keyed _ (reachable_consistent c Hc))].
  unfold job_named, job_by_job_id, job_by_run_id. destruct (List.find _ _) as [[r x]|] eqn:Hf.
  - apply find_some in Hf as [Hin Hx]. apply list_elem_of_In, elem_of_map_to_list in Hin.
    cbn in Hx. apply bool_decide_eq_true in Hx. destruct Hid as [->|[-> Hno]]; [|by destruct (Hno _ _ Hin)].
    assert (r = run) as -> by by eapply Hunique. rewrite Hrow in Hin. injection Hin as <-. cbn. by rewrite Hd.
  - cbn. destruct Hid as [->|[-> _]]; [|by rewrite Hrow; cbn; rewrite Hd].
    eapply (find_none _ _) in Hf; [|apply list_elem_of_In, elem_of_map_to_list, Hrow]. cbn in Hf.
    by apply bool_decide_eq_false in Hf.
Qed.
Lemma reachable_owned c : reachable c → logs_owned (ctl_db c).
Proof.
  intros Hc. by apply (reachable_invariant (λ _, logs_owned)); [|intros f d d' _; apply change_owned|].
Qed.
Lemma read_log_fails c env id stream e :
  (if valid_stream stream then job_named (ctl_db c) id else Err StoreError.InvalidUpload) = Err e →
  run env (read_log id stream) c = (c, Err e).
Proof.
  intros He. set (s := {| tx_db := ctl_db c; tx_committed := ctl_db c; tx_files := ctl_files c; tx_tick := 0 |}).
  assert (read_log id stream env s = (s, Err e)) as Hread.
  { unfold read_log, guard_or. destruct (valid_stream stream); cbn [negb]; [|by injection He as <-].
    rewrite (tx_bind_Ok _ _ _ _ s tt) by done. unfold mbind, tx_bind. rewrite prefer_named.
    change (tx_db s) with (ctl_db c). by rewrite He. }
  unfold run. fold s. rewrite Hread. by destruct c.
Qed.

(** C5. Logs read back complete.  In every reachable controller, reading a stream changes
    nothing.  If the stream's name is invalid or no job is found and read under the
    identifier, the call fails with just that error; otherwise it never fails and returns
    the concatenation of the contents of the stream's chunks, which start at offset zero
    and follow one another without gap or overlap, and stay within the byte and chunk
    quotas of a run.  A job whose run has any chunk is always found and read. *)
Theorem read_log_complete c (Hreach : reachable c) env id stream :
  match (if valid_stream stream then job_named (ctl_db c) id else Err StoreError.InvalidUpload) with
  | Err e => run env (handle (ReadLog id stream)) c = (c, Err e)
  | Ok stored =>
      let rows := stream_rows (ctl_db c) (run_id (st_run stored)) stream in
      ∃ contents, Forall2 (chunk_content (ctl_files c)) rows contents ∧ contiguous_from 0 rows ∧
        run env (handle (ReadLog id stream)) c = (c, Ok (concat contents)) ∧
        (Z.of_nat (length (concat contents)) ≤ Z.of_N MAX_RUN_LOG_BYTES)%Z ∧
        (N.of_nat (length rows) ≤ MAX_RUN_LOG_CHUNKS)%N
  end ∧
  (∀ run row, db_jobs (ctl_db c) !! run = Some row → found_as (ctl_db c) run row id →
     log_rows (ctl_db c) run ≠ [] →
     ∃ stored, job_named (ctl_db c) id = Ok stored ∧ run_id (st_run stored) = run).
Proof.
  split.
  - destruct (if valid_stream stream then _ else _) as [stored|e] eqn:Hnamed; [|by apply read_log_fails].
    destruct (valid_stream stream) eqn:Hstream; [|done].
    cbn zeta. destruct (stream_contents c (run_id (st_run stored)) stream Hreach) as [contents Hc].
    pose proof (reachable_logs c Hreach) as Hok.
    destruct (stream_within_log _ (run_id (st_run stored)) stream Hok) as [Hbytes Hcount].
    exists contents. split_and!; [done|apply (lo_contiguous _ Hok)|by eapply read_log_Ok| |].
    + by rewrite (contents_length _ _ _ Hc).
    + pose proof (lo_count _ Hok (run_id (st_run stored))). lia.
  - intros run row Hrow Hid Hlog. destruct (log_rows (ctl_db c) run) as [|e rest] eqn:He; [done|].
    assert (e ∈ log_rows (ctl_db c) run) as Hin by (rewrite He; by left).
    apply elem_of_log_rows in Hin as [Hin Hr]. destruct e as [[[r stream'] offset] chunk]. cbn in *. subst r.
    destruct (lw_chunks _ (reachable_owned c Hreach) _ _ _ _ Hin) as (row' & Hrow' & _ & Hd).
    apply (found_named c run row); [done..|congruence].
Qed.

(** C4. Uploaded logs stay readable.  Once a controller has accepted a log chunk of a run,
    then at every later time the run has its job row, and reading the stream under the
    job's identifier, or under the run's if no job bears it, succeeds, and the bytes at
    the chunk's offset, as many as were sent, have the SHA-256 under which the chunk was
    sent. *)
Theorem uploaded_log_readable c (Hreach : reachable c) env credential run_credential run_id' lease stream offset sha
    data chunk (Haccepted : (run env (handle (PutLogChunk credential run_credential run_id' lease stream offset sha data)) c).2 = Ok chunk)
    c2 (Hcalls : rtc calls (run env (handle (PutLogChunk credential run_credential run_id' lease stream offset sha data)) c).1 c2) :
  ∃ row, db_jobs (ctl_db c2) !! run_id' = Some row ∧
    ∀ env' id, found_as (ctl_db c2) run_id' row id → ∃ log, run env' (handle (ReadLog id stream)) c2 = (c2, Ok log) ∧
      let piece := take (N.to_nat (byte_len data)) (drop (N.to_nat offset) log) in
      byte_len piece = byte_len data ∧ bytes_sha256 piece = sha.
Proof.
  cbn [handle] in *. set (c1 := (run env _ c).1) in *.
  destruct (accepted_chunk_row _ _ _ _ _ _ _ _ _ _ _ Hreach Haccepted) as (Hstream & row & Hrow & Hsha & Hlen).
  fold c1 in Hrow.
  assert (calls c c1) as Hcall
    by (by exists env, _, (PutLogChunk credential run_credential run_id' lease stream offset sha data)).
  assert (reachable c1) as Hr1 by (by apply (reachable_calls c); [|apply rtc_once]).
  pose proof (reachable_calls _ _ Hr1 Hcalls) as Hr2. pose proof (reachable_logs c2 Hr2) as Hok.
  assert (evidence_kept (ctl_db c1) (ctl_db c2)) as Hkept.
  { apply (controls_closed evidence_kept); [intros f d d' _; apply change_evidence|done..]. }
  assert (db_log_chunks (ctl_db c2) !! (run_id', stream, as_i64 offset) = Some row) as Hrow2
    by (by eapply lookup_weaken; [exact Hrow|apply (ek_logs _ _ Hkept)]).
  clear Hrow Hkept Hcall Hr1 Hcalls.
  destruct (lw_chunks _ (reachable_owned c2 Hr2) _ _ _ _ Hrow2) as (job & Hjob & _ & Hdecode).
  exists job. split; [done|]. intros env' id Hid.
  destruct (found_named c2 run_id' job id Hr2 Hjob Hid Hdecode) as (stored & Hnamed & <-).
  destruct (stream_contents c2 (run_id (st_run stored)) stream Hr2) as [contents Hc].
  exists (concat contents). split; [by eapply read_log_Ok|]. by eapply stored_piece.
Qed.
End logs.

(** ** Witnesses *)
Lemma completed_job : (λ s, run_id (st_run s)) <$> match job_named (ctl_db completed) 503%N with Ok s => Some s | Err _ => None end = Some 503%N.
Proof. by vm_compute. Qed.
Lemma completed_stdout : (ask 30 1700 (ReadLog 503%N (lit "stdout")) completed).2 = Ok (bytes (lit "compiling done")).
Proof. by vm_compute. Qed.
Lemma read_log_complete_witness : ∃ contents,
  contiguous_from 0 (stream_rows (ctl_db completed) 503%N (lit "stdout")) ∧
  ask 30 1700 (ReadLog 503%N (lit "stdout")) completed = (completed, Ok (concat contents)) ∧
  concat contents = bytes (lit "compiling done").
Proof.
  pose proof completed_job as Hj. destruct (read_log_complete completed completed_reachable (at_second 30 1700) 503%N (lit "stdout")) as [H _].
  assert (valid_stream (lit "stdout") = true) as Hs by reflexivity. rewrite Hs in H. clear Hs. destruct (job_named (ctl_db completed) 503%N) as [stored|] eqn:Hjob; [|discriminate Hj].
  injection Hj as Hj. destruct H as (contents & _ & Hcont & Hread & _). rewrite Hj in Hcont.
  exists contents. split; [exact Hcont|]. split; [exact Hread|]. pose proof completed_stdout as Hout.
  unfold ask in Hout. rewrite Hread in Hout. by injection Hout.
Defined.
Lemma uploaded_log_readable_witness : ∃ row log,
  db_jobs (ctl_db completed) !! 503%N = Some row ∧
  ask 30 1700 (ReadLog (jr_job_id row) (lit "stdout")) completed = (completed, Ok log) ∧
  bytes_sha256 (take 9 (drop 0 log)) = bytes_sha256 (bytes (lit "compiling")).
Proof.
  destruct (ask 17 800 (chunk "stdout" "compiling" 0) running).2 as [a|] eqn:Ha; [|by vm_compute in Ha].
  assert (rtc calls (ask 17 800 (chunk "stdout" "compiling" 0) running).1 completed) as Hcalls.
  { change (rtc calls (after 17 800 (chunk "stdout" "compiling" 0) running) completed). scenario. }
  destruct (uploaded_log_readable running running_reachable (at_second 17 800) _ _ _ _ _ _ _ _ a Ha completed Hcalls)
    as (row & Hrow & Hread).
  destruct (Hread (at_second 30 1700) (jr_job_id row) (or_introl eq_refl)) as (log & Hlog & _ & Hsha).
  exists row, log. split; [exact Hrow|]. split; [exact Hlog|exact Hsha].
Defined.
