(* ===== verification/PlanSafety.v ===== *)
(** Plans of the whole controller: what [CreatePlan] stores is the pure planning
    decision of [Planning] on the fleet that the transaction read after expiry, and
    [GetPlan] reads it back until it expires from chrono's range. *)
From Stdlib Require Import ZArith NArith Lia String.
From stdpp Require Import base option list numbers sets gmap relations.
From S2P Require Import Prelude Text Crates Protocol RunState JobSpec CanonicalJson Scheduler NodeState PlacementBinding ControllerDb Planning FleetNodes Leases RunControl TxLogic Changes ChangeProofs MethodProofs ControllerCalls RunSafety Scenario.
Open Scope rust_scope.

Section plans.
Context `{UuidCrate, ChronoCrate, SerdeJsonCrate, !StoreSerde, DigestCrate}.

(** A successful sequence of transaction steps. *)
Lemma tx_bind_returns {A B} (m : tx A) (k : A → tx B) env s s' b :
  mbind k m env s = (s', Ok b) ↔ ∃ a s1, m env s = (s1, Ok a) ∧ k a env s1 = (s', Ok b).
Proof.
  unfold mbind, tx_bind. destruct (m env s) as [s1 [a|e]]; [|by split; [|intros (? & ? & [=] & _)]].
  split; [intros Hk; by exists a, s1|]. by intros (? & ? & [= <- <-] & Hk).
Qed.
Lemma liftr_Ok {A} (m : result _ A) env s s' a : liftr m env s = (s', Ok a) ↔ s' = s ∧ m = Ok a.
Proof. unfold liftr. split; [by intros [= -> ->]|by intros [-> ->]]. Qed.
#[local] Opaque liftr.
Lemma unit_bind_Ok {B} (m : tx unit) (k : tx B) env s s' b :
  mbind (λ _, k) m env s = (s', Ok b) ↔ ∃ s1, m env s = (s1, Ok tt) ∧ k env s1 = (s', Ok b).
Proof. rewrite tx_bind_returns. split; [intros ([] & s1 & ?); by exists s1|intros (s1 & ?); by exists tt, s1]. Qed.

(** A transaction of a controller that has read the clock once. *)
Definition begun (c : Controller) : TxState :=
  tick {| tx_db := ctl_db c; tx_committed := ctl_db c; tx_files := ctl_files c; tx_tick := 0 |}.

(** The specification of [create_plan]: expired leases are handled as of the current
    second; the fleet is what the swept database then shows; the pure decision of
    [Planning.create_plan] on that fleet and on the revisions of the swept database is
    the binding, under a fresh identifier; and the controller keeps the swept database
    with the one new row. *)
Inductive planned (env : Env) (c : Controller) (scheduler : Scheduler) (job : JobSpec) : Controller → StoredPlan → Prop :=
| planned_by now count swept nodes observed binding :
    from_timestamp (unix (env_clock env 0)) = Some now →
    expire_leases (unix now) env (begun c) = (swept, Ok count) →
    fresh_available_nodes now env swept = (observed, Ok nodes) →
    Planning.create_plan scheduler
      {| ps_nodes := nodes; ps_fleet_revision := db_fleet_revision (tx_db swept);
         ps_policy_revision := db_policy_revision (tx_db swept) |}
      (env_uuid env (S (tx_tick observed))) job now (env_clock env (tx_tick observed)) = Ok binding →
    db_plans (tx_db swept) !! pb_plan_id binding = None →
    planned env c scheduler job
      {| ctl_db := set_db_plans (<[pb_plan_id binding := plan_row binding None]> (db_plans (tx_db swept))) (tx_db swept);
         ctl_files := tx_files swept |}
      {| sp_binding := binding; sp_used_at := None |}.

Lemma normalized_Ok job env s s' r :
  normalized job env s = (s', Ok r) ↔
  s' = s ∧ JobSpec_validate job = Ok tt ∧ r.1 = normalize_job_spec job ∧
  canonical_job_digest (normalize_job_spec job) = Ok r.2.
Proof.
  unfold normalized. rewrite unit_bind_Ok. setoid_rewrite liftr_Ok. setoid_rewrite map_err_Ok. split.
  - intros (s1 & [-> Hv] & (digest & s2 & [-> Hd%map_err_Ok]%liftr_Ok & [= <- <-])%tx_bind_returns). by split_and!.
  - destruct r as [? digest]. cbn. intros (-> & Hv & -> & Hd). exists s. split; [done|].
    apply tx_bind_returns. exists digest, s. split; [|done]. by apply liftr_Ok; rewrite map_err_Ok.
Qed.
Lemma seconds_Ok env s s' now :
  now_in_seconds env s = (s', Ok now) ↔ s' = tick s ∧ from_timestamp (unix (env_clock env (tx_tick s))) = Some now.
Proof.
  unfold now_in_seconds. rewrite tx_bind_returns. split.
  - intros (t & s1 & Ht & [-> Hnow%ok_or_Ok]%liftr_Ok). unfold utc_now in Ht. by simplify_eq.
  - intros [-> Hnow]. eexists _, (tick s). split; [reflexivity|]. apply liftr_Ok. by rewrite ok_or_Ok.
Qed.
Lemma binding_stored binding job now :
  PlacementPlanBindingV1_validate binding (Some job) (Some now) = Ok tt →
  PlacementPlanBindingV1_validate binding None None = Ok tt.
Proof. rewrite !PlacementPlanBindingV1_validate_Ok. intros []. by split. Qed.
(** The planning decision, part by part. *)
Lemma decided_Ok scheduler state plan_id job now observed_at binding :
  Planning.create_plan scheduler state plan_id job now observed_at = Ok binding ↔
  JobSpec_validate job = Ok tt ∧ ∃ digest decision revision,
    canonical_job_digest (normalize_job_spec job) = Ok digest ∧
    schedule_contexts_at scheduler (normalize_job_spec job) (map record_scheduling (ps_nodes state)) observed_at = Ok decision ∧
    record_revision <$> find_record (ps_nodes state) (dec_node_id decision) = Some revision ∧
    new_plan_binding plan_id (normalize_job_spec job) digest decision now (ps_fleet_revision state) revision
      (ps_policy_revision state) = Ok binding.
Proof.
  unfold Planning.create_plan. cbv zeta. rewrite bind_unit_Ok, map_err_Ok. apply and_iff_compat_l.
  rewrite bind_Ok. split.
  - intros (digest & Hd%map_err_Ok & Hr). apply bind_Ok in Hr as (decision & Hs%map_err_Ok & Hr).
    apply bind_Ok in Hr as (revision & Hf%ok_or_Ok & Hb). by exists digest, decision, revision.
  - intros (digest & decision & revision & Hd & Hs & Hf & Hb). exists digest. split; [by apply map_err_Ok|].
    apply bind_Ok. exists decision. split; [by apply map_err_Ok|].
    apply bind_Ok. exists revision. split; [by apply ok_or_Ok|done].
Qed.
Lemma new_plan_Ok scheduler job digest now nodes env s s' r :
  new_plan scheduler job digest now nodes env s = (s', Ok r) ↔
  s' = tick (tick s) ∧ schedule_contexts_at scheduler job (map record_scheduling nodes) (env_clock env (tx_tick s)) = Ok r.1 ∧
  ∃ revision, record_revision <$> find_record nodes (dec_node_id r.1) = Some revision ∧
    new_plan_binding (env_uuid env (S (tx_tick s))) job digest r.1 now (db_fleet_revision (tx_db s)) revision
      (db_policy_revision (tx_db s)) = Ok r.2.
Proof.
  unfold new_plan, schedule_now. rewrite tx_bind_returns. split.
  - intros (decision & s1 & (observed & s2 & [= <- <-] & [-> Hd%map_err_Ok]%liftr_Ok)%tx_bind_returns & Hr).
    apply tx_bind_returns in Hr as (revision & s3 & [-> Hf%ok_or_Ok]%liftr_Ok & Hr).
    apply tx_bind_returns in Hr as (d & s4 & [= <- <-] & Hr). apply tx_bind_returns in Hr as (id & s5 & [= <- <-] & Hr).
    apply tx_bind_returns in Hr as (binding & s6 & [-> Hb]%liftr_Ok & [= <- <-]). split_and!; [done..|]. by exists revision.
  - destruct r as [decision binding]. cbn [fst snd]. intros (-> & Hd & revision & Hf & Hb).
    exists decision, (tick s). split.
    { apply tx_bind_returns. eexists _, _. split; [reflexivity|]. apply liftr_Ok. by rewrite map_err_Ok. }
    apply tx_bind_returns. exists revision, (tick s). split; [apply liftr_Ok; by rewrite ok_or_Ok|].
    apply tx_bind_returns. eexists _, _. split; [reflexivity|]. apply tx_bind_returns. eexists _, _. split; [reflexivity|].
    apply tx_bind_returns. exists binding, (tick (tick s)). split; [by apply liftr_Ok|done].
Qed.
Lemma insert_plan_Ok binding env s s' u :
  insert_plan_tx binding None env s = (s', Ok u) ↔
  PlacementPlanBindingV1_validate binding None None = Ok tt ∧ db_plans (tx_db s) !! pb_plan_id binding = None ∧
  s' = {| tx_db := set_db_plans (<[pb_plan_id binding := plan_row binding None]> (db_plans (tx_db s))) (tx_db s);
          tx_committed := tx_committed s; tx_files := tx_files s; tx_tick := tx_tick s |}.
Proof.
  destruct u. unfold insert_plan_tx. rewrite unit_bind_Ok. setoid_rewrite liftr_Ok. setoid_rewrite map_err_Ok. split.
  - intros (s1 & [-> Hv] & (d & s2 & Hg & Hi)%tx_bind_returns). injection Hg as <- <-.
    destruct (db_plans (tx_db s) !! _) eqn:E; [done|]. by injection Hi as <-.
  - intros (Hv & Hn & ->). exists s. split; [done|]. apply tx_bind_returns. eexists _, _. split; [reflexivity|].
    by rewrite Hn.
Qed.

Lemma create_plan_iff env c job scheduler c' plan :
  run env (handle (CreatePlan job scheduler)) c = (c', Ok plan) ↔ planned env c scheduler job c' plan.
Proof.
  cbn [handle]. set (s0 := {| tx_db := ctl_db c; tx_committed := ctl_db c; tx_files := ctl_files c; tx_tick := 0 |}).
  transitivity (∃ s', RunControl.create_plan job scheduler env s0 = (s', Ok plan) ∧
    c' = {| ctl_db := tx_db s'; ctl_files := tx_files s' |}).
  { unfold run. fold s0. destruct (RunControl.create_plan job scheduler env s0) as [s' [p|e]]; naive_solver. }
  split.
  - intros (s' & Hrun & ->). unfold RunControl.create_plan in Hrun.
    apply tx_bind_returns in Hrun as ([j digest] & s1 & (-> & Hv & Hj & Hd)%normalized_Ok & Hrun). cbn [fst snd] in *. subst j.
    apply tx_bind_returns in Hrun as (now & s1 & (-> & Hnow)%seconds_Ok & Hrun).
    apply tx_bind_returns in Hrun as (count & swept & Hsweep & Hrun). apply tx_bind_returns in Hrun as (nodes & observed & Hnodes & Hrun).
    apply tx_bind_returns in Hrun as ([decision binding] & s3 & (-> & Hs & revision & Hf & Hb)%new_plan_Ok & Hrun).
    apply tx_bind_returns in Hrun as (u & s4 & (_ & Hfree & ->)%insert_plan_Ok & [= <- <-]). cbn [fst snd] in *.
    destruct (nodes_read now env swept) as (D & _ & F). rewrite Hnodes in D, F. cbn [fst tick tx_db tx_files tx_tick] in *.
    rewrite D, F in *. eapply planned_by; [done..| |done]. apply decided_Ok. split; [done|]. by exists digest, decision, revision.
  - destruct 1 as [now count swept nodes observed binding Hnow Hsweep Hnodes Hdecided Hfree].
    pose proof Hdecided as (Hv & digest & decision & revision & Hd & Hs & Hf & Hb)%decided_Ok.
    destruct (nodes_read now env swept) as (D & C & F). rewrite Hnodes in D, C, F. cbn [fst] in D, C, F.
    assert (PlacementPlanBindingV1_validate binding None None = Ok tt) as Hvalid.
    { unfold new_plan_binding in Hb. cbv zeta in Hb. rewrite bind_unit_Ok, map_err_Ok in Hb. destruct Hb as [Hb [= <-]].
      by eapply binding_stored. }
    eexists. split.
    { unfold RunControl.create_plan. apply tx_bind_returns. exists (normalize_job_spec job, digest), s0.
      split; [by apply normalized_Ok|]. apply tx_bind_returns. exists now, (begun c). split; [by apply seconds_Ok|].
      apply tx_bind_returns. exists count, swept. split; [done|]. apply tx_bind_returns. exists nodes, observed. split; [done|].
      apply tx_bind_returns. exists (decision, binding), (tick (tick observed)). split.
      { apply new_plan_Ok. split_and!; [done..|]. exists revision. by rewrite D. }
      apply tx_bind_returns. eexists tt, _. split; [|reflexivity]. apply insert_plan_Ok. cbn [snd tick tx_db]. by rewrite D. }
    cbn [tick tx_db tx_files]. by rewrite F.
Qed.

(** C30. Plans are decided on the current fleet.  [create_plan] returns a plan exactly
    when it can be planned: expired leases are handled as of the current second, the
    pure planning function decides on the nodes and the revisions that the swept
    database shows, and the plan's fresh identifier is not taken.  Then the plan is that
    binding, unused, and the controller holds the swept database with the plan's row
    and nothing else changed. *)
Theorem created_plan_refines env c job scheduler c' plan :
  run env (handle (CreatePlan job scheduler)) c = (c', Ok plan) ↔ planned env c scheduler job c' plan.
Proof. apply create_plan_iff. Qed.

#[local] Transparent liftr.

(** ** Reading a plan back *)
Lemma whole_seconds `{!ChronoCrateLaws} s t : from_timestamp s = Some t → unix t = s.
Proof. intros ->%from_timestamp_spec. unfold unix. by rewrite Z.div_mul. Qed.
(** A binding whose times are whole seconds within chrono's range. *)
Record storable (b : PlacementPlanBindingV1) : Prop := {
  sb_version : pb_api_version b = PLACEMENT_PLAN_BINDING_API_VERSION;
  sb_created : from_timestamp (unix (pb_created_at b)) = Some (pb_created_at b);
  sb_expires : from_timestamp (unix (pb_expires_at b)) = Some (pb_expires_at b);
  sb_valid : PlacementPlanBindingV1_validate b None None = Ok tt
}.
Lemma get_plan_row env s binding row :
  storable binding → db_plans (tx_db s) !! pb_plan_id binding = Some row →
  row = plan_row binding None ∨ (∃ t, row = set_plr_used_at (Some t) (plan_row binding None)) →
  get_plan (pb_plan_id binding) env s =
    match plr_used_at row with
    | None => (s, Ok {| sp_binding := binding; sp_used_at := None |})
    | Some t => match from_timestamp t with
                | Some used => (s, Ok {| sp_binding := binding; sp_used_at := Some used |})
                | None => (s, Err StoreError.Timestamp)
                end
    end.
Proof.
  intros [Hv Hc He Hok] Hrow Hform.
  assert (∃ used, row = set_plr_used_at used (plan_row binding None)) as [used ->]
    by (destruct Hform as [->|[t ->]]; eauto). clear Hform.
  unfold get_plan, timestamp, liftr, mbind, tx_bind, mret, tx_ret, get_db. rewrite Hrow. cbn.
  rewrite Hc. cbn. rewrite He. cbn.
  assert ({| pb_api_version := PLACEMENT_PLAN_BINDING_API_VERSION; pb_plan_id := pb_plan_id binding;
       pb_job_id := pb_job_id binding; pb_job_digest := pb_job_digest binding; pb_created_at := pb_created_at binding;
       pb_expires_at := pb_expires_at binding; pb_fleet_revision := pb_fleet_revision binding;
       pb_node_revision := pb_node_revision binding; pb_policy_revision := pb_policy_revision binding;
       pb_decision := pb_decision binding |} = binding) as Hb by (rewrite <-Hv; by destruct binding).
  rewrite Hb, Hok. cbn. destruct used as [t|]; [|done]. cbn.
  unfold timestamp, liftr, mbind, tx_bind, mret, tx_ret. by destruct (from_timestamp t).
Qed.
Lemma decided_times scheduler state plan_id job now observed_at b :
  Planning.create_plan scheduler state plan_id job now observed_at = Ok b →
  pb_api_version b = PLACEMENT_PLAN_BINDING_API_VERSION ∧ pb_created_at b = now ∧
  pb_expires_at b = (now + PLAN_TTL_SECONDS * nanos_per_second)%Z.
Proof.
  unfold Planning.create_plan, new_plan_binding. cbv zeta. rewrite bind_unit_Ok. intros [_ Hb].
  apply bind_Ok in Hb as (digest & _ & Hb). apply bind_Ok in Hb as (d & _ & Hb).
  apply bind_Ok in Hb as (revision & _ & Hb). rewrite bind_unit_Ok in Hb. by destruct Hb as [_ [= <-]].
Qed.
Lemma planned_storable `{!ChronoCrateLaws} env c scheduler job c' plan :
  planned env c scheduler job c' plan →
  is_Some (from_timestamp (unix (pb_expires_at (sp_binding plan)))) → storable (sp_binding plan).
Proof.
  destruct 1 as [now count swept nodes observed binding Hnow _ _ Hdecided _]. cbn [sp_binding]. intros [expires He].
  pose proof Hdecided as (Hversion & Hc & Hx)%decided_times.
  pose proof (whole_seconds _ _ Hnow) as Hu. split; [done| |rewrite He; f_equal|].
  - by rewrite Hc, Hu.
  - apply from_timestamp_spec in He as ->. rewrite Hx. unfold unix. rewrite Z.div_add by done.
    apply from_timestamp_spec in Hnow as ->. rewrite Z.div_mul by done. lia.
  - apply decided_Ok in Hdecided as (_ & ? & ? & ? & _ & _ & _ & Hb). unfold new_plan_binding in Hb. cbv zeta in Hb.
    rewrite bind_unit_Ok, map_err_Ok in Hb. destruct Hb as [Hb [= <-]]. by eapply binding_stored.
Qed.
Lemma created_planned env c job scheduler plan :
  (run env (RunControl.create_plan job scheduler) c).2 = Ok plan →
  planned env c scheduler job (run env (RunControl.create_plan job scheduler) c).1 plan ∧
  sp_used_at plan = None ∧
  db_plans (ctl_db (run env (RunControl.create_plan job scheduler) c).1) !! pb_plan_id (sp_binding plan)
    = Some (plan_row (sp_binding plan) None).
Proof.
  intros Hp. destruct (run env _ c) as [c' r] eqn:E. cbn in *. subst r.
  assert (planned env c scheduler job c' plan) as Hplanned by (by apply create_plan_iff).
  split; [done|]. destruct Hplanned. split; [done|]. cbn. by rewrite lookup_insert_eq.
Qed.

(** C31. Plans read back as they were created.  Whatever requests follow, reading the
    plan changes nothing and returns the same binding, still unused or with the time of
    its first use; it can only fail where that time is outside chrono's range. *)
Theorem created_plan_roundtrip `{!ChronoCrateLaws} c (Hreach : reachable c) env job scheduler plan
    (Hcreated : (run env (handle (CreatePlan job scheduler)) c).2 = Ok plan)
    (Hrange : is_Some (from_timestamp (unix (pb_expires_at (sp_binding plan)))))
    c2 (Hcalls : rtc calls (run env (handle (CreatePlan job scheduler)) c).1 c2) env2 :
  ∃ row, db_plans (ctl_db c2) !! pb_plan_id (sp_binding plan) = Some row ∧
    run env2 (handle (GetPlan (pb_plan_id (sp_binding plan)))) c2 =
      (c2, match plr_used_at row with
           | None => Ok plan
           | Some t => match from_timestamp t with
                       | Some used => Ok {| sp_binding := sp_binding plan; sp_used_at := Some used |}
                       | None => Err StoreError.Timestamp
                       end
           end).
Proof.
  cbn [handle] in *. destruct (created_planned _ _ _ _ _ Hcreated) as (Hplanned & Hunused & Hrow).
  set (c1 := (run env _ c).1) in *.
  assert (reachable c1) as Hr1.
  { apply (reachable_calls c); [done|]. apply rtc_once. by exists env, _, (CreatePlan job scheduler). }
  assert (evidence_kept (ctl_db c1) (ctl_db c2)) as Hkept.
  { apply (controls_closed evidence_kept); [intros f e e' _; apply change_evidence|done..]. }
  destruct (ek_plans _ _ Hkept _ _ Hrow) as (row & Hrow2 & Hform). exists row. split; [done|].
  assert (row = plan_row (sp_binding plan) None ∨ ∃ t, row = set_plr_used_at (Some t) (plan_row (sp_binding plan) None))
    as Hform' by (destruct Hform as [->|[_ [t ->]]]; eauto).
  pose proof (planned_storable _ _ _ _ _ _ Hplanned Hrange) as Hstore.
  unfold run. rewrite (get_plan_row env2 {| tx_db := ctl_db c2; tx_committed := ctl_db c2; tx_files := ctl_files c2;
    tx_tick := 0 |} _ row Hstore Hrow2 Hform'). destruct (plr_used_at row) as [t|].
  - destruct (from_timestamp t); by destruct c2.
  - destruct c2, plan. cbn in *. by subst.
Qed.
End plans.

(** ** Witnesses *)
Definition planning : Request StoredPlan := CreatePlan sample_job Scheduler_default.
Lemma planning_expiry plan : (ask 14 500 planning reported).2 = Ok plan → pb_expires_at (sp_binding plan) = seconds 74.
Proof.
  intros Hp. assert ((λ p, pb_expires_at (sp_binding p)) <$> match (ask 14 500 planning reported).2 with Ok p => Some p | Err _ => None end
    = Some (seconds 74)) as He by by vm_compute.
  rewrite Hp in He. by injection He.
Qed.
Lemma created_plan_roundtrip_witness : ∃ plan row,
  (ask 14 500 planning reported).2 = Ok plan ∧
  db_plans (ctl_db (after 14 500 planning reported)) !! pb_plan_id (sp_binding plan) = Some row ∧
  plr_used_at row = None ∧
  ask 15 600 (GetPlan (pb_plan_id (sp_binding plan))) (after 14 500 planning reported) =
    (after 14 500 planning reported, Ok plan).
Proof.
  destruct (ask 14 500 planning reported).2 as [plan|] eqn:Hp; [|by vm_compute in Hp].
  pose proof (planning_expiry plan Hp) as He.
  destruct (created_plan_roundtrip reported reported_reachable (at_second 14 500) _ _ plan Hp) with
    (c2 := after 14 500 planning reported) (env2 := at_second 15 600) as (row & Hrow & Hget);
    [rewrite He; by eexists|reflexivity|].
  assert ((λ r, plr_used_at r) <$> db_plans (ctl_db (after 14 500 planning reported)) !! pb_plan_id (sp_binding plan)
    = Some None) as Hu.
  { assert (match (ask 14 500 planning reported).2 with
            | Ok p => (λ r, plr_used_at r) <$> db_plans (ctl_db (after 14 500 planning reported)) !! pb_plan_id (sp_binding p)
            | Err _ => None end = Some None) as Hu by by vm_compute.
    by rewrite Hp in Hu. }
  pose proof (fmap_value _ _ _ _ Hu Hrow) as Hn. cbn in Hn. rewrite Hn in Hget.
  exists plan, row. split_and!; [reflexivity|exact Hrow|exact Hn|exact Hget].
Defined.
