(* ===== verification/FleetSafety.v ===== *)
(** The picture of the fleet that clients get is the one that the controller schedules on. *)
From Stdlib Require Import ZArith NArith Lia String.
From stdpp Require Import base option list numbers sets gmap relations sorting.
From S2P Require Import Prelude Text Crates Protocol RunState JobSpec CanonicalJson Scheduler NodeState PlacementBinding WorkerReports WorkerRun Cleanup ControllerDb Planning FleetNodes Leases NodeWrites Uploads RunControl FleetView TxLogic Changes ChangeProofs MethodProofs RunProofs ControllerCalls RunSafety PlanSafety Scenario.
Open Scope rust_scope.

Section fleet.
Context `{UuidCrate, ChronoCrate, SerdeJsonCrate, !StoreSerde, DigestCrate}.

(** ** What a reader returns *)
Lemma reads_bind_Ok {A B} (m : tx A) (k : A → tx B) env s b :
  reads m → (mbind k m env s).2 = Ok b →
  ∃ a s', (m env s).2 = Ok a ∧ tx_db s' = tx_db s ∧ (k a env s').2 = Ok b.
Proof.
  intros Hm. specialize (Hm env s). unfold mbind, tx_bind. destruct (m env s) as [s' [a|e]]; [|done].
  intros Hk. exists a, s'. by destruct Hm.
Qed.
Lemma map_tx_Ok {A B} (f : A → tx B) l env s ys :
  (∀ x, reads (f x)) → (map_tx f l env s).2 = Ok ys →
  Forall2 (λ x y, ∃ s', tx_db s' = tx_db s ∧ (f x env s').2 = Ok y) l ys.
Proof.
  intros Hf. revert s ys. induction l as [|x l IH]; intros s ys Hl; cbn [map_tx] in Hl; [injection Hl as <-; constructor|].
  apply reads_bind_Ok in Hl as (y & s1 & Hy & D1 & Hl); [|apply Hf].
  apply reads_bind_Ok in Hl as (ys' & s2 & Hys & D2 & [= <-]); [|by apply reads_map_tx].
  constructor; [by exists s|]. apply IH in Hys. eapply Forall2_impl; [exact Hys|]. cbn. intros a b (s' & E & Hs'). exists s'. split; [congruence|done].
Qed.
Lemma map_keys {A B K} (f : A → K) (g : B → K) (P : A → B → Prop) l ys :
  (∀ x y, P x y → g y = f x) → Forall2 P l ys → map g ys = map f l.
Proof. intros Hp. induction 1 as [|x y l ys Hxy _ IH]; [done|]. cbn. by rewrite IH, (Hp x y). Qed.

(** ** Sums of reservations *)
Definition slot_sum (leases : list LeaseRow) : Z := foldr Z.add 0%Z (map lr_slots leases).
Definition node_leases (d : Db) (now : Z) (id : Uuid) : list LeaseRow :=
  List.filter (λ l, lr_node_id l == id) (map snd (active_leases d now)).
Definition slots_held (d : Db) (now : Z) (id : Uuid) : N := N.min (as_u64 (slot_sum (node_leases d now id))) u32_max.
Lemma slot_sum_perm l l' : l ≡ₚ l' → slot_sum l = slot_sum l'.
Proof. unfold slot_sum. induction 1; cbn; lia. Qed.
Lemma slots_reserved_sum views leases total :
  Forall2 (λ l v, (0 ≤ lr_slots l)%Z ∧ fr_slots v = N.min (as_u64 (lr_slots l)) u32_max) leases views →
  (total ≤ u32_max)%N →
  fold_left (λ total r, u32_saturating_add total (fr_slots r)) views total =
    N.min (total + as_u64 (slot_sum leases)) u32_max ∧ (0 ≤ slot_sum leases)%Z.
Proof.
  intros Hv. revert total. induction Hv as [|l v leases views [Hl Hs] _ IH]; intros total Ht; cbn; [unfold slot_sum, as_u64; cbn; lia|].
  destruct (IH (u32_saturating_add total (fr_slots v))) as [-> Hsum]; [unfold u32_saturating_add; lia|].
  rewrite Hs. unfold slot_sum in *. cbn. unfold u32_saturating_add, as_u64 in *. lia.
Qed.

(** A node's reservations are those of the leases that hold it. *)
Lemma reservations_reads now : reads (list_fleet_reservations now).
Proof. unfold list_fleet_reservations, reservation_view. reads_auto. Qed.
Lemma forall2_filter {A B} (P : A → B → Prop) (p : A → bool) (q : B → bool) l ys :
  Forall2 P l ys → (∀ x y, P x y → q y = p x) → Forall2 P (List.filter p l) (List.filter q ys).
Proof.
  induction 1 as [|x y l ys Hxy _ IH]; intros Hpq; cbn; [done|]. rewrite (Hpq x y Hxy).
  destruct (p x); [constructor; [done|]|]; by apply IH.
Qed.
Lemma filter_map {A B} (f : A → B) (p : B → bool) l : List.filter p (map f l) = map f (List.filter (λ x, p (f x)) l).
Proof. induction l as [|x l IH]; [done|]. cbn. destruct (p (f x)); cbn; by rewrite IH. Qed.
Lemma filter_sublist {A} (p : A → bool) l : List.filter p l `sublist_of` l.
Proof. induction l as [|x l IH]; [constructor|]. cbn. destruct (p x); by constructor. Qed.
Lemma reserved_slots env s now reservations id :
  consistent (tx_db s) → (list_fleet_reservations now env s).2 = Ok reservations →
  slots_reserved (node_reservations reservations id) = slots_held (tx_db s) now id.
Proof.
  intros Hc Hr. unfold list_fleet_reservations in Hr. apply reads_bind_Ok in Hr as (d & s1 & [= <-] & D1 & Hr); [|apply reads_get_db].
  apply map_tx_Ok in Hr; [|intros x; unfold reservation_view; reads_auto].
  assert (Forall2 (λ (e : Uuid * LeaseRow) v, e ∈ active_leases (tx_db s) now ∧ v.1 = lr_node_id e.2 ∧
    fr_slots v.2 = N.min (as_u64 (lr_slots e.2)) u32_max)
    (sort_by by_node_and_age (active_leases (tx_db s) now)) reservations) as Hall.
  {
    apply Forall2_same_length_lookup. split; [by apply Forall2_length in Hr|]. intros i e v He Hv.
    destruct (Forall2_lookup_lr _ _ _ _ _ _ Hr He Hv) as (s' & _ & Hview). split.
    - apply list_elem_of_lookup_2 in He. by rewrite sort_by_perm in He.
    - destruct e as [lid l]. unfold reservation_view in Hview.
      apply reads_bind_Ok in Hview as (t & s2 & _ & _ & [= <-]); [by cbn|reads_auto]. }
  apply (forall2_filter _ (λ e : Uuid * LeaseRow, lr_node_id e.2 == id) (λ v, v.1 == id)) in Hall;
    [|by intros x y (_ & -> & _)].
  unfold slots_reserved, node_reservations.
  destruct (slots_reserved_sum (map snd (List.filter (λ v : Uuid * FleetReservationView, v.1 == id) reservations))
    (map snd (List.filter (λ e : Uuid * LeaseRow, lr_node_id e.2 == id) (sort_by by_node_and_age (active_leases (tx_db s) now)))) 0)
    as [-> _]; [|done|].
  - apply Forall2_fmap. eapply Forall2_impl; [exact Hall|]. intros e v (He & _ & Hs). split; [|done].
    unfold active_leases in He. apply list_elem_of_In, filter_In in He as [He%list_elem_of_In _].
    destruct e as [lid l]. apply elem_of_map_to_list in He. by eapply rv_slots, (cs_reserves _ Hc).
  - unfold slots_held. rewrite N.add_0_l. do 2 f_equal. apply slot_sum_perm. unfold node_leases. rewrite filter_map.
    apply Permutation_map, filter_perm, sort_by_perm.
Qed.

(** What the scheduler reads of them. *)
Lemma sum_Ok env s l z : (sql_sum l env s).2 = Ok z → z = foldr Z.add 0%Z l.
Proof. unfold sql_sum. case_bool_decide; [|done]. by intros [= <-]. Qed.
Lemma totals_reads leases : reads (reservation_totals leases).
Proof. unfold reservation_totals. reads_auto. Qed.
Lemma active_reads now : reads (active_reservations now).
Proof. unfold active_reservations. reads_auto. apply totals_reads. Qed.
Lemma active_gpu_reads now : reads (active_gpu_reservations now).
Proof. unfold active_gpu_reservations. reads_auto. Qed.
Lemma totals_slots env s leases t : (reservation_totals leases env s).2 = Ok t → rt_slots t = as_u64 (slot_sum leases).
Proof.
  unfold reservation_totals. intros Ht. apply reads_bind_Ok in Ht as (slots & s1 & ->%sum_Ok & _ & Ht); [|apply reads_sql_sum].
  do 4 (apply reads_bind_Ok in Ht as (? & ? & _ & _ & Ht); [|apply reads_sql_sum]). by injection Ht as <-.
Qed.
Lemma active_slots env s now reservations id :
  (active_reservations now env s).2 = Ok reservations →
  match snd <$> List.find (λ e : Uuid * ReservationTotals, e.1 == id) reservations with
  | Some t => N.min (rt_slots t) u32_max | None => 0%N end = slots_held (tx_db s) now id.
Proof.
  unfold active_reservations. intros Hr. apply reads_bind_Ok in Hr as (d & s1 & [= <-] & D1 & Hr); [|apply reads_get_db].
  cbv zeta in Hr. set (leases := map snd (active_leases (tx_db s) now)) in *.
  assert (∀ nodes reservations, Forall2 (λ node e, e.1 = node ∧
      rt_slots e.2 = as_u64 (slot_sum (List.filter (λ l, lr_node_id l == node) leases))) nodes reservations →
    match snd <$> List.find (λ e : Uuid * ReservationTotals, e.1 == id) reservations with
    | Some t => id ∈ nodes ∧ rt_slots t = as_u64 (slot_sum (List.filter (λ l, lr_node_id l == id) leases))
    | None => id ∉ nodes end) as Hfind.
  { clear. induction 1 as [|node [node' t] nodes reservations [E Ht] _ IH]; cbn in *; [by intros ?%elem_of_nil|]. subst node'.
    destruct (decide (node = id)) as [->|Hne].
    - rewrite bool_decide_eq_true_2 by done. cbn. split; [by left|done].
    - rewrite bool_decide_eq_false_2 by done. destruct (List.find _ reservations) as [e|]; cbn in *; [destruct IH as [? ?]; split; [by right|done]|].
      by intros [->|?]%elem_of_cons. }
  apply map_tx_Ok in Hr; [|intros node; apply reads_bind; [apply totals_reads|intros ?; apply reads_ret]].
  specialize (Hfind (remove_dups (map lr_node_id leases)) reservations). unfold slots_held, node_leases. fold leases.
  destruct (snd <$> _) as [t|]; [destruct Hfind as [_ ->]; [|done]|].
  - eapply Forall2_impl; [exact Hr|]. cbn. intros node e (s' & _ & He).
    apply reads_bind_Ok in He as (t' & s2 & Ht & _ & [= <-]); [|apply totals_reads]. split; [done|]. by eapply totals_slots.
  - assert (id ∉ remove_dups (map lr_node_id leases)) as Hno.
    { apply Hfind. eapply Forall2_impl; [exact Hr|]. cbn. intros node e (s' & _ & He).
      apply reads_bind_Ok in He as (t' & s2 & Ht & _ & [= <-]); [|apply totals_reads]. split; [done|]. by eapply totals_slots. }
    rewrite elem_of_remove_dups in Hno.
    assert (List.filter (λ l, lr_node_id l == id) leases = []) as ->; [|done].
    clear -Hno. induction leases as [|l leases IH]; [done|]. cbn in *. apply not_elem_of_cons in Hno as [? Hno].
    rewrite bool_decide_eq_false_2 by congruence. by apply IH.
Qed.

(** ** Nodes *)
Lemma node_rows_id d id r : node_rows d id = Some r → rows_id r = id.
Proof.
  unfold node_rows. destruct (db_nodes d !! id), (db_node_configs d !! id), (db_node_inventories d !! id), (db_node_telemetry d !! id);
    try discriminate. by intros [= <-].
Qed.
Lemma rows_distinct d : NoDup (map rows_id (all_node_rows d)).
Proof.
  unfold all_node_rows. eapply NoDup_Permutation_proper; [apply Permutation_map, sort_by_perm|].
  pose proof (NoDup_fst_map_to_list (db_nodes d)) as Hnd. induction (map_to_list (db_nodes d)) as [|[id n] l IH]; [constructor|].
  cbn in Hnd |- *. apply NoDup_cons in Hnd as [Hid Hnd]. destruct (node_rows d id) as [r|] eqn:Hr; [|by apply IH].
  cbn. apply NoDup_cons. split; [|by apply IH]. rewrite (node_rows_id _ _ _ Hr). clear -Hid. intros Hin. apply Hid. clear Hid.
  induction l as [|[id' n'] l IH]; cbn in *; [done|]. destruct (node_rows d id') as [r'|] eqn:Hr'; [|right; by apply IH].
  cbn in Hin. apply elem_of_cons in Hin as [->|Hin]; [rewrite (node_rows_id _ _ _ Hr'); left|right; by apply IH].
Qed.
Lemma row_view_id now r view : view_of_rows now r = Ok view → view_id view = rows_id r ∧
  view_config view = ncr_document (rows_config r) ∧ view_inventory view = nir_document (rows_inventory r).
Proof.
  unfold view_of_rows, node_view_from_documents, NodeMergeView_merge. intros Hv%map_err_Ok.
  rewrite !bind_unit_Ok in Hv. by destruct Hv as (_ & _ & _ & _ & [= <-]).
Qed.
Lemma to_node_view_id view node : to_node view = Some (Ok node) → node_id node = view_id view.
Proof.
  unfold to_node. destruct (validate_view view); [|by intros [=]]. destruct (join_gpus _ _ _); [|done]. by intros [= <-].
Qed.
Lemma view_to_node_id env s view node : (view_to_node view env s).2 = Ok node → node_id node = view_id view.
Proof.
  unfold view_to_node. destruct (to_node view) as [[n|e]|] eqn:Hn; try done. cbn. intros [= <-]. by apply to_node_view_id.
Qed.

(** A record of the scheduler belongs to a row of the node tables. *)
Record record_of (d : Db) (now : DateTime) (r : NodeRows) (record : SchedulingNodeRecord) : Prop := {
  ro_id : node_id (sn_node (record_scheduling record)) = rows_id r;
  ro_capacity : ∃ capacity, effective_capacity_policy (ncr_document (rows_config r)) = Ok capacity ∧
    sn_configured_max_slots (record_scheduling record) = cp_max_concurrent_jobs capacity;
  ro_containment : sn_containment_max_safe_slots (record_scheduling record) =
    ci_max_safe_slots (inv_containment (nir_document (rows_inventory r)));
  ro_active : sn_active_slots (record_scheduling record) = slots_held d (unix now) (rows_id r)
}.
Lemma scheduling_node_facts view node capacity reserved find_gpu :
  let sn := scheduling_node view node capacity reserved find_gpu in
  node_id (sn_node sn) = node_id node ∧ sn_configured_max_slots sn = cp_max_concurrent_jobs capacity ∧
  sn_containment_max_safe_slots sn = ci_max_safe_slots (inv_containment (view_inventory view)) ∧
  sn_active_slots sn = match reserved with Some t => N.min (rt_slots t) u32_max | None => 0%N end.
Proof. unfold scheduling_node. cbv zeta. destruct (reserve_gpus _ _ _ _) as [[gpus counts] detailed]. by destruct reserved. Qed.
Lemma records_of env s now records :
  (fresh_available_nodes now env s).2 = Ok records →
  ∃ options, records = omap id options ∧
    Forall2 (λ r o, ∀ record, o = Some record → record_of (tx_db s) now r record)
      (List.filter (λ r, credentialed (tx_db s) (rows_id r)) (all_node_rows (tx_db s))) options.
Proof.
  unfold fresh_available_nodes. intros Hr. apply reads_bind_Ok in Hr as (d & s1 & [= <-] & D1 & Hr); [|apply reads_get_db].
  apply reads_bind_Ok in Hr as (reservations & s2 & Hres & D2 & Hr); [|apply active_reads].
  apply reads_bind_Ok in Hr as (gpus & s3 & _ & D3 & Hr); [|apply active_gpu_reads].
  apply reads_bind_Ok in Hr as (options & s4 & Ho & _ & [= <-]); [|apply reads_map_tx; intros r; unfold view_to_node; reads_auto].
  exists options. split; [done|]. apply map_tx_Ok in Ho; [|intros r; unfold view_to_node; reads_auto].
  eapply Forall2_impl; [exact Ho|]. cbn. intros r o (s' & _ & Hrec) record ->.
  apply reads_bind_Ok in Hrec as (view & s5 & Hview & _ & Hrec); [|apply reads_liftr].
  apply reads_bind_Ok in Hrec as (node & s6 & Hnode%view_to_node_id & _ & Hrec); [|unfold view_to_node; reads_auto].
  destruct (negb _); [discriminate Hrec|].
  apply reads_bind_Ok in Hrec as (capacity & s7 & Hcap & _ & [= <-]); [|apply reads_liftr].
  cbn in Hview, Hcap. apply row_view_id in Hview as (Hid & Hconfig & Hinv).
  pose proof (active_slots _ _ _ _ (node_id node) Hres) as Hslots. rewrite D1 in Hslots.
  destruct (scheduling_node_facts view node capacity (snd <$> List.find (λ e, e.1 == node_id node) reservations)
    (λ device, snd <$> List.find (λ e, e.1 == (node_id node, device)) gpus)) as (F1 & F2 & F3 & F4).
  split; cbn [record_scheduling].
  - rewrite F1. congruence.
  - exists capacity. rewrite Hconfig in Hcap. by split.
  - by rewrite F3, Hinv.
  - rewrite F4, Hslots. congruence.
Qed.
Lemma record_found records record :
  NoDup (map (λ r, node_id (sn_node (record_scheduling r))) records) → record ∈ records →
  find_record records (node_id (sn_node (record_scheduling record))) = Some record.
Proof.
  unfold find_record. induction records as [|x records IH]; intros Hnd Hin; [by apply elem_of_nil in Hin|].
  cbn in Hnd. apply NoDup_cons in Hnd as [Hx Hnd]. cbn. apply elem_of_cons in Hin as [<-|Hin].
  - by rewrite bool_decide_eq_true_2.
  - rewrite bool_decide_eq_false_2; [by apply IH|]. intros E. apply Hx. rewrite E. by apply (list_elem_of_fmap_2 (λ r, node_id (sn_node (record_scheduling r)))).
Qed.
Lemma records_distinct d now rows options :
  Forall2 (λ r o, ∀ record, o = Some record → record_of d now r record) rows options → NoDup (map rows_id rows) →
  NoDup (map (λ r, node_id (sn_node (record_scheduling r))) (omap id options)).
Proof.
  assert (∀ rows options id, Forall2 (λ r o, ∀ record, o = Some record → record_of d now r record) rows options →
    id ∈ map (λ r, node_id (sn_node (record_scheduling r))) (omap (λ o, o) options) → id ∈ map rows_id rows) as Hin.
  { clear. intros rows options id. induction 1 as [|r o rows options Hro _ IH]; [done|]. cbn.
    destruct o as [record|]; [|right; by apply IH]. cbn. intros [->|Hin]%elem_of_cons; [rewrite (ro_id d now r record) by (by apply Hro); left|right; by apply IH]. }
  induction 1 as [|r o rows options Hro Hall IH]; [constructor|]. cbn. intros [Hr Hnd]%NoDup_cons. destruct o as [record|]; [|by apply IH].
  cbn. apply NoDup_cons. split; [|by apply IH]. intros Hrec. apply Hr. rewrite <- (ro_id d now r record) by by apply Hro.
  by apply (Hin rows options).
Qed.

(** ** The view *)

(** A view shows what the scheduler sees of its node. *)
Record shows (view : FleetNodeView) (sn : SchedulingNode) : Prop := {
  sh_node : fn_node_id view = node_id (sn_node sn);
  sh_resources : fn_effective_resources view = node_resources (sn_node sn);
  sh_configured : fs_configured (fn_effective_slots view) = sn_configured_max_slots sn;
  sh_containment : fs_containment_max_safe (fn_effective_slots view) = sn_containment_max_safe_slots sn;
  sh_effective : fs_effective (fn_effective_slots view) = effective_slots sn;
  sh_reserved : fs_reserved (fn_effective_slots view) = sn_active_slots sn;
  sh_available : fs_available (fn_effective_slots view) = saturating_sub (effective_slots sn) (sn_active_slots sn)
}.
Lemma slots_shown view sn job :
  shows view sn → (0 < rr_slots (effective_resource_request job))%N → (effective_slots sn < u32_max)%N →
  slot_rejections job sn = [] ↔ (rr_slots (effective_resource_request job) <= fs_available (fn_effective_slots view))%N.
Proof.
  intros Hs Hslots Hmax. rewrite (sh_available _ _ Hs). unfold slot_rejections, saturating_sub, u32_saturating_add.
  case_bool_decide as Hzero; [rewrite Hzero; split; [done|lia]|].
  destruct (N.ltb_spec (effective_slots sn) (N.min (sn_active_slots sn + rr_slots (effective_resource_request job)) u32_max)) as [Hl|Hl].
  - split; [by destruct (_ <? _)%N|lia].
  - split; [lia|done].
Qed.
Lemma resources_reads scheduling merged : reads (effective_resources scheduling merged).
Proof. unfold effective_resources. reads_auto. Qed.
Lemma view_shows d now env s scheduling reservations r view record :
  (∀ id, slots_reserved (node_reservations reservations id) = slots_held d (unix now) id) →
  (fleet_node_view now scheduling reservations r env s).2 = Ok view →
  find_record scheduling (rows_id r) = Some record → record_of d now r record →
  shows view (record_scheduling record).
Proof.
  intros Hheld Hview Hfind [Hid (capacity & Hcap & Hconf) Hcont Hact]. unfold fleet_node_view in Hview. cbv zeta in Hview.
  apply reads_bind_Ok in Hview as (merged & s1 & Hm & _ & Hview); [|apply reads_liftr].
  apply reads_bind_Ok in Hview as (capacity' & s2 & Hc & _ & Hview); [|apply reads_liftr].
  apply reads_bind_Ok in Hview as (resources & s3 & Hres & _ & [= <-]); [|apply resources_reads].
  cbn in Hm, Hc. apply row_view_id in Hm as (Hmid & _). unfold effective_resources in Hres. rewrite Hmid, Hfind in Hres. injection Hres as <-.
  assert (capacity' = capacity) as -> by congruence.
  split; cbn; unfold effective_slots; rewrite ?Hheld; congruence.
Qed.
Lemma view_row now env s scheduling reservations r view :
  (fleet_node_view now scheduling reservations r env s).2 = Ok view → fn_node_id view = rows_id r.
Proof.
  unfold fleet_node_view. cbv zeta. intros Hview.
  apply reads_bind_Ok in Hview as (merged & s1 & _ & _ & Hview); [|apply reads_liftr].
  apply reads_bind_Ok in Hview as (capacity' & s2 & _ & _ & Hview); [|apply reads_liftr].
  by apply reads_bind_Ok in Hview as (resources & s3 & _ & _ & [= <-]); [|apply resources_reads].
Qed.
(** The fleet that a database shows at a time. *)
Definition fleet_at (d : Db) (now : DateTime) (nodes : list SchedulingNodeRecord) : Prop :=
  ∃ env s, tx_db s = d ∧ (fresh_available_nodes now env s).2 = Ok nodes.
Lemma views_shown env s now views :
  consistent (tx_db s) → (list_fleet_node_views_tx now env s).2 = Ok views →
  map fn_node_id views = map rows_id (all_node_rows (tx_db s)) ∧
  ∃ records, fleet_at (tx_db s) now records ∧
    ∀ record, record ∈ records → ∃ view, view ∈ views ∧ shows view (record_scheduling record).
Proof.
  intros Hc Hv. unfold list_fleet_node_views_tx in Hv.
  apply reads_bind_Ok in Hv as (d & s1 & [= <-] & D1 & Hv); [|apply reads_get_db].
  apply reads_bind_Ok in Hv as (scheduling & s2 & Hs & D2 & Hv); [|apply nodes_read].
  apply reads_bind_Ok in Hv as (reservations & s3 & Hr & D3 & Hv); [|apply reservations_reads].
  apply map_tx_Ok in Hv; [|intros r; unfold fleet_node_view; reads_auto; apply resources_reads]. split.
  { eapply map_keys; [|exact Hv]. intros r view (s' & _ & Hview). by eapply view_row. }
  exists scheduling. split; [by exists env, s1|]. intros record Hin.
  destruct (records_of _ _ _ _ Hs) as (options & -> & Hall). rewrite D1 in Hall.
  assert (NoDup (map rows_id (List.filter (λ r, credentialed (tx_db s) (rows_id r)) (all_node_rows (tx_db s))))) as Hnd.
  { eapply sublist_NoDup; [apply rows_distinct|]. apply (fmap_sublist rows_id), filter_sublist. }
  pose proof (record_found _ _ (records_distinct _ _ _ _ Hall Hnd) Hin) as Hfound.
  apply list_elem_of_omap in Hin as (o & Ho & Eo). cbn in Eo. subst o. apply list_elem_of_lookup_1 in Ho as [i Ho].
  destruct (Forall2_lookup_r _ _ _ _ _ Hall Ho) as (r & Hri & Hrec). specialize (Hrec record eq_refl).
  assert (r ∈ all_node_rows (tx_db s)) as Hrow.
  { apply list_elem_of_lookup_2, list_elem_of_In, filter_In in Hri as [Hri _]. by apply list_elem_of_In. }
  apply list_elem_of_lookup_1 in Hrow as [j Hj]. destruct (Forall2_lookup_l _ _ _ _ _ Hv Hj) as (view & Hview & s' & _ & Hok).
  exists view. split; [by eapply list_elem_of_lookup_2|]. rewrite (ro_id _ _ _ _ Hrec) in Hfound.
  eapply (view_shows (tx_db s)); [|exact Hok|exact Hfound|exact Hrec].
  intros id. assert (tx_db s2 = tx_db s) as Es2 by congruence. rewrite <- Es2. apply (reserved_slots env); [by rewrite Es2|exact Hr].
Qed.

(** The snapshot is read from the committed database. *)
Lemma wp_snapshot_read limit env s : consistent (tx_db s) →
  wp moved (fleet_snapshot limit) env s (λ snapshot s', ∃ s0, tx_db s0 = tx_db s' ∧ consistent (tx_db s0) ∧
    ((revision ← read_safe_fleet_revision; observed_at ← utc_now; read_fleet_snapshot_tx revision observed_at limit) env s0).2
      = Ok snapshot).
Proof.
  intros Hc. apply wp_bind, (wp_expire_now moved_leases); [exact Hc|]. intros _ s1 Hc1.
  apply wp_bind, wp_commit. intros s2 _ D2 _. apply wp_reads; [apply fleet_read_reads|]. intros snapshot s3 Hs D3 _.
  exists s2. by rewrite D3, D2.
Qed.

(** C34. The fleet that a client sees is the one that the controller schedules on.  A
    snapshot of a reachable controller has the revision of the database it was read from
    and one view per node, in the order of its nodes; every node that the scheduler would
    consider at that moment has a view with the same resources, limits and slots, so that
    a job is refused there for want of slots exactly when the view shows too few. *)
Theorem fleet_view_matches_scheduler env c limit snapshot (Hreach : reachable c)
    (Hread : (run env (handle (ReadFleetSnapshot limit)) c).2 = Ok snapshot) :
  let d := ctl_db (run env (handle (ReadFleetSnapshot limit)) c).1 in
  Z.of_N (fl_fleet_revision snapshot) = db_fleet_revision d ∧
  map node_id (fl_nodes snapshot) = map fn_node_id (fl_node_views snapshot) ∧
  NoDup (map fn_node_id (fl_node_views snapshot)) ∧
  ∃ records, fleet_at d (fl_observed_at snapshot) records ∧
    ∀ record, record ∈ records → ∃ view, view ∈ fl_node_views snapshot ∧ shows view (record_scheduling record) ∧
      ∀ job, (0 < rr_slots (effective_resource_request job))%N → (fs_effective (fn_effective_slots view) < u32_max)%N →
        slot_rejections job (record_scheduling record) = [] ↔
        (rr_slots (effective_resource_request job) <= fs_available (fn_effective_slots view))%N.
Proof.
  pose proof (run_moves moved env (handle (ReadFleetSnapshot limit)) c _
    (wp_snapshot_read limit env {| tx_db := ctl_db c; tx_committed := ctl_db c; tx_files := ctl_files c; tx_tick := 0 |}
      (reachable_consistent c Hreach))) as Hrun.
  destruct (run env _ c) as [c' res]. cbn in Hread |- *. subst res. destruct Hrun as (_ & _ & Hok).
  destruct (Hok _ eq_refl) as (s' & (s0 & D0 & Hc0 & Hs) & -> & _). rewrite <- D0. clear Hok D0 s' c'.
  apply reads_bind_Ok in Hs as (revision & s1 & Hrev & D1 & Hs); [|unfold read_safe_fleet_revision; reads_auto].
  apply reads_bind_Ok in Hs as (observed & s2 & _ & D2 & Hs); [|apply reads_utc_now]. unfold read_fleet_snapshot_tx in Hs.
  apply reads_bind_Ok in Hs as (views & s3 & Hviews & D3 & Hs); [|unfold list_all_node_views; reads_auto].
  apply reads_bind_Ok in Hs as (nodes & s4 & Hnodes & D4 & Hs); [|apply reads_map_tx, view_node_reads].
  apply reads_bind_Ok in Hs as (node_views & s5 & Hnv & D5 & Hs); [|apply fleet_views_reads].
  apply reads_bind_Ok in Hs as (jobs & s6 & _ & _ & [= <-]); [|apply list_jobs_reads].
  cbn [fl_fleet_revision fl_nodes fl_node_views fl_observed_at].
  assert (tx_db s4 = tx_db s0) as E4 by congruence.
  destruct (views_shown env s4 observed node_views) as (Hids & records & Hfleet & Hshow); [by rewrite E4|exact Hnv|].
  rewrite E4 in Hids, Hfleet. split_and!.
  - unfold read_safe_fleet_revision, mbind, tx_bind, get_db in Hrev. cbn in Hrev.
    destruct (Z.leb_spec 0 (db_fleet_revision (tx_db s0))); [|done]. destruct (_ <=? _)%N; [|done]. injection Hrev as <-.
    unfold as_u64. lia.
  - rewrite Hids. unfold list_all_node_views in Hviews.
    apply reads_bind_Ok in Hviews as (d & s7 & [= <-] & D7 & Hviews); [|apply reads_get_db].
    apply map_tx_Ok in Hviews; [|intros r; apply reads_liftr]. apply map_tx_Ok in Hnodes; [|intros v; apply view_node_reads].
    replace (tx_db s0) with (tx_db s2) by congruence. transitivity (map view_id views).
    { eapply map_keys; [|exact Hnodes]. intros v n (s8 & _ & Hn). by eapply view_to_node_id. }
    eapply map_keys; [|exact Hviews]. intros r v (s8 & _ & Hv). by apply row_view_id in Hv as [? _].
  - rewrite Hids. apply rows_distinct.
  - exists records. split; [exact Hfleet|]. intros record (view & Hin & Hs)%Hshow. exists view. split_and!; [done..|].
    intros job Hslots Hmax. rewrite (sh_effective _ _ Hs) in Hmax. by apply slots_shown.
Qed.
End fleet.

(** ** Witnesses *)
Definition fleet_seen : result (StoreError.t json_error) FleetSnapshot := (ask 17 800 (ReadFleetSnapshot 20) running).2.
Example fleet_of_one :
  match fleet_seen with
  | Ok s => map (λ v, (fn_node_id v, length (fn_reservations v), fs_reserved (fn_effective_slots v),
                       fs_available (fn_effective_slots v), length (fn_availability_reasons v))) (fl_node_views s)
            = [(3%N, 1, 1%N, 0%N, 2)] ∧ length (fl_recent_jobs s) = 1
  | Err _ => False
  end.
Proof. by vm_compute. Qed.
Lemma fleet_seen_Ok : ∃ s, fleet_seen = Ok s.
Proof.
  assert (is_ok fleet_seen = true) as Hok by (vm_compute; reflexivity).
  destruct fleet_seen as [s|]; [by exists s|discriminate Hok].
Qed.
Lemma fleet_view_matches_scheduler_witness :
  ∃ s (records : list SchedulingNodeRecord), fleet_seen = Ok s ∧ map node_id (fl_nodes s) = map fn_node_id (fl_node_views s) ∧
    ∀ record, record ∈ records → ∃ view, view ∈ fl_node_views s ∧ shows view (record_scheduling record).
Proof.
  destruct fleet_seen_Ok as [s Hs]. pose proof Hs as Hread. unfold fleet_seen, ask in Hread.
  destruct (fleet_view_matches_scheduler (at_second 17 800) running 20 s running_reachable Hread)
    as (_ & Hids & _ & records & _ & Hshown).
  exists s, records. split_and!; [exact Hs|exact Hids|]. intros record (view & Hin & Hshows & _)%Hshown.
  exists view. split; [exact Hin|exact Hshows].
Defined.
