(* ===== verification/ProvisionModel.v ===== *)
(** The Add Computer record: [crates/cyc-provision/src/model.rs], with the smoke
    identity of [smoke.rs] and the host key of [crates/cyc-ssh/src/lib.rs].

    A [ComputerRecord] is the durable, secret-free state of one machine being
    provisioned.  [ComputerRecord_validate] ties the checkpoint reached to the
    evidence the record must carry; it runs before every write and after every
    read, so the facts proved from it hold of every stored record.

    Paths are compared as the host platform does, the private-key file is checked
    on disk and base64 is a third-party crate: these three are parameters. *)
From Stdlib Require Import ZArith NArith Lia String.
From stdpp Require Import base option list numbers sets.
From S2P Require Import Prelude Text Crates Protocol JobSpec CanonicalJson PlacementBinding.
Open Scope rust_scope.

(** [std::path::Path] of the host platform, and [PrivateKeyFile::new] (which
    reads the file's metadata). *)
Class HostPlatform := {
  path_is_absolute : rstr → bool;
  path_has_relative_component : rstr → bool; (* a [CurDir] or [ParentDir] component *)
  private_key_file_ok : rstr → bool
}.
(** [base64::STANDARD_NO_PAD] *)
Class Base64Crate := {
  base64_encode : list N → rstr;
  base64_decode : list N → option (list N)
}.
Definition MAX_DISPLAY_NAME_BYTES : N := 128.
Definition MAX_HOST_BYTES : N := 1024.
Definition MAX_USERNAME_BYTES : N := 256.
Definition MAX_TEXT_BYTES : N := 512.
Definition MAX_TOOLCHAINS : nat := 128.
Definition MAX_GPU_DEVICES : nat := 32.
Definition MAX_FAILURE_CODE_BYTES : N := 64.
Definition MAX_WORKSPACE_BYTES : N := 4 * 1024.
Definition MAX_PRIVATE_KEY_PATH_BYTES : N := 16 * 1024.
Definition COMPUTER_RECORD_FORMAT_VERSION : N := 2.
Definition LEGACY_COMPUTER_RECORD_FORMAT_VERSION : N := 1.

Module RecordValidationError.
Inductive t :=
| InvalidField (field : rstr)
| InvalidIdentity | InvalidTimestamp | InvalidHostKey | InvalidFailureCode
| MissingCheckpoint (checkpoint : rstr)
| InvalidIntent | InvalidCredentialState | InvalidAuthenticationPolicy | InvalidTeardownCheckpoint
| UnsupportedFormatVersion | InvalidSmokeBinding | SmokeBindingJobMismatch
| SmokeBindingNodeMismatch | InvalidSmokeCheckpoint.
#[export] Instance eq_dec : EqDecision t.
Proof. solve_decision. Defined.
End RecordValidationError.
Export (hints) RecordValidationError.
Import RecordValidationError.
Abbreviation rresult := (result RecordValidationError.t).

Definition validate_text (field value : rstr) (maximum_bytes : N) : rresult unit :=
  reject_if (blank value || (maximum_bytes <? len value)%N || has_control value) (InvalidField field).

(** ** Authentication policy *)
Module SshAuthenticationMethod.
Inductive t := Password | Agent | PrivateKey.
#[export] Instance eq_dec : EqDecision t.
Proof. solve_decision. Defined.
End SshAuthenticationMethod.
Export (hints) SshAuthenticationMethod.

Record SshAuthenticationPolicy := {
  sap_method : SshAuthenticationMethod.t;
  sap_private_key_path : option rstr
}.
#[export] Instance SshAuthenticationPolicy_eq_dec : EqDecision SshAuthenticationPolicy.
Proof. solve_decision. Defined.
Definition SshAuthenticationPolicy_password : SshAuthenticationPolicy :=
  {| sap_method := SshAuthenticationMethod.Password; sap_private_key_path := None |}.
Definition SshAuthenticationPolicy_agent : SshAuthenticationPolicy :=
  {| sap_method := SshAuthenticationMethod.Agent; sap_private_key_path := None |}.

Section authentication.
Context `{HostPlatform}.

(** The patterns NUL, CR and LF *)
Definition is_durable_private_key_path (value : rstr) : bool :=
  negb (is_empty value) && (len value <=? MAX_PRIVATE_KEY_PATH_BYTES)%N
  && negb (contains_char 0%N value || contains_char 13%N value || contains_char 10%N value)
  && path_is_absolute value && negb (path_has_relative_component value).

Definition SshAuthenticationPolicy_validate_durable (p : SshAuthenticationPolicy) : rresult unit :=
  match sap_method p, sap_private_key_path p with
  | (SshAuthenticationMethod.Password | SshAuthenticationMethod.Agent), None => Ok tt
  | SshAuthenticationMethod.PrivateKey, Some path =>
      if is_durable_private_key_path path then Ok tt else Err InvalidAuthenticationPolicy
  | _, _ => Err InvalidAuthenticationPolicy
  end.

(** [private_key_file]: the validated path *)
Definition SshAuthenticationPolicy_private_key_file (p : SshAuthenticationPolicy) : rresult rstr :=
  reject_if (sap_method p != SshAuthenticationMethod.PrivateKey) InvalidAuthenticationPolicy;;
  path ← ok_or (sap_private_key_path p) InvalidAuthenticationPolicy;
  if private_key_file_ok path then Ok path else Err InvalidAuthenticationPolicy.

Definition SshAuthenticationPolicy_validate_for_new (p : SshAuthenticationPolicy) : rresult unit :=
  SshAuthenticationPolicy_validate_durable p;;
  if sap_method p == SshAuthenticationMethod.PrivateKey then
    SshAuthenticationPolicy_private_key_file p;; Ok tt
  else Ok tt.

(** [SshAuthenticationPolicy::private_key], from the path of an accepted file *)
Definition SshAuthenticationPolicy_private_key (path : rstr) : rresult SshAuthenticationPolicy :=
  let value := {| sap_method := SshAuthenticationMethod.PrivateKey; sap_private_key_path := Some path |} in
  SshAuthenticationPolicy_validate_durable value;;
  Ok value.
End authentication.

(** ** Configuration *)
Module ServiceScope.
Inductive t := Auto | User | System.
#[export] Instance eq_dec : EqDecision t.
Proof. solve_decision. Defined.
End ServiceScope.
Export (hints) ServiceScope.
Module AllowedJobKind.
Inductive t := Build | Test | StaticAnalysis | Compute | Gpu | Container | Service | DataTransform
| MediaTransform | Render.
#[export] Instance eq_dec : EqDecision t.
Proof. solve_decision. Defined.
End AllowedJobKind.
Export (hints) AllowedJobKind.

Record ResourcePolicy := {
  rp_maximum_parallel_jobs : option N;
  rp_cpu_limit_percent : option N;
  rp_memory_limit_bytes : option N
}.
#[export] Instance ResourcePolicy_eq_dec : EqDecision ResourcePolicy.
Proof. solve_decision. Defined.
Definition ResourcePolicy_validate (p : ResourcePolicy) : rresult unit :=
  reject_if (is_some_and (rp_maximum_parallel_jobs p) (λ v, (v == 0%N) || (1024 <? v)%N)
             || is_some_and (rp_cpu_limit_percent p) (λ v, (v == 0%N) || (100 <? v)%N)
             || (rp_memory_limit_bytes p == Some 0%N)) (InvalidField (lit "configuration.resources")).

Record ComputerConfiguration := {
  cc_windows_instance_name : option rstr;
  cc_service_scope : ServiceScope.t;
  cc_workspace : option rstr;
  cc_priority : Z;
  cc_resources : ResourcePolicy;
  cc_allowed_job_kinds : list AllowedJobKind.t;
  cc_allow_on_battery : bool
}.
#[export] Instance ComputerConfiguration_eq_dec : EqDecision ComputerConfiguration.
Proof. solve_decision. Defined.
Definition ComputerConfiguration_default : ComputerConfiguration :=
  {| cc_windows_instance_name := None; cc_service_scope := ServiceScope.Auto; cc_workspace := None;
     cc_priority := 0;
     cc_resources := {| rp_maximum_parallel_jobs := None; rp_cpu_limit_percent := None;
                        rp_memory_limit_bytes := None |};
     cc_allowed_job_kinds := [AllowedJobKind.Build; AllowedJobKind.Test; AllowedJobKind.Compute];
     cc_allow_on_battery := false |}.

Definition validate_remote_workspace (value : rstr) : rresult unit :=
  validate_text (lit "configuration.workspace") value MAX_WORKSPACE_BYTES;;
  let normalized := replace_char 92%N 47%N value in
  let at_byte i b := (bytes normalized !! i) == Some b in
  let windows_absolute :=
    at_byte 1 58%N && is_some_and (bytes normalized !! 0) is_ascii_alphabetic && at_byte 2 47%N in
  let posix_absolute := starts_with (lit "/") normalized && negb (starts_with (lit "//") normalized) in
  let invalid_component :=
    existsb (λ component, (component == lit ".") || (component == lit "..")) (split 47%N normalized) in
  reject_if ((negb windows_absolute && negb posix_absolute) || invalid_component
             || contains_char 0%N value || contains_char 13%N value || contains_char 10%N value
             || contains_char 34%N value) (InvalidField (lit "configuration.workspace")).

Definition ComputerConfiguration_validate (c : ComputerConfiguration) : rresult unit :=
  match cc_windows_instance_name c with
  | Some name =>
      reject_if (is_empty name || (32 <? len name)%N
                 || negb (forallb (λ b, is_ascii_lowercase b || is_ascii_digit b || N.eqb b 45) (bytes name))
                 || starts_with (lit "-") name || is_some (cc_workspace c))
        (InvalidField (lit "configuration.windowsInstanceName"))
  | None => Ok tt
  end;;
  reject_if (negb ((-10000 <=? cc_priority c)%Z && (cc_priority c <=? 10000)%Z))
    (InvalidField (lit "configuration.priority"));;
  match cc_workspace c with Some workspace => validate_remote_workspace workspace | None => Ok tt end;;
  reject_if (is_empty (cc_allowed_job_kinds c)) (InvalidField (lit "configuration.allowedJobKinds"));;
  ResourcePolicy_validate (cc_resources c).

Module CredentialState.
Inductive t := Pending | SessionOnly | Stored | Forgotten.
#[export] Instance eq_dec : EqDecision t.
Proof. solve_decision. Defined.
End CredentialState.
Export (hints) CredentialState.
Record CredentialPolicy := {
  cp_remember_requested : bool;
  cp_state : CredentialState.t
}.
(** [cyc_secrets::CredentialReference], an opaque validated text *)
Definition CredentialReference : Type := rstr.

Record ComputerEndpoint := { ep_host : rstr; ep_port : N; ep_username : rstr }.
#[export] Instance ComputerEndpoint_eq_dec : EqDecision ComputerEndpoint.
Proof. solve_decision. Defined.
Definition ComputerEndpoint_validate (e : ComputerEndpoint) : rresult unit :=
  validate_text (lit "endpoint.host") (ep_host e) MAX_HOST_BYTES;;
  validate_text (lit "endpoint.username") (ep_username e) MAX_USERNAME_BYTES;;
  reject_if (ep_port e == 0%N) (InvalidField (lit "endpoint.port")).
Definition ComputerEndpoint_new (host : rstr) (port : N) (username : rstr) : rresult ComputerEndpoint :=
  let endpoint := {| ep_host := host; ep_port := port; ep_username := username |} in
  ComputerEndpoint_validate endpoint;;
  Ok endpoint.

Record NewComputer := {
  nc_display_name : rstr;
  nc_endpoint : ComputerEndpoint;
  nc_ssh_authentication : SshAuthenticationPolicy;
  nc_remember_credential : bool;
  nc_configuration : ComputerConfiguration
}.
Definition NewComputer_validate `{HostPlatform} (n : NewComputer) : rresult unit :=
  validate_text (lit "displayName") (nc_display_name n) MAX_DISPLAY_NAME_BYTES;;
  ComputerEndpoint_validate (nc_endpoint n);;
  SshAuthenticationPolicy_validate_for_new (nc_ssh_authentication n);;
  reject_if ((sap_method (nc_ssh_authentication n) != SshAuthenticationMethod.Password)
             && nc_remember_credential n) InvalidAuthenticationPolicy;;
  ComputerConfiguration_validate (nc_configuration n).
Definition NewComputer_new `{HostPlatform} (display_name : rstr) (endpoint : ComputerEndpoint) :
    rresult NewComputer :=
  let value := {| nc_display_name := display_name; nc_endpoint := endpoint;
    nc_ssh_authentication := SshAuthenticationPolicy_password; nc_remember_credential := true;
    nc_configuration := ComputerConfiguration_default |} in
  NewComputer_validate value;;
  Ok value.

(** ** Host keys *)
Definition MAX_HOST_KEY_BYTES : N := 64 * 1024.

(** The errors of [HostKey::from_parts] *)
Module SshError.
Inductive t := UnsupportedHostKeyAlgorithm | HostKeyUnavailable.
End SshError.

Record HostKey := { hk_algorithm : rstr; hk_key_bytes : list N; hk_fingerprint : rstr }.
Record PinnedHostKeyRecord := {
  phk_algorithm : rstr;
  phk_public_key_base64 : rstr;
  phk_fingerprint : rstr
}.
#[export] Instance PinnedHostKeyRecord_eq_dec : EqDecision PinnedHostKeyRecord.
Proof. solve_decision. Defined.

Section host_keys.
Context `{DigestCrate, Base64Crate}.

Definition sha256_fingerprint (bs : list N) : rstr := lit "SHA256:" ++ base64_encode (sha256 bs).

Definition host_key_algorithms : list rstr :=
  [lit "ssh-rsa"; lit "ssh-dss"; lit "ecdsa-sha2-nistp256"; lit "ecdsa-sha2-nistp384";
   lit "ecdsa-sha2-nistp521"; lit "ssh-ed25519"].
Definition HostKey_from_parts (algorithm : rstr) (key_bytes : list N) : result SshError.t HostKey :=
  reject_if (negb (bool_decide (algorithm ∈ host_key_algorithms))) SshError.UnsupportedHostKeyAlgorithm;;
  reject_if (is_empty key_bytes || (MAX_HOST_KEY_BYTES <? N.of_nat (length key_bytes))%N)
    SshError.HostKeyUnavailable;;
  Ok {| hk_algorithm := algorithm; hk_key_bytes := key_bytes;
        hk_fingerprint := sha256_fingerprint key_bytes |}.

(** [TryFrom<&PinnedHostKeyRecord> for HostKey] and [From<&HostKey>] *)
Definition HostKey_try_from (r : PinnedHostKeyRecord) : rresult HostKey :=
  bs ← ok_or (base64_decode (bytes (phk_public_key_base64 r))) InvalidHostKey;
  map_err (λ _, InvalidHostKey) (HostKey_from_parts (phk_algorithm r) bs).
Definition PinnedHostKeyRecord_from (k : HostKey) : PinnedHostKeyRecord :=
  {| phk_algorithm := hk_algorithm k; phk_public_key_base64 := base64_encode (hk_key_bytes k);
     phk_fingerprint := hk_fingerprint k |}.

Definition PinnedHostKeyRecord_validate (r : PinnedHostKeyRecord) : rresult unit :=
  validate_text (lit "hostKey.algorithm") (phk_algorithm r) 128;;
  validate_text (lit "hostKey.publicKeyBase64") (phk_public_key_base64 r) (64 * 1024);;
  validate_text (lit "hostKey.fingerprint") (phk_fingerprint r) 256;;
  key ← HostKey_try_from r;
  reject_if (hk_fingerprint key != phk_fingerprint r) InvalidHostKey.
End host_keys.

(** ** Inventory *)
Record GpuInventory := {
  pgi_name : rstr;
  pgi_stable_device_id : option rstr;
  pgi_memory_bytes : option N
}.
Definition GpuInventory_validate (g : GpuInventory) : rresult unit :=
  validate_text (lit "inventory.gpu.name") (pgi_name g) MAX_TEXT_BYTES;;
  match pgi_stable_device_id g with
  | Some id => validate_text (lit "inventory.gpu.stableDeviceId") id MAX_TEXT_BYTES
  | None => Ok tt
  end.
Record DiscoveredComputer := {
  dc_hostname : rstr;
  dc_operating_system : rstr;
  dc_architecture : rstr;
  dc_cpu_model : rstr;
  dc_logical_cpu_count : N;
  dc_memory_bytes : N;
  dc_workspace_free_bytes : N;
  dc_gpu_devices : list GpuInventory;
  dc_toolchains : list (rstr * rstr)
}.
Definition DiscoveredComputer_validate (d : DiscoveredComputer) : rresult unit :=
  validate_text (lit "inventory.hostname") (dc_hostname d) MAX_TEXT_BYTES;;
  validate_text (lit "inventory.operatingSystem") (dc_operating_system d) MAX_TEXT_BYTES;;
  validate_text (lit "inventory.architecture") (dc_architecture d) MAX_TEXT_BYTES;;
  validate_text (lit "inventory.cpuModel") (dc_cpu_model d) MAX_TEXT_BYTES;;
  reject_if (dc_logical_cpu_count d == 0%N) (InvalidField (lit "inventory.logicalCpuCount"));;
  reject_if (MAX_GPU_DEVICES <? length (dc_gpu_devices d)) (InvalidField (lit "inventory.gpuDevices"));;
  for_each GpuInventory_validate (dc_gpu_devices d);;
  reject_if (MAX_TOOLCHAINS <? length (dc_toolchains d)) (InvalidField (lit "inventory.toolchains"));;
  for_each (λ '(name, version),
      validate_text (lit "inventory.toolchain.name") name MAX_TEXT_BYTES;;
      validate_text (lit "inventory.toolchain.version") version MAX_TEXT_BYTES)
    (dc_toolchains d).

(** ** Steps, states, intents *)
Module ProvisioningStep.
Inductive t := Draft | SshConnecting | HostKeyPending | Authenticated | Discovering | CredentialStored
| KitStaged | WorkerInstalled | EnrollmentIssued | Paired | ServiceEnabled | HeartbeatSeen | SmokeCheck
| Ready.
#[export] Instance eq_dec : EqDecision t.
Proof. solve_decision. Defined.
Definition rank (s : t) : N :=
  match s with
  | Draft => 0 | SshConnecting => 1 | HostKeyPending => 2 | Authenticated => 3 | Discovering => 4
  | CredentialStored => 5 | KitStaged => 6 | WorkerInstalled => 7 | EnrollmentIssued => 8 | Paired => 9
  | ServiceEnabled => 10 | HeartbeatSeen => 11 | SmokeCheck => 12 | Ready => 13
  end.
Definition is_at_least (s checkpoint : t) : bool := (rank checkpoint <=? rank s)%N.
End ProvisioningStep.
Export (hints) ProvisioningStep.

(** [FailureCode], the text of a code accepted by [new] *)
Definition FailureCode : Type := rstr.
Definition FailureCode_new (value : rstr) : rresult FailureCode :=
  reject_if (is_empty value || (MAX_FAILURE_CODE_BYTES <? len value)%N
             || negb (forallb (λ b, is_ascii_uppercase b || is_ascii_digit b
                                    || (N.eqb b 95 || N.eqb b 45 || N.eqb b 46)) (bytes value)))
    InvalidFailureCode;;
  Ok value.

Module ProvisioningState.
Inductive t := Draft | SshConnecting | HostKeyPending | Authenticated | Discovering | CredentialStored
| KitStaged | WorkerInstalled | EnrollmentIssued | Paired | ServiceEnabled | HeartbeatSeen | SmokeCheck
| Ready
| Failed (step : ProvisioningStep.t) (code : FailureCode) (retryable : bool).
Definition active_step (s : t) : ProvisioningStep.t :=
  match s with
  | Draft => ProvisioningStep.Draft | SshConnecting => ProvisioningStep.SshConnecting
  | HostKeyPending => ProvisioningStep.HostKeyPending | Authenticated => ProvisioningStep.Authenticated
  | Discovering => ProvisioningStep.Discovering | CredentialStored => ProvisioningStep.CredentialStored
  | KitStaged => ProvisioningStep.KitStaged | WorkerInstalled => ProvisioningStep.WorkerInstalled
  | EnrollmentIssued => ProvisioningStep.EnrollmentIssued | Paired => ProvisioningStep.Paired
  | ServiceEnabled => ProvisioningStep.ServiceEnabled | HeartbeatSeen => ProvisioningStep.HeartbeatSeen
  | SmokeCheck => ProvisioningStep.SmokeCheck | Ready => ProvisioningStep.Ready
  | Failed step _ _ => step
  end.
Definition from_step (s : ProvisioningStep.t) : t :=
  match s with
  | ProvisioningStep.Draft => Draft | ProvisioningStep.SshConnecting => SshConnecting
  | ProvisioningStep.HostKeyPending => HostKeyPending | ProvisioningStep.Authenticated => Authenticated
  | ProvisioningStep.Discovering => Discovering | ProvisioningStep.CredentialStored => CredentialStored
  | ProvisioningStep.KitStaged => KitStaged | ProvisioningStep.WorkerInstalled => WorkerInstalled
  | ProvisioningStep.EnrollmentIssued => EnrollmentIssued | ProvisioningStep.Paired => Paired
  | ProvisioningStep.ServiceEnabled => ServiceEnabled | ProvisioningStep.HeartbeatSeen => HeartbeatSeen
  | ProvisioningStep.SmokeCheck => SmokeCheck | ProvisioningStep.Ready => Ready
  end.
(** [matches!(state, Ready)] and [matches!(state, Failed { .. })] *)
Definition is_ready (s : t) : bool := match s with Ready => true | _ => false end.
Definition is_failed (s : t) : bool := match s with Failed _ _ _ => true | _ => false end.
Definition is_host_key_pending (s : t) : bool := match s with HostKeyPending => true | _ => false end.
End ProvisioningState.

Module ProvisioningIntent.
Inductive t := Continue | Resume | Retry | Rollback | Remove.
#[export] Instance eq_dec : EqDecision t.
Proof. solve_decision. Defined.
End ProvisioningIntent.
Export (hints) ProvisioningIntent.

(** ** The record *)
Record ComputerRecord := {
  cr_format_version : N;
  cr_id : Uuid;
  cr_display_name : rstr;
  cr_endpoint : ComputerEndpoint;
  cr_ssh_authentication : SshAuthenticationPolicy;
  cr_state : ProvisioningState.t;
  cr_intent : ProvisioningIntent.t;
  cr_teardown_completed : bool;
  cr_revision : N;
  cr_cycle : N;
  cr_intended_node_id : Uuid;
  cr_pairing_id : option Uuid;
  cr_paired_node_id : option Uuid;
  cr_host_key : option PinnedHostKeyRecord;
  cr_host_key_approved_at : option DateTime;
  cr_inventory : option DiscoveredComputer;
  cr_credential_policy : CredentialPolicy;
  cr_credential_reference : option CredentialReference;
  cr_configuration : ComputerConfiguration;
  cr_heartbeat_seen_at : option DateTime;
  cr_smoke_run_binding : option SmokeRunBindingV1;
  cr_smoke_check_completed_at : option DateTime;
  cr_created_at : DateTime;
  cr_updated_at : DateTime
}.

(** Assignment to one field (see [field] in Prelude.v). *)
Ltac assign proj v r :=
  refine (Build_ComputerRecord
    ltac:(field proj cr_format_version v r) ltac:(field proj cr_id v r)
    ltac:(field proj cr_display_name v r) ltac:(field proj cr_endpoint v r)
    ltac:(field proj cr_ssh_authentication v r) ltac:(field proj cr_state v r)
    ltac:(field proj cr_intent v r) ltac:(field proj cr_teardown_completed v r)
    ltac:(field proj cr_revision v r) ltac:(field proj cr_cycle v r)
    ltac:(field proj cr_intended_node_id v r) ltac:(field proj cr_pairing_id v r)
    ltac:(field proj cr_paired_node_id v r) ltac:(field proj cr_host_key v r)
    ltac:(field proj cr_host_key_approved_at v r) ltac:(field proj cr_inventory v r)
    ltac:(field proj cr_credential_policy v r) ltac:(field proj cr_credential_reference v r)
    ltac:(field proj cr_configuration v r) ltac:(field proj cr_heartbeat_seen_at v r)
    ltac:(field proj cr_smoke_run_binding v r) ltac:(field proj cr_smoke_check_completed_at v r)
    ltac:(field proj cr_created_at v r) ltac:(field proj cr_updated_at v r)).
Definition set_format_version (v : N) (r : ComputerRecord) : ComputerRecord :=
  ltac:(assign cr_format_version v r).
Definition set_state (v : ProvisioningState.t) (r : ComputerRecord) : ComputerRecord :=
  ltac:(assign cr_state v r).
Definition set_intent (v : ProvisioningIntent.t) (r : ComputerRecord) : ComputerRecord :=
  ltac:(assign cr_intent v r).
Definition set_teardown_completed (v : bool) (r : ComputerRecord) : ComputerRecord :=
  ltac:(assign cr_teardown_completed v r).
Definition set_revision (v : N) (r : ComputerRecord) : ComputerRecord := ltac:(assign cr_revision v r).
Definition set_cycle (v : N) (r : ComputerRecord) : ComputerRecord := ltac:(assign cr_cycle v r).
Definition set_pairing_id (v : option Uuid) (r : ComputerRecord) : ComputerRecord :=
  ltac:(assign cr_pairing_id v r).
Definition set_paired_node_id (v : option Uuid) (r : ComputerRecord) : ComputerRecord :=
  ltac:(assign cr_paired_node_id v r).
Definition set_host_key (v : option PinnedHostKeyRecord) (r : ComputerRecord) : ComputerRecord :=
  ltac:(assign cr_host_key v r).
Definition set_host_key_approved_at (v : option DateTime) (r : ComputerRecord) : ComputerRecord :=
  ltac:(assign cr_host_key_approved_at v r).
Definition set_inventory (v : option DiscoveredComputer) (r : ComputerRecord) : ComputerRecord :=
  ltac:(assign cr_inventory v r).
Definition set_credential_policy (v : CredentialPolicy) (r : ComputerRecord) : ComputerRecord :=
  ltac:(assign cr_credential_policy v r).
Definition set_credential_reference (v : option CredentialReference) (r : ComputerRecord) :
  ComputerRecord := ltac:(assign cr_credential_reference v r).
Definition set_heartbeat_seen_at (v : option DateTime) (r : ComputerRecord) : ComputerRecord :=
  ltac:(assign cr_heartbeat_seen_at v r).
Definition set_smoke_run_binding (v : option SmokeRunBindingV1) (r : ComputerRecord) : ComputerRecord :=
  ltac:(assign cr_smoke_run_binding v r).
Definition set_smoke_check_completed_at (v : option DateTime) (r : ComputerRecord) : ComputerRecord :=
  ltac:(assign cr_smoke_check_completed_at v r).
Definition set_updated_at (v : DateTime) (r : ComputerRecord) : ComputerRecord :=
  ltac:(assign cr_updated_at v r).
(** [record.credential_policy.state = v] *)
Definition set_credential_state (v : CredentialState.t) (r : ComputerRecord) : ComputerRecord :=
  set_credential_policy
    {| cp_remember_requested := cp_remember_requested (cr_credential_policy r); cp_state := v |} r.

(** Setting a field is read back and leaves another alone. *)
Example set_state_reads v r : cr_state (set_state v r) = v ∧ cr_intent (set_state v r) = cr_intent r.
Proof. done. Qed.
Example set_pairing_reads v r :
  cr_pairing_id (set_pairing_id v r) = v ∧ cr_paired_node_id (set_pairing_id v r) = cr_paired_node_id r.
Proof. done. Qed.
Example set_smoke_reads v r :
  cr_smoke_check_completed_at (set_smoke_check_completed_at v r) = v ∧
  cr_heartbeat_seen_at (set_smoke_check_completed_at v r) = cr_heartbeat_seen_at r.
Proof. done. Qed.
Example set_updated_reads v r :
  cr_updated_at (set_updated_at v r) = v ∧ cr_created_at (set_updated_at v r) = cr_created_at r.
Proof. done. Qed.

(** [ComputerRecord::new_with_identity] *)
Definition ComputerRecord_new_with_identity (input : NewComputer) (now : DateTime)
    (id intended_node_id : Uuid) : ComputerRecord :=
  {| cr_format_version := COMPUTER_RECORD_FORMAT_VERSION; cr_id := id;
     cr_display_name := nc_display_name input; cr_endpoint := nc_endpoint input;
     cr_ssh_authentication := nc_ssh_authentication input; cr_state := ProvisioningState.Draft;
     cr_intent := ProvisioningIntent.Continue; cr_teardown_completed := false; cr_revision := 1;
     cr_cycle := 0; cr_intended_node_id := intended_node_id; cr_pairing_id := None;
     cr_paired_node_id := None; cr_host_key := None; cr_host_key_approved_at := None;
     cr_inventory := None;
     cr_credential_policy := {| cp_remember_requested := nc_remember_credential input;
                                cp_state := CredentialState.Pending |};
     cr_credential_reference := None; cr_configuration := nc_configuration input;
     cr_heartbeat_seen_at := None; cr_smoke_run_binding := None; cr_smoke_check_completed_at := None;
     cr_created_at := now; cr_updated_at := now |}.

(** ** The smoke identity *)
Section validation.
Context `{UuidCrate, SerdeJsonCrate, DigestCrate, Base64Crate, HostPlatform}.

Definition canonical_smoke_operation_id (record_id : Uuid) (cycle : N) : rstr :=
  uuid_display record_id ++ lit ":" ++ fmt_N cycle ++ lit ":" ++ lit "run_smoke_check".
(** [Uuid::from_bytes], big endian *)
Definition uuid_from_bytes (bs : list N) : Uuid := foldl (λ acc b, 256 * acc + b)%N 0%N bs.
Definition canonical_smoke_job_id (record_id : Uuid) (cycle : N) : Uuid :=
  let digest := sha256 (bytes (canonical_smoke_operation_id record_id cycle)) in
  let bs := take 16 digest in
  let bs := <[6 := N.lor (N.land (nth 6 bs 0%N) 15) 80]> bs in
  let bs := <[8 := N.lor (N.land (nth 8 bs 0%N) 63) 128]> bs in
  uuid_from_bytes bs.

(** ** Validation *)
Definition validate_smoke_binding (r : ComputerRecord) (binding : SmokeRunBindingV1) : rresult unit :=
  map_err (λ _, InvalidSmokeBinding) (SmokeRunBindingV1_validate binding None None);;
  reject_if (pb_job_id (sb_plan binding) != canonical_smoke_job_id (cr_id r) (cr_cycle r))
    SmokeBindingJobMismatch;;
  reject_if ((pd_node_id (pb_decision (sb_plan binding)) != cr_intended_node_id r)
             || (cr_paired_node_id r != Some (cr_intended_node_id r))) SmokeBindingNodeMismatch.

Definition validate_smoke_checkpoint (r : ComputerRecord) (step : ProvisioningStep.t) : rresult unit :=
  if cr_format_version r == LEGACY_COMPUTER_RECORD_FORMAT_VERSION then
    reject_if (is_some (cr_smoke_run_binding r)) InvalidSmokeCheckpoint
  else
    match ProvisioningStep.is_at_least step ProvisioningStep.SmokeCheck, cr_smoke_run_binding r with
    | true, Some binding => validate_smoke_binding r binding
    | true, None => Err (MissingCheckpoint (lit "smokeRunBinding"))
    | false, Some _ => Err InvalidSmokeCheckpoint
    | false, None => Ok tt
    end;;
    reject_if (negb ((step == ProvisioningStep.SmokeCheck) || (step == ProvisioningStep.Ready))
               && is_some (cr_smoke_check_completed_at r)) InvalidSmokeCheckpoint;;
    match cr_smoke_run_binding r, cr_smoke_check_completed_at r with
    | Some binding, Some completed_at =>
        reject_if (completed_at <? pb_created_at (sb_plan binding))%Z InvalidTimestamp
    | _, _ => Ok tt
    end.

(** The checks on the evidence each step requires. *)
Definition validate_checkpoints (r : ComputerRecord) : rresult unit :=
  let step := ProvisioningState.active_step (cr_state r) in
  let reached := ProvisioningStep.is_at_least step in
  reject_if (reached ProvisioningStep.HostKeyPending && is_none (cr_host_key r))
    (MissingCheckpoint (lit "hostKey"));;
  reject_if (reached ProvisioningStep.Authenticated && is_none (cr_host_key_approved_at r))
    (MissingCheckpoint (lit "hostKeyApprovedAt"));;
  (if reached ProvisioningStep.CredentialStored then
     reject_if (is_none (cr_inventory r)) (MissingCheckpoint (lit "inventory"));;
     reject_if (cp_state (cr_credential_policy r) == CredentialState.Pending) InvalidCredentialState
   else Ok tt);;
  reject_if ((cp_state (cr_credential_policy r) == CredentialState.Forgotten)
             && negb (ProvisioningState.is_ready (cr_state r))) InvalidCredentialState;;
  reject_if (reached ProvisioningStep.EnrollmentIssued && is_none (cr_pairing_id r))
    (MissingCheckpoint (lit "pairingId"));;
  reject_if (reached ProvisioningStep.Paired && (cr_paired_node_id r != Some (cr_intended_node_id r)))
    (MissingCheckpoint (lit "pairedNodeId"));;
  reject_if (reached ProvisioningStep.HeartbeatSeen && is_none (cr_heartbeat_seen_at r))
    (MissingCheckpoint (lit "heartbeatSeenAt"));;
  validate_smoke_checkpoint r step;;
  reject_if (reached ProvisioningStep.Ready && is_none (cr_smoke_check_completed_at r))
    (MissingCheckpoint (lit "smokeCheckCompletedAt")).

(** The last match of [validate]. *)
Definition validate_intent (r : ComputerRecord) : rresult unit :=
  match cr_state r, cr_intent r with
  | ProvisioningState.Failed _ _ true, ProvisioningIntent.Retry
  | _, ProvisioningIntent.Continue
  | _, ProvisioningIntent.Rollback
  | _, ProvisioningIntent.Remove => Ok tt
  | ProvisioningState.Failed _ _ _, ProvisioningIntent.Resume
  | ProvisioningState.Failed _ _ _, ProvisioningIntent.Retry => Err InvalidIntent
  | _, ProvisioningIntent.Retry => Err InvalidIntent
  | ProvisioningState.Ready, ProvisioningIntent.Resume => Err InvalidIntent
  | _, ProvisioningIntent.Resume => Ok tt
  end.

Definition validate_timestamps (r : ComputerRecord) : rresult unit :=
  reject_if (cr_updated_at r <? cr_created_at r)%Z InvalidTimestamp;;
  reject_if (is_some_and (cr_host_key_approved_at r) (λ value, (value <? cr_created_at r)%Z)
             || is_some_and (cr_heartbeat_seen_at r) (λ value, (value <? cr_created_at r)%Z)
             || is_some_and (cr_smoke_check_completed_at r) (λ value, (value <? cr_created_at r)%Z)
             || is_some_and (option_zip (cr_heartbeat_seen_at r) (cr_smoke_check_completed_at r))
                  (λ '(heartbeat, smoke), (smoke <? heartbeat)%Z)) InvalidTimestamp.

Definition validate_credential_state (r : ComputerRecord) : rresult unit :=
  match cp_state (cr_credential_policy r) with
  | CredentialState.Stored =>
      reject_if (is_none (cr_credential_reference r)) (MissingCheckpoint (lit "credentialReference"))
  | CredentialState.Pending | CredentialState.SessionOnly | CredentialState.Forgotten =>
      reject_if (is_some (cr_credential_reference r)) InvalidCredentialState
  end.

Definition ComputerRecord_validate (r : ComputerRecord) : rresult unit :=
  reject_if (negb ((cr_format_version r == LEGACY_COMPUTER_RECORD_FORMAT_VERSION)
                   || (cr_format_version r == COMPUTER_RECORD_FORMAT_VERSION))) UnsupportedFormatVersion;;
  reject_if (uuid_is_nil (cr_id r) || uuid_is_nil (cr_intended_node_id r)
             || is_some_and (cr_pairing_id r) uuid_is_nil || is_some_and (cr_paired_node_id r) uuid_is_nil
             || (cr_revision r == 0%N)) InvalidIdentity;;
  validate_text (lit "displayName") (cr_display_name r) MAX_DISPLAY_NAME_BYTES;;
  ComputerEndpoint_validate (cr_endpoint r);;
  SshAuthenticationPolicy_validate_durable (cr_ssh_authentication r);;
  reject_if ((sap_method (cr_ssh_authentication r) != SshAuthenticationMethod.Password)
             && (cp_remember_requested (cr_credential_policy r) || is_some (cr_credential_reference r)
                 || (cp_state (cr_credential_policy r) == CredentialState.Stored)))
    InvalidAuthenticationPolicy;;
  validate_timestamps r;;
  match cr_host_key r with Some host_key => PinnedHostKeyRecord_validate host_key | None => Ok tt end;;
  match cr_inventory r with Some inventory => DiscoveredComputer_validate inventory | None => Ok tt end;;
  ComputerConfiguration_validate (cr_configuration r);;
  reject_if (cr_teardown_completed r
             && negb ((cr_intent r == ProvisioningIntent.Rollback)
                      || (cr_intent r == ProvisioningIntent.Remove))) InvalidTeardownCheckpoint;;
  validate_credential_state r;;
  validate_checkpoints r;;
  validate_intent r.

Definition is_legacy_ready (r : ComputerRecord) : bool :=
  (cr_format_version r == LEGACY_COMPUTER_RECORD_FORMAT_VERSION)
  && ProvisioningState.is_ready (cr_state r) && is_none (cr_smoke_run_binding r).

(** ** What validation establishes *)
Abbreviation step_of r := (ProvisioningState.active_step (cr_state r)).
Definition reached (r : ComputerRecord) (checkpoint : ProvisioningStep.t) : Prop :=
  (ProvisioningStep.rank checkpoint ≤ ProvisioningStep.rank (step_of r))%N.

(** The smoke evidence of a record. *)
Definition smoke_ok (r : ComputerRecord) : Prop :=
  if decide (cr_format_version r = LEGACY_COMPUTER_RECORD_FORMAT_VERSION) then
    cr_smoke_run_binding r = None
  else
    (reached r ProvisioningStep.SmokeCheck → is_Some (cr_smoke_run_binding r)) ∧
    (∀ b, cr_smoke_run_binding r = Some b →
       reached r ProvisioningStep.SmokeCheck ∧ validate_smoke_binding r b = Ok tt) ∧
    (is_Some (cr_smoke_check_completed_at r) → reached r ProvisioningStep.SmokeCheck) ∧
    (∀ b t, cr_smoke_run_binding r = Some b → cr_smoke_check_completed_at r = Some t →
       (pb_created_at (sb_plan b) ≤ t)%Z).

(** The evidence each checkpoint requires. *)
Record checkpoints_ok (r : ComputerRecord) : Prop := {
  ck_host_key : reached r ProvisioningStep.HostKeyPending → is_Some (cr_host_key r);
  ck_approved : reached r ProvisioningStep.Authenticated → is_Some (cr_host_key_approved_at r);
  ck_inventory : reached r ProvisioningStep.CredentialStored →
    is_Some (cr_inventory r) ∧ cp_state (cr_credential_policy r) ≠ CredentialState.Pending;
  ck_forgotten : cp_state (cr_credential_policy r) = CredentialState.Forgotten →
    ProvisioningState.is_ready (cr_state r) = true;
  ck_pairing : reached r ProvisioningStep.EnrollmentIssued → is_Some (cr_pairing_id r);
  ck_paired : reached r ProvisioningStep.Paired → cr_paired_node_id r = Some (cr_intended_node_id r);
  ck_heartbeat : reached r ProvisioningStep.HeartbeatSeen → is_Some (cr_heartbeat_seen_at r);
  ck_smoke : smoke_ok r;
  ck_completed : reached r ProvisioningStep.Ready → is_Some (cr_smoke_check_completed_at r)
}.

Lemma guard_evidence {A} (r : ComputerRecord) c (o : option A) :
  ProvisioningStep.is_at_least (step_of r) c && is_none o = false ↔ (reached r c → is_Some o).
Proof.
  unfold reached, ProvisioningStep.is_at_least. rewrite andb_false_iff, N.leb_gt, is_none_false.
  unfold is_Some. split; [intros [?|?] ?; [lia|done]|].
  intros Hr. destruct (N.lt_ge_cases (ProvisioningStep.rank (step_of r)) (ProvisioningStep.rank c)); auto.
Qed.

Lemma smoke_steps s :
  (ProvisioningStep.rank ProvisioningStep.SmokeCheck ≤ ProvisioningStep.rank s)%N ↔
  s = ProvisioningStep.SmokeCheck ∨ s = ProvisioningStep.Ready.
Proof. destruct s; cbn; split; try lia; try (by intros [|]); auto. Qed.

Lemma validate_smoke_checkpoint_Ok r : validate_smoke_checkpoint r (step_of r) = Ok tt ↔ smoke_ok r.
Proof.
  unfold validate_smoke_checkpoint, smoke_ok, LEGACY_COMPUTER_RECORD_FORMAT_VERSION.
  case_bool_decide as Hv; destruct (decide _); try done.
  { by rewrite reject_if_Ok, is_some_false. }
  rewrite !bind_unit_Ok, reject_if_Ok, andb_false_iff, negb_false_iff, orb_true_iff, !bool_decide_eq_true.
  rewrite is_some_false. unfold reached.
  assert ((step_of r = ProvisioningStep.SmokeCheck ∨ step_of r = ProvisioningStep.Ready) ∨
          cr_smoke_check_completed_at r = None ↔
          (is_Some (cr_smoke_check_completed_at r) →
           (ProvisioningStep.rank ProvisioningStep.SmokeCheck ≤ ProvisioningStep.rank (step_of r))%N)) as ->.
  { rewrite smoke_steps. destruct (cr_smoke_check_completed_at r) as [t|].
    - split; [intros [?|?]; [done|done]|]. intros Hr. left. apply Hr. by eexists.
    - split; [by intros _ [? ?]|by right]. }
  unfold ProvisioningStep.is_at_least.
  destruct (N.leb_spec (ProvisioningStep.rank ProvisioningStep.SmokeCheck) (ProvisioningStep.rank (step_of r)))
    as [Hr|Hr]; destruct (cr_smoke_run_binding r) as [b|].
  - destruct (cr_smoke_check_completed_at r) as [t|]; rewrite ?reject_if_Ok, ?Z.ltb_ge; split.
    + intros (Hb & Ht & Hc). split_and!; naive_solver.
    + intros (_ & Hb & Ht & Hc). destruct (Hb b eq_refl). split_and!; naive_solver.
    + intros (Hb & Ht & _). split_and!; naive_solver.
    + intros (_ & Hb & Ht & _). destruct (Hb b eq_refl). by split_and!.
  - split; [by intros [? _]|]. intros (Hn & _). by destruct (Hn Hr).
  - split; [by intros [? _]|]. intros (_ & Hb & _). destruct (Hb b eq_refl). lia.
  - split; [intros (_ & Ht & _); split_and!; try done; lia|]. by intros (_ & _ & Ht & _).
Qed.

Lemma validate_checkpoints_Ok r : validate_checkpoints r = Ok tt ↔ checkpoints_ok r.
Proof.
  unfold validate_checkpoints. cbv zeta.
  rewrite !bind_unit_Ok, !reject_if_Ok, !guard_evidence, validate_smoke_checkpoint_Ok.
  assert ((if ProvisioningStep.is_at_least (step_of r) ProvisioningStep.CredentialStored then
     reject_if (is_none (cr_inventory r)) (MissingCheckpoint (lit "inventory"));;
     reject_if (cp_state (cr_credential_policy r) == CredentialState.Pending) InvalidCredentialState
   else Ok tt) = Ok tt ↔
   (reached r ProvisioningStep.CredentialStored →
    is_Some (cr_inventory r) ∧ cp_state (cr_credential_policy r) ≠ CredentialState.Pending)) as ->.
  { unfold reached, ProvisioningStep.is_at_least. destruct (N.leb_spec (ProvisioningStep.rank
      ProvisioningStep.CredentialStored) (ProvisioningStep.rank (step_of r))).
    - rewrite bind_unit_Ok, !reject_if_Ok, is_none_false, bool_decide_eq_false. unfold is_Some. tauto.
    - split; [lia|done]. }
  assert ((cp_state (cr_credential_policy r) == CredentialState.Forgotten)
             && negb (ProvisioningState.is_ready (cr_state r)) = false ↔
          (cp_state (cr_credential_policy r) = CredentialState.Forgotten →
           ProvisioningState.is_ready (cr_state r) = true)) as ->.
  { rewrite andb_false_iff, bool_decide_eq_false, negb_false_iff.
    destruct (decide (cp_state (cr_credential_policy r) = CredentialState.Forgotten)); tauto. }
  assert (ProvisioningStep.is_at_least (step_of r) ProvisioningStep.Paired
            && (cr_paired_node_id r != Some (cr_intended_node_id r)) = false ↔
          (reached r ProvisioningStep.Paired → cr_paired_node_id r = Some (cr_intended_node_id r))) as ->.
  { unfold reached, ProvisioningStep.is_at_least. rewrite andb_false_iff, N.leb_gt, negb_bool_decide_false.
    split; [intros [?|?] ?; [lia|done]|]. intros Hp.
    destruct (N.lt_ge_cases (ProvisioningStep.rank (step_of r)) (ProvisioningStep.rank ProvisioningStep.Paired));
      auto. }
  split; [intros (?&?&?&?&?&?&?&?&?); by split|]. intros []. by split_and!.
Qed.

(** The parts of a record the engine never changes. *)
Definition input_ok (r : ComputerRecord) : Prop :=
  cr_id r ≠ 0%N ∧ cr_intended_node_id r ≠ 0%N ∧
  validate_text (lit "displayName") (cr_display_name r) MAX_DISPLAY_NAME_BYTES = Ok tt ∧
  ComputerEndpoint_validate (cr_endpoint r) = Ok tt ∧
  SshAuthenticationPolicy_validate_durable (cr_ssh_authentication r) = Ok tt ∧
  ComputerConfiguration_validate (cr_configuration r) = Ok tt.

(** The credential policy agrees with the reference and the method. *)
Definition credential_ok (r : ComputerRecord) : Prop :=
  (cp_state (cr_credential_policy r) = CredentialState.Stored ↔ is_Some (cr_credential_reference r)) ∧
  (sap_method (cr_ssh_authentication r) ≠ SshAuthenticationMethod.Password →
   cp_remember_requested (cr_credential_policy r) = false ∧
   cp_state (cr_credential_policy r) ≠ CredentialState.Stored).

Definition intent_ok (r : ComputerRecord) : Prop :=
  match cr_intent r with
  | ProvisioningIntent.Retry => ∃ step code, cr_state r = ProvisioningState.Failed step code true
  | ProvisioningIntent.Resume =>
      ProvisioningState.is_failed (cr_state r) = false ∧ ProvisioningState.is_ready (cr_state r) = false
  | _ => True
  end.

Record record_ok (r : ComputerRecord) : Prop := {
  ro_version : cr_format_version r = LEGACY_COMPUTER_RECORD_FORMAT_VERSION ∨
               cr_format_version r = COMPUTER_RECORD_FORMAT_VERSION;
  ro_revision : cr_revision r ≠ 0%N;
  ro_pairing : cr_pairing_id r ≠ Some 0%N ∧ cr_paired_node_id r ≠ Some 0%N;
  ro_input : input_ok r;
  ro_times : validate_timestamps r = Ok tt;
  ro_host_key : ∀ k, cr_host_key r = Some k → PinnedHostKeyRecord_validate k = Ok tt;
  ro_inventory : ∀ i, cr_inventory r = Some i → DiscoveredComputer_validate i = Ok tt;
  ro_teardown : cr_teardown_completed r = true →
    cr_intent r = ProvisioningIntent.Rollback ∨ cr_intent r = ProvisioningIntent.Remove;
  ro_credential : credential_ok r;
  ro_checkpoints : checkpoints_ok r;
  ro_intent : intent_ok r
}.

Lemma validate_intent_Ok r : validate_intent r = Ok tt ↔ intent_ok r.
Proof.
  unfold validate_intent, intent_ok.
  destruct (cr_intent r), (cr_state r) as [| | | | | | | | | | | | | |step code []]; cbn; naive_solver.
Qed.

Lemma validate_credential_Ok r :
  (sap_method (cr_ssh_authentication r) != SshAuthenticationMethod.Password)
    && (cp_remember_requested (cr_credential_policy r) || is_some (cr_credential_reference r)
        || (cp_state (cr_credential_policy r) == CredentialState.Stored)) = false ∧
  validate_credential_state r = Ok tt ↔ credential_ok r.
Proof.
  unfold validate_credential_state, credential_ok.
  rewrite andb_false_iff, negb_bool_decide_false, !orb_false_iff, bool_decide_eq_false, is_some_false.
  destruct (decide (sap_method (cr_ssh_authentication r) = SshAuthenticationMethod.Password)) as [Hm|Hm];
    destruct (cp_state (cr_credential_policy r)), (cr_credential_reference r); cbn;
    rewrite ?reject_if_Ok; split; intros Hc; split_and?; try done; try tauto; try naive_solver.
Qed.

Lemma optional_Ok {A E} (o : option A) (f : A → result E unit) :
  match o with Some a => f a | None => Ok tt end = Ok tt ↔ ∀ a, o = Some a → f a = Ok tt.
Proof. destruct o; naive_solver. Qed.

Lemma some_nil_false (o : option Uuid) : is_some_and o uuid_is_nil = false ↔ o ≠ Some 0%N.
Proof. rewrite is_some_and_false. unfold uuid_is_nil. setoid_rewrite bool_decide_eq_false. naive_solver. Qed.

Lemma ComputerRecord_validate_Ok r : ComputerRecord_validate r = Ok tt ↔ record_ok r.
Proof.
  unfold ComputerRecord_validate.
  rewrite !bind_unit_Ok, !reject_if_Ok, !orb_false_iff, negb_false_iff, orb_true_iff, !bool_decide_eq_true,
    !some_nil_false, !optional_Ok, validate_checkpoints_Ok, validate_intent_Ok.
  unfold uuid_is_nil. rewrite !bool_decide_eq_false.
  assert (cr_teardown_completed r && negb ((cr_intent r == ProvisioningIntent.Rollback)
            || (cr_intent r == ProvisioningIntent.Remove)) = false ↔
          (cr_teardown_completed r = true →
           cr_intent r = ProvisioningIntent.Rollback ∨ cr_intent r = ProvisioningIntent.Remove)) as ->.
  { rewrite andb_false_iff, negb_false_iff, orb_true_iff, !bool_decide_eq_true.
    destruct (cr_teardown_completed r); naive_solver. }
  pose proof (validate_credential_Ok r) as Hc. split.
  - intros (?&((((?&?)&?)&?)&?)&?&?&?&Hm&?&?&?&?&?&Hs&?&?).
    split; try done. by apply Hc.
  - intros [? ? [? ?] (?&?&?&?&?&?) ? ? ? ? Hcr ? ?]. apply Hc in Hcr as [Hm Hs]. by split_and!.
Qed.

(** ** Ready *)

(** What a ready computer proves.  A record that validates in state Ready (and
    was not written by the legacy format) has a valid approved host key, an
    inventory, a pairing consumed by exactly the intended node, a heartbeat, and
    a completed smoke run: its binding is accepted by the placement validator, is
    for this computer's smoke job of this cycle and for this node, and completed
    after both the heartbeat and the plan. *)
Theorem ready_record_sound (r : ComputerRecord) (Hv : ComputerRecord_validate r = Ok tt)
    (Hready : cr_state r = ProvisioningState.Ready) (Hformat : is_legacy_ready r = false) :
  (∃ k, cr_host_key r = Some k ∧ PinnedHostKeyRecord_validate k = Ok tt) ∧
  is_Some (cr_host_key_approved_at r) ∧ is_Some (cr_inventory r) ∧ is_Some (cr_pairing_id r) ∧
  cr_paired_node_id r = Some (cr_intended_node_id r) ∧
  ∃ heartbeat binding completed,
    cr_heartbeat_seen_at r = Some heartbeat ∧ cr_smoke_run_binding r = Some binding ∧
    cr_smoke_check_completed_at r = Some completed ∧
    SmokeRunBindingV1_validate binding None None = Ok tt ∧
    pb_job_id (sb_plan binding) = canonical_smoke_job_id (cr_id r) (cr_cycle r) ∧
    pd_node_id (pb_decision (sb_plan binding)) = cr_intended_node_id r ∧
    (heartbeat ≤ completed ∧ pb_created_at (sb_plan binding) ≤ completed)%Z.
Proof.
  apply ComputerRecord_validate_Ok in Hv as [_ _ _ _ Htimes Hkey _ _ _ [Ck Ca Ci _ Cp Cn Ch Cs Cc] _].
  assert (∀ c, reached r c) as Hall by (intros c; unfold reached; rewrite Hready; destruct c; cbn; lia).
  destruct (Ck (Hall _)) as [k Hk], (Ch (Hall _)) as [heartbeat Hh], (Cc (Hall _)) as [completed Hcomp].
  destruct (Ci (Hall _)) as [Hi _].
  split; [exists k; split; auto|]. split; [by apply Ca|]. split; [done|]. split; [by apply Cp|].
  split; [by apply Cn|]. unfold smoke_ok in Cs. destruct (decide _) as [Hl|_].
  { unfold is_legacy_ready in Hformat. rewrite Hl, Hready, Cs in Hformat. done. }
  destruct Cs as (Sb & Sv & _ & St). destruct (Sb (Hall _)) as [binding Hb].
  destruct (Sv binding Hb) as [_ Hbv]. unfold validate_smoke_binding in Hbv.
  rewrite !bind_unit_Ok, map_err_Ok, !reject_if_Ok, orb_false_iff, !negb_bool_decide_false in Hbv.
  exists heartbeat, binding, completed.
  unfold validate_timestamps in Htimes. rewrite bind_unit_Ok, !reject_if_Ok, !orb_false_iff in Htimes.
  destruct Htimes as (_ & (_ & Hz)). rewrite Hh, Hcomp in Hz. cbn in Hz. apply Z.ltb_ge in Hz.
  specialize (St binding completed Hb Hcomp). tauto.
Qed.
End validation.

(** ** Evaluation *)
Module ConcreteHost.
Definition alphabet : rstr :=
  lit "ABCDEFGHIJKLMNOPQRSTUVWXYZabcdefghijklmnopqrstuvwxyz0123456789+/".
Definition digit (n : N) : char := nth (N.to_nat n) alphabet 0%N.
Fixpoint encode (bs : list N) : rstr :=
  match bs with
  | a :: b :: c :: bs =>
      digit (a / 4)%N :: digit (a mod 4 * 16 + b / 16)%N :: digit (b mod 16 * 4 + c / 64)%N ::
      digit (c mod 64)%N :: encode bs
  | [a; b] => [digit (a / 4); digit (a mod 4 * 16 + b / 16); digit (b mod 16 * 4)]%N
  | [a] => [digit (a / 4); digit (a mod 4 * 16)]%N
  | [] => []
  end.
Definition value (c : char) : option N :=
  (λ '(i, _), N.of_nat i) <$> list_find (λ d, d = c) alphabet.
Fixpoint decode_groups (fuel : nat) (s : rstr) : option (list N) :=
  match fuel, s with
  | _, [] => Some []
  | S fuel, a :: b :: c :: d :: s =>
      a ← value a; b ← value b; c ← value c; d ← value d; rest ← decode_groups fuel s;
      Some (a * 4 + b / 16 :: b mod 16 * 16 + c / 4 :: c mod 4 * 64 + d :: rest)%N
  | _, [a; b; c] =>
      a ← value a; b ← value b; c ← value c; Some [a * 4 + b / 16; b mod 16 * 16 + c / 4]%N
  | _, [a; b] => a ← value a; b ← value b; Some [a * 4 + b / 16]%N
  | _, _ => None
  end.
#[export] Instance base64_crate : Base64Crate :=
  {| base64_encode := encode; base64_decode s := decode_groups (length s) s |}.
(** A Unix host whose key files are all acceptable. *)
#[export] Instance unix : HostPlatform :=
  {| path_is_absolute p := starts_with (lit "/") p;
     path_has_relative_component p :=
       existsb (λ s, s == lit "..") (split 47%N p) || starts_with (lit "./") p || (p == lit ".");
     private_key_file_ok _ := true |}.
End ConcreteHost.

#[local] Existing Instance Concrete.uuid_crate.
#[local] Existing Instance Concrete.digest_crate.
#[local] Existing Instance ConcreteJson.serde_crate.
#[local] Existing Instance ConcreteHost.base64_crate.
#[local] Existing Instance ConcreteHost.unix.

Definition sample_host_key : PinnedHostKeyRecord :=
  match HostKey_from_parts (lit "ssh-ed25519") [1; 2; 3; 4]%N with
  | Ok key => PinnedHostKeyRecord_from key
  | Err _ => {| phk_algorithm := []; phk_public_key_base64 := []; phk_fingerprint := [] |}
  end.
Definition sample_inventory : DiscoveredComputer :=
  {| dc_hostname := lit "gpu-box"; dc_operating_system := lit "Ubuntu 24.04";
     dc_architecture := lit "x86_64"; dc_cpu_model := lit "EPYC"; dc_logical_cpu_count := 16;
     dc_memory_bytes := 68719476736; dc_workspace_free_bytes := 1000000;
     dc_gpu_devices := []; dc_toolchains := [(lit "cargo", lit "1.90")] |}.
Definition sample_input : NewComputer :=
  {| nc_display_name := lit "GPU box";
     nc_endpoint := {| ep_host := lit "10.0.0.7"; ep_port := 22; ep_username := lit "cyc" |};
     nc_ssh_authentication := SshAuthenticationPolicy_password; nc_remember_credential := true;
     nc_configuration := ComputerConfiguration_default |}.
Definition sample_smoke_binding : SmokeRunBindingV1 :=
  {| sb_plan :=
       {| pb_api_version := pb_api_version sample_binding; pb_plan_id := pb_plan_id sample_binding;
          pb_job_id := canonical_smoke_job_id 2%N 0%N; pb_job_digest := pb_job_digest sample_binding;
          pb_created_at := 1000%Z; pb_expires_at := 2000%Z; pb_fleet_revision := 1; pb_node_revision := 1;
          pb_policy_revision := 0; pb_decision := sample_decision |};
     sb_run_id := 8%N |}.
(** The draft of [sample_input] with the evidence of a finished provisioning. *)
Definition sample_ready : ComputerRecord :=
  set_state ProvisioningState.Ready (set_host_key (Some sample_host_key)
    (set_host_key_approved_at (Some 200%Z) (set_inventory (Some sample_inventory)
    (set_credential_reference (Some (lit "cyc://credential/ssh-password/2"))
    (set_credential_state CredentialState.Stored (set_pairing_id (Some 5%N)
    (set_paired_node_id (Some 3%N) (set_heartbeat_seen_at (Some 900%Z)
    (set_smoke_run_binding (Some sample_smoke_binding) (set_smoke_check_completed_at (Some 1500%Z)
    (ComputerRecord_new_with_identity sample_input 100%Z 2%N 3%N))))))))))).

Lemma ready_record_sound_witness :
  ComputerRecord_validate sample_ready = Ok tt ∧
  cr_paired_node_id sample_ready = Some (cr_intended_node_id sample_ready).
Proof.
  assert (ComputerRecord_validate sample_ready = Ok tt) as Hv by (by vm_compute).
  split; [exact Hv|].
  apply (ready_record_sound sample_ready Hv); reflexivity.
Defined.
