(* ===== verification/ProvisionStore.v ===== *)
(** The provisioning journal: [crates/cyc-provision/src/store.rs].

    One SQLite table, one row per computer.  The row repeats the revision and the
    timestamps of the document it stores; [parse_record] refuses a row whose
    columns disagree with the document or whose document does not validate.  A
    write is a compare-and-swap on the revision.

    The table is a finite map from identifiers to rows.  Serialising a record,
    its identifier and its nanosecond timestamps to text and back is lossless, so
    a row holds the values themselves; a connection that fails and a poisoned
    lock are outside the model.  The clock is an argument of the operations that
    read it. *)
From Stdlib Require Import ZArith NArith Lia String.
From stdpp Require Import base option list numbers sets gmap.
From S2P Require Import Prelude Text Crates Protocol CanonicalJson PlacementBinding ProvisionModel.
Open Scope rust_scope.

Record Row := {
  row_revision : Z;
  row_created_at : DateTime;
  row_updated_at : DateTime;
  row_document : ComputerRecord
}.
Abbreviation Journal := (gmap Uuid Row).

Module StoreError.
Inductive t :=
| Validation (e : RecordValidationError.t)
| NotFound (id : Uuid)
| AlreadyExists (id : Uuid)
| Conflict (expected : N) (actual : option N)
| CorruptRecord
| InvalidInitialRevision
| ImmutableFieldChanged
| RevisionOverflow.
End StoreError.
Import StoreError.
Abbreviation sresult := (result StoreError.t).

(** [i64::try_from(revision)] and [u64::try_from(revision)] *)
Definition revision_to_i64 (revision : N) : sresult Z :=
  if (Z.of_N revision <=? i64_max)%Z then Ok (Z.of_N revision) else Err RevisionOverflow.
Definition revision_from_i64 (revision : Z) : sresult N :=
  if (0 <=? revision)%Z then Ok (Z.to_N revision) else Err CorruptRecord.

Definition u64_checked_add (a b : N) : option N :=
  if (a + b <=? u64_max)%N then Some (a + b)%N else None.

(** [previous + Duration::microseconds(1)] when the clock did not advance *)
Definition monotonic_now (previous now : DateTime) : DateTime :=
  if (previous <? now)%Z then now else (previous + 1000)%Z.

Section store.
Context `{UuidCrate, SerdeJsonCrate, DigestCrate, Base64Crate, HostPlatform}.

Definition parse_record (id : Uuid) (row : Row) : sresult ComputerRecord :=
  let record := row_document row in
  reject_if (cr_id record != id) CorruptRecord;;
  revision ← revision_from_i64 (row_revision row);
  reject_if ((cr_revision record != revision) || (cr_created_at record != row_created_at row)
             || (cr_updated_at record != row_updated_at row)) CorruptRecord;;
  map_err Validation (ComputerRecord_validate record);;
  Ok record.

Definition load_record (j : Journal) (id : Uuid) : sresult ComputerRecord :=
  row ← ok_or (j !! id) (NotFound id);
  parse_record id row.

(** [ProvisioningStore::get] *)
Definition get (j : Journal) (id : Uuid) : sresult ComputerRecord := load_record j id.

(** [ProvisioningStore::insert] *)
Definition insert (j : Journal) (record : ComputerRecord) : sresult Journal :=
  map_err Validation (ComputerRecord_validate record);;
  reject_if (cr_revision record != 1%N) InvalidInitialRevision;;
  revision ← revision_to_i64 (cr_revision record);
  match j !! cr_id record with
  | Some _ => Err (AlreadyExists (cr_id record))
  | None =>
      Ok (<[cr_id record := {| row_revision := revision; row_created_at := cr_created_at record;
            row_updated_at := cr_updated_at record; row_document := record |}]> j)
  end.

(** [ProvisioningStore::save_cas]; the [UPDATE] finds the row just read, whose
    revision is the expected one, unless the column disagrees. *)
Definition save_cas (j : Journal) (now : DateTime) (record : ComputerRecord) (expected_revision : N) :
    sresult (ComputerRecord * Journal) :=
  reject_if (cr_revision record != expected_revision)
    (Conflict expected_revision (Some (cr_revision record)));;
  current ← load_record j (cr_id record);
  reject_if (cr_revision current != expected_revision)
    (Conflict expected_revision (Some (cr_revision current)));;
  reject_if ((cr_id current != cr_id record) || (cr_intended_node_id current != cr_intended_node_id record)
             || (cr_created_at current != cr_created_at record)) ImmutableFieldChanged;;
  revision ← ok_or (u64_checked_add expected_revision 1) RevisionOverflow;
  let record := set_updated_at (monotonic_now (cr_updated_at current) now) (set_revision revision record) in
  map_err Validation (ComputerRecord_validate record);;
  column ← revision_to_i64 revision;
  expected_column ← revision_to_i64 expected_revision;
  match j !! cr_id record with
  | Some row =>
      reject_if (row_revision row != expected_column) (Conflict expected_revision None);;
      Ok (record, <[cr_id record := {| row_revision := column; row_created_at := row_created_at row;
            row_updated_at := cr_updated_at record; row_document := record |}]> j)
  | None => Err (Conflict expected_revision None)
  end.

(** [ProvisioningStore::delete_cas] *)
Definition delete_cas (j : Journal) (id : Uuid) (expected_revision : N) : sresult Journal :=
  expected_column ← revision_to_i64 expected_revision;
  match j !! id with
  | None => Err (NotFound id)
  | Some row =>
      if row_revision row == expected_column then Ok (delete id j)
      else
        actual ← revision_from_i64 (row_revision row);
        Err (Conflict expected_revision (Some actual))
  end.

(** ** Lemmas *)

(** Every row parses: columns and document agree, and the document validates. *)
Definition journal_ok (j : Journal) : Prop :=
  ∀ id row, j !! id = Some row → parse_record id row = Ok (row_document row).

#[local] Opaque ComputerRecord_validate.

Lemma parse_record_Ok id row r :
  parse_record id row = Ok r ↔
  r = row_document row ∧ cr_id r = id ∧ row_revision row = Z.of_N (cr_revision r) ∧
  row_created_at row = cr_created_at r ∧ row_updated_at row = cr_updated_at r ∧
  ComputerRecord_validate r = Ok tt.
Proof.
  unfold parse_record, revision_from_i64. cbv zeta.
  rewrite bind_unit_Ok, reject_if_Ok, negb_bool_decide_false, bind_Ok.
  split.
  - intros (Hid & rev & Hrev & Hrest).
    rewrite !bind_unit_Ok, reject_if_Ok, !orb_false_iff, !negb_bool_decide_false, map_err_Ok, Ok_Ok in Hrest.
    destruct Hrest as (((Hr & Hc) & Hu) & Hv & <-).
    destruct (Z.leb_spec 0 (row_revision row)); [|done]. injection Hrev as <-.
    split_and!; try done. rewrite Hr. lia.
  - intros (-> & Hid & Hr & Hc & Hu & Hv). split; [done|]. exists (cr_revision (row_document row)).
    rewrite Hr. destruct (Z.leb_spec 0 (Z.of_N (cr_revision (row_document row)))); [|lia].
    rewrite N2Z.id. split; [done|].
    rewrite !bind_unit_Ok, reject_if_Ok, !orb_false_iff, !negb_bool_decide_false, map_err_Ok. by split_and!.
Qed.

Lemma load_record_Ok j id r :
  load_record j id = Ok r ↔ ∃ row, j !! id = Some row ∧ parse_record id row = Ok r.
Proof. unfold load_record. rewrite bind_Ok. by setoid_rewrite ok_or_Ok. Qed.

Lemma load_stored j id r :
  load_record j id = Ok r → cr_id r = id ∧ ComputerRecord_validate r = Ok tt.
Proof. rewrite load_record_Ok. intros (row & _ & Hp). apply parse_record_Ok in Hp. tauto. Qed.

Lemma journal_ok_insert j id row :
  journal_ok j → parse_record id row = Ok (row_document row) → journal_ok (<[id := row]> j).
Proof.
  intros Hj Hr id' row'. destruct (decide (id = id')) as [->|Hne].
  - rewrite lookup_insert_eq. by intros [= <-].
  - rewrite lookup_insert_ne by done. apply Hj.
Qed.
Lemma journal_ok_delete j id : journal_ok j → journal_ok (delete id j).
Proof.
  intros Hj id' row'. rewrite lookup_delete_Some. intros [_ Hl]. by apply Hj.
Qed.

(** What a successful compare-and-swap did. *)
Lemma save_cas_Ok j now record expected saved j' :
  save_cas j now record expected = Ok (saved, j') ↔
  cr_revision record = expected ∧
  ∃ current, load_record j (cr_id record) = Ok current ∧ cr_revision current = expected ∧
    cr_intended_node_id current = cr_intended_node_id record ∧
    cr_created_at current = cr_created_at record ∧
    (Z.of_N expected + 1 ≤ i64_max)%Z ∧
    saved = set_updated_at (monotonic_now (cr_updated_at current) now)
              (set_revision (expected + 1)%N record) ∧
    ComputerRecord_validate saved = Ok tt ∧
    j' = <[cr_id record := {| row_revision := Z.of_N (expected + 1); row_created_at := cr_created_at record;
             row_updated_at := cr_updated_at saved; row_document := saved |}]> j.
Proof.
  unfold save_cas. rewrite bind_unit_Ok, reject_if_Ok, negb_bool_decide_false, bind_Ok.
  apply and_iff_compat_l. split.
  - intros (current & Hload & Hrest). exists current. split; [done|].
    rewrite !bind_unit_Ok, !reject_if_Ok, !orb_false_iff, !negb_bool_decide_false, bind_Ok in Hrest.
    destruct Hrest as (Hrev & ((Hid & Hnode) & Hcreated) & revision & Hadd & Hrest). apply ok_or_Ok in Hadd.
    cbv zeta in Hrest. rewrite bind_unit_Ok, map_err_Ok, bind_Ok in Hrest.
    destruct Hrest as (Hv & column & Hcol & Hrest). rewrite bind_Ok in Hrest.
    destruct Hrest as (ecol & Hecol & Hrest).
    unfold u64_checked_add in Hadd. destruct (_ <=? _)%N; [|done]. injection Hadd as <-.
    unfold revision_to_i64 in Hcol, Hecol.
    destruct (Z.leb_spec (Z.of_N (expected + 1)) i64_max); [|done]. injection Hcol as <-.
    destruct (Z.leb_spec (Z.of_N expected) i64_max); [|done]. injection Hecol as <-.
    pose proof Hload as Hrow. apply load_record_Ok in Hrow as (row & Hj & Hp).
    apply parse_record_Ok in Hp as (_ & _ & _ & Hrc & _).
    cbn [cr_id set_updated_at set_revision] in Hrest. rewrite Hj in Hrest.
    rewrite bind_unit_Ok, reject_if_Ok in Hrest. destruct Hrest as [_ [= <- <-]].
    split_and!; try done; [lia|]. rewrite Hrc, Hcreated. done.
  - intros (current & Hload & Hrev & Hnode & Hcreated & Hmax & -> & Hv & ->). exists current. split; [done|].
    pose proof Hload as Hrow. apply load_record_Ok in Hrow as (row & Hj & Hp).
    apply parse_record_Ok in Hp as (_ & Hid & Hrr & Hrc & _).
    rewrite !bind_unit_Ok, !reject_if_Ok, !orb_false_iff, !negb_bool_decide_false.
    split; [done|]. split; [done|].
    unfold u64_checked_add. destruct (N.leb_spec (expected + 1) u64_max) as [_|Hbig];
      [|unfold u64_max, i64_max in *; lia].
    cbn [ok_or mbind result_bind]. cbv zeta. rewrite Hv. cbn [map_err mbind result_bind].
    unfold revision_to_i64. destruct (Z.leb_spec (Z.of_N (expected + 1)) i64_max); [|lia].
    destruct (Z.leb_spec (Z.of_N expected) i64_max); [|lia]. cbn [mbind result_bind].
    cbn [cr_id set_updated_at set_revision]. rewrite Hj, bind_unit_Ok, reject_if_Ok, negb_bool_decide_false.
    split; [congruence|]. by rewrite Hrc, Hcreated.
Qed.

Lemma save_cas_journal_ok j now record expected saved j' :
  save_cas j now record expected = Ok (saved, j') → journal_ok j → journal_ok j'.
Proof.
  rewrite save_cas_Ok. intros (_ & current & Hload & _ & _ & _ & _ & -> & Hv & ->) Hj.
  apply journal_ok_insert; [done|]. apply parse_record_Ok. cbn. by split_and!.
Qed.
End store.
