(* ===== verification/ProvisionEngine.v ===== *)
(** The Add Computer engine: [crates/cyc-provision/src/engine.rs].

    [drive_once] advances one record by one durable step: it reads the record,
    asks the injected driver for the action of the checkpoint reached, applies the
    driver's completion and saves by compare-and-swap.  The engine is a state and
    error monad over the journal and the driver's own state; the driver is the
    trait [ProvisioningDriver], so every theorem holds for every driver. *)
From Stdlib Require Import ZArith NArith Lia String.
From stdpp Require Import base option list numbers sets gmap.
From S2P Require Import Prelude Text Crates Protocol CanonicalJson PlacementBinding ProvisionModel ProvisionStore.
Open Scope rust_scope.

Module ProvisioningAction.
Inductive t := BeginSsh | ProbeHostKey | Authenticate | BeginDiscovery | DiscoverAndStoreCredential
| StageKit | InstallWorker | IssueEnrollment | ApplyEnrollment | AwaitPairing | EnableService
| AwaitHeartbeat | BeginSmokeCheck | RunSmokeCheck | CleanupStaging | Rollback | Remove
| ForgetCredential.
#[export] Instance eq_dec : EqDecision t.
Proof. solve_decision. Defined.
Definition as_str (a : t) : rstr :=
  match a with
  | BeginSsh => lit "begin_ssh" | ProbeHostKey => lit "probe_host_key"
  | Authenticate => lit "authenticate" | BeginDiscovery => lit "begin_discovery"
  | DiscoverAndStoreCredential => lit "discover_and_store_credential"
  | StageKit => lit "stage_kit" | InstallWorker => lit "install_worker"
  | IssueEnrollment => lit "issue_enrollment" | ApplyEnrollment => lit "apply_enrollment"
  | AwaitPairing => lit "await_pairing" | EnableService => lit "enable_service"
  | AwaitHeartbeat => lit "await_heartbeat" | BeginSmokeCheck => lit "begin_smoke_check"
  | RunSmokeCheck => lit "run_smoke_check" | CleanupStaging => lit "cleanup_staging"
  | Rollback => lit "rollback" | Remove => lit "remove" | ForgetCredential => lit "forget_credential"
  end.
End ProvisioningAction.
Export (hints) ProvisioningAction.

Module StepCompletion.
Inductive t :=
| SshStarted
| HostKeyObserved (host_key : PinnedHostKeyRecord)
| Authenticated
| AuthenticatedStored (credential_reference : CredentialReference)
| AuthenticatedSessionOnly
| DiscoveryStarted
| DiscoveryCompleted (inventory : DiscoveredComputer) (credential_reference : CredentialReference)
| DiscoveryCompletedSessionOnly (inventory : DiscoveredComputer)
| KitStaged
| WorkerInstalled
| EnrollmentIssued (pairing_id : Uuid)
| Paired (node_id : Uuid)
| ServiceEnabled
| HeartbeatObserved (observed_at : DateTime)
| SmokeCheckPrepared (binding : SmokeRunBindingV1)
| SmokeCheckPassed (completed_at : DateTime)
| StagingCleaned
| Pending.
End StepCompletion.

Record DriverRequest := {
  dr_computer : ComputerRecord;
  dr_action : ProvisioningAction.t;
  dr_operation_id : rstr
}.

Module DriverFailureKind.
Inductive t := Failure | CredentialRequired.
#[export] Instance eq_dec : EqDecision t.
Proof. solve_decision. Defined.
End DriverFailureKind.
Export (hints) DriverFailureKind.
Record DriverFailure := {
  df_code : FailureCode;
  df_retryable : bool;
  df_kind : DriverFailureKind.t
}.
Definition DriverFailure_new (code : rstr) (retryable : bool) :
    result RecordValidationError.t DriverFailure :=
  code ← FailureCode_new code;
  Ok {| df_code := code; df_retryable := retryable; df_kind := DriverFailureKind.Failure |}.
Definition is_credential_required (f : DriverFailure) : bool :=
  df_kind f == DriverFailureKind.CredentialRequired.

(** The trait [ProvisioningDriver]: [&mut self] is the driver's state. *)
Class ProvisioningDriver (D : Type) := {
  driver_execute : D → DriverRequest → D * result DriverFailure StepCompletion.t;
  driver_rollback : D → DriverRequest → D * result DriverFailure unit;
  driver_remove : D → DriverRequest → D * result DriverFailure unit;
  driver_forget_credential : D → DriverRequest → D * result DriverFailure unit
}.

Module DriveOutcome.
Inductive t :=
| Checkpoint (record : ComputerRecord)
| AwaitingHostKeyApproval (record : ComputerRecord)
| AwaitingIntent (record : ComputerRecord)
| AwaitingCredential (record : ComputerRecord)
| AwaitingExternal (record : ComputerRecord)
| Ready (record : ComputerRecord)
| Failed (record : ComputerRecord)
| RolledBack (record : ComputerRecord)
| Removed (id : Uuid).
End DriveOutcome.

Module TransitionError.
Inductive t := InvalidCompletion | HostKeyChanged | NodeIdentityMismatch | PairingIdentityChanged
| SmokeBindingInvalid.
#[export] Instance eq_dec : EqDecision t.
Proof. solve_decision. Defined.
End TransitionError.
Export (hints) TransitionError.

Module ProvisioningError.
Inductive t :=
| Store (e : StoreError.t)
| Validation (e : RecordValidationError.t)
| Driver (failure : DriverFailure)
| InvalidOperation (message : rstr)
| HostKeyApprovalMismatch
| IdempotencyConflict
| InvalidIdentity
| CycleOverflow.
End ProvisioningError.
Import ProvisioningError.

(** ** The engine monad *)
Record World (D : Type) := { w_journal : Journal; w_driver : D }.
Arguments w_journal {D} _.
Arguments w_driver {D} _.
Arguments Build_World {D} _ _.

Definition engine (D A : Type) : Type := World D → World D * result ProvisioningError.t A.
#[export] Instance engine_ret {D} : MRet (engine D) := λ A a w, (w, Ok a).
#[export] Instance engine_bind {D} : MBind (engine D) := λ A B k m w,
  match m w with
  | (w', Ok a) => k a w'
  | (w', Err e) => (w', Err e)
  end.
(** An early [return Err(e)], and a pure [Result] followed by [?]. *)
Definition fail {D A} (e : ProvisioningError.t) : engine D A := λ w, (w, Err e).
Definition lift {D A} (m : result ProvisioningError.t A) : engine D A := λ w, (w, m).
(** A driver call: its state moves, its result is data. *)
Definition call {D A} (f : D → D * A) : engine D A := λ w,
  let '(d, a) := f (w_driver w) in ({| w_journal := w_journal w; w_driver := d |}, Ok a).

Section engine.
Context `{UuidCrate, SerdeJsonCrate, DigestCrate, Base64Crate, HostPlatform}.
Context {D : Type} `{!ProvisioningDriver D}.

(** Store calls, with [StoreError] converted by [?]. *)
Definition store_get (id : Uuid) : engine D ComputerRecord := λ w,
  (w, map_err Store (get (w_journal w) id)).
Definition store_insert (record : ComputerRecord) : engine D (result StoreError.t unit) := λ w,
  match insert (w_journal w) record with
  | Ok j => ({| w_journal := j; w_driver := w_driver w |}, Ok (Ok tt))
  | Err e => (w, Ok (Err e))
  end.
Definition store_save (now : DateTime) (record : ComputerRecord) (expected : N) : engine D ComputerRecord :=
  λ w,
  match save_cas (w_journal w) now record expected with
  | Ok (saved, j) => ({| w_journal := j; w_driver := w_driver w |}, Ok saved)
  | Err e => (w, Err (Store e))
  end.
Definition store_delete (id : Uuid) (expected : N) : engine D unit := λ w,
  match delete_cas (w_journal w) id expected with
  | Ok j => ({| w_journal := j; w_driver := w_driver w |}, Ok tt)
  | Err e => (w, Err (Store e))
  end.

(** ** Creation *)
Definition create (now : DateTime) (id intended_node_id : Uuid) (input : NewComputer) :
    engine D ComputerRecord :=
  lift (map_err Validation (NewComputer_validate input));;
  let record := ComputerRecord_new_with_identity input now id intended_node_id in
  lift (map_err Validation (ComputerRecord_validate record));;
  inserted ← store_insert record;
  lift (map_err Store inserted);;
  mret record.

Definition create_idempotent (now : DateTime) (input : NewComputer) (id intended_node_id : Uuid) :
    engine D ComputerRecord :=
  lift (map_err Validation (NewComputer_validate input));;
  if uuid_is_nil id || uuid_is_nil intended_node_id then fail InvalidIdentity
  else
  let record := ComputerRecord_new_with_identity input now id intended_node_id in
  lift (map_err Validation (ComputerRecord_validate record));;
  inserted ← store_insert record;
  match inserted with
  | Ok _ => mret record
  | Err (StoreError.AlreadyExists existing_id as e) =>
      if existing_id == id then
        existing ← store_get id;
        if (cr_intended_node_id existing != intended_node_id)
           || (cr_display_name existing != nc_display_name input)
           || (cr_endpoint existing != nc_endpoint input)
           || (cr_ssh_authentication existing != nc_ssh_authentication input)
           || (cr_configuration existing != nc_configuration input)
           || negb (eqb (cp_remember_requested (cr_credential_policy existing))
                        (nc_remember_credential input))
        then fail IdempotencyConflict
        else mret existing
      else fail (Store e)
  | Err e => fail (Store e)
  end.

Definition load_expected (id : Uuid) (expected_revision : N) : engine D ComputerRecord :=
  record ← store_get id;
  if cr_revision record != expected_revision then
    fail (Store (StoreError.Conflict expected_revision (Some (cr_revision record))))
  else mret record.

(** ** User operations *)
Definition approve_host_key (approved_at now : DateTime) (id : Uuid) (expected_revision : N)
    (expected_fingerprint : rstr) : engine D ComputerRecord :=
  record ← load_expected id expected_revision;
  if negb (ProvisioningState.is_host_key_pending (cr_state record)) then
    fail (InvalidOperation (lit "host-key approval requires host_key_pending"))
  else
  match cr_host_key record with
  | None => fail (InvalidOperation (lit "host key checkpoint is missing"))
  | Some observed =>
      if phk_fingerprint observed != expected_fingerprint then fail HostKeyApprovalMismatch
      else store_save now (set_host_key_approved_at (Some approved_at) record) expected_revision
  end.

(** The two explicit-retry exceptions of [request_intent], which make a stored
    failure retryable. *)
Definition recheck_smoke (intent : ProvisioningIntent.t) (record : ComputerRecord) : ComputerRecord :=
  if (intent == ProvisioningIntent.Retry) && is_some (cr_smoke_run_binding record) then
    match cr_state record with
    | ProvisioningState.Failed ProvisioningStep.SmokeCheck code _ =>
        if code == lit "JOB_PROGRESS_REGRESSED" then
          set_state (ProvisioningState.Failed ProvisioningStep.SmokeCheck code true) record
        else record
    | _ => record
    end
  else record.
Definition recheck_host_key (intent : ProvisioningIntent.t) (record : ComputerRecord) : ComputerRecord :=
  if (intent == ProvisioningIntent.Retry) && is_some (cr_host_key record)
     && is_some (cr_host_key_approved_at record) then
    match cr_state record with
    | ProvisioningState.Failed step code _ =>
        if code == lit "HOST_KEY_CHANGED" then
          set_state (ProvisioningState.Failed step code true) record
        else record
    | _ => record
    end
  else record.

Definition request_intent (now : DateTime) (id : Uuid) (expected_revision : N)
    (intent : ProvisioningIntent.t) : engine D ComputerRecord :=
  if intent == ProvisioningIntent.Continue then
    fail (InvalidOperation (lit "continue is an internal intent"))
  else
  record ← load_expected id expected_revision;
  let record := recheck_host_key intent (recheck_smoke intent record) in
  let record :=
    if (intent == ProvisioningIntent.Rollback) || (intent == ProvisioningIntent.Remove)
    then set_teardown_completed false record else record in
  match intent, cr_state record with
  | ProvisioningIntent.Resume, (ProvisioningState.Failed _ _ _ | ProvisioningState.Ready) =>
      fail (InvalidOperation (lit "resume requires a non-terminal checkpoint"))
  | ProvisioningIntent.Retry, ProvisioningState.Failed _ _ true =>
      store_save now (set_intent intent record) expected_revision
  | ProvisioningIntent.Retry, _ => fail (InvalidOperation (lit "retry requires a retryable failure"))
  | _, _ => store_save now (set_intent intent record) expected_revision
  end.

(** The new cycle keeps identity, host key, inventory and pairing. *)
Definition repaired (cycle : N) (record : ComputerRecord) : ComputerRecord :=
  let record := set_cycle cycle record in
  let record := set_state ProvisioningState.CredentialStored record in
  let record := set_intent ProvisioningIntent.Continue record in
  let record := set_teardown_completed false record in
  let record := set_heartbeat_seen_at None record in
  let record := set_smoke_run_binding None record in
  let record := set_smoke_check_completed_at None record in
  let record := set_format_version COMPUTER_RECORD_FORMAT_VERSION record in
  if cp_state (cr_credential_policy record) == CredentialState.Forgotten
  then set_credential_state CredentialState.SessionOnly record else record.
(** [u32::checked_add] *)
Definition next_cycle (cycle : N) : option N :=
  if (cycle + 1 <=? u32_max)%N then Some (cycle + 1)%N else None.

Definition begin_repair (now : DateTime) (id : Uuid) (expected_revision : N) : engine D ComputerRecord :=
  record ← load_expected id expected_revision;
  if negb (ProvisioningState.is_ready (cr_state record)) || is_none (cr_pairing_id record)
     || (cr_paired_node_id record != Some (cr_intended_node_id record)) then
    fail (InvalidOperation (lit "repair requires a ready paired worker"))
  else
  cycle ← lift (ok_or (next_cycle (cr_cycle record)) CycleOverflow);
  store_save now (repaired cycle record) expected_revision.

(** ** Requests to the driver *)
Definition operation_id (record : ComputerRecord) (operation : rstr) : rstr :=
  uuid_display (cr_id record) ++ lit ":" ++ fmt_N (cr_cycle record) ++ lit ":" ++ operation.
Definition is_smoke_action (action : ProvisioningAction.t) : bool :=
  (action == ProvisioningAction.BeginSmokeCheck) || (action == ProvisioningAction.RunSmokeCheck).
Definition driver_request (record : ComputerRecord) (action : ProvisioningAction.t) (operation : rstr) :
    DriverRequest :=
  {| dr_computer := record; dr_action := action;
     dr_operation_id :=
       if is_smoke_action action then canonical_smoke_operation_id (cr_id record) (cr_cycle record)
       else operation_id record operation |}.
Definition operation_id_for_action (record : ComputerRecord) (action : ProvisioningAction.t) : rstr :=
  if is_smoke_action action then canonical_smoke_operation_id (cr_id record) (cr_cycle record)
  else operation_id record (ProvisioningAction.as_str action).

Definition forget_credential (now : DateTime) (id : Uuid) (expected_revision : N) :
    engine D ComputerRecord :=
  record ← load_expected id expected_revision;
  if negb (ProvisioningState.is_ready (cr_state record)) then
    fail (InvalidOperation (lit "forget credential requires ready"))
  else if sap_method (cr_ssh_authentication record) != SshAuthenticationMethod.Password then
    fail (InvalidOperation (lit "forget credential requires password authentication"))
  else
  forgotten ← call (λ d, driver_forget_credential d
    (driver_request record ProvisioningAction.ForgetCredential (lit "forget_credential")));
  match forgotten with
  | Err failure =>
      if is_credential_required failure then
        fail (InvalidOperation (lit "credential deletion boundary requested a credential"))
      else fail (Driver failure)
  | Ok _ =>
      store_save now
        (set_credential_policy {| cp_remember_requested := false; cp_state := CredentialState.Forgotten |}
           (set_credential_reference None record)) expected_revision
  end.

Definition action_for_step (step : ProvisioningStep.t) : option ProvisioningAction.t :=
  match step with
  | ProvisioningStep.Draft => Some ProvisioningAction.BeginSsh
  | ProvisioningStep.SshConnecting => Some ProvisioningAction.ProbeHostKey
  | ProvisioningStep.HostKeyPending => Some ProvisioningAction.Authenticate
  | ProvisioningStep.Authenticated => Some ProvisioningAction.BeginDiscovery
  | ProvisioningStep.Discovering => Some ProvisioningAction.DiscoverAndStoreCredential
  | ProvisioningStep.CredentialStored => Some ProvisioningAction.StageKit
  | ProvisioningStep.KitStaged => Some ProvisioningAction.InstallWorker
  | ProvisioningStep.WorkerInstalled => Some ProvisioningAction.IssueEnrollment
  | ProvisioningStep.EnrollmentIssued => Some ProvisioningAction.ApplyEnrollment
  | ProvisioningStep.Paired => Some ProvisioningAction.EnableService
  | ProvisioningStep.ServiceEnabled => Some ProvisioningAction.AwaitHeartbeat
  | ProvisioningStep.HeartbeatSeen => Some ProvisioningAction.BeginSmokeCheck
  | ProvisioningStep.SmokeCheck => Some ProvisioningAction.RunSmokeCheck
  | ProvisioningStep.Ready => None
  end.
Definition action_for_record (record : ComputerRecord) : option ProvisioningAction.t :=
  let step := ProvisioningState.active_step (cr_state record) in
  if (step == ProvisioningStep.SmokeCheck) && is_none (cr_smoke_run_binding record) then
    Some ProvisioningAction.BeginSmokeCheck
  else if (step == ProvisioningStep.SmokeCheck) && is_some (cr_smoke_check_completed_at record) then
    Some ProvisioningAction.CleanupStaging
  else action_for_step step.

(** ** Completions *)
Definition is_in_place_repair (record : ComputerRecord) : bool :=
  (0 <? cr_cycle record)%N && is_some (cr_pairing_id record)
  && (cr_paired_node_id record == Some (cr_intended_node_id record)).

Abbreviation transition := (result TransitionError.t ComputerRecord).
(** [x.as_ref().is_some_and(|existing| existing != &new)] *)
Definition differs {A} `{EqDecision A} (existing : option A) (new : A) : bool :=
  is_some_and existing (λ e, e != new).

Definition apply_completion (record : ComputerRecord) (action : ProvisioningAction.t)
    (completion : StepCompletion.t) : transition :=
  match action, completion with
  | ProvisioningAction.BeginSsh, StepCompletion.SshStarted =>
      Ok (set_state ProvisioningState.SshConnecting record)
  | ProvisioningAction.ProbeHostKey, StepCompletion.HostKeyObserved host_key =>
      map_err (λ _, TransitionError.InvalidCompletion) (PinnedHostKeyRecord_validate host_key);;
      reject_if (differs (cr_host_key record) host_key) TransitionError.HostKeyChanged;;
      Ok (set_state ProvisioningState.HostKeyPending (set_host_key (Some host_key) record))
  | ProvisioningAction.Authenticate, StepCompletion.Authenticated =>
      reject_if (is_none (cr_host_key_approved_at record)) TransitionError.InvalidCompletion;;
      Ok (set_state ProvisioningState.Authenticated record)
  | ProvisioningAction.Authenticate, StepCompletion.AuthenticatedStored credential_reference =>
      reject_if (is_none (cr_host_key_approved_at record)) TransitionError.InvalidCompletion;;
      reject_if (differs (cr_credential_reference record) credential_reference)
        TransitionError.InvalidCompletion;;
      Ok (set_state ProvisioningState.Authenticated
            (set_credential_state CredentialState.Stored
               (set_credential_reference (Some credential_reference) record)))
  | ProvisioningAction.Authenticate, StepCompletion.AuthenticatedSessionOnly =>
      reject_if (is_none (cr_host_key_approved_at record)) TransitionError.InvalidCompletion;;
      Ok (set_state ProvisioningState.Authenticated
            (set_credential_state CredentialState.SessionOnly (set_credential_reference None record)))
  | ProvisioningAction.BeginDiscovery, StepCompletion.DiscoveryStarted =>
      Ok (set_state ProvisioningState.Discovering record)
  | ProvisioningAction.DiscoverAndStoreCredential,
    StepCompletion.DiscoveryCompleted inventory credential_reference =>
      map_err (λ _, TransitionError.InvalidCompletion) (DiscoveredComputer_validate inventory);;
      Ok (set_state ProvisioningState.CredentialStored
            (set_credential_state CredentialState.Stored
               (set_credential_reference (Some credential_reference)
                  (set_inventory (Some inventory) record))))
  | ProvisioningAction.DiscoverAndStoreCredential,
    StepCompletion.DiscoveryCompletedSessionOnly inventory =>
      map_err (λ _, TransitionError.InvalidCompletion) (DiscoveredComputer_validate inventory);;
      Ok (set_state ProvisioningState.CredentialStored
            (set_credential_state CredentialState.SessionOnly
               (set_credential_reference None (set_inventory (Some inventory) record))))
  | ProvisioningAction.StageKit, StepCompletion.KitStaged =>
      Ok (set_state ProvisioningState.KitStaged record)
  | ProvisioningAction.InstallWorker, StepCompletion.WorkerInstalled =>
      Ok (set_state (if is_in_place_repair record then ProvisioningState.ServiceEnabled
                     else ProvisioningState.WorkerInstalled) record)
  | ProvisioningAction.IssueEnrollment, StepCompletion.EnrollmentIssued pairing_id =>
      reject_if (uuid_is_nil pairing_id) TransitionError.InvalidCompletion;;
      reject_if (differs (cr_pairing_id record) pairing_id) TransitionError.PairingIdentityChanged;;
      Ok (set_state ProvisioningState.EnrollmentIssued (set_pairing_id (Some pairing_id) record))
  | (ProvisioningAction.ApplyEnrollment | ProvisioningAction.AwaitPairing),
    StepCompletion.Paired node_id =>
      reject_if (node_id != cr_intended_node_id record) TransitionError.NodeIdentityMismatch;;
      Ok (set_state ProvisioningState.Paired (set_paired_node_id (Some node_id) record))
  | ProvisioningAction.EnableService, StepCompletion.ServiceEnabled =>
      Ok (set_state ProvisioningState.ServiceEnabled record)
  | ProvisioningAction.AwaitHeartbeat, StepCompletion.HeartbeatObserved observed_at =>
      Ok (set_state ProvisioningState.HeartbeatSeen (set_heartbeat_seen_at (Some observed_at) record))
  | ProvisioningAction.BeginSmokeCheck, StepCompletion.SmokeCheckPrepared binding =>
      map_err (λ _, TransitionError.SmokeBindingInvalid) (validate_smoke_binding record binding);;
      Ok (set_state ProvisioningState.SmokeCheck
            (set_smoke_check_completed_at None
               (set_smoke_run_binding (Some binding)
                  (set_format_version COMPUTER_RECORD_FORMAT_VERSION record))))
  | ProvisioningAction.RunSmokeCheck, StepCompletion.SmokeCheckPassed completed_at =>
      binding ← ok_or (cr_smoke_run_binding record) TransitionError.SmokeBindingInvalid;
      map_err (λ _, TransitionError.SmokeBindingInvalid) (validate_smoke_binding record binding);;
      reject_if (completed_at <? pb_created_at (sb_plan binding))%Z TransitionError.SmokeBindingInvalid;;
      Ok (set_state ProvisioningState.SmokeCheck (set_smoke_check_completed_at (Some completed_at) record))
  | ProvisioningAction.CleanupStaging, StepCompletion.StagingCleaned =>
      reject_if (is_none (cr_smoke_check_completed_at record)) TransitionError.InvalidCompletion;;
      Ok (set_state ProvisioningState.Ready record)
  | _, _ => Err TransitionError.InvalidCompletion
  end.

(** [reset_after_rollback]: the host key and its approval survive. *)
Definition reset_after_rollback (record : ComputerRecord) :
    result ProvisioningError.t ComputerRecord :=
  cycle ← ok_or (next_cycle (cr_cycle record)) CycleOverflow;
  let record := set_cycle cycle record in
  let record := set_state ProvisioningState.Draft record in
  let record := set_intent ProvisioningIntent.Continue record in
  let record := set_teardown_completed false record in
  let record := set_inventory None record in
  let record :=
    if cp_state (cr_credential_policy record) == CredentialState.Forgotten
    then set_credential_state CredentialState.SessionOnly record else record in
  let record := set_pairing_id None record in
  let record := set_paired_node_id None record in
  let record := set_heartbeat_seen_at None record in
  let record := set_smoke_run_binding None record in
  let record := set_smoke_check_completed_at None record in
  Ok (set_format_version COMPUTER_RECORD_FORMAT_VERSION record).

(** ** Failures *)

(** The record [persist_driver_failure] saves. *)
Definition failed_record (record : ComputerRecord) (failure : DriverFailure) : ComputerRecord :=
  let step := ProvisioningState.active_step (cr_state record) in
  let record :=
    if (df_code failure == lit "SSH_AUTH_REJECTED") || (df_code failure == lit "SSH_PRIVATE_KEY_REJECTED")
    then set_credential_reference None (set_credential_state CredentialState.Pending record)
    else record in
  set_intent ProvisioningIntent.Continue
    (set_state (ProvisioningState.Failed step (df_code failure) (df_retryable failure)) record).
Definition persist_driver_failure (now : DateTime) (record : ComputerRecord) (expected_revision : N)
    (failure : DriverFailure) : engine D DriveOutcome.t :=
  saved ← store_save now (failed_record record failure) expected_revision;
  mret (DriveOutcome.Failed saved).

Definition persist_credential_required (now : DateTime) (record : ComputerRecord)
    (expected_revision : N) : engine D DriveOutcome.t :=
  if cp_state (cr_credential_policy record) == CredentialState.Stored then
    saved ← store_save now
      (set_credential_reference None (set_credential_state CredentialState.Pending record))
      expected_revision;
    mret (DriveOutcome.AwaitingCredential saved)
  else mret (DriveOutcome.AwaitingCredential record).

Definition persist_failure (now : DateTime) (record : ComputerRecord) (expected_revision : N)
    (failure : DriverFailure) : engine D DriveOutcome.t :=
  if is_credential_required failure then persist_credential_required now record expected_revision
  else persist_driver_failure now record expected_revision failure.

Definition transition_code (e : TransitionError.t) : rstr :=
  match e with
  | TransitionError.HostKeyChanged => lit "HOST_KEY_CHANGED"
  | TransitionError.NodeIdentityMismatch => lit "NODE_ID_MISMATCH"
  | TransitionError.PairingIdentityChanged => lit "PAIRING_ID_CHANGED"
  | TransitionError.SmokeBindingInvalid => lit "SMOKE_BINDING_INVALID"
  | TransitionError.InvalidCompletion => lit "INVALID_DRIVER_OUTCOME"
  end.

(** ** One turn *)
Definition checkpoint (now : DateTime) (record : ComputerRecord) (expected_revision : N) :
    engine D DriveOutcome.t :=
  saved ← store_save now record expected_revision;
  mret (DriveOutcome.Checkpoint saved).

(** The [Rollback] and [Remove] arms. *)
Definition drive_rollback (now : DateTime) (record : ComputerRecord) (expected_revision : N) :
    engine D DriveOutcome.t :=
  if cr_teardown_completed record then
    reset ← lift (reset_after_rollback record);
    saved ← store_save now reset expected_revision;
    mret (DriveOutcome.RolledBack saved)
  else
    torn ← call (λ d, driver_rollback d (driver_request record ProvisioningAction.Rollback (lit "rollback")));
    match torn with
    | Err failure => persist_failure now record expected_revision failure
    | Ok _ => checkpoint now (set_teardown_completed true record) expected_revision
    end.
Definition drive_remove (now : DateTime) (id : Uuid) (record : ComputerRecord) (expected_revision : N) :
    engine D DriveOutcome.t :=
  if cr_teardown_completed record then
    forgotten ← call (λ d, driver_forget_credential d
      (driver_request record ProvisioningAction.ForgetCredential (lit "forget_credential")));
    lift (map_err Driver forgotten);;
    store_delete id expected_revision;;
    mret (DriveOutcome.Removed id)
  else
    torn ← call (λ d, driver_remove d (driver_request record ProvisioningAction.Remove (lit "remove")));
    match torn with
    | Err failure => persist_failure now record expected_revision failure
    | Ok _ => checkpoint now (set_teardown_completed true record) expected_revision
    end.

(** The [Continue] part: run the action of the checkpoint. *)
Definition drive_action (now : DateTime) (record : ComputerRecord) (expected_revision : N) :
    engine D DriveOutcome.t :=
  if ProvisioningState.is_failed (cr_state record) then mret (DriveOutcome.AwaitingIntent record)
  else if ProvisioningState.is_ready (cr_state record) then mret (DriveOutcome.Ready record)
  else if ProvisioningState.is_host_key_pending (cr_state record)
          && is_none (cr_host_key_approved_at record) then
    mret (DriveOutcome.AwaitingHostKeyApproval record)
  else
  action ← lift (ok_or (action_for_record record)
    (InvalidOperation (lit "no action exists for current checkpoint")));
  completion ← call (λ d, driver_execute d
    (driver_request record action (ProvisioningAction.as_str action)));
  match completion with
  | Err failure => persist_failure now record expected_revision failure
  | Ok StepCompletion.Pending => mret (DriveOutcome.AwaitingExternal record)
  | Ok completion =>
      match apply_completion record action completion with
      | Err error =>
          failure ← lift (map_err Validation (DriverFailure_new (transition_code error) false));
          persist_driver_failure now record expected_revision failure
      | Ok record =>
          saved ← store_save now record expected_revision;
          if ProvisioningState.is_ready (cr_state saved) then mret (DriveOutcome.Ready saved)
          else mret (DriveOutcome.Checkpoint saved)
      end
  end.

Definition drive_once (now : DateTime) (id : Uuid) (expected_revision : N) : engine D DriveOutcome.t :=
  record ← load_expected id expected_revision;
  match cr_intent record with
  | ProvisioningIntent.Resume =>
      checkpoint now (set_intent ProvisioningIntent.Continue record) expected_revision
  | ProvisioningIntent.Retry =>
      match cr_state record with
      | ProvisioningState.Failed step _ true =>
          checkpoint now
            (set_intent ProvisioningIntent.Continue (set_state (ProvisioningState.from_step step) record))
            expected_revision
      | _ => fail (InvalidOperation (lit "retry intent is inconsistent with state"))
      end
  | ProvisioningIntent.Rollback => drive_rollback now record expected_revision
  | ProvisioningIntent.Remove => drive_remove now id record expected_revision
  | ProvisioningIntent.Continue => drive_action now record expected_revision
  end.

(** [drive_until_boundary]; [clock i] is the reading of turn [i]. *)
Fixpoint drive_steps (clock : nat → DateTime) (id : Uuid) (revision : N)
    (last_checkpoint : option ComputerRecord) (steps : nat) : engine D DriveOutcome.t :=
  match steps with
  | 0 =>
      record ← lift (ok_or last_checkpoint
        (InvalidOperation (lit "driver made no provisioning progress")));
      mret (DriveOutcome.Checkpoint record)
  | S steps =>
      outcome ← drive_once (clock 0) id revision;
      match outcome with
      | DriveOutcome.Checkpoint record =>
          drive_steps (λ i, clock (S i)) id (cr_revision record) (Some record) steps
      | boundary => mret boundary
      end
  end.
Definition drive_until_boundary (clock : nat → DateTime) (id : Uuid) (expected_revision maximum_steps : N) :
    engine D DriveOutcome.t :=
  if (maximum_steps == 0%N) || (64 <? maximum_steps)%N then
    fail (InvalidOperation (lit "maximum_steps must be in 1..=64"))
  else drive_steps clock id expected_revision None (N.to_nat maximum_steps).
End engine.
