(* ===== verification/ProvisionSafety.v ===== *)
(** What the Add Computer engine guarantees, for every driver and every clock.

    The first part relates journals: a computer's document may only evolve into a
    descendant (same identity, later revision, pinned host key kept).  The second
    says which requests reach the driver.  The third says which records the
    engine can save. *)
From Stdlib Require Import ZArith NArith Lia String.
From stdpp Require Import base option list numbers sets gmap.
From S2P Require Import Prelude Text Crates Protocol CanonicalJson PlacementBinding ProvisionModel ProvisionStore ProvisionEngine.
Open Scope rust_scope.

(** ** Descendants *)

(** [r'] is [r] after some saved changes, except for revision and time. *)
Record keeps (r r' : ComputerRecord) : Prop := {
  keeps_identity : cr_id r' = cr_id r ∧ cr_intended_node_id r' = cr_intended_node_id r ∧
                   cr_created_at r' = cr_created_at r;
  keeps_input : cr_display_name r' = cr_display_name r ∧ cr_endpoint r' = cr_endpoint r ∧
                cr_ssh_authentication r' = cr_ssh_authentication r ∧
                cr_configuration r' = cr_configuration r;
  keeps_host_key : ∀ k, cr_host_key r = Some k → cr_host_key r' = Some k;
  keeps_approval : is_Some (cr_host_key_approved_at r) → is_Some (cr_host_key_approved_at r');
  keeps_cycle : (cr_cycle r ≤ cr_cycle r')%N
}.
#[export] Instance keeps_preorder : PreOrder keeps.
Proof.
  split.
  - intros r. by split.
  - intros r1 r2 r3 [(?&?&?) (?&?&?&?) Hk Ha ?] [(?&?&?) (?&?&?&?) Hk' Ha' ?].
    split; [split_and!; congruence..|naive_solver|naive_solver|lia].
Qed.

(** A stored document [r'] that replaced [r]. *)
Definition descends (r r' : ComputerRecord) : Prop :=
  keeps r r' ∧ (cr_revision r < cr_revision r')%N ∧ (cr_updated_at r < cr_updated_at r')%Z.

(** Only the row of one computer changes, and only into a descendant; none appears
    and none is lost. *)
Definition evolves (id : Uuid) (j j' : Journal) : Prop :=
  (∀ other, other ≠ id → j' !! other = j !! other) ∧
  match j !! id, j' !! id with
  | Some row, Some row' => row' = row ∨ descends (row_document row) (row_document row')
  | None, None => True
  | _, _ => False
  end.
#[export] Instance evolves_preorder id : PreOrder (evolves id).
Proof.
  split.
  - intros j. split; [done|]. destruct (j !! id); [by left|done].
  - intros j1 j2 j3 [O12 H12] [O23 H23]. split; [intros other Hne; by rewrite O23, O12|].
    destruct (j1 !! id) as [row1|], (j2 !! id) as [row2|], (j3 !! id) as [row3|]; try done.
    destruct H12 as [->|[K12 [R12 U12]]]; [done|]. right.
    destruct H23 as [->|[K23 [R23 U23]]]; [done|]. split; [by etrans|]. split; lia.
Qed.

Section safety.
Context `{UuidCrate, SerdeJsonCrate, DigestCrate, Base64Crate, HostPlatform}.
Context {D : Type} `{!ProvisioningDriver D}.

#[local] Opaque ComputerRecord_validate NewComputer_validate.

(** What an operation may do to the journal. *)
Definition journal_safe (id : Uuid) (j j' : Journal) : Prop := journal_ok j' ∧ evolves id j j'.

Lemma evolves_refl id j : evolves id j j.
Proof. reflexivity. Qed.

(** An operation is safe if it is from every journal that holds its record. *)
Definition safe_with {A} (r : ComputerRecord) (m : engine D A) : Prop :=
  ∀ w, journal_ok (w_journal w) → load_record (w_journal w) (cr_id r) = Ok r →
       journal_safe (cr_id r) (w_journal w) (w_journal (m w).1).

Lemma safe_ret {A} r (a : A) : safe_with r (mret a).
Proof. intros w Hj _. split; [done|apply evolves_refl]. Qed.
Lemma safe_fail {A} r e : safe_with r (@fail D A e).
Proof. intros w Hj _. split; [done|apply evolves_refl]. Qed.
Lemma safe_lift {A B} r (m : result ProvisioningError.t A) (k : A → engine D B) :
  (∀ a, m = Ok a → safe_with r (k a)) → safe_with r (lift m ≫= k).
Proof.
  intros Hk w Hj Hr. unfold lift, mbind, engine_bind. destruct m as [a|e]; cbn.
  - by apply Hk.
  - split; [done|apply evolves_refl].
Qed.
Lemma safe_call {A B} r (f : D → D * A) (k : A → engine D B) :
  (∀ a, safe_with r (k a)) → safe_with r (call f ≫= k).
Proof.
  intros Hk w Hj Hr. unfold call, mbind, engine_bind. destruct (f (w_driver w)) as [d a].
  by apply (Hk a {| w_journal := w_journal w; w_driver := d |}).
Qed.
Lemma safe_pure {A B} r (m : engine D A) (f : A → B) :
  safe_with r m → safe_with r (a ← m; mret (f a)).
Proof.
  intros Hm w Hj Hr. specialize (Hm w Hj Hr). unfold mbind, engine_bind.
  by destruct (m w) as [w' [a|e]].
Qed.
Lemma safe_pure_if {A B} r (m : engine D A) (p : A → bool) (f g : A → B) :
  safe_with r m → safe_with r (a ← m; if p a then mret (f a) else mret (g a)).
Proof.
  intros Hm w Hj Hr. specialize (Hm w Hj Hr). unfold mbind, engine_bind.
  destruct (m w) as [w' [a|e]]; [|done]. by destruct (p a).
Qed.

Lemma monotonic_now_later previous now : (previous < monotonic_now previous now)%Z.
Proof. unfold monotonic_now. destruct (Z.ltb_spec previous now); lia. Qed.

(** Saving a record that keeps the one loaded is safe. *)
Lemma safe_save now r r' : keeps r r' → safe_with r (store_save now r' (cr_revision r)).
Proof.
  intros Hk w Hj Hr. unfold store_save.
  destruct (save_cas _ _ _ _) as [[saved j]|e] eqn:Hs; cbn; [|split; [done|apply evolves_refl]].
  split; [by eapply save_cas_journal_ok|].
  apply save_cas_Ok in Hs as (Hrev & current & Hload & _ & _ & _ & _ & -> & _ & ->).
  pose proof (keeps_identity _ _ Hk) as (Hid & _ & _). rewrite Hid, Hr in Hload. injection Hload as <-.
  apply load_record_Ok in Hr as (row & Hrow & Hp). apply parse_record_Ok in Hp as (Hdoc & _).
  rewrite Hid. split; [intros other Hne; by rewrite lookup_insert_ne|].
  rewrite Hrow, lookup_insert_eq. right. rewrite <-Hdoc.
  cbn [row_document]. split; [|split; cbn].
  - destruct Hk. split; done.
  - lia.
  - apply monotonic_now_later.
Qed.

(** An operation that starts by loading its record. *)
Lemma safe_after_load {A} id expected (k : ComputerRecord → engine D A) w :
  (∀ r, cr_id r = id → cr_revision r = expected → ComputerRecord_validate r = Ok tt → safe_with r (k r)) →
  journal_ok (w_journal w) →
  journal_safe id (w_journal w) (w_journal ((record ← load_expected id expected; k record) w).1).
Proof.
  intros Hk Hj. unfold load_expected, store_get, get, mbind, engine_bind. cbn.
  destruct (load_record (w_journal w) id) as [r|e] eqn:Hl; cbn; [|split; [done|apply evolves_refl]].
  case_bool_decide as Hrev; cbn; [|split; [done|apply evolves_refl]].
  destruct (load_stored _ _ _ Hl) as [Hid Hv]. pose proof (Hk r Hid Hrev Hv) as Hs.
  unfold safe_with in Hs. rewrite Hid in Hs. by apply Hs.
Qed.

(** ** Which changes keep a record *)
Ltac keep := split; cbn; try done; auto; try lia.

Lemma keeps_recheck intent r :
  keeps r (recheck_host_key intent (recheck_smoke intent r)).
Proof.
  assert (∀ r, keeps r (recheck_smoke intent r)) as Hs.
  { intros r0. unfold recheck_smoke. destruct (_ && _); [|done].
    destruct (cr_state r0) as [| | | | | | | | | | | | | |[] code ?]; try done.
    case_bool_decide; [keep|done]. }
  etrans; [apply Hs|]. generalize (recheck_smoke intent r). intros r0.
  unfold recheck_host_key. destruct (_ && _ && _); [|done].
  destruct (cr_state r0); try done. case_bool_decide; [keep|done].
Qed.

Lemma keeps_repaired cycle r : (cr_cycle r ≤ cycle)%N → keeps r (repaired cycle r).
Proof. intros Hc. unfold repaired. cbv zeta. case_bool_decide; keep. Qed.

Lemma next_cycle_later c c' : next_cycle c = Some c' → c' = (c + 1)%N.
Proof. unfold next_cycle. destruct (_ <=? _)%N; [|done]. by intros [= <-]. Qed.

Lemma keeps_reset r r' : reset_after_rollback r = Ok r' → keeps r r'.
Proof.
  unfold reset_after_rollback. rewrite bind_Ok. intros (c & Hc & Hr). apply ok_or_Ok, next_cycle_later in Hc.
  cbv zeta in Hr. injection Hr as <-. case_bool_decide; keep.
Qed.

Lemma keeps_failed r failure : keeps r (failed_record r failure).
Proof. unfold failed_record. cbv zeta. destruct (_ || _); keep. Qed.

Lemma differs_false {A} `{EqDecision A} (o : option A) x :
  differs o x = false ↔ ∀ e, o = Some e → e = x.
Proof.
  unfold differs. rewrite is_some_and_false. by setoid_rewrite negb_bool_decide_false.
Qed.

(** A completion never replaces the pinned host key. *)
Lemma keeps_completion r action c r' : apply_completion r action c = Ok r' → keeps r r'.
Proof.
  destruct action, c; cbn [apply_completion]; try done; rewrite ?bind_unit_Ok;
    try (by intros [= <-]; keep); try (by intros (_ & [= <-]); keep);
    try (by intros (_ & _ & [= <-]); keep).
  - intros (_ & Hd & [= <-]). rewrite reject_if_Ok, differs_false in Hd. keep.
    intros k Hk. by rewrite (Hd k Hk).
  - rewrite bind_Ok. intros (binding & _ & Hr). rewrite !bind_unit_Ok in Hr.
    destruct Hr as (_ & _ & [= <-]). keep.
Qed.

(** ** Operations *)
Lemma safe_checkpoint now r r' : keeps r r' → safe_with r (checkpoint now r' (cr_revision r)).
Proof. intros Hk. unfold checkpoint. by apply safe_pure, safe_save. Qed.

Lemma safe_driver_failure now r failure :
  safe_with r (persist_driver_failure now r (cr_revision r) failure).
Proof. unfold persist_driver_failure. apply safe_pure, safe_save, keeps_failed. Qed.

Lemma safe_failure now r failure : safe_with r (persist_failure now r (cr_revision r) failure).
Proof.
  unfold persist_failure, persist_credential_required. destruct (is_credential_required _).
  - case_bool_decide; [|apply safe_ret]. apply safe_pure, safe_save. keep.
  - apply safe_driver_failure.
Qed.

Lemma safe_rollback now r : safe_with r (drive_rollback now r (cr_revision r)).
Proof.
  unfold drive_rollback. destruct (cr_teardown_completed r).
  - apply safe_lift. intros reset Hreset. apply safe_pure, safe_save. by apply keeps_reset.
  - apply safe_call. intros [u|failure]; [apply safe_checkpoint; keep|apply safe_failure].
Qed.

(** The one way a computer leaves the journal: its stored record asks for removal,
    its teardown is recorded, and the driver, asked with that record, forgot the
    credential. *)
Record removes (id : Uuid) (r : ComputerRecord) (w w' : World D) : Prop := {
  rm_stored : load_record (w_journal w) id = Ok r;
  rm_intent : cr_intent r = ProvisioningIntent.Remove;
  rm_teardown : cr_teardown_completed r = true;
  rm_forgotten : driver_forget_credential (w_driver w)
    (driver_request r ProvisioningAction.ForgetCredential (lit "forget_credential")) = (w_driver w', Ok tt);
  rm_journal : w_journal w' = delete id (w_journal w)
}.
Definition turn_safe (id : Uuid) (w : World D) (out : World D * result ProvisioningError.t DriveOutcome.t) : Prop :=
  journal_ok (w_journal out.1) ∧
  (evolves id (w_journal w) (w_journal out.1) ∨
   out.2 = Ok (DriveOutcome.Removed id) ∧ ∃ r, removes id r w out.1).

Lemma remove_turn now r (w : World D) :
  journal_ok (w_journal w) → load_record (w_journal w) (cr_id r) = Ok r → cr_intent r = ProvisioningIntent.Remove →
  turn_safe (cr_id r) w (drive_remove now (cr_id r) r (cr_revision r) w).
Proof.
  intros Hj Hr Hi. unfold drive_remove. destruct (cr_teardown_completed r) eqn:Ht.
  - unfold mbind, engine_bind, call.
    destruct (driver_forget_credential _ _) as [d [[]|failure]] eqn:Hf; cbn;
      [|split; [done|left; apply evolves_refl]].
    unfold store_delete, delete_cas. cbn. destruct (revision_to_i64 _) as [z|e]; cbn;
      [|split; [done|left; apply evolves_refl]].
    destruct (w_journal w !! cr_id r) as [row|]; cbn; [|split; [done|left; apply evolves_refl]].
    case_bool_decide; cbn.
    + split; [by apply journal_ok_delete|]. right. split; [done|]. by exists r.
    + destruct (revision_from_i64 _); (split; [done|left; apply evolves_refl]).
  - assert (safe_with r (torn ← call (λ d, driver_remove d (driver_request r ProvisioningAction.Remove (lit "remove")));
      match torn with
      | Err failure => persist_failure now r (cr_revision r) failure
      | Ok _ => checkpoint now (set_teardown_completed true r) (cr_revision r)
      end)) as Hs.
    { apply safe_call. intros [u|failure]; [apply safe_checkpoint; keep|apply safe_failure]. }
    destruct (Hs w Hj Hr) as [Hok Hev]. split; [done|by left].
Qed.

Lemma safe_action now r : safe_with r (drive_action now r (cr_revision r)).
Proof.
  unfold drive_action. destruct (ProvisioningState.is_failed _); [apply safe_ret|].
  destruct (ProvisioningState.is_ready _); [apply safe_ret|].
  destruct (_ && _); [apply safe_ret|].
  apply safe_lift. intros action _. apply safe_call. intros [completion|failure]; [|apply safe_failure].
  assert (safe_with r (match apply_completion r action completion with
    | Err error => failure ← lift (map_err ProvisioningError.Validation (DriverFailure_new (transition_code error) false));
                   persist_driver_failure now r (cr_revision r) failure
    | Ok record => saved ← store_save now record (cr_revision r);
                   if ProvisioningState.is_ready (cr_state saved) then mret (DriveOutcome.Ready saved)
                   else mret (DriveOutcome.Checkpoint saved)
    end)) as Hgo.
  { destruct (apply_completion r action completion) as [r'|error] eqn:Hc.
    - apply safe_pure_if, safe_save. by eapply keeps_completion.
    - apply safe_lift. intros failure _. apply safe_driver_failure. }
  by destruct completion; try exact Hgo; apply safe_ret.
Qed.

Lemma safe_turn now r (w : World D) :
  journal_ok (w_journal w) → load_record (w_journal w) (cr_id r) = Ok r →
  turn_safe (cr_id r) w (match cr_intent r with
    | ProvisioningIntent.Resume =>
        checkpoint now (set_intent ProvisioningIntent.Continue r) (cr_revision r)
    | ProvisioningIntent.Retry =>
        match cr_state r with
        | ProvisioningState.Failed step _ true =>
            checkpoint now
              (set_intent ProvisioningIntent.Continue (set_state (ProvisioningState.from_step step) r))
              (cr_revision r)
        | _ => fail (ProvisioningError.InvalidOperation (lit "retry intent is inconsistent with state"))
        end
    | ProvisioningIntent.Rollback => drive_rollback now r (cr_revision r)
    | ProvisioningIntent.Remove => drive_remove now (cr_id r) r (cr_revision r)
    | ProvisioningIntent.Continue => drive_action now r (cr_revision r)
    end w).
Proof.
  intros Hj Hr.
  assert (∀ m : engine D DriveOutcome.t, safe_with r m → turn_safe (cr_id r) w (m w)) as Hsafe.
  { intros m Hm. destruct (Hm w Hj Hr) as [Hok Hev]. split; [done|by left]. }
  destruct (cr_intent r) eqn:Hi; [apply Hsafe, safe_action|apply Hsafe, safe_checkpoint; keep| |apply Hsafe, safe_rollback|
    by apply remove_turn].
  destruct (cr_state r) as [| | | | | | | | | | | | | |step code []]; try (apply Hsafe, safe_fail).
  apply Hsafe, safe_checkpoint. keep.
Qed.
Lemma safe_drive_once now id expected (w : World D) :
  journal_ok (w_journal w) → turn_safe id w (drive_once now id expected w).
Proof.
  intros Hj. unfold drive_once, load_expected, store_get, get, mbind, engine_bind. cbn.
  destruct (load_record (w_journal w) id) as [r|e] eqn:Hl; cbn; [|split; [done|left; apply evolves_refl]].
  case_bool_decide as Hrev; cbn; [|split; [done|left; apply evolves_refl]].
  destruct (load_stored _ _ _ Hl) as [Hid _]. subst. by apply safe_turn.
Qed.

(** One turn of a computer, and what turns do to the journal: they evolve its row,
    until one may remove it. *)
Definition turn (id : Uuid) (w w' : World D) : Prop :=
  ∃ now expected, w' = (drive_once now id expected w).1.
Definition driven (id : Uuid) (w w' : World D) : Prop :=
  evolves id (w_journal w) (w_journal w') ∨
  ∃ w1 r, rtc (turn id) w w1 ∧ evolves id (w_journal w) (w_journal w1) ∧ removes id r w1 w'.

Lemma safe_drive_steps clock id revision last steps (w : World D) :
  journal_ok (w_journal w) →
  journal_ok (w_journal (drive_steps clock id revision last steps w).1) ∧
  driven id w (drive_steps clock id revision last steps w).1.
Proof.
  revert clock revision last w. induction steps as [|steps IH]; intros clock revision last w Hj;
    cbn [drive_steps].
  { destruct last; (split; [done|left; apply evolves_refl]). }
  pose proof (safe_drive_once (clock 0) id revision w Hj) as [Hok Hev].
  assert (turn id w (drive_once (clock 0) id revision w).1) as Hturn by (by eexists _, _).
  unfold mbind, engine_bind. destruct (drive_once _ _ _ w) as [w' o]. cbn [fst snd] in *.
  assert (driven id w w') as Hd.
  { destruct Hev as [Hev|[_ [r Hr]]]; [by left|]. right. exists w, r. split_and!; [done|apply evolves_refl|done]. }
  destruct o as [outcome|e]; [|done]. destruct outcome; try done.
  destruct Hev as [Hev|[[=] _]].
  destruct (IH (λ i, clock (S i)) (cr_revision record) (Some record) w' Hok) as [Hok' [Hev'|(w1 & r & Hw1 & Hev' & Hr)]];
    (split; [done|]).
  - left. by etrans.
  - right. exists w1, r. split_and!; [by eapply rtc_l|by etrans|done].
Qed.

Lemma safe_approve approved_at now id expected fingerprint (w : World D) :
  journal_ok (w_journal w) →
  journal_safe id (w_journal w) (w_journal (approve_host_key approved_at now id expected fingerprint w).1).
Proof.
  intros Hj. unfold approve_host_key. apply safe_after_load; [|done]. intros r _ <- _.
  destruct (negb _); [apply safe_fail|]. destruct (cr_host_key r) eqn:Hk; [|apply safe_fail].
  case_bool_decide; [|apply safe_fail]. apply safe_save. keep.
Qed.

Lemma safe_request_intent now id expected intent (w : World D) :
  journal_ok (w_journal w) →
  journal_safe id (w_journal w) (w_journal (request_intent now id expected intent w).1).
Proof.
  intros Hj. unfold request_intent. case_bool_decide; [split; [done|apply evolves_refl]|].
  apply safe_after_load; [|done]. intros r _ <- _. cbv zeta.
  pose proof (keeps_recheck intent r) as Hk. revert Hk.
  generalize (recheck_host_key intent (recheck_smoke intent r)). intros r1 Hk.
  assert (∀ b : bool, keeps r (if b then set_teardown_completed false r1 else r1)) as Hk'
    by (intros []; [etrans; [exact Hk|keep]|exact Hk]).
  specialize (Hk' ((intent == ProvisioningIntent.Rollback) || (intent == ProvisioningIntent.Remove))).
  revert Hk'. generalize (if (intent == ProvisioningIntent.Rollback) || (intent == ProvisioningIntent.Remove)
    then set_teardown_completed false r1 else r1). intros r2 Hk'.
  assert (safe_with r (store_save now (set_intent intent r2) (cr_revision r))) as Hsave
    by (apply safe_save; etrans; [exact Hk'|keep]).
  destruct intent; try exact Hsave.
  - destruct (cr_state r2); try exact Hsave; apply safe_fail.
  - destruct (cr_state r2) as [| | | | | | | | | | | | | |step code []]; try exact Hsave; apply safe_fail.
Qed.

Lemma safe_begin_repair now id expected (w : World D) :
  journal_ok (w_journal w) →
  journal_safe id (w_journal w) (w_journal (begin_repair now id expected w).1).
Proof.
  intros Hj. unfold begin_repair. apply safe_after_load; [|done]. intros r _ <- _.
  destruct (_ || _); [apply safe_fail|]. apply safe_lift. intros cycle Hc.
  apply ok_or_Ok, next_cycle_later in Hc. apply safe_save, keeps_repaired. lia.
Qed.

Lemma safe_forget_credential now id expected (w : World D) :
  journal_ok (w_journal w) →
  journal_safe id (w_journal w) (w_journal (forget_credential now id expected w).1).
Proof.
  intros Hj. unfold forget_credential. apply safe_after_load; [|done]. intros r _ <- _.
  destruct (negb _); [apply safe_fail|]. case_bool_decide; [|apply safe_fail].
  apply safe_call. intros [u|failure]; [apply safe_save; keep|].
  destruct (is_credential_required failure); apply safe_fail.
Qed.

(** A journal with one fresh draft more. *)
Definition adds_draft (input : NewComputer) (now : DateTime) (id intended : Uuid) (j j' : Journal) : Prop :=
  ∃ row, j !! id = None ∧ j' = <[id := row]> j ∧
    row_document row = ComputerRecord_new_with_identity input now id intended ∧
    cr_id (row_document row) = id ∧ cr_intended_node_id (row_document row) = intended ∧
    cr_state (row_document row) = ProvisioningState.Draft ∧
    cr_revision (row_document row) = 1%N ∧ cr_host_key (row_document row) = None ∧
    cr_host_key_approved_at (row_document row) = None.
Definition created (input : NewComputer) (now : DateTime) (id intended : Uuid) (j j' : Journal) : Prop :=
  j' = j ∨ adds_draft input now id intended j j'.

Lemma insert_draft input now id intended j j' :
  journal_ok j → insert j (ComputerRecord_new_with_identity input now id intended) = Ok j' →
  journal_ok j' ∧ created input now id intended j j'.
Proof.
  intros Hj. unfold insert. rewrite bind_unit_Ok, map_err_Ok, bind_unit_Ok, bind_Ok.
  intros (Hv & _ & column & Hcol & Hi). cbn [cr_id ComputerRecord_new_with_identity] in Hi.
  destruct (j !! id) eqn:E; [done|]. injection Hi as <-.
  unfold revision_to_i64 in Hcol. cbn in Hcol. injection Hcol as <-. split.
  - apply journal_ok_insert; [done|]. apply parse_record_Ok. by split_and!.
  - right. eexists. by split_and!.
Qed.

Lemma safe_create_idempotent now input id intended (w : World D) :
  journal_ok (w_journal w) →
  journal_ok (w_journal (create_idempotent now input id intended w).1) ∧
  created input now id intended (w_journal w) (w_journal (create_idempotent now input id intended w).1).
Proof.
  intros Hj. assert (journal_ok (w_journal w) ∧ created input now id intended (w_journal w) (w_journal w)) as Hsame
    by (split; [done|by left]).
  unfold create_idempotent, mbind, engine_bind, lift. cbn.
  destruct (map_err _ (NewComputer_validate input)) as [[]|]; cbn; [|done].
  destruct (_ || _); [done|]. cbn zeta.
  destruct (map_err _ (ComputerRecord_validate _)) as [[]|]; cbn; [|done].
  unfold store_insert.
  destruct (insert _ _) as [j'|e] eqn:Hi; cbn; [by apply insert_draft|].
  destruct e; try done. case_bool_decide; [|done]. unfold store_get. cbn.
  destruct (map_err _ _) as [existing|]; cbn; [|done]. by destruct (_ || _).
Qed.

Lemma safe_create now id intended input (w : World D) :
  journal_ok (w_journal w) →
  journal_ok (w_journal (create now id intended input w).1) ∧
  created input now id intended (w_journal w) (w_journal (create now id intended input w).1).
Proof.
  intros Hj. assert (journal_ok (w_journal w) ∧ created input now id intended (w_journal w) (w_journal w)) as Hsame
    by (split; [done|by left]).
  unfold create, mbind, engine_bind, lift. cbn.
  destruct (map_err _ (NewComputer_validate input)) as [[]|]; cbn; [|done].
  destruct (map_err _ (ComputerRecord_validate _)) as [[]|]; cbn; [|done].
  unfold store_insert. destruct (insert _ _) as [j'|e] eqn:Hi; cbn; [|done].
  by apply insert_draft.
Qed.

(** ** The engine as a transition system *)

(** A call of a public method, with any arguments and clock. *)
Inductive EngineCall :=
| Create (now : DateTime) (id intended : Uuid) (input : NewComputer)
| CreateIdempotent (now : DateTime) (input : NewComputer) (id intended : Uuid)
| ApproveHostKey (approved_at now : DateTime) (id : Uuid) (expected : N) (fingerprint : rstr)
| RequestIntent (now : DateTime) (id : Uuid) (expected : N) (intent : ProvisioningIntent.t)
| BeginRepair (now : DateTime) (id : Uuid) (expected : N)
| ForgetCredential (now : DateTime) (id : Uuid) (expected : N)
| DriveOnce (now : DateTime) (id : Uuid) (expected : N)
| DriveUntil (clock : nat → DateTime) (id : Uuid) (expected maximum : N).
(** The world it leaves; it may fail, and then still may have moved the driver. *)
Definition perform (c : EngineCall) (w : World D) : World D :=
  match c with
  | Create now id intended input => (create now id intended input w).1
  | CreateIdempotent now input id intended => (create_idempotent now input id intended w).1
  | ApproveHostKey approved_at now id expected fingerprint =>
      (approve_host_key approved_at now id expected fingerprint w).1
  | RequestIntent now id expected intent => (request_intent now id expected intent w).1
  | BeginRepair now id expected => (begin_repair now id expected w).1
  | ForgetCredential now id expected => (forget_credential now id expected w).1
  | DriveOnce now id expected => (drive_once now id expected w).1
  | DriveUntil clock id expected maximum => (drive_until_boundary clock id expected maximum w).1
  end.
Definition engine_step (w w' : World D) : Prop := ∃ c, w' = perform c w.

(** What each call may do to the journal. *)
Definition allowed (c : EngineCall) (w w' : World D) : Prop :=
  match c with
  | Create now id intended input | CreateIdempotent now input id intended =>
      created input now id intended (w_journal w) (w_journal w')
  | ApproveHostKey _ _ id _ _ | RequestIntent _ id _ _ | BeginRepair _ id _ | ForgetCredential _ id _ =>
      evolves id (w_journal w) (w_journal w')
  | DriveOnce _ id _ => evolves id (w_journal w) (w_journal w') ∨ ∃ r, removes id r w w'
  | DriveUntil _ id _ _ => driven id w w'
  end.
Lemma perform_allowed c w :
  journal_ok (w_journal w) → journal_ok (w_journal (perform c w)) ∧ allowed c w (perform c w).
Proof.
  intros Hj. destruct c; cbn [perform allowed].
  - by apply safe_create.
  - by apply safe_create_idempotent.
  - by apply safe_approve.
  - by apply safe_request_intent.
  - by apply safe_begin_repair.
  - by apply safe_forget_credential.
  - destruct (safe_drive_once now id expected w Hj) as [Hok [Hev|[_ Hr]]]; (split; [done|]); [by left|by right].
  - unfold drive_until_boundary. destruct (_ || _); [split; [done|left; apply evolves_refl]|].
    by apply safe_drive_steps.
Qed.

(** C38. The journal is always sound.  From an empty journal, after any sequence of
    engine calls with any driver, every row parses (its columns agree with its
    document and the document validates).  Each further call leaves every other
    computer alone: creation adds at most the draft it was asked for, under a fresh
    identifier; any other call changes at most the document of its own computer, into
    a descendant (same identity, input and creation time, later revision and update
    time, a pinned host key and its approval never replaced or lost); and only driving
    removes a computer, its own, when the record then stored asks for removal with its
    teardown recorded and the driver forgot the credential. *)
Theorem engine_journal_invariant (d : D) (w : World D)
    (Hreach : rtc engine_step (Build_World ∅ d) w) (c : EngineCall) :
  journal_ok (w_journal w) ∧ allowed c w (perform c w).
Proof.
  assert (journal_ok (w_journal w)) as Hok.
  { assert (journal_ok (w_journal (Build_World ∅ d))) as Hempty by (by intros id row).
    revert Hempty. induction Hreach as [|x y z [c' ->] _ IH]; [done|]. intros Hx. apply IH.
    by apply (perform_allowed c' x). }
  split; [done|]. by apply perform_allowed.
Qed.

(** ** What reaches the driver *)

(** The evidence an action needs before the driver may perform it. *)
Record authorised (req : DriverRequest) : Prop := {
  au_valid : ComputerRecord_validate (dr_computer req) = Ok tt;
  au_action : action_for_record (dr_computer req) = Some (dr_action req);
  au_intent : cr_intent (dr_computer req) = ProvisioningIntent.Continue;
  au_operation : dr_operation_id req = operation_id_for_action (dr_computer req) (dr_action req);
  au_host_key :
    dr_action req ≠ ProvisioningAction.BeginSsh → dr_action req ≠ ProvisioningAction.ProbeHostKey →
    is_Some (cr_host_key (dr_computer req)) ∧ is_Some (cr_host_key_approved_at (dr_computer req));
  au_paired :
    dr_action req ∈ [ProvisioningAction.EnableService; ProvisioningAction.BeginSmokeCheck;
                     ProvisioningAction.RunSmokeCheck; ProvisioningAction.CleanupStaging] →
    cr_paired_node_id (dr_computer req) = Some (cr_intended_node_id (dr_computer req));
  au_smoke :
    dr_action req = ProvisioningAction.RunSmokeCheck →
    ∃ binding, cr_smoke_run_binding (dr_computer req) = Some binding ∧
      validate_smoke_binding (dr_computer req) binding = Ok tt;
  au_cleanup :
    dr_action req = ProvisioningAction.CleanupStaging →
    is_Some (cr_smoke_check_completed_at (dr_computer req))
}.

(** The ways the engine may move a driver while it has a journal: every request is
    about one computer and carries the very record stored for it. *)
Inductive driver_call (j : Journal) (id : Uuid) : D → D → Prop :=
| call_execute d req :
    load_record j id = Ok (dr_computer req) → authorised req → driver_call j id d (driver_execute d req).1
| call_rollback d req :
    load_record j id = Ok (dr_computer req) →
    cr_intent (dr_computer req) = ProvisioningIntent.Rollback →
    cr_teardown_completed (dr_computer req) = false → driver_call j id d (driver_rollback d req).1
| call_remove d req :
    load_record j id = Ok (dr_computer req) →
    cr_intent (dr_computer req) = ProvisioningIntent.Remove →
    cr_teardown_completed (dr_computer req) = false → driver_call j id d (driver_remove d req).1
| call_forget d req :
    load_record j id = Ok (dr_computer req) →
    (cr_state (dr_computer req) = ProvisioningState.Ready ∧
     sap_method (cr_ssh_authentication (dr_computer req)) = SshAuthenticationMethod.Password ∨
     cr_intent (dr_computer req) = ProvisioningIntent.Remove ∧
     cr_teardown_completed (dr_computer req) = true) → driver_call j id d (driver_forget_credential d req).1.
(** At most one call, made before the journal changes. *)
Definition asks (id : Uuid) (w w' : World D) : Prop :=
  w_driver w' = w_driver w ∨ driver_call (w_journal w) id (w_driver w) (w_driver w').

Lemma is_ready_true s : ProvisioningState.is_ready s = true ↔ s = ProvisioningState.Ready.
Proof. destruct s; cbn; naive_solver. Qed.

(** The request of [drive_action] is authorised. *)
Lemma action_authorised r action :
  ComputerRecord_validate r = Ok tt → cr_intent r = ProvisioningIntent.Continue →
  ProvisioningState.is_failed (cr_state r) = false → ProvisioningState.is_ready (cr_state r) = false →
  ProvisioningState.is_host_key_pending (cr_state r) && is_none (cr_host_key_approved_at r) = false →
  action_for_record r = Some action →
  authorised (driver_request r action (ProvisioningAction.as_str action)).
Proof.
  intros Hv Hint Hf Hr Hp Ha. pose proof Hv as Hok.
  apply ComputerRecord_validate_Ok in Hok as [_ _ _ _ _ _ _ _ _ [Ck Ca _ _ _ Cn _ Cs _] _].
  assert (∀ c, reached r c ↔ (ProvisioningStep.rank c ≤ ProvisioningStep.rank (ProvisioningState.active_step (cr_state r)))%N) as Hreach
    by done.
  rewrite andb_false_iff, is_none_false in Hp.
  unfold action_for_record in Ha. unfold smoke_ok in Cs.
  split; cbn [driver_request dr_computer dr_action dr_operation_id]; try done.
  - intros Hb Hpr. split; [apply Ck|].
    + apply Hreach. destruct (cr_state r); try done; cbn in *; try (by injection Ha as <-); lia.
    + destruct (cr_state r); try done; cbn in *; try (by injection Ha as <-);
        try (apply Ca, Hreach; cbn; lia). by destruct Hp as [?|[t ->]].
  - intros Hin. apply Cn, Hreach.
    destruct (cr_state r); try done; cbn in *; try lia; injection Ha as <-; set_solver.
  - intros ->. destruct (cr_state r) eqn:Es; try done; cbn in Ha.
    destruct (cr_smoke_run_binding r) as [b|] eqn:Eb; [|done]. exists b. split; [done|].
    destruct (decide _) as [_|_]; [done|]. destruct Cs as (_ & Sv & _). by apply Sv.
  - intros ->. destruct (cr_state r) eqn:Es; try done; cbn in Ha.
    destruct (cr_smoke_run_binding r) as [b|] eqn:Eb; [|done].
    by destruct (cr_smoke_check_completed_at r).
Qed.

(** An operation that leaves the driver alone. *)
Definition still {A} (m : engine D A) : Prop := ∀ w, w_driver (m w).1 = w_driver w.

Lemma still_ret {A} (a : A) : still (mret a).
Proof. by intros w. Qed.
Lemma still_fail {A} e : still (@fail D A e).
Proof. by intros w. Qed.
Lemma still_lift {A} (m : result ProvisioningError.t A) : still (lift m).
Proof. by intros w. Qed.
Lemma still_bind {A B} (m : engine D A) (k : A → engine D B) : still m → (∀ a, still (k a)) → still (m ≫= k).
Proof.
  intros Hm Hk w. unfold mbind, engine_bind. specialize (Hm w).
  destruct (m w) as [w' [a|e]]; [|exact Hm]. rewrite <-Hm. apply (Hk a w').
Qed.
Lemma still_get id : still (@store_get _ _ _ _ _ D id).
Proof. by intros w. Qed.
Lemma still_save now r expected : still (@store_save _ _ _ _ _ D now r expected).
Proof. intros w. unfold store_save. by destruct (save_cas _ _ _ _) as [[saved j]|e]. Qed.
Lemma still_delete id expected : still (@store_delete D id expected).
Proof. intros w. unfold store_delete. by destruct (delete_cas _ _ _). Qed.
Lemma still_insert r : still (@store_insert _ _ _ _ _ D r).
Proof. intros w. unfold store_insert. by destruct (insert _ _). Qed.

Create HintDb still.
#[local] Hint Resolve still_ret still_fail still_lift still_get still_save still_delete still_insert : still.
Ltac settle := repeat first
  [ solve [auto with still] | apply still_bind; [solve [auto with still]|intros ?] | case_match ].

Lemma still_load id expected : still (@load_expected _ _ _ _ _ D id expected).
Proof. unfold load_expected. settle. Qed.
Lemma still_failure now r expected failure : still (@persist_failure _ _ _ _ _ D now r expected failure).
Proof. unfold persist_failure, persist_credential_required, persist_driver_failure. settle. Qed.
Lemma still_checkpoint now r expected : still (@checkpoint _ _ _ _ _ D now r expected).
Proof. unfold checkpoint. settle. Qed.
#[local] Hint Resolve still_load still_failure still_checkpoint : still.

(** An operation on a stored record that asks the driver at most once. *)
Definition asks_with {A} (r : ComputerRecord) (m : engine D A) : Prop :=
  ∀ w, load_record (w_journal w) (cr_id r) = Ok r → asks (cr_id r) w (m w).1.
Lemma asks_still {A} r (m : engine D A) : still m → asks_with r m.
Proof. intros Hm w _. left. apply Hm. Qed.
Lemma asks_lift {A B} r (m : result ProvisioningError.t A) (k : A → engine D B) :
  (∀ a, m = Ok a → asks_with r (k a)) → asks_with r (lift m ≫= k).
Proof.
  intros Hk w Hr. unfold mbind, engine_bind, lift. destruct m as [a|e]; [by apply Hk|by left].
Qed.
Lemma asks_call {A B} r (f : D → D * A) (k : A → engine D B) :
  (∀ j d, load_record j (cr_id r) = Ok r → driver_call j (cr_id r) d (f d).1) → (∀ a, still (k a)) →
  asks_with r (call f ≫= k).
Proof.
  intros Hf Hk w Hr. right. specialize (Hf _ (w_driver w) Hr). unfold call, mbind, engine_bind.
  destruct (f (w_driver w)) as [d a]. cbn in *. by rewrite (Hk a).
Qed.
Lemma asks_load {A} id expected (k : ComputerRecord → engine D A) w :
  (∀ r, cr_id r = id → ComputerRecord_validate r = Ok tt → asks_with r (k r)) →
  asks id w ((record ← load_expected id expected; k record) w).1.
Proof.
  intros Hk. unfold load_expected, store_get, get, mbind, engine_bind. cbn.
  destruct (load_record (w_journal w) id) as [r|e] eqn:Hl; cbn; [|by left].
  case_bool_decide; cbn; [|by left]. destruct (load_stored _ _ _ Hl) as [Hid Hv].
  pose proof (Hk r Hid Hv w) as Ha. rewrite Hid in Ha. by apply Ha.
Qed.

Lemma asks_action now r expected :
  ComputerRecord_validate r = Ok tt → cr_intent r = ProvisioningIntent.Continue →
  asks_with r (drive_action now r expected).
Proof.
  intros Hv Hi. unfold drive_action.
  destruct (ProvisioningState.is_failed _) eqn:Hf; [apply asks_still, still_ret|].
  destruct (ProvisioningState.is_ready _) eqn:Hr; [apply asks_still, still_ret|].
  destruct (_ && _) eqn:Hp; [apply asks_still, still_ret|].
  apply asks_lift. intros action Ha. apply ok_or_Ok in Ha.
  apply asks_call; [intros j d Hl; by apply call_execute, action_authorised|].
  intros [completion|failure]; [|apply still_failure].
  assert (still (match apply_completion r action completion with
    | Err error => failure ← lift (map_err ProvisioningError.Validation (DriverFailure_new (transition_code error) false));
                   persist_driver_failure now r expected failure
    | Ok record => saved ← store_save now record expected;
                   if ProvisioningState.is_ready (cr_state saved) then mret (DriveOutcome.Ready saved)
                   else mret (DriveOutcome.Checkpoint saved)
    end)) as Hgo by (unfold persist_driver_failure; settle).
  by destruct completion; try exact Hgo; apply still_ret.
Qed.

Lemma asks_rollback now r expected :
  cr_intent r = ProvisioningIntent.Rollback → asks_with r (drive_rollback now r expected).
Proof.
  intros Hi. unfold drive_rollback. destruct (cr_teardown_completed r) eqn:Ht; [apply asks_still; settle|].
  apply asks_call; [intros j d Hl; by apply call_rollback|].
  intros [u|failure]; auto with still.
Qed.
Lemma asks_remove now id r expected :
  cr_intent r = ProvisioningIntent.Remove → asks_with r (drive_remove now id r expected).
Proof.
  intros Hi. unfold drive_remove. destruct (cr_teardown_completed r) eqn:Ht.
  - apply asks_call; [intros j d Hl; apply call_forget; auto|]. intros forgotten. settle.
  - apply asks_call; [intros j d Hl; by apply call_remove|].
    intros [u|failure]; auto with still.
Qed.

Lemma asks_drive_once now id expected w : asks id w (drive_once now id expected w).1.
Proof.
  unfold drive_once. apply asks_load. intros r _ Hv.
  destruct (cr_intent r) eqn:Hi; [by apply asks_action|apply asks_still, still_checkpoint|
    apply asks_still; settle|by apply asks_rollback|by apply asks_remove].
Qed.
Lemma asks_forget now id expected w : asks id w (forget_credential now id expected w).1.
Proof.
  unfold forget_credential. apply asks_load. intros r _ _.
  destruct (ProvisioningState.is_ready (cr_state r)) eqn:Hr; cbn [negb]; [|apply asks_still, still_fail].
  apply is_ready_true in Hr. case_bool_decide; cbn [negb]; [|apply asks_still, still_fail].
  apply asks_call; [intros j d Hl; apply call_forget; auto|]. intros forgotten. settle.
Qed.

(** A turn of a computer, with at most one call of the driver. *)
Definition asking_turn (id : Uuid) (w w' : World D) : Prop := turn id w w' ∧ asks id w w'.
Lemma asking_turns clock id revision last steps w :
  rtc (asking_turn id) w (drive_steps clock id revision last steps w).1.
Proof.
  revert clock revision last w. induction steps as [|steps IH]; intros clock revision last w; cbn [drive_steps].
  { destruct last; reflexivity. }
  assert (asking_turn id w (drive_once (clock 0) id revision w).1) as Hturn
    by (split; [by eexists _, _|apply asks_drive_once]).
  unfold mbind, engine_bind. destruct (drive_once _ _ _ w) as [w' [outcome|e]]; [|by apply rtc_once].
  cbn [fst] in Hturn. destruct outcome; try (by apply rtc_once). by eapply rtc_l.
Qed.

(** C39. The driver is only asked for what the stored evidence allows.  Creating a
    computer, approving its host key, recording an intent and starting a repair never
    move the driver.  Forgetting a credential and a turn of the engine call it at most
    once, on the journal they found, and [drive_until_boundary] is a sequence of such
    turns.  A call is about the computer of the engine call and carries the very record
    that the journal stores for it at that moment: an action is the one of the record's
    own checkpoint under its stable operation identifier; nothing after the host-key
    probe runs before the host key is pinned and approved; no service, smoke or cleanup
    action before the intended node paired; the smoke run only under an accepted
    binding; teardown only on the matching intent; and the credential is forgotten only
    for a ready computer with a password, or in a removal after its teardown. *)
Theorem driver_calls_authorised (c : EngineCall) (w : World D) :
  match c with
  | Create _ _ _ _ | CreateIdempotent _ _ _ _ | ApproveHostKey _ _ _ _ _ | RequestIntent _ _ _ _
  | BeginRepair _ _ _ => w_driver (perform c w) = w_driver w
  | ForgetCredential _ id _ | DriveOnce _ id _ => asks id w (perform c w)
  | DriveUntil _ id _ _ => rtc (asking_turn id) w (perform c w)
  end.
Proof.
  destruct c; cbn [perform].
  - unfold create. apply (still_bind _ _ (still_lift _)). intros ?. cbv zeta. settle.
  - unfold create_idempotent. apply (still_bind _ _ (still_lift _)). intros ?. cbv zeta. settle.
  - unfold approve_host_key. apply (still_bind _ _ (still_load _ _)). intros r. settle.
  - unfold request_intent. case_bool_decide; [reflexivity|].
    apply (still_bind _ _ (still_load _ _)). intros r. cbv zeta. settle.
  - unfold begin_repair. apply (still_bind _ _ (still_load _ _)). intros r. settle.
  - apply asks_forget.
  - apply asks_drive_once.
  - unfold drive_until_boundary. destruct (_ || _); [reflexivity|]. apply asking_turns.
Qed.

(** ** Which records can be saved *)

(** What [save_cas] validates: the record with a new revision and time. *)
Definition stamped (n : N) (t : DateTime) (r : ComputerRecord) : ComputerRecord :=
  set_updated_at t (set_revision n r).

Definition times_ok (r : ComputerRecord) : Prop :=
  (cr_created_at r ≤ cr_updated_at r)%Z ∧
  (∀ t, cr_host_key_approved_at r = Some t → cr_created_at r ≤ t)%Z ∧
  (∀ t, cr_heartbeat_seen_at r = Some t → cr_created_at r ≤ t)%Z ∧
  (∀ t, cr_smoke_check_completed_at r = Some t → cr_created_at r ≤ t)%Z ∧
  (∀ h s, cr_heartbeat_seen_at r = Some h → cr_smoke_check_completed_at r = Some s → h ≤ s)%Z.
Lemma validate_timestamps_Ok r : validate_timestamps r = Ok tt ↔ times_ok r.
Proof.
  unfold validate_timestamps, times_ok.
  rewrite bind_unit_Ok, !reject_if_Ok, !orb_false_iff, !is_some_and_false, Z.ltb_ge.
  assert ((∀ a, option_zip (cr_heartbeat_seen_at r) (cr_smoke_check_completed_at r) = Some a →
             (λ '(heartbeat, smoke), (smoke <? heartbeat)%Z) a = false) ↔
          (∀ h s, cr_heartbeat_seen_at r = Some h → cr_smoke_check_completed_at r = Some s → (h ≤ s)%Z)) as ->.
  { destruct (cr_heartbeat_seen_at r) as [h0|], (cr_smoke_check_completed_at r) as [s0|]; cbn; split; try done.
    - intros Hz h s [= <-] [= <-]. apply Z.ltb_ge. by apply (Hz (h0, s0)).
    - intros Hz [h s] [= <- <-]. apply Z.ltb_ge. by apply Hz. }
  setoid_rewrite Z.ltb_ge. tauto.
Qed.

Lemma smoke_binding_stamped r r' b :
  cr_id r' = cr_id r → cr_cycle r' = cr_cycle r → cr_intended_node_id r' = cr_intended_node_id r →
  cr_paired_node_id r' = cr_paired_node_id r →
  validate_smoke_binding r' b = validate_smoke_binding r b.
Proof. intros E1 E2 E3 E4. unfold validate_smoke_binding. by rewrite E1, E2, E3, E4. Qed.

Definition auth_rejected (failure : DriverFailure) : bool :=
  (df_code failure == lit "SSH_AUTH_REJECTED") || (df_code failure == lit "SSH_PRIVATE_KEY_REJECTED").

Lemma smoke_ok_ext r r' :
  cr_id r' = cr_id r → cr_cycle r' = cr_cycle r → cr_intended_node_id r' = cr_intended_node_id r →
  cr_paired_node_id r' = cr_paired_node_id r → cr_format_version r' = cr_format_version r →
  cr_smoke_run_binding r' = cr_smoke_run_binding r →
  cr_smoke_check_completed_at r' = cr_smoke_check_completed_at r →
  (∀ c, reached r' c ↔ reached r c) → smoke_ok r → smoke_ok r'.
Proof.
  intros E1 E2 E3 E4 E5 E6 E7 Hreach. unfold smoke_ok. rewrite E5, E6, E7.
  destruct (decide _); [done|]. intros (S1 & S2 & S3 & S4). rewrite !Hreach. split_and!; try done.
  intros b Hb. destruct (S2 b Hb) as [Hr Hv]. rewrite Hreach, (smoke_binding_stamped r r') by done. done.
Qed.

(** A failure can be recorded unless it would reset the credential of a computer
    that is past the credential checkpoint, or fail one that forgot it. *)
Lemma failed_record_valid r failure n t :
  ComputerRecord_validate r = Ok tt → cr_teardown_completed r = false →
  n ≠ 0%N → (cr_created_at r ≤ t)%Z →
  (ComputerRecord_validate (stamped n t (failed_record r failure)) = Ok tt ↔
   if auth_rejected failure then ¬ reached r ProvisioningStep.CredentialStored
   else cp_state (cr_credential_policy r) ≠ CredentialState.Forgotten).
Proof.
  rewrite !ComputerRecord_validate_Ok.
  intros [Hver Hrev Hpair Hin Htimes Hkey Hinv Htear [Hc1 Hc2] [Ck Ca Ci Cf Cp Cn Ch Cs Cc] Hint] Ht Hn Hcreated.
  apply validate_timestamps_Ok in Htimes as (_ & T1 & T2 & T3 & T4).
  assert (∀ c, reached (stamped n t (failed_record r failure)) c ↔ reached r c) as Hreach.
  { intros c. unfold reached, stamped, failed_record. cbv zeta. by destruct (_ || _). }
  assert (smoke_ok (stamped n t (failed_record r failure))) as Hsmoke.
  { apply (smoke_ok_ext r); try done; unfold failed_record; cbv zeta; by destruct (_ || _). }
  unfold stamped, failed_record in *. fold (auth_rejected failure) in *. cbv zeta in *.
  destruct (auth_rejected failure) eqn:Ea.
  - split.
    + intros [_ _ _ _ _ _ _ _ _ [_ _ Ci' _ _ _ _ _ _] _] Hr.
      destruct (Ci' (proj2 (Hreach _) Hr)) as [_ Hp]. by apply Hp.
    + intros Hr. split; try done.
      * apply validate_timestamps_Ok. by split_and!.
      * cbn. by rewrite Ht.
      * split; [split; [done|by intros [? ?]]|]. intros Hm. by destruct (Hc2 Hm) as [? _].
  - split.
    + intros [_ _ _ _ _ _ _ _ _ [_ _ _ Cf' _ _ _ _ _] _] Hf. by specialize (Cf' Hf).
    + intros Hf. split; try done.
      * apply validate_timestamps_Ok. by split_and!.
      * cbn. by rewrite Ht.
Qed.

(** A record as a failure leaves it: failed at the step it was on, with the driver's
    code and retryability and no intent, one revision later; a rejected password or key
    also sends the credential back to pending. *)
Definition failed_as (r : ComputerRecord) (failure : DriverFailure) (now : DateTime) : ComputerRecord :=
  stamped (cr_revision r + 1) (monotonic_now (cr_updated_at r) now)
    (set_intent ProvisioningIntent.Continue
       (set_state (ProvisioningState.Failed (ProvisioningState.active_step (cr_state r)) (df_code failure)
                     (df_retryable failure))
          (if auth_rejected failure
           then set_credential_reference None (set_credential_state CredentialState.Pending r) else r))).
Definition stored_row (r : ComputerRecord) : Row :=
  {| row_revision := Z.of_N (cr_revision r); row_created_at := cr_created_at r;
     row_updated_at := cr_updated_at r; row_document := r |}.

(** C40. Which failures are recorded.  A driver failure reported while no teardown
    is recorded is persisted exactly when the stored evidence admits it: a
    rejected password or key only before the credential checkpoint (later the
    reset credential state contradicts the checkpoint), any other failure only if
    the credential was not forgotten.  Then the outcome is the failed record and the
    journal holds it, the only row that changed: the step the computer was on, the
    driver's code and retryability, the next revision.  Otherwise the call is an error
    and neither the journal nor the driver changes: the computer stays where it was. *)
Theorem failure_persisted_iff (w : World D) r now failure
    (Hload : load_record (w_journal w) (cr_id r) = Ok r)
    (Hteardown : cr_teardown_completed r = false)
    (Hrevision : (Z.of_N (cr_revision r) + 1 ≤ i64_max)%Z) :
  match persist_driver_failure now r (cr_revision r) failure w with
  | (w', Ok outcome) =>
      (if auth_rejected failure then ¬ reached r ProvisioningStep.CredentialStored
       else cp_state (cr_credential_policy r) ≠ CredentialState.Forgotten) ∧
      outcome = DriveOutcome.Failed (failed_as r failure now) ∧
      w' = {| w_journal := <[cr_id r := stored_row (failed_as r failure now)]> (w_journal w);
              w_driver := w_driver w |} ∧
      load_record (w_journal w') (cr_id r) = Ok (failed_as r failure now)
  | (w', Err _) => w' = w ∧
      if auth_rejected failure then reached r ProvisioningStep.CredentialStored
      else cp_state (cr_credential_policy r) = CredentialState.Forgotten
  end.
Proof.
  pose proof (load_stored _ _ _ Hload) as [_ Hv].
  assert (failed_as r failure now = stamped (cr_revision r + 1) (monotonic_now (cr_updated_at r) now)
    (failed_record r failure)) as Hfailed by done.
  pose proof (failed_record_valid r failure (cr_revision r + 1)%N (monotonic_now (cr_updated_at r) now)
    Hv Hteardown ltac:(lia)) as Hiff.
  assert (cr_created_at r ≤ monotonic_now (cr_updated_at r) now)%Z as Hcreated.
  { apply ComputerRecord_validate_Ok, ro_times, validate_timestamps_Ok in Hv as [Hc _].
    pose proof (monotonic_now_later (cr_updated_at r) now). lia. }
  specialize (Hiff Hcreated). rewrite <-Hfailed in Hiff.
  pose proof (keeps_failed r failure) as [(Hid & Hnode & Hcr) _ _ _ _].
  assert (cr_revision (failed_record r failure) = cr_revision r) as Hrev
    by (unfold failed_record; cbv zeta; by destruct (_ || _)).
  assert (cr_id (failed_as r failure now) = cr_id r ∧ cr_created_at (failed_as r failure now) = cr_created_at r ∧
    cr_revision (failed_as r failure now) = (cr_revision r + 1)%N) as (Fid & Fcr & Frev)
    by (rewrite Hfailed; by rewrite <-Hid, <-Hcr).
  unfold persist_driver_failure, mbind, engine_bind, store_save.
  destruct (save_cas (w_journal w) now (failed_record r failure) (cr_revision r)) as [[saved j]|e] eqn:Hs.
  - apply save_cas_Ok in Hs as (_ & current & Hl & _ & _ & _ & _ & Hsaved & Hok & Hj).
    rewrite Hid, Hload in Hl. injection Hl as <-. unfold stamped in Hfailed. rewrite <-Hfailed in Hsaved. subst saved.
    assert (j = <[cr_id r := stored_row (failed_as r failure now)]> (w_journal w)) as ->.
    { rewrite Hj, Hid. unfold stored_row. by rewrite Frev, Fcr, Hcr. }
    split_and!; [by apply Hiff|done|done|]. apply load_record_Ok. eexists. cbn [w_journal].
    rewrite lookup_insert_eq. split; [done|]. apply parse_record_Ok. by split_and!.
  - split; [done|].
    assert (¬ ComputerRecord_validate (failed_as r failure now) = Ok tt) as Hno.
    { intros Hok. eassert (save_cas (w_journal w) now (failed_record r failure) (cr_revision r) = Ok (_, _)) as Hc.
      { apply save_cas_Ok. split; [done|]. exists r. rewrite Hid. by split_and!. }
      by rewrite Hs in Hc. }
    rewrite Hiff in Hno. destruct (auth_rejected failure).
    + unfold reached in *. lia.
    + by apply dec_stable.
Qed.
End safety.

(** ** Evaluation *)

(** A driver that answers [execute] from a script and lets every teardown succeed. *)
Definition Script : Type := list (result DriverFailure StepCompletion.t).
#[local] Instance scripted : ProvisioningDriver Script := {|
  driver_execute d _ := match d with
                        | answer :: rest => (rest, answer)
                        | [] => ([], Ok StepCompletion.Pending)
                        end;
  driver_rollback d _ := (d, Ok tt);
  driver_remove d _ := (d, Ok tt);
  driver_forget_credential d _ := (d, Ok tt)
|}.

#[local] Existing Instance Concrete.uuid_crate.
#[local] Existing Instance Concrete.digest_crate.
#[local] Existing Instance ConcreteJson.serde_crate.
#[local] Existing Instance ConcreteHost.base64_crate.
#[local] Existing Instance ConcreteHost.unix.

Definition stored_reference : CredentialReference := lit "cyc://credential/ssh-password/2".
Definition honest_script : Script :=
  [Ok StepCompletion.SshStarted; Ok (StepCompletion.HostKeyObserved sample_host_key);
   Ok (StepCompletion.AuthenticatedStored stored_reference); Ok StepCompletion.DiscoveryStarted;
   Ok (StepCompletion.DiscoveryCompleted sample_inventory stored_reference); Ok StepCompletion.KitStaged;
   Ok StepCompletion.WorkerInstalled; Ok (StepCompletion.EnrollmentIssued 5%N);
   Ok (StepCompletion.Paired 3%N); Ok StepCompletion.ServiceEnabled;
   Ok (StepCompletion.HeartbeatObserved 900%Z);
   Ok (StepCompletion.SmokeCheckPrepared sample_smoke_binding);
   Ok (StepCompletion.SmokeCheckPassed 1500%Z); Ok StepCompletion.StagingCleaned].
Definition empty_world (script : Script) : World Script := Build_World ∅ script.
Definition drafted (script : Script) : World Script :=
  (create_idempotent 100%Z sample_input 2%N 3%N (empty_world script)).1.
Definition outcome_state (o : result ProvisioningError.t DriveOutcome.t) : option ProvisioningState.t :=
  match o with
  | Ok (DriveOutcome.Ready r | DriveOutcome.AwaitingHostKeyApproval r | DriveOutcome.Failed r) =>
      Some (cr_state r)
  | _ => None
  end.

(** The scripted computer stops for the approval of its host key, and after it
    reaches Ready. *)
Example scripted_run_awaits_approval :
  outcome_state (drive_until_boundary (λ _, 200%Z) 2%N 1%N 64%N (drafted honest_script)).2 =
  Some ProvisioningState.HostKeyPending.
Proof. vm_compute. reflexivity. Qed.
Definition approved_world : World Script :=
  (approve_host_key 300%Z 300%Z 2%N 3%N (phk_fingerprint sample_host_key)
     (drive_until_boundary (λ _, 200%Z) 2%N 1%N 64%N (drafted honest_script)).1).1.
Example scripted_run_reaches_ready :
  outcome_state (drive_until_boundary (λ i, 400 + Z.of_nat i)%Z 2%N 4%N 64%N approved_world).2 =
  Some ProvisioningState.Ready.
Proof. vm_compute. reflexivity. Qed.

Lemma engine_journal_invariant_witness :
  rtc engine_step (empty_world honest_script) (drafted honest_script) ∧
  journal_ok (w_journal (drafted honest_script)) ∧
  allowed (DriveOnce 200%Z 2%N 1%N) (drafted honest_script) (perform (DriveOnce 200%Z 2%N 1%N) (drafted honest_script)).
Proof.
  assert (rtc engine_step (empty_world honest_script) (drafted honest_script)) as Hreach
    by (apply rtc_once; by exists (CreateIdempotent 100%Z sample_input 2%N 3%N)).
  split; [exact Hreach|]. apply (engine_journal_invariant honest_script _ Hreach).
Defined.
(** A removal of the computer takes a teardown and a second turn. *)
Example scripted_removal :
  let asked := (request_intent 9000%Z 2%N 1%N ProvisioningIntent.Remove (drafted honest_script)).1 in
  let torn := (drive_once 9100%Z 2%N 2%N asked).1 in
  is_some (w_journal torn !! 2%N) = true ∧ w_journal (drive_once 9200%Z 2%N 3%N torn).1 !! 2%N = None.
Proof. by vm_compute. Qed.

Definition rejected : DriverFailure :=
  {| df_code := lit "SSH_AUTH_REJECTED"; df_retryable := true; df_kind := DriverFailureKind.Failure |}.
(** A ready computer whose password is rejected by a later rollback: the failure
    is not recorded. *)
Lemma failure_persisted_iff_witness :
  ∃ (w : World Script) r, load_record (w_journal w) (cr_id r) = Ok r ∧ cr_state r = ProvisioningState.Ready ∧
    reached r ProvisioningStep.CredentialStored ∧
    (persist_driver_failure 9000%Z r (cr_revision r) rejected w).1 = w.
Proof.
  pose (w := (drive_until_boundary (λ i, 400 + Z.of_nat i)%Z 2%N 4%N 64%N approved_world).1).
  pose (r := match load_record (w_journal w) 2%N with Ok r => r | Err _ => sample_ready end).
  assert (load_record (w_journal w) (cr_id r) = Ok r) as Hl by (by vm_compute).
  assert (reached r ProvisioningStep.CredentialStored) as Hr by (vm_compute; by intros).
  exists w, r. split; [exact Hl|]. split; [by vm_compute|]. split; [exact Hr|].
  pose proof (failure_persisted_iff w r 9000%Z rejected Hl ltac:(by vm_compute) ltac:(by vm_compute)) as Hf.
  destruct (persist_driver_failure 9000%Z r (cr_revision r) rejected w) as [w' [o|e]].
  - exfalso. by apply (proj1 Hf).
  - by destruct Hf.
Defined.
