(* ===== verification/WorkerEnv.v ===== *)
(** The world a worker runs in, for the models of crates/cyc-worker.

    A worker reads clocks, shared atomics, files, processes and HTTP answers.  Each of
    these is an operation ([Op.t], indexed by the type of its answer); an
    [Environment] answers every operation as an arbitrary function of what happened
    before, so that a theorem about all environments covers every interleaving with the
    worker's other tasks, every failure and every controller.  [io] is the resulting
    monad: it keeps the worker's own log sink and the trace of all events. *)
From Stdlib Require Import ZArith NArith Lia String.
From stdpp Require Import base option list numbers sets gmap.
From S2P Require Import Prelude Text Crates Protocol PortablePath RunState CanonicalJson WorkerReports WorkerRun Cleanup Onboarding.
Open Scope rust_scope.

(** [StateUpdateResponse] of cyc-protocol *)
Record StateUpdateResponse := {
  sur_run : Run;
  sur_state_version : N;
  sur_cancel_requested : bool
}.

(** ** Errors

    [reqwest::Error] with the questions the code asks of it, and [anyhow::Error]: the
    typed error at its root, which [downcast_ref] finds under any context, and its
    rendering [{:#}]. *)
Record ReqwestError := {
  rq_timeout : bool; rq_connect : bool; rq_body : bool; rq_request : bool;
  rq_text : rstr
}.
(** http.rs: [VersionConflict] *)
Record VersionConflict := {
  vc_current_version : N;
  vc_cancel_requested : bool;
  vc_current_state : option JobState.t
}.
Module ErrorRoot.
Inductive t :=
| Message
| Conflict (conflict : VersionConflict)
| RetryableHttp (status : N) (code : rstr)
| WorkerApiHttp (status : N) (code : rstr)
| Reqwest (error : ReqwestError)
| ContainmentProofLost
| GuardDurabilityLost (operation : rstr)
| AssignmentQuarantined.
End ErrorRoot.
Record AnyError := { ae_root : ErrorRoot.t; ae_text : rstr }.
Definition anyhow (message : rstr) : AnyError := {| ae_root := ErrorRoot.Message; ae_text := message |}.
(** [error.context(message)] *)
Definition with_context (message : rstr) (e : AnyError) : AnyError :=
  {| ae_root := ae_root e; ae_text := message ++ lit ": " ++ ae_text e |}.
Definition context {A} (message : rstr) (r : result AnyError A) : result AnyError A :=
  map_err (with_context message) r.
Definition from_reqwest (e : ReqwestError) : AnyError :=
  {| ae_root := ErrorRoot.Reqwest e; ae_text := rq_text e |}.

(** [std::io::Error] *)
Record IoError := { io_not_found : bool; io_text : rstr }.
Definition from_io (e : IoError) : AnyError := anyhow (io_text e).

(** ** Files and processes *)

(** An absolute [Path] is the list of its components; joining is appending. *)
Definition Path := list rstr.
Definition path_join (p : Path) (segment : rstr) : Path := p ++ [segment].
Definition path_parent (p : Path) : option Path :=
  match p with [] => None | _ => Some (removelast p) end.
Definition path_starts_with (p base : Path) : bool := take (length base) p == base.
Definition path_display (p : Path) : rstr := SLASH :: join SLASH p.
Record Metadata := {
  md_is_dir : bool; md_is_file : bool; md_is_symlink : bool; md_is_reparse : bool; md_len : N
}.
(** An entry of [walkdir]: its path below the root. *)
Record WalkEntry := { we_relative : list rstr; we_is_file : bool; we_is_symlink : bool }.
(** An entry of a tar stream read through zstd. *)
Record TarEntry := {
  te_path : result AnyError rstr; te_is_dir : bool; te_is_file : bool; te_size : result AnyError N
}.
Record ExitStatus := { es_code : option Z; es_signal : option Z }.

(** isolation.rs: what is started instead of a step's program. *)
Record Launch := { la_program : rstr; la_arguments : list rstr; la_manages_cwd : bool }.

(** process.rs: the streams of a child and what is read from them. *)
Module ProcessStream.
Inductive t := Stdout | Stderr.
#[export] Instance eq_dec : EqDecision t.
Proof. solve_decision. Defined.
Definition as_header (s : t) : rstr := match s with Stdout => lit "stdout" | Stderr => lit "stderr" end.
End ProcessStream.
Export (hints) ProcessStream.
Record OutputChunk := { oc_stream : ProcessStream.t; oc_bytes : list N }.

Module ProcessTerminationReason.
Inductive t := Exited | ExecutionFailed | TimedOut | CancelRequested | LeaseLost | TransportFailure.
#[export] Instance eq_dec : EqDecision t.
Proof. solve_decision. Defined.
End ProcessTerminationReason.
Export (hints) ProcessTerminationReason.
Record MonitorResult := {
  mr_status : ExitStatus;
  mr_reason : ProcessTerminationReason.t;
  mr_process_tree_terminated : bool;
  mr_forced_kill : bool
}.
Record ReaderStats := { rd_bytes : N; rd_sha256 : rstr; rd_truncated : bool; rd_chunks : N }.
(** What the [select!] of [run_process] yields: the monitor task ended, a chunk was
    received, or the channel was found closed. *)
Module SelectEvent.
Inductive t :=
| Waited (outcome : result AnyError MonitorResult)
| Received (chunk : OutputChunk)
| ChannelClosed.
End SelectEvent.

(** ** HTTP

    http.rs: [RunSession]; its run and lease are in the path and headers of a request. *)
Record RunSession := { ses_run_id : Uuid; ses_lease_id : Uuid }.
Module HttpRequest.
Inductive t :=
| State (update : StateUpdate)
| Complete (completion : RunCompletion)
| Heartbeat (request : HeartbeatRequest)
| Cleanup (receipt : CleanupReceiptV1)
| Log (session : RunSession) (stream : ProcessStream.t) (offset : N) (sha256 : rstr) (body : list N)
| Artifact (session : RunSession) (id : Uuid) (name sha256 : rstr) (body : list N)
| Source (session : RunSession) (sha256 : rstr)
| Claim (request : ClaimRequest)
| NodeReport (report : NodeReportRequest)
| Pair (bundle : EnrollmentBundleV1) (request : PairRequest)
| PairAck (request : PairAckRequest).
End HttpRequest.
(** The body is read as chunks; [bytes()] is their concatenation.  A header is present
    with a text that [to_str] yields, or with bytes for which it fails. *)
Record HttpResponse := {
  hr_status : N;
  hr_content_type : option rstr;
  hr_content_length : option N;
  hr_header : rstr → option rstr;
  hr_opaque_header : rstr → bool;
  hr_chunks : list (result ReqwestError (list N))
}.

(** A request that could not be built, or that [reqwest] could not complete. *)
Inductive SendError := NotBuilt (text : rstr) | NotSent (error : ReqwestError).
Definition from_send (e : SendError) : AnyError :=
  match e with NotBuilt text => anyhow text | NotSent e => from_reqwest e end.

(** ** Operations *)
Module Op.
Inductive t : Type → Type :=
(* clocks and identifiers: [Utc::now], [Instant::now] in nanoseconds, [sleep] *)
| Now : t DateTime
| Instant : t N
| Sleep (nanos : N) : t unit
| NewUuid : t Uuid
(* state shared with the worker's other tasks *)
| LoadCancellation : t N
| StoreCancellation (value : N) : t unit
| LoadVersion : t N
| FetchMaxVersion (version : N) : t N
| StoreState (state : JobState.t) : t unit
| LoadTruncated (stream : ProcessStream.t) : t bool
| CompareExchangeCancellation (current new : N) : t unit
| LoadState : t JobState.t
| LoadLeaseUntil : t DateTime
| StoreLeaseUntil (until : DateTime) : t unit
| LoadLastLogSequence : t (option N)
(* [select!] of a pause and Ctrl-C; whether Ctrl-C arrived during an assignment *)
| SleepOrStop (nanos : N) : t bool
| StopRequested : t bool
(* probes of the machine *)
| Probe (workspace : Path) : t ProbeReport
| Sample (active_run_ids : list Uuid) : t (result AnyError NodeReportRequest)
(* files *)
| CurrentDir : t (result IoError Path)
| CreateDirAll (p : Path) : t (result IoError unit)
| CreateDir (p : Path) : t (result IoError unit)
| Canonicalize (p : Path) : t (result IoError Path)
| SymlinkMetadata (p : Path) : t (result IoError Metadata)
| ReadToString (p : Path) : t (result IoError rstr)
| OpenNoFollow (p : Path) : t (result IoError Metadata)
| OpenRead (p : Path) : t (result IoError unit)
| FileLength (p : Path) : t (result IoError N)
| ReadToEnd (p : Path) : t (result IoError (list N))
| WriteFile (p : Path) (data : list N) : t (result IoError unit)
| CreateNew (p : Path) (mode : N) : t (result IoError unit)
| WriteAll (p : Path) (data : list N) : t (result IoError unit)
| SyncAll (p : Path) : t (result IoError unit)
| ArchiveEntries (archive : list N) (max_bytes : N) : t (result AnyError (list (result AnyError TarEntry)))
| CopyEntry (index : N) (p : Path) : t (result IoError N)
| SyncDirectory (p : Path) : t (result IoError unit)
| LockFile (p : Path) : t (result AnyError unit)
| WriteProtected (p : Path) (data : list N) : t (result AnyError unit)
| ReplaceProtected (p : Path) (data : list N) : t (result AnyError unit)
| RemoveProtected (p : Path) : t (result AnyError unit)
| Rename (from to : Path) : t (result IoError unit)
| HardLink (from to : Path) : t (result IoError unit)
| SetPermissions (p : Path) (mode : N) : t (result IoError unit)
| RemoveFile (p : Path) : t (result IoError unit)
| RemoveDirAll (p : Path) : t (result IoError unit)
| Walk (p : Path) : t (list (result IoError WalkEntry))
(* processes *)
| OpenLog (p : Path) : t (result IoError Metadata)
| HostCheck (step : rstr) : t (result AnyError unit)
| HostileIsolationEnabled : t (result AnyError bool)
| LaunchSpec (program : rstr) (arguments : list rstr) (cwd stdout_path : Path) : t (result AnyError Launch)
| Spawn (launch : Launch) (cwd : Path) (environment : list (rstr * rstr)) : t (result AnyError unit)
| KillChild : t unit
| Select : t (list SelectEvent.t)
| JoinReader (stream : ProcessStream.t) : t (result AnyError ReaderStats)
| TryWait : t (result AnyError (option ExitStatus))
| TreeObserve : t (result AnyError unit)
| TreeIsEmpty : t (result AnyError bool)
| TreeTerminate : t (result AnyError unit)
| TreeForceKill : t (result AnyError unit)
(* the controller *)
| Send (request : HttpRequest.t) : t (result SendError HttpResponse).
End Op.

(** ** The monad *)
Definition event : Type := { A : Type & (Op.t A * A)%type }.
Definition Environment : Type := ∀ A, Op.t A → list event → A.

(** http.rs: the state of [HttpLogSink]; a hasher is what it was fed. *)
Record HttpLogSink := {
  sk_stdout_offset : N;
  sk_stderr_offset : N;
  sk_stdout_chunks : N;
  sk_stderr_chunks : N;
  sk_stdout_hasher : list N;
  sk_stderr_hasher : list N
}.
Definition HttpLogSink_new : HttpLogSink :=
  {| sk_stdout_offset := 0; sk_stderr_offset := 0; sk_stdout_chunks := 0; sk_stderr_chunks := 0;
     sk_stdout_hasher := []; sk_stderr_hasher := [] |}.

(** Latest event first. *)
Record World := { w_sink : HttpLogSink; w_trace : list event }.
Definition io (A : Type) : Type := Environment → World → A * World.
#[export] Instance io_ret : MRet io := λ A a env w, (a, w).
#[export] Instance io_bind : MBind io := λ A B k m env w, let '(a, w) := m env w in k a env w.
Definition call {A} (o : Op.t A) : io A := λ env w,
  let a := env A o (w_trace w) in
  (a, {| w_sink := w_sink w; w_trace := existT A (o, a) :: w_trace w |}).
Definition get_sink : io HttpLogSink := λ env w, (w_sink w, w).
Definition put_sink (s : HttpLogSink) : io unit := λ env w,
  (tt, {| w_sink := s; w_trace := w_trace w |}).

(** Fallible computations: [x ←? m; k] is [let x = m?;]. *)
Definition try_bind {E A B} (m : io (result E A)) (k : A → io (result E B)) : io (result E B) :=
  r ← m; match r with Ok a => k a | Err e => mret (Err e) end.
Notation "x ←? m ; k" := (try_bind m (λ x, k))
  (at level 20, m at level 100, k at level 200, only parsing) : stdpp_scope.
Notation "' x ←? m ; k" := (try_bind m (λ x, k))
  (at level 20, x pattern, m at level 100, k at level 200, only parsing) : stdpp_scope.
Notation "m ;? k" := (try_bind m (λ _, k)) (at level 100, k at level 200, right associativity, only parsing) : stdpp_scope.
Definition pure {E A} (r : result E A) : io (result E A) := mret r.
Definition done_ok {E A} (a : A) : io (result E A) := mret (Ok a).
Definition fail {E A} (e : E) : io (result E A) := mret (Err e).
(** [anyhow::bail!(message)] *)
Definition bail {A} (message : rstr) : io (result AnyError A) := fail (anyhow message).
(** [if condition { bail!(message) }] *)
Definition bail_if (condition : bool) (message : rstr) : io (result AnyError unit) :=
  if condition then bail message else done_ok tt.
(** [operation(...).context(message)] of an I/O operation and of any other one *)
Definition call_io {A} (message : rstr) (o : Op.t (result IoError A)) : io (result AnyError A) :=
  r ← call o; mret (context message (map_err from_io r)).
Definition call_any {A} (message : rstr) (o : Op.t (result AnyError A)) : io (result AnyError A) :=
  r ← call o; mret (context message r).
