(* ===== verification/WorkerClient.v ===== *)
(** The worker's HTTP client and its log sink: [RunSession] and [HttpLogSink] of
    [crates/cyc-worker/src/http.rs].

    A session answers for one claimed run.  A response is checked, decoded and, where
    the request may be repeated, retried twice with the same bytes.  The sink counts and
    hashes exactly the chunks whose upload was acknowledged. *)
From Stdlib Require Import ZArith NArith Lia String.
From stdpp Require Import base option list numbers sets gmap.
From S2P Require Import Prelude Text Crates Protocol PortablePath Snapshot RunState JobSpec CanonicalJson WorkerReports WorkerRun Cleanup WorkerEnv.
Open Scope rust_scope.

Definition MAX_RESPONSE_BYTES : N := 1024 * 1024.
Definition MAX_LOG_CHUNK_BYTES : N := 1024 * 1024.
(** artifacts.rs *)
Definition MAX_ARTIFACT_BYTES : N := 64 * 1024 * 1024.
Definition SNAPSHOT_MEDIA_TYPE : rstr := lit "application/vnd.cyc.snapshot.tar+zstd".
Definition SHA256_HEADER : rstr := lit "x-cyc-sha256".
Definition COMPLETION_SHA256_HEADER : rstr := lit "x-cyc-completion-sha256".
Definition COMPLETION_ACKNOWLEDGED_AT_HEADER : rstr := lit "x-cyc-completion-acknowledged-at".

Record LogChunkResponse := {
  lcr_run_id : Uuid; lcr_stream : rstr; lcr_offset : N; lcr_length : N; lcr_sha256 : rstr
}.
(** artifacts.rs *)
Record ArtifactEvidence := {
  ae_id : Uuid; ae_name : rstr; ae_size_bytes : N; ae_sha256 : rstr; ae_path : Path
}.

(** [serde_json::from_slice] at the types of the answers, and the parsers of header
    values: [u64] and RFC 3339 time stamps. *)
Class WireCrates `{SerdeJsonCrate} := {
  parse_value : list N → option (Value json_number);
  number_as_u64 : json_number → option N;
  job_state_from_value : Value json_number → option JobState.t;
  parse_state_response : list N → result rstr StateUpdateResponse;
  parse_heartbeat_response : list N → result rstr HeartbeatResponse;
  parse_receipt : list N → result rstr CleanupReceiptV1;
  parse_artifact : list N → result rstr ArtifactMetadata;
  parse_log_response : list N → result rstr LogChunkResponse;
  parse_rfc3339 : rstr → result rstr DateTime
}.

Section client.
Context `{WireCrates, DigestCrate, UuidCrate}.
Abbreviation json := (Value json_number).
Abbreviation fallible A := (io (result AnyError A)).

(** ** Errors *)
Definition is_retryable_transport_error (e : AnyError) : bool :=
  match ae_root e with
  | ErrorRoot.RetryableHttp _ _ => true
  | ErrorRoot.Reqwest e => rq_timeout e || rq_connect e || rq_body e || rq_request e
  | _ => false
  end.
Definition pairing_terminal_code (e : AnyError) : option rstr :=
  match ae_root e with
  | ErrorRoot.WorkerApiHttp _ code =>
      if (code == lit "pairing_unavailable") || (code == lit "pairing_binding_mismatch")
         || (code == lit "pairing_ack_unauthorized") then Some code else None
  | _ => None
  end.

(** [value.pointer("/error/<field>")] *)
Definition get_field (field : rstr) (v : json) : option json :=
  match v with
  | Object entries => snd <$> List.find (λ e, e.1 == field) entries
  | _ => None
  end.
Definition error_field (field : rstr) (v : option json) : option json :=
  value ← v; error ← get_field (lit "error") value; get_field field error.
Definition valid_error_code (code : rstr) : bool :=
  negb (is_empty code) && (len code <=? 128)%N
  && forallb (λ b, is_ascii_lowercase b || is_ascii_digit b || (b =? 95) || (b =? 45) || (b =? 46))%N
       (bytes code).
Definition CONFLICT : N := 409.
Definition is_success (status : N) : bool := between 200 299 status.
Definition is_server_error (status : N) : bool := between 500 599 status.
Definition status_text (prefix : rstr) (status : N) (code : rstr) : rstr :=
  prefix ++ fmt_N status ++ lit " (" ++ code ++ lit ")".
Definition http_status_error (status : N) (body : list N) : AnyError :=
  let value := parse_value body in
  let summary :=
    match error_field (lit "code") value with
    | Some (Str code) => if valid_error_code code then code else lit "worker_api_error"
    | _ => lit "worker_api_error"
    end in
  let other :=
    if is_server_error status then
      {| ae_root := ErrorRoot.RetryableHttp status summary;
         ae_text := status_text (lit "worker API transient HTTP ") status summary |}
    else
      {| ae_root := ErrorRoot.WorkerApiHttp status summary;
         ae_text := status_text (lit "worker API returned HTTP ") status summary |} in
  if (status == CONFLICT) && ((summary == lit "version_conflict") || (summary == lit "state_conflict")) then
    match error_field (lit "currentVersion") value with
    | Some (Num n) =>
        match number_as_u64 n with
        | Some current_version =>
            let conflict :=
              {| vc_current_version := current_version;
                 vc_cancel_requested :=
                   match error_field (lit "cancelRequested") value with Some (Bool b) => b | _ => false end;
                 vc_current_state := error_field (lit "currentState") value ≫= job_state_from_value |} in
            {| ae_root := ErrorRoot.Conflict conflict;
               ae_text := lit "worker API version conflict at version " ++ fmt_N current_version |}
        | None => other
        end
    | _ => other
    end
  else other.

(** ** Responses *)

(** [response.bytes()] *)
Fixpoint whole_body (chunks : list (result ReqwestError (list N))) : result ReqwestError (list N) :=
  match chunks with
  | [] => Ok []
  | chunk :: chunks => data ← chunk; rest ← whole_body chunks; Ok (data ++ rest)
  end.
Definition byte_count (data : list N) : N := N.of_nat (length data).
Definition bounded_body (response : HttpResponse) : result AnyError (list N) :=
  let too_large := anyhow (lit "worker API response exceeds 1048576 bytes") in
  reject_if (is_some_and (hr_content_length response) (λ n, MAX_RESPONSE_BYTES <? n)%N) too_large;;
  data ← context (lit "read worker API response") (map_err from_reqwest (whole_body (hr_chunks response)));
  reject_if (MAX_RESPONSE_BYTES <? byte_count data)%N too_large;;
  Ok data.
Definition decode_json {A} (parse : list N → result rstr A) (response : HttpResponse) : result AnyError A :=
  reject_if (is_none_or (hr_content_type response)
               (λ value, negb (eq_ignore_ascii_case value (lit "application/json"))))
    (anyhow (lit "worker API response must use Content-Type application/json"));;
  data ← bounded_body response;
  if negb (is_success (hr_status response)) then Err (http_status_error (hr_status response) data)
  else context (lit "decode strict worker API JSON") (map_err anyhow (parse data)).

(** ** The session *)
Definition verify_binding (session : RunSession) (run_id lease_id : Uuid) : result AnyError unit :=
  reject_if ((run_id != ses_run_id session) || (lease_id != ses_lease_id session))
    (anyhow (lit "run request does not match the authenticated run session")).
Definition send (message : rstr) (request : HttpRequest.t) : fallible HttpResponse :=
  r ← call (Op.Send request); mret (context message (map_err from_send r)).
(** [request.validate().context(message)?] *)
Definition validated {E} (message : rstr) (r : result E unit) : result AnyError unit :=
  context message (map_err (λ _, anyhow (lit "invalid")) r).

Definition heartbeat (session : RunSession) (request : HeartbeatRequest) : fallible HeartbeatResponse :=
  pure (verify_binding session (hb_run_id request) (hb_lease_id request)) ;?
  pure (validated (lit "validate heartbeat request") (HeartbeatRequest_validate request)) ;?
  response ←? send (lit "send run heartbeat") (HttpRequest.Heartbeat request);
  pure (decode_json parse_heartbeat_response response).

Definition state (session : RunSession) (update : StateUpdate) : fallible StateUpdateResponse :=
  pure (verify_binding session (su_run_id update) (su_lease_id update)) ;?
  pure (validated (lit "validate run state update") (StateUpdate_validate update)) ;?
  response ←? send (lit "send run state update") (HttpRequest.State update);
  pure (decode_json parse_state_response response).

Definition complete (session : RunSession) (completion : RunCompletion) :
    fallible (StateUpdateResponse * TerminalCompletionAckV1) :=
  pure (verify_binding session (rc_run_id completion) (rc_lease_id completion)) ;?
  pure (validated (lit "validate run completion") (RunCompletion_validate completion)) ;?
  response ←? send (lit "send run completion") (HttpRequest.Complete completion);
  let completion_sha256 := hr_header response COMPLETION_SHA256_HEADER in
  let acknowledged_at := hr_header response COMPLETION_ACKNOWLEDGED_AT_HEADER in
  answer ←? pure (decode_json parse_state_response response);
  sha ←? pure (ok_or completion_sha256
    (anyhow (lit "completion response omitted the terminal receipt digest")));
  text ←? pure (ok_or acknowledged_at
    (anyhow (lit "completion response omitted the acknowledgement timestamp")));
  time ←? pure (context (lit "completion acknowledgement timestamp is invalid")
    (map_err anyhow (parse_rfc3339 text)));
  let ack :=
    {| ack_run_id := rc_run_id completion; ack_lease_id := rc_lease_id completion;
       ack_completion_sha256 := sha; ack_state_version := sur_state_version answer;
       ack_final_state := run_state (sur_run answer); ack_acknowledged_at := time |} in
  pure (validated (lit "validate terminal completion acknowledgement") (TerminalCompletionAckV1_validate ack)) ;?
  done_ok (answer, ack).

(** [for attempt in 0..3]: every error of the last attempt is returned, and a retryable
    one of an earlier attempt is followed by a pause of 200 or 400 milliseconds. *)
Definition millis (n : N) : N := n * 1000000.
Fixpoint retry_from {A} (attempt : N) (more : nat) (once : fallible A) : fallible A :=
  r ← once;
  match r, more with
  | Ok a, _ => done_ok a
  | Err e, S more =>
      if is_retryable_transport_error e then
        call (Op.Sleep (millis (200 * (attempt + 1))));; retry_from (attempt + 1) more once
      else fail e
  | Err e, O => fail e
  end.
Definition with_retries {A} (once : fallible A) : fallible A := retry_from 0 2 once.

Definition cleanup (session : RunSession) (receipt : CleanupReceiptV1) `{EqDecision CleanupReceiptV1} :
    fallible CleanupReceiptV1 :=
  pure (verify_binding session (cl_run_id receipt) (cl_lease_id receipt)) ;?
  pure (validated (lit "validate cleanup receipt") (CleanupReceiptV1_validate receipt)) ;?
  with_retries (
    response ←? send (lit "send cleanup receipt") (HttpRequest.Cleanup receipt);
    stored ←? pure (decode_json parse_receipt response);
    bail_if (stored != receipt)
      (lit "controller cleanup acknowledgement changed the immutable receipt") ;?
    done_ok stored).

(** [sha256(bytes)] *)
Definition sha256_hex (data : list N) : rstr := hex (sha256 data).

Definition upload_log (session : RunSession) (stream : ProcessStream.t) (offset : N) (data : list N) :
    fallible unit :=
  bail_if (is_empty data || (MAX_LOG_CHUNK_BYTES <? byte_count data)%N)
    (lit "log chunk size must be in 1..=1048576") ;?
  let digest := sha256_hex data in
  with_retries (
    response ←? send (lit "upload run log chunk") (HttpRequest.Log session stream offset digest data);
    receipt ←? pure (decode_json parse_log_response response);
    bail_if ((lcr_run_id receipt != ses_run_id session) || (lcr_stream receipt != ProcessStream.as_header stream)
             || (lcr_offset receipt != offset) || (lcr_length receipt != byte_count data)
             || (lcr_sha256 receipt != digest))
      (lit "controller log receipt does not match uploaded chunk")).

(** artifacts.rs: [read_regular_file_no_follow].  The length of the opened file fits
    memory. *)
Definition read_regular_file_no_follow (path : Path) (max_bytes : N) : fallible (list N) :=
  r ← call (Op.SymlinkMetadata path);
  metadata ←? pure (map_err from_io r);
  bail_if (negb (md_is_file metadata) || md_is_symlink metadata || md_is_reparse metadata)
    (lit "artifact is not a regular non-link file: " ++ path_display path) ;?
  opened ←? call_io (lit "open artifact without following links " ++ path_display path) (Op.OpenNoFollow path);
  bail_if (negb (md_is_file opened) || md_is_reparse opened || (md_len opened != md_len metadata))
    (lit "artifact changed while it was being opened: " ++ path_display path) ;?
  bail_if (max_bytes <? md_len opened)%N
    (lit "artifact is " ++ fmt_N (md_len opened) ++ lit " bytes; maximum readable size is " ++ fmt_N max_bytes) ;?
  data ←? call_io (lit "read artifact handle") (Op.ReadToEnd path);
  bail_if (byte_count data != md_len opened)
    (lit "artifact length changed while reading: " ++ path_display path) ;?
  done_ok data.

Definition upload_artifact (session : RunSession) (artifact : ArtifactEvidence) : fallible unit :=
  bail_if (MAX_ARTIFACT_BYTES <? ae_size_bytes artifact)%N (lit "artifact exceeds worker upload limit") ;?
  bail_if (existsb (λ c, 128 <=? c)%N (ae_name artifact) || has_control (ae_name artifact))
    (lit "artifact path must be printable ASCII for the current upload protocol") ;?
  data ←? read_regular_file_no_follow (ae_path artifact) MAX_ARTIFACT_BYTES;
  bail_if ((byte_count data != ae_size_bytes artifact) || (sha256_hex data != ae_sha256 artifact))
    (lit "artifact changed after collection: " ++ ae_name artifact) ;?
  with_retries (
    response ←? send (lit "upload artifact")
      (HttpRequest.Artifact session (ae_id artifact) (ae_name artifact) (ae_sha256 artifact) data);
    uploaded ←? pure (decode_json parse_artifact response);
    pure (validated (lit "validate artifact upload receipt") (ArtifactMetadata_validate uploaded)) ;?
    bail_if ((am_id uploaded != ae_id artifact) || (am_run_id uploaded != ses_run_id session)
             || (am_relative_path uploaded != ae_name artifact)
             || (am_size_bytes uploaded != ae_size_bytes artifact)
             || (am_sha256 uploaded != ae_sha256 artifact))
      (lit "controller artifact receipt does not match uploaded bytes")).

(** ** Snapshots *)

(** The loop over [response.chunk()]: the bytes so far. *)
Fixpoint read_snapshot (size_bytes : N) (data : list N) (chunks : list (result ReqwestError (list N))) :
    result AnyError (list N) :=
  match chunks with
  | [] => Ok data
  | chunk :: chunks =>
      chunk ← context (lit "read snapshot body") (map_err from_reqwest chunk);
      let next := u64_saturating_add (byte_count data) (byte_count chunk) in
      reject_if ((size_bytes <? next)%N || (MAX_SNAPSHOT_ARCHIVE_BYTES <? next)%N)
        (anyhow (lit "snapshot response exceeded the assigned bound"));;
      read_snapshot size_bytes (data ++ chunk) chunks
  end.
Definition download_snapshot_once (session : RunSession) (digest : rstr) (size_bytes : N) : fallible (list N) :=
  sha ←? pure (context (lit "validate snapshot digest")
    (map_err (λ _, anyhow (lit "invalid")) (snapshot_digest_hex digest)));
  response ←? send (lit "download assigned snapshot") (HttpRequest.Source session sha);
  if negb (is_success (hr_status response)) then
    data ←? pure (bounded_body response); fail (http_status_error (hr_status response) data)
  else
    bail_if (is_none_or (hr_content_type response)
               (λ value, negb (is_some_and (head (split (chr ";") value))
                  (λ v, eq_ignore_ascii_case (trim v) SNAPSHOT_MEDIA_TYPE))))
      (lit "snapshot response has an invalid Content-Type") ;?
    bail_if (hr_content_length response != Some size_bytes)
      (lit "snapshot response Content-Length does not match assignment sizeBytes") ;?
    bail_if (hr_header response SHA256_HEADER != Some digest)
      (lit "snapshot response digest header does not match the assignment") ;?
    bail_if (hr_header response (lit "x-cyc-snapshot-version") != Some SNAPSHOT_API_VERSION)
      (lit "snapshot response protocol version is unsupported") ;?
    data ←? pure (read_snapshot size_bytes [] (hr_chunks response));
    bail_if (byte_count data != size_bytes)
      (lit "snapshot response ended before assignment sizeBytes") ;?
    bail_if (lit "sha256:" ++ sha256_hex data != digest)
      (lit "snapshot response bytes do not match the assigned digest") ;?
    done_ok data.
Definition download_snapshot (session : RunSession) (digest : rstr) (size_bytes : N) : fallible (list N) :=
  pure (validated (lit "validate snapshot digest") (validate_snapshot_digest digest)) ;?
  pure (validated (lit "validate snapshot size") (validate_snapshot_size size_bytes)) ;?
  with_retries (download_snapshot_once session digest size_bytes).

(** ** The log sink *)
Definition u64_wrapping_add (a b : N) : N := ((a + b) mod (u64_max + 1))%N.
Definition sink_offset (s : HttpLogSink) (stream : ProcessStream.t) : N :=
  match stream with ProcessStream.Stdout => sk_stdout_offset s | ProcessStream.Stderr => sk_stderr_offset s end.
Definition sink_chunks (s : HttpLogSink) (stream : ProcessStream.t) : N :=
  match stream with ProcessStream.Stdout => sk_stdout_chunks s | ProcessStream.Stderr => sk_stderr_chunks s end.
Definition sink_hasher (s : HttpLogSink) (stream : ProcessStream.t) : list N :=
  match stream with ProcessStream.Stdout => sk_stdout_hasher s | ProcessStream.Stderr => sk_stderr_hasher s end.
Definition sink_record (s : HttpLogSink) (chunk : OutputChunk) : HttpLogSink :=
  let n := byte_count (oc_bytes chunk) in
  match oc_stream chunk with
  | ProcessStream.Stdout =>
      {| sk_stdout_offset := u64_wrapping_add (sk_stdout_offset s) n; sk_stderr_offset := sk_stderr_offset s;
         sk_stdout_chunks := u64_wrapping_add (sk_stdout_chunks s) 1; sk_stderr_chunks := sk_stderr_chunks s;
         sk_stdout_hasher := sk_stdout_hasher s ++ oc_bytes chunk; sk_stderr_hasher := sk_stderr_hasher s |}
  | ProcessStream.Stderr =>
      {| sk_stdout_offset := sk_stdout_offset s; sk_stderr_offset := u64_wrapping_add (sk_stderr_offset s) n;
         sk_stdout_chunks := sk_stdout_chunks s; sk_stderr_chunks := u64_wrapping_add (sk_stderr_chunks s) 1;
         sk_stdout_hasher := sk_stdout_hasher s; sk_stderr_hasher := sk_stderr_hasher s ++ oc_bytes chunk |}
  end.
(** [HttpLogSink::upload] *)
Definition upload (session : RunSession) (chunk : OutputChunk) : fallible unit :=
  sink ← get_sink;
  upload_log session (oc_stream chunk) (sink_offset sink (oc_stream chunk)) (oc_bytes chunk) ;?
  (sink ← get_sink; put_sink (sink_record sink chunk);; done_ok tt).

Definition stream_evidence (s : HttpLogSink) (stream : ProcessStream.t) : io StreamEvidence :=
  truncated ← call (Op.LoadTruncated stream);
  mret {| st_byte_count := sink_offset s stream; st_sha256 := sha256_hex (sink_hasher s stream);
          st_truncated := truncated; st_chunk_count := sink_chunks s stream |}.
Definition streams : io RunStreamsEvidence :=
  s ← get_sink;
  stdout ← stream_evidence s ProcessStream.Stdout;
  stderr ← stream_evidence s ProcessStream.Stderr;
  mret {| rs_stdout := stdout; rs_stderr := stderr |}.
Definition last_sequence (s : HttpLogSink) : option N :=
  let count := u64_saturating_add (sk_stdout_chunks s) (sk_stderr_chunks s) in
  if count == 0%N then None else Some (count - 1)%N.
End client.
