(* ===== verification/WorkerProcess.v ===== *)
(** Running one managed process: [crates/cyc-worker/src/process.rs].

    [run_process] starts a child, drains its output through the log sink while a monitor
    waits for its end or for a reason to stop it, and reports how it ended.  The two
    readers of a child share one byte budget ([LogBudget]); the monitor proves that the
    process tree is empty before it returns.  The platform's process tree, the sandbox of
    isolation.rs and the child itself are operations of the environment. *)
From Stdlib Require Import ZArith NArith Lia String.
From stdpp Require Import base option list numbers sets gmap.
From S2P Require Import Prelude Text Crates Protocol PortablePath RunState JobSpec CanonicalJson WorkerReports WorkerRun Cleanup WorkerEnv WorkerClient.
Open Scope rust_scope.

Definition CANCEL_NONE : N := 0.
Definition CANCEL_REQUESTED : N := 1.
Definition CANCEL_LEASE_LOST : N := 2.
Definition CANCEL_TRANSPORT_FAILURE : N := 3.
Definition CANCEL_JOB_TIMEOUT : N := 4.

(** ** The log budget *)
Record LogBudget := {
  lb_remaining : N;
  lb_stdout_truncated : bool;
  lb_stderr_truncated : bool
}.
Definition LogBudget_new (max_bytes : N) : LogBudget :=
  {| lb_remaining := max_bytes; lb_stdout_truncated := false; lb_stderr_truncated := false |}.
Definition truncated (b : LogBudget) (stream : ProcessStream.t) : bool :=
  match stream with
  | ProcessStream.Stdout => lb_stdout_truncated b
  | ProcessStream.Stderr => lb_stderr_truncated b
  end.
Definition mark_truncated (stream : ProcessStream.t) (b : LogBudget) : LogBudget :=
  match stream with
  | ProcessStream.Stdout =>
      {| lb_remaining := lb_remaining b; lb_stdout_truncated := true;
         lb_stderr_truncated := lb_stderr_truncated b |}
  | ProcessStream.Stderr =>
      {| lb_remaining := lb_remaining b; lb_stdout_truncated := lb_stdout_truncated b;
         lb_stderr_truncated := true |}
  end.
(** The compare-and-exchange loop takes effect at its successful exchange. *)
Definition retain (stream : ProcessStream.t) (requested : N) (b : LogBudget) : N * LogBudget :=
  let retained := N.min (lb_remaining b) requested in
  let b := {| lb_remaining := lb_remaining b - retained; lb_stdout_truncated := lb_stdout_truncated b;
              lb_stderr_truncated := lb_stderr_truncated b |} in
  (retained, if retained != requested then mark_truncated stream b else b).

(** ** Readers

    The state of one reader task: what it stored and counted, and the bytes it hashed. *)
Record Reader := {
  re_stored : N;
  re_truncated : bool;
  re_chunks : N;
  re_hasher : list N
}.
Definition Reader_new : Reader :=
  {| re_stored := 0; re_truncated := false; re_chunks := 0; re_hasher := [] |}.
Definition READ_BUFFER : N := 64 * 1024.
(** One turn of the loop of [spawn_reader] after [reader.read] returned [data]. *)
Definition read_once (stream : ProcessStream.t) (data : list N) (b : LogBudget) (r : Reader) :
    LogBudget * Reader * option OutputChunk :=
  let count := N.of_nat (length data) in
  let '(retained, b) := retain stream count b in
  let kept := take (N.to_nat retained) data in
  let r' :=
    if (0 <? retained)%N then
      {| re_stored := re_stored r + retained; re_truncated := re_truncated r;
         re_chunks := re_chunks r + 1; re_hasher := re_hasher r ++ kept |}
    else r in
  (b, {| re_stored := re_stored r'; re_truncated := re_truncated r' || (retained != count);
         re_chunks := re_chunks r'; re_hasher := re_hasher r' |},
   if (0 <? retained)%N then Some {| oc_stream := stream; oc_bytes := kept |} else None).

(** Both readers of a child, in the order in which their reads reach the budget, and what
    they sent through the channel. *)
Record Drain := {
  dr_budget : LogBudget;
  dr_stdout : Reader;
  dr_stderr : Reader;
  dr_sent : list OutputChunk
}.
Definition reader_of (d : Drain) (stream : ProcessStream.t) : Reader :=
  match stream with ProcessStream.Stdout => dr_stdout d | ProcessStream.Stderr => dr_stderr d end.
Definition drain_step (d : Drain) (read : ProcessStream.t * list N) : Drain :=
  let '(stream, data) := read in
  let '(b, r, chunk) := read_once stream data (dr_budget d) (reader_of d stream) in
  let sent := dr_sent d ++ match chunk with Some c => [c] | None => [] end in
  match stream with
  | ProcessStream.Stdout => {| dr_budget := b; dr_stdout := r; dr_stderr := dr_stderr d; dr_sent := sent |}
  | ProcessStream.Stderr => {| dr_budget := b; dr_stdout := dr_stdout d; dr_stderr := r; dr_sent := sent |}
  end.
Definition drain (max_bytes : N) (reads : list (ProcessStream.t * list N)) : Drain :=
  foldl drain_step
    {| dr_budget := LogBudget_new max_bytes; dr_stdout := Reader_new; dr_stderr := Reader_new; dr_sent := [] |}
    reads.

(** ** Results *)
Module ProcessContainment.
Inductive t := ConfirmedEmpty | Unconfirmed.
#[export] Instance eq_dec : EqDecision t.
Proof. solve_decision. Defined.
End ProcessContainment.
Export (hints) ProcessContainment.
Record ProcessRunError := { pe_error : AnyError; pe_containment : ProcessContainment.t }.
Definition confirmed_empty (e : AnyError) : ProcessRunError :=
  {| pe_error := e; pe_containment := ProcessContainment.ConfirmedEmpty |}.
Definition unconfirmed (e : AnyError) : ProcessRunError :=
  {| pe_error := e; pe_containment := ProcessContainment.Unconfirmed |}.

Record ProcessStreamEvidence := {
  ps_byte_count : N; ps_sha256 : rstr; ps_truncated : bool; ps_chunk_count : N
}.
Definition stats_evidence (s : ReaderStats) : ProcessStreamEvidence :=
  {| ps_byte_count := rd_bytes s; ps_sha256 := rd_sha256 s; ps_truncated := rd_truncated s;
     ps_chunk_count := rd_chunks s |}.
Record ProcessResult := {
  pr_exit_code : option Z;
  pr_signal : option Z;
  pr_reason : ProcessTerminationReason.t;
  pr_stdout : ProcessStreamEvidence;
  pr_stderr : ProcessStreamEvidence;
  pr_process_tree_terminated : bool;
  pr_forced_kill : bool;
  pr_error : option rstr
}.
(** [ProcessResult::succeeded] *)
Definition process_succeeded (r : ProcessResult) : bool :=
  (pr_reason r == ProcessTerminationReason.Exited) && (pr_exit_code r == Some 0%Z)
  && pr_process_tree_terminated r && negb (pr_forced_kill r).

Record ProcessRequest := {
  pq_program : rstr;
  pq_arguments : list rstr;
  pq_cwd : Path;
  pq_timeout : N;
  pq_stdout_path : Path;
  pq_stderr_path : Path;
  pq_environment : list (rstr * rstr)
}.

(** ** The environment of a child *)
Definition to_ascii_uppercase (s : rstr) : rstr :=
  map (λ c, if is_ascii_lowercase c then c - 32 else c)%N s.
Fixpoint contains (pattern s : rstr) : bool :=
  starts_with pattern s || match s with [] => false | _ :: s => contains pattern s end.
Definition is_sensitive_environment_name (name : rstr) : bool :=
  let upper := to_ascii_uppercase name in
  existsb (λ p, starts_with p upper)
    [lit "CYC_"; lit "AWS_"; lit "AZURE_"; lit "GOOGLE_"; lit "GCP_"; lit "CLOUDSDK_"; lit "DOCKER_AUTH";
     lit "SSH_"; lit "GIT_ASKPASS"; lit "GITLAB_"]
  || existsb (λ p, contains p upper) [lit "TOKEN"; lit "PASSWORD"; lit "SECRET"; lit "CREDENTIAL"].
Definition request_environment_for_child (environment : list (rstr * rstr)) (hostile_mode : bool) :
    list (rstr * rstr) :=
  List.filter (λ e, negb hostile_mode || negb (is_sensitive_environment_name e.1)) environment.

Section process.
Context `{WireCrates, DigestCrate}.
Abbreviation fallible A := (io (result AnyError A)).
Abbreviation managed A := (io (result ProcessRunError A)).

(** ** The monitor

    The loops of the monitor carry fuel; [None] means that it was not enough. *)
Abbreviation bounded A := (io (option (result AnyError A))).
Definition returned {A} (r : result AnyError A) : bounded A := mret (Some r).
(** [let x = m?;] in a bounded loop *)
Definition or_return {A B} (m : fallible A) (k : A → bounded B) : bounded B :=
  r ← m; match r with Ok a => k a | Err e => returned (Err e) end.
(** A call of another bounded loop with [?] *)
Definition within {A B} (m : bounded A) (k : A → bounded B) : bounded B :=
  r ← m; match r with None => mret None | Some (Ok a) => k a | Some (Err e) => returned (Err e) end.

Definition TREE_EMPTY_QUIESCENCE : N := millis 100.
(** The inner loop of [wait_for_tree_empty]: whether the tree stayed empty. *)
Fixpoint stays_empty (fuel : nat) (quiescence_deadline : N) : bounded bool :=
  match fuel with
  | O => mret None
  | S fuel =>
      or_return (call Op.TreeIsEmpty) (λ empty : bool,
        if negb empty then returned (Ok false)
        else
          now ← call Op.Instant;
          if (quiescence_deadline <=? now)%N then returned (Ok true)
          else call (Op.Sleep (millis 10));; stays_empty fuel quiescence_deadline)
  end.
Fixpoint tree_empty_loop (fuel : nat) (deadline : N) : bounded bool :=
  match fuel with
  | O => mret None
  | S fuel =>
      or_return (call Op.TreeIsEmpty) (λ empty : bool,
        let retry : bounded bool :=
          now ← call Op.Instant;
          if (deadline <=? now)%N then returned (Ok false)
          else call (Op.Sleep (millis 50));; tree_empty_loop fuel deadline in
        if empty then
          now ← call Op.Instant;
          within (stays_empty fuel (now + TREE_EMPTY_QUIESCENCE)) (λ stayed : bool,
            if stayed then returned (Ok true) else retry)
        else retry)
  end.
Definition wait_for_tree_empty (fuel : nat) (timeout : N) : bounded bool :=
  now ← call Op.Instant;
  tree_empty_loop fuel (now + timeout).

Definition still_alive : AnyError := anyhow (lit "process tree remained alive after forced termination").
Definition cleanup_after_root_exit (fuel : nat) : bounded bool :=
  within (wait_for_tree_empty fuel TREE_EMPTY_QUIESCENCE) (λ empty : bool,
    if empty then returned (Ok false) else
    or_return (call Op.TreeTerminate) (λ _,
    within (wait_for_tree_empty fuel (millis 3000)) (λ empty : bool,
      if empty then returned (Ok false) else
      or_return (call Op.TreeForceKill) (λ _,
      within (wait_for_tree_empty fuel (millis 3000)) (λ empty : bool,
        if empty then returned (Ok true) else returned (Err still_alive)))))).

(** One of the two loops of [wait_after_termination]: the status seen so far, and
    whether the root was reaped and the tree found empty before the deadline. *)
Fixpoint reap_loop (fuel : nat) (message : rstr) (deadline : N) (status : option ExitStatus) :
    bounded (option ExitStatus * bool) :=
  match fuel with
  | O => mret None
  | S fuel =>
      let polled : fallible (option ExitStatus) :=
        match status with
        | None => call_any message Op.TryWait
        | Some status => done_ok (Some status)
        end in
      or_return polled (λ status,
        let emptied : fallible bool :=
          match status with Some _ => call Op.TreeIsEmpty | None => done_ok false end in
        or_return emptied (λ empty : bool,
          if empty then returned (Ok (status, true))
          else
            now ← call Op.Instant;
            if (deadline <=? now)%N then returned (Ok (status, false))
            else call (Op.Sleep (millis 50));; reap_loop fuel message deadline status))
  end.
Definition wait_after_termination (fuel : nat) : bounded (ExitStatus * bool) :=
  now ← call Op.Instant;
  within (reap_loop fuel (lit "wait after tree termination") (now + millis 3000) None) (λ '(status, gone),
    match status, gone with
    | Some status, true => returned (Ok (status, false))
    | _, _ =>
        or_return (call Op.TreeForceKill) (λ _,
        now ← call Op.Instant;
        within (reap_loop fuel (lit "wait after forced tree termination") (now + millis 3000) status)
          (λ '(status, gone),
            match status, gone with
            | Some status, true => returned (Ok (status, true))
            | _, _ => returned (Err still_alive)
            end))
    end).

(** The reason to stop a child, if there is one. *)
Definition stop_reason (signal : N) (expired : bool) : option ProcessTerminationReason.t :=
  if signal == CANCEL_REQUESTED then Some ProcessTerminationReason.CancelRequested
  else if signal == CANCEL_LEASE_LOST then Some ProcessTerminationReason.LeaseLost
  else if signal == CANCEL_TRANSPORT_FAILURE then Some ProcessTerminationReason.TransportFailure
  else if signal == CANCEL_JOB_TIMEOUT then Some ProcessTerminationReason.TimedOut
  else if expired then Some ProcessTerminationReason.TimedOut else None.
(** [Instant::now()] is only evaluated when no signal decides. *)
Definition signalled (signal : N) : bool := is_some (stop_reason signal false).
Fixpoint monitor_loop (fuel : nat) (deadline : N) : bounded MonitorResult :=
  match fuel with
  | O => mret None
  | S fuel' =>
      or_return (call Op.TreeObserve) (λ _,
      or_return (call_any (lit "poll child process") Op.TryWait) (λ status,
        match status with
        | Some status =>
            within (cleanup_after_root_exit fuel) (λ forced_kill,
              returned (Ok {| mr_status := status; mr_reason := ProcessTerminationReason.Exited;
                              mr_process_tree_terminated := true; mr_forced_kill := forced_kill |}))
        | None =>
            signal ← call Op.LoadCancellation;
            expired ← (if signalled signal then mret false
                       else now ← call Op.Instant; mret (deadline <=? now)%N);
            match stop_reason signal expired with
            | Some reason =>
                or_return (call Op.TreeTerminate) (λ _,
                within (wait_after_termination fuel) (λ '(status, forced_kill),
                  returned (Ok {| mr_status := status; mr_reason := reason;
                                  mr_process_tree_terminated := true; mr_forced_kill := forced_kill |})))
            | None => call (Op.Sleep (millis 20));; monitor_loop fuel' deadline
            end
        end))
  end.
Definition monitor_child (fuel : nat) (timeout : N) : bounded MonitorResult :=
  now ← call Op.Instant;
  monitor_loop fuel (now + timeout).

(** ** A managed process *)

(** A step that fails while no process exists, or while one may. *)
Definition or_empty {A} (m : fallible A) : managed A := r ← m; mret (map_err confirmed_empty r).
Definition or_unconfirmed {A} (m : fallible A) : managed A := r ← m; mret (map_err unconfirmed r).

Definition empty_stream : ProcessStreamEvidence :=
  {| ps_byte_count := 0; ps_sha256 := sha256_hex []; ps_truncated := false; ps_chunk_count := 0 |}.
Definition not_started (e : AnyError) : ProcessResult :=
  {| pr_exit_code := None; pr_signal := None; pr_reason := ProcessTerminationReason.ExecutionFailed;
     pr_stdout := empty_stream; pr_stderr := empty_stream; pr_process_tree_terminated := true;
     pr_forced_kill := false; pr_error := Some (lit "process did not start: " ++ ae_text e) |}.

Definition open_log_file_no_follow (path : Path) : fallible unit :=
  metadata ←? call_io (lit "open log without following links " ++ path_display path) (Op.OpenLog path);
  bail_if (negb (md_is_file metadata) || md_is_reparse metadata)
    (lit "log destination is not a regular non-link file: " ++ path_display path).
Definition create_log_parent (name : rstr) (path : Path) : fallible unit :=
  parent ←? pure (ok_or (path_parent path) (anyhow (name ++ lit " log must have a parent")));
  call_io (lit "create " ++ name ++ lit " log directory") (Op.CreateDirAll parent).

(** The [select!] loop: the outcomes so far.  An upload that fails cancels the run. *)
Fixpoint pump (session : RunSession) (events : list SelectEvent.t) (wait_result : option MonitorResult)
    (upload_error : option AnyError) : managed (option MonitorResult * option AnyError) :=
  match events with
  | [] => done_ok (wait_result, upload_error)
  | SelectEvent.Waited (Ok r) :: events => pump session events (Some r) upload_error
  | SelectEvent.Waited (Err e) :: _ => fail (unconfirmed e)
  | SelectEvent.Received chunk :: events =>
      match upload_error with
      | Some _ => pump session events wait_result upload_error
      | None =>
          r ← upload session chunk;
          match r with
          | Ok _ => pump session events wait_result None
          | Err e =>
              call (Op.StoreCancellation CANCEL_TRANSPORT_FAILURE);;
              pump session events wait_result (Some e)
          end
      end
  | SelectEvent.ChannelClosed :: events =>
      if is_some wait_result then done_ok (wait_result, upload_error)
      else pump session events wait_result upload_error
  end.

Definition run_process (session : RunSession) (request : ProcessRequest) : managed ProcessResult :=
  or_empty (bail_if (pq_timeout request == 0%N) (lit "process timeout must be greater than zero")) ;?
  or_empty (create_log_parent (lit "stdout") (pq_stdout_path request)) ;?
  or_empty (create_log_parent (lit "stderr") (pq_stderr_path request)) ;?
  or_empty (r ← open_log_file_no_follow (pq_stdout_path request);
    mret (context (lit "prepare stdout log " ++ path_display (pq_stdout_path request)) r)) ;?
  or_empty (r ← open_log_file_no_follow (pq_stderr_path request);
    mret (context (lit "prepare stderr log " ++ path_display (pq_stderr_path request)) r)) ;?
  or_empty (call_any (lit "secure process-tree containment is unavailable")
    (Op.HostCheck (lit "ensure_process_containment_available"))) ;?
  or_empty (call_any (lit "capture process-tree containment baseline")
    (Op.HostCheck (lit "capture_containment_seed"))) ;?
  hostile ←? or_empty (call_any (lit "load opt-in hostile-workload isolation policy") Op.HostileIsolationEnabled);
  launch ←? or_empty (call_any (lit "prepare hostile-workload launch")
    (Op.LaunchSpec (pq_program request) (pq_arguments request) (pq_cwd request) (pq_stdout_path request)));
  or_empty (call (Op.HostCheck (lit "configure_process_group"))) ;?
  or_empty (call_any (lit "configure hostile-workload process identity and external containment")
    (Op.HostCheck (lit "configure_command"))) ;?
  spawned ← call_any (lit "spawn process `" ++ pq_program request ++ lit "` in " ++ path_display (pq_cwd request))
    (Op.Spawn launch (pq_cwd request) (request_environment_for_child (pq_environment request) hostile));
  match spawned with
  | Err e =>
      or_unconfirmed (call_any (lit "verify hostile containment after failed spawn")
        (Op.HostCheck (lit "verify_after_process"))) ;?
      or_empty (call_io (lit "flush empty stdout log") (Op.SyncAll (pq_stdout_path request))) ;?
      or_empty (call_io (lit "flush empty stderr log") (Op.SyncAll (pq_stderr_path request))) ;?
      done_ok (not_started e)
  | Ok _ =>
      attached ← call_any (lit "secure process-tree containment failed") (Op.HostCheck (lit "attach"));
      match attached with
      | Err e => call Op.KillChild;; fail (unconfirmed e)
      | Ok _ =>
          events ← call Op.Select;
          '(wait_result, upload_error) ←? pump session events None None;
          stdout_stats ←? or_unconfirmed (call (Op.JoinReader ProcessStream.Stdout));
          stderr_stats ←? or_unconfirmed (call (Op.JoinReader ProcessStream.Stderr));
          monitored ←? pure (ok_or wait_result (unconfirmed (anyhow (lit "process monitor returned no result"))));
          or_unconfirmed (call_any (lit "external hostile-workload containment did not reconcile empty")
            (Op.HostCheck (lit "verify_after_process"))) ;?
          done_ok
            {| pr_exit_code := es_code (mr_status monitored); pr_signal := es_signal (mr_status monitored);
               pr_reason := if is_some upload_error then ProcessTerminationReason.TransportFailure
                            else mr_reason monitored;
               pr_stdout := stats_evidence stdout_stats; pr_stderr := stats_evidence stderr_stats;
               pr_process_tree_terminated := mr_process_tree_terminated monitored;
               pr_forced_kill := mr_forced_kill monitored;
               pr_error := (λ e, lit "upload process log chunk: " ++ ae_text e) <$> upload_error |}
      end
  end.
End process.
