(* ===== verification/WorkerSource.v ===== *)
(** Preparing the source of a run: [crates/cyc-worker/src/source.rs] as built for Unix.

    [prepare_job] creates the directories of a run below the workspace and fills the
    source directory from an exact Git commit or from a snapshot archive.  Every failure
    says whether the managed Git processes are known to be gone
    ([SourceContainment]). *)
From Stdlib Require Import ZArith NArith Lia String.
From stdpp Require Import base option list numbers sets gmap.
From S2P Require Import Prelude Text Crates Protocol PortablePath Snapshot RunState JobSpec CanonicalJson WorkerReports WorkerRun Cleanup WorkerEnv WorkerClient WorkerProcess.
Open Scope rust_scope.

Definition MAX_SNAPSHOT_ENTRIES : N := 10000.
Definition MAX_SNAPSHOT_FILE_BYTES : N := 64 * 1024 * 1024.
Definition MAX_SNAPSHOT_EXPANDED_BYTES : N := 512 * 1024 * 1024.
Definition MAX_SNAPSHOT_PATH_BYTES : N := 1024.
Definition SNAPSHOT_TAR_OVERHEAD_BYTES : N := MAX_SNAPSHOT_ENTRIES * 2048 + 2 * 1024 * 1024.

Record SourceEvidence := {
  so_kind : rstr;
  so_repository : rstr;
  so_requested_revision : rstr;
  so_resolved_revision : rstr;
  so_tree : rstr;
  so_git_version : rstr
}.
Record ConfirmedSourceTermination := {
  cs_reason : option ProcessTerminationReason.t;
  cs_forced_kill : bool;
  cs_root_exit_code : option Z;
  cs_signal : option Z
}.
Module SourceContainment.
Inductive t := Confirmed (confirmed : ConfirmedSourceTermination) | Unconfirmed.
End SourceContainment.
Record PrepareJobError := { pj_error : AnyError; pj_containment : SourceContainment.t }.
Record PreparedJob := {
  pd_job_id : Uuid;
  pd_run_id : Uuid;
  pd_root : Path;
  pd_repository : Path;
  pd_scripts : Path;
  pd_logs : Path;
  pd_artifacts : Path;
  pd_source : SourceEvidence
}.

Definition nothing_started : ConfirmedSourceTermination :=
  {| cs_reason := None; cs_forced_kill := false; cs_root_exit_code := None; cs_signal := None |}.
(** [PrepareJobError::confirmed_empty] *)
Definition source_confirmed_empty (e : AnyError) : PrepareJobError :=
  {| pj_error := e; pj_containment := SourceContainment.Confirmed nothing_started |}.
Definition from_process_error (e : ProcessRunError) : PrepareJobError :=
  {| pj_error := pe_error e;
     pj_containment :=
       match pe_containment e with
       | ProcessContainment.ConfirmedEmpty => SourceContainment.Confirmed nothing_started
       | ProcessContainment.Unconfirmed => SourceContainment.Unconfirmed
       end |}.

(** [{:?}] of an optional code and of a reason *)
Definition debug_code (code : option Z) : rstr :=
  match code with Some c => lit "Some(" ++ fmt_Z c ++ lit ")" | None => lit "None" end.
Definition debug_reason (r : ProcessTerminationReason.t) : rstr :=
  match r with
  | ProcessTerminationReason.Exited => lit "Exited"
  | ProcessTerminationReason.ExecutionFailed => lit "ExecutionFailed"
  | ProcessTerminationReason.TimedOut => lit "TimedOut"
  | ProcessTerminationReason.CancelRequested => lit "CancelRequested"
  | ProcessTerminationReason.LeaseLost => lit "LeaseLost"
  | ProcessTerminationReason.TransportFailure => lit "TransportFailure"
  end.
Definition from_process_result (label : rstr) (r : ProcessResult) : PrepareJobError :=
  {| pj_error := anyhow (lit "protected Git " ++ label ++ lit " failed: exit=" ++ debug_code (pr_exit_code r)
       ++ lit ", reason=" ++ debug_reason (pr_reason r) ++ lit ", detail="
       ++ unwrap_or (pr_error r) (lit "no additional detail"));
     pj_containment :=
       if pr_process_tree_terminated r then
         SourceContainment.Confirmed
           {| cs_reason := Some (pr_reason r); cs_forced_kill := pr_forced_kill r;
              cs_root_exit_code := pr_exit_code r; cs_signal := pr_signal r |}
       else SourceContainment.Unconfirmed |}.
Definition append_context (message : rstr) (e : PrepareJobError) : PrepareJobError :=
  {| pj_error := with_context message (pj_error e); pj_containment := pj_containment e |}.

(** [url::Url::parse] as far as the checks ask. *)
Record Url := {
  url_scheme : rstr; url_host : option rstr; url_username : rstr; url_password : option rstr;
  url_fragment : option rstr
}.
(** The crates [url] and [serde_json] and the Unicode tables behind
    [str::to_lowercase]. *)
Class SourceCrates := {
  parse_url : rstr → option Url;
  to_lowercase : rstr → rstr;
  manifest_json : Uuid → Uuid → SourceEvidence → result rstr (list N);
  failure_json : Uuid → Uuid → rstr → result rstr (list N)
}.

(** ** Checks *)
Definition validate_full_oid (revision : rstr) : result AnyError unit :=
  reject_if (negb ((len revision == 40%N) || (len revision == 64%N))
             || negb (forallb is_lower_hex (bytes revision)))
    (anyhow (lit "Git revision must be an exact full 40- or 64-hex object ID")).
Definition join_portable (root : Path) (relative : rstr) : Path :=
  root ++ List.filter (λ segment, negb (is_empty segment)) (split SLASH relative).

Definition matches_snapshot_numbered_device (value prefix : rstr) : bool :=
  match strip_prefix prefix value with
  | Some [c] => between 49 57 c
  | _ => false
  end.
Definition validate_snapshot_segment (segment : rstr) : result AnyError unit :=
  reject_if ((255 <? len segment)%N || ends_with (lit ".") segment || ends_with (lit " ") segment
             || existsb (λ c, bool_decide (c ∈ [58; 42; 63; 34; 60; 62; 124]%N)) segment)
    (anyhow (lit "snapshot path contains a non-portable filesystem component"));;
  let stem := to_ascii_uppercase (unwrap_or (head (split (chr ".") segment)) segment) in
  reject_if (bool_decide (stem ∈ [lit "CON"; lit "PRN"; lit "AUX"; lit "NUL"; lit "CONIN$"; lit "CONOUT$"])
             || matches_snapshot_numbered_device stem (lit "COM")
             || matches_snapshot_numbered_device stem (lit "LPT"))
    (anyhow (lit "snapshot path contains a reserved filesystem device name")).

Section source.
Context `{WireCrates, DigestCrate, UuidCrate, SourceCrates}.
Abbreviation fallible A := (io (result AnyError A)).
Abbreviation prepares A := (io (result PrepareJobError A)).

Definition validate_repository (remote : rstr) (allow_local_fixture : bool) : result AnyError unit :=
  if allow_local_fixture then Ok tt
  else
    url ← ok_or (parse_url remote) (anyhow (lit "Git repository must be an absolute HTTPS URL"));
    reject_if ((url_scheme url != lit "https") || is_none (url_host url) || (url_username url != [])
               || is_some (url_password url) || is_some (url_fragment url))
      (anyhow (lit "Git repository must be HTTPS and contain no embedded credentials or fragment")).

(** The loop of [validate_snapshot_path] over the segments: every prefix of the path is
    registered under its folded spelling. *)
Fixpoint fold_prefixes (case_paths : gmap rstr rstr) (prefix : rstr) (segments : list rstr) :
    result AnyError (gmap rstr rstr) :=
  match segments with
  | [] => Ok case_paths
  | segment :: segments =>
      validate_snapshot_segment segment;;
      reject_if (eq_ignore_ascii_case segment (lit ".git"))
        (anyhow (lit "snapshot archive may not contain .git metadata"));;
      let prefix := (if is_empty prefix then prefix else prefix ++ [SLASH]) ++ segment in
      let folded := to_lowercase prefix in
      case_paths ←
        match case_paths !! folded with
        | Some existing =>
            reject_if (existing != prefix) (anyhow (lit "snapshot archive contains a case-colliding path"));;
            Ok case_paths
        | None => Ok (<[folded := prefix]> case_paths)
        end;
      fold_prefixes case_paths prefix segments
  end.
Definition validate_snapshot_path (path : rstr) (explicit_paths : gset rstr) (case_paths : gmap rstr rstr) :
    result AnyError (gset rstr * gmap rstr rstr) :=
  context (lit "validate portable snapshot path")
    (map_err (λ e, anyhow (PortablePathError.display e)) (validate_portable_relative_path path));;
  reject_if ((MAX_SNAPSHOT_PATH_BYTES <? len path)%N || has_control path)
    (anyhow (lit "snapshot path is empty, oversized, or contains a control character"));;
  reject_if (bool_decide (path ∈ explicit_paths)) (anyhow (lit "snapshot archive contains a duplicate path"));;
  case_paths ← fold_prefixes case_paths [] (split SLASH path);
  Ok ({[path]} ∪ explicit_paths, case_paths).

(** ** Files *)
Definition path_entry_exists (path : Path) : fallible bool :=
  r ← call (Op.SymlinkMetadata path);
  match r with
  | Ok _ => done_ok true
  | Err e =>
      if io_not_found e then done_ok false
      else fail (with_context (lit "inspect path entry " ++ path_display path) (from_io e))
  end.
Definition direct_directory (m : Metadata) : bool :=
  md_is_dir m && negb (md_is_symlink m) && negb (md_is_reparse m).
Definition require_direct_directory (path : Path) : fallible unit :=
  metadata ←? call_io (lit "inspect snapshot directory " ++ path_display path) (Op.SymlinkMetadata path);
  bail_if (negb (direct_directory metadata)) (lit "snapshot extraction path is not a direct directory").
Definition set_snapshot_directory_permissions (path : Path) : fallible unit :=
  call_io (lit "normalize snapshot directory mode") (Op.SetPermissions path 493).
Definition set_snapshot_file_permissions (path : Path) : fallible unit :=
  call_io (lit "normalize snapshot file mode") (Op.SetPermissions path 420).

(** The loop of [ensure_snapshot_parents]: all segments but the last are directories. *)
Fixpoint ensure_parents (destination : Path) (segments : list rstr) : fallible Path :=
  match segments with
  | [] => done_ok destination
  | [segment] => done_ok (path_join destination segment)
  | segment :: segments =>
      let destination := path_join destination segment in
      r ← call (Op.SymlinkMetadata destination);
      match r with
      | Ok metadata =>
          bail_if (negb (direct_directory metadata))
            (lit "snapshot parent conflicts with a non-directory entry") ;?
          ensure_parents destination segments
      | Err e =>
          if io_not_found e then
            call_io (lit "create snapshot parent " ++ path_display destination) (Op.CreateDir destination) ;?
            set_snapshot_directory_permissions destination ;?
            ensure_parents destination segments
          else fail (with_context (lit "inspect snapshot parent") (from_io e))
      end
  end.
Definition ensure_snapshot_parents (root : Path) (portable : rstr) : fallible Path :=
  require_direct_directory root ;?
  ensure_parents root (split SLASH portable).
Definition create_snapshot_directory (root : Path) (portable : rstr) : fallible unit :=
  destination ←? ensure_snapshot_parents root portable;
  r ← call (Op.SymlinkMetadata destination);
  (match r with
   | Ok metadata =>
       bail_if (negb (direct_directory metadata))
         (lit "snapshot directory conflicts with an existing non-directory entry")
   | Err e =>
       if io_not_found e then call_io (lit "create snapshot directory entry") (Op.CreateDir destination)
       else fail (with_context (lit "inspect snapshot directory entry") (from_io e))
   end) ;?
  set_snapshot_directory_permissions destination.
Definition install_snapshot_file (root : Path) (portable : rstr) (index declared_size : N) : fallible unit :=
  destination ←? ensure_snapshot_parents root portable;
  exists_ ←? path_entry_exists destination;
  bail_if exists_ (lit "snapshot file conflicts with an existing path") ;?
  parent ←? pure (ok_or (path_parent destination) (anyhow (lit "snapshot file must have a parent")));
  require_direct_directory parent ;?
  (id ← call Op.NewUuid;
   let temporary := path_join parent (lit ".snapshot-file-" ++ uuid_display id ++ lit ".tmp") in
   write_result ←
     (call_io (lit "create snapshot temporary file") (Op.CreateNew temporary 384) ;?
      copied ←? call_io (lit "extract snapshot regular file") (Op.CopyEntry index temporary);
      bail_if (copied != declared_size)
        (lit "snapshot regular-file payload length differs from its tar header") ;?
      call_io (lit "flush extracted snapshot file") (Op.SyncAll temporary) ;?
      set_snapshot_file_permissions temporary ;?
      exists_ ←? path_entry_exists destination;
      bail_if exists_ (lit "snapshot destination appeared concurrently") ;?
      call_io (lit "atomically install extracted snapshot file") (Op.HardLink temporary destination) ;?
      call_io (lit "remove installed snapshot temporary file") (Op.RemoveFile temporary));
   match write_result with
   | Ok _ => done_ok tt
   | Err e => call (Op.RemoveFile temporary);; fail e
   end).

(** ** Snapshots *)

(** The loop over the entries of the archive. *)
Record Extraction := {
  xt_explicit_paths : gset rstr;
  xt_case_paths : gmap rstr rstr;
  xt_entry_count : N;
  xt_expanded_bytes : N
}.
Definition Extraction_new : Extraction :=
  {| xt_explicit_paths := ∅; xt_case_paths := ∅; xt_entry_count := 0; xt_expanded_bytes := 0 |}.
Definition u64_checked_add (a b : N) : option N := if (a + b <=? u64_max)%N then Some (a + b)%N else None.
Definition extract_entry (staging : Path) (x : Extraction) (entry : result AnyError TarEntry) :
    fallible Extraction :=
  entry ←? pure (context (lit "read snapshot tar entry") entry);
  let entry_count := u64_saturating_add (xt_entry_count x) 1 in
  bail_if (MAX_SNAPSHOT_ENTRIES <? entry_count)%N (lit "snapshot archive exceeds the entry-count limit") ;?
  portable ←? pure (context (lit "decode snapshot entry path") (te_path entry));
  '(explicit_paths, case_paths) ←?
    pure (validate_snapshot_path portable (xt_explicit_paths x) (xt_case_paths x));
  declared_size ←? pure (context (lit "read snapshot entry size") (te_size entry));
  let next expanded_bytes :=
    {| xt_explicit_paths := explicit_paths; xt_case_paths := case_paths; xt_entry_count := entry_count;
       xt_expanded_bytes := expanded_bytes |} in
  if te_is_dir entry then
    bail_if (declared_size != 0%N) (lit "snapshot directory entries must have zero size") ;?
    create_snapshot_directory staging portable ;?
    done_ok (next (xt_expanded_bytes x))
  else if te_is_file entry then
    bail_if (MAX_SNAPSHOT_FILE_BYTES <? declared_size)%N
      (lit "snapshot regular file exceeds the per-file limit") ;?
    expanded_bytes ←? pure (ok_or (u64_checked_add (xt_expanded_bytes x) declared_size)
      (anyhow (lit "snapshot expanded-size overflow")));
    bail_if (MAX_SNAPSHOT_EXPANDED_BYTES <? expanded_bytes)%N
      (lit "snapshot archive exceeds the expanded-size limit") ;?
    install_snapshot_file staging portable entry_count declared_size ;?
    done_ok (next expanded_bytes)
  else bail (lit "snapshot archive entry `" ++ portable
         ++ lit "` has a forbidden link, device, FIFO, or extension type").
Fixpoint extract_entries (staging : Path) (x : Extraction) (entries : list (result AnyError TarEntry)) :
    fallible Extraction :=
  match entries with
  | [] => done_ok x
  | entry :: entries => x ←? extract_entry staging x entry; extract_entries staging x entries
  end.

Definition remove_owned_snapshot_staging (parent staging : Path) : io unit :=
  let owned_name := is_some_and (last staging) (starts_with (lit ".snapshot-extract-")) in
  if owned_name && (path_parent staging == Some parent)
  then call (Op.RemoveDirAll staging);; mret tt
  else mret tt.

Definition extract_snapshot_archive (digest : rstr) (size_bytes : N) (archive_bytes : list N)
    (destination : Path) : fallible SourceEvidence :=
  pure (validated (lit "validate snapshot digest") (validate_snapshot_digest digest)) ;?
  pure (validated (lit "validate snapshot sizeBytes") (validate_snapshot_size size_bytes)) ;?
  let actual_size := byte_count archive_bytes in
  bail_if ((actual_size != size_bytes) || (MAX_SNAPSHOT_ARCHIVE_BYTES <? actual_size)%N)
    (lit "snapshot archive size does not match sizeBytes") ;?
  bail_if (lit "sha256:" ++ sha256_hex archive_bytes != digest)
    (lit "snapshot archive bytes do not match the assigned digest") ;?
  exists_ ←? path_entry_exists destination;
  bail_if exists_ (lit "snapshot destination already exists and is never reused") ;?
  parent ←? pure (ok_or (path_parent destination)
    (anyhow (lit "snapshot destination must have a job-owned parent")));
  require_direct_directory parent ;?
  (id ← call Op.NewUuid;
   let staging := path_join parent (lit ".snapshot-extract-" ++ uuid_display id) in
   call_io (lit "create fresh snapshot staging directory") (Op.CreateDir staging) ;?
   require_direct_directory staging ;?
   (extraction ←
      (entries ←? call (Op.ArchiveEntries archive_bytes
         (u64_saturating_add MAX_SNAPSHOT_EXPANDED_BYTES SNAPSHOT_TAR_OVERHEAD_BYTES));
       extract_entries staging Extraction_new entries);
    match extraction with
    | Err e => remove_owned_snapshot_staging parent staging;; fail e
    | Ok _ =>
        exists_ ←? path_entry_exists destination;
        if exists_ : bool then
          remove_owned_snapshot_staging parent staging;;
          bail (lit "snapshot destination appeared concurrently and will not be replaced")
        else
          call_io (lit "atomically install extracted snapshot tree") (Op.Rename staging destination) ;?
          require_direct_directory destination ;?
          done_ok
            {| so_kind := lit "snapshot"; so_repository := lit "snapshot"; so_requested_revision := digest;
               so_resolved_revision := digest; so_tree := digest; so_git_version := lit "not-applicable" |}
    end)).

(** ** Git *)
Definition or_source {A} (m : fallible A) : prepares A := r ← m; mret (map_err source_confirmed_empty r).
Definition read_single_line (path : Path) : fallible rstr :=
  value ←? call_io (lit "read Git evidence " ++ path_display path) (Op.ReadToString path);
  let value := trim value in
  bail_if (is_empty value || contains_char 13%N value || contains_char 10%N value)
    (lit "Git evidence is empty or contains multiple lines") ;?
  done_ok value.
Definition git_log (logs : Path) (label stream : rstr) : Path :=
  path_join logs (lit "git-" ++ label ++ lit "." ++ stream ++ lit ".log").
(** Outside Windows [external_tool_path] is the identity. *)
Definition protected_arguments (empty_hooks : Path) (allow_local_fixture : bool) : list rstr :=
  [lit "-c"; lit "credential.helper="; lit "-c"; lit "core.hooksPath=" ++ path_display empty_hooks;
   lit "-c"; lit "protocol.allow=never"; lit "-c"; lit "protocol.https.allow=always";
   lit "-c"; lit "protocol.ext.allow=never"; lit "-c"; lit "filter.lfs.clean=";
   lit "-c"; lit "filter.lfs.smudge="; lit "-c"; lit "filter.lfs.process=";
   lit "-c"; lit "filter.lfs.required=false"]
  ++ (if allow_local_fixture then [lit "-c"; lit "protocol.file.allow=always"]
      else [lit "-c"; lit "protocol.file.allow=never"]).
Definition git_environment (isolated_home : Path) : list (rstr * rstr) :=
  let home := path_display isolated_home in
  let config := path_display (path_join isolated_home (lit ".gitconfig")) in
  [(lit "GIT_TERMINAL_PROMPT", lit "0"); (lit "GCM_INTERACTIVE", lit "Never");
   (lit "GIT_CONFIG_NOSYSTEM", lit "1"); (lit "GIT_ATTR_NOSYSTEM", lit "1");
   (lit "GIT_CONFIG_GLOBAL", config); (lit "GIT_CONFIG_SYSTEM", config);
   (lit "GIT_LFS_SKIP_SMUDGE", lit "1"); (lit "HOME", home); (lit "XDG_CONFIG_HOME", home)].
Definition run_git (session : RunSession) (repository logs : Path) (label : rstr) (arguments : list rstr)
    (empty_hooks : Path) (allow_local_fixture : bool) : prepares unit :=
  isolation_root ←? or_source (pure (ok_or (path_parent empty_hooks)
    (anyhow (lit "Git hooks directory must have a parent"))));
  r ← run_process session
    {| pq_program := lit "git";
       pq_arguments := protected_arguments empty_hooks allow_local_fixture ++ arguments;
       pq_cwd := repository; pq_timeout := millis 300000;
       pq_stdout_path := git_log logs label (lit "stdout"); pq_stderr_path := git_log logs label (lit "stderr");
       pq_environment := git_environment (path_join isolation_root (lit "git-home")) |};
  result ←? pure (map_err from_process_error r);
  if process_succeeded result then done_ok tt else fail (from_process_result label result).

(** [allow_local_fixture] is [false] outside the tests. *)
Definition checkout_git (session : RunSession) (remote revision : rstr) (repository logs : Path) :
    prepares SourceEvidence :=
  or_source (pure (validate_full_oid revision)) ;?
  or_source (pure (validate_repository remote false)) ;?
  parent ←? or_source (pure (ok_or (path_parent repository) (anyhow (lit "repository must have a parent"))));
  let empty_hooks := path_join parent (lit "empty-hooks") in
  or_source (call_io (lit "create empty Git hooks directory") (Op.CreateDir empty_hooks)) ;?
  let isolated_home := path_join parent (lit "git-home") in
  or_source (call_io (lit "create isolated Git home") (Op.CreateDir isolated_home)) ;?
  or_source (call_io (lit "create empty global Git config")
    (Op.WriteFile (path_join isolated_home (lit ".gitconfig")) [])) ;?
  let git label arguments := run_git session repository logs label arguments empty_hooks false in
  git (lit "version") [lit "--version"] ;?
  git_version ←? or_source (read_single_line (git_log logs (lit "version") (lit "stdout")));
  git (lit "init") [lit "init"; lit "--quiet"; lit "."] ;?
  git (lit "remote") [lit "remote"; lit "add"; lit "origin"; remote] ;?
  git (lit "fetch") [lit "fetch"; lit "--quiet"; lit "--no-tags"; lit "--depth=1"; lit "origin"; revision] ;?
  git (lit "checkout") [lit "checkout"; lit "--quiet"; lit "--detach"; lit "FETCH_HEAD"] ;?
  git (lit "head") [lit "rev-parse"; lit "HEAD"] ;?
  resolved ←? or_source (read_single_line (git_log logs (lit "head") (lit "stdout")));
  or_source (bail_if (resolved != revision)
    (lit "Git HEAD mismatch: requested " ++ revision ++ lit ", resolved " ++ resolved)) ;?
  git (lit "tree") [lit "rev-parse"; lit "HEAD^{tree}"] ;?
  tree ←? or_source (read_single_line (git_log logs (lit "tree") (lit "stdout")));
  or_source (pure (context (lit "validate resolved Git tree OID") (validate_full_oid tree))) ;?
  done_ok
    {| so_kind := lit "git"; so_repository := remote; so_requested_revision := to_ascii_lowercase revision;
       so_resolved_revision := to_ascii_lowercase resolved; so_tree := to_ascii_lowercase tree;
       so_git_version := git_version |}.

(** ** The directories of a run *)

(** [path.with_extension("json.tmp")] of a file named [<name>.json] *)
Definition write_json_atomic (directory : Path) (name : rstr) (json : result rstr (list N)) : fallible unit :=
  data ←? pure (context (lit "serialize job evidence") (map_err anyhow json));
  let path := path_join directory (name ++ lit ".json") in
  let temporary := path_join directory (name ++ lit ".json.tmp") in
  call_io (lit "write temporary evidence " ++ path_display temporary) (Op.WriteFile temporary data) ;?
  call_io (lit "install evidence " ++ path_display path) (Op.Rename temporary path).
Definition write_failure_result (root : Path) (job_id run_id : Uuid) (e : PrepareJobError) : fallible unit :=
  write_json_atomic root (lit "result") (failure_json job_id run_id (ae_text (pj_error e))).

Fixpoint create_job_directories (canonical_root : Path) (directories : list Path) : fallible unit :=
  match directories with
  | [] => done_ok tt
  | directory :: directories =>
      call_io (lit "create job directory " ++ path_display directory) (Op.CreateDirAll directory) ;?
      canonical ←? call_io (lit "canonicalize job directory " ++ path_display directory)
        (Op.Canonicalize directory);
      bail_if (negb (path_starts_with canonical canonical_root))
        (lit "assigned job directory escaped the job-owned root") ;?
      create_job_directories canonical_root directories
  end.
(** The part of [prepare_job] before the source: the canonical root of the run and its
    source, scripts, logs and artifact directories. *)
Definition create_job_root (workspace_root : Path) (spec : JobSpec) (workspace : WorkspaceAssignment) :
    fallible (Path * Path * Path * Path * Path) :=
  pure (context (lit "validate assigned JobSpec")
    (map_err (λ e, anyhow (ValidationError.display e)) (JobSpec_validate spec))) ;?
  pure (validated (lit "validate assigned workspace") (WorkspaceAssignment_validate workspace)) ;?
  call_io (lit "create worker workspace " ++ path_display workspace_root) (Op.CreateDirAll workspace_root) ;?
  canonical_workspace ←? call_io (lit "canonicalize worker workspace " ++ path_display workspace_root)
    (Op.Canonicalize workspace_root);
  let root := join_portable canonical_workspace (ws_relative_root workspace) in
  root_parent ←? pure (ok_or (path_parent root) (anyhow (lit "job root must have a parent")));
  call_io (lit "create worker jobs directory") (Op.CreateDirAll root_parent) ;?
  canonical_parent ←? call_io (lit "canonicalize jobs directory") (Op.Canonicalize root_parent);
  bail_if (negb (path_starts_with canonical_parent canonical_workspace))
    (lit "assigned job parent escaped the configured workspace") ;?
  call_io (lit "create fresh job-owned directory " ++ path_display root
             ++ lit "; an existing directory is never reused") (Op.CreateDir root) ;?
  canonical_root ←? call_io (lit "canonicalize job-owned directory") (Op.Canonicalize root);
  bail_if (negb (path_starts_with canonical_root canonical_workspace))
    (lit "job-owned directory escaped the configured workspace") ;?
  let repository := join_portable canonical_root (ws_source_directory workspace) in
  let scripts := path_join canonical_root (lit "scripts") in
  let logs := join_portable canonical_root (ws_logs_directory workspace) in
  let artifacts := join_portable canonical_root (ws_artifacts_directory workspace) in
  bail_if ((repository == logs) || (repository == artifacts) || (logs == artifacts))
    (lit "assigned source, logs, and artifact directories must be distinct") ;?
  create_job_directories canonical_root
    ([scripts; logs; artifacts] ++ match job_source spec with
                                   | SourceSpec.Git _ _ => [repository]
                                   | SourceSpec.Snapshot _ _ => []
                                   end) ;?
  done_ok (canonical_root, repository, scripts, logs, artifacts).

(** The blocking extraction task does not panic. *)
Definition prepare_source (session : RunSession) (spec : JobSpec) (snapshot_archive : option (list N))
    (repository logs : Path) : prepares SourceEvidence :=
  match job_source spec with
  | SourceSpec.Git remote revision => checkout_git session remote revision repository logs
  | SourceSpec.Snapshot digest size_bytes =>
      or_source (
        size_bytes ←? pure (ok_or size_bytes (anyhow (lit "snapshot source omitted required sizeBytes")));
        archive ←? pure (ok_or snapshot_archive (anyhow (lit "snapshot archive `" ++ digest
          ++ lit "` was not supplied after authenticated download")));
        extract_snapshot_archive digest size_bytes archive repository)
  end.
Definition prepare_job (session : RunSession) (workspace_root : Path) (job_id run_id : Uuid) (spec : JobSpec)
    (workspace : WorkspaceAssignment) (snapshot_archive : option (list N)) : prepares PreparedJob :=
  '(canonical_root, repository, scripts, logs, artifacts) ←?
    or_source (create_job_root workspace_root spec workspace);
  source_result ← prepare_source session spec snapshot_archive repository logs;
  match source_result with
  | Err e =>
      written ← write_failure_result canonical_root job_id run_id e;
      match written with
      | Ok _ => fail e
      | Err write_error =>
          fail (append_context (lit "also failed to persist local preparation evidence: "
                                  ++ ae_text write_error) e)
      end
  | Ok source =>
      or_source (write_json_atomic canonical_root (lit "manifest") (manifest_json job_id run_id source)) ;?
      done_ok
        {| pd_job_id := job_id; pd_run_id := run_id; pd_root := canonical_root; pd_repository := repository;
           pd_scripts := scripts; pd_logs := logs; pd_artifacts := artifacts; pd_source := source |}
  end.
End source.
