(* ===== verification/WorkerExecutor.v ===== *)
(** Executing the steps of a run and collecting its artifacts:
    [crates/cyc-worker/src/executor.rs] and [artifacts.rs] as built for Unix.

    The steps run one after the other as native scripts; the first one that does not
    succeed ends the run.  The evidence records every step that was started. *)
From Stdlib Require Import ZArith NArith Lia String.
From stdpp Require Import base option list numbers sets gmap.
From S2P Require Import Prelude Text Crates Protocol PortablePath Snapshot RunState JobSpec CanonicalJson WorkerReports WorkerRun Cleanup WorkerEnv WorkerClient WorkerProcess WorkerSource.
Open Scope rust_scope.

Definition DEFAULT_JOB_TIMEOUT_SECONDS : N := 3600.
Definition DEFAULT_STEP_TIMEOUT_SECONDS : N := 1800.
Definition seconds (n : N) : N := n * 1000000000.

Record StepsOutcome := {
  oc_started_at : DateTime;
  oc_finished_at : DateTime;
  oc_exit_code : option Z;
  oc_signal : option Z;
  oc_termination : TerminationReason.t;
  oc_process_tree_terminated : bool;
  oc_forced_kill : bool;
  oc_error : option rstr;
  oc_steps : list StepExecutionEvidence
}.
(** [StepsOutcome::succeeded] and [StepsOutcome::cancelled] *)
Definition outcome_succeeded (o : StepsOutcome) : bool :=
  (oc_exit_code o == Some 0%Z) && (oc_termination o == TerminationReason.Exited)
  && oc_process_tree_terminated o && negb (oc_forced_kill o).
Definition outcome_cancelled (o : StepsOutcome) : bool :=
  match oc_termination o with
  | TerminationReason.CancelRequested | TerminationReason.LeaseLost => true
  | _ => false
  end.

Definition protocol_termination (r : ProcessTerminationReason.t) : TerminationReason.t :=
  match r with
  | ProcessTerminationReason.Exited => TerminationReason.Exited
  | ProcessTerminationReason.ExecutionFailed => TerminationReason.ExecutionFailed
  | ProcessTerminationReason.TimedOut => TerminationReason.TimedOut
  | ProcessTerminationReason.CancelRequested => TerminationReason.CancelRequested
  | ProcessTerminationReason.LeaseLost => TerminationReason.LeaseLost
  | ProcessTerminationReason.TransportFailure => TerminationReason.TransportFailure
  end.
Definition cancellation_termination : io TerminationReason.t :=
  value ← call Op.LoadCancellation;
  mret (if value == CANCEL_REQUESTED then TerminationReason.CancelRequested
        else if value == CANCEL_LEASE_LOST then TerminationReason.LeaseLost
        else if value == CANCEL_TRANSPORT_FAILURE then TerminationReason.TransportFailure
        else if value == CANCEL_JOB_TIMEOUT then TerminationReason.TimedOut
        else TerminationReason.CancelRequested).
(** [{termination:?}] *)
Definition debug_termination (r : TerminationReason.t) : rstr :=
  match r with
  | TerminationReason.Exited => lit "Exited"
  | TerminationReason.TimedOut => lit "TimedOut"
  | TerminationReason.CancelRequested => lit "CancelRequested"
  | TerminationReason.LeaseLost => lit "LeaseLost"
  | TerminationReason.TransportFailure => lit "TransportFailure"
  | TerminationReason.SourcePreparationFailed => lit "SourcePreparationFailed"
  | TerminationReason.ExecutionFailed => lit "ExecutionFailed"
  | TerminationReason.ArtifactVerificationFailed => lit "ArtifactVerificationFailed"
  end.

(** The crates [globset] and [serde_json], and which Unix the worker was built for. *)
Class ExecutorCrates := {
  built_for_macos : bool;
  Glob : Type;
  GlobSet : Type;
  glob_new : rstr → result rstr Glob;
  glob_build : list Glob → result rstr GlobSet;
  glob_is_match : GlobSet → rstr → bool;
  artifacts_json : list ArtifactEvidence → result rstr (list N);
  result_json : PreparedJob → StepsOutcome → result rstr (list N)
}.

(** [{index:03}] *)
Definition three_digits (index : N) : rstr :=
  let s := fmt_N index in replicate (3 - length s) (chr "0") ++ s.
Definition script_extension (shell : Shell.t) : rstr :=
  match shell with
  | Shell.Powershell => lit "ps1"
  | Shell.Cmd => lit "cmd"
  | Shell.Bash | Shell.Zsh => lit "sh"
  end.

Section executor.
Context `{WireCrates, DigestCrate, UuidCrate, SourceCrates, ExecutorCrates}.
Abbreviation fallible A := (io (result AnyError A)).

Definition default_shell : Shell.t := if built_for_macos then Shell.Zsh else Shell.Bash.

(** ** One step *)
Definition write_native_script (scripts : Path) (index : N) (shell : Shell.t) (script : rstr) : fallible Path :=
  let path := path_join scripts (lit "step-" ++ three_digits index ++ lit "." ++ script_extension shell) in
  call_io (lit "create native script " ++ path_display path) (Op.CreateNew path 448) ;?
  call_io (lit "write native script") (Op.WriteAll path (bytes script)) ;?
  (if ends_with [10%N] script then done_ok tt
   else call_io (lit "finish native script") (Op.WriteAll path [10%N])) ;?
  call_io (lit "flush native script") (Op.SyncAll path) ;?
  done_ok path.

(** [relative.split(['/', '\\'])] *)
Definition split_separators (s : rstr) : list rstr := split SLASH (replace_char BACKSLASH SLASH s).
(** The components of a relative path that are pushed by [Path::join]. *)
Definition path_components (relative : rstr) : list rstr :=
  List.filter (λ segment, negb (is_empty segment) && (segment != dot_segment)) (split SLASH relative).
Definition safe_working_directory (repository : Path) (relative : option rstr) : fallible Path :=
  canonical_repository ←? call_io (lit "canonicalize repository " ++ path_display repository)
    (Op.Canonicalize repository);
  match relative with
  | None => done_ok canonical_repository
  | Some relative =>
      bail_if (blank relative || contains_char 0%N relative)
        (lit "workingDirectory must be a non-empty safe relative path") ;?
      bail_if (starts_with [SLASH] relative || starts_with [BACKSLASH] relative || contains_char (chr ":") relative
               || existsb (λ segment, (segment == parent_segment) || is_empty segment) (split_separators relative))
        (lit "workingDirectory escapes or is not a normalized relative path") ;?
      bail_if (starts_with [SLASH] relative || existsb (λ c, c == parent_segment) (path_components relative))
        (lit "workingDirectory contains a forbidden path component") ;?
      let candidate := canonical_repository ++ path_components relative in
      canonical ←? call_io (lit "workingDirectory does not exist: " ++ path_display candidate)
        (Op.Canonicalize candidate);
      is_dir ←
        (if path_starts_with canonical canonical_repository then
           r ← call (Op.SymlinkMetadata canonical);
           mret match r with Ok m => md_is_dir m | Err _ => false end
         else mret false);
      bail_if (negb is_dir)
        (lit "workingDirectory resolved outside the repository or is not a directory") ;?
      done_ok canonical
  end.

Definition shell_command (shell : Shell.t) (script_path : Path) : result AnyError (rstr * list rstr) :=
  let path := path_display script_path in
  match shell with
  | Shell.Powershell =>
      Ok (lit "pwsh", [lit "-NoLogo"; lit "-NoProfile"; lit "-NonInteractive"; lit "-File"; path])
  | Shell.Cmd => Err (anyhow (lit "cmd shell is only available on Windows workers"))
  | Shell.Bash => Ok (lit "bash", [lit "--noprofile"; lit "--norc"; path])
  | Shell.Zsh => Ok (lit "zsh", [lit "-f"; path])
  end.

(** ** The steps *)
Definition finish_outcome (started_at : DateTime) (steps : list StepExecutionEvidence) (exit_code : option Z)
    (termination : TerminationReason.t) (process_tree_terminated forced_kill : bool) (signal : option Z)
    (error : option rstr) : io StepsOutcome :=
  finished_at ← call Op.Now;
  mret {| oc_started_at := started_at; oc_finished_at := finished_at; oc_exit_code := exit_code;
          oc_signal := signal; oc_termination := termination;
          oc_process_tree_terminated := process_tree_terminated; oc_forced_kill := forced_kill;
          oc_error := error; oc_steps := steps |}.
Definition step_evidence (index : N) (step : JobStep) (shell : Shell.t) (started_at : DateTime)
    (exit_code : option Z) (termination : TerminationReason.t) : io StepExecutionEvidence :=
  finished_at ← call Op.Now;
  mret {| se_index := index; se_name := step_name step; se_shell := shell; se_started_at := started_at;
          se_finished_at := finished_at; se_exit_code := exit_code; se_termination := termination |}.
(** [step {index} `{name}`] *)
Definition step_label (index : N) (step : JobStep) : rstr :=
  lit "step " ++ fmt_N index ++ lit " `" ++ step_name step ++ lit "`".
Definition prepare_command (prepared : PreparedJob) (index : N) (shell : Shell.t) (step : JobStep) :
    fallible (rstr * list rstr * Path) :=
  script_path ←? write_native_script (pd_scripts prepared) index shell (step_script step);
  cwd ←? safe_working_directory (pd_repository prepared) (step_working_directory step);
  '(program, arguments) ←? pure (shell_command shell script_path);
  done_ok (program, arguments, cwd).

(** The loop over the steps, from a step on: its evidence so far. *)
Fixpoint execute_from (session : RunSession) (prepared : PreparedJob) (started_at : DateTime)
    (job_deadline : N) (index : N) (steps : list JobStep) (evidence : list StepExecutionEvidence) :
    io StepsOutcome :=
  match steps with
  | [] => finish_outcome started_at evidence (Some 0%Z) TerminationReason.Exited true false None None
  | step :: steps =>
      cancelled ← call Op.LoadCancellation;
      if cancelled != CANCEL_NONE then
        reason ← cancellation_termination;
        finish_outcome started_at evidence None reason true false None None
      else
      now ← call Op.Instant;
      let remaining := saturating_sub job_deadline now in
      if remaining == 0%N then
        finish_outcome started_at evidence None TerminationReason.TimedOut true false None None
      else
      let requested := seconds (unwrap_or (step_timeout_seconds step) DEFAULT_STEP_TIMEOUT_SECONDS) in
      let timeout := N.min requested remaining in
      let shell := unwrap_or (step_shell step) default_shell in
      step_started ← call Op.Now;
      command ← prepare_command prepared index shell step;
      match command with
      | Err e =>
          entry ← step_evidence index step shell step_started None TerminationReason.ExecutionFailed;
          finish_outcome started_at (evidence ++ [entry]) None TerminationReason.ExecutionFailed true false None
            (Some (lit "prepare " ++ step_label index step ++ lit ": " ++ ae_text e))
      | Ok (program, arguments, cwd) =>
          ran ← run_process session
            {| pq_program := program; pq_arguments := arguments; pq_cwd := cwd; pq_timeout := timeout;
               pq_stdout_path := path_join (pd_logs prepared)
                 (lit "step-" ++ three_digits index ++ lit ".stdout.log");
               pq_stderr_path := path_join (pd_logs prepared)
                 (lit "step-" ++ three_digits index ++ lit ".stderr.log");
               pq_environment := [] |};
          match ran with
          | Err e =>
              let process_tree_terminated := pe_containment e == ProcessContainment.ConfirmedEmpty in
              entry ← step_evidence index step shell step_started None TerminationReason.ExecutionFailed;
              finish_outcome started_at (evidence ++ [entry]) None TerminationReason.ExecutionFailed
                process_tree_terminated false None
                (Some (lit "execute " ++ step_label index step ++ lit ": " ++ ae_text (pe_error e)))
          | Ok r =>
              let step_termination := protocol_termination (pr_reason r) in
              entry ← step_evidence index step shell step_started (pr_exit_code r) step_termination;
              if negb (process_succeeded r) then
                let termination :=
                  if step_termination == TerminationReason.Exited then TerminationReason.ExecutionFailed
                  else step_termination in
                finish_outcome started_at (evidence ++ [entry]) (pr_exit_code r) termination
                  (pr_process_tree_terminated r) (pr_forced_kill r) (pr_signal r)
                  (Some (unwrap_or (pr_error r)
                    (step_label index step ++ lit " terminated as " ++ debug_termination termination)))
              else execute_from session prepared started_at job_deadline (index + 1) steps (evidence ++ [entry])
          end
      end
  end.
Definition execute_steps (session : RunSession) (prepared : PreparedJob) (spec : JobSpec)
    (max_job_timeout_seconds : N) : io StepsOutcome :=
  started_at ← call Op.Now;
  let configured_timeout := unwrap_or (job_timeout_seconds spec) DEFAULT_JOB_TIMEOUT_SECONDS in
  now ← call Op.Instant;
  let job_deadline := (now + seconds (N.min configured_timeout max_job_timeout_seconds))%N in
  execute_from session prepared started_at job_deadline 0 (job_steps spec) [].

Definition write_result (prepared : PreparedJob) (outcome : StepsOutcome) : fallible unit :=
  write_json_atomic (pd_root prepared) (lit "result") (result_json prepared outcome).

(** ** Artifacts *)
Fixpoint glob_patterns (field : rstr) (patterns : list rstr) : result AnyError (list Glob) :=
  match patterns with
  | [] => Ok []
  | pattern :: patterns =>
      reject_if (blank pattern || starts_with [SLASH] pattern || starts_with [BACKSLASH] pattern
                 || contains_char (chr ":") pattern
                 || existsb (λ part, part == parent_segment) (split_separators pattern))
        (anyhow (lit "artifact " ++ field ++ lit " pattern must be a safe repository-relative glob"));;
      glob ← context (lit "compile artifact " ++ field ++ lit " glob `" ++ pattern ++ lit "`")
        (map_err anyhow (glob_new (replace_char BACKSLASH SLASH pattern)));
      globs ← glob_patterns field patterns;
      Ok (glob :: globs)
  end.
Definition compile_globs (patterns : list rstr) (field : rstr) : result AnyError GlobSet :=
  globs ← glob_patterns field patterns;
  context (lit "build artifact " ++ field ++ lit " glob set") (map_err anyhow (glob_build globs)).
(** Path components are Unicode strings here. *)
Definition slash_path (components : list rstr) : result AnyError rstr :=
  let output := join SLASH components in
  reject_if (is_empty output) (anyhow (lit "artifact relative path is empty"));;
  Ok output.
Definition hash_regular_file_no_follow (path : Path) : fallible (N * rstr) :=
  data ←? read_regular_file_no_follow path MAX_ARTIFACT_BYTES;
  done_ok (byte_count data, sha256_hex data).

(** One turn of the loop over the walked entries. *)
Definition collect_entry (root : Path) (includes excludes : GlobSet) (entry : result IoError WalkEntry) :
    fallible (option ArtifactEvidence) :=
  entry ←? pure (context (lit "walk repository artifact candidates") (map_err from_io entry));
  if negb (we_is_file entry) || we_is_symlink entry then done_ok None
  else
    name ←? pure (slash_path (we_relative entry));
    if existsb (λ segment, segment == lit ".git") (split SLASH name) then done_ok None
    else if negb (glob_is_match includes name) || glob_is_match excludes name then done_ok None
    else
      let path := root ++ we_relative entry in
      '(size_bytes, sha) ←? hash_regular_file_no_follow path;
      bail_if (MAX_ARTIFACT_BYTES <? size_bytes)%N
        (lit "artifact `" ++ name ++ lit "` is " ++ fmt_N size_bytes ++ lit " bytes; maximum upload size is "
           ++ fmt_N MAX_ARTIFACT_BYTES) ;?
      (id ← call Op.NewUuid;
       done_ok (Some {| ae_id := id; ae_name := name; ae_size_bytes := size_bytes; ae_sha256 := sha;
                        ae_path := path |})).
Fixpoint collect_entries (root : Path) (includes excludes : GlobSet) (artifacts : list ArtifactEvidence)
    (entries : list (result IoError WalkEntry)) : fallible (list ArtifactEvidence) :=
  match entries with
  | [] => done_ok artifacts
  | entry :: entries =>
      artifact ←? collect_entry root includes excludes entry;
      collect_entries root includes excludes
        (artifacts ++ match artifact with Some a => [a] | None => [] end) entries
  end.
Definition write_artifact_manifest (prepared : PreparedJob) (artifacts : list ArtifactEvidence) : fallible unit :=
  let path := path_join (pd_artifacts prepared) (lit "manifest.json") in
  let temporary := path_join (pd_artifacts prepared) (lit "manifest.json.tmp") in
  data ←? pure (map_err anyhow (artifacts_json artifacts));
  (r ← call (Op.WriteFile temporary (data ++ [10%N])); mret (map_err from_io r)) ;?
  (r ← call (Op.SyncAll temporary); mret (map_err from_io r)) ;?
  (r ← call (Op.Rename temporary path); mret (map_err from_io r)).
Definition collect_artifacts (prepared : PreparedJob) (specification : ArtifactSpec) :
    fallible (list ArtifactEvidence) :=
  if is_empty (art_include specification) then done_ok []
  else
    includes ←? pure (compile_globs (art_include specification) (lit "include"));
    excludes ←? pure (compile_globs (art_exclude specification) (lit "exclude"));
    canonical_repository ←?
      (r ← call (Op.Canonicalize (pd_repository prepared)); mret (map_err from_io r));
    (entries ← call (Op.Walk canonical_repository);
     artifacts ←? collect_entries canonical_repository includes excludes [] entries;
     let artifacts := sort_by (λ a b, str_cmp (ae_name a) (ae_name b)) artifacts in
     write_artifact_manifest prepared artifacts ;?
     done_ok artifacts).
End executor.
