(* ===== verification/WorkerRuntime.v ===== *)
(** The life of one assignment on a worker: [crates/cyc-worker/src/runtime.rs], from
    [process_assignment] to the terminal acknowledgement and the cleanup receipt.

    [execute_assignment] prepares the source, reports the run as running, executes the
    steps, uploads the artifacts and submits one completion; every path out of it that
    does not lose the containment proof reports an outcome.  State changes are
    compare-and-swap requests that adopt the controller's version when it moved. *)
From Stdlib Require Import ZArith NArith Lia String.
From stdpp Require Import base option list numbers sets gmap.
From S2P Require Import Prelude Text Crates Protocol PortablePath Snapshot RunState JobSpec CanonicalJson WorkerReports WorkerRun Cleanup WorkerEnv WorkerClient WorkerProcess WorkerSource WorkerExecutor.
Open Scope rust_scope.

Definition containment_proof_lost (detail : rstr) : AnyError :=
  {| ae_root := ErrorRoot.ContainmentProofLost; ae_text := detail |}.

(** ** Evidence *)
Definition assigned_source_evidence (assignment : ClaimAssignment) : ExecutionSourceEvidence :=
  match job_source (ca_job_spec assignment) with
  | SourceSpec.Git repository revision =>
      {| xs_kind := lit "git"; xs_repository := repository; xs_requested_revision := revision;
         xs_resolved_revision := []; xs_tree := []; xs_git_version := lit "unavailable" |}
  | SourceSpec.Snapshot digest _ =>
      {| xs_kind := lit "snapshot"; xs_repository := lit "snapshot"; xs_requested_revision := digest;
         xs_resolved_revision := []; xs_tree := []; xs_git_version := lit "not-applicable" |}
  end.
Definition prepared_source_evidence (source : SourceEvidence) : ExecutionSourceEvidence :=
  {| xs_kind := so_kind source; xs_repository := so_repository source;
     xs_requested_revision := so_requested_revision source;
     xs_resolved_revision := so_resolved_revision source; xs_tree := so_tree source;
     xs_git_version := so_git_version source |}.
Definition execution_from_outcome (source : SourceEvidence) (outcome : StepsOutcome)
    (streams : RunStreamsEvidence) (reason : TerminationReason.t) (observed_at : DateTime) :
    ExecutionEvidence :=
  {| xe_source := prepared_source_evidence source; xe_steps := oc_steps outcome; xe_streams := streams;
     xe_termination :=
       {| te_reason := reason; te_process_tree_terminated := oc_process_tree_terminated outcome;
          te_forced_kill := oc_forced_kill outcome; te_root_exit_code := oc_exit_code outcome;
          te_signal := oc_signal outcome; te_observed_at := observed_at |} |}.
Definition early_failure_completion (assignment : ClaimAssignment) (expected_version : N)
    (final_state : JobState.t) (error : rstr) (finished_at : DateTime) (execution : ExecutionEvidence) :
    RunCompletion :=
  {| rc_run_id := ca_run_id assignment; rc_lease_id := ca_lease_id assignment;
     rc_expected_version := expected_version; rc_final_state := final_state;
     rc_evidence :=
       {| ev_started_at := None; ev_finished_at := Some finished_at;
          ev_exit_code := te_root_exit_code (xe_termination execution); ev_error := Some error;
          ev_artifact_ids := [] |};
     rc_execution := execution; rc_artifacts := [] |}.

(** ** Cancellation *)
Definition final_state_of (value : N) : JobState.t :=
  if (value == CANCEL_REQUESTED) || (value == CANCEL_LEASE_LOST) then JobState.Cancelled else JobState.Failed.
Definition reason_of (value : N) : option TerminationReason.t :=
  if value == CANCEL_REQUESTED then Some TerminationReason.CancelRequested
  else if value == CANCEL_LEASE_LOST then Some TerminationReason.LeaseLost
  else if value == CANCEL_TRANSPORT_FAILURE then Some TerminationReason.TransportFailure
  else if value == CANCEL_JOB_TIMEOUT then Some TerminationReason.TimedOut
  else None.
Definition cancellation_final_state : io JobState.t :=
  value ← call Op.LoadCancellation; mret (final_state_of value).
Definition cancellation_termination_reason : io (option TerminationReason.t) :=
  value ← call Op.LoadCancellation; mret (reason_of value).

Definition source_process_reason (r : ProcessTerminationReason.t) : TerminationReason.t :=
  match r with
  | ProcessTerminationReason.TimedOut => TerminationReason.TimedOut
  | ProcessTerminationReason.CancelRequested => TerminationReason.CancelRequested
  | ProcessTerminationReason.LeaseLost => TerminationReason.LeaseLost
  | ProcessTerminationReason.TransportFailure => TerminationReason.TransportFailure
  | ProcessTerminationReason.Exited | ProcessTerminationReason.ExecutionFailed =>
      TerminationReason.SourcePreparationFailed
  end.
Definition source_failure_termination (source : SourceSpec.t) (containment : SourceContainment.t)
    (observed_at : DateTime) : io (result AnyError (JobState.t * TerminationEvidence)) :=
  match containment with
  | SourceContainment.Unconfirmed =>
      fail (containment_proof_lost (lit "managed source process tree was not proven empty"))
  | SourceContainment.Confirmed confirmed =>
      let process_reason := source_process_reason <$> cs_reason confirmed in
      '(final_state, reason) ←
        match source with
        | SourceSpec.Snapshot _ _ => mret (JobState.Failed, TerminationReason.SourcePreparationFailed)
        | SourceSpec.Git _ _ =>
            cancelled ← cancellation_termination_reason;
            let reason :=
              match cancelled with
              | Some reason => reason
              | None => unwrap_or process_reason TerminationReason.SourcePreparationFailed
              end in
            mret (match reason with
                  | TerminationReason.CancelRequested | TerminationReason.LeaseLost => JobState.Cancelled
                  | _ => JobState.Failed
                  end, reason)
        end;
      done_ok (final_state,
        {| te_reason := reason; te_process_tree_terminated := true;
           te_forced_kill := cs_forced_kill confirmed; te_root_exit_code := cs_root_exit_code confirmed;
           te_signal := cs_signal confirmed; te_observed_at := observed_at |})
  end.

(** ** The shared control block

    [version] only grows by [fetch_max]; the state is written under its lock together
    with the version it belongs to. *)
Definition publish_version (version : N) : io unit :=
  call (Op.FetchMaxVersion version);; mret tt.
Definition apply_state_version (version : N) (state : JobState.t) : io unit :=
  previous_version ← call (Op.FetchMaxVersion version);
  if (previous_version <=? version)%N then call (Op.StoreState state) else mret tt.
Definition apply_version_conflict (conflict : VersionConflict) : io unit :=
  (match vc_current_state conflict with
   | Some state => apply_state_version (vc_current_version conflict) state
   | None => publish_version (vc_current_version conflict)
   end);;
  if vc_cancel_requested conflict then call (Op.StoreCancellation CANCEL_REQUESTED) else mret tt.
Definition conflict_of (e : AnyError) : option VersionConflict :=
  match ae_root e with ErrorRoot.Conflict c => Some c | _ => None end.
Definition became_terminal (c : VersionConflict) : bool := is_some_and (vc_current_state c) JobState.is_terminal.

Section runtime.
Context `{WireCrates, DigestCrate, UuidCrate, SourceCrates, ExecutorCrates}.
Abbreviation fallible A := (io (result AnyError A)).

(** [tokio::time::sleep] of 200 milliseconds times the attempt, with [more] attempts of
    three left *)
Definition pause (more : nat) : io unit := call (Op.Sleep (millis (200 * (3 - N.of_nat more)))).

(** ** State transitions *)

(** The body of the loop of [transition], with [attempts] turns left. *)
Fixpoint transition_loop (session : RunSession) (assignment : ClaimAssignment) (next_state : JobState.t)
    (evidence : option RunEvidence) (attempts : nat) : fallible unit :=
  match attempts with
  | O => bail (lit "controller state version changed repeatedly")
  | S more =>
      version ← call Op.LoadVersion;
      let update :=
        {| su_run_id := ca_run_id assignment; su_lease_id := ca_lease_id assignment;
           su_expected_version := version; su_next_state := next_state; su_evidence := evidence |} in
      r ← state session update;
      match r with
      | Ok response =>
          bail_if ((run_id (sur_run response) != ca_run_id assignment)
                   || (run_state (sur_run response) != next_state))
            (lit "controller state acknowledgement does not match the run transition") ;?
          bail_if (sur_state_version response <? version)%N
            (lit "controller state acknowledgement regressed stateVersion") ;?
          (apply_state_version (sur_state_version response) next_state;;
           (if sur_cancel_requested response then call (Op.StoreCancellation CANCEL_REQUESTED) else mret tt);;
           done_ok tt)
      | Err e =>
          match conflict_of e with
          | Some conflict =>
              apply_version_conflict conflict;;
              if vc_cancel_requested conflict then done_ok tt
              else if vc_current_state conflict == Some next_state then done_ok tt
              else if became_terminal conflict then
                fail (with_context (lit "controller run became terminal during transition") e)
              else transition_loop session assignment next_state evidence more
          | None =>
              if is_retryable_transport_error e && bool_decide (more ≠ O) then
                pause more;; transition_loop session assignment next_state evidence more
              else fail e
          end
      end
  end.
Definition transition (session : RunSession) (assignment : ClaimAssignment) (next_state : JobState.t)
    (evidence : option RunEvidence) : fallible unit :=
  transition_loop session assignment next_state evidence 3.

(** ** The completion *)
Definition with_version (version : N) (c : RunCompletion) : RunCompletion :=
  {| rc_run_id := rc_run_id c; rc_lease_id := rc_lease_id c; rc_expected_version := version;
     rc_final_state := rc_final_state c; rc_evidence := rc_evidence c; rc_execution := rc_execution c;
     rc_artifacts := rc_artifacts c |}.
(** The rewriting of a pending completion into a cancelled one. *)
Definition as_cancelled (observed_at : DateTime) (c : RunCompletion) : RunCompletion :=
  let e := rc_evidence c in
  let x := rc_execution c in
  let t := xe_termination x in
  {| rc_run_id := rc_run_id c; rc_lease_id := rc_lease_id c; rc_expected_version := rc_expected_version c;
     rc_final_state := JobState.Cancelled;
     rc_evidence :=
       {| ev_started_at := ev_started_at e; ev_finished_at := Some observed_at;
          ev_exit_code := ev_exit_code e;
          ev_error := Some (lit "controller cancellation observed during terminal CAS");
          ev_artifact_ids := ev_artifact_ids e |};
     rc_execution :=
       {| xe_source := xe_source x; xe_steps := xe_steps x; xe_streams := xe_streams x;
          xe_termination :=
            {| te_reason := TerminationReason.CancelRequested;
               te_process_tree_terminated := te_process_tree_terminated t;
               te_forced_kill := te_forced_kill t; te_root_exit_code := te_root_exit_code t;
               te_signal := te_signal t; te_observed_at := observed_at |} |};
     rc_artifacts := rc_artifacts c |}.
Fixpoint submit_loop (session : RunSession) (pending : RunCompletion) (attempts : nat) :
    fallible TerminalCompletionAckV1 :=
  match attempts with
  | O => bail (lit "controller completion version changed repeatedly")
  | S more =>
      r ← complete session pending;
      match r with
      | Ok (response, terminal_ack) =>
          bail_if ((run_id (sur_run response) != rc_run_id pending)
                   || (run_state (sur_run response) != rc_final_state pending))
            (lit "controller completion acknowledgement does not match the terminal run") ;?
          bail_if (sur_state_version response <? rc_expected_version pending)%N
            (lit "controller completion acknowledgement regressed stateVersion") ;?
          (apply_state_version (sur_state_version response) (rc_final_state pending);;
           (if sur_cancel_requested response then call (Op.StoreCancellation CANCEL_REQUESTED) else mret tt);;
           bail_if ((ack_run_id terminal_ack != rc_run_id pending)
                    || (ack_lease_id terminal_ack != rc_lease_id pending)
                    || (ack_state_version terminal_ack != sur_state_version response)
                    || (ack_final_state terminal_ack != run_state (sur_run response)))
             (lit "controller terminal acknowledgement is not bound to the completion") ;?
           done_ok terminal_ack)
      | Err e =>
          match conflict_of e with
          | Some conflict =>
              apply_version_conflict conflict;;
              if became_terminal conflict then
                fail (with_context (lit "controller run became terminal during completion") e)
              else
                let pending := with_version (vc_current_version conflict) pending in
                if vc_cancel_requested conflict && (rc_final_state pending != JobState.Cancelled) then
                  if negb (te_process_tree_terminated (xe_termination (rc_execution pending))) then
                    fail (with_context (lit "controller requested cancellation before process-tree termination was proven") e)
                  else
                    observed_at ← call Op.Now;
                    submit_loop session (as_cancelled observed_at pending) more
                else submit_loop session pending more
          | None =>
              if is_retryable_transport_error e && bool_decide (more ≠ O) then
                pause more;; submit_loop session pending more
              else fail e
          end
      end
  end.
Definition submit_completion (session : RunSession) (completion : RunCompletion) :
    fallible TerminalCompletionAckV1 :=
  version ← call Op.LoadVersion;
  submit_loop session (with_version version completion) 3.

Definition complete_early_failure (session : RunSession) (assignment : ClaimAssignment)
    (final_state : JobState.t) (error : rstr) (finished_at : DateTime) (execution : ExecutionEvidence) :
    fallible TerminalCompletionAckV1 :=
  version ← call Op.LoadVersion;
  submit_completion session
    (early_failure_completion assignment version final_state error finished_at execution).
Definition started_completion (assignment : ClaimAssignment) (version : N) (started_at : DateTime)
    (final_state : JobState.t) (exit_code : option Z) (error : option rstr)
    (artifacts : list ArtifactMetadata) (finished_at : DateTime) (execution : ExecutionEvidence) :
    RunCompletion :=
  {| rc_run_id := ca_run_id assignment; rc_lease_id := ca_lease_id assignment;
     rc_expected_version := version; rc_final_state := final_state;
     rc_evidence :=
       {| ev_started_at := Some started_at; ev_finished_at := Some finished_at; ev_exit_code := exit_code;
          ev_error := error; ev_artifact_ids := map am_id artifacts |};
     rc_execution := execution; rc_artifacts := artifacts |}.
Definition complete_after_start (session : RunSession) (assignment : ClaimAssignment) (started_at : DateTime)
    (final_state : JobState.t) (exit_code : option Z) (error : option rstr)
    (artifacts : list ArtifactMetadata) (finished_at : DateTime) (execution : ExecutionEvidence) :
    fallible TerminalCompletionAckV1 :=
  version ← call Op.LoadVersion;
  submit_completion session
    (started_completion assignment version started_at final_state exit_code error artifacts finished_at execution).

(** ** Artifacts *)
Record ArtifactUploadOutcome := { au_artifacts : list ArtifactMetadata; au_error : option AnyError }.
Definition upload_failed (uploaded : list ArtifactMetadata) (e : AnyError) : ArtifactUploadOutcome :=
  {| au_artifacts := uploaded; au_error := Some e |}.
Definition artifact_metadata (run : Uuid) (artifact : ArtifactEvidence) : io ArtifactMetadata :=
  created_at ← call Op.Now;
  mret {| am_id := ae_id artifact; am_run_id := run; am_relative_path := ae_name artifact;
          am_size_bytes := ae_size_bytes artifact; am_sha256 := ae_sha256 artifact; am_media_type := None;
          am_created_at := created_at |}.
(** [try_fold] with [checked_add] *)
Fixpoint total_size (total : N) (artifacts : list ArtifactEvidence) : option N :=
  match artifacts with
  | [] => Some total
  | a :: artifacts => total ← u64_checked_add total (ae_size_bytes a); total_size total artifacts
  end.
Fixpoint upload_artifacts (session : RunSession) (assignment : ClaimAssignment)
    (uploaded : list ArtifactMetadata) (artifacts : list ArtifactEvidence) : io ArtifactUploadOutcome :=
  match artifacts with
  | [] => mret {| au_artifacts := uploaded; au_error := None |}
  | artifact :: artifacts =>
      cancelled ← call Op.LoadCancellation;
      if cancelled != CANCEL_NONE then
        mret (upload_failed uploaded (anyhow (lit "artifact verification interrupted by run cancellation")))
      else if (N.min (lim_max_artifact_bytes (ca_limits assignment)) MAX_ARTIFACT_BYTES <? ae_size_bytes artifact)%N then
        mret (upload_failed uploaded (anyhow (lit "artifact `" ++ ae_name artifact ++ lit "` exceeds per-upload limit")))
      else
        r ← upload_artifact session artifact;
        match r with
        | Err e => mret (upload_failed uploaded e)
        | Ok _ =>
            metadata ← artifact_metadata (ca_run_id assignment) artifact;
            upload_artifacts session assignment (uploaded ++ [metadata]) artifacts
        end
  end.
Definition collect_and_upload (session : RunSession) (prepared : PreparedJob) (assignment : ClaimAssignment) :
    io ArtifactUploadOutcome :=
  r ← collect_artifacts prepared (job_artifacts (ca_job_spec assignment));
  match r with
  | Err e => mret (upload_failed [] e)
  | Ok artifacts =>
      if (lim_max_artifact_count (ca_limits assignment) <? N.of_nat (length artifacts))%N then
        mret (upload_failed [] (anyhow (lit "artifact count exceeds assignment limit")))
      else
        match total_size 0 artifacts with
        | None => mret (upload_failed [] (anyhow (lit "artifact byte count overflow")))
        | Some total_bytes =>
            if (lim_max_artifact_bytes (ca_limits assignment) <? total_bytes)%N then
              mret (upload_failed [] (anyhow (lit "artifact bytes exceed assignment limit")))
            else upload_artifacts session assignment [] artifacts
        end
  end.

(** ** One assignment *)
Definition running_evidence (started_at : DateTime) : RunEvidence :=
  {| ev_started_at := Some started_at; ev_finished_at := None; ev_exit_code := None; ev_error := None;
     ev_artifact_ids := [] |}.
(** The archive of a snapshot source, downloaded first. *)
Definition fetch_snapshot (session : RunSession) (assignment : ClaimAssignment) :
    io (result PrepareJobError (option (list N))) :=
  match job_source (ca_job_spec assignment) with
  | SourceSpec.Git _ _ => done_ok None
  | SourceSpec.Snapshot digest (Some size_bytes) =>
      r ← download_snapshot session digest size_bytes;
      mret (map_err source_confirmed_empty (Some <$> r))
  | SourceSpec.Snapshot _ None =>
      fail (source_confirmed_empty (anyhow (lit "snapshot assignment omitted required sizeBytes")))
  end.
(** The two branches of [execute_assignment] in which the source is not ready.  The
    second one adds [context] to a lost containment proof. *)
Definition report_source_failure (session : RunSession) (assignment : ClaimAssignment) (e : PrepareJobError)
    (wrap : AnyError → AnyError) : fallible TerminalCompletionAckV1 :=
  finished_at ← call Op.Now;
  r ← source_failure_termination (job_source (ca_job_spec assignment)) (pj_containment e) finished_at;
  '(final_state, termination) ←? pure (map_err wrap r);
  (evidence ← streams;
   complete_early_failure session assignment final_state
     (lit "source preparation failed: " ++ ae_text (pj_error e)) finished_at
     {| xe_source := assigned_source_evidence assignment; xe_steps := []; xe_streams := evidence;
        xe_termination := termination |}).
Definition refuse_completion (e : PrepareJobError) : AnyError → AnyError :=
  with_context (lit "source preparation failed without terminal containment proof; refusing completion: "
                  ++ ae_text (pj_error e)).

Definition report_failed_steps (session : RunSession) (assignment : ClaimAssignment) (prepared : PreparedJob)
    (started_at : DateTime) (outcome : StepsOutcome) : fallible TerminalCompletionAckV1 :=
  let final_state := if outcome_cancelled outcome then JobState.Cancelled else JobState.Failed in
  finished_at ← call Op.Now;
  evidence ← streams;
  complete_after_start session assignment started_at final_state (oc_exit_code outcome)
    (Some (unwrap_or (oc_error outcome)
      (lit "job terminated: " ++ debug_termination (oc_termination outcome))))
    [] finished_at
    (execution_from_outcome (pd_source prepared) outcome evidence (oc_termination outcome) finished_at).
Definition report_failed_upload (session : RunSession) (assignment : ClaimAssignment) (prepared : PreparedJob)
    (started_at : DateTime) (outcome : StepsOutcome) (artifacts : list ArtifactMetadata) (e : AnyError) :
    fallible TerminalCompletionAckV1 :=
  finished_at ← call Op.Now;
  cancelled ← cancellation_termination_reason;
  let reason := unwrap_or cancelled TerminationReason.ArtifactVerificationFailed in
  final_state ← cancellation_final_state;
  evidence ← streams;
  complete_after_start session assignment started_at final_state (Some 0%Z)
    (Some (lit "artifact verification failed: " ++ ae_text e)) artifacts finished_at
    (execution_from_outcome (pd_source prepared) outcome evidence reason finished_at).
Definition report_success (session : RunSession) (assignment : ClaimAssignment) (prepared : PreparedJob)
    (started_at : DateTime) (outcome : StepsOutcome) (artifacts : list ArtifactMetadata) :
    fallible TerminalCompletionAckV1 :=
  finished_at ← call Op.Now;
  evidence ← streams;
  version ← call Op.LoadVersion;
  submit_completion session
    (started_completion assignment version started_at JobState.Succeeded (Some 0%Z) None artifacts finished_at
       (execution_from_outcome (pd_source prepared) outcome evidence TerminationReason.Exited finished_at)).

(** From the prepared source on. *)
Definition run_prepared (session : RunSession) (assignment : ClaimAssignment) (prepared : PreparedJob) :
    fallible TerminalCompletionAckV1 :=
  started_at ← call Op.Now;
  transition session assignment JobState.Running (Some (running_evidence started_at)) ;?
  (outcome ← execute_steps session prepared (ca_job_spec assignment)
     (lim_job_timeout_seconds (ca_limits assignment));
   write_result prepared outcome;;
   if negb (oc_process_tree_terminated outcome) then
     fail (containment_proof_lost (lit "step execution ended without proof that the managed process tree is empty"))
   else if negb (outcome_succeeded outcome) then
     report_failed_steps session assignment prepared started_at outcome
   else
     transition session assignment JobState.Verifying (Some (running_evidence started_at)) ;?
     (upload ← collect_and_upload session prepared assignment;
      match au_error upload with
      | None => report_success session assignment prepared started_at outcome (au_artifacts upload)
      | Some e => report_failed_upload session assignment prepared started_at outcome (au_artifacts upload) e
      end)).
Definition execute_assignment (session : RunSession) (workspace_root : Path) (assignment : ClaimAssignment) :
    fallible TerminalCompletionAckV1 :=
  snapshot_archive ← fetch_snapshot session assignment;
  match snapshot_archive with
  | Err e => report_source_failure session assignment e id
  | Ok snapshot_archive =>
      prepared ← prepare_job session workspace_root (ca_job_id assignment) (ca_run_id assignment)
        (ca_job_spec assignment) (ca_workspace assignment) snapshot_archive;
      match prepared with
      | Err e => report_source_failure session assignment e (refuse_completion e)
      | Ok prepared => run_prepared session assignment prepared
      end
  end.
End runtime.
