(* ===== verification/WorkerNode.v ===== *)
(** The node's side of the client and the tasks beside an assignment: [WorkerClient] of
    [crates/cyc-worker/src/http.rs], [SecretString] of [security.rs], and the activity
    set, the inventory publication, the reports, the heartbeats and the lease watchdog of
    [runtime.rs].

    The tasks run concurrently with an assignment.  Each is modelled as the program of one
    turn of its loop; what the others do in between is the environment's choice. *)
From Stdlib Require Import ZArith NArith Lia String.
From stdpp Require Import base option list numbers sets gmap.
From S2P Require Import Prelude Text Crates Protocol RunState JobSpec CanonicalJson NodeState WorkerReports WorkerRun Cleanup Onboarding ControllerDb WorkerEnv WorkerClient WorkerProcess WorkerSource WorkerRuntime.
Open Scope rust_scope.

(** ** Credentials *)
Definition SecretString_new (value : rstr) : result AnyError rstr :=
  let value := trim value in
  reject_if (is_empty value) (anyhow (lit "credential file is empty"));;
  reject_if (contains_char 13%N value || contains_char 10%N value || contains_char 0%N value)
    (anyhow (lit "credential contains an invalid control character"));;
  Ok value.

(** cyc-protocol's header names *)
Definition RUN_CREDENTIAL_HEADER : rstr := lit "x-cyc-run-credential".
Definition NODE_REPORT_ACCEPTED_HEADER : rstr := lit "x-cyc-report-accepted".
Definition NODE_REPORT_INVENTORY_REVISION_HEADER : rstr := lit "x-cyc-inventory-revision".
Definition NODE_REPORT_BOOT_GENERATION_HEADER : rstr := lit "x-cyc-telemetry-boot-generation".
Definition NODE_REPORT_SEQUENCE_HEADER : rstr := lit "x-cyc-telemetry-sequence".
Definition NO_CONTENT : N := 204.

Record ClaimResult := {
  cs_assignment : option ClaimAssignment;
  cs_run_credential : option rstr;
  cs_retry_after_seconds : N
}.

(** [serde_json::from_slice] at the types of these answers; [Url::query]. *)
Class NodeWireCrates := {
  parse_claim_response : list N → result rstr ClaimResponse;
  parse_pair_response : list N → result rstr PairResponse;
  parse_pair_ack_response : list N → result rstr PairAckResponse;
  url_query : rstr → option rstr
}.

Section node_client.
Context `{WireCrates, DigestCrate, UuidCrate, SourceCrates, NodeWireCrates}.
Abbreviation fallible A := (io (result AnyError A)).

(** ** Claims *)

(** [headers().get(name)] with [to_str]: absent, unreadable or a text. *)
Definition header_text (response : HttpResponse) (name : rstr) : result unit (option rstr) :=
  if hr_opaque_header response name then Err tt else Ok (hr_header response name).
Definition header_ok (response : HttpResponse) (name : rstr) : option rstr :=
  match header_text response name with Ok value => value | Err _ => None end.
Definition claimed_credential (response : HttpResponse) : result AnyError (option rstr) :=
  value ← map_err (λ _, anyhow (lit "run credential response header is not ASCII"))
    (header_text response RUN_CREDENTIAL_HEADER);
  match value with Some value => Some <$> SecretString_new value | None => Ok None end.
Definition claim (request : ClaimRequest) : fallible ClaimResult :=
  pure (validated (lit "validate claim request") (ClaimRequest_validate request)) ;?
  response ←? send (lit "send worker claim request") (HttpRequest.Claim request);
  if hr_status response == NO_CONTENT then
    done_ok {| cs_assignment := None; cs_run_credential := None;
               cs_retry_after_seconds :=
                 unwrap_or (header_ok response (lit "retry-after") ≫= parse_uint u32_max) 2%N |}
  else
    run_credential ←? pure (claimed_credential response);
    bail_if (is_none_or (hr_content_type response)
               (λ value, negb (eq_ignore_ascii_case value (lit "application/json"))))
      (lit "claim response must use Content-Type application/json") ;?
    data ←? pure (bounded_body response);
    if negb (is_success (hr_status response)) then fail (http_status_error (hr_status response) data)
    else
      parsed ←? pure (context (lit "decode ClaimResponse") (map_err anyhow (parse_claim_response data)));
      (match crs_assignment parsed with
       | Some assignment =>
           pure (validated (lit "validate assignment") (ClaimAssignment_validate assignment)) ;?
           bail_if (is_none run_credential)
             (lit "claim response omitted the one-time run credential header")
       | None =>
           bail_if (is_some run_credential)
             (lit "claim response issued a run credential without an assignment")
       end) ;?
      done_ok {| cs_assignment := crs_assignment parsed; cs_run_credential := run_credential;
                 cs_retry_after_seconds := crs_retry_after_seconds parsed |}.
Definition run_session (assignment : ClaimAssignment) : RunSession :=
  {| ses_run_id := ca_run_id assignment; ses_lease_id := ca_lease_id assignment |}.

(** ** Node reports *)
Definition parse_node_report_accepted (response : HttpResponse) : result AnyError bool :=
  value ← map_err (λ _, anyhow (lit "worker node-report acceptance header is not ASCII"))
    (header_text response NODE_REPORT_ACCEPTED_HEADER);
  value ← ok_or value (anyhow (lit "worker node-report response omitted x-cyc-report-accepted"));
  if value == lit "true" then Ok true
  else if value == lit "false" then Ok false
  else Err (anyhow (lit "worker node-report acceptance header must be `true` or `false`")).
Definition parse_u64_response_header (response : HttpResponse) (name : rstr) : result AnyError N :=
  value ← map_err (λ _, anyhow (lit "worker node-report " ++ name ++ lit " header is not ASCII"))
    (header_text response name);
  value ← ok_or value (anyhow (lit "worker node-report response omitted " ++ name));
  ok_or (parse_uint u64_max value)
    (anyhow (lit "worker node-report " ++ name ++ lit " header is not an unsigned integer")).
(** The receipt in the headers of a response without content. *)
Definition report_receipt (request : NodeReportRequest) (response : HttpResponse) : result AnyError bool :=
  accepted ← parse_node_report_accepted response;
  parse_u64_response_header response NODE_REPORT_INVENTORY_REVISION_HEADER;;
  boot_generation ← parse_u64_response_header response NODE_REPORT_BOOT_GENERATION_HEADER;
  sequence ← parse_u64_response_header response NODE_REPORT_SEQUENCE_HEADER;
  reject_if (accepted && ((boot_generation != tel_boot_generation (nr_telemetry request))
                          || (sequence != tel_sequence (nr_telemetry request))))
    (anyhow (lit "accepted node-report receipt does not match the submitted generation/sequence"));;
  Ok accepted.
Definition node_report (request : NodeReportRequest) : fallible bool :=
  pure (validated (lit "validate node report request") (NodeReportRequest_validate request)) ;?
  response ←? send (lit "send worker node report") (HttpRequest.NodeReport request);
  if hr_status response == NO_CONTENT then pure (report_receipt request response)
  else
    data ←? pure (bounded_body response);
    if negb (is_success (hr_status response)) then fail (http_status_error (hr_status response) data)
    else bail (lit "worker node-report endpoint must return HTTP 204 No Content").

(** ** Pairing *)
Definition validate_https_url (raw : rstr) : result AnyError Url :=
  url ← ok_or (parse_url raw) (anyhow (lit "parse worker URL"));
  reject_if (url_scheme url != lit "https") (anyhow (lit "worker URL must use HTTPS"));;
  reject_if (is_none (url_host url) || (url_username url != []) || is_some (url_password url))
    (anyhow (lit "worker URL must contain a host and no embedded credentials"));;
  reject_if (is_some (url_query raw) || is_some (url_fragment url))
    (anyhow (lit "worker URL must not contain a query or fragment"));;
  Ok url.
Definition validate_enrollment_bundle (bundle : EnrollmentBundleV1) : fallible unit :=
  pure (validated (lit "validate shared enrollment contract") (EnrollmentBundleV1_validate bundle)) ;?
  pure (validate_https_url (eb_worker_url bundle)) ;?
  (now ← call Op.Now;
   bail_if (eb_expires_at bundle <=? now)%Z (lit "enrollment bundle has expired")).
Definition pair_response_bound (bundle : EnrollmentBundleV1) (request : PairRequest) (response : PairResponse) :
    result AnyError unit :=
  reject_if (eb_controller_id bundle != prs_controller_id response)
    (anyhow (lit "pairing response controllerId does not match enrollment bundle"));;
  reject_if (eb_intended_node_id bundle != prs_node_id response)
    (anyhow (lit "pairing response nodeId does not match enrollment intendedNodeId"));;
  reject_if (eb_pairing_id bundle != prs_pairing_id response)
    (anyhow (lit "pairing response pairingId does not match enrollment bundle"));;
  reject_if (pr_credential_sha256 request != prs_credential_sha256 response)
    (anyhow (lit "pairing response credentialSha256 does not match staged credential")).
Definition pair (bundle : EnrollmentBundleV1) (request : PairRequest) : fallible PairResponse :=
  validate_enrollment_bundle bundle ;?
  pure (validated (lit "validate pair request") (PairRequest_validate request)) ;?
  pure (validate_https_url (eb_worker_url bundle)) ;?
  response ←? send (lit "send worker pairing request") (HttpRequest.Pair bundle request);
  response ←? pure (decode_json parse_pair_response response);
  pure (validated (lit "validate pairing response") (PairResponse_validate response)) ;?
  pure (pair_response_bound bundle request response) ;?
  done_ok response.
Definition acknowledge_pairing (request : PairAckRequest) : fallible PairAckResponse :=
  pure (validated (lit "validate pairing acknowledgement") (PairAckRequest_validate request)) ;?
  response ←? send (lit "send pairing acknowledgement") (HttpRequest.PairAck request);
  response ←? pure (decode_json parse_pair_ack_response response);
  pure (validated (lit "validate pairing acknowledgement response") (PairAckResponse_validate response)) ;?
  bail_if ((pas_pairing_id response != par_pairing_id request) || (pas_node_id response != par_node_id request)
           || (pas_credential_sha256 response != par_credential_sha256 request))
    (lit "pairing acknowledgement response changed the immutable binding") ;?
  done_ok response.

(** ** Activity

    [WorkerActivity]: the active runs, of which there is at most one.  Its lock is never
    poisoned here. *)
Definition WorkerActivity := gset Uuid.
Definition activity_begin (active : WorkerActivity) (run_id : Uuid) : result AnyError WorkerActivity :=
  if bool_decide (active ≠ ∅) || bool_decide (run_id ∈ active)
  then Err (anyhow (lit "one-slot worker already has an active run"))
  else Ok ({[run_id]} ∪ active).
Definition activity_end (active : WorkerActivity) (run_id : Uuid) : result AnyError WorkerActivity :=
  if bool_decide (run_id ∈ active) then Ok (active ∖ {[run_id]})
  else Err (anyhow (lit "active run was not present in worker activity state")).

(** ** Publication of the inventory

    [InventoryPublicationState]: the inventory of the last accepted report. *)
Definition InventoryPublicationState := option NodeInventory.
Definition without_inventory (report : NodeReportRequest) : NodeReportRequest :=
  {| nr_api_version := nr_api_version report; nr_inventory := None; nr_telemetry := nr_telemetry report |}.
Definition publication_prepare (accepted : InventoryPublicationState) (report : NodeReportRequest) :
    NodeReportRequest :=
  if is_some_and (nr_inventory report) (λ inventory, accepted == Some inventory)
  then without_inventory report else report.
Definition record_success (accepted : InventoryPublicationState) (report : NodeReportRequest) :
    InventoryPublicationState :=
  match nr_inventory report with Some inventory => Some inventory | None => accepted end.
Definition invalidate (accepted : InventoryPublicationState) : InventoryPublicationState := None.
(** One turn of [node_report_loop], which never ends by itself. *)
Definition node_report_turn (active : WorkerActivity) (accepted : InventoryPublicationState) :
    io InventoryPublicationState :=
  sample ← call (Op.Sample (elements active));
  match sample with
  | Err _ => mret accepted
  | Ok request =>
      let request := publication_prepare accepted request in
      r ← node_report request;
      mret match r with
           | Ok true => record_success accepted request
           | Ok false | Err _ => invalidate accepted
           end
  end.

(** ** Heartbeats

    [heartbeat_snapshot] reads the state under its lock and then the version. *)
Definition heartbeat_snapshot : io (N * JobState.t) :=
  state ← call Op.LoadState;
  version ← call Op.LoadVersion;
  mret (version, state).
(** One turn of [heartbeat_loop]: whether it goes on. *)
Definition heartbeat_turn (session : RunSession) (run_id lease_id : Uuid) : io bool :=
  cancellation ← call Op.LoadCancellation;
  if cancellation != CANCEL_NONE then mret false
  else
    '(expected_version, st) ← heartbeat_snapshot;
    last_log_sequence ← call Op.LoadLastLogSequence;
    let request :=
      {| hb_run_id := run_id; hb_lease_id := lease_id; hb_expected_version := expected_version;
         hb_state := st; hb_probe := None; hb_last_log_sequence := last_log_sequence |} in
    r ← heartbeat session request;
    match r with
    | Ok response =>
        if (hbr_current_version response <? hb_expected_version request)%N then mret true
        else
          publish_version (hbr_current_version response);;
          lease_until ← call Op.LoadLeaseUntil;
          (if (lease_until <? hbr_lease_until response)%Z
           then call (Op.StoreLeaseUntil (hbr_lease_until response)) else mret tt);;
          if hbr_cancel_requested response
          then call (Op.StoreCancellation CANCEL_REQUESTED);; mret false
          else mret true
    | Err e =>
        match conflict_of e with
        | Some conflict => apply_version_conflict conflict;; mret (negb (vc_cancel_requested conflict))
        | None => mret true
        end
    end.
(** One turn of [lease_watchdog] *)
Definition watchdog_turn : io bool :=
  cancellation ← call Op.LoadCancellation;
  if cancellation != CANCEL_NONE then mret false
  else
    now ← call Op.Now;
    lease_until ← call Op.LoadLeaseUntil;
    if (lease_until <=? now)%Z
    then call (Op.CompareExchangeCancellation CANCEL_NONE CANCEL_LEASE_LOST);; mret false
    else mret true.
End node_client.
