(* ===== verification/WorkerIdentity.v ===== *)
(** The files that make a worker what it is: [crates/cyc-worker/src/config.rs], with the
    secrets of [security.rs].

    The configuration, the credential, the locks and the enrollment bundle live in one
    private directory.  Checking, writing, replacing and removing a protected file are
    operations here; [ProtectedStore] says what they promise. *)
From Stdlib Require Import ZArith NArith Lia String.
From stdpp Require Import base option list numbers sets gmap.
From S2P Require Import Prelude Text Crates Protocol Snapshot CanonicalJson WorkerReports Onboarding ControllerDb WorkerEnv WorkerClient WorkerProcess WorkerSource WorkerExecutor WorkerRuntime WorkerNode.
Open Scope rust_scope.

(** ** Paths

    [PathBuf] as a document or an argument holds it: its components, absolute or not.
    Everything else works on absolute paths. *)
Record PathBuf := { pb_absolute : bool; pb_path : Path }.
#[export] Instance PathBuf_eq_dec : EqDecision PathBuf.
Proof. solve_decision. Defined.
Definition absolute (p : Path) : PathBuf := {| pb_absolute := true; pb_path := p |}.
(** [base.join(p)] *)
Definition anchored (base : Path) (p : PathBuf) : PathBuf :=
  absolute (if pb_absolute p then pb_path p else base ++ pb_path p).
Definition path_file_name (p : Path) : option rstr :=
  match last p with Some name => if name == lit ".." then None else Some name | None => None end.
Definition file_stem (name : rstr) : rstr :=
  match split_once (chr ".") (rev name) with
  | Some (_, stem) => if is_empty stem then name else rev stem
  | None => name
  end.
Definition file_extension (name : rstr) : option rstr :=
  match split_once (chr ".") (rev name) with
  | Some (extension, stem) => if is_empty stem then None else Some (rev extension)
  | None => None
  end.
Definition path_extension (p : Path) : option rstr := path_file_name p ≫= file_extension.
(** [path.with_extension(extension)]: nothing changes without a file name. *)
Definition with_extension (path : Path) (extension : rstr) : Path :=
  match path_parent path, path_file_name path with
  | Some parent, Some name => path_join parent (file_stem name ++ lit "." ++ extension)
  | _, _ => path
  end.
(** The directory of a file; a configuration is never the root directory. *)
Definition config_directory (path : Path) : Path := unwrap_or (path_parent path) [].

(** [text.contains(needle)] *)
Fixpoint contains_text (needle text : rstr) : bool :=
  starts_with needle text || match text with [] => false | _ :: text => contains_text needle text end.

(** ** Documents *)
Definition WORKER_CONFIG_VERSION : rstr := lit "cyc.dev/worker-config/v1".
Record WorkerConfig := {
  cfg_api_version : rstr;
  cfg_worker_url : rstr;
  cfg_certificate_pem : rstr;
  cfg_controller_id : Uuid;
  cfg_node_id : Uuid;
  cfg_worker_api_version : rstr;
  cfg_heartbeat_interval_seconds : N;
  cfg_lease_seconds : N;
  cfg_workspace : PathBuf;
  cfg_credential : PathBuf
}.
(** [workspace_root] and [credential_file]: a configuration in use has absolute ones. *)
Definition cfg_workspace_root (config : WorkerConfig) : Path := pb_path (cfg_workspace config).
Definition cfg_credential_file (config : WorkerConfig) : Path := pb_path (cfg_credential config).

(** serde_json for the configuration and the enrollment bundle *)
Class IdentityCrates := {
  config_json : WorkerConfig → result rstr (list N);
  parse_config : list N → result rstr WorkerConfig;
  parse_enrollment : list N → result rstr EnrollmentBundleV1
}.

Section identity.
Context `{WireCrates, DigestCrate, UuidCrate, SourceCrates, NodeWireCrates, IdentityCrates}.
Abbreviation fallible A := (io (result AnyError A)).

(** ** Protected files *)
Definition protected_input (path : Path) : fallible unit :=
  call (Op.HostCheck (lit "ensure_protected_input " ++ path_display path)).
Definition protected_directory (path : Path) : fallible unit :=
  call (Op.HostCheck (lit "ensure_protected_directory " ++ path_display path)).
Definition private_directory (path : Path) : fallible unit :=
  call (Op.HostCheck (lit "prepare_private_directory " ++ path_display path)).
(** [operation(...).context(message)] of a composed operation *)
Definition in_context {A} (message : rstr) (m : fallible A) : fallible A := r ← m; mret (context message r).

Definition malformed_secret (value : rstr) : bool :=
  contains_char 13%N value || contains_char 10%N value || contains_char 0%N value.
Definition read_secret_file (path : Path) : fallible rstr :=
  protected_input path ;?
  call_io (lit "open protected credential file " ++ path_display path) (Op.OpenRead path) ;?
  length ←? call_io (lit "read credential metadata") (Op.FileLength path);
  bail_if (16 * 1024 <? length)%N (lit "credential file is unexpectedly large") ;?
  value ←? call_io (lit "read credential as UTF-8") (Op.ReadToString path);
  pure (SecretString_new value).
Definition write_secret_file (path : Path) (value : rstr) : fallible unit :=
  bail_if (is_empty value || malformed_secret value)
    (lit "refusing to persist an empty or malformed credential") ;?
  call (Op.WriteProtected path (bytes value)).

(** ** Locks *)
Definition ensure_lock_file (path : Path) (marker : list N) : fallible unit :=
  r ← call (Op.SymlinkMetadata path);
  match r with
  | Ok _ => protected_input path
  | Err e =>
      if io_not_found e then
        w ← call (Op.WriteProtected path marker);
        match w with Ok _ => done_ok tt | Err _ => protected_input path end
      else fail (with_context (lit "inspect protected lock file " ++ path_display path) (from_io e))
  end.
(** [acquire_pairing_lock]; the lock is held until the program ends. *)
Definition acquire_pairing_lock (config_path : Path) : fallible unit :=
  let parent := config_directory config_path in
  (r ← private_directory parent;
   match r with
   | Ok _ => done_ok tt
   | Err create_error =>
       r ← protected_directory parent;
       match r with
       | Ok _ => done_ok tt
       | Err _ => fail (with_context (lit "provision protected pairing directory " ++ path_display parent) create_error)
       end
   end) ;?
  protected_directory parent ;?
  (let lock_path := with_extension config_path (lit "pair.lock") in
   ensure_lock_file lock_path (bytes (lit "cyc pairing lock") ++ [10%N]) ;?
   call (Op.LockFile lock_path)).

(** ** The configuration *)
Definition migration_marker (config_path : Path) : Path :=
  path_join (config_directory config_path) (lit ".migration-stage.json").
Definition reject_pending_migration (config_path : Path) : fallible unit :=
  r ← call (Op.SymlinkMetadata (migration_marker config_path));
  match r with
  | Ok _ => bail (lit "worker migration is pending; inspect with migration-status before activation")
  | Err e =>
      if io_not_found e then done_ok tt
      else fail (with_context (lit "inspect migration staging boundary") (from_io e))
  end.
Definition WorkerConfig_validate (c : WorkerConfig) : result AnyError unit :=
  reject_if (cfg_api_version c != WORKER_CONFIG_VERSION)
    (anyhow (lit "unsupported worker config apiVersion `" ++ cfg_api_version c ++ lit "`"));;
  validate_https_url (cfg_worker_url c);;
  reject_if (blank (cfg_certificate_pem c)) (anyhow (lit "worker config certificatePem must not be empty"));;
  reject_if (blank (cfg_worker_api_version c)) (anyhow (lit "workerApiVersion must not be empty"));;
  reject_if (negb (pb_absolute (cfg_workspace c))) (anyhow (lit "workspaceRoot must be absolute"));;
  reject_if (negb (pb_absolute (cfg_credential c))) (anyhow (lit "credentialFile must be absolute"));;
  reject_if ((cfg_heartbeat_interval_seconds c =? 0) || (3600 <? cfg_heartbeat_interval_seconds c))%N
    (anyhow (lit "heartbeatIntervalSeconds must be in 1..=3600"));;
  reject_if ((cfg_lease_seconds c <=? cfg_heartbeat_interval_seconds c) || (86400 <? cfg_lease_seconds c))%N
    (anyhow (lit "leaseSeconds must be greater than heartbeatIntervalSeconds and <= 86400")).
(** The relative paths of a stored configuration are below its directory. *)
Definition anchored_config (base : Path) (c : WorkerConfig) : WorkerConfig :=
  {| cfg_api_version := cfg_api_version c; cfg_worker_url := cfg_worker_url c;
     cfg_certificate_pem := cfg_certificate_pem c; cfg_controller_id := cfg_controller_id c;
     cfg_node_id := cfg_node_id c; cfg_worker_api_version := cfg_worker_api_version c;
     cfg_heartbeat_interval_seconds := cfg_heartbeat_interval_seconds c;
     cfg_lease_seconds := cfg_lease_seconds c;
     cfg_workspace := anchored base (cfg_workspace c); cfg_credential := anchored base (cfg_credential c) |}.
Definition config_load (path : Path) : fallible WorkerConfig :=
  reject_pending_migration path ;?
  in_context (lit "refuse unprotected worker config " ++ path_display path) (protected_input path) ;?
  raw ←? call_io (lit "read config " ++ path_display path) (Op.ReadToEnd path);
  bail_if (256 * 1024 <? byte_count raw)%N (lit "worker config is unexpectedly large") ;?
  config ←? pure (context (lit "parse worker config JSON") (map_err anyhow (parse_config raw)));
  let config := anchored_config (config_directory path) config in
  pure (WorkerConfig_validate config) ;?
  done_ok config.
Definition load_credential (config : WorkerConfig) : fallible rstr :=
  read_secret_file (cfg_credential_file config).
Definition config_persist (config : WorkerConfig) (path : Path) (replace : bool) : fallible unit :=
  reject_pending_migration path ;?
  pure (WorkerConfig_validate config) ;?
  data ←? pure (context (lit "serialize worker config") (map_err anyhow (config_json config)));
  let data := data ++ [10%N] in
  call_any (lit "persist protected worker config " ++ path_display path)
    (if replace then Op.ReplaceProtected path data else Op.WriteProtected path data).

(** ** The enrollment bundle *)
Definition load_enrollment_bundle (path : Path) : fallible EnrollmentBundleV1 :=
  protected_input path ;?
  raw ←? call_io (lit "read enrollment bundle " ++ path_display path) (Op.ReadToEnd path);
  bail_if (128 * 1024 <? byte_count raw)%N (lit "enrollment bundle is unexpectedly large") ;?
  bundle ←? pure (context (lit "parse enrollment bundle JSON") (map_err anyhow (parse_enrollment raw)));
  validate_enrollment_bundle bundle ;?
  done_ok bundle.

(** http.rs: [WorkerClient::from_config], what can fail in it. *)
Definition control_request_timeout (config : WorkerConfig) : result AnyError N :=
  WorkerConfig_validate config;;
  let seconds := N.min (cfg_lease_seconds config - 1) 30 in
  reject_if ((seconds =? 0) || (cfg_lease_seconds config <=? seconds))%N
    (anyhow (lit "control request timeout must be positive and strictly below leaseSeconds"));;
  Ok seconds.
Definition client_from_config (config : WorkerConfig) : fallible unit :=
  call (Op.HostCheck (lit "build_tls_client")) ;?
  pure (validate_https_url (cfg_worker_url config)) ;?
  load_credential config ;?
  pure (control_request_timeout config) ;?
  done_ok tt.
End identity.

(** ** Generated secrets

    A secret of hexadecimal digits is stored and sent as it is. *)
Lemma hex_not_space c : is_lower_hex c = true → is_whitespace c = false ∧ c ≠ 13%N ∧ c ≠ 10%N ∧ c ≠ 0%N.
Proof.
  unfold is_lower_hex, is_ascii_digit, is_whitespace, between.
  rewrite orb_true_iff, !andb_true_iff, !N.leb_le. intros Hc.
  rewrite !orb_false_iff, !andb_false_iff, !N.leb_gt, !N.eqb_neq. lia.
Qed.
Lemma trim_start_same s : Forall (λ c, is_whitespace c = false) s → trim_start s = s.
Proof. destruct s as [|c s]; [done|]. intros [Hc _]%Forall_cons. cbn. by rewrite Hc. Qed.
Lemma staged_is_secret v : lower_hex_of_len 64 v = true → SecretString_new v = Ok v ∧ malformed_secret v = false ∧ v ≠ [].
Proof.
  intros Hv. apply (lower_hex_of_len_spec 64) in Hv as [Hlen Hhex].
  assert (Forall (λ c, is_whitespace c = false) v) as Hw by (eapply Forall_impl; [exact Hhex|]; intros c Hc; by apply hex_not_space).
  assert (trim v = v) as Htrim.
  { unfold trim, trim_end. rewrite (trim_start_same v) by exact Hw. rewrite trim_start_same; [by rewrite rev_involutive|].
    by apply Forall_rev. }
  assert (malformed_secret v = false) as Hm.
  { unfold malformed_secret. rewrite !orb_false_iff, !contains_char_false. rewrite Forall_forall in Hhex.
    split_and!; intros Hin%Hhex; vm_compute in Hin; discriminate Hin. }
  unfold SecretString_new. rewrite Htrim. unfold malformed_secret in Hm. rewrite Hm. by destruct v.
Qed.
