(* ===== verification/PairingLedger.v ===== *)
(** The worker's pairing ledger: [PairingCredentialLedger] of
    [crates/cyc-worker/src/runtime.rs] as data, with its validation and the changes that
    the pairing transaction makes to it.

    A record follows the credential of one enrollment from the moment before its file is
    written until the file is gone again. *)
From Stdlib Require Import ZArith NArith Lia String.
From stdpp Require Import base option list numbers sets gmap.
From S2P Require Import Prelude Text Crates Protocol JobSpec Snapshot CanonicalJson WorkerReports Onboarding ControllerDb WorkerEnv WorkerClient WorkerProcess WorkerSource WorkerExecutor WorkerRuntime WorkerNode WorkerIdentity.
Open Scope rust_scope.

Definition PAIRING_LEDGER_VERSION : rstr := lit "cyc.dev/worker-pairing-state/v1".
Definition MAX_PAIRING_LEDGER_BYTES : N := 256 * 1024.
Definition MAX_PAIRING_LEDGER_RECORDS : N := 32.

Module PairingCredentialState.
Inductive t :=
| Staged | PairRequestUnknown | PairAccepted | ConfigCommitted | Acknowledged
| TerminalUnavailable | Superseded | Expired.
#[export] Instance eq_dec : EqDecision t.
Proof. solve_decision. Defined.
Definition deletes_staged_credential (s : t) : bool :=
  match s with TerminalUnavailable | Superseded | Expired => true | _ => false end.
Definition has_uncertain_remote_state (s : t) : bool :=
  match s with PairRequestUnknown | PairAccepted | ConfigCommitted => true | _ => false end.
End PairingCredentialState.
Export (hints) PairingCredentialState.
Import PairingCredentialState.

Record PairingCredentialRecord := {
  rec_pairing_id : Uuid;
  rec_controller_id : Uuid;
  rec_node_id : Uuid;
  rec_credential_file : PathBuf;
  rec_credential_sha256 : rstr;
  rec_created_at : DateTime;
  rec_expires_at : DateTime;
  rec_state : PairingCredentialState.t;
  rec_previous_credential_file : option PathBuf;
  rec_previous_credential_sha256 : option rstr;
  rec_previous_cleanup_pending : bool;
  rec_cleanup_pending : bool
}.
Record PairingCredentialLedger := {
  ldg_api_version : rstr;
  ldg_records : list PairingCredentialRecord
}.
Definition ledger_empty : PairingCredentialLedger :=
  {| ldg_api_version := PAIRING_LEDGER_VERSION; ldg_records := [] |}.
(** The setters of a record's mutable fields. *)
Definition set_state (s : PairingCredentialState.t) (r : PairingCredentialRecord) : PairingCredentialRecord :=
  {| rec_pairing_id := rec_pairing_id r; rec_controller_id := rec_controller_id r; rec_node_id := rec_node_id r;
     rec_credential_file := rec_credential_file r; rec_credential_sha256 := rec_credential_sha256 r;
     rec_created_at := rec_created_at r; rec_expires_at := rec_expires_at r; rec_state := s;
     rec_previous_credential_file := rec_previous_credential_file r;
     rec_previous_credential_sha256 := rec_previous_credential_sha256 r;
     rec_previous_cleanup_pending := rec_previous_cleanup_pending r;
     rec_cleanup_pending := rec_cleanup_pending r |}.
Definition set_digest (d : rstr) (r : PairingCredentialRecord) : PairingCredentialRecord :=
  {| rec_pairing_id := rec_pairing_id r; rec_controller_id := rec_controller_id r; rec_node_id := rec_node_id r;
     rec_credential_file := rec_credential_file r; rec_credential_sha256 := d;
     rec_created_at := rec_created_at r; rec_expires_at := rec_expires_at r; rec_state := rec_state r;
     rec_previous_credential_file := rec_previous_credential_file r;
     rec_previous_credential_sha256 := rec_previous_credential_sha256 r;
     rec_previous_cleanup_pending := rec_previous_cleanup_pending r;
     rec_cleanup_pending := rec_cleanup_pending r |}.
Definition set_cleanup_pending (b : bool) (r : PairingCredentialRecord) : PairingCredentialRecord :=
  {| rec_pairing_id := rec_pairing_id r; rec_controller_id := rec_controller_id r; rec_node_id := rec_node_id r;
     rec_credential_file := rec_credential_file r; rec_credential_sha256 := rec_credential_sha256 r;
     rec_created_at := rec_created_at r; rec_expires_at := rec_expires_at r; rec_state := rec_state r;
     rec_previous_credential_file := rec_previous_credential_file r;
     rec_previous_credential_sha256 := rec_previous_credential_sha256 r;
     rec_previous_cleanup_pending := rec_previous_cleanup_pending r; rec_cleanup_pending := b |}.
Definition set_previous_cleanup_pending (b : bool) (r : PairingCredentialRecord) : PairingCredentialRecord :=
  {| rec_pairing_id := rec_pairing_id r; rec_controller_id := rec_controller_id r; rec_node_id := rec_node_id r;
     rec_credential_file := rec_credential_file r; rec_credential_sha256 := rec_credential_sha256 r;
     rec_created_at := rec_created_at r; rec_expires_at := rec_expires_at r; rec_state := rec_state r;
     rec_previous_credential_file := rec_previous_credential_file r;
     rec_previous_credential_sha256 := rec_previous_credential_sha256 r;
     rec_previous_cleanup_pending := b; rec_cleanup_pending := rec_cleanup_pending r |}.
Definition with_records (ledger : PairingCredentialLedger) (records : list PairingCredentialRecord) :
    PairingCredentialLedger :=
  {| ldg_api_version := ldg_api_version ledger; ldg_records := records |}.

(** What a cleanup removes: the staged credential of a record or its predecessor's. *)
Module PairingCleanupSlot.
Inductive t := Staged | Previous.
#[export] Instance eq_dec : EqDecision t.
Proof. solve_decision. Defined.
End PairingCleanupSlot.
Export (hints) PairingCleanupSlot.

(** serde_json for the ledger, pretty and compact *)
Class LedgerCrates := {
  ledger_json : PairingCredentialLedger → result rstr (list N);
  ledger_json_compact : PairingCredentialLedger → result rstr (list N);
  parse_ledger : list N → result rstr PairingCredentialLedger
}.

(** ** Validation *)
Section ledger.
Context `{UuidCrate}.
Definition ledger_path (config_path : Path) : Path := with_extension config_path (lit "pairing-state.json").
Definition staged_path (config_path : Path) (pairing_id : Uuid) : Path :=
  with_extension config_path (uuid_display pairing_id ++ lit ".credential").
Definition validate_credential_digest (value : rstr) : result AnyError unit :=
  reject_if (negb (lower_hex_of_len 64 value))
    (anyhow (lit "pairing ledger credential digest is not canonical lowercase SHA-256")).
Definition validate_ledger_credential_path (config_path : Path) (p : PathBuf) : result AnyError unit :=
  parent ← ok_or (path_parent config_path) (anyhow (lit "worker config must have a parent directory"));
  reject_if (negb (pb_absolute p) || (path_parent (pb_path p) != Some parent))
    (anyhow (lit "pairing ledger credential is not a direct child of the config directory"));;
  reject_if (path_extension (pb_path p) != Some (lit "credential"))
    (anyhow (lit "pairing ledger path is not a credential file")).
Definition validate_previous (config_path : Path) (r : PairingCredentialRecord) : result AnyError unit :=
  match rec_previous_credential_file r, rec_previous_credential_sha256 r with
  | Some path, Some digest =>
      reject_if (path == rec_credential_file r)
        (anyhow (lit "pairing ledger previous credential aliases the staged credential"));;
      validate_ledger_credential_path config_path path;;
      validate_credential_digest digest
  | None, None => Ok tt
  | _, _ => Err (anyhow (lit "pairing ledger previous credential binding is incomplete"))
  end.
(** One turn of the loop over the records; the identifiers and paths before it. *)
Definition validate_record (config_path : Path) (pairing_ids : list Uuid) (staged_paths : list PathBuf)
    (r : PairingCredentialRecord) : result AnyError unit :=
  reject_if (uuid_is_nil (rec_pairing_id r) || uuid_is_nil (rec_controller_id r) || uuid_is_nil (rec_node_id r))
    (anyhow (lit "pairing ledger contains a nil identifier"));;
  reject_if (bool_decide (rec_pairing_id r ∈ pairing_ids))
    (anyhow (lit "pairing ledger contains a duplicate pairingId"));;
  reject_if (bool_decide (rec_credential_file r ∈ staged_paths))
    (anyhow (lit "pairing ledger contains a duplicate staged credential path"));;
  reject_if (rec_credential_file r != absolute (staged_path config_path (rec_pairing_id r)))
    (anyhow (lit "pairing ledger staged credential path is not pairing-owned"));;
  validate_ledger_credential_path config_path (rec_credential_file r);;
  validate_credential_digest (rec_credential_sha256 r);;
  reject_if (rec_expires_at r <=? rec_created_at r)%Z
    (anyhow (lit "pairing ledger contains an invalid expiry range"));;
  validate_previous config_path r;;
  reject_if (rec_previous_cleanup_pending r && is_none (rec_previous_credential_file r))
    (anyhow (lit "pairing has previous cleanup pending without a previous credential"));;
  reject_if ((rec_state r == Acknowledged) && rec_cleanup_pending r)
    (anyhow (lit "acknowledged pairing cannot delete its current credential")).
Fixpoint validate_records (config_path : Path) (pairing_ids : list Uuid) (staged_paths : list PathBuf)
    (records : list PairingCredentialRecord) : result AnyError unit :=
  match records with
  | [] => Ok tt
  | r :: records =>
      validate_record config_path pairing_ids staged_paths r;;
      validate_records config_path (rec_pairing_id r :: pairing_ids) (rec_credential_file r :: staged_paths) records
  end.
Definition ledger_validate (ledger : PairingCredentialLedger) (config_path : Path) : result AnyError unit :=
  reject_if (ldg_api_version ledger != PAIRING_LEDGER_VERSION)
    (anyhow (lit "unsupported pairing ledger apiVersion `" ++ ldg_api_version ledger ++ lit "`"));;
  reject_if (MAX_PAIRING_LEDGER_RECORDS <? N.of_nat (length (ldg_records ledger)))%N
    (anyhow (lit "pairing ledger contains too many records"));;
  validate_records config_path [] [] (ldg_records ledger).

(** ** Looking up and changing records *)
Definition ledger_record (ledger : PairingCredentialLedger) (pairing_id : Uuid) : option PairingCredentialRecord :=
  List.find (λ r, rec_pairing_id r == pairing_id) (ldg_records ledger).
(** [record_mut]: the first record with the identifier is changed. *)
Fixpoint change_first (pairing_id : Uuid) (f : PairingCredentialRecord → PairingCredentialRecord)
    (records : list PairingCredentialRecord) : list PairingCredentialRecord :=
  match records with
  | [] => []
  | r :: records =>
      if rec_pairing_id r == pairing_id then f r :: records else r :: change_first pairing_id f records
  end.
Definition record_mut (ledger : PairingCredentialLedger) (pairing_id : Uuid)
    (f : PairingCredentialRecord → PairingCredentialRecord) : option PairingCredentialLedger :=
  match ledger_record ledger pairing_id with
  | Some _ => Some (with_records ledger (change_first pairing_id f (ldg_records ledger)))
  | None => None
  end.
Definition same_binding (controller_id node_id : Uuid) (r : PairingCredentialRecord) : bool :=
  (rec_controller_id r == controller_id) && (rec_node_id r == node_id).
(** [transition], up to persisting *)
Definition transitioned (state : PairingCredentialState.t) (r : PairingCredentialRecord) : PairingCredentialRecord :=
  let r := set_state state r in
  if deletes_staged_credential state then set_cleanup_pending true r else r.
(** [mark_terminal_ack], up to persisting *)
Definition terminal_acknowledged (r : PairingCredentialRecord) : PairingCredentialRecord :=
  let r := set_cleanup_pending true (set_state TerminalUnavailable r) in
  set_previous_cleanup_pending (is_some (rec_previous_credential_file r)) r.
(** [acknowledge_and_supersede], up to persisting *)
Definition acknowledged_or_superseded (pairing_id controller_id node_id : Uuid) (r : PairingCredentialRecord) :
    PairingCredentialRecord :=
  if rec_pairing_id r == pairing_id then
    set_previous_cleanup_pending (is_some (rec_previous_credential_file r))
      (set_cleanup_pending false (set_state Acknowledged r))
  else if same_binding controller_id node_id r then set_cleanup_pending true (set_state Superseded r)
  else r.

End ledger.
