(* ===== verification/WorkerPairing.v ===== *)
(** The pairing transaction of a worker: [pair_with_transport] of
    [crates/cyc-worker/src/runtime.rs] and everything that it calls.

    A credential is staged in a protected file, with its digest in the ledger, before the
    request that consumes the enrollment is sent; the configuration is committed when the
    controller accepted, and the pairing is acknowledged after that.  Each step is in the
    ledger before the next begins, so that a transaction that was interrupted anywhere
    resumes with the same secret.  Credentials are removed only by the garbage collection
    of the ledger. *)
From Stdlib Require Import ZArith NArith Lia String.
From stdpp Require Import base option list numbers sets gmap sorting.
From S2P Require Import Prelude Text Crates Protocol JobSpec Snapshot CanonicalJson WorkerReports Onboarding ControllerDb WorkerEnv WorkerClient WorkerProcess WorkerSource WorkerExecutor WorkerRuntime WorkerNode WorkerIdentity PairingLedger.
Import PairingCredentialState.
Open Scope rust_scope.

Record PairOptions := { opt_workspace_root : option PathBuf; opt_repair : bool }.
(** [PairingLayout]: the paths are absolute; [lay_previous] is [previous_credential] with
    its digest, which are set together. *)
Record PairingLayout := {
  lay_config_path : Path;
  lay_config_parent : Path;
  lay_workspace_root : Path;
  lay_credential_file : Path;
  lay_previous_credential : option PathBuf;
  lay_previous_credential_sha256 : option rstr;
  lay_existing_config : option WorkerConfig;
  lay_committed_config : option WorkerConfig
}.
(** What is to be removed at a path: the digest that is expected there and the record
    slots that ask for it. *)
Definition Candidate : Type := PathBuf * (rstr * list (nat * PairingCleanupSlot.t)).

(** The order of a [BTreeMap] of paths. *)
Fixpoint path_cmp (p q : Path) : comparison :=
  match p, q with
  | [], [] => Eq
  | [], _ => Lt
  | _, [] => Gt
  | a :: p, b :: q => then_with (str_cmp a b) (path_cmp p q)
  end.

(** ** Cleanup candidates, from the ledger alone *)
Definition cleanup_targets (r : PairingCredentialRecord) : list (PathBuf * rstr * PairingCleanupSlot.t) :=
  if has_uncertain_remote_state (rec_state r) then []
  else
    (if rec_cleanup_pending r && deletes_staged_credential (rec_state r)
     then [(rec_credential_file r, rec_credential_sha256 r, PairingCleanupSlot.Staged)] else []) ++
    (if rec_previous_cleanup_pending r
        && ((rec_state r == Acknowledged) || (rec_state r == Superseded)) then
       match rec_previous_credential_file r, rec_previous_credential_sha256 r with
       | Some path, Some digest => [(path, digest, PairingCleanupSlot.Previous)]
       | _, _ => []
       end
     else []).
Definition protected_target (invocation : option Uuid) (current : option PathBuf) (r : PairingCredentialRecord)
    (slot : PairingCleanupSlot.t) (path : PathBuf) : bool :=
  ((slot == PairingCleanupSlot.Staged) && (invocation == Some (rec_pairing_id r))) || (current == Some path).
Fixpoint add_candidate (path : PathBuf) (digest : rstr) (slot : nat * PairingCleanupSlot.t)
    (candidates : list Candidate) : result AnyError (list Candidate) :=
  match candidates with
  | [] => Ok [(path, (digest, [slot]))]
  | (p, (d, slots)) :: rest =>
      match path_cmp (pb_path path) (pb_path p) with
      | Eq =>
          if d != digest
          then Err (anyhow (lit "pairing ledger assigns conflicting digests to one cleanup path"))
          else Ok ((p, (d, slots ++ [slot])) :: rest)
      | Lt => Ok ((path, (digest, [slot])) :: candidates)
      | Gt => rest ← add_candidate path digest slot rest; Ok ((p, (d, slots)) :: rest)
      end
  end.
Fixpoint add_targets (invocation : option Uuid) (current : option PathBuf) (index : nat)
    (r : PairingCredentialRecord) (targets : list (PathBuf * rstr * PairingCleanupSlot.t))
    (candidates : list Candidate) : result AnyError (list Candidate) :=
  match targets with
  | [] => Ok candidates
  | (path, digest, slot) :: targets =>
      candidates ← (if protected_target invocation current r slot path then Ok candidates
                    else add_candidate path digest (index, slot) candidates);
      add_targets invocation current index r targets candidates
  end.
Fixpoint candidates_from (invocation : option Uuid) (current : option PathBuf) (index : nat)
    (records : list PairingCredentialRecord) (candidates : list Candidate) : result AnyError (list Candidate) :=
  match records with
  | [] => Ok candidates
  | r :: records =>
      candidates ← add_targets invocation current index r (cleanup_targets r) candidates;
      candidates_from invocation current (S index) records candidates
  end.
(** A slot that was cleaned up. *)
Definition clear_slot (slot : PairingCleanupSlot.t) (r : PairingCredentialRecord) : PairingCredentialRecord :=
  match slot with
  | PairingCleanupSlot.Staged => set_cleanup_pending false r
  | PairingCleanupSlot.Previous => set_previous_cleanup_pending false r
  end.
Definition clear_slots (slots : list (nat * PairingCleanupSlot.t)) (records : list PairingCredentialRecord) :
    list PairingCredentialRecord :=
  foldl (λ records '(index, slot), alter (clear_slot slot) index records) records slots.
(** The records that stay. *)
Definition retained (invocation : option Uuid) (current : option PathBuf) (r : PairingCredentialRecord) : bool :=
  (invocation == Some (rec_pairing_id r)) || (current == Some (rec_credential_file r))
  || rec_cleanup_pending r || rec_previous_cleanup_pending r
  || has_uncertain_remote_state (rec_state r) || negb (deletes_staged_credential (rec_state r)).
(** A staged credential that no request was sent for is given up when it expires. *)
Definition expires_now (now : DateTime) (invocation : option Uuid) (current : option PathBuf)
    (controller_id node_id : Uuid) (r : PairingCredentialRecord) : bool :=
  same_binding controller_id node_id r && (rec_state r == Staged) && (rec_expires_at r <=? now)%Z
  && (invocation != Some (rec_pairing_id r)) && (current != Some (rec_credential_file r)).
Definition expired_record (r : PairingCredentialRecord) : PairingCredentialRecord :=
  set_cleanup_pending true (set_state Expired r).
Definition conflicts_with_current (current : PathBuf * rstr) (controller_id node_id : Uuid)
    (r : PairingCredentialRecord) : bool :=
  (rec_credential_file r == current.1)
  && ((rec_credential_sha256 r != current.2) || negb (same_binding controller_id node_id r)).

Section pairing.
Context `{WireCrates, DigestCrate, UuidCrate, SourceCrates, NodeWireCrates, IdentityCrates, LedgerCrates}.
Abbreviation fallible A := (io (result AnyError A)).

(** ** The ledger's file *)
Definition ledger_load (config_path : Path) : fallible PairingCredentialLedger :=
  let path := ledger_path config_path in
  exists_ ←? path_entry_exists path;
  if negb exists_ then done_ok ledger_empty
  else
    in_context (lit "verify protected pairing ledger " ++ path_display path) (protected_input path) ;?
    raw ←? call_io (lit "read protected pairing ledger " ++ path_display path) (Op.ReadToEnd path);
    bail_if (MAX_PAIRING_LEDGER_BYTES <? byte_count raw)%N (lit "pairing ledger is unexpectedly large") ;?
    ledger ←? pure (context (lit "parse strict pairing ledger JSON") (map_err anyhow (parse_ledger raw)));
    pure (ledger_validate ledger config_path) ;?
    done_ok ledger.
Definition ledger_persist (ledger : PairingCredentialLedger) (config_path : Path) : fallible unit :=
  pure (ledger_validate ledger config_path) ;?
  (let path := ledger_path config_path in
   data ←? pure (context (lit "serialize pairing ledger") (map_err anyhow (ledger_json ledger)));
   bail_if (MAX_PAIRING_LEDGER_BYTES <=? byte_count data)%N
     (lit "pairing ledger exceeds its protected storage bound") ;?
   (let data := data ++ [10%N] in
    exists_ ←? path_entry_exists path;
    call_any (lit "persist protected pairing ledger " ++ path_display path)
      (if exists_ : bool then Op.ReplaceProtected path data else Op.WriteProtected path data))).
(** A changed ledger, which is in use once it is stored. *)
Definition persisted (config_path : Path) (ledger : PairingCredentialLedger) : fallible PairingCredentialLedger :=
  ledger_persist ledger config_path ;? done_ok ledger.
Definition transition (config_path : Path) (pairing_id : Uuid) (state : PairingCredentialState.t)
    (ledger : PairingCredentialLedger) : fallible PairingCredentialLedger :=
  ledger ←? pure (ok_or (record_mut ledger pairing_id (transitioned state))
    (anyhow (lit "pairing ledger record disappeared")));
  persisted config_path ledger.
Definition mark_terminal_ack (config_path : Path) (pairing_id : Uuid) (ledger : PairingCredentialLedger) :
    fallible PairingCredentialLedger :=
  ledger ←? pure (ok_or (record_mut ledger pairing_id terminal_acknowledged)
    (anyhow (lit "pairing ledger record disappeared after terminal acknowledgement")));
  persisted config_path ledger.
Definition acknowledge_and_supersede (config_path : Path) (pairing_id : Uuid) (ledger : PairingCredentialLedger) :
    fallible PairingCredentialLedger :=
  current ←? pure (ok_or (ledger_record ledger pairing_id)
    (anyhow (lit "pairing ledger record disappeared before acknowledgement")));
  persisted config_path
    (with_records ledger
       (acknowledged_or_superseded pairing_id (rec_controller_id current) (rec_node_id current) <$> ldg_records ledger)).

(** A file of the record, staged or previous, is there. *)
Definition owns_existing_file (r : PairingCredentialRecord) : fallible bool :=
  exists_ ←? path_entry_exists (pb_path (rec_credential_file r));
  if exists_ : bool then done_ok true
  else match rec_previous_credential_file r with
       | Some path => path_entry_exists (pb_path path)
       | None => done_ok false
       end.
Definition foreign_state : rstr :=
  lit "pairing ledger contains protected state for a different controller or node".
Fixpoint prepare_records (enrollment : EnrollmentBundleV1) (current : option PathBuf)
    (records : list PairingCredentialRecord) : fallible (list PairingCredentialRecord) :=
  match records with
  | [] => done_ok []
  | r :: records =>
      let same := same_binding (eb_controller_id enrollment) (eb_intended_node_id enrollment) r in
      owns ←? owns_existing_file r;
      bail_if (negb same && owns) foreign_state ;?
      r ←? (if negb same || (rec_pairing_id r == eb_pairing_id enrollment) then done_ok r
            else if (rec_state r == Staged) && (current != Some (rec_credential_file r)) then
              now ← call Op.Now;
              done_ok (set_cleanup_pending true
                (set_state (if (rec_expires_at r <=? now)%Z then Expired else Superseded) r))
            else done_ok r);
      records ←? prepare_records enrollment current records;
      done_ok (r :: records)
  end.
Definition prepare_invocation (config_path : Path) (enrollment : EnrollmentBundleV1)
    (current_config : option WorkerConfig) (ledger : PairingCredentialLedger) : fallible PairingCredentialLedger :=
  records ←? prepare_records enrollment (cfg_credential <$> current_config) (ldg_records ledger);
  persisted config_path (with_records ledger records).

(** ** Garbage collection *)
Definition credential_sha256 (credential : rstr) : rstr := sha256_hex (bytes credential).
Fixpoint refuse_foreign_files (controller_id node_id : Uuid) (records : list PairingCredentialRecord) : fallible unit :=
  match records with
  | [] => done_ok tt
  | r :: records =>
      (if same_binding controller_id node_id r then done_ok tt
       else owns ←? owns_existing_file r; bail_if owns foreign_state) ;?
      refuse_foreign_files controller_id node_id records
  end.
(** [false] says that the file is already gone. *)
Definition verify_owned_credential_for_cleanup (config_path : Path) (path : PathBuf) (expected_digest : rstr) :
    fallible bool :=
  pure (validate_ledger_credential_path config_path path) ;?
  pure (validate_credential_digest expected_digest) ;?
  exists_ ←? path_entry_exists (pb_path path);
  if negb exists_ then done_ok false
  else
    protected_input (pb_path path) ;?
    parent ←? pure (ok_or (path_parent config_path) (anyhow (lit "worker config must have a parent directory")));
    canonical_parent ←? call_io (lit "canonicalize pairing state directory " ++ path_display parent)
      (Op.Canonicalize parent);
    canonical_file ←? call_io (lit "canonicalize pairing credential " ++ path_display (pb_path path))
      (Op.Canonicalize (pb_path path));
    bail_if (path_parent canonical_file != Some canonical_parent)
      (lit "pairing cleanup candidate is not a canonical direct child") ;?
    credential ←? read_secret_file (pb_path path);
    bail_if (credential_sha256 credential != expected_digest)
      (lit "pairing cleanup candidate digest does not match its ledger binding") ;?
    done_ok true.
(** Every candidate is checked before any is removed. *)
Fixpoint preflight (config_path : Path) (candidates : list Candidate) : fallible (list (Candidate * bool)) :=
  match candidates with
  | [] => done_ok []
  | candidate :: candidates =>
      present ←? verify_owned_credential_for_cleanup config_path candidate.1 candidate.2.1;
      rest ←? preflight config_path candidates;
      done_ok ((candidate, present) :: rest)
  end.
Fixpoint remove_candidates (candidates : list (Candidate * bool)) (records : list PairingCredentialRecord) :
    fallible (list PairingCredentialRecord) :=
  match candidates with
  | [] => done_ok records
  | ((path, (_, slots)), present) :: candidates =>
      (if present : bool then
         call_any (lit "remove ledger-owned stale credential " ++ path_display (pb_path path))
           (Op.RemoveProtected (pb_path path))
       else done_ok tt) ;?
      remove_candidates candidates (clear_slots slots records)
  end.
Definition current_binding (config : option WorkerConfig) : fallible (option (PathBuf * rstr)) :=
  match config with
  | Some config =>
      credential ←? load_credential config;
      done_ok (Some (cfg_credential config, credential_sha256 credential))
  | None => done_ok None
  end.
(** From the candidates on, with a stored ledger; [changed] says whether it was expired. *)
Definition collect_candidates (config_path : Path) (invocation : option Uuid) (current : option PathBuf)
    (changed : bool) (ledger : PairingCredentialLedger) : fallible PairingCredentialLedger :=
  candidates ←? pure (candidates_from invocation current 0 (ldg_records ledger) []);
  present ←? preflight config_path candidates;
  records ←? remove_candidates present (ldg_records ledger);
  let kept := List.filter (retained invocation current) records in
  let changed := changed || negb (is_empty candidates) || negb (length kept =? length records)%nat in
  let ledger := with_records ledger kept in
  if changed then persisted config_path ledger else done_ok ledger.
Definition garbage_collect_pairing_credentials (config_path : Path) (current_config : option WorkerConfig)
    (invocation : option Uuid) (controller_id node_id : Uuid) (ledger : PairingCredentialLedger) :
    fallible PairingCredentialLedger :=
  binding ←? current_binding current_config;
  refuse_foreign_files controller_id node_id (ldg_records ledger) ;?
  pure (match binding with
        | Some current =>
            validate_ledger_credential_path config_path current.1;;
            reject_if (existsb (conflicts_with_current current controller_id node_id) (ldg_records ledger))
              (anyhow (lit "current worker credential conflicts with the pairing ledger binding"))
        | None => Ok tt
        end) ;?
  (now ← call Op.Now;
   let current := fst <$> binding in
   let expires := expires_now now invocation current controller_id node_id in
   let changed := existsb expires (ldg_records ledger) in
   let ledger := with_records ledger
     ((λ r, if expires r then expired_record r else r) <$> ldg_records ledger) in
   ledger ←? (if changed then persisted config_path ledger else done_ok ledger);
   collect_candidates config_path invocation current changed ledger).

(** ** The lock of the transaction *)
Definition PAIRING_TRANSACTION_WAIT_TIMEOUT : N := 120 * 1000000000.
Definition PAIRING_TRANSACTION_RETRY_DELAY : N := millis 25.
Definition is_pairing_lock_timeout (e : AnyError) : bool :=
  contains_text (lit "timed out waiting for pairing transaction lock") (ae_text e).
(** The loop until the deadline; [lock_attempts] are enough when time passes. *)
Fixpoint lock_until (fuel : nat) (deadline : N) (config_path : Path) : fallible unit :=
  r ← acquire_pairing_lock config_path;
  match r with
  | Ok _ => done_ok tt
  | Err e =>
      if is_pairing_lock_timeout e then
        now ← call Op.Instant;
        if (deadline <=? now)%N then fail e
        else
          call (Op.Sleep PAIRING_TRANSACTION_RETRY_DELAY);;
          match fuel with O => fail e | S fuel => lock_until fuel deadline config_path end
      else fail e
  end.
Definition lock_attempts : nat := N.to_nat 4801.
Definition acquire_pairing_transaction_lock (config_path : Path) : fallible unit :=
  now ← call Op.Instant;
  lock_until lock_attempts (now + PAIRING_TRANSACTION_WAIT_TIMEOUT)%N config_path.

(** ** The layout *)
Definition absolute_clean_path (path : PathBuf) (label : rstr) : fallible Path :=
  clean ←? (if pb_absolute path then done_ok (pb_path path)
            else r ← call Op.CurrentDir;
                 mret ((λ cwd, cwd ++ pb_path path) <$> map_err from_io r));
  bail_if (existsb (λ component, (component == lit ".") || (component == lit "..")) clean)
    (label ++ lit " path must not contain `.` or `..` components") ;?
  done_ok clean.
(** The configuration that is already there, with all that is checked of it. *)
Definition existing_config (config_path config_parent : Path) (expected_controller_id expected_node_id : Uuid) :
    fallible WorkerConfig :=
  config ←? config_load config_path;
  bail_if (cfg_controller_id config != expected_controller_id)
    (lit "enrollment controllerId does not match the existing worker config") ;?
  bail_if (cfg_node_id config != expected_node_id)
    (lit "enrollment intendedNodeId does not match the existing worker config") ;?
  load_credential config ;?
  credential_parent ←? pure (ok_or (path_parent (cfg_credential_file config))
    (anyhow (lit "existing credential file must have a parent directory")));
  canonical_credential ←? call_io (lit "canonicalize credential parent") (Op.Canonicalize credential_parent);
  canonical_config ←? call_io (lit "canonicalize config parent") (Op.Canonicalize config_parent);
  bail_if (canonical_credential != canonical_config)
    (lit "existing credential file is not owned by the worker config directory") ;?
  done_ok config.
(** [existing.filter(|config| config.credential_file == credential_file)] *)
Definition committed (credential_file : Path) (existing : option WorkerConfig) : option WorkerConfig :=
  match existing with
  | Some config => if cfg_credential config == absolute credential_file then Some config else None
  | None => None
  end.
Definition requested_workspace (requested : option PathBuf) (existing : option WorkerConfig)
    (config_parent : Path) : fallible Path :=
  match requested with
  | Some path =>
      bail_if (negb (pb_absolute path)) (lit "--workspace-root must be an absolute path") ;?
      absolute_clean_path path (lit "worker workspace")
  | None =>
      done_ok match existing with
              | Some config => cfg_workspace_root config
              | None => path_join config_parent (lit "workspace")
              end
  end.
Definition prepare_pairing_layout (config_path : Path) (options : PairOptions)
    (expected_controller_id expected_node_id pairing_id : Uuid) : fallible PairingLayout :=
  config_path ←? absolute_clean_path (absolute config_path) (lit "worker config");
  config_exists ←? path_entry_exists config_path;
  config_parent ←? pure (ok_or (path_parent config_path) (anyhow (lit "worker config must have a parent directory")));
  in_context (lit "provision or verify worker config directory " ++ path_display config_parent)
    (private_directory config_parent) ;?
  appeared ←? (if negb config_exists then path_entry_exists config_path else done_ok false);
  bail_if appeared (lit "worker config appeared during secure layout creation: " ++ path_display config_path) ;?
  (let credential_file := staged_path config_path pairing_id in
   existing ←? (if config_exists : bool then
                  config ←? existing_config config_path config_parent expected_controller_id expected_node_id;
                  done_ok (Some config)
                else
                  bail_if (opt_repair options)
                    (lit "--repair requires an existing protected worker config: " ++ path_display config_path) ;?
                  done_ok None);
   let committed_config := committed credential_file existing in
   bail_if (is_some existing && is_none committed_config && negb (opt_repair options))
     (lit "worker config already exists; pass --repair only for an enrollment issued to the same controller and intended node: "
        ++ path_display config_path) ;?
   workspace_root ←? requested_workspace (opt_workspace_root options) existing config_parent;
   bail_if (is_some_and committed_config (λ config, absolute workspace_root != cfg_workspace config))
     (lit "resumed pairing workspaceRoot does not match the committed worker config") ;?
   in_context (lit "provision or verify worker workspace " ++ path_display workspace_root)
     (private_directory workspace_root) ;?
   protected_directory config_parent ;?
   protected_directory workspace_root ;?
   (let previous := if is_some committed_config then None else existing in
    digest ←? match previous with
              | Some config => credential ←? load_credential config; done_ok (Some (credential_sha256 credential))
              | None => done_ok None
              end;
    done_ok {| lay_config_path := config_path; lay_config_parent := config_parent;
               lay_workspace_root := workspace_root; lay_credential_file := credential_file;
               lay_previous_credential := cfg_credential <$> previous;
               lay_previous_credential_sha256 := digest;
               lay_existing_config := existing; lay_committed_config := committed_config |})).

(** ** Staging the credential *)
Definition new_staged_credential : fallible rstr :=
  a ← call Op.NewUuid; b ← call Op.NewUuid;
  pure (SecretString_new (uuid_simple a ++ uuid_simple b)).
Definition validate_staged_credential (credential : rstr) : result AnyError unit :=
  reject_if (negb (lower_hex_of_len 64 credential))
    (anyhow (lit "staged worker credential has an invalid generated format")).
(** What the ledger must say of the enrollment before its credential is used. *)
Definition check_staged_record (layout : PairingLayout) (enrollment : EnrollmentBundleV1)
    (r : PairingCredentialRecord) : result AnyError unit :=
  reject_if ((rec_controller_id r != eb_controller_id enrollment) || (rec_node_id r != eb_intended_node_id enrollment)
             || (rec_credential_file r != absolute (lay_credential_file layout)))
    (anyhow (lit "pairing ledger record does not match the current enrollment binding"));;
  reject_if (deletes_staged_credential (rec_state r))
    (anyhow (lit "pairing enrollment has a durable terminal local state"));;
  reject_if (((rec_previous_credential_file r != lay_previous_credential layout)
              || (rec_previous_credential_sha256 r != lay_previous_credential_sha256 layout))
             && is_none (lay_committed_config layout))
    (anyhow (lit "pairing ledger previous credential binding changed")).
(** A record that is there: its digest is replaced when the file had not been written. *)
Definition restaged_record (layout : PairingLayout) (created : bool) (digest : rstr) (r : PairingCredentialRecord) :
    result AnyError PairingCredentialRecord :=
  reject_if (negb created && (rec_credential_sha256 r != digest))
    (anyhow (lit "staged worker credential digest does not match the durable pairing ledger"));;
  r ← (if created then
         reject_if (rec_state r != Staged)
           (anyhow (lit "uncertain or committed pairing credential is missing"));;
         Ok (set_digest digest r)
       else Ok r);
  Ok (if is_some (lay_committed_config layout) && (rec_state r != Acknowledged) then set_state ConfigCommitted r else r).
Definition new_record (layout : PairingLayout) (enrollment : EnrollmentBundleV1) (digest : rstr) :
    PairingCredentialRecord :=
  {| rec_pairing_id := eb_pairing_id enrollment; rec_controller_id := eb_controller_id enrollment;
     rec_node_id := eb_intended_node_id enrollment;
     rec_credential_file := absolute (lay_credential_file layout); rec_credential_sha256 := digest;
     rec_created_at := eb_created_at enrollment; rec_expires_at := eb_expires_at enrollment;
     rec_state := if is_some (lay_committed_config layout) then ConfigCommitted else Staged;
     rec_previous_credential_file := lay_previous_credential layout;
     rec_previous_credential_sha256 := lay_previous_credential_sha256 layout;
     rec_previous_cleanup_pending := false; rec_cleanup_pending := false |}.
(** The ledger with the record of the credential that is in use. *)
Definition staged_ledger (layout : PairingLayout) (enrollment : EnrollmentBundleV1) (created : bool) (digest : rstr)
    (ledger : PairingCredentialLedger) : result AnyError PairingCredentialLedger :=
  match ledger_record ledger (eb_pairing_id enrollment) with
  | Some r =>
      r ← restaged_record layout created digest r;
      Ok (with_records ledger (change_first (eb_pairing_id enrollment) (λ _, r) (ldg_records ledger)))
  | None =>
      reject_if (MAX_PAIRING_LEDGER_RECORDS <=? N.of_nat (length (ldg_records ledger)))%N
        (anyhow (lit "pairing ledger record limit reached; unresolved credentials remain protected"));;
      Ok (with_records ledger (ldg_records ledger ++ [new_record layout enrollment digest]))
  end.
Definition stage_pairing_credential (layout : PairingLayout) (enrollment : EnrollmentBundleV1)
    (ledger : PairingCredentialLedger) : fallible (rstr * PairingCredentialLedger) :=
  pure (match ledger_record ledger (eb_pairing_id enrollment) with
        | Some r => check_staged_record layout enrollment r
        | None => Ok tt
        end) ;?
  exists_ ←? path_entry_exists (lay_credential_file layout);
  credential ←? (if exists_ : bool
                 then in_context (lit "resume protected staged worker credential")
                        (read_secret_file (lay_credential_file layout))
                 else new_staged_credential);
  let created := negb exists_ in
  pure (validate_staged_credential credential) ;?
  ledger ←? pure (staged_ledger layout enrollment created (credential_sha256 credential) ledger);
  ledger ←? persisted (lay_config_path layout) ledger;
  (if created then
     in_context (lit "persist protected staged worker credential before pairing")
       (write_secret_file (lay_credential_file layout) credential)
   else done_ok tt) ;?
  done_ok (credential, ledger).

(** ** The transport

    [PairingTransport] and its implementation over HTTP. *)
Record PairingTransport := {
  transport_pair : EnrollmentBundleV1 → PairRequest → fallible PairResponse;
  transport_acknowledge : WorkerConfig → Uuid → Uuid → rstr → fallible unit
}.
Definition acknowledge_committed_pairing (config : WorkerConfig) (pairing_id intended_node_id : Uuid)
    (credential_sha256 : rstr) : fallible unit :=
  bail_if (cfg_node_id config != intended_node_id)
    (lit "committed worker config nodeId does not match enrollment") ;?
  client_from_config config ;?
  acknowledge_pairing
    {| par_api_version := WORKER_API_VERSION; par_pairing_id := pairing_id; par_node_id := intended_node_id;
       par_credential_sha256 := credential_sha256 |} ;?
  done_ok tt.
Definition HttpPairingTransport : PairingTransport :=
  {| transport_pair := pair; transport_acknowledge := acknowledge_committed_pairing |}.
(** http.rs: the codes after which a pairing is over. *)
Definition pairing_terminal_code (e : AnyError) : option rstr :=
  match ae_root e with
  | ErrorRoot.WorkerApiHttp _ code =>
      if (code == lit "pairing_unavailable") || (code == lit "pairing_binding_mismatch")
         || (code == lit "pairing_ack_unauthorized") then Some code else None
  | _ => None
  end.

(** ** The transaction *)

(** The end of both ways: the committed configuration is acknowledged. *)
Definition acknowledge_and_collect (transport : PairingTransport) (config_path : Path) (enrollment : EnrollmentBundleV1)
    (config : WorkerConfig) (staged_digest : rstr) (ledger : PairingCredentialLedger) : fallible WorkerConfig :=
  acknowledgement ← transport_acknowledge transport config (eb_pairing_id enrollment)
    (eb_intended_node_id enrollment) staged_digest;
  match acknowledgement with
  | Err e =>
      (if is_some (pairing_terminal_code e)
       then mark_terminal_ack config_path (eb_pairing_id enrollment) ledger ;? done_ok tt
       else done_ok tt) ;?
      fail e
  | Ok _ =>
      ledger ←? acknowledge_and_supersede config_path (eb_pairing_id enrollment) ledger;
      garbage_collect_pairing_credentials config_path (Some config) None
        (eb_controller_id enrollment) (eb_intended_node_id enrollment) ledger ;?
      done_ok config
  end.
(** A configuration that names the staged credential was committed before. *)
Definition resume_committed (transport : PairingTransport) (config_path : Path) (enrollment : EnrollmentBundleV1)
    (config : WorkerConfig) (staged_digest : rstr) (ledger : PairingCredentialLedger) : fallible WorkerConfig :=
  bail_if ((cfg_worker_url config != eb_worker_url enrollment)
           || (cfg_certificate_pem config != eb_certificate_pem enrollment)
           || (cfg_worker_api_version config != WORKER_API_VERSION))
    (lit "committed worker config does not match the enrollment listener identity") ;?
  credential ←? load_credential config;
  bail_if (credential_sha256 credential != staged_digest)
    (lit "committed worker config credential does not match pairing stage") ;?
  acknowledge_and_collect transport config_path enrollment config staged_digest ledger.
Definition paired_config (layout : PairingLayout) (enrollment : EnrollmentBundleV1) (paired : PairResponse) :
    WorkerConfig :=
  {| cfg_api_version := WORKER_CONFIG_VERSION; cfg_worker_url := eb_worker_url enrollment;
     cfg_certificate_pem := eb_certificate_pem enrollment; cfg_controller_id := prs_controller_id paired;
     cfg_node_id := prs_node_id paired; cfg_worker_api_version := prs_api_version paired;
     cfg_heartbeat_interval_seconds := prs_heartbeat_interval_seconds paired;
     cfg_lease_seconds := prs_lease_seconds paired;
     cfg_workspace := absolute (lay_workspace_root layout);
     cfg_credential := absolute (lay_credential_file layout) |}.
(** What a terminal answer to the request makes of the record. *)
Definition refused_state (code : rstr) : PairingCredentialState.t :=
  if code == lit "pairing_binding_mismatch" then Superseded else TerminalUnavailable.
Definition request_and_commit (transport : PairingTransport) (layout : PairingLayout) (enrollment : EnrollmentBundleV1)
    (staged_digest : rstr) (ledger : PairingCredentialLedger) : fallible WorkerConfig :=
  let config_path := lay_config_path layout in
  let pairing_id := eb_pairing_id enrollment in
  probe ← call (Op.Probe (lay_workspace_root layout));
  let request :=
    {| pr_pairing_id := pairing_id; pr_intended_node_id := eb_intended_node_id enrollment;
       pr_credential_sha256 := staged_digest; pr_display_name := None; pr_probe := probe |} in
  ledger ←? transition config_path pairing_id PairRequestUnknown ledger;
  (answer ← transport_pair transport enrollment request;
   match answer with
   | Err e =>
       match pairing_terminal_code e with
       | Some code => transition config_path pairing_id (refused_state code) ledger ;? done_ok tt
       | None => done_ok tt
       end ;?
       fail e
   | Ok paired =>
       ledger ←? transition config_path pairing_id PairAccepted ledger;
       protected_directory (lay_config_parent layout) ;?
       protected_directory (lay_workspace_root layout) ;?
       (let config := paired_config layout enrollment paired in
        config_persist config config_path (is_some (lay_previous_credential layout)) ;?
        ledger ←? transition config_path pairing_id ConfigCommitted ledger;
        acknowledge_and_collect transport config_path enrollment config staged_digest ledger)
   end).
(** [pair_with_transport]: the lock is held to the end. *)
Definition pair_with_transport (enrollment_file : Path) (config_path : PathBuf) (options : PairOptions)
    (transport : PairingTransport) : fallible WorkerConfig :=
  config_path ←? absolute_clean_path config_path (lit "worker config");
  reject_pending_migration config_path ;?
  acquire_pairing_transaction_lock config_path ;?
  enrollment ←? load_enrollment_bundle enrollment_file;
  layout ←? prepare_pairing_layout config_path options (eb_controller_id enrollment)
    (eb_intended_node_id enrollment) (eb_pairing_id enrollment);
  ledger ←? ledger_load (lay_config_path layout);
  ledger ←? prepare_invocation (lay_config_path layout) enrollment (lay_existing_config layout) ledger;
  ledger ←? garbage_collect_pairing_credentials (lay_config_path layout) (lay_existing_config layout)
    (Some (eb_pairing_id enrollment)) (eb_controller_id enrollment) (eb_intended_node_id enrollment) ledger;
  '(staged_credential, ledger) ←? stage_pairing_credential layout enrollment ledger;
  let staged_digest := credential_sha256 staged_credential in
  match lay_committed_config layout with
  | Some config => resume_committed transport (lay_config_path layout) enrollment config staged_digest ledger
  | None => request_and_commit transport layout enrollment staged_digest ledger
  end.
(** [runtime::pair] *)
Definition pair_worker (enrollment_file : Path) (config_path : PathBuf) (options : PairOptions) :
    fallible WorkerConfig :=
  pair_with_transport enrollment_file config_path options HttpPairingTransport.
End pairing.

(** ** What the garbage collection picks

    [candidates_from] picks different paths, each given up by a record of the ledger and
    none of them the current credential's. *)
Module CredentialCleanup.
(** ** The order of paths *)
Lemma path_cmp_Eq p q : path_cmp p q = Eq ↔ p = q.
Proof.
  revert q. induction p as [|a p IH]; intros [|b q]; cbn; try naive_solver. unfold then_with.
  destruct (str_cmp a b) eqn:E; [|naive_solver (by rewrite (proj2 (str_cmp_Eq _ _) eq_refl) in E)..].
  apply str_cmp_Eq in E as ->. rewrite IH. naive_solver.
Qed.
#[export] Instance path_cmp_total : TotalCmp path_cmp.
Proof.
  split.
  - induction x as [|a p IH]; intros [|b q]; cbn; try done.
    rewrite IH, (cmp_opp (cmp:=str_cmp) a b). by destruct (str_cmp a b).
  - induction x as [|a p IH]; intros [|b q] [|c r]; cbn; try done. specialize (IH q r).
    pose proof (cmp_le_trans (cmp:=str_cmp) a b c) as T1. pose proof (cmp_le_trans (cmp:=str_cmp) c a b) as T3.
    pose proof (cmp_le_trans (cmp:=str_cmp) b c a) as T4.
    rewrite !(cmp_opp (cmp:=str_cmp) a c) in *. rewrite !(cmp_opp (cmp:=str_cmp) a b) in T4.
    rewrite !(cmp_opp (cmp:=str_cmp) b c) in T3. unfold then_with.
    destruct (str_cmp a b), (str_cmp b c), (str_cmp a c); cbn in *; naive_solver.
Qed.

(** ** What cleanup picks *)

(** A record that gives a file up. *)
Definition gives_up (r : PairingCredentialRecord) (p : PathBuf) (digest : rstr) : Prop :=
  (deletes_staged_credential (rec_state r) = true ∧ rec_cleanup_pending r = true ∧
   rec_credential_file r = p ∧ rec_credential_sha256 r = digest) ∨
  ((rec_state r = Acknowledged ∨ rec_state r = Superseded) ∧ rec_previous_cleanup_pending r = true ∧
   rec_previous_credential_file r = Some p ∧ rec_previous_credential_sha256 r = Some digest).
Lemma cleanup_targets_gives_up r path digest slot :
  (path, digest, slot) ∈ cleanup_targets r → gives_up r path digest.
Proof.
  unfold cleanup_targets, gives_up. destruct (has_uncertain_remote_state (rec_state r)); [by intros ?%elem_of_nil|].
  intros [Hin|Hin]%elem_of_app.
  - destruct (_ && _) eqn:E; [|by apply elem_of_nil in Hin]. apply andb_true_iff in E as [? ?].
    apply list_elem_of_singleton in Hin as [= -> -> ->]. by left.
  - destruct (_ && _) eqn:E; [|by apply elem_of_nil in Hin]. apply andb_true_iff in E as [? Hs].
    apply orb_true_iff in Hs. rewrite !bool_decide_eq_true in Hs.
    destruct (rec_previous_credential_file r), (rec_previous_credential_sha256 r); try by apply elem_of_nil in Hin.
    apply list_elem_of_singleton in Hin as [= -> -> ->]. by right.
Qed.
Definition key (c : Candidate) : Path := pb_path c.1.
Definition before (c d : Candidate) : Prop := path_cmp (key c) (key d) = Lt.
Lemma before_trans c d e : before c d → before d e → before c e.
Proof.
  unfold before. intros Hcd Hde.
  pose proof (cmp_le_trans (cmp:=path_cmp) (key c) (key d) (key e)) as T. rewrite Hcd, Hde in T.
  destruct (path_cmp (key c) (key e)) eqn:E; [|done|by destruct T].
  apply path_cmp_Eq in E. rewrite E, (cmp_opp (cmp:=path_cmp) (key d) (key e)), Hde in Hcd. done.
Qed.
Section candidates.
Context (invocation : option Uuid) (current : option PathBuf) (records : list PairingCredentialRecord).
Definition justified (c : Candidate) : Prop :=
  current ≠ Some c.1 ∧ ∃ r, r ∈ records ∧ gives_up r c.1 c.2.1.
Definition picked (cs : list Candidate) : Prop := StronglySorted before cs ∧ Forall justified cs.
Lemma add_candidate_picked path digest slot cs cs' :
  justified (path, (digest, [slot])) → picked cs → add_candidate path digest slot cs = Ok cs' →
  picked cs' ∧ ∀ c, (∀ d, d ∈ cs → before c d) → before c (path, (digest, [slot])) → ∀ d, d ∈ cs' → before c d.
Proof.
  intros Hj. revert cs'. induction cs as [|[p [d slots]] cs IH]; intros cs' [Hs Hf]; cbn [add_candidate].
  { intros [= <-]. split; [split; [by constructor; constructor|by apply Forall_singleton]|]. intros c _ Hc e ->%list_elem_of_singleton. done. }
  apply StronglySorted_inv in Hs as [Hs Hlt]. apply Forall_cons in Hf as [Hp Hf].
  destruct (path_cmp (pb_path path) (pb_path p)) eqn:E.
  - destruct (negb _); [done|]. intros [= <-]. split; [split; by constructor|].
    intros c Hc _ e [->|He]%elem_of_cons; [apply (Hc (p, (d, slots))); by left|apply Hc; by right].
  - intros [= <-]. split.
    + split; [|by rewrite !Forall_cons]. constructor; [by constructor|]. constructor; [done|].
      eapply Forall_impl; [exact Hlt|]. intros e He. exact (before_trans (path, (digest, [slot])) (p, (d, slots)) _ E He).
    + intros c Hc Hn e [->|He]%elem_of_cons; [done|by apply Hc].
  - intros (rest & Hrest & [= <-])%bind_Ok. destruct (IH rest (conj Hs Hf) Hrest) as [[Hs' Hf'] Hall].
    assert (before (p, (d, slots)) (path, (digest, [slot]))) as Hb.
    { unfold before, key. cbn. rewrite (cmp_opp (cmp:=path_cmp) (pb_path path) (pb_path p)), E. done. }
    split.
    + split; constructor; try done. apply Forall_forall. apply Hall; [|done]. intros e He.
      by apply (proj1 (Forall_forall _ _) Hlt).
    + intros c Hc Hn e [->|He]%elem_of_cons; [apply Hc; by left|]. apply (Hall c); [|done|done].
      intros e' He'. apply Hc. by right.
Qed.
Lemma add_targets_picked index r targets cs cs' :
  r ∈ records → Forall (λ '(p, d, _), gives_up r p d) targets → picked cs →
  add_targets invocation current index r targets cs = Ok cs' → picked cs'.
Proof.
  intros Hr. revert cs cs'. induction targets as [|[[p d] slot] targets IH]; intros cs cs' Hf Hp; cbn [add_targets].
  { by intros [= <-]. }
  apply Forall_cons in Hf as [Hd Hf]. intros (cs1 & Hcs1 & Hcs')%bind_Ok. apply (IH cs1); [done| |done].
  destruct (protected_target _ _ _ _ _) eqn:E; [by injection Hcs1 as <-|].
  eapply add_candidate_picked; [|done|done]. split; [|by exists r].
  unfold protected_target in E. apply orb_false_iff in E as [_ E]. by apply bool_decide_eq_false in E.
Qed.
Lemma candidates_from_picked index rs cs cs' :
  rs ⊆ records → picked cs → candidates_from invocation current index rs cs = Ok cs' → picked cs'.
Proof.
  revert index cs. induction rs as [|r rs IH]; intros index cs Hrs Hp; cbn [candidates_from]; [by intros [= <-]|].
  intros (cs1 & Hcs1 & Hcs')%bind_Ok. eapply IH; [|eapply add_targets_picked; [| |exact Hp|exact Hcs1]|exact Hcs'].
  - set_solver.
  - set_solver.
  - apply Forall_forall. intros [[p d] slot] Hin. by eapply cleanup_targets_gives_up.
Qed.
End candidates.
End CredentialCleanup.
