(* ===== verification/WorkerSupervisor.v ===== *)
(** The worker's daemon: the claim loop of [crates/cyc-worker/src/runtime.rs] with the
    active-run guard around every assignment and the cleanup of a job's directory, and
    the boot generation of [config.rs].

    A durable marker is installed before an assignment's first operation and removed only
    after the assignment returned [Ok], that is after the controller accepted its cleanup
    receipt.  Wherever the worker stops in between, the marker remains, and no daemon
    claims while it is there.  The model is that of a Unix build, where the checks for
    reparse points are empty. *)
From Stdlib Require Import ZArith NArith Lia String.
From stdpp Require Import base option list numbers sets gmap.
From S2P Require Import Prelude Text Crates Protocol RunState JobSpec CanonicalJson NodeState WorkerReports WorkerRun Cleanup Onboarding ControllerDb WorkerEnv WorkerClient WorkerProcess WorkerSource WorkerExecutor WorkerRuntime WorkerNode WorkerIdentity.
Open Scope rust_scope.

Definition CONTAINMENT_QUARANTINE_FILE : rstr := lit ".cyc-containment-quarantine.json".
Definition ACTIVE_RUN_GUARD_VERSION : rstr := lit "cyc.dev/active-run-guard/v1".
Definition ACTIVE_RUN_GUARD_REASON : rstr := lit "active_run_pending_terminal_ack".
Definition BOOT_GENERATION_STATE_VERSION : rstr := lit "cyc.dev/worker-boot-generation/v1".
Record ContainmentQuarantineRecord := {
  cq_api_version : rstr; cq_node_id : Uuid; cq_run_id : Uuid; cq_observed_at : DateTime; cq_reason : rstr
}.
Record BootGenerationState := { bg_api_version : rstr; bg_generation : N }.

(** serde_json for the two documents *)
Class DaemonCrates := {
  quarantine_json : ContainmentQuarantineRecord → result rstr (list N);
  parse_quarantine : list N → result rstr ContainmentQuarantineRecord;
  boot_json : BootGenerationState → result rstr (list N);
  parse_boot : list N → result rstr BootGenerationState
}.

(** How a turn of the claim loop ends: the loop goes on with this many failures in a row, or it was asked
    to stop, or it is parked for ever. *)
Module Turn.
Inductive t := Continue (transient_failures : N) | Stop | Parked.
End Turn.
(** How the loop ended, or that it is still running after so many turns. *)
Module LoopEnd.
Inductive t := Returned (r : result AnyError unit) | Parked | Running.
End LoopEnd.

(** ** Errors *)
Definition guard_durability_lost (operation : rstr) (e : AnyError) : AnyError :=
  {| ae_root := ErrorRoot.GuardDurabilityLost operation;
     ae_text := lit "active-run guard durability failed during " ++ operation ++ lit ": " ++ ae_text e |}.
Definition assignment_quarantined (marker : Path) (e : AnyError) : AnyError :=
  {| ae_root := ErrorRoot.AssignmentQuarantined;
     ae_text := lit "assignment did not receive an authoritative terminal acknowledgement; active-run guard retained as containment quarantine at "
                  ++ path_display marker ++ lit ": " ++ ae_text e |}.
Definition fatal_controller_error (e : AnyError) : bool :=
  contains_text (lit "HTTP 401") (ae_text e) || contains_text (lit "HTTP 403") (ae_text e)
  || contains_text (lit "certificate") (ae_text e) || contains_text (lit "worker config") (ae_text e).

Section daemon.
Context `{WireCrates, DigestCrate, UuidCrate, SourceCrates, ExecutorCrates, NodeWireCrates, IdentityCrates, DaemonCrates}.
Abbreviation fallible A := (io (result AnyError A)).

(** ** The active-run guard *)
Definition containment_quarantine_path (config : WorkerConfig) : Path :=
  path_join (cfg_workspace_root config) CONTAINMENT_QUARANTINE_FILE.
Definition refuse_containment_quarantine (config : WorkerConfig) : fallible unit :=
  let marker := containment_quarantine_path config in
  exists_ ←? path_entry_exists marker;
  bail_if exists_ (lit "worker containment quarantine is active at " ++ path_display marker).
(** [FileSync::sync_directory] *)
Definition sync_directory (path : Path) : fallible unit :=
  call_io (lit "flush quarantine parent " ++ path_display path) (Op.SyncDirectory path).
Definition verify_active_run_guard (marker : Path) (expected_node_id expected_run_id : Uuid) : fallible unit :=
  metadata ←? call_io (lit "inspect active-run guard " ++ path_display marker) (Op.SymlinkMetadata marker);
  bail_if (negb (md_is_file metadata) || md_is_symlink metadata)
    (lit "active-run guard is not a direct regular file: " ++ path_display marker) ;?
  data ←? call_io (lit "read active-run guard " ++ path_display marker) (Op.ReadToEnd marker);
  record ←? pure (context (lit "parse active-run guard " ++ path_display marker)
    (map_err anyhow (parse_quarantine data)));
  bail_if ((cq_api_version record != ACTIVE_RUN_GUARD_VERSION) || (cq_node_id record != expected_node_id)
           || (cq_run_id record != expected_run_id) || (cq_reason record != ACTIVE_RUN_GUARD_REASON))
    (lit "active-run guard identity or version mismatch at " ++ path_display marker).
(** The closure [write_result] *)
Definition install_guard (parent marker temporary : Path) (data : list N) : fallible unit :=
  call_io (lit "create active-run temporary " ++ path_display temporary) (Op.CreateNew temporary 384) ;?
  call_io (lit "write active-run guard") (Op.WriteAll temporary data) ;?
  call_io (lit "finish active-run guard") (Op.WriteAll temporary [10%N]) ;?
  call_io (lit "flush active-run guard") (Op.SyncAll temporary) ;?
  exists_ ←? path_entry_exists marker;
  bail_if exists_ (lit "active-run guard appeared concurrently at " ++ path_display marker) ;?
  call_io (lit "atomically install active-run guard") (Op.HardLink temporary marker) ;?
  sync_directory parent ;?
  call_io (lit "remove active-run temporary " ++ path_display temporary) (Op.RemoveFile temporary) ;?
  sync_directory parent.
Definition persist_active_run_guard (config : WorkerConfig) (run_id : Uuid) : fallible Path :=
  let marker := containment_quarantine_path config in
  exists_ ←? path_entry_exists marker;
  bail_if exists_ (lit "active-run guard path already exists and is quarantined: " ++ path_display marker) ;?
  parent ←? pure (ok_or (path_parent marker)
    (anyhow (lit "containment quarantine marker must have a parent")));
  metadata ←? call_io (lit "inspect worker workspace " ++ path_display parent) (Op.SymlinkMetadata parent);
  bail_if (negb (md_is_dir metadata) || md_is_symlink metadata)
    (lit "worker workspace is not a direct directory: " ++ path_display parent) ;?
  (observed_at ← call Op.Now;
   data ←? pure (context (lit "serialize containment quarantine") (map_err anyhow (quarantine_json
     {| cq_api_version := ACTIVE_RUN_GUARD_VERSION; cq_node_id := cfg_node_id config; cq_run_id := run_id;
        cq_observed_at := observed_at; cq_reason := ACTIVE_RUN_GUARD_REASON |})));
   id ← call Op.NewUuid;
   let temporary :=
     path_join parent (lit "." ++ CONTAINMENT_QUARANTINE_FILE ++ lit "." ++ uuid_display id ++ lit ".tmp") in
   write_result ← install_guard parent marker temporary data;
   (match write_result with
    | Ok _ => done_ok tt
    | Err e =>
        present ← path_entry_exists marker;
        (if negb (match present with Ok b => b | Err _ => false end)
         then call (Op.RemoveFile temporary);; mret tt else mret tt);;
        fail e
    end) ;?
   exists_ ←? path_entry_exists marker;
   bail_if (negb exists_) (lit "active-run guard did not persist at " ++ path_display marker) ;?
   verify_active_run_guard marker (cfg_node_id config) run_id ;?
   done_ok marker).
(** [ActiveRunGuard::clear] *)
Definition clear_guard (config : WorkerConfig) (run_id : Uuid) (marker : Path) : fallible unit :=
  verify_active_run_guard marker (cfg_node_id config) run_id ;?
  call_io (lit "remove active-run guard " ++ path_display marker) (Op.RemoveFile marker) ;?
  parent ←? pure (ok_or (path_parent marker) (anyhow (lit "active-run guard must have a parent")));
  sync_directory parent.
Definition run_guarded_assignment (config : WorkerConfig) (run_id : Uuid) (work : fallible unit) : fallible unit :=
  marker ←? (r ← persist_active_run_guard config run_id;
             mret (map_err (guard_durability_lost (lit "establish")) r));
  (result ← work;
   match result with
   | Ok _ =>
       r ← clear_guard config run_id marker;
       mret (map_err (guard_durability_lost (lit "clear")) r)
   | Err e =>
       (r ← verify_active_run_guard marker (cfg_node_id config) run_id;
        mret (map_err (guard_durability_lost (lit "retain")) r)) ;?
       fail (assignment_quarantined marker e)
   end).

(** ** The cleanup of a job's directory *)
Definition verify_direct_directory_for_cleanup (path : Path) : fallible unit :=
  metadata ←? call_io (lit "inspect cleanup directory " ++ path_display path) (Op.SymlinkMetadata path);
  bail_if (negb (md_is_dir metadata) || md_is_symlink metadata)
    (lit "cleanup path is not a direct directory: " ++ path_display path).
Fixpoint verify_cleanup_entries (root : Path) (entries : list (result IoError WalkEntry)) : fallible unit :=
  match entries with
  | [] => done_ok tt
  | entry :: entries =>
      entry ←? pure (context (lit "walk cleanup root " ++ path_display root) (map_err from_io entry));
      let path := root ++ we_relative entry in
      metadata ←? call_io (lit "inspect cleanup entry " ++ path_display path) (Op.SymlinkMetadata path);
      bail_if (md_is_symlink metadata)
        (lit "cleanup root contains a symlink or reparse point: " ++ path_display path) ;?
      verify_cleanup_entries root entries
  end.
(** The walk starts with the root itself. *)
Definition root_entry : WalkEntry := {| we_relative := []; we_is_file := false; we_is_symlink := false |}.
Definition verify_cleanup_tree (root : Path) : fallible unit :=
  entries ← call (Op.Walk root); verify_cleanup_entries root (Ok root_entry :: entries).
(** From the rename on. *)
Definition quarantine_and_remove (jobs target : Path) (run_id : Uuid) : fallible JobRootCleanupOutcomeV1.t :=
  id ← call Op.NewUuid;
  let quarantine := path_join jobs (lit ".cleanup-" ++ uuid_display run_id ++ lit "-" ++ uuid_display id) in
  exists_ ←? path_entry_exists quarantine;
  bail_if exists_ (lit "cleanup quarantine path already exists") ;?
  call_io (lit "atomically quarantine completed job root " ++ path_display target) (Op.Rename target quarantine) ;?
  exists_ ←? path_entry_exists target;
  bail_if exists_ (lit "completed job root still exists after quarantine rename") ;?
  verify_direct_directory_for_cleanup quarantine ;?
  verify_cleanup_tree quarantine ;?
  call_io (lit "remove quarantined completed job root " ++ path_display quarantine) (Op.RemoveDirAll quarantine) ;?
  left ←? path_entry_exists quarantine;
  remains ←? (if left : bool then done_ok true else path_entry_exists target);
  bail_if remains (lit "completed job root remains after recursive cleanup") ;?
  sync_directory jobs ;?
  done_ok JobRootCleanupOutcomeV1.Removed.
Definition remove_job_root_after_terminal_ack (workspace_root : Path) (run_id : Uuid) (relative_root : rstr) :
    fallible JobRootCleanupOutcomeV1.t :=
  bail_if (relative_root != job_root run_id)
    (lit "assignment job root is not the exact controller-owned run root") ;?
  call_any (lit "verify protected worker workspace before cleanup")
    (Op.HostCheck (lit "ensure_protected_directory")) ;?
  canonical_workspace ←? call_io (lit "canonicalize worker workspace " ++ path_display workspace_root)
    (Op.Canonicalize workspace_root);
  let jobs := path_join workspace_root (lit "jobs") in
  exists_ ←? path_entry_exists jobs;
  if negb exists_ then done_ok JobRootCleanupOutcomeV1.NotCreated
  else
    verify_direct_directory_for_cleanup jobs ;?
    canonical_jobs ←? call_io (lit "canonicalize jobs root " ++ path_display jobs) (Op.Canonicalize jobs);
    bail_if (path_parent canonical_jobs != Some canonical_workspace)
      (lit "canonical jobs root escaped the configured worker workspace") ;?
    let target := path_join jobs (uuid_display run_id) in
    exists_ ←? path_entry_exists target;
    if negb exists_ then done_ok JobRootCleanupOutcomeV1.NotCreated
    else
      verify_direct_directory_for_cleanup target ;?
      canonical_target ←? call_io (lit "canonicalize job root " ++ path_display target) (Op.Canonicalize target);
      bail_if ((path_parent canonical_target != Some canonical_jobs)
               || (last canonical_target != Some (uuid_display run_id)))
        (lit "canonical job root does not match workspace/jobs/<run-id>") ;?
      verify_cleanup_tree target ;?
      quarantine_and_remove jobs target run_id.

(** ** One assignment *)
Definition validate_job_digest (assignment : ClaimAssignment) : result AnyError unit :=
  actual ← context (lit "canonicalize assigned job for digest validation")
    (map_err (λ _, anyhow (lit "invalid")) (canonical_job_digest (ca_job_spec assignment)));
  reject_if (actual != ca_job_digest assignment)
    (anyhow (lit "assigned jobDigest does not match the immutable JobSpec")).
Definition cleanup_receipt (assignment : ClaimAssignment) (outcome : JobRootCleanupOutcomeV1.t)
    (now : DateTime) (terminal_ack : TerminalCompletionAckV1) : CleanupReceiptV1 :=
  {| cl_api_version := CLEANUP_API_VERSION; cl_run_id := ca_run_id assignment;
     cl_lease_id := ca_lease_id assignment; cl_relative_root := ws_relative_root (ca_workspace assignment);
     cl_outcome := outcome; cl_job_root_deleted := outcome == JobRootCleanupOutcomeV1.Removed;
     cl_observed_at := (now `max` ack_acknowledged_at terminal_ack)%Z; cl_terminal_ack := terminal_ack |}.
(** The heartbeats, the lease watchdog and the job's timeout run beside
    [execute_assignment] and are aborted before its result is looked at. *)
Definition process_assignment (config : WorkerConfig) (assignment : ClaimAssignment) : fallible unit :=
  pure (validated (lit "validate claimed assignment") (ClaimAssignment_validate assignment)) ;?
  pure (validate_job_digest assignment) ;?
  (now ← call Op.Now;
   bail_if (ca_lease_until assignment <=? now)%Z (lit "claimed assignment lease is already expired") ;?
   (let session := run_session assignment in
    put_sink HttpLogSink_new;;
    terminal_ack ←? execute_assignment session (cfg_workspace_root config) assignment;
    outcome ←? remove_job_root_after_terminal_ack (cfg_workspace_root config) (ca_run_id assignment)
      (ws_relative_root (ca_workspace assignment));
    (now ← call Op.Now;
     r ← cleanup session (cleanup_receipt assignment outcome now terminal_ack);
     pure (context (lit "submit authoritative job-root cleanup receipt") r) ;?
     done_ok tt))).

(** ** The claim loop *)
Definition retry_delay (transient_failures : N) : N := N.min (2 ^ N.min transient_failures 4) 30.
Definition sleep_then (delay transient_failures : N) : fallible Turn.t :=
  stop ← call (Op.SleepOrStop (seconds delay));
  done_ok (if stop : bool then Turn.Stop else Turn.Continue transient_failures).
Definition handle_guarded_assignment_error (e : AnyError) : fallible Turn.t :=
  match ae_root e with
  | ErrorRoot.GuardDurabilityLost _ => done_ok Turn.Parked
  | _ => fail e
  end.
Definition verify_before_claim (message : rstr) : fallible unit :=
  call_any message (Op.HostCheck (lit "verify_before_claim")).
(** From the claimed assignment on; [active] is the activity set without other runs. *)
Definition run_claimed (config : WorkerConfig) (claimed : ClaimResult) (assignment : ClaimAssignment) :
    fallible Turn.t :=
  let run_id := ca_run_id assignment in
  active ←? pure (activity_begin ∅ run_id);
  (result ← run_guarded_assignment config run_id
     (pure (ok_or (cs_run_credential claimed) (anyhow (lit "claimed assignment omitted run credential"))) ;?
      process_assignment config assignment);
   stop ← call Op.StopRequested;
   match result with
   | Err e => handle_guarded_assignment_error e
   | Ok _ =>
       pure (activity_end active run_id) ;?
       done_ok (if stop : bool then Turn.Stop else Turn.Continue 0)
   end).
Definition claim_turn (config : WorkerConfig) (transient_failures : N) : fallible Turn.t :=
  call_any (lit "worker workspace protection changed; refusing another claim")
    (Op.HostCheck (lit "ensure_protected_directory")) ;?
  verify_before_claim (lit "hostile-workload external guard changed; refusing another claim") ;?
  refuse_containment_quarantine config ;?
  (probe ← call (Op.Probe (cfg_workspace_root config));
   refuse_containment_quarantine config ;?
   verify_before_claim (lit "hostile-workload residual appeared before controller claim") ;?
   (claimed ← claim {| cr_probe := probe; cr_active_run_ids := [] |};
    match claimed with
    | Err e =>
        if negb (fatal_controller_error e) then
          let failures := N.min (transient_failures + 1) u32_max in
          sleep_then (retry_delay failures) failures
        else fail (with_context (lit "worker claim failed permanently") e)
    | Ok claimed =>
        verify_before_claim (lit "hostile-workload state changed while claiming work") ;?
        match cs_assignment claimed with
        | None => sleep_then (N.max 1 (N.min (cs_retry_after_seconds claimed) 300)) 0
        | Some assignment => run_claimed config claimed assignment
        end
    end)).
(** [claim_loop], for so many turns *)
Fixpoint claim_loop (turns : nat) (config : WorkerConfig) (transient_failures : N) : io LoopEnd.t :=
  match turns with
  | O => mret LoopEnd.Running
  | S turns =>
      turn ← claim_turn config transient_failures;
      match turn with
      | Err e => mret (LoopEnd.Returned (Err e))
      | Ok Turn.Stop => mret (LoopEnd.Returned (Ok tt))
      | Ok Turn.Parked => mret LoopEnd.Parked
      | Ok (Turn.Continue failures) => claim_loop turns config failures
      end
  end.

(** ** The boot generation *)
Definition MAX_GENERATION : N := 9223372036854775807.
Definition validate_boot_generation_document (raw : list N) : result AnyError N :=
  reject_if (16 * 1024 <? byte_count raw)%N (anyhow (lit "boot generation state is unexpectedly large"));;
  state ← context (lit "parse boot generation state JSON") (map_err anyhow (parse_boot raw));
  reject_if (bg_api_version state != BOOT_GENERATION_STATE_VERSION)
    (anyhow (lit "unsupported boot generation state apiVersion"));;
  reject_if (MAX_GENERATION <=? bg_generation state)%N
    (anyhow (lit "boot generation exhausted signed 64-bit storage"));;
  Ok (bg_generation state).
(** The state file and its lock lie beside the configuration. *)
Definition allocate_boot_generation (config_path : Path) : fallible N :=
  call_any (lit "verify protected boot-generation directory")
    (Op.HostCheck (lit "ensure_protected_directory")) ;?
  let state_path := with_extension config_path (lit "boot-generation.json") in
  let lock_path := with_extension config_path (lit "boot-generation.lock") in
  ensure_lock_file lock_path (bytes (lit "cyc boot generation lock") ++ [10%N]) ;?
  (r ← call (Op.LockFile lock_path); pure r) ;?
  exists_ ←? path_entry_exists state_path;
  current ←? (if exists_ : bool then
      protected_input state_path ;?
      raw ←? call_io (lit "read boot generation state " ++ path_display state_path) (Op.ReadToEnd state_path);
      pure (validate_boot_generation_document raw)
    else done_ok 0%N);
  generation ←? pure (ok_or (if (current + 1 <=? MAX_GENERATION)%N then Some (current + 1)%N else None)
    (anyhow (lit "boot generation exhausted signed 64-bit storage")));
  data ←? pure (context (lit "serialize boot generation state") (map_err anyhow (boot_json
    {| bg_api_version := BOOT_GENERATION_STATE_VERSION; bg_generation := generation |})));
  let data := data ++ [10%N] in
  (r ← call (if exists_ : bool then Op.ReplaceProtected state_path data else Op.WriteProtected state_path data);
   pure r) ;?
  done_ok generation.

(** [run_forever] with a configuration, whose claim loop takes so many turns. *)
Definition run_configured (turns : nat) (config_path : Path) (config : WorkerConfig) : fallible LoopEnd.t :=
  call (Op.HostCheck (lit "HostileIsolation::from_environment")) ;?
  call_any (lit "refuse unprotected worker workspace before run")
    (Op.HostCheck (lit "ensure_protected_directory")) ;?
  call_any (lit "hostile-workload isolation gate failed before daemon start")
    (Op.HostCheck (lit "validate_worker_boundaries")) ;?
  call_any (lit "reconcile hostile-workload residuals before any claim")
    (Op.HostCheck (lit "reconcile_before_claim")) ;?
  verify_before_claim (lit "hostile-workload reconciliation proof is not claimable") ;?
  refuse_containment_quarantine config ;?
  call_any (lit "managed execution containment gate failed; refusing to claim work")
    (Op.HostCheck (lit "ensure_process_containment_available")) ;?
  in_context (lit "allocate durable worker boot generation") (allocate_boot_generation config_path) ;?
  client_from_config config ;?
  (ended ← claim_loop turns config 0; done_ok ended).
Definition run_forever (turns : nat) (config_path : Path) : fallible LoopEnd.t :=
  config ←? config_load config_path;
  run_configured turns config_path config.
End daemon.
