(* ===== verification/WorkerControl.v ===== *)
(** The control block that the tasks of a run share: [RunControl] of
    [crates/cyc-worker/src/runtime.rs], with [publish_version], [apply_state_version] and
    [heartbeat_snapshot] as they interleave.

    The version is an atomic that only grows; the state is behind a lock, and
    [apply_state_version] publishes both while it holds that lock.  Every interleaving is
    one of an object whose [publish] and [apply] are single atomic steps, in which a state
    is taken only if nothing newer was published before; a snapshot is two steps, so that
    its version may be newer than its state and never older. *)
From Stdlib Require Import ZArith NArith Lia.
From stdpp Require Import base option list numbers functions.
From S2P Require Import Prelude RunState.

(** ** Calls *)
Inductive Call :=
| PublishVersion (version : N)
| ApplyStateVersion (version : N) (state : JobState.t)
| HeartbeatSnapshot.
Inductive Answer := Finished | Snapshot (version : N) (state : JobState.t).
(** What is seen of a task from outside. *)
Inductive Label := Invoke (task : nat) (call : Call) | Return (task : nat) (answer : Answer).

(** ** The code

    Where a task is: before [fetch_max] of a publication; before the lock, inside it
    before and after [fetch_max] (with the previous version); before and between the two
    reads of a snapshot; before the return. *)
Module Pc.
Inductive t :=
| Idle
| Publishing (version : N)
| AtLock (version : N) (state : JobState.t)
| Locked (version : N) (state : JobState.t)
| Fetched (version : N) (state : JobState.t) (previous_version : N)
| AtSnapshot
| StateRead (state : JobState.t)
| Returning (answer : Answer).
End Pc.
Record RunControl := {
  ct_version : N;
  ct_state : JobState.t;
  ct_lock : option nat;
  ct_tasks : nat → Pc.t
}.
(** [RunControl::new], with every task idle *)
Definition RunControl_new (version : N) (state : JobState.t) : RunControl :=
  {| ct_version := version; ct_state := state; ct_lock := None; ct_tasks := λ _, Pc.Idle |}.
Definition goes (c : RunControl) (task : nat) (pc : Pc.t) : nat → Pc.t := <[task := pc]> (ct_tasks c).
Definition entry (call : Call) : Pc.t :=
  match call with
  | PublishVersion version => Pc.Publishing version
  | ApplyStateVersion version state => Pc.AtLock version state
  | HeartbeatSnapshot => Pc.AtSnapshot
  end.

(** One atomic action of one task. *)
Inductive control_step (c : RunControl) : option Label → RunControl → Prop :=
| invokes task call :
    ct_tasks c task = Pc.Idle →
    control_step c (Some (Invoke task call))
      {| ct_version := ct_version c; ct_state := ct_state c; ct_lock := ct_lock c;
         ct_tasks := goes c task (entry call) |}
| publish_version_fetch_max task version :
    ct_tasks c task = Pc.Publishing version →
    control_step c None
      {| ct_version := N.max (ct_version c) version; ct_state := ct_state c; ct_lock := ct_lock c;
         ct_tasks := goes c task (Pc.Returning Finished) |}
| apply_lock task version state :
    ct_tasks c task = Pc.AtLock version state → ct_lock c = None →
    control_step c None
      {| ct_version := ct_version c; ct_state := ct_state c; ct_lock := Some task;
         ct_tasks := goes c task (Pc.Locked version state) |}
| apply_fetch_max task version state :
    ct_tasks c task = Pc.Locked version state →
    control_step c None
      {| ct_version := N.max (ct_version c) version; ct_state := ct_state c; ct_lock := ct_lock c;
         ct_tasks := goes c task (Pc.Fetched version state (ct_version c)) |}
| apply_store task version state previous_version :
    ct_tasks c task = Pc.Fetched version state previous_version →
    control_step c None
      {| ct_version := ct_version c;
         ct_state := if (previous_version <=? version)%N then state else ct_state c; ct_lock := None;
         ct_tasks := goes c task (Pc.Returning Finished) |}
| snapshot_state task :
    ct_tasks c task = Pc.AtSnapshot → ct_lock c = None →
    control_step c None
      {| ct_version := ct_version c; ct_state := ct_state c; ct_lock := None;
         ct_tasks := goes c task (Pc.StateRead (ct_state c)) |}
| snapshot_version task state :
    ct_tasks c task = Pc.StateRead state →
    control_step c None
      {| ct_version := ct_version c; ct_state := ct_state c; ct_lock := ct_lock c;
         ct_tasks := goes c task (Pc.Returning (Snapshot (ct_version c) state)) |}
| returns task answer :
    ct_tasks c task = Pc.Returning answer →
    control_step c (Some (Return task answer))
      {| ct_version := ct_version c; ct_state := ct_state c; ct_lock := ct_lock c;
         ct_tasks := goes c task Pc.Idle |}.

(** Executions with what is seen of them, in order. *)
Section executions.
Context {C : Type} (step : C → option Label → C → Prop).
Inductive execution : C → list Label → C → Prop :=
| execution_nil c : execution c [] c
| execution_step c l c1 ls c2 :
    step c l c1 → execution c1 ls c2 → execution c (from_option (λ x, [x]) [] l ++ ls) c2.
Lemma execution_snoc c ls c1 l c2 :
  execution c ls c1 → step c1 l c2 → execution c (ls ++ from_option (λ x, [x]) [] l) c2.
Proof.
  intros He Hs. induction He as [c|c l' c' ls c1 Hs' _ IH].
  - rewrite <- (app_nil_r (from_option _ _ l)). eapply execution_step; [exact Hs|constructor].
  - rewrite <- app_assoc. eapply execution_step; [exact Hs'|]. by apply IH.
Qed.
End executions.

(** ** The specification *)
Module APc.
Inductive t := Idle | Pending (call : Call) | StateRead (state : JobState.t) | Returning (answer : Answer).
End APc.
Record AtomicControl := { ac_version : N; ac_state : JobState.t; ac_tasks : nat → APc.t }.
Definition AtomicControl_new (version : N) (state : JobState.t) : AtomicControl :=
  {| ac_version := version; ac_state := state; ac_tasks := λ _, APc.Idle |}.
Definition atomic_goes (a : AtomicControl) (task : nat) (pc : APc.t) : AtomicControl :=
  {| ac_version := ac_version a; ac_state := ac_state a; ac_tasks := <[task := pc]> (ac_tasks a) |}.
(** A version that is learnt, with the state that it belongs to if that is known too. *)
Definition learn (version : N) (state : option JobState.t) (a : AtomicControl) : AtomicControl :=
  {| ac_version := N.max (ac_version a) version;
     ac_state := if (ac_version a <=? version)%N then unwrap_or state (ac_state a) else ac_state a;
     ac_tasks := ac_tasks a |}.
Inductive atomic_step (a : AtomicControl) : option Label → AtomicControl → Prop :=
| atomic_invokes task call :
    ac_tasks a task = APc.Idle → atomic_step a (Some (Invoke task call)) (atomic_goes a task (APc.Pending call))
| atomic_publish task version :
    ac_tasks a task = APc.Pending (PublishVersion version) →
    atomic_step a None (atomic_goes (learn version None a) task (APc.Returning Finished))
| atomic_apply task version state :
    ac_tasks a task = APc.Pending (ApplyStateVersion version state) →
    atomic_step a None (atomic_goes (learn version (Some state) a) task (APc.Returning Finished))
| atomic_read task :
    ac_tasks a task = APc.Pending HeartbeatSnapshot →
    atomic_step a None (atomic_goes a task (APc.StateRead (ac_state a)))
| atomic_load task state :
    ac_tasks a task = APc.StateRead state →
    atomic_step a None (atomic_goes a task (APc.Returning (Snapshot (ac_version a) state)))
| atomic_returns task answer :
    ac_tasks a task = APc.Returning answer →
    atomic_step a (Some (Return task answer)) (atomic_goes a task APc.Idle).

(** ** The simulation *)

(** What a task has achieved at a point of the code. *)
Definition abstract (pc : Pc.t) : APc.t :=
  match pc with
  | Pc.Idle => APc.Idle
  | Pc.Publishing version => APc.Pending (PublishVersion version)
  | Pc.AtLock version state | Pc.Locked version state => APc.Pending (ApplyStateVersion version state)
  | Pc.Fetched _ _ _ => APc.Returning Finished
  | Pc.AtSnapshot => APc.Pending HeartbeatSnapshot
  | Pc.StateRead state => APc.StateRead state
  | Pc.Returning answer => APc.Returning answer
  end.
Definition holds_lock (pc : Pc.t) : bool :=
  match pc with Pc.Locked _ _ | Pc.Fetched _ _ _ => true | _ => false end.
(** The state once the task that holds the lock has stored what it decided to. *)
Definition settled_state (c : RunControl) : JobState.t :=
  match ct_tasks c <$> ct_lock c with
  | Some (Pc.Fetched version state previous_version) =>
      if (previous_version <=? version)%N then state else ct_state c
  | _ => ct_state c
  end.
Record simulates (c : RunControl) (a : AtomicControl) : Prop := {
  sim_version : ac_version a = ct_version c;
  sim_state : ac_state a = settled_state c;
  sim_tasks : ∀ task, ac_tasks a task = abstract (ct_tasks c task);
  sim_lock : ∀ task, holds_lock (ct_tasks c task) = true ↔ ct_lock c = Some task
}.

Lemma goes_tasks c a task pc apc :
  (∀ t, ac_tasks a t = abstract (ct_tasks c t)) → apc = abstract pc →
  ∀ t, (<[task := apc]> (ac_tasks a)) t = abstract (goes c task pc t).
Proof.
  intros Ht -> t. unfold goes. destruct (decide (t = task)) as [->|Hne].
  - by rewrite !fn_lookup_insert.
  - by rewrite !fn_lookup_insert_ne.
Qed.
(** A task that does not touch the lock moves. *)
Lemma goes_lock c task pc :
  (∀ t, holds_lock (ct_tasks c t) = true ↔ ct_lock c = Some t) →
  holds_lock pc = holds_lock (ct_tasks c task) →
  ∀ t, holds_lock (goes c task pc t) = true ↔ ct_lock c = Some t.
Proof.
  intros Hl Hp t. unfold goes. destruct (decide (t = task)) as [->|Hne].
  - rewrite fn_lookup_insert, Hp. apply Hl.
  - rewrite fn_lookup_insert_ne by done. apply Hl.
Qed.
Lemma goes_settled c task pc version :
  (∀ t, holds_lock (ct_tasks c t) = true ↔ ct_lock c = Some t) →
  holds_lock (ct_tasks c task) = false →
  settled_state {| ct_version := version; ct_state := ct_state c; ct_lock := ct_lock c; ct_tasks := goes c task pc |}
    = settled_state c.
Proof.
  intros Hl Hp. unfold settled_state. cbn. destruct (ct_lock c) as [t|] eqn:E; [|done]. cbn.
  assert (t ≠ task) as Hne by (intros ->; pose proof (proj2 (Hl task) eq_refl); congruence).
  unfold goes. by rewrite fn_lookup_insert_ne.
Qed.
Lemma control_simulation c l c' a :
  control_step c l c' → simulates c a →
  (∃ a', atomic_step a l a' ∧ simulates c' a') ∨ (l = None ∧ simulates c' a).
Proof.
  intros Hs [Hv Hst Ht Hl]. destruct Hs as [task call Hpc|task v Hpc|task v s Hpc Hfree|task v s Hpc|task v s p Hpc
    |task Hpc Hfree|task s Hpc|task answer Hpc]; pose proof (Ht task) as Hta; rewrite Hpc in Hta; cbn in Hta.
  - left. eexists. split; [by apply atomic_invokes|]. split; cbn.
    + done.
    + rewrite Hst. symmetry. apply goes_settled; [done|]. by rewrite Hpc.
    + apply goes_tasks; [done|]. by destruct call.
    + apply goes_lock; [done|]. rewrite Hpc. by destruct call.
  - left. eexists. split; [by apply atomic_publish|]. split; cbn.
    + by rewrite Hv.
    + rewrite Hst, goes_settled; [by destruct (_ <=? _)%N|done|by rewrite Hpc].
    + by apply goes_tasks.
    + apply goes_lock; [done|]. by rewrite Hpc.
  - right. split; [done|]. split; cbn.
    + done.
    + rewrite Hst. unfold settled_state. rewrite Hfree. cbn. unfold goes. by rewrite fn_lookup_insert.
    + intros t. unfold goes. destruct (decide (t = task)) as [->|Hne].
      * by rewrite fn_lookup_insert.
      * by rewrite fn_lookup_insert_ne.
    + intros t. unfold goes. destruct (decide (t = task)) as [->|Hne].
      * by rewrite fn_lookup_insert.
      * rewrite fn_lookup_insert_ne by done. rewrite Hl, Hfree. naive_solver.
  - assert (ct_lock c = Some task) as Hlock by (apply Hl; by rewrite Hpc).
    left. eexists. split; [by apply atomic_apply|]. split; cbn.
    + by rewrite Hv.
    + rewrite Hv, Hst. unfold settled_state. cbn. rewrite Hlock. cbn. rewrite Hpc. unfold goes.
      by rewrite fn_lookup_insert.
    + by apply goes_tasks.
    + apply goes_lock; [done|]. by rewrite Hpc.
  - assert (ct_lock c = Some task) as Hlock by (apply Hl; by rewrite Hpc).
    right. split; [done|]. split; cbn.
    + done.
    + rewrite Hst. unfold settled_state. rewrite Hlock. cbn. by rewrite Hpc.
    + intros t. unfold goes. destruct (decide (t = task)) as [->|Hne].
      * by rewrite fn_lookup_insert.
      * by rewrite fn_lookup_insert_ne.
    + intros t. unfold goes. destruct (decide (t = task)) as [->|Hne].
      * by rewrite fn_lookup_insert.
      * rewrite fn_lookup_insert_ne by done. rewrite Hl, Hlock. naive_solver.
  - left. eexists. split; [by apply atomic_read|]. split; cbn.
    + done.
    + rewrite Hst. unfold settled_state. by rewrite Hfree.
    + apply goes_tasks; [done|]. cbn. rewrite Hst. unfold settled_state. by rewrite Hfree.
    + rewrite <- Hfree. apply goes_lock; [done|]. by rewrite Hpc.
  - left. eexists. split; [by apply atomic_load|]. split; cbn.
    + done.
    + rewrite Hst. symmetry. apply goes_settled; [done|]. by rewrite Hpc.
    + apply goes_tasks; [done|]. by rewrite Hv.
    + apply goes_lock; [done|]. by rewrite Hpc.
  - left. eexists. split; [by apply atomic_returns|]. split; cbn.
    + done.
    + rewrite Hst. symmetry. apply goes_settled; [done|]. by rewrite Hpc.
    + by apply goes_tasks.
    + apply goes_lock; [done|]. by rewrite Hpc.
Qed.
Lemma execution_simulation c ls c' a :
  execution control_step c ls c' → simulates c a → ∃ a', execution atomic_step a ls a' ∧ simulates c' a'.
Proof.
  intros He. revert a. induction He as [c|c l c1 ls c2 Hs _ IH]; intros a Ha; [by exists a; split; [constructor|]|].
  destruct (control_simulation _ _ _ _ Hs Ha) as [(a1 & Hs1 & H1)|[-> H1]]; destruct (IH _ H1) as (a2 & He2 & H2);
    exists a2; (split; [|done]); [|done]. by eapply execution_step.
Qed.
Lemma simulates_new version state : simulates (RunControl_new version state) (AtomicControl_new version state).
Proof. by split. Qed.

(** C21. Whatever calls the tasks of a run make and however the actions of these calls
    interleave, the calls, their answers and their order are those of a control block
    whose publications are single atomic steps that take a state only if no newer version
    was published before; and whenever the lock is free, the version and the state in
    memory are that block's. *)
Theorem run_control_linearizable version state ls c
    (Hrun : execution control_step (RunControl_new version state) ls c) :
  ∃ a, execution atomic_step (AtomicControl_new version state) ls a ∧
    ac_version a = ct_version c ∧ (ct_lock c = None → ac_state a = ct_state c).
Proof.
  destruct (execution_simulation _ _ _ _ Hrun (simulates_new version state)) as (a & Ha & [Hv Hs _ _]).
  exists a. split_and!; [done..|]. intros Hfree. rewrite Hs. unfold settled_state. by rewrite Hfree.
Qed.

(** ** A delayed answer

    Task 1 publishes version 3 while task 0, whose answer carried version 2, waits. *)
Definition delayed_calls : list Label :=
  [Invoke 0 (ApplyStateVersion 2 JobState.Running); Invoke 1 (ApplyStateVersion 3 JobState.Verifying);
   Return 1 Finished; Return 0 Finished].
Lemma delayed_execution : ∃ c,
  execution control_step (RunControl_new 1 JobState.Preparing) delayed_calls c ∧
  ct_lock c = None ∧ ct_version c = 3%N ∧ ct_state c = JobState.Verifying.
Proof.
  eexists. split.
  - unfold delayed_calls.
    eapply (execution_step _ _ (Some _)); [by apply invokes|].
    eapply (execution_step _ _ (Some _)); [by apply invokes|].
    eapply (execution_step _ _ None); [by eapply (apply_lock _ 1)|].
    eapply (execution_step _ _ None); [by eapply (apply_fetch_max _ 1)|].
    eapply (execution_step _ _ None); [by eapply (apply_store _ 1)|].
    eapply (execution_step _ _ None); [by eapply (apply_lock _ 0)|].
    eapply (execution_step _ _ None); [by eapply (apply_fetch_max _ 0)|].
    eapply (execution_step _ _ None); [by eapply (apply_store _ 0)|].
    eapply (execution_step _ _ (Some _)); [by apply returns|].
    eapply (execution_step _ _ (Some _)); [by apply returns|]. constructor.
  - by vm_compute.
Qed.
Lemma run_control_linearizable_witness :
  ∃ a, execution atomic_step (AtomicControl_new 1 JobState.Preparing) delayed_calls a ∧
    ac_version a = 3%N ∧ ac_state a = JobState.Verifying.
Proof.
  destruct delayed_execution as (c & Hc & Hl & Hv & Hs).
  destruct (run_control_linearizable _ _ _ _ Hc) as (a & Ha & Hav & Has).
  exists a. split; [exact Ha|]. split; [by rewrite Hav|]. by rewrite Has.
Defined.
