(* ===== verification/WorkerLogic.v ===== *)
(** Reasoning about workers: a weakest-precondition calculus for [WorkerEnv.io].

    A [Discipline] says what must hold whenever an operation is called, what its answer
    may be assumed to satisfy (the documented behaviour of the clock, the file walk, Git
    and so on), and an invariant that every change of the log sink keeps.
    [wp m env w Q] says that [m] runs within the discipline and ends in [Q]. *)
From Stdlib Require Import ZArith NArith Lia String.
From stdpp Require Import base option list numbers sets gmap relations.
From S2P Require Import Prelude Text Crates Protocol RunState CanonicalJson WorkerReports WorkerRun Cleanup WorkerEnv WorkerClient.
Open Scope rust_scope.

Definition record {A} (o : Op.t A) (a : A) (w : World) : World :=
  {| w_sink := w_sink w; w_trace := existT A (o, a) :: w_trace w |}.
Definition with_sink (s : HttpLogSink) (w : World) : World := {| w_sink := s; w_trace := w_trace w |}.

Record Discipline := {
  obligation : ∀ A, Op.t A → list event → Prop;
  assumption : ∀ A, Op.t A → list event → A → Prop;
  invariant : World → Prop;
  invariant_call : ∀ A (o : Op.t A) a w, invariant w → assumption A o (w_trace w) a → invariant (record o a w)
}.
(** The environment answers as assumed. *)
Definition obeys (D : Discipline) (env : Environment) : Prop :=
  ∀ A (o : Op.t A) h, assumption D A o h (env A o h).

Section wp.
Context (D : Discipline).

Inductive world_step : World → World → Prop :=
| step_call A (o : Op.t A) a w :
    obligation D A o (w_trace w) → assumption D A o (w_trace w) a → world_step w (record o a w)
| step_sink s w : invariant D (with_sink s w) → world_step w (with_sink s w).
Definition runs : relation World := rtc world_step.

Lemma runs_invariant w w' : runs w w' → invariant D w → invariant D w'.
Proof.
  induction 1 as [|w1 w2 w3 Hs _ IH]; [done|]. intros Hi. apply IH. destruct Hs; [by apply invariant_call|done].
Qed.

Lemma runs_suffix w w' : runs w w' → w_trace w `suffix_of` w_trace w'.
Proof.
  induction 1 as [w|w1 w2 w3 Hs _ IH]; [done|]. etrans; [|exact IH].
  destruct Hs as [A o a w _ _|s w _]; [by apply suffix_cons_r|done].
Qed.

Context (env : Environment) (Henv : obeys D env).

Definition wp {A} (m : io A) (w : World) (Q : A → World → Prop) : Prop :=
  invariant D w → runs w (m env w).2 ∧ Q (m env w).1 (m env w).2.

Lemma wp_invariant {A} (m : io A) w (Q : A → World → Prop) : (invariant D w → wp m w Q) → wp m w Q.
Proof. intros Hm Hi. by apply Hm. Qed.
Lemma runs_ret {A} (a : A) w (Q : A → World → Prop) : Q a w → wp (mret a) w Q.
Proof. split; [apply rtc_refl|done]. Qed.
Lemma runs_bind {A B} (m : io A) (k : A → io B) w (Q : B → World → Prop) :
  wp m w (λ a w', wp (k a) w' Q) → wp (mbind k m) w Q.
Proof.
  unfold wp, mbind, io_bind. intros Hm Hi. specialize (Hm Hi). destruct (m env w) as [a w']. cbn in *.
  destruct Hm as [H1 Hk]. destruct (Hk (runs_invariant _ _ H1 Hi)) as [H2 H3].
  destruct (k a env w') as [b w'']. cbn in *. split; [by etrans|done].
Qed.
Lemma runs_mono {A} (m : io A) w (Q Q' : A → World → Prop) :
  wp m w Q → (∀ a w', runs w w' → Q a w' → Q' a w') → wp m w Q'.
Proof. intros Hm HQ Hi. destruct (Hm Hi) as [H1 H2]. split; [done|]. by apply HQ. Qed.
Lemma wp_result {A} (m : io A) w (Q : A → World → Prop) :
  wp m w (λ a w', a = (m env w).1 → Q a w') → wp m w Q.
Proof. intros Hm Hi. destruct (Hm Hi) as [H1 H2]. split; [done|]. by apply H2. Qed.
Lemma wp_call {A} (o : Op.t A) w (Q : A → World → Prop) :
  obligation D A o (w_trace w) → (∀ a, assumption D A o (w_trace w) a → Q a (record o a w)) → wp (call o) w Q.
Proof. intros Ho HQ _. split; [by apply rtc_once, step_call|]. by apply HQ. Qed.
Lemma wp_get_sink w (Q : HttpLogSink → World → Prop) : Q (w_sink w) w → wp get_sink w Q.
Proof. intros HQ _. split; [apply rtc_refl|done]. Qed.
Lemma wp_put_sink s w (Q : unit → World → Prop) :
  invariant D (with_sink s w) → Q tt (with_sink s w) → wp (put_sink s) w Q.
Proof. intros Hi HQ _. split; [by apply rtc_once, step_sink|done]. Qed.

(** ** Fallible computations *)
Section fallible.
Context {E : Type}.
Lemma wp_try {A B} (m : io (result E A)) (k : A → io (result E B)) w (Q : result E B → World → Prop) :
  wp m w (λ r w', match r with Ok a => wp (k a) w' Q | Err e => Q (Err e) w' end) → wp (try_bind m k) w Q.
Proof.
  intros Hm. unfold try_bind. apply runs_bind. eapply runs_mono; [exact Hm|].
  intros [a|e] w' _ HQ; [exact HQ|]. by apply runs_ret.
Qed.
Lemma wp_pure {A} (r : result E A) w (Q : result E A → World → Prop) : Q r w → wp (pure r) w Q.
Proof. apply runs_ret. Qed.
Lemma wp_done {A} (a : A) w (Q : result E A → World → Prop) : Q (Ok a) w → wp (done_ok a) w Q.
Proof. apply runs_ret. Qed.
Lemma wp_fail {A} (e : E) w (Q : result E A → World → Prop) : Q (Err e) w → wp (fail e) w Q.
Proof. apply runs_ret. Qed.
End fallible.

Lemma wp_bail_if b message w (Q : result AnyError unit → World → Prop) :
  (b = true → Q (Err (anyhow message)) w) → (b = false → Q (Ok tt) w) → wp (bail_if b message) w Q.
Proof. intros H1 H2. unfold bail_if, bail. destruct b; [apply wp_fail|apply wp_done]; auto. Qed.
Lemma wp_call_io {A} message (o : Op.t (result IoError A)) w (Q : result AnyError A → World → Prop) :
  obligation D _ o (w_trace w) →
  (∀ a, assumption D _ o (w_trace w) (Ok a) → Q (Ok a) (record o (Ok a) w)) →
  (∀ e, Q (Err (with_context message (from_io e))) (record o (Err e) w)) →
  wp (call_io message o) w Q.
Proof.
  intros Ho H1 H2. unfold call_io. apply runs_bind, wp_call; [done|]. intros [a|e] Ha; apply runs_ret; cbn; auto.
Qed.
Lemma wp_call_any {A} message (o : Op.t (result AnyError A)) w (Q : result AnyError A → World → Prop) :
  obligation D _ o (w_trace w) →
  (∀ a, assumption D _ o (w_trace w) (Ok a) → Q (Ok a) (record o (Ok a) w)) →
  (∀ e, Q (Err (with_context message e)) (record o (Err e) w)) →
  wp (call_any message o) w Q.
Proof.
  intros Ho H1 H2. unfold call_any. apply runs_bind, wp_call; [done|]. intros [a|e] Ha; apply runs_ret; cbn; auto.
Qed.

(** A request that is retried, with an invariant of the failed attempts. *)
Lemma wp_with_retries {A} (I : World → Prop) (once : io (result AnyError A)) (Q : result AnyError A → World → Prop) w :
  (∀ w, I w → wp once w (λ r w', (is_ok r = false → I w') ∧ Q r w')) →
  (∀ w n, I w → obligation D _ (Op.Sleep n) (w_trace w) ∧ I (record (Op.Sleep n) tt w)) →
  I w → wp (with_retries once) w Q.
Proof.
  intros Honce Hsleep. unfold with_retries. generalize 0%N as attempt, 2%nat as more. intros attempt more.
  revert w attempt. induction more as [|n IH]; intros w attempt Hw; cbn [retry_from]; apply runs_bind;
    (eapply runs_mono; [by apply Honce|]); intros [a|e] w' _ [HI HQ]; try (by apply runs_ret).
  specialize (HI eq_refl). destruct (is_retryable_transport_error e); [|by apply runs_ret].
  apply runs_bind, wp_call; [by apply Hsleep|]. intros [] _. by apply IH, Hsleep.
Qed.
End wp.

(** ** Lawful histories: every operation kept the discipline when it was called. *)
Section lawful.
Context (D : Discipline).
Definition kept (e : event) (h : list event) : Prop :=
  let '(existT A (o, _)) := e in obligation D A o h.
Fixpoint lawful (h : list event) : Prop :=
  match h with [] => True | e :: h => kept e h ∧ lawful h end.
Lemma lawful_suffix h h' : h `suffix_of` h' → lawful h' → lawful h.
Proof. intros [k ->]. induction k as [|e k IH]; [done|]. intros [_ Hk]. by apply IH. Qed.
Lemma runs_lawful w w' : runs D w w' → lawful (w_trace w) → lawful (w_trace w').
Proof.
  induction 1 as [|w1 w2 w3 Hs _ IH]; [done|]. intros Hl. apply IH.
  destruct Hs as [A o a w Ho _|s w _]; [by split|done].
Qed.
Lemma lawful_at h h1 e h2 : lawful h → h = h1 ++ e :: h2 → kept e h2.
Proof. intros Hl ->. apply lawful_suffix with (h := e :: h2) in Hl; [by destruct Hl|by exists h1]. Qed.
End lawful.

(** ** What a trace tells *)

(** The latest answer of [Utc::now]; whether the wall clock ever stepped back; and that it
    has reached a time, unless it stepped back. *)
Definition now_of (e : event) : option DateTime :=
  let '(existT _ (o, a)) := e in
  match o in Op.t A return A → option DateTime with Op.Now => Some | _ => λ _, None end a.
Fixpoint last_now (h : list event) : option DateTime :=
  match h with
  | [] => None
  | e :: h => match now_of e with Some t => Some t | None => last_now h end
  end.
Fixpoint stepped_back (h : list event) : bool :=
  match h with
  | [] => false
  | e :: h =>
      stepped_back h ||
      match now_of e, last_now h with Some t, Some earlier => (t <? earlier)%Z | _, _ => false end
  end.
Definition onward (h : list event) : Prop := stepped_back h = false.
Definition reached (h : list event) (t : DateTime) : Prop :=
  onward h → ∃ now, last_now h = Some now ∧ (t ≤ now)%Z.
Lemma onward_suffix h h' : h `suffix_of` h' → onward h' → onward h.
Proof.
  unfold onward. intros [k ->]. induction k as [|e k IH]; [done|]. cbn. intros [Hk _]%orb_false_iff. by apply IH.
Qed.

(** The requests that were sent, the latest first. *)
Definition request_of (e : event) : option HttpRequest.t :=
  let '(existT _ (o, _)) := e in match o with Op.Send r => Some r | _ => None end.
Definition requests (h : list event) : list HttpRequest.t := omap request_of h.

(** The identifiers that were generated, and the bytes received from readers. *)
Definition uuid_of (e : event) : option Uuid :=
  let '(existT _ (o, a)) := e in
  match o in Op.t A return A → option Uuid with Op.NewUuid => Some | _ => λ _, None end a.
Definition uuids (h : list event) : list Uuid := omap uuid_of h.
Definition chunk_bytes (events : list SelectEvent.t) : N :=
  foldr (λ e n, (match e with SelectEvent.Received c => byte_count (oc_bytes c) | _ => 0 end + n)%N) 0%N events.
Definition received_of (e : event) : N :=
  let '(existT _ (o, a)) := e in
  match o in Op.t A return A → N with Op.Select => chunk_bytes | _ => λ _, 0%N end a.
Definition received (h : list event) : N := foldr (λ e n, (received_of e + n)%N) 0%N h.
