(* ===== verification/ProtectedStore.v ===== *)
(** What protected files may hold: a specification of the operations on them, across
    crashes.

    A history determines what may be found at a path: nothing at first, then what was
    stored there, or what was being stored when an operation failed or the program ended
    in it, until a later operation or a look at the file settles it.  [honest_store] says
    that a machine shows nothing else. *)
From Stdlib Require Import ZArith NArith Lia String.
From stdpp Require Import base option list numbers sets gmap relations.
From S2P Require Import Prelude Text Crates Protocol CanonicalJson ControllerDb WorkerEnv WorkerClient WorkerSource WorkerNode WorkerIdentity WorkerLogic.
Open Scope rust_scope.

(** A file that is not there is [None]. *)
Definition Content : Type := option (list N).
(** What is seen is what there is, if it may be there at all. *)
Definition narrow (seen : Content) (before : list Content) : list Content :=
  if bool_decide (seen ∈ before) then [seen] else before.
Definition replaced (ok : bool) (new : Content) (before : list Content) : list Content :=
  if ok then [new] else new :: before.
Definition held_after_event (p : Path) (e : event) (before : list Content) : list Content :=
  let '(existT _ (o, a)) := e in
  match o in Op.t A return A → list Content with
  | Op.WriteProtected q data | Op.ReplaceProtected q data => λ r,
      if q == p then replaced (is_ok r) (Some data) before else before
  | Op.RemoveProtected q => λ r, if q == p then replaced (is_ok r) None before else before
  | Op.ReadToEnd q => λ r,
      match r with Ok data => if q == p then narrow (Some data) before else before | Err _ => before end
  | Op.ReadToString q => λ r,
      match r with Ok s => if q == p then narrow (Some (bytes s)) before else before | Err _ => before end
  | Op.SymlinkMetadata q => λ r,
      match r with
      | Err e => if (q == p) && io_not_found e then narrow None before else before
      | Ok _ => before
      end
  | _ => λ _, before
  end a.
Definition may_hold (p : Path) (h : list event) : list Content := foldr (held_after_event p) [None] h.
(** The files of [tracked] paths show what they may hold. *)
Definition honest_store (tracked : Path → Prop) A (o : Op.t A) (h : list event) : A → Prop :=
  match o in Op.t A return A → Prop with
  | Op.SymlinkMetadata p => λ r, tracked p →
      match r with Err e => io_not_found e = true → None ∈ may_hold p h | Ok _ => True end
  | Op.ReadToEnd p => λ r, tracked p →
      match r with Ok data => Some data ∈ may_hold p h | Err _ => True end
  | Op.ReadToString p => λ r, tracked p →
      match r with Ok s => Some (bytes s) ∈ may_hold p h | Err _ => True end
  | _ => λ _, True
  end.

(** ** Single events *)

(** The operation may change the file. *)
Definition changes {A} (o : Op.t A) (p : Path) : bool :=
  match o with
  | Op.WriteProtected q _ | Op.ReplaceProtected q _ | Op.RemoveProtected q => q == p
  | _ => false
  end.
Lemma narrow_subset c l : narrow c l ⊆ l.
Proof. unfold narrow. case_bool_decide; set_solver. Qed.
Lemma narrow_singleton c x : narrow c [x] = [x].
Proof. unfold narrow. case_bool_decide as Hc; [|done]. apply list_elem_of_singleton in Hc as ->. done. Qed.
Lemma narrow_seen c l : c ∈ l → narrow c l = [c].
Proof. intros Hc. unfold narrow. by rewrite bool_decide_eq_true_2. Qed.
Lemma unchanged_subset {A} (o : Op.t A) a p l :
  changes o p = false → held_after_event p (existT A (o, a)) l ⊆ l.
Proof.
  destruct o; cbn; intros Hc; rewrite ?Hc; try done;
    repeat case_match; try done; apply narrow_subset.
Qed.
Lemma unchanged_singleton {A} (o : Op.t A) a p c :
  changes o p = false → held_after_event p (existT A (o, a)) [c] = [c].
Proof.
  destruct o; cbn; intros Hc; rewrite ?Hc; try done;
    repeat case_match; try done; apply narrow_singleton.
Qed.
Lemma settled_by_write p data r l :
  held_after_event p (existT _ (Op.WriteProtected p data, r)) l = replaced (is_ok r) (Some data) l.
Proof. cbn. by rewrite bool_decide_eq_true_2. Qed.
Lemma settled_by_replace p data r l :
  held_after_event p (existT _ (Op.ReplaceProtected p data, r)) l = replaced (is_ok r) (Some data) l.
Proof. cbn. by rewrite bool_decide_eq_true_2. Qed.
Lemma settled_by_removal p r l :
  held_after_event p (existT _ (Op.RemoveProtected p, r)) l = replaced (is_ok r) None l.
Proof. cbn. by rewrite bool_decide_eq_true_2. Qed.
Lemma settled_by_read p data l :
  Some data ∈ l → held_after_event p (existT _ (Op.ReadToEnd p, Ok data)) l = [Some data].
Proof. intros Hd. cbn. rewrite bool_decide_eq_true_2 by done. by apply narrow_seen. Qed.
Lemma settled_by_text p s l :
  Some (bytes s) ∈ l → held_after_event p (existT _ (Op.ReadToString p, Ok s)) l = [Some (bytes s)].
Proof. intros Hd. cbn. rewrite bool_decide_eq_true_2 by done. by apply narrow_seen. Qed.
Lemma settled_by_absence p e l :
  io_not_found e = true → None ∈ l → held_after_event p (existT _ (Op.SymlinkMetadata p, Err e)) l = [None].
Proof. intros He Hn. cbn. rewrite bool_decide_eq_true_2, He by done. by apply narrow_seen. Qed.

(** ** Derived paths *)
Lemma split_once_last s e :
  chr "." ∉ e → split_once (chr ".") (rev (s ++ chr "." :: e)) = Some (rev e, rev s).
Proof.
  intros He. rewrite rev_app_distr. cbn [rev]. rewrite <- app_assoc.
  assert (chr "." ∉ rev e) as Hr by (intros Hin%list_elem_of_In%in_rev%list_elem_of_In; done).
  revert Hr. generalize (rev e) as l. induction l as [|c l IH]; intros Hl; [done|].
  cbn [app split_once]. apply not_elem_of_cons in Hl as [Hc Hl]. rewrite (proj2 (N.eqb_neq c _)) by congruence.
  cbn in IH |- *. by rewrite (IH Hl).
Qed.
Lemma file_extension_last s e :
  s ≠ [] → chr "." ∉ e → file_extension (s ++ chr "." :: e) = Some e.
Proof.
  intros Hs He. unfold file_extension. rewrite split_once_last by done.
  destruct (rev s) eqn:E; [|cbn; by rewrite rev_involutive].
  apply (f_equal (@rev _)) in E. by rewrite rev_involutive in E.
Qed.
Lemma file_stem_last s e : s ≠ [] → chr "." ∉ e → file_stem (s ++ chr "." :: e) = s.
Proof.
  intros Hs He. unfold file_stem. rewrite split_once_last by done.
  destruct (rev s) eqn:E; [|cbn [is_empty]; by rewrite <- E, rev_involutive].
  apply (f_equal (@rev _)) in E. by rewrite rev_involutive in E.
Qed.

(** A path with a parent and a name. *)
Section derived.
Context (path parent : Path) (name : rstr).
Context (Hparent : path_parent path = Some parent) (Hname : path_file_name path = Some name).
Context (e : rstr) (He : chr "." ∉ e) (Hne : e ≠ []).
Lemma last_name : last path = Some name ∧ name ≠ lit "..".
Proof.
  unfold path_file_name in Hname. destruct (last path) as [n|]; [|done]. case_bool_decide; [done|]. by simplify_eq.
Qed.
Lemma path_is_joined : path = path_join parent name.
Proof.
  destruct last_name as [Hl _]. apply last_Some in Hl as [l Hl]. unfold path_parent in Hparent. rewrite Hl in Hparent.
  destruct (l ++ [name]) eqn:E; [by apply app_nil in E as [_ ?]|]. rewrite <- E in Hparent.
  rewrite removelast_last in Hparent. by simplify_eq.
Qed.
Lemma with_extension_is x : with_extension path x = path_join parent (file_stem name ++ lit "." ++ x).
Proof. unfold with_extension. by rewrite Hparent, Hname. Qed.
Lemma path_parent_join p (n : rstr) : path_parent (path_join p n) = Some p.
Proof. unfold path_parent, path_join. rewrite removelast_last. by destruct p. Qed.
(** The name of [path.with_extension("x.e")]. *)
#[local] Abbreviation stem x := (file_stem name ++ lit "." ++ x).
Lemma derived_is x : with_extension path (x ++ lit "." ++ e) = path_join parent (stem x ++ chr "." :: e).
Proof. rewrite with_extension_is. f_equal. by rewrite <- !app_assoc. Qed.
Lemma stem_not_empty x : stem x ≠ [].
Proof. intros [_ E]%app_nil. discriminate E. Qed.
Lemma derived_parent x : path_parent (with_extension path (x ++ lit "." ++ e)) = Some parent.
Proof. rewrite derived_is. apply path_parent_join. Qed.
Lemma derived_extension x : path_extension (with_extension path (x ++ lit "." ++ e)) = Some e.
Proof.
  rewrite derived_is. unfold path_extension, path_file_name, path_join. rewrite last_snoc.
  rewrite bool_decide_eq_false_2; [by apply file_extension_last; [apply stem_not_empty|]|].
  intros E. apply (f_equal last) in E. rewrite last_app_cons in E. destruct (last_is_Some e) as [_ [c Hc]]; [done|].
  destruct e as [|a e']; [done|]. rewrite last_cons_cons, Hc in E. injection E as ->. apply He.
  apply last_Some_elem_of in Hc. exact Hc.
Qed.
Lemma derived_differs x : with_extension path (x ++ lit "." ++ e) ≠ path.
Proof.
  rewrite derived_is. intros E. rewrite path_is_joined in E. apply app_inj_2 in E as [_ E]; [|done].
  injection E as E. apply (f_equal file_stem) in E. rewrite file_stem_last in E by (done || apply stem_not_empty).
  apply (f_equal length) in E. rewrite !length_app in E. cbn in E. lia.
Qed.
End derived.
