(* ===== verification/CredentialSafety.v ===== *)
(** What the pairing transaction keeps safe, across crashes.

    Pairing may be started any number of times, with any enrollment, and stopped after any
    operation.  Still a pairing request is only sent while the ledger names its digest and
    the secret is stored, a pairing is never asked for with a second secret unless the
    controller ended the first, a configuration is committed only for an accepted
    credential and acknowledged only when it is committed, no credential appears that the
    ledger does not own, and only credentials that the ledger gave up are removed. *)
From Stdlib Require Import ZArith NArith Lia String.
From stdpp Require Import base option list numbers sets gmap relations sorting.
From S2P Require Import Prelude Text Crates Protocol JobSpec Snapshot CanonicalJson WorkerReports Onboarding ControllerDb WorkerEnv WorkerClient WorkerProcess WorkerSource WorkerExecutor WorkerRuntime WorkerNode WorkerIdentity PairingLedger WorkerPairing WorkerLogic ProtectedStore.
Import PairingCredentialState.
Import CredentialCleanup.
Open Scope rust_scope.

(** A generated document, with a line break behind it, parses to what it was made of. *)
Class IdentityCratesLaws `{IdentityCrates} := {
  config_json_parses : ∀ c data, config_json c = Ok data → parse_config (data ++ [10%N]) = Ok c
}.
Class LedgerCratesLaws `{LedgerCrates} := {
  ledger_json_parses : ∀ l data, ledger_json l = Ok data → parse_ledger (data ++ [10%N]) = Ok l
}.

Section safety.
Context `{WireCrates, DigestCrate, UuidCrate, SourceCrates, NodeWireCrates}.
Context `{IdentityCratesLaws, LedgerCratesLaws}.
Context (config_path parent : Path) (name : rstr).
Context (Hparent : path_parent config_path = Some parent) (Hname : path_file_name config_path = Some name).
Context (Hjson : path_extension config_path ≠ Some (lit "credential")).
#[local] Abbreviation ledger_file := (ledger_path config_path).
#[local] Abbreviation lock_file := (with_extension config_path (lit "pair.lock")).
Lemma config_directory_is : config_directory config_path = parent.
Proof. unfold config_directory. by rewrite Hparent. Qed.

(** ** Where the files are *)
Definition credential_like (p : Path) : Prop := path_extension p = Some (lit "credential").
Definition tracked (p : Path) : Prop := p = ledger_file ∨ p = config_path ∨ (credential_like p ∧ p ≠ lock_file).
#[local] Ltac decided := by apply (bool_decide_unpack _); vm_compute.
Lemma ledger_extension : path_extension ledger_file = Some (lit "json").
Proof. apply (derived_extension config_path parent name Hparent Hname (lit "json")) with (x := lit "pairing-state"); decided. Qed.
Lemma lock_extension : path_extension lock_file = Some (lit "lock").
Proof. apply (derived_extension config_path parent name Hparent Hname (lit "lock")) with (x := lit "pair"); decided. Qed.
Lemma staged_extension id : credential_like (staged_path config_path id).
Proof. apply (derived_extension config_path parent name Hparent Hname (lit "credential")); decided. Qed.
Lemma ledger_not_config : ledger_file ≠ config_path.
Proof. apply (derived_differs config_path parent name Hparent Hname (lit "json")) with (x := lit "pairing-state"); decided. Qed.
Lemma lock_not_config : lock_file ≠ config_path.
Proof. apply (derived_differs config_path parent name Hparent Hname (lit "lock")) with (x := lit "pair"); decided. Qed.
Lemma staged_not_config id : staged_path config_path id ≠ config_path.
Proof. apply (derived_differs config_path parent name Hparent Hname (lit "credential")); decided. Qed.
Lemma lock_not_ledger : lock_file ≠ ledger_file.
Proof. intros E. pose proof lock_extension as L. rewrite E, ledger_extension in L. discriminate L. Qed.
Lemma credential_not_ledger p : credential_like p → p ≠ ledger_file.
Proof. unfold credential_like. intros Hp ->. rewrite ledger_extension in Hp. discriminate Hp. Qed.
Lemma credential_not_lock p : credential_like p → p ≠ lock_file.
Proof. unfold credential_like. intros Hp ->. rewrite lock_extension in Hp. discriminate Hp. Qed.

(** ** Requests that the controller has not ended

    A pairing request, with its digest, is open until the controller refuses the pairing
    for good or acknowledges another one. *)
Definition refuses {A} (parse : list N → result rstr A) (answer : result SendError HttpResponse) : bool :=
  match answer with
  | Ok response =>
      match decode_json parse response with Ok _ => false | Err e => is_some (pairing_terminal_code e) end
  | Err _ => false
  end.
Definition accepts_ack (request : PairAckRequest) (answer : result SendError HttpResponse) : bool :=
  match answer with
  | Ok response =>
      match decode_json parse_pair_ack_response response with
      | Ok r =>
          is_ok (PairAckResponse_validate r) && (pas_pairing_id r == par_pairing_id request)
          && (pas_node_id r == par_node_id request) && (pas_credential_sha256 r == par_credential_sha256 request)
      | Err _ => false
      end
  | Err _ => false
  end.
Definition without (id : Uuid) (l : list (Uuid * rstr)) : list (Uuid * rstr) := filter (λ x, x.1 ≠ id) l.
Definition only (id : Uuid) (l : list (Uuid * rstr)) : list (Uuid * rstr) := filter (λ x, x.1 = id) l.
#[local] Arguments without : simpl never.
#[local] Arguments only : simpl never.
Definition open_after_event (e : event) (before : list (Uuid * rstr)) : list (Uuid * rstr) :=
  let '(existT _ (o, a)) := e in
  match o in Op.t A return A → list (Uuid * rstr) with
  | Op.Send (HttpRequest.Pair _ request) => λ answer,
      let before := (pr_pairing_id request, pr_credential_sha256 request) :: before in
      if refuses parse_pair_response answer then without (pr_pairing_id request) before else before
  | Op.Send (HttpRequest.PairAck request) => λ answer,
      if accepts_ack request answer then only (par_pairing_id request) before
      else if refuses parse_pair_ack_response answer then without (par_pairing_id request) before else before
  | _ => λ _, before
  end a.
Definition open_requests (h : list event) : list (Uuid * rstr) := foldr open_after_event [] h.

(** ** What the files say *)

(** A ledger that names a digest for a request that was sent. *)
Definition sent (s : PairingCredentialState.t) : bool :=
  match s with PairRequestUnknown | PairAccepted | ConfigCommitted | Acknowledged => true | _ => false end.
Definition binds (l : PairingCredentialLedger) (id : Uuid) (digest : rstr) : Prop :=
  ∃ r, ledger_record l id = Some r ∧ rec_credential_sha256 r = digest ∧ sent (rec_state r) = true.
Definition ledger_is (h : list event) (l : PairingCredentialLedger) : Prop :=
  ∃ data, may_hold ledger_file h = [Some data] ∧ parse_ledger data = Ok l ∧ ledger_validate l config_path = Ok tt.
(** The secret with a digest is certainly in the file. *)
Definition secret_at (h : list event) (p : Path) (digest : rstr) : Prop :=
  ∃ s v, may_hold p h = [Some (bytes s)] ∧ SecretString_new s = Ok v ∧ credential_sha256 v = digest.
Definition config_is (h : list event) (config : option WorkerConfig) : Prop :=
  match config with
  | None => may_hold config_path h = [None]
  | Some c => ∃ raw c0, may_hold config_path h = [Some raw] ∧ parse_config raw = Ok c0 ∧
      c = anchored_config (config_directory config_path) c0
  end.

(** ** The discipline of the transaction *)
Definition stores_safely (p : Path) (data : list N) (h : list event) : Prop :=
  if decide (p = ledger_file) then
    ∃ l, parse_ledger data = Ok l ∧ ledger_validate l config_path = Ok tt ∧
      ∀ id digest, (id, digest) ∈ open_requests h → binds l id digest
  else if decide (p = config_path) then
    ∃ c l r, parse_config data = Ok c ∧ ledger_is h l ∧ r ∈ ldg_records l ∧ rec_state r = PairAccepted ∧
      cfg_credential c = rec_credential_file r ∧ cfg_controller_id c = rec_controller_id r ∧
      cfg_node_id c = rec_node_id r ∧ secret_at h (cfg_credential_file c) (rec_credential_sha256 r)
  else if decide (p = lock_file) then True
  else
    ∃ l r v, ledger_is h l ∧ r ∈ ldg_records l ∧ rec_state r = Staged ∧ rec_credential_file r = absolute p ∧
      data = bytes v ∧ credential_sha256 v = rec_credential_sha256 r.
Definition removes_safely (p : Path) (h : list event) : Prop :=
  credential_like p ∧ path_parent p = Some parent ∧
  (∃ l r digest, ledger_is h l ∧ r ∈ ldg_records l ∧ gives_up r (absolute p) digest ∧ secret_at h p digest) ∧
  ∀ c, config_is h (Some c) → cfg_credential_file c ≠ p.
Definition asks_safely (b : EnrollmentBundleV1) (request : PairRequest) (h : list event) : Prop :=
  (∃ l r, ledger_is h l ∧ ledger_record l (pr_pairing_id request) = Some r ∧ rec_state r = PairRequestUnknown ∧
     rec_credential_sha256 r = pr_credential_sha256 request ∧ eb_pairing_id b = pr_pairing_id request ∧
     rec_controller_id r = eb_controller_id b ∧ rec_node_id r = pr_intended_node_id request ∧
     secret_at h (pb_path (rec_credential_file r)) (pr_credential_sha256 request)) ∧
  ∀ digest, (pr_pairing_id request, digest) ∈ open_requests h → digest = pr_credential_sha256 request.
Definition acknowledges_safely (request : PairAckRequest) (h : list event) : Prop :=
  ∃ l r c, ledger_is h l ∧ ledger_record l (par_pairing_id request) = Some r ∧
    (rec_state r = ConfigCommitted ∨ rec_state r = Acknowledged) ∧
    rec_credential_sha256 r = par_credential_sha256 request ∧
    config_is h (Some c) ∧ cfg_credential c = rec_credential_file r ∧ cfg_node_id c = par_node_id request ∧
    secret_at h (cfg_credential_file c) (par_credential_sha256 request).
Definition pairing_op A (o : Op.t A) (h : list event) : Prop :=
  match o with
  | Op.WriteProtected p data | Op.ReplaceProtected p data => stores_safely p data h
  | Op.RemoveProtected p => removes_safely p h
  | Op.Send (HttpRequest.Pair b request) => asks_safely b request h
  | Op.Send (HttpRequest.PairAck request) => acknowledges_safely request h
  | _ => True
  end.
(** The files are honest, and a failed check of the host is no answer of the controller. *)
Definition pairing_answer A (o : Op.t A) (h : list event) (a : A) : Prop :=
  honest_store tracked A o h a ∧
  (match o in Op.t A return A → Prop with
   | Op.HostCheck _ => λ r, match r with Err e => pairing_terminal_code e = None | Ok _ => True end
   | _ => λ _, True
   end) a.
Definition pairing_discipline : Discipline :=
  {| obligation := pairing_op; assumption := pairing_answer; invariant := λ _, True;
     invariant_call := λ _ _ _ _ _ _, I |}.
(** The histories of pairings, each cut after any operation. *)
Inductive pairing_history : list event → Prop :=
| no_pairing : pairing_history []
| pairing h env sink enrollment_file options h' :
    pairing_history h → obeys pairing_discipline env → h `suffix_of` h' →
    h' `suffix_of` w_trace (pair_worker enrollment_file (absolute config_path) options env
                              {| w_sink := sink; w_trace := h |}).2 →
    pairing_history h'.

(** ** Lawful histories keep what is open in the ledger *)
Definition bound (h : list event) : Prop :=
  ∀ id digest, (id, digest) ∈ open_requests h → ∀ c, c ∈ may_hold ledger_file h →
    ∃ data l, c = Some data ∧ parse_ledger data = Ok l ∧ binds l id digest.
Lemma ledger_is_binds h l id digest :
  bound h → ledger_is h l → (id, digest) ∈ open_requests h → binds l id digest.
Proof.
  intros Hb (data & Hm & Hp & _) Ho. destruct (Hb _ _ Ho (Some data)) as (data' & l' & [= <-] & Hp' & Hl); [rewrite Hm; by left|].
  rewrite Hp in Hp'. by injection Hp' as ->.
Qed.
Lemma without_subset id l : without id l ⊆ l.
Proof. intros x. unfold without. rewrite list_elem_of_filter. tauto. Qed.
Lemma only_subset id l : only id l ⊆ l.
Proof. intros x. unfold only. rewrite list_elem_of_filter. tauto. Qed.
Lemma bound_mono h h' :
  bound h → open_requests h' ⊆ open_requests h → may_hold ledger_file h' ⊆ may_hold ledger_file h → bound h'.
Proof. intros Hb Ho Hm id digest Hi c Hc. apply (Hb id digest); [by apply Ho|by apply Hm]. Qed.
Lemma bound_stored p data r h :
  bound h → stores_safely p data h →
  ∀ h', open_requests h' = open_requests h →
    may_hold ledger_file h' = (if decide (p = ledger_file) then replaced r (Some data) (may_hold ledger_file h)
                               else may_hold ledger_file h) → bound h'.
Proof.
  unfold stores_safely. intros Hb Hs h' Ho Hm. destruct (decide (p = ledger_file)).
  - destruct Hs as (l & Hp & _ & Hall). intros id digest Hi c Hc. rewrite Ho in Hi. rewrite Hm in Hc.
    unfold replaced in Hc. assert (c = Some data ∨ c ∈ may_hold ledger_file h) as [->|Hold].
    { destruct r; [by apply list_elem_of_singleton in Hc as ->; left|]. apply elem_of_cons in Hc as [->|]; auto. } { exists data, l. auto. } by apply (Hb id digest).
  - apply (bound_mono h); [done|by rewrite Ho|by rewrite Hm].
Qed.
Lemma held_write p data r h :
  may_hold ledger_file (existT _ (Op.WriteProtected p data, r) :: h) =
    (if decide (p = ledger_file) then replaced (is_ok r) (Some data) (may_hold ledger_file h) else may_hold ledger_file h).
Proof. cbn. case_bool_decide; by case_decide. Qed.
Lemma held_replace p data r h :
  may_hold ledger_file (existT _ (Op.ReplaceProtected p data, r) :: h) =
    (if decide (p = ledger_file) then replaced (is_ok r) (Some data) (may_hold ledger_file h) else may_hold ledger_file h).
Proof. cbn. case_bool_decide; by case_decide. Qed.
(** What is sent is in the ledger. *)
Lemma bound_asked b request answer h :
  bound h → asks_safely b request h → bound (existT _ (Op.Send (HttpRequest.Pair b request), answer) :: h).
Proof.
  intros Hb [(l & r & (data & Hm & Hp & Hv) & Hr & Hs & Hd & _) _] id digest Hi c Hc.
  change (c ∈ may_hold ledger_file h) in Hc.
  assert ((id, digest) ∈ (pr_pairing_id request, pr_credential_sha256 request) :: open_requests h) as Hi'.
  { cbn in Hi. fold (open_requests h) in Hi. destruct (refuses _ _); [by apply without_subset in Hi|done]. }
  apply elem_of_cons in Hi' as [[= -> ->]|Hi']; [|by apply (Hb id digest)].
  rewrite Hm in Hc. apply list_elem_of_singleton in Hc as ->. exists data, l. split_and!; [done..|].
  exists r. by rewrite Hs.
Qed.
Lemma lawful_bound h : lawful pairing_discipline h → bound h.
Proof.
  induction h as [|[A [o a]] h IH]; [by intros _ id digest Hi%elem_of_nil|]. intros [Hk Hb%IH].
  destruct (decide (changes o ledger_file = false)) as [Hc|Hc].
  - assert (may_hold ledger_file (existT A (o, a) :: h) ⊆ may_hold ledger_file h) as Hsub by by apply unchanged_subset.
    destruct o; try by apply (bound_mono h). destruct request; try by apply (bound_mono h).
    + by apply bound_asked.
    + apply (bound_mono h); [done| |done]. cbn. fold (open_requests h).
      destruct (accepts_ack _ _); [apply only_subset|]. destruct (refuses _ _); [apply without_subset|done].
  - destruct o; try done.
    + eapply bound_stored; [exact Hb|exact Hk|done|apply held_write].
    + eapply bound_stored; [exact Hb|exact Hk|done|apply held_replace].
    + destruct Hk as [Hlike _]. cbn in Hc. apply not_false_iff_true, bool_decide_eq_true in Hc.
      by apply credential_not_ledger in Hc.
Qed.

(** ** Quiet programs

    [keeps P] opens no request and leaves what is known of the files that satisfy [P]. *)
Context (env : Environment) (Henv : obeys pairing_discipline env).
#[local] Abbreviation WP := (wp pairing_discipline env).
Definition keeps (P : Path → Prop) (w w' : World) : Prop :=
  open_requests (w_trace w') ⊆ open_requests (w_trace w) ∧
  ∀ p, tracked p → P p →
    may_hold p (w_trace w') ⊆ may_hold p (w_trace w) ∧
    ∀ c, may_hold p (w_trace w) = [c] → may_hold p (w_trace w') = [c].
Definition quiet : World → World → Prop := keeps (λ _, True).
Lemma keeps_refl P w : keeps P w w.
Proof. by split. Qed.
Lemma keeps_trans P w1 w2 w3 : keeps P w1 w2 → keeps P w2 w3 → keeps P w1 w3.
Proof.
  intros [Ho1 K1] [Ho2 K2]. split; [by etrans|]. intros p Ht Hp.
  destruct (K1 p Ht Hp) as [S1 C1]. destruct (K2 p Ht Hp) as [S2 C2]. split; [by etrans|auto].
Qed.
Lemma keeps_weaken (P Q : Path → Prop) w w' : (∀ p, Q p → P p) → keeps P w w' → keeps Q w w'.
Proof. intros HPQ [Ho Hk]. split; [done|]. auto. Qed.
Definition calm {A} (o : Op.t A) : bool :=
  match o with
  | Op.WriteProtected p _ | Op.ReplaceProtected p _ => p == lock_file
  | Op.RemoveProtected _ | Op.Send (HttpRequest.Pair _ _) | Op.Send (HttpRequest.PairAck _) => false
  | _ => true
  end.
Lemma tracked_not_lock p : tracked p → p ≠ lock_file.
Proof.
  intros [-> |[-> |[_ Hp]]]; [|symmetry; apply lock_not_config|done]. intros E. by apply lock_not_ledger.
Qed.
Lemma calm_call {A} (o : Op.t A) a w : calm o = true → quiet w (record o a w).
Proof.
  intros Hc. split; [destruct o; try done; by destruct request|]. intros p Ht _.
  assert (changes o p = false) as Hu.
  { destruct o; try done; cbn in Hc |- *; apply bool_decide_eq_true in Hc as ->;
      apply bool_decide_eq_false; intros <-; by apply (tracked_not_lock lock_file). }
  split; [by apply unchanged_subset|]. intros c Hp. cbn [w_trace record]. unfold may_hold in *. cbn [foldr].
  rewrite Hp. by apply unchanged_singleton.
Qed.
Lemma calm_obligation {A} (o : Op.t A) h : calm o = true → pairing_op A o h.
Proof.
  intros Hc. assert (∀ p data, p == lock_file = true → stores_safely p data h) as Hl.
  { intros p data Hp%bool_decide_eq_true. unfold stores_safely. subst p.
    rewrite decide_False by apply lock_not_ledger. rewrite decide_False by apply lock_not_config. by rewrite decide_True. }
  destruct o; try done; cbn in *; auto. by destruct request.
Qed.
Definition hushed {A} (m : io A) : Prop := ∀ w, WP m w (λ _ w', quiet w w').
Lemma hushed_ret {A} (a : A) : hushed (mret a).
Proof. intros w. apply runs_ret, keeps_refl. Qed.
Lemma hushed_bind {A B} (m : io A) (k : A → io B) : hushed m → (∀ a, hushed (k a)) → hushed (m ≫= k).
Proof.
  intros Hm Hk w. apply runs_bind. eapply runs_mono; [apply Hm|]. intros a w1 _ K1.
  eapply runs_mono; [apply Hk|]. intros b w2 _ K2. exact (keeps_trans _ _ _ _ K1 K2).
Qed.
Lemma hushed_call {A} (o : Op.t A) : calm o = true → hushed (call o).
Proof. intros Hc w. apply (wp_call _ _ Henv); [by apply calm_obligation|]. intros a _. by apply calm_call. Qed.
Lemma hushed_try {E A B} (m : io (result E A)) (k : A → io (result E B)) :
  hushed m → (∀ a, hushed (k a)) → hushed (try_bind m k).
Proof. intros Hm Hk. apply hushed_bind; [done|]. intros [a|e]; [apply Hk|apply hushed_ret]. Qed.
Lemma hushed_if {A} (b : bool) (m1 m2 : io A) : hushed m1 → hushed m2 → hushed (if b then m1 else m2).
Proof. by destruct b. Qed.
Lemma wp_hushed {A} (m : io A) w (Q : A → World → Prop) : hushed m → (∀ a w', quiet w w' → Q a w') → WP m w Q.
Proof. intros Hm HQ. eapply runs_mono; [apply Hm|]. auto. Qed.

#[local] Ltac hush :=
  repeat first
    [ apply hushed_ret | apply hushed_call; try reflexivity | apply hushed_bind; [|intros ?] | apply hushed_try; [|intros ?]
    | assumption
    | progress cbv beta zeta
    | match goal with |- hushed (match ?x with _ => _ end) => destruct x end
    | progress unfold pure, done_ok, fail, bail, bail_if, call_io, call_any, in_context ].
Lemma hushed_exists p : hushed (path_entry_exists p).
Proof. unfold path_entry_exists. hush. Qed.
Lemma hushed_secret p : hushed (read_secret_file p).
Proof. unfold read_secret_file, protected_input. hush. Qed.
Lemma hushed_reject : hushed (reject_pending_migration config_path).
Proof. unfold reject_pending_migration. hush. Qed.
Lemma hushed_lock : hushed (acquire_pairing_lock config_path).
Proof.
  unfold acquire_pairing_lock, private_directory, protected_directory, ensure_lock_file, protected_input. hush.
  by apply bool_decide_eq_true.
Qed.
Lemma hushed_lock_until fuel deadline : hushed (lock_until fuel deadline config_path).
Proof.
  induction fuel as [|fuel IH]; cbn [lock_until]; (apply hushed_bind; [apply hushed_lock|intros r]); hush.
Qed.
Lemma hushed_transaction_lock : hushed (acquire_pairing_transaction_lock config_path).
Proof. unfold acquire_pairing_transaction_lock. apply hushed_bind; [hush|intros ?]. apply hushed_lock_until. Qed.
Lemma hushed_enrollment file : hushed (load_enrollment_bundle file).
Proof. unfold load_enrollment_bundle, protected_input, validate_enrollment_bundle. hush. Qed.

(** ** What the reading parts learn *)
#[local] Ltac wstep :=
  lazymatch goal with
  | |- wp _ _ (mbind _ _) _ _ => apply runs_bind
  | |- wp _ _ (try_bind _ _) _ _ => apply wp_try
  | |- wp _ _ (mret _) _ _ => apply runs_ret
  | |- wp _ _ (done_ok _) _ _ => apply wp_done
  | |- wp _ _ (fail _) _ _ => apply wp_fail
  | |- wp _ _ (bail _) _ _ => apply wp_fail
  | |- wp _ _ (pure _) _ _ => apply wp_pure
  | |- wp _ _ (bail_if _ _) _ _ => apply wp_bail_if; intros ?
  end.
Definition current (w : World) (l : PairingCredentialLedger) : Prop :=
  ledger_is (w_trace w) l ∨ (may_hold ledger_file (w_trace w) = [None] ∧ l = ledger_empty).
Definition covers (w : World) (l : PairingCredentialLedger) : Prop :=
  ∀ id digest, (id, digest) ∈ open_requests (w_trace w) → binds l id digest.
Lemma keeps_singleton P w w' p c :
  keeps P w w' → tracked p → P p → may_hold p (w_trace w) = [c] → may_hold p (w_trace w') = [c].
Proof. intros [_ Hk] Ht Hp. by apply Hk. Qed.
Lemma keeps_secret P w w' p digest :
  keeps P w w' → tracked p → P p → secret_at (w_trace w) p digest → secret_at (w_trace w') p digest.
Proof. intros Hk Ht Hp (s & v & Hm & Hs). exists s, v. split; [by eapply keeps_singleton|done]. Qed.
Lemma keeps_config P w w' config :
  keeps P w w' → P config_path → config_is (w_trace w) config → config_is (w_trace w') config.
Proof.
  intros Hk Hp. assert (tracked config_path) as Ht by (right; by left). destruct config as [c|]; cbn.
  - intros (raw & c0 & Hm & Hc). exists raw, c0. split; [by eapply keeps_singleton|done].
  - by eapply keeps_singleton.
Qed.
Lemma keeps_ledger P w w' l :
  keeps P w w' → P ledger_file → ledger_is (w_trace w) l → ledger_is (w_trace w') l.
Proof.
  intros Hk Hp (data & Hm & Hl). exists data. split; [|done]. eapply keeps_singleton; [done|by left|done|done].
Qed.
Lemma quiet_current w w' l : quiet w w' → current w l → current w' l.
Proof.
  intros Hk [Hl|[Hm Hl]]; [left; by eapply keeps_ledger|right]. split; [|done].
  eapply keeps_singleton; [done|by left|done|done].
Qed.
Lemma keeps_covers P w w' l : keeps P w w' → covers w l → covers w' l.
Proof. intros [Ho _] Hc id digest Hi. by apply Hc, Ho. Qed.

Lemma exists_spec p w :
  WP (path_entry_exists p) w (λ r w', quiet w w' ∧ (r = Ok false → tracked p → may_hold p (w_trace w') = [None])).
Proof.
  unfold path_entry_exists. wstep. apply (wp_call _ _ Henv); [exact I|]. intros a [Ha _].
  assert (quiet w (record (Op.SymlinkMetadata p) a w)) as Hq by by apply calm_call.
  destruct a as [m|e]; [by wstep|]. destruct (io_not_found e) eqn:He; wstep; (split; [done|]); [|done].
  intros _ Ht. specialize (Ha Ht He). cbn [w_trace record]. unfold may_hold. cbn [foldr].
  by apply settled_by_absence.
Qed.
(** A quiet step in a program that keeps [P] from [w0] on. *)
Lemma quiet_keeps P w w' : quiet w w' → keeps P w w'.
Proof. by apply keeps_weaken. Qed.
Lemma wp_quiet_try P {A B} (m : io (result AnyError A)) (k : A → io (result AnyError B)) w0 w
    (Q : result AnyError B → World → Prop) :
  hushed m → keeps P w0 w → (∀ e w', keeps P w0 w' → Q (Err e) w') → (∀ a w', keeps P w0 w' → quiet w w' → WP (k a) w' Q) →
  WP (try_bind m k) w Q.
Proof.
  intros Hm K0 He Hk. apply wp_try, wp_hushed; [done|]. intros [a|e] w' Hq; [apply Hk; [|done]|apply He];
    (eapply keeps_trans; [exact K0|by apply quiet_keeps]).
Qed.
Lemma read_secret_spec p w :
  WP (read_secret_file p) w (λ r w', quiet w w' ∧
    ∀ v, r = Ok v → tracked p → secret_at (w_trace w') p (credential_sha256 v)).
Proof.
  unfold read_secret_file, protected_input.
  do 4 (eapply (wp_quiet_try (λ _, True) _ _ w); [hush|first [eassumption|apply keeps_refl]|by split|intros ? ? ? ?]). wstep.
  apply wp_call_io; [done|exact I| |].
  - intros s [Hs _]. wstep. split; [eapply keeps_trans; [eassumption|by apply calm_call]|].
    intros v Hv Ht. exists s, v. split_and!; [|done|done].
    cbn [w_trace record]. unfold may_hold. cbn [foldr]. by apply settled_by_text, Hs.
  - intros e. split; [|done]. eapply keeps_trans; [eassumption|by apply calm_call].
Qed.
(** A file that is read whole. *)
Lemma read_file_spec message p w :
  WP (call_io message (Op.ReadToEnd p)) w (λ r w', quiet w w' ∧
    ∀ data, r = Ok data → tracked p → may_hold p (w_trace w') = [Some data]).
Proof.
  apply wp_call_io; [done|exact I| |].
  - intros data [Hd _]. split; [by apply calm_call|]. intros d [= <-] Ht.
    cbn [w_trace record]. unfold may_hold. cbn [foldr]. by apply settled_by_read, Hd.
  - intros e. split; [by apply calm_call|done].
Qed.
Lemma tracked_config : tracked config_path.
Proof. right. by left. Qed.
Lemma tracked_ledger : tracked ledger_file.
Proof. by left. Qed.
Lemma config_load_spec w :
  WP (config_load config_path) w (λ r w', quiet w w' ∧
    ∀ c, r = Ok c → config_is (w_trace w') (Some c) ∧ WorkerConfig_validate c = Ok tt).
Proof.
  unfold config_load. eapply (wp_quiet_try (λ _, True) _ _ w); [apply hushed_reject|apply keeps_refl|by split|intros [] w1 K1 _].
  eapply (wp_quiet_try (λ _, True) _ _ w); [unfold in_context, protected_input; hush|exact K1|by split|intros [] w2 K2 _].
  wstep. eapply runs_mono; [apply read_file_spec|]. intros [raw|e] w3 _ [K3 Hraw]; [|split; [by eapply keeps_trans|done]].
  specialize (Hraw raw eq_refl tracked_config).
  assert (quiet w w3) as K by by eapply keeps_trans.
  wstep. wstep; [done|]. wstep. wstep. destruct (parse_config raw) as [c0|e] eqn:Hc0; cbn [map_err context]; [|done].
  cbv zeta. wstep. wstep. destruct (WorkerConfig_validate _) as [[]|e] eqn:Hv; [|done]. wstep. split; [done|].
  intros c [= <-]. split; [|done]. exists raw, c0. by split_and!.
Qed.
Lemma ledger_load_spec w :
  WP (ledger_load config_path) w (λ r w', quiet w w' ∧ ∀ l, r = Ok l → current w' l).
Proof.
  unfold ledger_load. cbv zeta. wstep. eapply runs_mono; [apply exists_spec|]. intros [[]|e] w1 _ [K1 Hno]; [| |done]; cbn [negb].
  - clear Hno. eapply (wp_quiet_try (λ _, True) _ _ w); [unfold in_context, protected_input; hush|exact K1|by split|intros [] w2 K2 _].
    wstep. eapply runs_mono; [apply read_file_spec|]. intros [raw|e] w3 _ [K3 Hraw]; [|split; [by eapply keeps_trans|done]].
    specialize (Hraw raw eq_refl tracked_ledger).
    assert (quiet w w3) as K by by eapply keeps_trans.
    wstep. wstep; [done|]. wstep. wstep. destruct (parse_ledger raw) as [l|e] eqn:Hl; cbn [map_err context]; [|done].
    wstep. wstep. destruct (ledger_validate l config_path) as [[]|e] eqn:Hv; [|done]. wstep. split; [done|].
    intros l' [= <-]. left. exists raw. by split_and!.
  - wstep. split; [done|]. intros l [= <-]. right. split; [|done]. by apply Hno, tracked_ledger.
Qed.

(** ** Storing the ledger *)
Definition beside_ledger (p : Path) : Prop := p ≠ ledger_file.
Lemma keeps_write p data r w (o : Op.t (result AnyError unit)) :
  o = Op.WriteProtected p data ∨ o = Op.ReplaceProtected p data → keeps (λ q, q ≠ p) w (record o r w).
Proof.
  intros Ho. split; [by destruct Ho as [-> | ->]|]. intros q Ht Hq.
  assert (changes o q = false) as Hu by (destruct Ho as [-> | ->]; apply bool_decide_eq_false; congruence).
  split; [by apply unchanged_subset|]. intros c Hp. cbn [w_trace record]. unfold may_hold in *. cbn [foldr].
  rewrite Hp. by apply unchanged_singleton.
Qed.
Lemma written_whole p data w (o : Op.t (result AnyError unit)) :
  o = Op.WriteProtected p data ∨ o = Op.ReplaceProtected p data →
  may_hold p (w_trace (record o (Ok tt) w)) = [Some data].
Proof.
  intros [-> | ->]; cbn [w_trace record]; unfold may_hold; cbn [foldr];
    [by rewrite settled_by_write|by rewrite settled_by_replace].
Qed.
Lemma persist_spec l w :
  covers w l → WP (ledger_persist l config_path) w (λ r w',
    keeps beside_ledger w w' ∧ (r = Ok tt → ledger_is (w_trace w') l)).
Proof.
  intros Hc. unfold ledger_persist. wstep. wstep. destruct (ledger_validate l config_path) as [[]|e] eqn:Hv;
    [|by split; [apply keeps_refl|]]. cbv zeta. wstep. wstep.
  destruct (ledger_json l) as [data|e] eqn:Hj; cbn [map_err context]; [|by split; [apply keeps_refl|]].
  wstep. wstep; [by split; [apply keeps_refl|]|].
  eapply wp_quiet_try; [apply hushed_exists|apply (keeps_refl beside_ledger)|by split|]. intros present w1 K1 _.
  set (o := if present then _ else _).
  assert (o = Op.WriteProtected ledger_file (data ++ [10%N]) ∨ o = Op.ReplaceProtected ledger_file (data ++ [10%N])) as Ho
    by (destruct present; auto).
  assert (stores_safely ledger_file (data ++ [10%N]) (w_trace w1)) as Hs.
  { unfold stores_safely. rewrite decide_True by done. exists l. split_and!; [by apply ledger_json_parses|done|].
    by apply (keeps_covers _ _ _ _ K1). }
  apply wp_call_any; [done|by destruct Ho as [-> | ->]| |].
  - intros [] _. split; [eapply keeps_trans; [exact K1|by eapply keeps_write]|]. intros _.
    exists (data ++ [10%N]). split_and!; [by apply written_whole|by apply ledger_json_parses|done].
  - intros e. split; [|done]. eapply keeps_trans; [exact K1|by eapply keeps_write].
Qed.
Lemma persisted_spec l w :
  covers w l → WP (persisted config_path l) w (λ r w',
    keeps beside_ledger w w' ∧ ∀ l', r = Ok l' → l' = l ∧ ledger_is (w_trace w') l).
Proof.
  intros Hc. unfold persisted. wstep. eapply runs_mono; [by apply persist_spec|]. intros [[]|e] w' _ [K Hl]; [|done].
  wstep. split; [done|]. intros l' [= <-]. auto.
Qed.

(** ** What a change of the ledger keeps *)

(** A record that stays bound to what was sent for it. *)
Definition follows (id : Uuid) (r r' : PairingCredentialRecord) : Prop :=
  rec_pairing_id r' = rec_pairing_id r ∧
  (rec_pairing_id r = id → sent (rec_state r) = true →
   rec_credential_sha256 r' = rec_credential_sha256 r ∧ sent (rec_state r') = true).
Lemma follows_refl id r : follows id r r.
Proof. by split. Qed.
Lemma find_follows id l l' r :
  Forall2 (follows id) l l' → List.find (λ r, rec_pairing_id r == id) l = Some r →
  ∃ r', List.find (λ r, rec_pairing_id r == id) l' = Some r' ∧ follows id r r' ∧ rec_pairing_id r = id.
Proof.
  induction 1 as [|a b l l' [Hid Hf] _ IH]; [done|]. cbn. rewrite Hid. case_bool_decide as E; [|exact IH].
  intros [= ->]. exists b. by split_and!.
Qed.
Lemma binds_follows l rs id digest :
  Forall2 (follows id) (ldg_records l) rs → binds l id digest → binds (with_records l rs) id digest.
Proof.
  intros Hf (r & Hr & Hd & Hs). destruct (find_follows _ _ _ _ Hf Hr) as (r' & Hr' & [_ Hk] & Hid).
  destruct (Hk Hid Hs) as [Hd' Hs']. exists r'. split_and!; [exact Hr'|congruence|done].
Qed.
Lemma binds_filter l rs (f : PairingCredentialRecord → bool) id digest :
  (∀ r, sent (rec_state r) = true → f r = true) →
  binds (with_records l rs) id digest → binds (with_records l (List.filter f rs)) id digest.
Proof.
  intros Hf (r & Hr & Hd & Hs). exists r. split_and!; try done. unfold ledger_record in *. cbn in *.
  induction rs as [|a rs IH]; [done|]. cbn in *. case_bool_decide as E.
  - injection Hr as ->. rewrite (Hf r Hs). cbn. by rewrite bool_decide_eq_true_2.
  - destruct (f a); [|by apply IH]. cbn. rewrite bool_decide_eq_false_2 by done. by apply IH.
Qed.
Lemma change_first_follows id id0 f l r :
  List.find (λ r, rec_pairing_id r == id0) l = Some r → follows id r (f r) →
  Forall2 (follows id) l (change_first id0 f l).
Proof.
  induction l as [|a l IH]; intros Hr Hf; [constructor|]. cbn in Hr |- *. case_bool_decide as E.
  - injection Hr as ->. constructor; [done|]. apply Forall_Forall2_diag, Forall_forall. intros r' _. apply follows_refl.
  - constructor; [apply follows_refl|by apply IH].
Qed.
Lemma find_changed id f l r :
  rec_pairing_id (f r) = rec_pairing_id r → List.find (λ r, rec_pairing_id r == id) l = Some r →
  List.find (λ r, rec_pairing_id r == id) (change_first id f l) = Some (f r).
Proof.
  intros Hf. induction l as [|a l IH]; [done|]. cbn. case_bool_decide as E.
  - intros [= ->]. cbn. by rewrite Hf, bool_decide_eq_true_2.
  - intros Hr. cbn. rewrite bool_decide_eq_false_2 by done. by apply IH.
Qed.
Lemma record_id l id r : ledger_record l id = Some r → rec_pairing_id r = id ∧ r ∈ ldg_records l.
Proof.
  intros Hr. apply find_some in Hr as [Hin Hid]. apply bool_decide_eq_true in Hid.
  split; [done|]. by apply list_elem_of_In.
Qed.
Lemma covers_follows w l rs :
  (∀ id digest, (id, digest) ∈ open_requests (w_trace w) → Forall2 (follows id) (ldg_records l) rs) →
  covers w l → covers w (with_records l rs).
Proof. intros Hf Hc id digest Ho. eapply binds_follows; [by eapply Hf|by apply Hc]. Qed.
(** The record of one pairing is changed and stored. *)
Lemma changed_spec id f message l r w :
  covers w l → ledger_record l id = Some r →
  rec_pairing_id (f r) = rec_pairing_id r →
  (∀ digest, (id, digest) ∈ open_requests (w_trace w) → follows id r (f r)) →
  WP (ledger ←? pure (ok_or (record_mut l id f) (anyhow message)); persisted config_path ledger) w (λ a w',
    keeps beside_ledger w w' ∧
    ∀ l', a = Ok l' → ledger_is (w_trace w') l' ∧ ledger_record l' id = Some (f r) ∧ covers w' l').
Proof.
  intros Hc Hr Hid Hf. wstep. wstep. unfold record_mut. rewrite Hr. cbn [ok_or].
  assert (covers w (with_records l (change_first id f (ldg_records l)))) as Hc'.
  { apply covers_follows; [|done]. intros id' digest Ho. eapply change_first_follows; [exact Hr|].
    destruct (decide (id' = id)) as [->|Hne]; [by eapply Hf|]. split; [exact Hid|].
    destruct (record_id _ _ _ Hr). congruence. }
  eapply runs_mono; [by apply persisted_spec|]. intros a w' _ [K Hl]. split; [done|]. intros l' ->.
  destruct (Hl l' eq_refl) as [-> Hl']. split_and!; [done|by apply find_changed|by eapply keeps_covers].
Qed.

(** ** Garbage collection *)
Definition evolves (rs rs' : list PairingCredentialRecord) : Prop := ∀ id, Forall2 (follows id) rs rs'.
Lemma record_evolves_refl rs : evolves rs rs.
Proof. intros id. apply Forall_Forall2_diag, Forall_forall. intros r _. apply follows_refl. Qed.
Lemma follows_trans id r1 r2 r3 : follows id r1 r2 → follows id r2 r3 → follows id r1 r3.
Proof.
  intros [I1 F1] [I2 F2]. split; [congruence|]. intros Hid Hs. destruct (F1 Hid Hs) as [D1 S1].
  rewrite <- Hid, <- I1 in F2. destruct (F2 eq_refl S1) as [D2 S2]. split; [congruence|done].
Qed.
Lemma evolves_trans rs1 rs2 rs3 : evolves rs1 rs2 → evolves rs2 rs3 → evolves rs1 rs3.
Proof. intros K1 K2 id. eapply Forall2_trans; [apply follows_trans|apply K1|apply K2]. Qed.
Lemma evolves_map f rs : (∀ r, r ∈ rs → ∀ id, follows id r (f r)) → evolves rs (f <$> rs).
Proof. intros Hf id. apply Forall2_fmap_r, Forall_Forall2_diag, Forall_forall. auto. Qed.
Lemma evolves_alter f i rs : (∀ r id, follows id r (f r)) → evolves rs (alter f i rs).
Proof.
  intros Hf id. revert i. induction rs as [|r rs IH]; intros [|i]; constructor; auto; try apply follows_refl.
  by apply record_evolves_refl.
Qed.
Lemma evolves_clear slots rs : evolves rs (clear_slots slots rs).
Proof.
  unfold clear_slots. revert rs. induction slots as [|[i slot] slots IH]; intros rs; [apply record_evolves_refl|].
  cbn. eapply evolves_trans; [|apply IH]. apply evolves_alter. intros r id. by destruct slot.
Qed.
Lemma with_same_records l : with_records l (ldg_records l) = l.
Proof. by destruct l. Qed.
Lemma covers_evolves w l rs : evolves (ldg_records l) rs → covers w l → covers w (with_records l rs).
Proof. intros He. apply covers_follows. intros id _ _. apply He. Qed.

Definition cleanable (p : PathBuf) : Prop :=
  pb_absolute p = true ∧ path_parent (pb_path p) = Some parent ∧ credential_like (pb_path p).
Lemma cleanable_valid p : validate_ledger_credential_path config_path p = Ok tt → cleanable p.
Proof.
  unfold validate_ledger_credential_path, cleanable. rewrite Hparent. cbn [ok_or]. intros Hv.
  apply bind_unit_Ok in Hv as [Hv He]. apply reject_if_Ok, orb_false_iff in Hv as [Ha Hp].
  apply reject_if_Ok in He. apply negb_false_iff in Ha. rewrite negb_bool_decide_false in He. rewrite negb_bool_decide_false in Hp. by split_and!.
Qed.
Lemma credential_tracked p : credential_like p → tracked p.
Proof. intros Hp. right. right. split; [done|by apply credential_not_lock]. Qed.
Definition checked (w : World) (x : Candidate * bool) : Prop :=
  cleanable x.1.1 ∧ (x.2 = true → secret_at (w_trace w) (key x.1) x.1.2.1).
Lemma checked_quiet w w' x : quiet w w' → checked w x → checked w' x.
Proof.
  intros Hq [Hc Hs]. split; [done|]. intros Hx. destruct Hc as (_ & _ & Hl).
  eapply keeps_secret; [exact Hq|by apply credential_tracked|done|auto].
Qed.
Lemma verify_owned_spec path digest w :
  WP (verify_owned_credential_for_cleanup config_path path digest) w (λ r w', quiet w w' ∧
    ∀ b, r = Ok b → cleanable path ∧ (b = true → secret_at (w_trace w') (pb_path path) digest)).
Proof.
  unfold verify_owned_credential_for_cleanup. wstep. wstep.
  destruct (validate_ledger_credential_path config_path path) as [[]|e] eqn:Hv; [|by split; [apply keeps_refl|]].
  apply cleanable_valid in Hv. wstep. wstep. destruct (validate_credential_digest digest) as [[]|e];
    [|by split; [apply keeps_refl|]].
  eapply (wp_quiet_try (λ _, True) _ _ w); [apply hushed_exists|apply keeps_refl|by split|intros present w1 K1 _].
  destruct present; cbn [negb]; [|by wstep; split; [|intros b [= <-]]].
  eapply (wp_quiet_try (λ _, True) _ _ w); [unfold protected_input; hush|exact K1|by split|intros _ w2 K2 _].
  eapply (wp_quiet_try (λ _, True) _ _ w); [hush|exact K2|by split|intros p w3 K3 _].
  do 2 (eapply (wp_quiet_try (λ _, True) _ _ w); [hush|first [exact K3|eassumption]|by split|intros ? ? ? _]).
  wstep. wstep; [done|].
  wstep. eapply runs_mono; [apply read_secret_spec|]. intros [v|e] w6 _ [K6 Hv6]; [|split; [by eapply keeps_trans|done]].
  wstep. wstep; [by split; [eapply keeps_trans|]|]. wstep. split; [by eapply keeps_trans|].
  intros b [= <-]. split; [done|]. intros _.
  match goal with E : (credential_sha256 _ != _) = false |- _ => rewrite negb_bool_decide_false in E; rewrite <- E end.
  apply Hv6; [done|]. by apply credential_tracked, Hv.
Qed.
Lemma preflight_spec candidates w :
  WP (preflight config_path candidates) w (λ r w', quiet w w' ∧
    ∀ present, r = Ok present → fst <$> present = candidates ∧ Forall (checked w') present).
Proof.
  revert w. induction candidates as [|c candidates IH]; intros w; cbn [preflight].
  { wstep. split; [apply keeps_refl|]. by intros present [= <-]. }
  wstep. eapply runs_mono; [apply verify_owned_spec|]. intros [b|e] w1 _ [K1 Hb]; [|by split].
  wstep. eapply runs_mono; [apply IH|]. intros [rest|e] w2 _ [K2 Hrest]; [|by split; [eapply keeps_trans|]].
  wstep. split; [by eapply keeps_trans|]. intros present [= <-]. destruct (Hrest rest eq_refl) as [Hf Hall].
  split; [cbn; by f_equal|]. constructor; [|done]. apply (checked_quiet w1 w2); [done|]. by apply Hb.
Qed.

(** The files that cleanup spares. *)
Definition spared (config : option WorkerConfig) (p : Path) : Prop :=
  p = ledger_file ∨ p = config_path ∨ ∃ c, config = Some c ∧ p = cfg_credential_file c.
Lemma absolute_path p : pb_absolute p = true → absolute (pb_path p) = p.
Proof. destruct p as [[] p]; done. Qed.
Lemma config_is_unique h config c : config_is h config → config_is h (Some c) → config = Some c.
Proof.
  destruct config as [c'|]; cbn.
  - intros (raw & c0 & Hm & Hp & ->) (raw' & c0' & Hm' & Hp' & ->). congruence.
  - intros Hm (raw & c0 & Hm' & _). congruence.
Qed.
Lemma config_is_absolute h c : config_is h (Some c) → pb_absolute (cfg_credential c) = true.
Proof. by intros (raw & c0 & _ & _ & ->). Qed.
Lemma current_elsewhere h config c p :
  config_is h config → config_is h (Some c) → pb_absolute p = true →
  cfg_credential <$> config ≠ Some p → cfg_credential_file c ≠ pb_path p.
Proof.
  intros Hc Hs Hp Hne E. pose proof (config_is_unique _ _ _ Hc Hs) as ->. apply Hne. cbn. f_equal.
  unfold cfg_credential_file in E.
  rewrite <- (absolute_path (cfg_credential c)), <- (absolute_path p), E by (done || by eapply config_is_absolute). done.
Qed.
Lemma spared_elsewhere h config p :
  config_is h config → cleanable p → cfg_credential <$> config ≠ Some p →
  ∀ q, spared config q → q ≠ pb_path p.
Proof.
  intros Hc (Ha & _ & Hl) Hne q [-> |[-> |(c & -> & ->)]] E.
  - by apply (credential_not_ledger (pb_path p)).
  - apply Hjson. by rewrite E.
  - by apply (current_elsewhere h (Some c) c p).
Qed.
Lemma keeps_removal p r w : keeps (λ q, q ≠ p) w (record (Op.RemoveProtected p) r w).
Proof.
  split; [done|]. intros q Ht Hq. assert (changes (Op.RemoveProtected p) q = false) as Hu by by apply bool_decide_eq_false.
  split; [by apply unchanged_subset|]. intros c Hp. cbn [w_trace record]. unfold may_hold in *. cbn [foldr].
  rewrite Hp. by apply unchanged_singleton.
Qed.
Lemma remove_candidates_spec config l present rs w :
  ledger_is (w_trace w) l → config_is (w_trace w) config →
  Forall (checked w) present → StronglySorted before (fst <$> present) →
  Forall (λ x, justified (cfg_credential <$> config) (ldg_records l) x.1) present →
  WP (remove_candidates present rs) w (λ r w', keeps (spared config) w w' ∧
    ∀ rs', r = Ok rs' → evolves rs rs' ∧ (present = [] → rs' = rs)).
Proof.
  revert rs w. induction present as [|[[path [digest slots]] b] present IH]; intros rs w Hl Hc Hck Hs Hj; cbn [remove_candidates].
  { wstep. split; [apply keeps_refl|]. intros rs' [= <-]. split; [apply record_evolves_refl|done]. }
  apply Forall_cons in Hck as [[Hcl Hsec] Hck]. apply Forall_cons in Hj as [[Hne (r & Hr & Hg)] Hj].
  apply StronglySorted_inv in Hs as [Hs Hlt]. cbn in Hsec, Hne, Hg, Hcl.
  pose proof (spared_elsewhere _ _ _ Hc Hcl Hne) as Hsp.
  assert (∀ w1, keeps (λ q, q ≠ pb_path path) w w1 →
    WP (remove_candidates present (clear_slots slots rs)) w1 (λ r w', keeps (spared config) w w' ∧
      ∀ rs', r = Ok rs' → evolves rs rs' ∧ ((path, (digest, slots), b) :: present = [] → rs' = rs))) as Hnext.
  { intros w1 K1. eapply runs_mono; [apply IH; [| | |done|done]|].
    - eapply keeps_ledger; [exact K1|apply Hsp; by left|done].
    - eapply keeps_config; [exact K1|apply Hsp; right; by left|done].
    - apply Forall_forall. intros x Hx. destruct (proj1 (Forall_forall _ _) Hck x Hx) as [Hcx Hsx]. split; [done|].
      intros Hb. eapply keeps_secret; [exact K1|apply credential_tracked, Hcx| |by apply Hsx].
      intros E. pose proof (proj1 (Forall_forall _ _) Hlt x.1 ltac:(by apply list_elem_of_fmap_2)) as Hb'.
      unfold before, key in Hb'. cbn in Hb'. unfold key in E. by rewrite E, (cmp_refl path_cmp) in Hb'.
    - intros a w2 _ [K2 He]. split.
      + eapply keeps_trans; [eapply keeps_weaken; [|exact K1]|exact K2]. done.
      + intros rs' ->. split; [|done]. eapply evolves_trans; [apply evolves_clear|by apply He]. }
  wstep. destruct b; [|wstep; apply Hnext, keeps_refl].
  apply wp_call_any; [done| | |].
  - destruct Hcl as (Ha & Hpar & Hlike). split_and!; [done|done| |].
    + exists l, r, digest. rewrite absolute_path by done. split_and!; [done..|by apply Hsec].
    + intros c Hcc. by apply (current_elsewhere (w_trace w) config).
  - intros [] _. apply Hnext, keeps_removal.
  - intros e. split; [|done]. eapply keeps_weaken; [|apply keeps_removal]. exact Hsp.
Qed.

(** A step that leaves a ledger, and what is known of the spared files beside it. *)
Definition aside (config : option WorkerConfig) (p : Path) : Prop := spared config p ∧ p ≠ ledger_file.
Definition stored (config : option WorkerConfig) (w : World) (r : result AnyError PairingCredentialLedger) (w' : World) : Prop :=
  keeps (aside config) w w' ∧ ∀ l, r = Ok l → ledger_is (w_trace w') l ∧ covers w' l.
Lemma keeps_aside config w w' : keeps beside_ledger w w' → keeps (aside config) w w'.
Proof. apply keeps_weaken. by intros p [_ Hp]. Qed.
Lemma stored_trans config w w1 r w2 : keeps (aside config) w w1 → stored config w1 r w2 → stored config w r w2.
Proof. intros K1 [K2 Hl]. split; [by eapply keeps_trans|done]. Qed.
Lemma aside_config config : aside config config_path.
Proof. split; [right; by left|]. intros E. by apply ledger_not_config. Qed.
Lemma persisted_stored config l w : covers w l → WP (persisted config_path l) w (stored config w).
Proof.
  intros Hc. eapply runs_mono; [by apply persisted_spec|]. intros r w' _ [K Hl]. split; [by apply keeps_aside|].
  intros l' ->. destruct (Hl l' eq_refl) as [-> Hl']. split; [done|by eapply keeps_covers].
Qed.
(** The ledger is stored if it was changed, and otherwise is what is stored. *)
Lemma persisted_if config (changed : bool) l0 l w :
  ledger_is (w_trace w) l0 → covers w l → (changed = false → l = l0) →
  WP (if changed then persisted config_path l else done_ok l) w (stored config w).
Proof.
  intros Hl Hc He. destruct changed; [by apply persisted_stored|]. wstep. split; [apply keeps_refl|].
  intros l' [= <-]. by rewrite He in Hc |- *.
Qed.
Lemma filter_same {A} (f : A → bool) l : length (List.filter f l) = length l → List.filter f l = l.
Proof.
  induction l as [|a l IH]; [done|]. cbn. destruct (f a); cbn; intros E; [f_equal; apply IH; lia|].
  pose proof (filter_length_le f l). lia.
Qed.
Lemma collect_spec config invocation changed l w :
  ledger_is (w_trace w) l → covers w l → config_is (w_trace w) config →
  WP (collect_candidates config_path invocation (cfg_credential <$> config) changed l) w (stored config w).
Proof.
  intros Hl Hc Hcfg. unfold collect_candidates. wstep. wstep.
  destruct (candidates_from _ _ _ _ _) as [cs|e] eqn:Hcs; [|by split; [apply keeps_refl|]].
  apply (candidates_from_picked _ _ (ldg_records l)) in Hcs as [Hsorted Hjust]; [|done|by split; constructor].
  wstep. eapply runs_mono; [apply preflight_spec|]. intros [present|e] w1 _ [K1 Hpre]; [|split; [by apply quiet_keeps|done]].
  destruct (Hpre present eq_refl) as [Hfst Hck]. wstep. eapply runs_mono.
  { apply (remove_candidates_spec config l); [by eapply keeps_ledger|by eapply keeps_config|done|by rewrite Hfst|].
    apply Forall_forall. intros x Hx. apply (proj1 (Forall_forall _ _) Hjust). rewrite <- Hfst. by apply list_elem_of_fmap_2. }
  intros [rs|e] w2 _ [K2 He]; (assert (keeps (spared config) w w2) as K by (eapply keeps_trans; [by apply quiet_keeps|done])).
  2: { split; [|done]. eapply keeps_weaken; [|exact K]. by intros p [Hp _]. }
  destruct (He rs eq_refl) as [Hev Hsame]. cbv zeta. set (kept := List.filter _ rs).
  assert (covers w2 (with_records l kept)) as Hc'.
  { intros id digest Ho. apply binds_filter.
    - intros r Hr. unfold retained. rewrite !orb_true_iff, negb_true_iff. right. by destruct (rec_state r).
    - apply (binds_follows l); [apply Hev|]. by apply Hc, K. }
  assert (ledger_is (w_trace w2) l) as Hl2 by (eapply keeps_ledger; [exact K|by left|done]).
  eapply runs_mono; [apply (persisted_if config _ l); [done|done|]|].
  - intros Hch. apply orb_false_iff in Hch as [Hch Hlen]. apply orb_false_iff in Hch as [_ Hnone].
    apply negb_false_iff in Hnone, Hlen. apply Nat.eqb_eq in Hlen. unfold kept. rewrite filter_same by done.
    etransitivity; [|apply with_same_records]. f_equal. apply Hsame. apply (f_equal length) in Hfst.
    rewrite length_fmap in Hfst. destruct cs; [by destruct present|done].
  - intros r w3 _. apply stored_trans. eapply keeps_weaken; [|exact K]. by intros p [Hp _].
Qed.
Lemma hushed_owns r : hushed (owns_existing_file r).
Proof.
  unfold owns_existing_file. apply hushed_try; [apply hushed_exists|intros []; [hush|]].
  destruct (rec_previous_credential_file r); [apply hushed_exists|hush].
Qed.
Lemma hushed_foreign controller_id node_id rs : hushed (refuse_foreign_files controller_id node_id rs).
Proof.
  induction rs as [|r rs IH]; cbn [refuse_foreign_files]; [hush|]. apply hushed_try; [|intros ?; exact IH].
  destruct (same_binding _ _ r); [hush|]. apply hushed_try; [apply hushed_owns|intros ?; hush].
Qed.
Lemma current_binding_spec config w :
  WP (current_binding config) w (λ r w', quiet w w' ∧ ∀ b, r = Ok b → fst <$> b = cfg_credential <$> config).
Proof.
  unfold current_binding. destruct config as [c|]; [|by wstep; split; [apply keeps_refl|intros b [= <-]]].
  eapply (wp_quiet_try (λ _, True) _ _ w); [apply hushed_secret|apply keeps_refl|by split|intros v w1 K1 _].
  wstep. split; [done|]. by intros b [= <-].
Qed.
Lemma gc_spec config invocation controller_id node_id l w :
  ledger_is (w_trace w) l → covers w l → config_is (w_trace w) config →
  WP (garbage_collect_pairing_credentials config_path config invocation controller_id node_id l) w (stored config w).
Proof.
  intros Hl Hc Hcfg. unfold garbage_collect_pairing_credentials. wstep.
  eapply runs_mono; [apply current_binding_spec|]. intros [b|e] w1 _ [K1 Hb]; [|split; [by apply quiet_keeps|done]].
  specialize (Hb b eq_refl). apply (quiet_keeps (aside config)) in K1 as Ka.
  eapply (wp_quiet_try (aside config) _ _ w); [apply hushed_foreign|exact Ka|by split|intros _ w2 K2 Q2].
  wstep. wstep. match goal with |- match ?x with _ => _ end => destruct x as [[]|e] end; [|by split].
  wstep. eapply wp_hushed; [by apply hushed_call|]. intros now w3 Q3. cbv zeta. rewrite Hb.
  assert (quiet w w3) as Q by (eapply keeps_trans; [exact K1|by eapply keeps_trans]).
  assert (ledger_is (w_trace w3) l) as Hl3 by (eapply keeps_ledger; [exact Q|done|done]).
  set (expires := expires_now _ _ _ _ _).
  assert (covers w3 (with_records l ((λ r, if expires r then expired_record r else r) <$> ldg_records l))) as Hc3.
  { apply covers_evolves; [|by eapply keeps_covers]. apply evolves_map. intros r _ id.
    destruct (expires r) eqn:E; [|apply follows_refl]. split; [done|]. intros _ Hs. exfalso.
    unfold expires, expires_now in E. rewrite !andb_true_iff, bool_decide_eq_true in E.
    destruct E as [[[[_ E] _] _] _]. by rewrite E in Hs. }
  wstep. eapply runs_mono; [apply (persisted_if config _ l); [done|done|]|].
  - intros Hno. etransitivity; [|apply with_same_records]. f_equal. etransitivity; [|apply list_fmap_id].
    apply list_fmap_ext. intros i r Hi. rewrite existsb_false, Forall_lookup in Hno. by rewrite (Hno i r Hi).
  - intros [l2|e] w4 _ [K4 Hl4]; [|split; [eapply keeps_trans; [by apply quiet_keeps|done]|done]].
    destruct (Hl4 l2 eq_refl) as [Hl2 Hc2]. eapply runs_mono; [apply collect_spec; [done|done|]|].
    + eapply keeps_config; [exact K4|apply aside_config|]. by eapply keeps_config; [exact Q| |].
    + intros r w5 _. apply stored_trans. eapply keeps_trans; [by apply quiet_keeps|exact K4].
Qed.
Lemma prepare_records_spec enrollment cur rs w :
  WP (prepare_records enrollment cur rs) w (λ r w', quiet w w' ∧ ∀ rs', r = Ok rs' → evolves rs rs').
Proof.
  revert w. induction rs as [|r rs IH]; intros w; cbn [prepare_records].
  { wstep. split; [apply keeps_refl|]. intros rs' [= <-]. apply record_evolves_refl. }
  cbv zeta. eapply (wp_quiet_try (λ _, True) _ _ w); [apply hushed_owns|apply keeps_refl|by split|intros owns w1 K1 _].
  eapply (wp_quiet_try (λ _, True) _ _ w); [hush|exact K1|by split|intros _ w2 K2 _]. wstep.
  eapply (runs_mono _ _ _ _ (λ a w', quiet w w' ∧ ∀ r', a = Ok r' → ∀ id, follows id r r')).
  - destruct (_ || _); [wstep; split; [done|]; intros r' [= <-] ?; apply follows_refl|].
    destruct (_ && _) eqn:E; [|wstep; split; [done|]; intros r' [= <-] ?; apply follows_refl].
    wstep. eapply wp_hushed; [by apply hushed_call|]. intros now w3 K3. wstep. split; [by eapply keeps_trans|].
    intros r' [= <-] id. split; [done|]. intros _ Hs. apply andb_true_iff in E as [E _].
    apply bool_decide_eq_true in E. by rewrite E in Hs.
  - intros [r'|e] w3 _ [K3 Hr']; [|by split]. wstep. eapply runs_mono; [apply IH|].
    intros [rs'|e] w4 _ [K4 Hrs']; [|split; [by eapply keeps_trans|done]]. wstep. split; [by eapply keeps_trans|].
    intros rs1 [= <-] id. constructor; [by apply Hr'|by apply Hrs'].
Qed.
Lemma empty_covers w l : bound (w_trace w) → current w l → covers w l.
Proof.
  intros Hb [Hl|[Hm ->]] id digest Ho; [by eapply ledger_is_binds|].
  destruct (Hb id digest Ho None) as (data & l & [=] & _). rewrite Hm. by left.
Qed.
Lemma prepare_spec enrollment config l w :
  covers w l → WP (prepare_invocation config_path enrollment config l) w (stored config w).
Proof.
  intros Hc. unfold prepare_invocation. wstep. eapply runs_mono; [apply prepare_records_spec|].
  intros [rs|e] w1 _ [K1 He]; [|split; [by apply quiet_keeps|done]].
  eapply runs_mono; [apply (persisted_stored config)|].
  - apply covers_evolves; [by apply He|by eapply keeps_covers].
  - intros r w2 _. apply stored_trans. by apply quiet_keeps.
Qed.

(** ** The layout *)
Definition has_secret (w : World) (p : Path) : Prop := tracked p → ∃ digest, secret_at (w_trace w) p digest.
Lemma quiet_secret w w' p : quiet w w' → has_secret w p → has_secret w' p.
Proof. intros Q Hp Ht. destruct (Hp Ht) as [d Hd]. exists d. by eapply keeps_secret. Qed.
Lemma quiet_config w w' config : quiet w w' → config_is (w_trace w) config → config_is (w_trace w') config.
Proof. intros Q. by eapply keeps_config. Qed.
Lemma quiet_trans w1 w2 w3 : quiet w1 w2 → quiet w2 w3 → quiet w1 w3.
Proof. apply keeps_trans. Qed.
Lemma quiet_refl w : quiet w w.
Proof. apply keeps_refl. Qed.
Lemma clean_spec p label w :
  WP (absolute_clean_path (absolute p) label) w (λ r w', quiet w w' ∧ ∀ q, r = Ok q → q = p).
Proof.
  unfold absolute_clean_path. cbn [pb_absolute absolute pb_path]. wstep. wstep. wstep.
  wstep; [by split; [apply keeps_refl|]|]. wstep. split; [apply keeps_refl|]. by intros q [= <-].
Qed.
Lemma hushed_clean p label : hushed (absolute_clean_path p label).
Proof. unfold absolute_clean_path. hush. Qed.
Lemma existing_config_spec controller_id node_id w :
  WP (existing_config config_path parent controller_id node_id) w (λ r w', quiet w w' ∧
    ∀ c, r = Ok c → config_is (w_trace w') (Some c) ∧ has_secret w' (cfg_credential_file c)).
Proof.
  unfold existing_config. wstep. eapply runs_mono; [apply config_load_spec|]. intros [c|e] w1 _ [K1 Hc]; [|by split].
  destruct (Hc c eq_refl) as [Hcfg _]. wstep. wstep; [done|]. wstep. wstep; [done|].
  wstep. eapply runs_mono; [apply read_secret_spec|]. intros [v|e] w2 _ [K2 Hv]; [|split; [by eapply quiet_trans|done]].
  assert (quiet w w2) as K by by eapply quiet_trans.
  assert (has_secret w2 (cfg_credential_file c)) as Hs by (intros Ht; exists (credential_sha256 v); by apply Hv).
  eapply (wp_quiet_try (λ _, True) _ _ w); [hush|exact K|by split|intros cp w3 K3 Q3].
  eapply (wp_quiet_try (λ _, True) _ _ w); [hush|exact K3|by split|intros cc w4 K4 Q4].
  eapply (wp_quiet_try (λ _, True) _ _ w); [hush|exact K4|by split|intros cf w5 K5 Q5].
  eapply (wp_quiet_try (λ _, True) _ _ w); [hush|exact K5|by split|intros _ w6 K6 Q6]. wstep. split; [done|].
  assert (quiet w2 w6) as Q by (do 3 (eapply quiet_trans; [eassumption|]); done).
  intros c' [= <-]. split; [|by eapply quiet_secret]. eapply quiet_config; [exact Q|]. exact (quiet_config _ _ _ K2 Hcfg).
Qed.
Definition laid_out (pairing_id : Uuid) (w : World) (layout : PairingLayout) : Prop :=
  lay_config_path layout = config_path ∧
  lay_credential_file layout = staged_path config_path pairing_id ∧
  config_is (w_trace w) (lay_existing_config layout) ∧
  lay_committed_config layout = committed (lay_credential_file layout) (lay_existing_config layout) ∧
  ∀ c, lay_existing_config layout = Some c → beside_ledger (cfg_credential_file c) → has_secret w (cfg_credential_file c).
Lemma hushed_workspace requested existing p : hushed (requested_workspace requested existing p).
Proof.
  unfold requested_workspace. destruct requested; [|hush]. apply hushed_try; [hush|intros _; apply hushed_clean].
Qed.
Lemma layout_spec options controller_id node_id pairing_id w :
  WP (prepare_pairing_layout config_path options controller_id node_id pairing_id) w (λ r w', quiet w w' ∧
    ∀ layout, r = Ok layout → laid_out pairing_id w' layout).
Proof.
  unfold prepare_pairing_layout. wstep. eapply runs_mono; [apply clean_spec|].
  intros [p|e] w1 _ [K1 Hp]; [|by split]. rewrite (Hp p eq_refl).
  wstep. eapply runs_mono; [apply exists_spec|]. intros [present|e] w2 _ [K2 Hno]; [|split; [by eapply quiet_trans|done]].
  assert (quiet w w2) as K by by eapply quiet_trans.
  wstep. wstep. rewrite Hparent. cbn [ok_or].
  eapply (wp_quiet_try (λ _, True) _ _ w); [unfold private_directory; hush|exact K|by split|intros _ w3 K3 Q3].
  eapply (wp_quiet_try (λ _, True) _ _ w); [destruct present; [hush|apply hushed_exists]|exact K3|by split|intros ap w4 K4 Q4].
  eapply (wp_quiet_try (λ _, True) _ _ w); [hush|exact K4|by split|intros _ w5 K5 Q5]. cbv zeta.
  assert (quiet w2 w5) as Q25 by (do 2 (eapply quiet_trans; [eassumption|]); done).
  wstep. eapply (runs_mono _ _ _ _ (λ r w', quiet w5 w' ∧ ∀ existing, r = Ok existing →
    config_is (w_trace w') existing ∧ ∀ c, existing = Some c → has_secret w' (cfg_credential_file c))).
  { destruct present.
    - wstep. eapply runs_mono; [apply existing_config_spec|]. intros [c|e] w6 _ [K6 Hc]; [|by split]. wstep. split; [done|].
      intros existing [= <-]. destruct (Hc c eq_refl). split; [done|]. by intros c' [= <-].
    - eapply (wp_quiet_try (λ _, True) _ _ w5); [hush|apply keeps_refl|by split|intros _ w6 K6 Q6]. wstep. split; [done|].
      intros existing [= <-]. split; [|done]. apply (quiet_config w2 w6 None); [by eapply quiet_trans|].
      by apply Hno, tracked_config. }
  intros [existing|e] w6 _ [K6 Hex]; [|split; [by eapply quiet_trans|done]].
  destruct (Hex existing eq_refl) as [Hcfg Hsec].
  assert (quiet w w6) as K7 by (eapply quiet_trans; [exact K5|done]).
  eapply (wp_quiet_try (λ _, True) _ _ w); [hush|exact K7|by split|intros _ w7 K8 Q7].
  eapply (wp_quiet_try (λ _, True) _ _ w); [apply hushed_workspace|exact K8|by split|intros root w8 K9 Q8].
  eapply (wp_quiet_try (λ _, True) _ _ w); [hush|exact K9|by split|intros _ w9 K10 Q9].
  eapply (wp_quiet_try (λ _, True) _ _ w); [unfold private_directory; hush|exact K10|by split|intros _ w10 K11 Q10].
  eapply (wp_quiet_try (λ _, True) _ _ w); [unfold protected_directory; hush|exact K11|by split|intros _ w11 K12 Q11].
  eapply (wp_quiet_try (λ _, True) _ _ w); [unfold protected_directory; hush|exact K12|by split|intros _ w12 K13 Q12].
  eapply (wp_quiet_try (λ _, True) _ _ w); [|exact K13|by split|intros digest w13 K14 Q13].
  { match goal with |- hushed (match ?x with _ => _ end) => destruct x end; [|hush].
    apply hushed_try; [apply hushed_secret|intros ?; hush]. }
  wstep. split; [done|]. intros layout [= <-]. unfold laid_out. cbn.
  assert (quiet w6 w13) as Q by (do 6 (eapply quiet_trans; [eassumption|]); done).
  split_and!; [done..|by eapply quiet_config|done|]. intros c Hc _. eapply quiet_secret; [exact Q|by apply Hsec].
Qed.

(** ** Staging *)
Definition holding (enrollment : EnrollmentBundleV1) (digest : rstr) (P : PairingCredentialState.t → Prop)
    (w : World) (l : PairingCredentialLedger) : Prop :=
  ledger_is (w_trace w) l ∧ covers w l ∧
  secret_at (w_trace w) (staged_path config_path (eb_pairing_id enrollment)) digest ∧
  ∃ r, ledger_record l (eb_pairing_id enrollment) = Some r ∧ P (rec_state r) ∧ rec_credential_sha256 r = digest ∧
    rec_controller_id r = eb_controller_id enrollment ∧ rec_node_id r = eb_intended_node_id enrollment ∧
    rec_credential_file r = absolute (staged_path config_path (eb_pairing_id enrollment)).
(** How the record of a staged credential may look. *)
Definition staged_state (layout : PairingLayout) (s : PairingCredentialState.t) : Prop :=
  deletes_staged_credential s = false ∧
  (is_some (lay_committed_config layout) = true → s = ConfigCommitted ∨ s = Acknowledged).
Lemma find_appended {A} (f : A → bool) l1 l2 :
  List.find f (l1 ++ l2) = match List.find f l1 with Some a => Some a | None => List.find f l2 end.
Proof. induction l1 as [|a l1 IH]; [done|]. cbn. by destruct (f a). Qed.
Definition enrolled (enrollment : EnrollmentBundleV1) (r : PairingCredentialRecord) : Prop :=
  rec_pairing_id r = eb_pairing_id enrollment ∧ rec_controller_id r = eb_controller_id enrollment ∧
  rec_node_id r = eb_intended_node_id enrollment ∧
  rec_credential_file r = absolute (staged_path config_path (eb_pairing_id enrollment)).
Lemma restaged_spec layout enrollment created digest r r' :
  enrolled enrollment r → deletes_staged_credential (rec_state r) = false →
  restaged_record layout created digest r = Ok r' →
  enrolled enrollment r' ∧ rec_credential_sha256 r' = digest ∧ staged_state layout (rec_state r') ∧
  (created = true → rec_state r = Staged) ∧ (created = false → rec_credential_sha256 r = digest) ∧
  (is_some (lay_committed_config layout) = false → rec_state r' = rec_state r) ∧
  (sent (rec_state r) = true → sent (rec_state r') = true).
Proof.
  intros (E1 & E2 & E3 & E4) Hdel Hr'. unfold restaged_record in Hr'. apply bind_unit_Ok in Hr' as [Hdig Hr'].
  apply bind_Ok in Hr' as (r1 & Hr1 & Hr'). injection Hr' as <-. apply reject_if_Ok in Hdig.
  assert (enrolled enrollment r1 ∧ rec_state r1 = rec_state r ∧ rec_credential_sha256 r1 = digest ∧
    (created = true → rec_state r = Staged) ∧ (created = false → rec_credential_sha256 r = digest)) as (F1 & F2 & F3 & F4 & F5).
  { destruct created; cbn in Hdig.
    - apply bind_unit_Ok in Hr1 as [Hst Hr1]. injection Hr1 as <-. apply reject_if_Ok in Hst.
      rewrite negb_bool_decide_false in Hst. by split_and!.
    - injection Hr1 as <-. rewrite negb_bool_decide_false in Hdig. by split_and!. }
  destruct (is_some (lay_committed_config layout)) eqn:Hcom; cbn; unfold staged_state.
  - rewrite Hcom, F2. destruct (rec_state r != Acknowledged) eqn:E; cbn; rewrite ?F2; split_and!; auto; [done|].
    rewrite negb_bool_decide_false in E. by right.
  - rewrite Hcom. split_and!; try done; by rewrite F2.
Qed.
Lemma staged_ledger_spec layout enrollment created digest l l' w :
  lay_credential_file layout = staged_path config_path (eb_pairing_id enrollment) →
  (∀ r, ledger_record l (eb_pairing_id enrollment) = Some r → check_staged_record layout enrollment r = Ok tt) →
  staged_ledger layout enrollment created digest l = Ok l' → covers w l →
  covers w l' ∧ ∃ r, ledger_record l' (eb_pairing_id enrollment) = Some r ∧ enrolled enrollment r ∧
    rec_credential_sha256 r = digest ∧ staged_state layout (rec_state r) ∧
    (created = true → is_some (lay_committed_config layout) = false → rec_state r = Staged).
Proof.
  intros Hfile Hcheck Hl' Hc. unfold staged_ledger in Hl'. set (id := eb_pairing_id enrollment) in *.
  destruct (ledger_record l id) as [r|] eqn:Hr.
  - specialize (Hcheck r eq_refl). unfold check_staged_record in Hcheck.
    apply bind_unit_Ok in Hcheck as [Hb Hcheck]. apply bind_unit_Ok in Hcheck as [Ht _].
    apply reject_if_Ok in Hb, Ht. rewrite !orb_false_iff, !negb_bool_decide_false in Hb.
    destruct Hb as [[Hctrl Hnode] Hrf]. rewrite Hfile in Hrf. destruct (record_id _ _ _ Hr) as [Hid _].
    apply bind_Ok in Hl' as (r' & Hr' & Hl'). injection Hl' as <-.
    destruct (restaged_spec layout enrollment created digest r r') as (F1 & F2 & F3 & F4 & F5 & F6 & F7); [by split_and!|done..|].
    assert (rec_pairing_id r' = rec_pairing_id r) as Hid' by (destruct F1 as [-> _]; done). split.
    + apply covers_follows; [|done]. intros id' d Ho. apply (change_first_follows _ _ (λ _, r') _ r); [exact Hr|].
      split; [done|]. intros _ Hs. split; [|by apply F7]. rewrite F2. destruct created; [by rewrite F4 in Hs|by rewrite F5].
    + exists r'. split_and!; try done; [by apply (find_changed id (λ _, r') _ r)|]. intros Hcr Hcom. by rewrite F6, F4.
  - apply bind_unit_Ok in Hl' as [_ Hl']. injection Hl' as <-. split.
    + intros id' d Ho. destruct (Hc id' d Ho) as (r & Hr' & Hd). exists r. split; [|done].
      unfold ledger_record in *. cbn. rewrite find_appended. by rewrite Hr'.
    + exists (new_record layout enrollment digest). unfold ledger_record in *. cbn [ldg_records with_records].
      rewrite find_appended, Hr. cbn. rewrite bool_decide_eq_true_2 by done. unfold enrolled, staged_state. cbn.
      rewrite Hfile. split_and!; try done; destruct (is_some _); try done; auto.
Qed.

Definition beside_writes (p : Path) : Prop := p = config_path.
Lemma stage_spec layout enrollment l w :
  laid_out (eb_pairing_id enrollment) w layout → ledger_is (w_trace w) l → covers w l →
  WP (stage_pairing_credential layout enrollment l) w (λ r w', keeps beside_writes w w' ∧
    ∀ v l', r = Ok (v, l') → holding enrollment (credential_sha256 v) (staged_state layout) w' l').
Proof.
  intros (Hcp & Hfile & Hcfg & Hcom & Hsec) Hl Hc. unfold stage_pairing_credential. wstep. wstep.
  match goal with |- match ?x with _ => _ end => destruct x as [[]|e] eqn:Hcheck end; [|by split; [apply keeps_refl|]].
  set (file := staged_path config_path (eb_pairing_id enrollment)) in *. rewrite Hfile.
  assert (tracked file) as Htr by apply credential_tracked, staged_extension.
  wstep. eapply runs_mono; [apply exists_spec|]. intros [present|e] w1 _ [K1 Hno]; [|by split; [apply quiet_keeps|]].
  assert (present = false → is_some (lay_committed_config layout) = false) as Hnew.
  { intros ->. rewrite Hcom. unfold committed. destruct (lay_existing_config layout) as [c|] eqn:Hex; [|done].
    case_bool_decide as Hcred; [|done]. exfalso. specialize (Hno eq_refl Htr).
    destruct (Hsec c eq_refl) as (d & s & v & Hm & _);
      [unfold cfg_credential_file; rewrite Hcred, Hfile; apply credential_not_ledger, staged_extension
      |unfold cfg_credential_file; by rewrite Hcred, Hfile|].
    unfold cfg_credential_file in Hm. rewrite Hcred, Hfile in Hm. cbn [pb_path absolute] in Hm.
    pose proof (keeps_singleton _ _ _ _ _ K1 Htr I Hm). congruence. }
  wstep. eapply (runs_mono _ _ _ _ (λ r w', quiet w1 w' ∧ ∀ v, r = Ok v → present = true →
    secret_at (w_trace w') file (credential_sha256 v))).
  { destruct present.
    - unfold in_context. wstep. eapply runs_mono; [apply read_secret_spec|]. intros r w2 _ [K2 Hv]. wstep. split; [done|].
      intros v Hr _. destruct r; [|done]. by apply Hv.
    - eapply runs_mono; [|by intros r w2 _ K2; split; [exact K2|]].
      assert (hushed new_staged_credential) as Hh by (unfold new_staged_credential; hush). apply Hh. }
  intros [v|e] w2 _ [K2 Hv]; [|split; [eapply keeps_trans; by apply quiet_keeps|done]].
  assert (quiet w w2) as K by by eapply quiet_trans.
  cbv zeta. wstep. wstep. destruct (validate_staged_credential v) as [[]|e] eqn:Hval; [|by split; [apply quiet_keeps|]].
  apply reject_if_Ok, negb_false_iff, staged_is_secret in Hval as (Hself & Hmal & Hne).
  wstep. wstep. destruct (staged_ledger _ _ _ _ _) as [l1|e] eqn:Hl1; [|by split; [apply quiet_keeps|]].
  apply (staged_ledger_spec _ _ _ _ _ _ w2) in Hl1 as (Hc1 & r & Hr & Hen & Hd & Hst & Hnewst); [|done| |by eapply keeps_covers].
  2: { intros r Hr. rewrite Hr in Hcheck. done. }
  rewrite Hcp. wstep. eapply runs_mono; [by apply persisted_spec|].
  intros [l2|e] w3 _ [K3 Hl2]; [|split; [|done]].
  2: { eapply keeps_trans; [by apply quiet_keeps|]. eapply keeps_weaken; [|exact K3]. intros p ->. intros E. by apply ledger_not_config. }
  destruct (Hl2 l2 eq_refl) as [-> Hl3].
  assert (keeps beside_writes w w3) as K'.
  { eapply keeps_trans; [by apply quiet_keeps|]. eapply keeps_weaken; [|exact K3]. intros p -> E. by apply ledger_not_config. }
  assert (∀ w4, secret_at (w_trace w4) file (credential_sha256 v) → ledger_is (w_trace w4) l1 → covers w4 l1 →
    holding enrollment (credential_sha256 v) (staged_state layout) w4 l1) as Hdone.
  { intros w4 ? ? ?. split_and!; try done. exists r. destruct Hen as (? & ? & ? & ?). by split_and!. }
  destruct Hen as (E1 & E2 & E3 & E4). wstep. destruct present; cbn [negb].
  - wstep. wstep. split; [done|]. intros v' l' [= <- <-]. apply Hdone; [|done|exact (keeps_covers _ _ _ _ K3 Hc1)].
    eapply keeps_secret; [exact K3|done|apply credential_not_ledger, staged_extension|by apply Hv].
  - unfold in_context, write_secret_file. wstep. wstep. rewrite Hmal. wstep; [by split|].
    destruct v as [|c v']; [done|]. set (v := c :: v') in *.
    apply (wp_call _ _ Henv).
    + unfold pairing_op, obligation, stores_safely. cbn. unfold stores_safely.
      rewrite !decide_False; [|apply credential_not_lock, staged_extension|apply staged_not_config|apply credential_not_ledger, staged_extension].
      exists l1, r, v. split_and!; [done| |by apply Hnewst, Hnew|done|done|done]. by apply record_id in Hr as [_ Hr].
    + intros [[]|e] _; wstep; cbn [context map_err]; [wstep|].
      * split; [eapply keeps_trans; [exact K'|]; eapply keeps_weaken; [|eapply keeps_write; by left]|].
        { intros p -> E. by apply (staged_not_config (eb_pairing_id enrollment)). }
        intros v1 l' [= <- <-]. apply Hdone.
        -- exists v, v. split_and!; [|done|done]. by apply (written_whole file (bytes v)); left.
        -- eapply keeps_ledger; [eapply keeps_write; by left| |done]. cbn. intros E.
           by apply (credential_not_ledger file); [apply staged_extension|].
        -- eapply keeps_covers; [eapply keeps_write; by left|exact (keeps_covers _ _ _ _ K3 Hc1)].
      * split; [|done]. eapply keeps_trans; [exact K'|]. eapply keeps_weaken; [|eapply keeps_write; by left].
        intros p -> E. by apply (staged_not_config (eb_pairing_id enrollment)).
Qed.

(** ** Answers of the controller *)
Definition terminal (e : AnyError) : bool := is_some (pairing_terminal_code e).
Lemma message_not_terminal e : ae_root e = ErrorRoot.Message → terminal e = false.
Proof. unfold terminal, pairing_terminal_code. by intros ->. Qed.
Lemma rejected {A} b message (k : result AnyError A) e :
  (reject_if b (anyhow message);; k) = Err e → ae_root e = ErrorRoot.Message ∨ k = Err e.
Proof. destruct b; cbn; [intros [= <-]; by left|by right]. Qed.
Lemma url_not_terminal raw e : validate_https_url raw = Err e → terminal e = false.
Proof.
  unfold validate_https_url. intros Hv. apply message_not_terminal.
  destruct (parse_url raw); cbn [ok_or mbind result_bind] in Hv; [|by injection Hv as <-].
  do 3 (apply rejected in Hv as [Hv|Hv]; [exact Hv|]). discriminate Hv.
Qed.
Lemma bound_not_terminal b request response e : pair_response_bound b request response = Err e → terminal e = false.
Proof.
  unfold pair_response_bound. intros Hv. apply message_not_terminal.
  do 3 (apply rejected in Hv as [Hv|Hv]; [exact Hv|]). unfold reject_if in Hv. destruct (_ != _); [|done]. by injection Hv as <-.
Qed.
Lemma validated_not_terminal {E} message (r : result E unit) e : validated message r = Err e → terminal e = false.
Proof. unfold validated. destruct r; cbn; [done|]. by intros [= <-]. Qed.
(** What a pairing request leaves. *)
Definition asked (request : PairRequest) (w : World) (r : result AnyError PairResponse) (w' : World) : Prop :=
  (∃ w1, quiet w w1 ∧ ∀ p, may_hold p (w_trace w') = may_hold p (w_trace w1)) ∧
  open_requests (w_trace w') ⊆ (pr_pairing_id request, pr_credential_sha256 request) :: open_requests (w_trace w) ∧
  ∀ e, r = Err e → terminal e = true → open_requests (w_trace w') ⊆ without (pr_pairing_id request) (open_requests (w_trace w)).
Lemma asked_quietly request w r w' :
  quiet w w' → (∀ e, r = Err e → terminal e = false) → asked request w r w'.
Proof.
  intros Q Hr. split_and!; [by exists w'|etrans; [apply Q|by apply list_subseteq_cons]|].
  intros e -> Ht. by rewrite (Hr e eq_refl) in Ht.
Qed.
Lemma pair_spec enrollment request w :
  (∀ w1, quiet w w1 → asks_safely enrollment request (w_trace w1)) →
  WP (pair enrollment request) w (λ r w', asked request w r w' ∧
    ∀ paired, r = Ok paired → prs_controller_id paired = eb_controller_id enrollment ∧
      prs_node_id paired = eb_intended_node_id enrollment).
Proof.
  intros Hask. unfold pair, validate_enrollment_bundle.
  assert (∀ A e w', quiet w w' → terminal e = false → asked request w (@Err AnyError PairResponse e) w' ∧
    ∀ paired, (@Err AnyError PairResponse e) = Ok paired → A paired) as Hearly.
  { intros A e w' Q He. split; [|done]. apply asked_quietly; [done|]. by intros e' [= <-]. }
  wstep. wstep. wstep. destruct (validated _ _) as [[]|e] eqn:Hv; [|apply Hearly; [apply quiet_refl|by eapply validated_not_terminal]].
  wstep. wstep. destruct (validate_https_url _) as [u|e] eqn:Hu; [|apply Hearly; [apply quiet_refl|by eapply url_not_terminal]].
  wstep. eapply wp_hushed; [by apply hushed_call|]. intros now w1 K1.
  wstep; [by apply Hearly|]. wstep. wstep.
  destruct (validated _ (PairRequest_validate _)) as [[]|e] eqn:Hv2; [|apply Hearly; [done|by eapply validated_not_terminal]].
  wstep. wstep. wstep. unfold send. wstep. apply (wp_call _ _ Henv); [by apply Hask|]. intros a _. wstep.
  set (w2 := record _ a w1).
  assert (open_requests (w_trace w2) ⊆ (pr_pairing_id request, pr_credential_sha256 request) :: open_requests (w_trace w)) as Hopen.
  { unfold w2. cbn. fold (open_requests (w_trace w1)).
    assert ((pr_pairing_id request, pr_credential_sha256 request) :: open_requests (w_trace w1)
      ⊆ (pr_pairing_id request, pr_credential_sha256 request) :: open_requests (w_trace w)) as Hs
      by (apply list_subseteq_skip, K1).
    destruct (refuses _ _); [|done]. etrans; [apply without_subset|done]. }
  assert (∀ r : result AnyError PairResponse, (∀ e, r = Err e → terminal e = false) → asked request w r w2) as Hlate.
  { intros r Hr. split_and!; [by exists w1|done|]. intros e -> Ht. by rewrite (Hr e eq_refl) in Ht. }
  destruct a as [response|e]; cbn [map_err context]; [|split; [|done]; apply Hlate; intros e' [= <-]; by destruct e].
  wstep. wstep. destruct (decode_json parse_pair_response response) as [paired|e] eqn:Hd.
  2: { split; [|done]. split_and!; [by exists w1|done|]. intros e' [= <-] Ht. unfold w2. cbn. rewrite Hd. fold (terminal e).
       rewrite Ht. fold (open_requests (w_trace w1)). intros [id d] Hin. unfold without in *.
       rewrite list_elem_of_filter in Hin |- *. destruct Hin as [Hne [[= -> ->]|Hin]%elem_of_cons]; [done|].
       split; [done|by apply K1]. }
  wstep. wstep. destruct (validated _ (PairResponse_validate _)) as [[]|e] eqn:Hv3.
  2: { split; [|done]. apply Hlate. intros e' [= <-]. by eapply validated_not_terminal. }
  wstep. wstep. destruct (pair_response_bound _ _ _) as [[]|e] eqn:Hb.
  2: { split; [|done]. apply Hlate. intros e' [= <-]. by eapply bound_not_terminal. }
  wstep. split; [by apply Hlate|]. intros paired' [= <-]. unfold pair_response_bound in Hb.
  rewrite !bind_unit_Ok, !reject_if_Ok, !negb_bool_decide_false in Hb. naive_solver.
Qed.

(** Quiet programs whose errors are the worker's own. *)
Definition mild {A} (m : io (result AnyError A)) : Prop :=
  ∀ w, WP m w (λ r w', quiet w w' ∧ ∀ e, r = Err e → terminal e = false).
Lemma mild_try {A B} (m : io (result AnyError A)) (k : A → io (result AnyError B)) :
  mild m → (∀ a, mild (k a)) → mild (try_bind m k).
Proof.
  intros Hm Hk w. wstep. eapply runs_mono; [apply Hm|]. intros [a|e] w1 _ [K1 He].
  - eapply runs_mono; [apply Hk|]. intros r w2 _ [K2 He2]. split; [by eapply quiet_trans|done].
  - split; [done|]. intros e' [= <-]. by apply He.
Qed.
Lemma mild_pure {A} (r : result AnyError A) : (∀ e, r = Err e → terminal e = false) → mild (pure r).
Proof. intros Hr w. wstep. split; [apply quiet_refl|done]. Qed.
Lemma mild_done {A} (a : A) : mild (done_ok a).
Proof. by apply mild_pure. Qed.
Lemma mild_bail_if b message : mild (bail_if b message).
Proof. intros w. wstep; (split; [apply quiet_refl|]); by intros e [= <-]. Qed.
Lemma mild_check step : mild (call (Op.HostCheck step)).
Proof.
  intros w. apply (wp_call _ _ Henv); [exact I|]. intros r [_ Hr]. split; [by apply calm_call|].
  intros e ->. unfold terminal. by rewrite Hr.
Qed.
Lemma mild_io {A} message (o : Op.t (result IoError A)) : calm o = true → mild (call_io message o).
Proof.
  intros Hc w. apply wp_call_io; [done|by apply calm_obligation| |].
  - intros a _. split; [by apply calm_call|done].
  - intros e. split; [by apply calm_call|]. by intros e' [= <-].
Qed.
Lemma secret_not_terminal s e : SecretString_new s = Err e → terminal e = false.
Proof.
  unfold SecretString_new. cbv zeta. intros Hv. apply message_not_terminal.
  do 2 (apply rejected in Hv as [Hv|Hv]; [exact Hv|]). discriminate Hv.
Qed.
Lemma config_not_terminal c e : WorkerConfig_validate c = Err e → terminal e = false.
Proof.
  unfold WorkerConfig_validate. intros Hv. apply rejected in Hv as [Hv|Hv]; [by apply message_not_terminal|].
  destruct (validate_https_url _) as [u|e'] eqn:Hu; cbn [mbind result_bind] in Hv;
    [|injection Hv as <-; by eapply url_not_terminal]. apply message_not_terminal.
  do 5 (apply rejected in Hv as [Hv|Hv]; [exact Hv|]). unfold reject_if in Hv. destruct (_ || _); [|done]. by injection Hv as <-.
Qed.
Lemma timeout_not_terminal c e : control_request_timeout c = Err e → terminal e = false.
Proof.
  unfold control_request_timeout. destruct (WorkerConfig_validate c) as [[]|e'] eqn:Hc; cbn [mbind result_bind]; intros Hv;
    [|injection Hv as <-; by eapply config_not_terminal]. cbv zeta in Hv.
  apply rejected in Hv as [Hv|Hv]; [by apply message_not_terminal|done].
Qed.
Lemma mild_client config : mild (client_from_config config).
Proof.
  unfold client_from_config, load_credential, read_secret_file, protected_input.
  repeat first [ apply mild_try; [|intros ?] | apply mild_check | apply mild_bail_if | by apply mild_io | apply mild_done ];
    apply mild_pure; [by apply url_not_terminal|by apply secret_not_terminal|by apply timeout_not_terminal].
Qed.
(** What an acknowledgement leaves. *)
Definition answered (id : Uuid) (w : World) (r : result AnyError unit) (w' : World) : Prop :=
  quiet w w' ∧ (r = Ok tt → open_requests (w_trace w') ⊆ only id (open_requests (w_trace w))) ∧
  ∀ e, r = Err e → terminal e = true → open_requests (w_trace w') ⊆ without id (open_requests (w_trace w)).
Lemma answered_early id w e w' : quiet w w' → terminal e = false → answered id w (Err e) w'.
Proof. intros Q He. split_and!; [done..|]. intros e' [= <-] Ht. congruence. Qed.
Lemma filter_mono (P : Uuid * rstr → Prop) `{∀ x, Decision (P x)} (l l' : list (Uuid * rstr)) : l ⊆ l' → filter P l ⊆ filter P l'.
Proof. intros Hs x. rewrite !list_elem_of_filter. intros [? ?]. auto. Qed.
Lemma acknowledge_spec config id node digest w :
  (∀ w1, quiet w w1 → cfg_node_id config = node → acknowledges_safely
     {| par_api_version := WORKER_API_VERSION; par_pairing_id := id; par_node_id := node; par_credential_sha256 := digest |}
     (w_trace w1)) →
  WP (acknowledge_committed_pairing config id node digest) w (answered id w).
Proof.
  intros Hack. unfold acknowledge_committed_pairing. wstep.
  wstep; [by apply answered_early; [apply quiet_refl|]|].
  match goal with E : (_ != _) = false |- _ => rewrite negb_bool_decide_false in E; rename E into Hnode end.
  wstep. eapply runs_mono; [apply mild_client|]. intros [[]|e] w1 _ [K1 He]; [|by apply answered_early; [|apply He]].
  set (request := {| par_api_version := _ |}) in *. unfold acknowledge_pairing. wstep. wstep. wstep.
  destruct (validated _ _) as [[]|e] eqn:Hv; [|by apply answered_early; [|by eapply validated_not_terminal]].
  wstep. unfold send. wstep. apply (wp_call _ _ Henv); [by apply Hack|]. intros a _. wstep. set (w2 := record _ a w1).
  assert (quiet w1 w2) as K2.
  { split; [|done]. unfold w2. cbn. fold (open_requests (w_trace w1)).
    destruct (accepts_ack _ _); [apply only_subset|]. destruct (refuses _ _); [apply without_subset|done]. }
  assert (quiet w w2) as K by by eapply quiet_trans.
  destruct a as [response|e]; cbn [map_err context]; [|apply answered_early; [done|by destruct e]].
  wstep. wstep. destruct (decode_json parse_pair_ack_response response) as [answer|e] eqn:Hd.
  2: { split_and!; [done..|]. intros e' [= <-] Ht. unfold w2. cbn. rewrite Hd. fold (terminal e). rewrite Ht.
       apply filter_mono, K1. }
  wstep. wstep. destruct (validated _ (PairAckResponse_validate answer)) as [[]|e] eqn:Hv2;
    [|by apply answered_early; [|by eapply validated_not_terminal]].
  wstep. wstep; [by apply answered_early|].
  wstep. wstep. split_and!; [done| |done]. intros _. unfold w2. cbn. rewrite Hd.
  match goal with E : _ || _ = false |- _ => rewrite !orb_false_iff, !negb_false_iff in E; destruct E as [[E1 E2] E3] end.
  cbn in E1, E2, E3. rewrite E1, E2, E3.
  unfold validated in Hv2. destruct (PairAckResponse_validate answer) as [[]|]; [|done]. cbn.
  apply filter_mono, K1.
Qed.

(** ** The transaction *)
Section transaction.
Context (enrollment : EnrollmentBundleV1) (digest : rstr).
#[local] Abbreviation id := (eb_pairing_id enrollment).
#[local] Abbreviation file := (staged_path config_path id).
#[local] Abbreviation holds := (holding enrollment digest).
Lemma file_tracked : tracked file.
Proof. apply credential_tracked, staged_extension. Qed.
Lemma file_beside : beside_ledger file.
Proof. apply credential_not_ledger, staged_extension. Qed.
Lemma quiet_holding P w w' l : quiet w w' → holds P w l → holds P w' l.
Proof.
  intros Q (Hl & Hc & Hs & Hr). split_and!; [by eapply keeps_ledger|by eapply keeps_covers| |done].
  eapply keeps_secret; [exact Q|apply file_tracked|exact I|done].
Qed.
(** The record moves on. *)
Lemma moved_spec (P Q : PairingCredentialState.t → Prop) f message l w :
  holds P w l →
  (∀ r, enrolled enrollment r → P (rec_state r) →
     enrolled enrollment (f r) ∧ rec_credential_sha256 (f r) = rec_credential_sha256 r ∧ Q (rec_state (f r)) ∧
     (sent (rec_state (f r)) = true ∨ ∀ d, (id, d) ∉ open_requests (w_trace w))) →
  WP (ledger ←? pure (ok_or (record_mut l id f) (anyhow message)); persisted config_path ledger) w (λ a w',
    keeps beside_ledger w w' ∧ ∀ l', a = Ok l' → holds Q w' l').
Proof.
  intros (Hl & Hc & Hs & r & Hr & HP & Hd & E1 & E2 & E3) Hf. destruct (record_id _ _ _ Hr) as [Hid _].
  destruct (Hf r ltac:(by split_and!) HP) as ((F1 & F2 & F3 & F4) & Hd' & HQ & Hsent).
  eapply runs_mono; [apply (changed_spec id f message l r); [done|done|congruence|]|].
  - intros d Ho. split; [congruence|]. intros _ _. split; [done|]. destruct Hsent as [Hsent|Hno]; [done|by destruct (Hno d)].
  - intros a w' _ [K Ha]. split; [done|]. intros l' ->. destruct (Ha l' eq_refl) as (Hl' & Hr' & Hc').
    split_and!; [done|done| |].
    + eapply keeps_secret; [exact K|apply file_tracked|apply file_beside|done].
    + exists (f r). split_and!; try done. congruence.
Qed.
Lemma ledger_transition_spec (P : PairingCredentialState.t → Prop) state l w :
  holds P w l → sent state = true ∨ (∀ d, (id, d) ∉ open_requests (w_trace w)) →
  WP (transition config_path id state l) w (λ a w',
    keeps beside_ledger w w' ∧ ∀ l', a = Ok l' → holds (eq state) w' l').
Proof.
  intros Hh Hs. unfold transition. apply (moved_spec P (eq state)); [done|]. intros r Hen _.
  unfold transitioned. by destruct (deletes_staged_credential state).
Qed.
Lemma keeps_beside_config w w' config :
  keeps beside_ledger w w' → config_is (w_trace w) config → config_is (w_trace w') config.
Proof. intros K. eapply keeps_config; [exact K|]. intros E. by apply ledger_not_config. Qed.
(** The end: the committed configuration is acknowledged. *)
Lemma acknowledge_and_collect_spec config l w :
  holds (λ s, s = ConfigCommitted ∨ s = Acknowledged) w l →
  config_is (w_trace w) (Some config) → cfg_credential config = absolute file →
  WP (acknowledge_and_collect HttpPairingTransport config_path enrollment config digest l) w (λ _ _, True).
Proof.
  intros Hh Hcfg Hcred. unfold acknowledge_and_collect, HttpPairingTransport. cbn [transport_acknowledge]. wstep.
  eapply runs_mono; [apply acknowledge_spec|].
  { intros w1 Q Hnode. destruct (quiet_holding _ _ _ _ Q Hh) as (Hl & _ & Hs & r & Hr & HP & Hd & E1 & E2 & E3).
    exists l, r, config. cbn. split_and!; try done; [exact (quiet_config w w1 (Some config) Q Hcfg)|by rewrite Hcred|].
    unfold cfg_credential_file. by rewrite Hcred. }
  intros [[]|e] w1 _ (Q & Hok & Herr).
  - specialize (Hok eq_refl). destruct (quiet_holding _ _ _ _ Q Hh) as (Hl & Hc & Hs & r & Hr & HP & Hd & E1 & E2 & E3).
    wstep. unfold acknowledge_and_supersede. wstep. wstep. rewrite Hr. cbn [ok_or].
    set (l' := with_records l _).
    assert (covers w1 l') as Hc'.
    { apply covers_follows; [|done]. intros id' d Ho. apply Hok in Ho as Ho'. unfold only in Ho'.
      rewrite list_elem_of_filter in Ho'. destruct Ho' as [Hid' _]. cbn in Hid'. subst id'.
      apply Forall2_fmap_r, Forall_Forall2_diag, Forall_forall. intros r' _. unfold acknowledged_or_superseded.
      unfold compose. case_bool_decide as E; [by split|]. destruct (same_binding _ _ r'); (split; [done|]; intros E'; congruence). }
    eapply runs_mono; [apply (persisted_stored (Some config)); done|]. intros [l2|e] w2 _ [K2 Hl2]; [|done].
    destruct (Hl2 l2 eq_refl) as [Hl3 Hc3]. wstep. eapply runs_mono; [apply (gc_spec (Some config)); [done|done|]|].
    + eapply keeps_config; [exact K2|apply aside_config|by eapply quiet_config].
    + intros [l4|e] w3 _ _; [|done]. by wstep.
  - wstep. fold (terminal e). destruct (terminal e) eqn:Ht; [|by wstep; wstep].
    wstep. unfold mark_terminal_ack.
    eapply runs_mono; [apply (moved_spec (λ s, s = ConfigCommitted ∨ s = Acknowledged) (λ _, True)); [by eapply quiet_holding|]|].
    + intros r Hen _. split_and!; [done|done|done|]. right. intros d Ho. apply (Herr e eq_refl Ht) in Ho.
      unfold without in Ho. by rewrite list_elem_of_filter in Ho; destruct Ho as [[] _].
    + intros [l2|e'] w2 _ _; [|done]. by wstep; wstep.
Qed.
Lemma resume_spec config l w :
  holds (λ s, s = ConfigCommitted ∨ s = Acknowledged) w l →
  config_is (w_trace w) (Some config) → cfg_credential config = absolute file →
  WP (resume_committed HttpPairingTransport config_path enrollment config digest l) w (λ _ _, True).
Proof.
  intros Hh Hcfg Hcred. unfold resume_committed. wstep. wstep; [done|]. wstep.
  eapply wp_hushed; [apply hushed_secret|]. intros [v|e] w1 Q; [|done]. wstep. wstep; [done|].
  apply acknowledge_and_collect_spec; [by eapply quiet_holding|by eapply quiet_config|done].
Qed.
Lemma anchored_paired layout paired :
  anchored_config (config_directory config_path) (paired_config layout enrollment paired) = paired_config layout enrollment paired.
Proof. done. Qed.
Lemma config_persist_spec layout paired l r replace w :
  lay_credential_file layout = file → ledger_is (w_trace w) l → r ∈ ldg_records l → rec_state r = PairAccepted →
  enrolled enrollment r → rec_credential_sha256 r = digest → secret_at (w_trace w) file digest →
  prs_controller_id paired = eb_controller_id enrollment → prs_node_id paired = eb_intended_node_id enrollment →
  WP (config_persist (paired_config layout enrollment paired) config_path replace) w (λ a w',
    keeps (λ p, p ≠ config_path) w w' ∧ (a = Ok tt → config_is (w_trace w') (Some (paired_config layout enrollment paired)))).
Proof.
  intros Hfile Hl Hr Hst (E1 & E2 & E3 & E4) Hd Hs Hctrl Hnode. unfold config_persist.
  eapply (wp_quiet_try (λ p, p ≠ config_path) _ _ w); [apply hushed_reject|apply keeps_refl|by split|intros _ w1 K1 Q1].
  wstep. wstep. destruct (WorkerConfig_validate _) as [[]|e]; [|by split]. wstep. wstep.
  destruct (config_json _) as [data|e] eqn:Hj; cbn [map_err context]; [|by split]. cbv zeta.
  set (o := if replace then _ else _).
  assert (o = Op.WriteProtected config_path (data ++ [10%N]) ∨ o = Op.ReplaceProtected config_path (data ++ [10%N])) as Ho
    by (destruct replace; auto).
  assert (stores_safely config_path (data ++ [10%N]) (w_trace w1)) as Hsafe.
  { unfold stores_safely. rewrite decide_False by (intros E; by apply ledger_not_config). rewrite decide_True by done.
    exists (paired_config layout enrollment paired), l, r. cbn. rewrite Hfile.
    split_and!; [by apply config_json_parses|by eapply keeps_ledger|done|done|done|congruence|congruence|].
    unfold cfg_credential_file. cbn. rewrite Hd. eapply keeps_secret; [exact Q1|apply file_tracked|done|done]. }
  apply wp_call_any; [done|by destruct Ho as [-> | ->]| |].
  - intros [] _. split; [eapply keeps_trans; [exact K1|by eapply keeps_write]|]. intros _.
    exists (data ++ [10%N]), (paired_config layout enrollment paired).
    split_and!; [by apply written_whole|by apply config_json_parses|done].
  - intros e. split; [|done]. eapply keeps_trans; [exact K1|by eapply keeps_write].
Qed.
Lemma same_files_holding P w1 w' l :
  (∀ p, may_hold p (w_trace w') = may_hold p (w_trace w1)) → covers w' l → holds P w1 l → holds P w' l.
Proof.
  intros Hm Hc ((data & Hd & Hl) & _ & (s & v & Hs & Hv) & Hr). split_and!; [|done| |done].
  - exists data. by rewrite Hm.
  - exists s, v. by rewrite Hm.
Qed.
Lemma asked_holding request r l w w' :
  pr_pairing_id request = id → pr_credential_sha256 request = digest →
  holds (eq PairRequestUnknown) w l → asked request w r w' → holds (eq PairRequestUnknown) w' l.
Proof.
  intros Hid Hdig Hh ((w1 & Q & Hm) & Ho & _). rewrite Hid, Hdig in Ho.
  apply (same_files_holding _ w1); [done| |by eapply quiet_holding].
  intros id' d Hin. apply Ho in Hin. destruct Hh as (_ & Hc & _ & r0 & Hr0 & HP & Hd0 & _).
  apply elem_of_cons in Hin as [[= -> ->]|Hin]; [|by apply Hc]. exists r0. by rewrite <- HP.
Qed.
Lemma asks_spec request l w :
  pr_pairing_id request = id → pr_credential_sha256 request = digest →
  pr_intended_node_id request = eb_intended_node_id enrollment →
  holds (eq PairRequestUnknown) w l → asks_safely enrollment request (w_trace w).
Proof.
  intros Hid Hdig Hnode (Hl & Hc & Hs & r & Hr & HP & Hd & E1 & E2 & E3). unfold asks_safely. rewrite Hid, Hdig, Hnode. split.
  - exists l, r. rewrite E3. by split_and!.
  - intros d Hin. destruct (Hc _ _ Hin) as (r' & Hr' & Hd' & _). congruence.
Qed.
Lemma request_and_commit_spec layout l w (P : PairingCredentialState.t → Prop) :
  lay_config_path layout = config_path → lay_credential_file layout = file → holds P w l →
  WP (request_and_commit HttpPairingTransport layout enrollment digest l) w (λ _ _, True).
Proof.
  intros Hcp Hfile Hh. unfold request_and_commit. rewrite Hcp. cbv zeta. wstep.
  eapply wp_hushed; [by apply hushed_call|]. intros probe w1 Q1. set (request := {| pr_pairing_id := _ |}).
  wstep. eapply runs_mono; [apply (ledger_transition_spec P); [by eapply quiet_holding|by left]|].
  intros [l2|e] w2 _ [K2 Hl2]; [|done]. specialize (Hl2 l2 eq_refl). wstep. cbn [transport_pair HttpPairingTransport].
  eapply runs_mono; [apply pair_spec|].
  { intros w3 Q3. apply (asks_spec request l2); [done..|by eapply quiet_holding]. }
  intros r w4 _ [Hasked Hids]. pose proof (asked_holding request r l2 w2 w4 eq_refl eq_refl Hl2 Hasked) as Hh4.
  destruct r as [paired|e].
  - destruct (Hids paired eq_refl) as [Hctrl Hnode]. wstep.
    eapply runs_mono; [apply (ledger_transition_spec (eq PairRequestUnknown)); [done|by left]|].
    intros [l5|e] w5 _ [K5 Hl5]; [|done]. specialize (Hl5 l5 eq_refl).
    wstep. eapply wp_hushed; [by apply hushed_call|]. intros [[]|e] w6 Q6; [|done].
    wstep. eapply wp_hushed; [by apply hushed_call|]. intros [[]|e] w7 Q7; [|done].
    assert (holds (eq PairAccepted) w7 l5) as Hh7 by (eapply quiet_holding; [exact Q7|by eapply quiet_holding]).
    destruct Hh7 as (Hl7 & Hc7 & Hs7 & r & Hr & HP & Hd & E1 & E2 & E3). destruct (record_id _ _ _ Hr) as [Hid Hin].
    wstep. eapply runs_mono; [apply (config_persist_spec layout paired l5 r); try done; by split_and!|].
    intros [[]|e] w8 _ [K8 Hcfg]; [|done]. specialize (Hcfg eq_refl).
    assert (holds (eq PairAccepted) w8 l5) as Hh8.
    { split_and!; [|by eapply keeps_covers| |exists r; by split_and!].
      - eapply keeps_ledger; [exact K8|apply ledger_not_config|done].
      - eapply keeps_secret; [exact K8|apply file_tracked|apply staged_not_config|done]. }
    wstep. eapply runs_mono; [apply (ledger_transition_spec (eq PairAccepted)); [done|by left]|].
    intros [l9|e] w9 _ [K9 Hl9]; [|done]. specialize (Hl9 l9 eq_refl).
    apply acknowledge_and_collect_spec; [|by eapply keeps_beside_config|cbn; by rewrite Hfile].
    destruct Hl9 as (? & ? & ? & r9 & ? & HP9 & ?). split_and!; try done. exists r9. rewrite <- HP9. auto.
  - wstep. destruct Hasked as (_ & _ & Hterm). specialize (Hterm e eq_refl). unfold terminal in Hterm.
    destruct (pairing_terminal_code e) as [code|]; [|by wstep; wstep].
    wstep. eapply runs_mono; [apply (ledger_transition_spec (eq PairRequestUnknown)); [done|]|].
    + right. intros d Ho. apply (Hterm eq_refl) in Ho. unfold without in Ho. by rewrite list_elem_of_filter in Ho; destruct Ho as [[] _].
    + intros [l5|e'] w5 _ _; [|done]. by wstep; wstep.
Qed.
End transaction.
Lemma pair_worker_spec enrollment_file options w :
  bound (w_trace w) → WP (pair_worker enrollment_file (absolute config_path) options) w (λ _ _, True).
Proof.
  intros Hb. unfold pair_worker, pair_with_transport. wstep. eapply runs_mono; [apply clean_spec|].
  intros [p|e] w1 _ [K1 Hp]; [|done]. rewrite (Hp p eq_refl).
  eapply (wp_quiet_try (λ _, True) _ _ w); [apply hushed_reject|exact K1|done|intros _ w2 K2 _].
  eapply (wp_quiet_try (λ _, True) _ _ w); [apply hushed_transaction_lock|exact K2|done|intros _ w3 K3 _].
  eapply (wp_quiet_try (λ _, True) _ _ w); [apply hushed_enrollment|exact K3|done|intros enrollment w4 K4 _].
  wstep. eapply runs_mono; [apply layout_spec|]. intros [layout|e] w5 _ [K5 Hlay]; [|done].
  specialize (Hlay layout eq_refl). destruct Hlay as (Hcp & Hfile & Hcfg & Hcom & Hsec). rewrite Hcp.
  wstep. eapply runs_mono; [apply ledger_load_spec|]. intros [l|e] w6 _ [K6 Hl]; [|done]. specialize (Hl l eq_refl).
  assert (quiet w w6) as Q by (eapply quiet_trans; [exact K4|by eapply quiet_trans]).
  assert (covers w6 l) as Hc.
  { apply empty_covers; [|done]. apply (bound_mono (w_trace w)); [done|apply Q|apply Q; [apply tracked_ledger|done]]. }
  wstep. eapply runs_mono; [apply (prepare_spec enrollment (lay_existing_config layout)); done|].
  intros [l7|e] w7 _ [K7 Hl7]; [|done]. destruct (Hl7 l7 eq_refl) as [Hi7 Hc7].
  assert (config_is (w_trace w7) (lay_existing_config layout)) as Hcfg7.
  { eapply keeps_config; [exact K7|apply aside_config|exact (quiet_config _ _ _ K6 Hcfg)]. }
  wstep. eapply runs_mono; [apply (gc_spec (lay_existing_config layout)); done|].
  intros [l8|e] w8 _ [K8 Hl8]; [|done]. destruct (Hl8 l8 eq_refl) as [Hi8 Hc8].
  assert (keeps (aside (lay_existing_config layout)) w5 w8) as K58.
  { eapply keeps_trans; [apply quiet_keeps, K6|exact (keeps_trans _ _ _ _ K7 K8)]. }
  assert (config_is (w_trace w8) (lay_existing_config layout)) as Hcfg8 by (eapply keeps_config; [exact K58|apply aside_config|done]).
  wstep. eapply runs_mono; [apply stage_spec; [|done|done]|].
  { split_and!; try done. intros c Hc' Hne Ht. destruct (Hsec c Hc' Hne Ht) as [d Hd]. exists d.
    eapply keeps_secret; [exact K58|done| |done]. split; [|exact Hne]. right. right. by exists c. }
  intros [[v l9]|e] w9 _ [K9 Hh]; [|done]. specialize (Hh v l9 eq_refl). cbv zeta.
  destruct (lay_committed_config layout) as [config|] eqn:Hcommitted.
  - unfold committed in Hcom. destruct (lay_existing_config layout) as [c|]; [|done].
    case_bool_decide as Hcred; [|done]. injection Hcom as ->. rewrite Hfile in Hcred.
    apply resume_spec; [|by eapply keeps_config|done].
    destruct Hh as (? & ? & ? & r & ? & [_ HP] & ?). rewrite Hcommitted in HP. split_and!; try done. exists r. auto.
  - by eapply request_and_commit_spec.
Qed.
End safety.

Section theorems.
Context `{WireCrates, DigestCrate, UuidCrate, SourceCrates, NodeWireCrates}.
Context `{IdentityCratesLaws, LedgerCratesLaws}.
(** A configuration file: it has a directory and a name, and is not called a credential. *)
Definition config_file (config_path parent : Path) (name : rstr) : Prop :=
  path_parent config_path = Some parent ∧ path_file_name config_path = Some name ∧
  path_extension config_path ≠ Some (lit "credential").
Lemma pairing_history_lawful config_path parent name h :
  config_file config_path parent name → pairing_history config_path parent h →
  lawful (pairing_discipline config_path parent) h.
Proof.
  intros (Hp & Hn & He). induction 1 as [|h env sink file options h' _ IH Henv _ Hsuffix]; [exact I|].
  eapply lawful_suffix; [exact Hsuffix|].
  destruct (pair_worker_spec config_path parent name Hp Hn He env Henv file options {| w_sink := sink; w_trace := h |}
    (lawful_bound config_path parent name Hp Hn _ IH) I) as [Hr _].
  by apply (runs_lawful _ _ _ Hr).
Qed.

(** C23. Pairing writes ahead, however often it is started and wherever it is stopped.  When a
    pairing request is sent, the stored ledger has a record for it in the state of an
    uncertain request, with the request's digest and the enrollment's binding, and the
    credential file holds a secret with that digest; and every earlier request for the same
    pairing had the same digest, unless the controller refused the pairing for good or
    acknowledged another one since.  When a pairing is acknowledged, the stored
    configuration names the credential that the ledger binds to it. *)
Theorem pairing_writes_ahead config_path parent name h
    (Hfile : config_file config_path parent name) (Hhistory : pairing_history config_path parent h) :
  (∀ h1 h2 b request answer, h = h1 ++ existT _ (Op.Send (HttpRequest.Pair b request), answer) :: h2 →
     asks_safely config_path b request h2) ∧
  ∀ h1 h2 request answer, h = h1 ++ existT _ (Op.Send (HttpRequest.PairAck request), answer) :: h2 →
    acknowledges_safely config_path request h2.
Proof.
  pose proof (pairing_history_lawful _ _ _ _ Hfile Hhistory) as Hl.
  split; [intros h1 h2 b request answer E|intros h1 h2 request answer E]; exact (lawful_at _ _ _ _ _ Hl E).
Qed.

(** C24. No credential is lost or left over, however often pairing is started and wherever it
    is stopped.  Besides its lock, pairing writes only ledgers that keep what open requests
    were sent with, configurations that name an accepted credential which is stored, and
    credentials that the stored ledger already owns; and it removes only files that a record
    of the stored ledger gives up with the digest of the secret in them, beside the
    configuration and not the one that the stored configuration names. *)
Theorem credentials_owned config_path parent name h
    (Hfile : config_file config_path parent name) (Hhistory : pairing_history config_path parent h) :
  (∀ h1 h2 p data answer,
     h = h1 ++ existT _ (Op.WriteProtected p data, answer) :: h2 ∨
     h = h1 ++ existT _ (Op.ReplaceProtected p data, answer) :: h2 →
     stores_safely config_path p data h2) ∧
  ∀ h1 h2 p answer, h = h1 ++ existT _ (Op.RemoveProtected p, answer) :: h2 →
    removes_safely config_path parent p h2.
Proof.
  pose proof (pairing_history_lawful _ _ _ _ Hfile Hhistory) as Hl. split.
  - intros h1 h2 p data answer [E|E]; exact (lawful_at _ _ _ _ _ Hl E).
  - intros h1 h2 p answer E. exact (lawful_at _ _ _ _ _ Hl E).
Qed.
End theorems.
