(* ===== verification/WorkerLimits.v ===== *)
(** The limits of a managed process: its log budget, and the time its monitor takes.

    The two readers of a child share one byte budget; the monitor's loops sleep between
    their turns, so that their deadlines bound the number of turns. *)
From Stdlib Require Import ZArith NArith Lia String.
From stdpp Require Import base option list numbers sets gmap relations.
From S2P Require Import Prelude Text Crates Protocol PortablePath RunState JobSpec CanonicalJson WorkerReports WorkerRun Cleanup WorkerEnv WorkerClient WorkerProcess WorkerLogic.
Open Scope rust_scope.

(** ** The log budget *)

(** What a stream produced, what was kept of it, and its chunks. *)
Definition produced (reads : list (ProcessStream.t * list N)) (s : ProcessStream.t) : list N :=
  concat (map snd (List.filter (λ r, r.1 == s) reads)).
Definition chunks_of (sent : list OutputChunk) (s : ProcessStream.t) : list (list N) :=
  map oc_bytes (List.filter (λ c, oc_stream c == s) sent).
Definition kept (d : Drain) (s : ProcessStream.t) : list N := re_hasher (reader_of d s).

Record drained (max_bytes : N) (reads : list (ProcessStream.t * list N)) (d : Drain) : Prop := {
  dn_budget : (lb_remaining (dr_budget d) + byte_count (kept d ProcessStream.Stdout)
               + byte_count (kept d ProcessStream.Stderr) = max_bytes)%N;
  dn_prefix s : kept d s `prefix_of` produced reads s;
  dn_full s : kept d s = produced reads s ∨ lb_remaining (dr_budget d) = 0%N;
  dn_chunks s : concat (chunks_of (dr_sent d) s) = kept d s;
  dn_stored s : re_stored (reader_of d s) = byte_count (kept d s);
  dn_count s : re_chunks (reader_of d s) = N.of_nat (length (chunks_of (dr_sent d) s));
  dn_nonempty : Forall (λ c, oc_bytes c ≠ []) (dr_sent d);
  dn_truncated s : re_truncated (reader_of d s) = (kept d s != produced reads s);
  dn_flag s : truncated (dr_budget d) s = re_truncated (reader_of d s)
}.

Lemma produced_snoc reads stream data s :
  produced (reads ++ [(stream, data)]) s = produced reads s ++ (if stream == s then data else []).
Proof.
  unfold produced. rewrite List.filter_app, map_app, concat_app. cbn. case_bool_decide; cbn; by rewrite ?app_nil_r.
Qed.
Lemma chunks_of_snoc sent c s :
  chunks_of (sent ++ [c]) s = chunks_of sent s ++ (if oc_stream c == s then [oc_bytes c] else []).
Proof. unfold chunks_of. rewrite List.filter_app, map_app. cbn. by case_bool_decide. Qed.
Lemma drained_start max_bytes :
  drained max_bytes [] {| dr_budget := LogBudget_new max_bytes; dr_stdout := Reader_new; dr_stderr := Reader_new;
                          dr_sent := [] |}.
Proof.
  split; try (intros []; solve [done|by left]); [|done]. unfold kept, byte_count. cbn. lia.
Qed.

(** What one read does, for every stream. *)
Record stepped (d : Drain) (stream : ProcessStream.t) (data : list N) (n : N) (d' : Drain) : Prop := {
  sp_remaining : lb_remaining (dr_budget d') = (lb_remaining (dr_budget d) - n)%N;
  sp_kept s : kept d' s = kept d s ++ (if stream == s then take (N.to_nat n) data else []);
  sp_stored s : re_stored (reader_of d' s) = (re_stored (reader_of d s) + if stream == s then n else 0)%N;
  sp_sent : dr_sent d' = dr_sent d ++
    (if (0 <? n)%N then [{| oc_stream := stream; oc_bytes := take (N.to_nat n) data |}] else []);
  sp_count s : re_chunks (reader_of d' s) =
    (re_chunks (reader_of d s) + if (stream == s) && (0 <? n)%N then 1 else 0)%N;
  sp_truncated s : re_truncated (reader_of d' s) =
    re_truncated (reader_of d s) || ((stream == s) && (n != byte_count data));
  sp_flag s : truncated (dr_budget d') s =
    truncated (dr_budget d) s || ((stream == s) && (n != byte_count data))
}.
Lemma drain_stepped d stream data :
  stepped d stream data (N.min (lb_remaining (dr_budget d)) (byte_count data)) (drain_step d (stream, data)).
Proof.
  unfold drain_step, read_once, retain, byte_count. cbv zeta. generalize (N.min (lb_remaining (dr_budget d))
    (N.of_nat (length data))) as n. intros n. destruct d as [b o e sent]. cbn [dr_budget].
  destruct (N.ltb_spec 0 n) as [Hn|Hn]; [|assert (n = 0%N) as -> by lia];
    (destruct (negb _) eqn:Hf); destruct stream; split; cbn; rewrite ?Hf, ?(proj2 (N.ltb_lt 0 n) Hn);
    try (intros []; cbn); rewrite ?Hf, ?app_nil_r, ?N.add_0_r, ?orb_false_r, ?orb_true_r; try done.
  all: unfold byte_count; rewrite Hf; cbn; by rewrite ?orb_false_r, ?orb_true_r.
Qed.
Lemma drained_step max_bytes reads d stream data :
  drained max_bytes reads d → drained max_bytes (reads ++ [(stream, data)]) (drain_step d (stream, data)).
Proof.
  intros D. pose proof (drain_stepped d stream data) as S. set (n := N.min _ _) in S.
  pose proof (dn_budget _ _ _ D) as Hb.
  assert (byte_count (take (N.to_nat n) data) = n) as Hn.
  { unfold byte_count, n. rewrite length_take. unfold byte_count. lia. }
  assert (n = byte_count data ∧ take (N.to_nat n) data = data ∨
          (n < byte_count data)%N ∧ n = lb_remaining (dr_budget d)) as Hcase.
  { destruct (N.le_gt_cases (byte_count data) (lb_remaining (dr_budget d))); [left|right]; unfold n; [|lia].
    split; [lia|]. rewrite N.min_r by lia. unfold byte_count. rewrite Nat2N.id. by apply firstn_all. }
  split.
  - rewrite (sp_remaining _ _ _ _ _ S), !(sp_kept _ _ _ _ _ S). unfold byte_count in *. rewrite !length_app.
    destruct stream; cbn [bool_decide decide]; repeat case_bool_decide; try done; cbn [length]; lia.
  - intros s. rewrite (sp_kept _ _ _ _ _ S), produced_snoc. case_bool_decide; [|rewrite !app_nil_r; apply (dn_prefix _ _ _ D)].
    destruct (dn_full _ _ _ D s) as [->|Hz]; [by apply prefix_app, prefix_take|].
    replace n with 0%N by (unfold n; lia). rewrite app_nil_r. apply prefix_app_r, (dn_prefix _ _ _ D).
  - intros s. rewrite (sp_kept _ _ _ _ _ S), (sp_remaining _ _ _ _ _ S), produced_snoc.
    destruct (dn_full _ _ _ D s) as [->|Hz]; [|right; lia].
    case_bool_decide; [|by left]. destruct Hcase as [[_ ->]|[_ Hr]]; [by left|right; lia].
  - intros s. rewrite (sp_sent _ _ _ _ _ S), (sp_kept _ _ _ _ _ S), <-(dn_chunks _ _ _ D).
    destruct (N.ltb_spec 0 n); [rewrite chunks_of_snoc, concat_app; cbn; by case_bool_decide; cbn; rewrite ?app_nil_r|].
    replace n with 0%N by lia. rewrite app_nil_r. case_bool_decide; by rewrite ?app_nil_r.
  - intros s. rewrite (sp_stored _ _ _ _ _ S), (sp_kept _ _ _ _ _ S), (dn_stored _ _ _ D). unfold byte_count in *.
    rewrite length_app, Nat2N.inj_add. case_bool_decide; [by rewrite Hn|done].
  - intros s. rewrite (sp_count _ _ _ _ _ S), (sp_sent _ _ _ _ _ S), (dn_count _ _ _ D).
    destruct (N.ltb_spec 0 n); [|by rewrite andb_false_r, N.add_0_r, app_nil_r].
    rewrite chunks_of_snoc, length_app, andb_true_r. cbn. case_bool_decide; cbn; lia.
  - rewrite (sp_sent _ _ _ _ _ S). apply Forall_app. split; [apply (dn_nonempty _ _ _ D)|].
    destruct (N.ltb_spec 0 n); [|constructor]. apply Forall_singleton. cbn. intros E. rewrite E in Hn. change (0%N = n) in Hn. lia.
  - intros s. rewrite (sp_truncated _ _ _ _ _ S), (sp_kept _ _ _ _ _ S), produced_snoc, (dn_truncated _ _ _ D).
    destruct (decide (stream = s)) as [Hs|Hs];
      [rewrite (bool_decide_eq_true_2 _ Hs)|rewrite (bool_decide_eq_false_2 _ Hs); by rewrite !app_nil_r, orb_false_r].
    cbn [andb]. destruct (decide (kept d s = produced reads s)) as [E|E].
    + rewrite E, (bool_decide_eq_true_2 (produced reads s = _)) by done. cbn [negb orb]. f_equal. apply bool_decide_ext.
      rewrite (inj_iff (app (produced reads s))). split; [|by intros Et; rewrite Et in Hn].
      intros ->. destruct Hcase as [[_ ?]|[? _]]; [done|lia].
    + rewrite (bool_decide_eq_false_2 (kept d s = _)) by done. cbn. symmetry. apply negb_true_iff, bool_decide_eq_false.
      destruct (dn_full _ _ _ D s) as [|Hz]; [done|]. replace n with 0%N by (unfold n; lia). rewrite app_nil_r.
      intros E'. apply E. pose proof (dn_prefix _ _ _ D s) as [rest Hrest]. rewrite Hrest in E' |- *.
      rewrite <-app_assoc in E'. rewrite <-(app_nil_r (kept d s)) in E' at 1. apply (inj (app _)) in E'.
      symmetry in E'. apply app_eq_nil in E' as [-> _]. by rewrite app_nil_r.
  - intros s. by rewrite (sp_flag _ _ _ _ _ S), (sp_truncated _ _ _ _ _ S), (dn_flag _ _ _ D).
Qed.
Lemma drain_drained max_bytes reads : drained max_bytes reads (drain max_bytes reads).
Proof.
  unfold drain. induction reads as [|[stream data] reads IH] using rev_ind; [apply drained_start|].
  rewrite foldl_app. cbn [foldl]. by apply drained_step.
Qed.

(** C25. The log budget is exact: however the reads of the two streams interleave, what is sent
    of a stream is a prefix of what it produced, in non-empty chunks; together the
    streams send all they produced up to the budget and never more; each reader's
    statistics are those of what was sent; and a stream is marked as truncated exactly if
    something of it was dropped. *)
Theorem log_budget_exact (max_bytes : N) (reads : list (ProcessStream.t * list N)) :
  let d := drain max_bytes reads in
  let sent s := concat (chunks_of (dr_sent d) s) in
  (∀ s, sent s `prefix_of` produced reads s ∧ kept d s = sent s ∧
     re_stored (reader_of d s) = byte_count (sent s) ∧
     re_chunks (reader_of d s) = N.of_nat (length (chunks_of (dr_sent d) s)) ∧
     re_truncated (reader_of d s) = (sent s != produced reads s) ∧
     truncated (dr_budget d) s = (sent s != produced reads s)) ∧
  Forall (λ c, oc_bytes c ≠ []) (dr_sent d) ∧
  (byte_count (sent ProcessStream.Stdout) + byte_count (sent ProcessStream.Stderr) =
   N.min max_bytes (byte_count (produced reads ProcessStream.Stdout) + byte_count (produced reads ProcessStream.Stderr)))%N.
Proof.
  cbv zeta. pose proof (drain_drained max_bytes reads) as D. set (d := drain max_bytes reads) in *.
  split_and!; [|apply (dn_nonempty _ _ _ D)|].
  - intros s. rewrite (dn_chunks _ _ _ D), (dn_flag _ _ _ D), (dn_truncated _ _ _ D).
    split_and!; [apply (dn_prefix _ _ _ D)|done|apply (dn_stored _ _ _ D)|apply (dn_count _ _ _ D)|done|done].
  - rewrite !(dn_chunks _ _ _ D). pose proof (dn_budget _ _ _ D) as Hb.
    assert (∀ s, (byte_count (kept d s) ≤ byte_count (produced reads s))%N) as Hle.
    { intros s. pose proof (prefix_length _ _ (dn_prefix _ _ _ D s)). unfold byte_count. lia. }
    pose proof (Hle ProcessStream.Stdout). pose proof (Hle ProcessStream.Stderr).
    destruct (dn_full _ _ _ D ProcessStream.Stdout) as [Ho|Hz], (dn_full _ _ _ D ProcessStream.Stderr) as [He|Hz'];
      rewrite ?Ho, ?He in *; lia.
Qed.

(** ** The time of a monitor *)

(** The earliest time the clock can show next: it never goes back, and a sleep takes at
    least as long as asked. *)
Definition ready_after (e : event) (t : N) : N :=
  let '(existT _ (o, a)) := e in
  match o in Op.t A return A → N with Op.Instant => λ now, now | Op.Sleep n => λ _, (t + n)%N | _ => λ _, t end a.
Fixpoint ready_at (h : list event) : N :=
  match h with [] => 0%N | e :: h => ready_after e (ready_at h) end.
Definition clock_answers {A} (o : Op.t A) (h : list event) : A → Prop :=
  match o in Op.t A return A → Prop with Op.Instant => λ now, (ready_at h ≤ now)%N | _ => λ _, True end.
Definition steady_clock (env : Environment) : Prop := ∀ A (o : Op.t A) h, clock_answers o h (env A o h).
Definition timed : Discipline :=
  {| obligation := λ _ _ _, True; assumption := @clock_answers; invariant := λ _, True;
     invariant_call := λ _ _ _ _ _ _, I |}.

(** The latest answer to the question whether the process tree is empty. *)
Definition observed_of (e : event) : option bool :=
  let '(existT _ (o, a)) := e in
  match o in Op.t A return A → option bool with
  | Op.TreeIsEmpty => λ r, match r with Ok b => Some b | Err _ => Some false end
  | _ => λ _, None
  end a.
Fixpoint seen_empty (h : list event) : bool :=
  match h with [] => false | e :: h => match observed_of e with Some b => b | None => seen_empty h end end.

Lemma runs_ready w w' : runs timed w w' → (ready_at (w_trace w) ≤ ready_at (w_trace w'))%N.
Proof.
  induction 1 as [|w1 w2 w3 Hs _ IH]; [done|]. etrans; [|exact IH]. destruct Hs as [A o a w _ Ha|s w _]; [|done].
  destruct o; cbn in *; lia.
Qed.

Section monitor.
Context (env : Environment) (Henv : steady_clock env).
#[local] Abbreviation WP := (wp timed env).
#[local] Abbreviation ready w := (ready_at (w_trace w)).

Lemma wp_op {A} (o : Op.t A) w (Q : A → World → Prop) :
  (∀ a, clock_answers o (w_trace w) a → Q a (record o a w)) → WP (call o) w Q.
Proof. by apply (wp_call timed env Henv). Qed.
(** A loop has ended, and if it ended in [good] then the tree was last seen empty. *)
Definition ended {A} (good : A → bool) (r : option (result AnyError A)) (w : World) : Prop :=
  match r with
  | None => False
  | Some (Ok a) => good a = true → seen_empty (w_trace w) = true
  | Some (Err _) => True
  end.
Lemma wp_or_return {A B} (good : B → bool) (m : io (result AnyError A)) k w :
  WP m w (λ r w', ∀ a, r = Ok a → WP (k a) w' (ended good)) → WP (or_return m k) w (ended good).
Proof.
  intros Hm. unfold or_return. apply runs_bind. eapply runs_mono; [exact Hm|]. intros [a|e] w' _ Hk; [by apply Hk|].
  by apply runs_ret.
Qed.
Lemma wp_within {A B} (good : A → bool) (good' : B → bool) (m : io (option (result AnyError A))) k w :
  WP m w (ended good) →
  (∀ a w', runs timed w w' → (good a = true → seen_empty (w_trace w') = true) → WP (k a) w' (ended good')) →
  WP (within m k) w (ended good').
Proof.
  intros Hm Hk. unfold within. apply runs_bind. eapply runs_mono; [exact Hm|].
  intros [[a|e]|] w' Hw Ha; [by apply Hk|by apply runs_ret|done].
Qed.
Lemma stays_empty_ends fuel k quiescence w :
  (quiescence ≤ ready w + millis 10 * N.of_nat k)%N → k < fuel →
  WP (stays_empty fuel quiescence) w (ended id).
Proof.
  revert k w. induction fuel as [|fuel IH]; intros k w Hk Hf; [lia|]. cbn [stays_empty].
  apply wp_or_return, wp_op. intros r _ empty ->. destruct empty; cbn [negb]; [|by apply runs_ret].
  apply runs_bind, wp_op. intros now Hnow. cbn in Hnow. destruct (N.leb_spec quiescence now); [by apply runs_ret|].
  destruct k as [|k]; [lia|]. apply runs_bind, wp_op. intros ? _. apply (IH k); [|lia].
  cbn. unfold millis in *. lia.
Qed.
Lemma tree_empty_ends fuel k deadline w :
  (deadline ≤ ready w + millis 50 * N.of_nat k)%N → k + 11 < fuel →
  WP (tree_empty_loop fuel deadline) w (ended id).
Proof.
  revert k w. induction fuel as [|fuel IH]; intros k w Hk Hf; [lia|]. cbn [tree_empty_loop]. cbv zeta.
  assert (∀ w', (ready w ≤ ready w')%N → WP (now ← call Op.Instant;
    if (deadline <=? now)%N then returned (Ok false)
    else call (Op.Sleep (millis 50));; tree_empty_loop fuel deadline) w' (ended id)) as Hretry.
  { intros w' Hw. apply runs_bind, wp_op. intros now Hnow. cbn in Hnow.
    destruct (N.leb_spec deadline now); [by apply runs_ret|]. destruct k as [|k]; [lia|].
    apply runs_bind, wp_op. intros ? _. apply (IH k); [|lia]. cbn. unfold millis in *. lia. }
  apply wp_or_return, wp_op. intros r _ empty ->. destruct empty; [|by apply Hretry].
  apply runs_bind, wp_op. intros now Hnow. cbn in Hnow. eapply wp_within.
  - apply (stays_empty_ends _ 10); [cbn; unfold TREE_EMPTY_QUIESCENCE, millis; lia|lia].
  - intros stayed w' Hw%runs_ready Hs. cbn in Hw. destruct stayed; [by apply runs_ret|]. apply Hretry. lia.
Qed.
Lemma wait_for_tree_empty_ends fuel k timeout w :
  (timeout ≤ millis 50 * N.of_nat k)%N → k + 11 < fuel → WP (wait_for_tree_empty fuel timeout) w (ended id).
Proof.
  intros Hk Hf. unfold wait_for_tree_empty. apply runs_bind, wp_op. intros now _. apply (tree_empty_ends _ k); [|done].
  cbn. lia.
Qed.
(** The fuel that a turn of the monitor needs once the root is gone. *)
Definition turn_fuel : nat := 72.
Lemma cleanup_ends fuel w : turn_fuel ≤ fuel → WP (cleanup_after_root_exit fuel) w (ended (λ _, true)).
Proof.
  unfold turn_fuel. intros Hf. unfold cleanup_after_root_exit.
  eapply wp_within; [apply (wait_for_tree_empty_ends _ 2); [by vm_compute|lia]|].
  intros [|] w1 _ H1; [apply runs_ret; intros _; by apply H1|].
  apply wp_or_return, wp_op. intros r1 _ [] ->.
  eapply wp_within; [apply (wait_for_tree_empty_ends _ 60); [by vm_compute|lia]|].
  intros [|] w2 _ H2; [apply runs_ret; intros _; by apply H2|].
  apply wp_or_return, wp_op. intros r2 _ [] ->.
  eapply wp_within; [apply (wait_for_tree_empty_ends _ 60); [by vm_compute|lia]|].
  intros [|] w3 _ H3; [apply runs_ret; intros _; by apply H3|by apply runs_ret].
Qed.
Lemma reap_ends fuel message k deadline status w :
  (deadline ≤ ready w + millis 50 * N.of_nat k)%N → k < fuel →
  WP (reap_loop fuel message deadline status) w (ended snd).
Proof.
  revert k status w. induction fuel as [|fuel IH]; intros k status w Hk Hf; [lia|]. cbn [reap_loop]. cbv zeta.
  apply wp_or_return. assert (WP (match status with None => call_any message Op.TryWait | Some s => done_ok (Some s) end) w
    (λ _ w', (ready w ≤ ready w')%N)) as Hpoll.
  { destruct status; [by apply wp_done|]. unfold call_any. apply runs_bind, wp_op. intros r _. by apply runs_ret. }
  eapply runs_mono; [exact Hpoll|]. clear Hpoll. cbv beta. intros polled w1 _ Hw1 status' _. apply wp_or_return.
  assert (WP (match status' with Some _ => call Op.TreeIsEmpty | None => done_ok false end) w1
    (λ r w', (ready w1 ≤ ready w')%N ∧ (r = Ok true → seen_empty (w_trace w') = true))) as Hempty.
  { destruct status'; [|by apply wp_done]. apply wp_op. intros [b|?] _; [|done]. split; [done|]. by intros [= ->]. }
  eapply runs_mono; [exact Hempty|]. clear Hempty. intros r w2 _ [Hw2 Hs] empty ->.
  destruct empty; [apply runs_ret; intros _; by apply Hs|].
  apply runs_bind, wp_op. intros now Hnow. cbn in Hnow. destruct (N.leb_spec deadline now); [by apply runs_ret|].
  destruct k as [|k]; [lia|]. apply runs_bind, wp_op. intros ? _. apply (IH k); [|lia]. cbn. unfold millis in *. lia.
Qed.
Lemma termination_ends fuel w : turn_fuel ≤ fuel → WP (wait_after_termination fuel) w (ended (λ _, true)).
Proof.
  unfold turn_fuel. intros Hf. unfold wait_after_termination. apply runs_bind, wp_op. intros now _.
  eapply wp_within; [apply (reap_ends _ _ 60); [cbn; unfold millis; lia|lia]|]. intros [status gone] w1 _ H1.
  assert (∀ w', WP (or_return (call Op.TreeForceKill) (λ _ : (), now ← call Op.Instant;
    within (reap_loop fuel (lit "wait after forced tree termination") (now + millis 3000) status)
      (λ '(status, gone), match status, gone with
         | Some status, true => returned (Ok (status, true)) | _, _ => returned (Err still_alive) end))) w'
    (ended (λ _, true))) as Hforce.
  { intros w'. apply wp_or_return, wp_op. intros r _ [] ->. apply runs_bind, wp_op. intros now' _.
    eapply wp_within; [apply (reap_ends _ _ 60); [cbn; unfold millis; lia|lia]|]. intros [[st|] [|]] w2 _ H2;
      by apply runs_ret. }
  destruct status as [st|]; [destruct gone|]; [|apply Hforce..]. apply runs_ret. intros _. by apply H1.
Qed.
Lemma monitor_loop_ends fuel k deadline w :
  (deadline ≤ ready w + millis 20 * N.of_nat k)%N → k + turn_fuel < fuel →
  WP (monitor_loop fuel deadline) w (ended (λ _, true)).
Proof.
  revert k w. induction fuel as [|fuel IH]; intros k w Hk Hf; [lia|]. cbn [monitor_loop].
  apply wp_or_return, wp_op. intros r _ [] ->. apply wp_or_return. unfold call_any. apply runs_bind, wp_op.
  intros polled _. apply runs_ret. intros status _. destruct status as [status|].
  { eapply wp_within; [apply cleanup_ends; lia|]. intros forced w1 _ H1. apply runs_ret. intros _. by apply H1. }
  apply runs_bind, wp_op. intros signal _.
  apply runs_bind. apply (runs_mono _ _ _ _ (λ expired w', (ready w ≤ ready w')%N ∧
    (stop_reason signal expired = None → (ready w' < deadline)%N))).
  { destruct (signalled signal) eqn:Hs; [apply runs_ret; split; [done|]|].
    - unfold signalled in Hs. intros E. by rewrite E in Hs.
    - apply runs_bind, wp_op. intros now Hnow. apply runs_ret. cbn in *. split; [done|].
      destruct (N.leb_spec deadline now); [|done]. unfold stop_reason. by repeat case_bool_decide. }
  intros expired w1 _ [Hw1 Hlate]. destruct (stop_reason signal expired) as [reason|].
  { apply wp_or_return, wp_op. intros r1 _ [] ->. eapply wp_within; [apply termination_ends; lia|].
    intros [st forced] w2 _ H2. apply runs_ret. intros _. by apply H2. }
  specialize (Hlate eq_refl). destruct k as [|k]; [lia|]. apply runs_bind, wp_op. intros ? _. apply (IH k); [|lia].
  cbn. unfold millis in *. lia.
Qed.
Lemma monitor_child_ends fuel k timeout w :
  (timeout ≤ millis 20 * N.of_nat k)%N → k + turn_fuel < fuel → WP (monitor_child fuel timeout) w (ended (λ _, true)).
Proof.
  intros Hk Hf. unfold monitor_child. apply runs_bind, wp_op. intros now _. apply (monitor_loop_ends _ k); [|done]. cbn. lia.
Qed.
End monitor.

(** C26. The monitor of a child ends: when the clock is steady, one turn for every twenty
    milliseconds of the timeout and the turns of one cleanup are enough, whatever the
    child, the tree and the cancellation do; and it never reports a result unless the
    process tree was empty when it last looked. *)
Theorem monitor_child_terminates (env : Environment) (fuel k : nat) (timeout : N) (w : World)
    (Henv : steady_clock env) (Hk : (timeout ≤ millis 20 * N.of_nat k)%N) (Hfuel : k + turn_fuel < fuel) :
  match monitor_child fuel timeout env w with
  | (None, _) => False
  | (Some (Ok _), w') => seen_empty (w_trace w') = true
  | (Some (Err _), _) => True
  end.
Proof.
  destruct (monitor_child_ends env Henv fuel k timeout w Hk Hfuel I) as [_ He].
  destruct (monitor_child fuel timeout env w) as [[[m|e]|] w']; cbn in *; [by apply He|done..].
Qed.
