(* ===== verification/WorkerEvidence.v ===== *)
(** When a worker's completion is acceptable: to its own validator
    ([RunCompletion_validate]) and to the controller's checks of the source and of the
    steps ([CompletionEvidence]).

    [ready] lists what the worker's code establishes about a completion; it implies
    acceptance and survives the changes that [submit_completion] makes. *)
From Stdlib Require Import ZArith NArith Lia String.
From stdpp Require Import base option list numbers sets gmap.
From S2P Require Import Prelude Text Crates Protocol PortablePath Repository Snapshot RunState JobSpec CanonicalJson WorkerReports WorkerRun Cleanup ControllerDb CompletionEvidence WorkerEnv WorkerClient WorkerProcess WorkerSource WorkerExecutor WorkerRuntime.
Open Scope rust_scope.

Definition good_signal (s : option Z) : Prop := ∀ z, s = Some z → (0 < z)%Z.
(** No step name carries a control character. *)
Definition plainly_named (job : JobSpec) : Prop :=
  Forall (λ s, has_control (step_name s) = false) (job_steps job).

(** ** Steps in order

    [timeline shell index from steps evs upto]: the entries [evs] are those of the first
    steps, numbered from [index], one after the other between [from] and [upto]. *)
Fixpoint timeline (shell : Shell.t) (index : N) (from : DateTime) (steps : list JobStep)
    (evs : list StepExecutionEvidence) (upto : DateTime) : Prop :=
  match evs with
  | [] => (from ≤ upto)%Z
  | ev :: evs =>
      match steps with
      | [] => False
      | step :: steps =>
          se_index ev = index ∧ se_name ev = step_name step ∧
          se_shell ev = unwrap_or (step_shell step) shell ∧
          (from ≤ se_started_at ev)%Z ∧ (se_started_at ev ≤ se_finished_at ev)%Z ∧
          timeline shell (index + 1) (se_finished_at ev) steps evs upto
      end
  end.

Lemma timeline_nil shell index from steps : timeline shell index from steps [] from.
Proof. by destruct steps; cbn. Qed.
Lemma timeline_later shell index from steps evs upto upto' :
  timeline shell index from steps evs upto → (upto ≤ upto')%Z → timeline shell index from steps evs upto'.
Proof.
  revert index from steps. induction evs as [|ev evs IH]; intros index from [|step steps]; cbn;
    [lia|lia|done|]. intros (? & ? & ? & ? & ? & ?) Hle. split_and!; eauto.
Qed.
Lemma timeline_snoc shell index from passed step rest evs upto ev upto' :
  timeline shell index from (passed ++ step :: rest) evs upto → length evs = length passed →
  se_index ev = (index + N.of_nat (length passed))%N → se_name ev = step_name step →
  se_shell ev = unwrap_or (step_shell step) shell → (upto ≤ se_started_at ev)%Z →
  (se_started_at ev ≤ se_finished_at ev)%Z → (se_finished_at ev ≤ upto')%Z →
  timeline shell index from (passed ++ step :: rest) (evs ++ [ev]) upto'.
Proof.
  revert index from passed. induction evs as [|e evs IH]; intros index from [|p passed]; cbn [timeline app];
    [|by intros _ [=]|by intros _ [=]|].
  - cbn [length]. rewrite N.add_0_r. intros Hle _ Hi ? ? ? ? ?. split_and!; try done; [by etrans|]. by destruct rest.
  - intros (? & ? & ? & ? & ? & Ht) Hl Hi ? ? ? ? ?. split_and!; try done.
    eapply IH; [done|by injection Hl| |done..]. rewrite Hi. cbn [length]. lia.
Qed.
Lemma timeline_length shell index from steps evs upto :
  timeline shell index from steps evs upto → (length evs ≤ length steps)%nat.
Proof.
  revert index from steps. induction evs as [|ev evs IH]; intros index from [|step steps]; cbn;
    [lia|lia|done|]. intros (_ & _ & _ & _ & _ & Ht%IH). apply le_n_S, Ht.
Qed.
Lemma timeline_valid shell index from steps evs upto :
  timeline shell index from steps evs upto → Forall valid_step steps →
  Forall (λ s, has_control (step_name s) = false) steps →
  ∀ i ev, evs !! i = Some ev →
    StepExecutionEvidence_validate ev = Ok tt ∧ se_index ev = (index + N.of_nat i)%N.
Proof.
  revert index from steps. induction evs as [|e evs IH]; intros index from [|step steps]; cbn;
    [done|done|done|].
  intros (Hi & Hn & _ & _ & Ht & Hrest) [Hv Hvs]%Forall_cons [Hc Hcs]%Forall_cons [|i] ev; cbn.
  - intros [= <-]. split; [|lia]. unfold StepExecutionEvidence_validate.
    rewrite Hn, Hc, (proj1 Hv). cbn. apply reject_if_Ok. lia.
  - intros Hev. destruct (IH _ _ _ Hrest Hvs Hcs _ _ Hev) as [? ->]. split; [done|lia].
Qed.
Lemma timeline_check shell index from steps evs upto finished :
  timeline shell index from steps evs upto → (upto ≤ finished)%Z →
  ∀ `{SerdeJsonCrate} started previous, (∀ s, started = Some s → (s ≤ from)%Z) →
  (∀ p, previous = Some p → (p ≤ from)%Z) →
  check_steps shell started finished previous (zip evs steps) = Ok tt.
Proof.
  intros Ht Hle S. revert index from steps Ht.
  induction evs as [|ev evs IH]; intros index from [|step steps]; cbn; try done.
  intros (_ & -> & -> & Hf & Hs & Hrest) started previous Hst Hp.
  rewrite !bool_decide_eq_true_2 by done. cbn [negb orb].
  assert (se_finished_at ev ≤ upto)%Z as Hfin.
  { clear -Hrest. revert Hrest. generalize (index + 1)%N as i, (se_finished_at ev) as f.
    revert steps. induction evs as [|e evs IH]; intros [|s steps] i f; cbn; [done|done|done|].
    intros (_ & _ & _ & ? & ? & Ht%IH). lia. }
  replace (finished <? se_finished_at ev)%Z with false by (symmetry; apply Z.ltb_ge; lia).
  rewrite (proj2 (is_some_and_false _ _)); [|intros s ->; apply Z.ltb_ge; specialize (Hst s eq_refl); lia].
  rewrite (proj2 (is_some_and_false _ _)); [|intros p ->; apply Z.ltb_ge; specialize (Hp p eq_refl); lia].
  cbn. eapply IH; [done|intros s Hs'; specialize (Hst s Hs'); lia|intros p [= <-]; done].
Qed.

(** ** Sources *)
Definition git_version_ok (v : rstr) : Prop :=
  starts_with (lit "git version ") v = true ∧ has_control v = false ∧ (len v ≤ 512)%N.
(** The evidence of a prepared source. *)
Definition source_ready (source : SourceSpec.t) (x : ExecutionSourceEvidence) : Prop :=
  match source with
  | SourceSpec.Git repository revision =>
      xs_kind x = lit "git" ∧ xs_repository x = repository ∧ xs_requested_revision x = revision ∧
      xs_resolved_revision x = revision ∧ valid_object_id (xs_tree x) = true ∧
      git_version_ok (xs_git_version x)
  | SourceSpec.Snapshot digest _ =>
      x = {| xs_kind := lit "snapshot"; xs_repository := lit "snapshot"; xs_requested_revision := digest;
             xs_resolved_revision := digest; xs_tree := digest; xs_git_version := lit "not-applicable" |}
  end.

Lemma starts_with_not_blank c p s : starts_with (c :: p) s = true → (33 ≤ c ≤ 126)%N → blank s = false.
Proof.
  rewrite starts_with_true. intros [r ->] Hc. apply (printable_blank c); [by left|done].
Qed.
Lemma valid_object_id_hex s : valid_object_id s = true ↔ hex_string 40 s ∨ hex_string 64 s.
Proof.
  unfold valid_object_id. rewrite <-(lower_hex_of_len_spec 40), <-(lower_hex_of_len_spec 64).
  unfold lower_hex_of_len. rewrite !andb_true_iff, orb_true_iff. tauto.
Qed.
Lemma valid_object_id_not_empty s : valid_object_id s = true → is_empty s = false.
Proof. rewrite valid_object_id_hex. intros [[Hl _]|[Hl _]]; by destruct s. Qed.

Lemma git_repository_plain repository :
  validate_public_https_repository repository = Ok tt → blank repository = false ∧ has_control repository = false.
Proof.
  unfold validate_public_https_repository.
  destruct (_ || has_control repository || _) eqn:E; [done|].
  apply orb_false_iff in E as [[_ E]%orb_false_iff _].
  destruct (strip_prefix (lit "https://") repository) as [r|] eqn:Hp; [|done]. intros _.
  split; [|done]. apply (starts_with_not_blank (chr "h") (lit "ttps://")); [|split; by vm_compute].
  unfold starts_with. by setoid_rewrite Hp.
Qed.
Lemma snapshot_digest_strip digest h :
  digest = lit "sha256:" ++ h → hex_string 64 h →
  is_none_or (strip_prefix (lit "sha256:") digest) (λ d, negb (is_ok (validate_lower_hex d 64))) = false.
Proof.
  intros -> Hh. apply is_none_or_false. exists h. split; [by apply strip_prefix_Some|].
  apply negb_false_iff, is_ok_true. exists tt. apply lower_hex_of_len_spec in Hh.
  unfold validate_lower_hex. by change (N.of_nat 64) with 64%N in Hh; rewrite Hh.
Qed.
Lemma source_plain kind repository version :
  blank kind = false → blank repository = false → blank version = false →
  has_control kind = false → has_control repository = false → has_control version = false →
  (len version ≤ 512)%N →
  blank kind || blank repository || blank version || existsb is_control (kind ++ repository)
    || has_control version || (512 <? len version)%N = false.
Proof.
  intros -> -> -> Hk Hr -> Hl. cbn [orb]. rewrite existsb_app. unfold has_control in *. rewrite !orb_false_iff, N.ltb_ge. done.
Qed.

Lemma source_ready_valid source x :
  pinned_source source → source_ready source x → ExecutionSourceEvidence_validate x = Ok tt.
Proof.
  destruct source as [repository revision|digest size]; cbn [pinned_source source_ready].
  - intros [Hrepo Hrev] (Hk & Hr & Hq & Hres & Htree & Hv & Hc & Hl).
    destruct (git_repository_plain _ Hrepo) as [Hb Hctl]. apply valid_object_id_hex in Hrev.
    unfold ExecutionSourceEvidence_validate.
    rewrite source_plain; [|rewrite ?Hk, ?Hr; try done..].
    2: { by apply (starts_with_not_blank (chr "g") (lit "it version ")); [|split; vm_compute]. }
    rewrite Hk, Hq, Hres, Htree, Hrev. cbn. by rewrite !andb_false_r.
  - intros [(h & Hd & Hh) _] ->. unfold ExecutionSourceEvidence_validate.
    cbn [xs_kind xs_repository xs_requested_revision xs_resolved_revision xs_tree xs_git_version].
    rewrite source_plain by by vm_compute. cbn [reject_if mbind result_bind].
    rewrite bool_decide_eq_false_2 by by vm_compute. rewrite bool_decide_eq_true_2 by done.
    apply reject_if_Ok. rewrite (snapshot_digest_strip digest h Hd Hh).
    rewrite !(bool_decide_eq_true_2 (digest = digest)) by done. cbn [andb orb]. rewrite orb_true_r.
    by vm_compute.
Qed.
Lemma assigned_source_valid assignment :
  pinned_source (job_source (ca_job_spec assignment)) →
  ExecutionSourceEvidence_validate (assigned_source_evidence assignment) = Ok tt.
Proof.
  unfold assigned_source_evidence. destruct (job_source _) as [repository revision|digest size]; cbn [pinned_source].
  - intros [Hrepo Hrev]. destruct (git_repository_plain _ Hrepo) as [Hb Hctl]. apply valid_object_id_hex in Hrev.
    unfold ExecutionSourceEvidence_validate.
    cbn [xs_kind xs_repository xs_requested_revision xs_resolved_revision xs_tree xs_git_version].
    rewrite source_plain by (done || by vm_compute). cbn [reject_if mbind result_bind].
    rewrite bool_decide_eq_true_2 by done. by rewrite Hrev.
  - intros [(h & Hd & Hh) _]. unfold ExecutionSourceEvidence_validate.
    cbn [xs_kind xs_repository xs_requested_revision xs_resolved_revision xs_tree xs_git_version].
    rewrite source_plain by by vm_compute. cbn [reject_if mbind result_bind].
    rewrite bool_decide_eq_false_2 by by vm_compute. rewrite bool_decide_eq_true_2 by done.
    apply reject_if_Ok. rewrite (snapshot_digest_strip digest h Hd Hh). by vm_compute.
Qed.

(** ** Streams *)
Definition sink_wf (s : HttpLogSink) : Prop :=
  ∀ stream, sink_offset s stream = N.of_nat (length (sink_hasher s stream)) ∧
    (sink_chunks s stream ≤ sink_offset s stream)%N ∧ (sink_chunks s stream = 0 → sink_offset s stream = 0)%N.
Definition sink_total (s : HttpLogSink) : N := sk_stdout_offset s + sk_stderr_offset s.
(** The documented SHA-256 of the empty input. *)
Class EmptyDigest `{DigestCrate} : Prop := empty_digest : hex (sha256 []) = empty_sha256.

Lemma stream_evidence_valid `{DigestCrateLaws, !EmptyDigest} s stream truncated :
  sink_wf s →
  StreamEvidence_validate
    {| st_byte_count := sink_offset s stream; st_sha256 := sha256_hex (sink_hasher s stream);
       st_truncated := truncated; st_chunk_count := sink_chunks s stream |} = Ok tt.
Proof.
  intros Hs. destruct (Hs stream) as (Ho & Hle & Hz). unfold StreamEvidence_validate.
  cbn [st_byte_count st_sha256 st_truncated st_chunk_count].
  rewrite !bind_unit_Ok, (validate_lower_hex_Ok _ _ 64), !reject_if_Ok. split_and!.
  - apply hex_digest_is_hex_string.
  - apply negb_false_iff, eqb_true_iff. do 2 case_bool_decide; lia.
  - case_bool_decide as E; [|done]. cbn. rewrite negb_bool_decide_false.
    rewrite E in Ho. assert (sink_hasher s stream = []) as ->; [|apply empty_digest].
    destruct (sink_hasher s stream); [done|cbn in Ho; lia].
Qed.

(** ** Completions *)
Section ready.
Context `{SerdeJsonCrate} (job : JobSpec) (os : OperatingSystem.t).
Context (Hjob : valid_job job) (Hnames : plainly_named job).

Definition clean_step (s : StepExecutionEvidence) : Prop :=
  se_exit_code s = Some 0%Z ∧ se_termination s = TerminationReason.Exited.
(** What is known of the source: it was prepared, or the run ended before. *)
Definition source_known (c : RunCompletion) : Prop :=
  source_ready (job_source job) (xe_source (rc_execution c)) ∨
  (∃ a, ca_job_spec a = job ∧ xe_source (rc_execution c) = assigned_source_evidence a) ∧
  unresolved_reason (te_reason (xe_termination (rc_execution c))) = true ∧
  rc_final_state c ≠ JobState.Succeeded ∧ xe_steps (rc_execution c) = [].

(** A cancelled completion whose reason was read before the cancellation arrived:
    [execute_assignment] loads the cancellation twice when an upload fails. *)
Definition torn (c : RunCompletion) : Prop :=
  rc_final_state c = JobState.Cancelled ∧
  (te_reason (xe_termination (rc_execution c)) = TerminationReason.ArtifactVerificationFailed ∨
   te_reason (xe_termination (rc_execution c)) = TerminationReason.TransportFailure).

Record ready (run lease : Uuid) (c : RunCompletion) : Prop := {
  rd_run : rc_run_id c = run;
  rd_lease : rc_lease_id c = lease;
  rd_terminal : JobState.is_terminal (rc_final_state c) = true;
  rd_evidence : evidence_ok (rc_evidence c) (rc_final_state c);
  rd_finished : ev_finished_at (rc_evidence c) = Some (te_observed_at (xe_termination (rc_execution c)));
  rd_tree : te_process_tree_terminated (xe_termination (rc_execution c)) = true;
  rd_signal : good_signal (te_signal (xe_termination (rc_execution c)));
  rd_exit : te_root_exit_code (xe_termination (rc_execution c)) = ev_exit_code (rc_evidence c);
  rd_source : source_known c;
  rd_steps : ∃ from upto,
    timeline (CompletionEvidence.default_shell os) 0 from (job_steps job) (xe_steps (rc_execution c)) upto ∧
    (upto ≤ te_observed_at (xe_termination (rc_execution c)))%Z ∧
    (∀ s, ev_started_at (rc_evidence c) = Some s → (s ≤ from)%Z);
  rd_streams : RunStreamsEvidence_validate (xe_streams (rc_execution c)) = Ok tt;
  rd_success : rc_final_state c = JobState.Succeeded →
    te_reason (xe_termination (rc_execution c)) = TerminationReason.Exited ∧
    te_root_exit_code (xe_termination (rc_execution c)) = Some 0%Z ∧
    te_forced_kill (xe_termination (rc_execution c)) = false ∧
    Forall clean_step (xe_steps (rc_execution c)) ∧
    length (xe_steps (rc_execution c)) = length (job_steps job);
  rd_cancel : rc_final_state c = JobState.Cancelled →
    te_reason (xe_termination (rc_execution c)) = TerminationReason.CancelRequested ∨
    te_reason (xe_termination (rc_execution c)) = TerminationReason.LeaseLost ∨
    te_reason (xe_termination (rc_execution c)) = TerminationReason.TimedOut ∨ torn c;
  rd_artifacts : Forall (λ a, ArtifactMetadata_validate a = Ok tt ∧ am_run_id a = rc_run_id c) (rc_artifacts c);
  rd_ids : NoDup (map am_id (rc_artifacts c));
  rd_paths : NoDup (map am_relative_path (rc_artifacts c));
  rd_manifest : ev_artifact_ids (rc_evidence c) = map am_id (rc_artifacts c)
}.

(** What the worker and the controller check; only a torn completion, or one of a worker
    whose clock stepped back, may fail the controller's check of the steps. *)
Definition acceptable (run lease : Uuid) (stepped : bool) (c : RunCompletion) : Prop :=
  rc_run_id c = run ∧ rc_lease_id c = lease ∧
  RunCompletion_validate c = Ok tt ∧
  validate_execution_source (job_source job) (rc_final_state c) (rc_execution c) = Ok tt ∧
  (validate_step_evidence job os c = Ok tt ∨ torn c ∨ stepped = true).

Lemma ready_termination run lease c :
  ready run lease c → TerminationEvidence_validate (xe_termination (rc_execution c)) = Ok tt.
Proof.
  intros R. unfold TerminationEvidence_validate. rewrite (rd_tree _ _ _ R), !bind_unit_Ok, !reject_if_Ok.
  cbn [negb]. rewrite !andb_false_r. split_and!; [done| |done].
  apply is_some_and_false. intros z Hz. pose proof (rd_signal _ _ _ R z Hz). lia.
Qed.
Lemma ready_source run lease c :
  ready run lease c → ExecutionSourceEvidence_validate (xe_source (rc_execution c)) = Ok tt.
Proof.
  intros R. destruct (rd_source _ _ _ R) as [Hs|((a & Ha & ->) & _)].
  - eapply source_ready_valid; [apply (vj_source _ Hjob)|done].
  - apply assigned_source_valid. rewrite Ha. apply (vj_source _ Hjob).
Qed.
Lemma ready_execution run lease c : ready run lease c → ExecutionEvidence_validate (rc_execution c) = Ok tt.
Proof.
  intros R. unfold ExecutionEvidence_validate.
  rewrite !bind_unit_Ok, (ready_source _ _ _ R), (rd_streams _ _ _ R), (ready_termination _ _ _ R), for_each_i_Ok.
  split_and!; [done..|]. intros i s Hs. destruct (rd_steps _ _ _ R) as (from & upto & Ht & _).
  destruct (timeline_valid _ _ _ _ _ _ Ht (vj_each_step _ Hjob) Hnames i s Hs) as [Hv Hi].
  rewrite bind_unit_Ok, Hv, reject_if_Ok, negb_bool_decide_false, Hi. split; [done|lia].
Qed.
Lemma ready_valid run lease c : ready run lease c → RunCompletion_validate c = Ok tt.
Proof.
  intros R. unfold RunCompletion_validate. cbv zeta.
  rewrite !bind_unit_Ok, !reject_if_Ok, validate_for_Ok, (ready_execution _ _ _ R), (rd_terminal _ _ _ R),
    (rd_tree _ _ _ R), (rd_exit _ _ _ R), (rd_finished _ _ _ R).
  split_and!; try done.
  - apply (rd_evidence _ _ _ R).
  - by rewrite negb_bool_decide_false.
  - cbn. apply Z.ltb_irrefl.
  - apply andb_false_iff. case_bool_decide as E; [|by left]. right.
    destruct (rd_success _ _ _ R E) as (Hr & Hc & Hf & Hs & _).
    rewrite Hr, Hf, <-(rd_exit _ _ _ R), Hc. rewrite !bool_decide_eq_true_2 by done. cbn.
    apply existsb_false. eapply Forall_impl; [exact Hs|]. intros s [-> ->].
    by rewrite !bool_decide_eq_true_2.
  - apply existsb_false. eapply Forall_impl; [apply (rd_artifacts _ _ _ R)|]. intros a [_ ->].
    by rewrite negb_bool_decide_false.
  - rewrite for_each_Ok. eapply Forall_impl; [apply (rd_artifacts _ _ _ R)|]. by intros a [? _].
  - unfold manifest_mismatch. rewrite (rd_manifest _ _ _ R).
    pose proof (rd_ids _ _ _ R) as Hi. pose proof (rd_paths _ _ _ R) as Hp.
    apply set_of_size in Hi, Hp. rewrite !orb_false_iff, !negb_bool_decide_false, Hi, Hp, !length_map. done.
Qed.
Lemma source_ready_resolved source x :
  pinned_source source → source_ready source x →
  is_empty (xs_resolved_revision x) && is_empty (xs_tree x) = false.
Proof.
  destruct source as [repository revision|digest size]; cbn [pinned_source source_ready].
  - intros _ (_ & _ & _ & _ & Ht & _). by rewrite (valid_object_id_not_empty _ Ht), andb_false_r.
  - intros [(h & -> & _) _] ->. done.
Qed.
Lemma known_controller_source c :
  source_known c → validate_execution_source (job_source job) (rc_final_state c) (rc_execution c) = Ok tt.
Proof.
  intros R. pose proof (vj_source _ Hjob) as Hp.
  destruct R as [Hs|((a & Ha & Hx) & Hr & Hf & _)].
  - pose proof (source_ready_resolved _ _ Hp Hs) as He. unfold validate_execution_source. rewrite He.
    destruct (job_source job) as [repository revision|digest size]; cbn [source_ready] in Hs.
    + destruct Hs as (-> & -> & -> & -> & Ht & Hv & _). rewrite !bool_decide_eq_true_2 by done.
      by rewrite Ht, Hv.
    + rewrite Hs. cbn. by rewrite !bool_decide_eq_true_2.
  - unfold validate_execution_source. rewrite Hx, Hr. unfold assigned_source_evidence. rewrite Ha.
    rewrite (bool_decide_eq_false_2 (rc_final_state c = _)) by done.
    destruct (job_source job) as [repository revision|digest size]; cbn; by rewrite !bool_decide_eq_true_2.
Qed.
Lemma ready_controller_steps run lease c :
  ready run lease c → validate_step_evidence job os c = Ok tt ∨ torn c.
Proof.
  clear Hnames. intros R. destruct (rd_steps _ _ _ R) as (from & upto & Ht & Hu & Hst).
  pose proof (timeline_length _ _ _ _ _ _ Ht) as Hl.
  assert ((rc_final_state c = JobState.Cancelled →
    te_reason (xe_termination (rc_execution c)) ∈
      [TerminationReason.CancelRequested; TerminationReason.LeaseLost; TerminationReason.TimedOut]) ∨ torn c)
    as [Hc|]; [|left|by right].
  { destruct (decide (rc_final_state c = JobState.Cancelled)) as [E|]; [|by left].
    destruct (rd_cancel _ _ _ R E) as [-> | [-> | [-> | ?]]]; [left; set_solver..|by right]. }
  unfold validate_step_evidence. rewrite (rd_finished _ _ _ R). cbn [ok_or].
  rewrite bind_unit_Ok, reject_if_Ok, !orb_false_iff, bool_decide_eq_false. split; [split_and!|].
  - lia.
  - apply andb_false_iff. case_bool_decide as E; [|by left]. right. rewrite negb_bool_decide_false.
    by destruct (rd_success _ _ _ R E) as (_ & _ & _ & _ & ?).
  - destruct (rd_source _ _ _ R) as [Hs|(_ & _ & _ & ->)]; [|by rewrite andb_false_r].
    by rewrite (source_ready_resolved _ _ (vj_source _ Hjob) Hs).
  - cbn [mbind result_bind]. rewrite bind_unit_Ok, reject_if_Ok. split.
    + by eapply timeline_check.
    + apply andb_false_iff. case_bool_decide as E; [|by left]. right. apply negb_false_iff.
      specialize (Hc E). by destruct (te_reason _); try done; set_solver.
Qed.
Lemma torn_refused c : torn c → validate_step_evidence job os c ≠ Ok tt.
Proof.
  intros [Hf Hr]. unfold validate_step_evidence. rewrite Hf, !bind_unit_Ok. intros (_ & Hs). revert Hs.
  destruct (ok_or _ _); [cbn|done]. rewrite bind_unit_Ok. intros [_ Hs]. revert Hs.
  rewrite reject_if_Ok. by destruct Hr as [-> | ->].
Qed.

(** ** The changes of [submit_completion] *)
Lemma ready_with_version run lease version c : ready run lease c → ready run lease (with_version version c).
Proof. intros []. by split. Qed.
Lemma known_as_cancelled t c : source_known c → source_known (as_cancelled t c).
Proof. intros [Hs|(Ha & _ & _ & Hn)]; [by left|right]. split_and!; done. Qed.
Lemma ready_as_cancelled run lease t c :
  ready run lease c → (te_observed_at (xe_termination (rc_execution c)) ≤ t)%Z →
  ready run lease (as_cancelled t c).
Proof.
  intros R Ht. pose proof (rd_evidence _ _ _ R) as (Hi & Ho & _).
  destruct (rd_steps _ _ _ R) as (from & upto & Hl & Hu & Hst).
  split; unfold as_cancelled; cbn; try done; try apply R.
  - split_and!; [done| |eauto]. intros s f Hs [= <-]. etrans; [|exact Ht]. eapply Ho; [done|apply R].
  - by eapply known_as_cancelled, R.
  - exists from, upto. split_and!; [done|lia|done].
  - auto.
Qed.
End ready.
