(* ===== verification/WorkerHonest.v ===== *)
(** The discipline under which workers are verified ([honest]) and what the client, the
    processes and the source preparation do under it.

    An honest environment keeps the documented behaviour of identifiers, of the file walk,
    of process output and of Git; everything else it answers as it likes.  The wall clock
    may step back: what is said of times is said of histories in which it did not. *)
From Stdlib Require Import ZArith NArith Lia String.
From stdpp Require Import base option list numbers sets gmap relations.
From S2P Require Import Prelude Text Crates Protocol PortablePath Repository Snapshot RunState JobSpec CanonicalJson WorkerReports WorkerRun Cleanup ControllerDb CompletionEvidence WorkerEnv WorkerClient WorkerProcess WorkerSource WorkerExecutor WorkerRuntime WorkerLogic WorkerEvidence.
Open Scope rust_scope.

(** ** The discipline *)
Definition select_ok (e : SelectEvent.t) : Prop :=
  match e with
  | SelectEvent.Received c => oc_bytes c ≠ []
  | SelectEvent.Waited (Ok m) => good_signal (es_signal (mr_status m))
  | _ => True
  end.
Definition walked (entries : list (result IoError WalkEntry)) : list (list rstr) :=
  omap (λ r, match r with Ok e => Some (we_relative e) | Err _ => None end) entries.
(** A walk yields every path once, as non-empty components without separators. *)
Definition walk_ok (entries : list (result IoError WalkEntry)) : Prop :=
  NoDup (walked entries) ∧ Forall (λ p, p ≠ [] ∧ Forall (λ s, s ≠ [] ∧ SLASH ∉ s) p) (walked entries).
Definition single_line (s : rstr) : bool := negb (contains_char 13%N s || contains_char 10%N s).
Definition answers_honestly {A} (o : Op.t A) (h : list event) : A → Prop :=
  match o in Op.t A return A → Prop with
  | Op.NewUuid => λ u, u ∉ uuids h
  | Op.Select => λ events, Forall select_ok events ∧
      ((received h ≤ u64_max)%N → (received h + chunk_bytes events ≤ u64_max)%N)
  | Op.Walk _ => walk_ok
  | Op.ReadToString p => λ r, last p = Some (lit "git-version.stdout.log") →
      ∀ s, r = Ok s → single_line (trim s) = true → git_version_ok (trim s)
  | _ => λ _, True
  end.
(** The sink's counters are those of what it recorded, which was received. *)
Definition sink_sound (w : World) : Prop :=
  sink_wf (w_sink w) ∧ (sink_total (w_sink w) ≤ received (w_trace w))%N ∧ (received (w_trace w) ≤ u64_max)%N.

Lemma received_record {A} (o : Op.t A) a h : received (existT A (o, a) :: h) = (received_of (existT A (o, a)) + received h)%N.
Proof. done. Qed.
Lemma sink_sound_record A (o : Op.t A) a w :
  sink_sound w → answers_honestly o (w_trace w) a → sink_sound (record o a w).
Proof.
  intros (Hw & Ht & Hr) Ha. unfold sink_sound, record. cbn [w_sink w_trace]. rewrite received_record.
  destruct o; cbn [received_of]; try (split_and!; [done|lia|lia]).
  cbn in Ha. destruct Ha as [_ Ha]. specialize (Ha Hr). split_and!; [done|lia|lia].
Qed.
(** What may be said at a call: completions must satisfy [P] there. *)
Definition says (P : list event → RunCompletion → Prop) A (o : Op.t A) (h : list event) : Prop :=
  match o with
  | Op.Send (HttpRequest.Complete c) => P h c
  | _ => True
  end.
Definition honest (P : list event → RunCompletion → Prop) : Discipline :=
  {| obligation := says P; assumption := @answers_honestly; invariant := sink_sound;
     invariant_call := sink_sound_record |}.

(** ** The clock *)
Lemma onward_record {A} (o : Op.t A) a h : onward (existT A (o, a) :: h) → onward h.
Proof. apply onward_suffix, suffix_cons_r. done. Qed.
Lemma onward_runs P w w' : runs (honest P) w w' → onward (w_trace w') → onward (w_trace w).
Proof. intros Hr. eapply onward_suffix, runs_suffix, Hr. Qed.
Lemma reached_record {A} (o : Op.t A) a h t : reached h t → reached (existT A (o, a) :: h) t.
Proof.
  intros Hr Hon. destruct (Hr (onward_record _ _ _ Hon)) as (now & Hn & Hle). cbn [last_now].
  unfold onward in Hon. cbn [stepped_back] in Hon. rewrite Hn, orb_false_iff in Hon.
  destruct (now_of (existT A (o, a))) as [t'|]; [|by exists now].
  exists t'. split; [done|]. destruct Hon as [_ Hon%Z.ltb_ge]. lia.
Qed.
Lemma runs_reached P w w' t : runs (honest P) w w' → reached (w_trace w) t → reached (w_trace w') t.
Proof.
  induction 1 as [|w1 w2 w3 Hs _ IH]; [done|]. intros Hr. apply IH. destruct Hs as [A o a w _ _|s w _]; [|done].
  by apply reached_record.
Qed.
Lemma now_reached (t : DateTime) w : reached (w_trace (record Op.Now t w)) t.
Proof. by exists t. Qed.
Lemma now_after t0 t w :
  onward (w_trace (record Op.Now t w)) → reached (w_trace w) t0 → (t0 ≤ t)%Z.
Proof.
  intros Hon Hr. destruct (reached_record Op.Now t _ _ Hr Hon) as (now & Hn & Hle). cbn in Hn. by injection Hn as <-.
Qed.

(** ** Symbolic execution *)
Lemma wp_silent P env {A} (o : Op.t A) w (Q : A → World → Prop) :
  obeys (honest P) env → says P A o (w_trace w) →
  (∀ a, answers_honestly o (w_trace w) a → Q a (record o a w)) → wp (honest P) env (call o) w Q.
Proof. intros Henv. apply (wp_call (honest P) env Henv). Qed.

(** A computation that keeps the discipline; one that also leaves the sink alone. *)
Definition quiet (P : list event → RunCompletion → Prop) (env : Environment) {A} (m : io A) : Prop :=
  ∀ w, wp (honest P) env m w (λ _ _, True).
Definition still (w w' : World) : Prop :=
  w_sink w' = w_sink w ∧ (received (w_trace w) ≤ received (w_trace w'))%N.
Lemma wp_quiet P env {A} (m : io A) w (Q : A → World → Prop) :
  quiet P env m → (∀ a w', runs (honest P) w w' → Q a w') → wp (honest P) env m w Q.
Proof. intros Hm HQ. eapply runs_mono; [apply Hm|]. auto. Qed.
Create HintDb quiet.

Lemma wp_select P env w (Q : list SelectEvent.t → World → Prop) :
  obeys (honest P) env →
  (∀ events, Forall select_ok events →
     (sink_total (w_sink w) + chunk_bytes events ≤ received (w_trace (record Op.Select events w)))%N →
     Q events (record Op.Select events w)) →
  wp (honest P) env (call Op.Select) w Q.
Proof.
  intros Henv HQ. apply wp_invariant. intros (_ & Ht & _). apply wp_silent; [done|exact I|].
  intros events [Hev _]. apply HQ; [done|]. cbn [record w_trace]. rewrite received_record. cbn [received_of]. lia.
Qed.
(** Introduces an answer, with what is assumed of it. *)
Ltac wanswer := let Ha := fresh "Ha" in intros ? Ha; try (change True in Ha; clear Ha).
(** One symbolic step of a computation. *)
Ltac wstep :=
  lazymatch goal with
  | |- wp _ _ (mbind _ _) _ _ => apply runs_bind
  | |- wp _ _ (try_bind _ _) _ _ => apply wp_try
  | |- wp _ _ (mret _) _ _ => apply runs_ret
  | |- wp _ _ (done_ok _) _ _ => apply wp_done
  | |- wp _ _ (fail _) _ _ => apply wp_fail
  | |- wp _ _ (bail _) _ _ => apply wp_fail
  | |- wp _ _ (pure _) _ _ => apply wp_pure
  | |- wp _ _ (bail_if _ _) _ _ => apply wp_bail_if; intros ?
  | |- wp _ _ (call_io _ _) _ _ => apply wp_call_io; [eassumption|exact I|wanswer|intros ?]
  | |- wp _ _ (call_any _ _) _ _ => apply wp_call_any; [eassumption|exact I|wanswer|intros ?]
  | |- wp _ _ (call Op.Select) _ _ => apply wp_select; [eassumption|intros ? ? ?]
  | |- wp _ _ (call _) _ _ => apply wp_silent; [eassumption|exact I|wanswer]
  | |- wp _ _ get_sink _ _ => apply wp_get_sink
  | |- wp _ _ (match ?x with _ => _ end) _ _ => destruct x eqn:?
  | |- wp _ _ ?m _ _ => apply (wp_quiet _ _ m); [solve [auto with quiet]|intros ? ? ?]
  | |- match ?x with Ok _ => _ | Err _ => _ end => destruct x eqn:?
  | |- True => exact I
  end.
Ltac wnorm := cbv beta zeta; cbn [map_err context fst snd].
Ltac wsteps := repeat (wstep; wnorm).
Tactic Notation "quietly" reference(f) := intros w; unfold f; wnorm; wsteps.

Section client.
Context `{WireCrates, DigestCrate, UuidCrate}.
Context (P : list event → RunCompletion → Prop) (env : Environment) (Henv : obeys (honest P) env).
#[local] Abbreviation WP := (wp (honest P) env).
#[local] Abbreviation quiet := (quiet P env).

Lemma wp_retries {A} (I : World → Prop) (once : io (result AnyError A)) (Q : result AnyError A → World → Prop) w :
  (∀ w, I w → WP once w (λ r w', I w' ∧ Q r w')) → (∀ w n, I w → I (record (Op.Sleep n) tt w)) →
  I w → WP (with_retries once) w Q.
Proof.
  intros Honce Hsleep. apply wp_with_retries; [exact Henv| |by split; [|apply Hsleep]].
  intros w1 Hw1. eapply runs_mono; [by apply Honce|]. intros r w2 _ [Hw2 HQ]. by split.
Qed.
Lemma retries_quiet {A} (once : io (result AnyError A)) : quiet once → quiet (with_retries once).
Proof. intros Hq w. apply (wp_retries (λ _, True)); [|done..]. intros w' _. eapply runs_mono; [apply Hq|done]. Qed.
#[local] Hint Resolve retries_quiet : quiet.

Lemma heartbeat_quiet session request : quiet (heartbeat session request).
Proof. quietly heartbeat. unfold send. wsteps. Qed.
Lemma state_quiet session update : quiet (state session update).
Proof. quietly state. unfold send. wsteps. Qed.
Lemma download_once_quiet session digest size : quiet (download_snapshot_once session digest size).
Proof. quietly download_snapshot_once. unfold send. wsteps. Qed.
#[local] Hint Resolve download_once_quiet : quiet.
Lemma download_snapshot_quiet session digest size : quiet (download_snapshot session digest size).
Proof. quietly download_snapshot. Qed.

(** ** The log sink *)
Lemma still_call w A (o : Op.t A) a w0 : still w0 w → still w0 (record o a w).
Proof. intros [Hs Hr]. split; [done|]. cbn [record w_trace]. rewrite received_record. lia. Qed.
Lemma upload_log_still session stream offset data w :
  WP (upload_log session stream offset data) w (λ _ w', still w w').
Proof.
  unfold upload_log. wstep. wstep; [done|]. wnorm. apply (wp_retries (still w)); [|intros; by apply still_call|done].
  intros w' Hw. unfold send. wsteps; (split; by apply still_call).
Qed.
Lemma sink_record_total s chunk :
  (sink_total s + byte_count (oc_bytes chunk) ≤ u64_max)%N →
  sink_total (sink_record s chunk) = (sink_total s + byte_count (oc_bytes chunk))%N.
Proof.
  unfold sink_total, sink_record, u64_wrapping_add. intros Hm.
  destruct (oc_stream chunk); cbn [sk_stdout_offset sk_stderr_offset]; rewrite N.mod_small; lia.
Qed.
Lemma sink_record_wf s chunk :
  sink_wf s → oc_bytes chunk ≠ [] → (sink_total s + byte_count (oc_bytes chunk) ≤ u64_max)%N →
  sink_wf (sink_record s chunk).
Proof.
  intros Hs Hne Hm. assert (0 < byte_count (oc_bytes chunk))%N as Hpos.
  { unfold byte_count. destruct (oc_bytes chunk); [done|]. cbn. lia. }
  intros stream. destruct (Hs stream) as (Ho & Hc & Hz). unfold sink_total in Hm.
  unfold sink_record, u64_wrapping_add.
  destruct (oc_stream chunk), stream; cbn in *; rewrite ?length_app, ?Ho, ?Nat2N.inj_add in *;
    unfold byte_count in *; rewrite ?N.mod_small by lia; split_and!; lia.
Qed.
(** An upload counts the chunk exactly if it was acknowledged. *)
Lemma upload_spec session chunk w :
  oc_bytes chunk ≠ [] → (sink_total (w_sink w) + byte_count (oc_bytes chunk) ≤ received (w_trace w))%N →
  WP (upload session chunk) w (λ r w',
    w_sink w' = match r with Ok _ => sink_record (w_sink w) chunk | Err _ => w_sink w end ∧
    (received (w_trace w) ≤ received (w_trace w'))%N).
Proof.
  intros Hne Hroom. unfold upload. wstep. wstep. wstep. eapply runs_mono; [apply upload_log_still|].
  intros r w' _ [Hs Hr]. destruct r as [?|e]; [|by split].
  wstep. wstep. wstep. apply wp_invariant. intros (Hw & Ht & Hm). rewrite Hs in *.
  apply wp_put_sink; [split_and!|]; cbn [with_sink w_sink w_trace].
  - apply sink_record_wf; [done..|]. lia.
  - rewrite sink_record_total; lia.
  - done.
  - wstep. by split.
Qed.

(** ** Managed processes *)
Lemma pump_spec session events wait_result upload_error w :
  Forall select_ok events → (sink_total (w_sink w) + chunk_bytes events ≤ received (w_trace w))%N →
  (∀ m, wait_result = Some m → good_signal (es_signal (mr_status m))) →
  WP (pump session events wait_result upload_error) w (λ r _,
    ∀ m e, r = Ok (Some m, e) → good_signal (es_signal (mr_status m))).
Proof.
  intros Hev. revert wait_result upload_error w. induction Hev as [|ev events Hok _ IH]; intros wr ue w Hroom Hwr.
  { cbn. wstep. intros m e [= ->]. by apply Hwr. }
  cbn [chunk_bytes foldr] in Hroom. change (foldr _ 0%N events) with (chunk_bytes events) in Hroom.
  destruct ev as [[m|e]|chunk|]; cbn [pump].
  - apply IH; [lia|]. intros ? [= <-]. exact Hok.
  - wstep. intros m e' [=].
  - destruct ue as [e|]; [apply IH; [lia|done]|]. wstep.
    apply wp_invariant. intros (_ & _ & Hm).
    eapply runs_mono; [apply upload_spec; [exact Hok|lia]|]. intros r w' _ [Hs Hr]. destruct r as [?|e].
    + apply IH; [|done]. rewrite Hs, sink_record_total; lia.
    + wstep. wstep. apply IH; [|done]. cbn [record w_sink w_trace]. rewrite received_record, Hs. cbn [received_of]. lia.
  - destruct wr as [m|]; cbn [is_some]; [wstep; intros ? ? [= <-]; by apply Hwr|].
    apply IH; [lia|done].
Qed.
Definition process_fine (p : ProcessResult) : Prop :=
  good_signal (pr_signal p) ∧ ∀ e, pr_error p = Some e → blank e = false.
Lemma run_process_spec session request w :
  WP (run_process session request) w (λ r _, ∀ p, r = Ok p → process_fine p).
Proof.
  unfold run_process, or_empty, or_unconfirmed, open_log_file_no_follow, create_log_parent.
  wsteps; try done; [|intros ? [= <-]; split; [done|intros ? [= <-]]; apply (printable_blank (chr "p"));
                      [by left|split; by vm_compute]].
  eapply runs_mono; [by apply pump_spec|]. intros [[wr ue]|e] w' _ Hwr; [|done].
  wsteps; try done. intros ? [= <-]. split; cbn [pr_signal pr_error].
  - destruct wr as [m|]; [|done]. cbn in *. simplify_eq/=. by eapply Hwr.
  - destruct ue as [e|]; [|done]. intros ? [= <-]. apply (printable_blank (chr "u")); [by left|split; by vm_compute].
Qed.
End client.

(** ** The source *)
Lemma lower_hex_not_uppercase c : is_lower_hex c = true → is_ascii_uppercase c = false.
Proof.
  unfold is_lower_hex, is_ascii_uppercase, is_ascii_digit, between.
  rewrite orb_true_iff, andb_false_iff, !andb_true_iff, !N.leb_le, !N.leb_gt. lia.
Qed.
Lemma lower_hex_lowercase s : Forall (λ c, is_lower_hex c = true) s → to_ascii_lowercase s = s.
Proof.
  induction 1 as [|c s Hc _ IH]; [done|]. unfold to_ascii_lowercase in *. cbn [map].
  by rewrite IH, lower_hex_not_uppercase.
Qed.
Lemma valid_object_id_lowercase s : valid_object_id s = true → to_ascii_lowercase s = s.
Proof. rewrite valid_object_id_hex. intros [[_ Hh]|[_ Hh]]; by apply lower_hex_lowercase. Qed.
Lemma validate_full_oid_Ok s : validate_full_oid s = Ok tt ↔ valid_object_id s = true.
Proof.
  unfold validate_full_oid, valid_object_id. rewrite reject_if_Ok, orb_false_iff, !negb_false_iff, andb_true_iff. done.
Qed.

(** What a failed preparation reports of the processes; what a finished one leaves. *)
Definition contained (e : PrepareJobError) : Prop :=
  match pj_containment e with
  | SourceContainment.Confirmed c => good_signal (cs_signal c)
  | SourceContainment.Unconfirmed => True
  end.
Definition prepared_or_contained {A} (good : A → Prop) (r : result PrepareJobError A) : Prop :=
  match r with Ok a => good a | Err e => contained e end.

Section source.
Context `{WireCrates, DigestCrate, UuidCrate, SourceCrates}.
Context (P : list event → RunCompletion → Prop) (env : Environment) (Henv : obeys (honest P) env).
#[local] Abbreviation WP := (wp (honest P) env).
#[local] Abbreviation quiet := (quiet P env).

Lemma path_entry_exists_quiet path : quiet (path_entry_exists path).
Proof. quietly path_entry_exists. Qed.
Lemma require_direct_directory_quiet path : quiet (require_direct_directory path).
Proof. quietly require_direct_directory. Qed.
#[local] Hint Resolve path_entry_exists_quiet require_direct_directory_quiet : quiet.
Lemma ensure_parents_quiet segments destination : quiet (ensure_parents destination segments).
Proof.
  revert destination. induction segments as [|segment rest IH]; intros destination w; cbn [ensure_parents].
  { wsteps. }
  unfold set_snapshot_directory_permissions. wsteps; apply IH.
Qed.
#[local] Hint Resolve ensure_parents_quiet : quiet.
Lemma ensure_snapshot_parents_quiet root portable : quiet (ensure_snapshot_parents root portable).
Proof. quietly ensure_snapshot_parents. Qed.
#[local] Hint Resolve ensure_snapshot_parents_quiet : quiet.
Lemma create_snapshot_directory_quiet root portable : quiet (create_snapshot_directory root portable).
Proof. quietly create_snapshot_directory; unfold set_snapshot_directory_permissions; wsteps. Qed.
Lemma install_snapshot_file_quiet root portable index size : quiet (install_snapshot_file root portable index size).
Proof. quietly install_snapshot_file; unfold set_snapshot_file_permissions; wsteps. Qed.
#[local] Hint Resolve create_snapshot_directory_quiet install_snapshot_file_quiet : quiet.
Lemma extract_entry_quiet staging x entry : quiet (extract_entry staging x entry).
Proof. quietly extract_entry. Qed.
#[local] Hint Resolve extract_entry_quiet : quiet.
Lemma extract_entries_quiet staging entries x : quiet (extract_entries staging x entries).
Proof. revert x. induction entries as [|entry entries IH]; intros x w; cbn [extract_entries]; wsteps. Qed.
Lemma remove_owned_quiet parent staging : quiet (remove_owned_snapshot_staging parent staging).
Proof. quietly remove_owned_snapshot_staging. Qed.
#[local] Hint Resolve extract_entries_quiet remove_owned_quiet : quiet.
Lemma write_json_atomic_quiet directory name json : quiet (write_json_atomic directory name json).
Proof. quietly write_json_atomic. Qed.
Lemma create_job_directories_quiet root directories : quiet (create_job_directories root directories).
Proof. induction directories as [|d directories IH]; intros w; cbn [create_job_directories]; wsteps. Qed.
#[local] Hint Resolve write_json_atomic_quiet create_job_directories_quiet : quiet.
Lemma create_job_root_quiet root spec workspace : quiet (create_job_root root spec workspace).
Proof. quietly create_job_root. Qed.
#[local] Hint Resolve create_job_root_quiet : quiet.

Lemma wp_or_source {A} (m : io (result AnyError A)) w (Q : result PrepareJobError A → World → Prop) :
  WP m w (λ r w', Q (map_err source_confirmed_empty r) w') → WP (or_source m) w Q.
Proof. intros Hm. unfold or_source. wstep. eapply runs_mono; [exact Hm|]. intros. by wstep. Qed.
Lemma nothing_started_contained e : contained (source_confirmed_empty e).
Proof. intros z [=]. Qed.
#[local] Hint Resolve nothing_started_contained : core.
Lemma run_git_contained session repository logs label arguments hooks fixture w :
  WP (run_git session repository logs label arguments hooks fixture) w
    (λ r _, prepared_or_contained (λ _, True) r).
Proof.
  unfold run_git. wstep. apply wp_or_source. wstep. destruct (path_parent hooks) as [root|]; cbn; [|done].
  wstep. eapply runs_mono; [apply run_process_spec; exact Henv|]. intros [p|e] w' _ Hp; wstep; wstep; cbn [map_err].
  - destruct (process_succeeded p); wstep; [done|]. unfold prepared_or_contained, contained, from_process_result.
    cbn [pj_containment]. destruct (pr_process_tree_terminated p); [|done]. cbn. by apply (Hp p).
  - cbn. unfold contained, from_process_error. cbn. by destruct (pe_containment e).
Qed.
Lemma or_source_quiet {A} (m : io (result AnyError A)) (Q : A → Prop) w :
  WP m w (λ r _, ∀ a, r = Ok a → Q a) → WP (or_source m) w (λ r _, prepared_or_contained Q r).
Proof.
  intros Hm. apply wp_or_source. eapply runs_mono; [exact Hm|]. intros [a|e] w' _ HQ; cbn; [by apply HQ|done].
Qed.
Lemma or_source_any {A} (m : io (result AnyError A)) w :
  quiet m → WP (or_source m) w (λ r _, prepared_or_contained (λ _, True) r).
Proof. intros Hm. apply or_source_quiet. by eapply runs_mono; [apply Hm|]. Qed.
(** [x ←? m; k] when a failure of [m] is contained. *)
Lemma wp_prepares {A B} (m : io (result PrepareJobError A)) (k : A → io (result PrepareJobError B)) Q (good : B → Prop) w :
  WP m w (λ r _, prepared_or_contained Q r) →
  (∀ a w', Q a → WP (k a) w' (λ r _, prepared_or_contained good r)) →
  WP (try_bind m k) w (λ r _, prepared_or_contained good r).
Proof.
  intros Hm Hk. wstep. eapply runs_mono; [exact Hm|]. intros [a|e] w' _ Ha; [by apply Hk|done].
Qed.
Lemma read_single_line_quiet path : quiet (read_single_line path).
Proof. quietly read_single_line. Qed.
#[local] Hint Resolve read_single_line_quiet : quiet.
Lemma read_single_line_spec path w :
  WP (read_single_line path) w (λ r _, ∀ v, r = Ok v →
    last path = Some (lit "git-version.stdout.log") → git_version_ok v).
Proof.
  unfold read_single_line. wsteps; try done. intros ? [= <-] Hl. cbn in Ha.
  eapply (Ha Hl); [done|]. unfold single_line.
  match goal with H : _ = false |- _ => apply orb_false_iff in H as [[_ ?]%orb_false_iff ?] end.
  by apply negb_true_iff, orb_false_iff.
Qed.

(** Steps whose results are not used further. *)
Tactic Notation "wcheck" "as" simple_intropattern(p) := eapply (wp_prepares _ _ (λ _, True));
  [first [apply run_git_contained|apply or_source_any; intros ?; solve [wsteps]]|intros p ? _].
Tactic Notation "wcheck" := wcheck as ?.
Lemma checkout_git_spec session remote revision repository logs w :
  WP (checkout_git session remote revision repository logs) w (λ r _,
    prepared_or_contained (λ x, source_ready (SourceSpec.Git remote revision) (prepared_source_evidence x)) r).
Proof.
  unfold checkout_git.
  eapply (wp_prepares _ _ (λ _, validate_full_oid revision = Ok tt));
    [apply or_source_quiet; wsteps; by intros [] ->|intros _ ? Hrev%validate_full_oid_Ok].
  wcheck. wcheck. cbv zeta. wcheck. wcheck. wcheck. wcheck.
  eapply (wp_prepares _ _ git_version_ok).
  { apply or_source_quiet. eapply runs_mono; [apply read_single_line_spec|].
    intros r ? _ Hr v Hv. eapply Hr; [exact Hv|]. unfold git_log, path_join. by rewrite last_snoc. }
  intros version ? Hversion. wcheck. wcheck. wcheck. wcheck. wcheck.
  wcheck as resolved.
  eapply (wp_prepares _ _ (λ _, resolved = revision)).
  { apply or_source_quiet. wsteps; [done|]. intros _ _. by apply negb_bool_decide_false. }
  intros _ ? ->. wcheck.
  wcheck as tree.
  eapply (wp_prepares _ _ (λ _, validate_full_oid tree = Ok tt)).
  { apply or_source_quiet. wstep. intros [] Ht. destruct (validate_full_oid tree) as [[]|]; [done|discriminate Ht]. }
  intros _ ? Htree%validate_full_oid_Ok. wstep. cbn [prepared_or_contained source_ready prepared_source_evidence
    xs_kind xs_repository xs_requested_revision xs_resolved_revision xs_tree xs_git_version so_kind so_repository
    so_requested_revision so_resolved_revision so_tree so_git_version].
  rewrite !valid_object_id_lowercase by done. by split_and!.
Qed.
Lemma extract_snapshot_archive_spec digest size bytes destination w :
  WP (extract_snapshot_archive digest size bytes destination) w (λ r _,
    ∀ x, r = Ok x → source_ready (SourceSpec.Snapshot digest (Some size)) (prepared_source_evidence x)).
Proof. unfold extract_snapshot_archive. wsteps; try done. by intros ? [= <-]. Qed.
Lemma prepare_source_spec session spec archive repository logs w :
  WP (prepare_source session spec archive repository logs) w (λ r _,
    prepared_or_contained (λ x, source_ready (job_source spec) (prepared_source_evidence x)) r).
Proof.
  unfold prepare_source. destruct (job_source spec) as [remote revision|digest size]; [apply checkout_git_spec|].
  apply or_source_quiet. wstep. wstep. destruct size as [size|]; cbn [ok_or]; [|done].
  wstep. wstep. destruct archive as [archive|]; cbn [ok_or]; [|done]. apply extract_snapshot_archive_spec.
Qed.
Lemma prepare_job_spec session root job run spec workspace archive w :
  WP (prepare_job session root job run spec workspace archive) w (λ r _,
    prepared_or_contained (λ p, source_ready (job_source spec) (prepared_source_evidence (pd_source p))) r).
Proof.
  unfold prepare_job. wcheck as [[[[croot repository] scripts] logs] artifacts]. wstep.
  eapply runs_mono; [apply prepare_source_spec|]. intros [x|e] w2 _ Hx; cbn in Hx.
  - wcheck. by wstep.
  - unfold write_failure_result. wsteps; exact Hx.
Qed.
Lemma fetch_snapshot_spec session assignment w :
  WP (fetch_snapshot session assignment) w (λ r _, prepared_or_contained (λ _, True) r).
Proof.
  pose proof (download_snapshot_quiet P env Henv) as Hd. unfold fetch_snapshot. wsteps; try done.
  by destruct a.
Qed.
End source.
