(* ===== verification/WorkerSafety.v ===== *)
(** What a worker tells its controller: every completion it sends is one that its own
    validator and the controller's checks of source and steps accept, and it always
    reports an outcome unless it lost the containment proof or the controller refused a
    state change.

    The proofs follow the code: each function is run in the calculus of [WorkerLogic]
    under the discipline [honest]. *)
From Stdlib Require Import ZArith NArith Lia String.
From stdpp Require Import base option list numbers sets gmap relations.
From S2P Require Import Prelude Text Crates Protocol PortablePath Repository Snapshot RunState JobSpec CanonicalJson WorkerReports WorkerRun Cleanup ControllerDb CompletionEvidence WorkerEnv WorkerClient WorkerProcess WorkerSource WorkerExecutor WorkerRuntime WorkerLogic WorkerEvidence WorkerHonest.
Open Scope rust_scope.

Lemma literal_not_blank c s : (33 ≤ c ≤ 126)%N → blank (c :: s) = false.
Proof. intros Hc. apply (printable_blank c); [by left|done]. Qed.
Ltac not_blank := apply literal_not_blank; split; by vm_compute.

(** ** The steps *)
Definition worker_os `{ExecutorCrates} : OperatingSystem.t :=
  if built_for_macos then OperatingSystem.Macos else OperatingSystem.Linux.
Lemma worker_shell `{ExecutorCrates} : WorkerExecutor.default_shell = CompletionEvidence.default_shell worker_os.
Proof. unfold worker_os, WorkerExecutor.default_shell. by destruct built_for_macos. Qed.

(** What [execute_steps] establishes about its outcome; of its times, unless the clock
    stepped back. *)
Record outcome_fine (shell : Shell.t) (from : DateTime) (steps : list JobStep) (o : StepsOutcome) (w : World) :
    Prop := {
  of_timeline : ∃ upto, (onward (w_trace w) → timeline shell 0 from steps (oc_steps o) upto) ∧ reached (w_trace w) upto;
  of_signal : good_signal (oc_signal o);
  of_error : ∀ e, oc_error o = Some e → blank e = false;
  of_success : outcome_succeeded o = true →
    Forall clean_step (oc_steps o) ∧ length (oc_steps o) = length steps
}.

Section executor.
Context `{WireCrates, DigestCrate, UuidCrate, SourceCrates, ExecutorCrates}.
Context (P : list event → RunCompletion → Prop) (env : Environment) (Henv : obeys (honest P) env).
#[local] Abbreviation WP := (wp (honest P) env).
#[local] Abbreviation quiet := (quiet P env).
#[local] Abbreviation shell := WorkerExecutor.default_shell.

Lemma wp_now w (Q : DateTime → World → Prop) :
  (∀ t, reached (w_trace (record Op.Now t w)) t →
     (∀ t0, reached (w_trace w) t0 → onward (w_trace (record Op.Now t w)) → (t0 ≤ t)%Z) →
     Q t (record Op.Now t w)) → WP (call Op.Now) w Q.
Proof.
  intros HQ. apply wp_silent; [done|exact I|]. intros t _. apply HQ; [apply now_reached|].
  intros t0 Ht0 Hon. by eapply now_after.
Qed.
(** A call that the clock does not notice. *)
Lemma wp_reached {A} (o : Op.t A) t w (Q : A → World → Prop) :
  says P A o (w_trace w) → reached (w_trace w) t →
  (∀ a, reached (w_trace (record o a w)) t → Q a (record o a w)) → WP (call o) w Q.
Proof. intros Ho Hr HQ. apply wp_silent; [done..|]. intros a Ha. by apply HQ, reached_record. Qed.
Ltac wclock a := eapply wp_reached;
  [exact I|eassumption|match goal with H : reached _ _ |- _ => clear H; intros a H end].
(** The clock had not stepped back in an earlier world either. *)
Ltac onward_ :=
  lazymatch goal with
  | H : onward ?h |- onward ?h => exact H
  | H : onward (w_trace (record _ _ _)) |- _ => apply onward_record in H; onward_
  | R : runs (honest P) ?w ?w', H : onward (w_trace ?w') |- _ => apply (onward_runs _ _ _ R) in H; onward_
  end.
Lemma prepare_command_quiet prepared index sh step : quiet (prepare_command prepared index sh step).
Proof.
  intros w. unfold prepare_command, write_native_script, safe_working_directory. wnorm. wsteps.
Qed.
Lemma cancellation_termination_spec w :
  WP cancellation_termination w (λ r _, r ≠ TerminationReason.Exited).
Proof. unfold cancellation_termination. wsteps. by repeat case_bool_decide. Qed.
Lemma write_result_quiet prepared outcome : quiet (write_result prepared outcome).
Proof. intros w. apply (write_json_atomic_quiet P env Henv). Qed.

Lemma finish_failed started evs code reason tree forced signal error from steps upto w :
  (onward (w_trace w) → timeline shell 0 from steps evs upto) → reached (w_trace w) upto → reason ≠ TerminationReason.Exited →
  good_signal signal → (∀ e, error = Some e → blank e = false) →
  WP (finish_outcome started evs code reason tree forced signal error) w (outcome_fine shell from steps).
Proof.
  intros Ht Hr Hne Hs He. unfold finish_outcome. wstep. wclock t. wstep.
  split; cbn [oc_steps oc_signal oc_error]; [exists upto; split; [intros Hon; apply Ht; onward_|done]|done..|].
  unfold outcome_succeeded. cbn [oc_exit_code oc_termination]. rewrite (bool_decide_eq_false_2 (reason = _)) by done.
  by rewrite andb_false_r.
Qed.
(** The entry of a step extends the evidence. *)
Lemma step_recorded from passed step rest evs upto started code reason w :
  (onward (w_trace w) → timeline shell 0 from (passed ++ step :: rest) evs upto) → length evs = length passed →
  (onward (w_trace w) → (upto ≤ started)%Z) → reached (w_trace w) started →
  WP (step_evidence (N.of_nat (length passed)) step (unwrap_or (step_shell step) shell) started code reason) w
    (λ ev w', (onward (w_trace w') → timeline shell 0 from (passed ++ step :: rest) (evs ++ [ev]) (se_finished_at ev)) ∧
      reached (w_trace w') (se_finished_at ev) ∧ se_exit_code ev = code ∧ se_termination ev = reason).
Proof.
  intros Ht Hl Hu Hr. unfold step_evidence. wstep. apply wp_now. intros t Hn Hafter. wstep.
  split_and!; [|done..]. cbn [se_finished_at]. intros Hon. assert (onward (w_trace w)) as Hon' by onward_.
  eapply timeline_snoc; cbn; [by apply Ht|done|lia|done|done|by apply Hu|by apply Hafter|lia].
Qed.
Lemma protocol_exited r : protocol_termination r = TerminationReason.Exited → r = ProcessTerminationReason.Exited.
Proof. by destruct r. Qed.
Lemma succeeded_step p ev :
  process_succeeded p = true → se_exit_code ev = pr_exit_code p →
  se_termination ev = protocol_termination (pr_reason p) → clean_step ev.
Proof.
  unfold process_succeeded, clean_step. rewrite !andb_true_iff, !bool_decide_eq_true. intros (((Hr & Hc) & _) & _) -> ->.
  by rewrite Hr, Hc.
Qed.
Lemma execute_from_spec session prepared started deadline from passed rest evs upto w :
  (onward (w_trace w) → timeline shell 0 from (passed ++ rest) evs upto) → length evs = length passed → Forall clean_step evs →
  reached (w_trace w) upto →
  WP (execute_from session prepared started deadline (N.of_nat (length passed)) rest evs) w
    (outcome_fine shell from (passed ++ rest)).
Proof.
  revert passed evs upto w. induction rest as [|step rest IH]; intros passed evs upto w Ht Hl Hclean Hr;
    cbn [execute_from].
  { unfold finish_outcome. wstep. wclock t. wstep.
    split; cbn [oc_steps oc_signal oc_error]; [exists upto; split; [intros Hon; apply Ht; onward_|done]|done..|].
    by rewrite app_nil_r. }
  wstep. wclock cancelled. destruct (negb _).
  { wstep. eapply runs_mono; [apply cancellation_termination_spec|]. intros reason w' Hw Hreason.
    eapply finish_failed; [intros Hon; apply Ht; onward_|by eapply runs_reached|done..]. }
  wstep. wclock now. cbv zeta. case_bool_decide; [eapply finish_failed; [intros Hon; apply Ht; onward_|done..]|].
  wstep. apply wp_now. intros begun Hb Hafter. specialize (Hafter _ Hr).
  wstep. apply wp_quiet; [apply prepare_command_quiet|]. intros command w1 Hw1. eapply runs_reached in Hb; [|done].
  destruct command as [[[program arguments] cwd]|e].
  2: { wstep. eapply runs_mono; [eapply step_recorded;
         [intros Hon; apply Ht; onward_|done|intros Hon; apply Hafter; onward_|done]|]. intros ev w2 _ (Hev & Hend & _).
       eapply finish_failed; [done..|]. intros ? [= <-]. not_blank. }
  wstep. eapply runs_mono; [by apply run_process_spec|]. intros ran w2 Hw2 Hran. eapply runs_reached in Hb; [|done].
  destruct ran as [p|e]; cbv zeta; wstep; (eapply runs_mono; [eapply step_recorded;
    [intros Hon; apply Ht; onward_|done|intros Hon; apply Hafter; onward_|done]|]); intros ev w3 _ (Hev & Hend & Hcode & Hterm).
  2: { eapply finish_failed; [done..|]. intros ? [= <-]. not_blank. }
  destruct (Hran p eq_refl) as [Hsignal Herror]. destruct (process_succeeded p) eqn:Hp; cbn [negb].
  - specialize (IH (passed ++ [step]) (evs ++ [ev]) (se_finished_at ev) w3).
    rewrite <-app_assoc, !length_app, Nat2N.inj_add in IH. apply IH; [done|by rewrite Hl|..|done].
    apply Forall_app. split; [done|]. apply Forall_singleton. by eapply succeeded_step.
  - eapply finish_failed; [done|done| |done|].
    + by case_bool_decide.
    + intros ? [= <-]. destruct (pr_error p) as [e|]; cbn [unwrap_or]; [by apply Herror|not_blank].
Qed.
Lemma execute_steps_spec session prepared spec limit from w :
  reached (w_trace w) from →
  WP (execute_steps session prepared spec limit) w (outcome_fine shell from (job_steps spec)).
Proof.
  intros Hr. unfold execute_steps. wstep. wclock t.
  wstep. wclock now. by apply (execute_from_spec _ _ _ _ from [] _ [] from); [intros _; apply timeline_nil|..].
Qed.
End executor.

(** ** Artifacts *)
Lemma split_join sep segs : segs ≠ [] → Forall (λ s, sep ∉ s) segs → split sep (join sep segs) = segs.
Proof.
  intros Hne Hs. induction Hs as [|seg segs Hseg _ IH]; [done|].
  assert (∀ tail, split sep (seg ++ sep :: tail) = seg :: split sep tail ∧ split sep seg = [seg]) as Hsplit.
  { clear -Hseg. induction seg as [|c seg IH]; intros tail; cbn; [by rewrite N.eqb_refl|].
    apply not_elem_of_cons in Hseg as [Hc Hseg]. destruct (IH Hseg tail) as [-> ->].
    by rewrite (proj2 (N.eqb_neq c sep)) by congruence. }
  cbn [join]. destruct segs as [|next segs]; [apply (Hsplit [])|].
  destruct (Hsplit (join sep (next :: segs))) as [-> _]. by rewrite IH.
Qed.
Lemma walk_names_unique entries : walk_ok entries → NoDup (map (join SLASH) (walked entries)).
Proof.
  intros [Hd Hs]. apply NoDup_fmap_2_strong; [|done]. rewrite Forall_forall in Hs.
  intros p q Hp Hq E. destruct (Hs p Hp) as [? Hp']. destruct (Hs q Hq) as [? Hq'].
  rewrite <-(split_join SLASH p), <-(split_join SLASH q), E; [done|done| |done|];
    (eapply Forall_impl; [eassumption|]); by intros ? [_ ?].
Qed.
Lemma runs_uuids P w w' id : runs (honest P) w w' → id ∈ uuids (w_trace w) → id ∈ uuids (w_trace w').
Proof.
  induction 1 as [|w1 w2 w3 Hs _ IH]; [done|]. intros Hid. apply IH. destruct Hs as [A o a w _ _|s w _]; [|done].
  unfold uuids, record. cbn [w_trace omap list_omap]. destruct (uuid_of (existT A (o, a))); [by right|done].
Qed.

(** The artifacts found so far come from the walked paths, under fresh identifiers. *)
Record found (h : list event) (paths : list (list rstr)) (artifacts : list ArtifactEvidence) : Prop := {
  fo_ids : NoDup (map ae_id artifacts);
  fo_known : Forall (λ a, ae_id a ∈ uuids h) artifacts;
  fo_names : sublist (map ae_name artifacts) (map (join SLASH) paths)
}.
(** The metadata of an artifact whose receipt was checked. *)
Definition receipt_checked (a : ArtifactEvidence) : Prop :=
  ∀ m, am_relative_path m = ae_name a → am_sha256 m = ae_sha256 a → am_media_type m = None →
    ArtifactMetadata_validate m = Ok tt.
Section artifacts.
Context `{WireCrates, DigestCrate, UuidCrate, SourceCrates, ExecutorCrates}.
Context (P : list event → RunCompletion → Prop) (env : Environment) (Henv : obeys (honest P) env).
#[local] Abbreviation WP := (wp (honest P) env).
#[local] Abbreviation quiet := (quiet P env).

Lemma hash_regular_file_quiet path : quiet (hash_regular_file_no_follow path).
Proof. intros w. unfold hash_regular_file_no_follow, read_regular_file_no_follow. wsteps. Qed.
#[local] Hint Resolve hash_regular_file_quiet : quiet.
Lemma collect_entry_spec root includes excludes entry w :
  WP (collect_entry root includes excludes entry) w (λ r w', ∀ a, r = Ok (Some a) →
    (∃ e, entry = Ok e ∧ ae_name a = join SLASH (we_relative e)) ∧
    (ae_id a ∉ uuids (w_trace w)) ∧ ae_id a ∈ uuids (w_trace w')).
Proof.
  unfold collect_entry. destruct entry as [e|e]; wstep; wstep; cbn [context map_err]; [|done].
  destruct (_ || _); [by wstep|]. wstep. wstep. unfold slash_path.
  destruct (is_empty _); cbn [reject_if mbind result_bind]; [done|].
  destruct (existsb _ _); [by wstep|]. destruct (_ || _); [by wstep|]. cbv zeta.
  wstep. apply wp_quiet; [auto with quiet|]. intros [[size sha]|err] w1 Hw1; [|done].
  wstep. wstep; [done|]. wstep. apply wp_silent; [done|exact I|]. intros id Hid. wstep.
  intros a [= <-]. cbn [ae_id ae_name]. split_and!; [by exists e| |by left].
  intros Hin. apply Hid. by eapply runs_uuids.
Qed.
Lemma collect_entries_spec root includes excludes entries paths artifacts w :
  found (w_trace w) paths artifacts →
  WP (collect_entries root includes excludes artifacts entries) w (λ r w', ∀ l, r = Ok l →
    found (w_trace w') (paths ++ walked entries) l).
Proof.
  revert paths artifacts w. induction entries as [|entry entries IH]; intros paths artifacts w Hf; cbn [collect_entries].
  { wstep. intros l [= <-]. cbn. by rewrite app_nil_r. }
  wstep. eapply runs_mono; [apply collect_entry_spec|]. intros [[a|]|e] w' Hrun Ha; [| |done].
  - destruct (Ha a eq_refl) as ((e & -> & Hn) & Hnew & Hid). destruct Hf as [Hids Hknown Hnames].
    eapply runs_mono; [apply (IH (paths ++ [we_relative e])); split|].
    + rewrite map_app. apply NoDup_app. split_and!; [done| |apply NoDup_singleton].
      intros id (b & -> & Hb)%list_elem_of_fmap Hb'%list_elem_of_singleton. apply Hnew. rewrite <-Hb'.
      by apply (proj1 (Forall_forall _ _) Hknown).
    + apply Forall_app. split; [|by apply Forall_singleton].
      eapply Forall_impl; [exact Hknown|]. intros b Hb. by eapply runs_uuids.
    + rewrite !map_app. cbn. rewrite Hn. by apply sublist_app.
    + intros r w2 _ Hl l Hr. specialize (Hl l Hr). by rewrite <-app_assoc in Hl.
  - rewrite app_nil_r. destruct Hf as [Hids Hknown Hnames].
    assert (Forall (λ a, ae_id a ∈ uuids (w_trace w')) artifacts).
    { eapply Forall_impl; [exact Hknown|]. intros b Hb. by eapply runs_uuids. }
    destruct entry as [e|e]; [|by apply IH].
    eapply runs_mono; [apply (IH (paths ++ [we_relative e])); split; [done..|]|].
    + rewrite map_app. by apply sublist_inserts_r.
    + intros r w2 _ Hl l Hr. specialize (Hl l Hr). by rewrite <-app_assoc in Hl.
Qed.
Lemma write_artifact_manifest_quiet prepared artifacts : quiet (write_artifact_manifest prepared artifacts).
Proof. intros w. unfold write_artifact_manifest. wsteps. Qed.
#[local] Hint Resolve write_artifact_manifest_quiet : quiet.
(** Collected artifacts have distinct identifiers and distinct names. *)
Lemma collect_artifacts_spec prepared specification w :
  WP (collect_artifacts prepared specification) w (λ r _, ∀ l, r = Ok l →
    NoDup (map ae_id l) ∧ NoDup (map ae_name l)).
Proof.
  unfold collect_artifacts. destruct (is_empty _); [wstep; intros ? [= <-]; split; constructor|].
  wstep. wstep. destruct (compile_globs _ _) as [includes|]; [|done].
  wstep. wstep. destruct (compile_globs _ _) as [excludes|]; [|done].
  wstep. wstep. wstep. wstep. destruct a as [root|]; cbn [map_err]; [|done].
  wstep. apply wp_silent; [done|exact I|]. intros entries Hwalk.
  wstep. eapply runs_mono; [apply (collect_entries_spec _ _ _ _ []); split; constructor|].
  intros [l|e] w1 _ Hl; [|done]. destruct (Hl l eq_refl) as [Hids _ Hnames]. cbv zeta.
  wstep. apply wp_quiet; [auto with quiet|]. intros [[]|] w2 _; [|done]. wstep. intros ? [= <-].
  rewrite !(sort_by_perm _ l). split; [done|]. eapply sublist_NoDup; [by apply walk_names_unique|exact Hnames].
Qed.

(** Uploaded artifacts were acknowledged by a checked receipt. *)
Lemma validated_Ok {E} message (r : result E unit) u : validated message r = Ok u → r = Ok tt.
Proof. by destruct r as [[]|]. Qed.
Lemma upload_artifact_spec session artifact w :
  WP (upload_artifact session artifact) w (λ r _, r = Ok tt → receipt_checked artifact).
Proof.
  unfold upload_artifact. wstep. wstep; [done|]. wstep. wstep; [done|]. wstep.
  apply wp_quiet; [intros ?; unfold read_regular_file_no_follow; wsteps|]. intros [data|] w1 _; [|done].
  wstep. wstep; [done|]. apply (wp_retries P env Henv (λ _, True)); [|done..]. intros w2 _.
  unfold send. wsteps; try done; split; try done. intros _.
  repeat match goal with E : _ || _ = false |- _ => apply orb_false_iff in E as [E ?] end.
  rewrite !negb_bool_decide_false in *. intros m Hn Hs Hm.
  match goal with E : validated _ _ = Ok _ |- _ => apply validated_Ok in E end.
  unfold ArtifactMetadata_validate in *. rewrite !bind_unit_Ok in *. rewrite Hm, Hn, Hs.
  destruct Heqr1 as (E1 & E2 & E3 & _). split_and!; congruence || done.
Qed.
(** The metadata of an artifact that was uploaded. *)
Definition uploaded_as (assignment : ClaimAssignment) (a : ArtifactEvidence) (m : ArtifactMetadata) : Prop :=
  am_id m = ae_id a ∧ am_relative_path m = ae_name a ∧ am_run_id m = ca_run_id assignment ∧
  ArtifactMetadata_validate m = Ok tt.
Lemma upload_artifacts_spec session assignment artifacts passed uploaded w :
  Forall2 (uploaded_as assignment) passed uploaded →
  WP (upload_artifacts session assignment uploaded artifacts) w (λ o _, ∃ l,
    Forall2 (uploaded_as assignment) (passed ++ l) (au_artifacts o) ∧ sublist l artifacts).
Proof.
  revert passed uploaded w. induction artifacts as [|a artifacts IH]; intros passed uploaded w Hu; cbn [upload_artifacts].
  { wstep. exists []. rewrite app_nil_r. split; [done|constructor]. }
  assert (∀ e w', WP (mret (upload_failed uploaded e)) w' (λ o _, ∃ l,
    Forall2 (uploaded_as assignment) (passed ++ l) (au_artifacts o) ∧ sublist l (a :: artifacts))) as Hstop.
  { intros e w'. wstep. exists []. rewrite app_nil_r. split; [done|apply sublist_nil_l]. }
  wstep. wstep. case_match; [apply Hstop|]. case_match; [apply Hstop|].
  wstep. eapply runs_mono; [apply upload_artifact_spec|]. intros [[]|e] w1 _ Hr; [|apply Hstop].
  specialize (Hr eq_refl). wstep. unfold artifact_metadata. wstep. wstep. wstep.
  eapply runs_mono; [apply (IH (passed ++ [a]))|].
  - apply Forall2_app; [done|]. constructor; [|constructor]. split_and!; [done..|]. by apply Hr.
  - intros o w2 _ (l & Hl & Hs). exists (a :: l). rewrite <-app_assoc in Hl. split; [done|by apply sublist_skip].
Qed.
Definition uploads_fine (assignment : ClaimAssignment) (l : list ArtifactMetadata) : Prop :=
  Forall (λ m, ArtifactMetadata_validate m = Ok tt ∧ am_run_id m = ca_run_id assignment) l ∧
  NoDup (map am_id l) ∧ NoDup (map am_relative_path l).
Lemma collect_and_upload_spec session prepared assignment w :
  WP (collect_and_upload session prepared assignment) w (λ o _, uploads_fine assignment (au_artifacts o)).
Proof.
  unfold collect_and_upload. wstep. eapply runs_mono; [apply collect_artifacts_spec|].
  assert (∀ e w', WP (mret (upload_failed [] e)) w' (λ o _, uploads_fine assignment (au_artifacts o))) as Hstop.
  { intros e w'. wstep. split_and!; constructor. }
  intros [l|e] w1 _ Hl; [|apply Hstop]. destruct (Hl l eq_refl) as [Hids Hnames].
  case_match; [apply Hstop|]. case_match; [|apply Hstop]. case_match; [apply Hstop|].
  eapply runs_mono; [apply (upload_artifacts_spec _ _ _ [] []); constructor|].
  intros o w2 _ (k & Hk & Hs). cbn [app] in Hk. unfold uploads_fine. clear -Hk Hs Hids Hnames.
  assert (map am_id (au_artifacts o) = map ae_id k ∧ map am_relative_path (au_artifacts o) = map ae_name k ∧
    Forall (λ m, ArtifactMetadata_validate m = Ok tt ∧ am_run_id m = ca_run_id assignment) (au_artifacts o)) as (-> & -> & Hf).
  { clear Hs. induction Hk as [|a m k ms (Hi & Hn & Hr & Hv) _ (IHi & IHn & IHf)]; [done|]. cbn.
    rewrite Hi, Hn, IHi, IHn. split_and!; [done..|]. by constructor. }
  split_and!; [done|..]; (eapply sublist_NoDup; [eassumption|]); by apply fmap_sublist.
Qed.
End artifacts.
