(* ===== verification/WorkerReporting.v ===== *)
(** Reporting: what [execute_assignment] tells the controller, and that it tells it.

    Every completion a worker sends passes its own validator and the controller's checks
    of source and steps, up to the race of [torn] and to a wall clock that stepped back;
    and unless the containment proof was lost or a state change could not be made, a
    completion is sent. *)
From Stdlib Require Import ZArith NArith Lia String.
From stdpp Require Import base option list numbers sets gmap relations.
From S2P Require Import Prelude Text Crates Protocol PortablePath Repository Snapshot RunState JobSpec CanonicalJson WorkerReports WorkerRun Cleanup ControllerDb CompletionEvidence WorkerEnv WorkerClient WorkerProcess WorkerSource WorkerExecutor WorkerRuntime WorkerLogic WorkerEvidence WorkerHonest WorkerSafety.
Open Scope rust_scope.

(** The request that was sent last. *)
Definition last_request (w : World) : option HttpRequest.t := head (requests (w_trace w)).
Definition last_completion (w : World) (c : RunCompletion) : Prop :=
  last_request w = Some (HttpRequest.Complete c).
Definition last_was_state (w : World) : Prop := ∃ u, last_request w = Some (HttpRequest.State u).
(** An acknowledgement answers a completion. *)
Definition acknowledges (ack : TerminalCompletionAckV1) (c : RunCompletion) : Prop :=
  ack_run_id ack = rc_run_id c ∧ ack_lease_id ack = rc_lease_id c ∧
  ack_final_state ack = rc_final_state c ∧ (rc_expected_version c ≤ ack_state_version ack)%N ∧
  TerminalCompletionAckV1_validate ack = Ok tt.

Lemma validated_is_Ok {E} message (r : result E unit) : r = Ok tt → validated message r = Ok tt.
Proof. by intros ->. Qed.

Section reporting.
Context `{WireCrates, DigestCrateLaws, UuidCrate, SourceCrates, ExecutorCrates, !EmptyDigest}.
Context (assignment : ClaimAssignment) (session : RunSession).
Context (Hrun : ses_run_id session = ca_run_id assignment) (Hlease : ses_lease_id session = ca_lease_id assignment).
Context (Hjob : valid_job (ca_job_spec assignment)).
#[local] Abbreviation job := (ca_job_spec assignment).
#[local] Abbreviation P := (λ h, acceptable job worker_os (ca_run_id assignment) (ca_lease_id assignment) (stepped_back h)).
Context (env : Environment) (Henv : obeys (honest P) env).
#[local] Abbreviation WP := (wp (honest P) env).
(** A completion that may be sent; what depends on times holds while the clock ran on. *)
Definition sendable (w : World) (c : RunCompletion) : Prop :=
  rc_run_id c = ca_run_id assignment ∧ rc_lease_id c = ca_lease_id assignment ∧ source_known job c ∧
  (onward (w_trace w) → ready job worker_os (ca_run_id assignment) (ca_lease_id assignment) c).
(** What excuses a worker whose validator refuses its own completion. *)
Definition excused (w : World) : Prop := ¬ plainly_named job ∨ ¬ onward (w_trace w).
Lemma excused_runs w w' : runs (honest P) w w' → excused w → excused w'.
Proof. intros Hw [?|Hon]; [by left|right]. intros Hon'. by apply Hon, (onward_runs _ _ _ Hw). Qed.
Lemma sendable_runs w w' c : runs (honest P) w w' → sendable w c → sendable w' c.
Proof. intros Hw (? & ? & ? & Hr). split_and!; [done..|]. intros Hon. by apply Hr, (onward_runs _ _ _ Hw). Qed.
Lemma sendable_record {A} (o : Op.t A) a w c : sendable w c → sendable (record o a w) c.
Proof. intros (? & ? & ? & Hr). split_and!; [done..|]. intros Hon. by apply Hr, (onward_record o a). Qed.
Lemma ready_sendable w c :
  ready job worker_os (ca_run_id assignment) (ca_lease_id assignment) c → sendable w c.
Proof. intros R. split_and!; apply R || done. Qed.
Lemma sendable_with_version w v c : sendable w c → sendable w (with_version v c).
Proof. intros (? & ? & ? & Hr). split_and!; [done..|]. intros Hon. by apply ready_with_version, Hr. Qed.
Lemma sendable_acceptable w c : sendable w c → RunCompletion_validate c = Ok tt → P (w_trace w) c.
Proof.
  intros (? & ? & ? & Hr) Hv. split_and!; [done..|by apply known_controller_source|].
  destruct (stepped_back (w_trace w)) eqn:E; [by right; right|].
  specialize (Hr E). apply ready_controller_steps in Hr; [|done]. destruct Hr; auto.
Qed.
Lemma refused_excused w c : sendable w c → RunCompletion_validate c ≠ Ok tt → excused w.
Proof.
  intros (_ & _ & _ & Hr) Hv. destruct (decide (plainly_named job)) as [Hn|]; [|by left]. right. intros Hon.
  apply Hv. by eapply ready_valid, Hr.
Qed.
#[local] Abbreviation quiet := (quiet P env).

Lemma streams_spec w :
  WP streams w (λ s w', RunStreamsEvidence_validate s = Ok tt ∧ last_request w' = last_request w).
Proof.
  unfold streams. wstep. wstep. apply wp_invariant. intros (Hwf & _ & _). unfold stream_evidence. wsteps.
  split; [|done]. unfold RunStreamsEvidence_validate. cbn [rs_stdout rs_stderr].
  by rewrite bind_unit_Ok, !stream_evidence_valid.
Qed.

(** ** State changes *)
Lemma apply_state_version_spec version st w :
  WP (apply_state_version version st) w (λ _ w', last_request w' = last_request w).
Proof. unfold apply_state_version. wsteps; done. Qed.
Lemma apply_version_conflict_spec conflict w :
  WP (apply_version_conflict conflict) w (λ _ w', last_request w' = last_request w).
Proof.
  unfold apply_version_conflict, publish_version, apply_state_version. wsteps; done.
Qed.
Lemma state_spec next started w version :
  next = JobState.Running ∨ next = JobState.Verifying →
  WP (state session
        {| su_run_id := ca_run_id assignment; su_lease_id := ca_lease_id assignment;
           su_expected_version := version; su_next_state := next;
           su_evidence := Some (running_evidence started) |}) w (λ _ w', last_was_state w').
Proof.
  intros Hnext. unfold state. wstep. wstep. unfold verify_binding. cbn [su_run_id su_lease_id].
  rewrite Hrun, Hlease, !bool_decide_eq_true_2 by done. cbn [negb orb reject_if].
  wstep. wstep. rewrite validated_is_Ok.
  2: { unfold StateUpdate_validate. cbn. by destruct Hnext as [-> | ->]. }
  unfold send. wsteps; by eexists.
Qed.
(** Rewrites the last request along calls that send nothing. *)
Lemma last_was_state_eq w w' : last_request w' = last_request w → last_was_state w → last_was_state w'.
Proof. unfold last_was_state. by intros ->. Qed.
Lemma transition_loop_spec next started attempts w :
  next = JobState.Running ∨ next = JobState.Verifying → (attempts = O → last_was_state w) →
  WP (transition_loop session assignment next (Some (running_evidence started)) attempts) w
    (λ r w', last_was_state w').
Proof.
  intros Hnext. revert w. induction attempts as [|more IH]; intros w Hw; cbn [transition_loop].
  { wstep. by apply Hw. }
  wstep. wstep. cbv zeta. wstep. eapply runs_mono; [by apply state_spec|]. clear Hw. intros r w1 _ Hw.
  destruct r as [response|e].
  - wstep. wstep; [done|]. wstep. wstep; [done|]. wstep. eapply runs_mono; [apply apply_state_version_spec|].
    intros ? w2 _ Hw2. pose proof (last_was_state_eq _ _ Hw2 Hw). by wsteps.
  - destruct (conflict_of e) as [conflict|].
    + wstep. eapply runs_mono; [apply apply_version_conflict_spec|].
      intros ? w2 _ Hw2. pose proof (last_was_state_eq _ _ Hw2 Hw).
      case_match; [by wstep|]. case_match; [by wstep|]. case_match; [by wstep|]. by apply IH.
    + case_match; [|by wstep]. unfold pause. wstep. wstep. by apply IH.
Qed.
Lemma transition_spec next started w :
  next = JobState.Running ∨ next = JobState.Verifying →
  WP (transition session assignment next (Some (running_evidence started))) w (λ r w', last_was_state w').
Proof. intros Hnext. by apply transition_loop_spec. Qed.

(** ** The completion *)
Lemma complete_spec c w :
  sendable w c →
  WP (complete session c) w (λ r w',
    match r with
    | Ok (response, ack) => last_completion w' c ∧
        ack_run_id ack = rc_run_id c ∧ ack_lease_id ack = rc_lease_id c ∧
        ack_final_state ack = run_state (sur_run response) ∧ ack_state_version ack = sur_state_version response ∧
        TerminalCompletionAckV1_validate ack = Ok tt
    | Err _ => last_completion w' c ∨ excused w'
    end).
Proof.
  intros Hc. destruct (id Hc) as (Hr & Hl & _).
  unfold complete. wstep. wstep. unfold verify_binding. rewrite Hrun, Hlease, Hr, Hl, !bool_decide_eq_true_2 by done.
  cbn [negb orb reject_if]. wstep. wstep. destruct (RunCompletion_validate c) as [[]|e] eqn:Hv; cbn [validated map_err context].
  2: { right. eapply refused_excused; [done|]. by rewrite Hv. }
  unfold send. wstep. wstep. apply wp_silent; [done|by apply sendable_acceptable|].
  intros answer _. wsteps; try (by left); split; [done|]. split_and!; try done. by apply validated_Ok in Heqr4.
Qed.
(** A completion was sent last, or not sending one is excused; an acknowledgement answers
    the completion. *)
Definition sent (w : World) : Prop := (∃ c, last_completion w c) ∨ excused w.
Definition settled (r : result AnyError TerminalCompletionAckV1) (w : World) : Prop :=
  match r with Ok ack => ∃ c, last_completion w c ∧ acknowledges ack c | Err _ => sent w end.
Lemma sent_later w w' : runs (honest P) w w' → last_request w' = last_request w → sent w → sent w'.
Proof.
  intros Hr Hw [[c Hc]|He]; [left; exists c|right; by eapply excused_runs].
  unfold last_completion. by rewrite Hw.
Qed.
Lemma submit_loop_spec attempts pending w :
  sendable w pending → reached (w_trace w) (te_observed_at (xe_termination (rc_execution pending))) →
  (attempts = O → sent w) →
  WP (submit_loop session pending attempts) w settled.
Proof.
  revert pending w. induction attempts as [|more IH]; intros pending w Hp Ht Hlast; cbn [submit_loop].
  { wstep. by apply Hlast. }
  clear Hlast. wstep. eapply runs_mono; [by apply complete_spec|]. intros r w1 Hw1 Hc.
  eapply runs_reached in Ht; [|done]. eapply sendable_runs in Hp; [|done]. destruct r as [[response ack]|e].
  - destruct Hc as (Hc & Hr & Hl & Hf & Hv & Hok). assert (sent w1) as Hs by (left; by exists pending).
    wstep. wstep; [exact Hs|]. wnorm. wstep. wstep; [exact Hs|]. wnorm.
    wstep. eapply runs_mono; [apply apply_state_version_spec|]. intros ? w2 Hw12 Hw2.
    eapply sent_later in Hs; [|done..].
    wsteps; try exact Hs; try (by eapply sent_later; [apply rtc_once, step_call| |exact Hs]).
    all: exists pending; split; [unfold last_completion; rewrite <-Hc; exact Hw2|].
    all: unfold acknowledges.
    all: repeat match goal with E : _ || _ = false |- _ => apply orb_false_iff in E as [E ?] end.
    all: rewrite !negb_bool_decide_false in *.
    all: split_and!; [done|done|congruence| |done].
    all: rewrite Hv; by apply N.ltb_ge.
  - assert (sent w1) as Hs by (destruct Hc; [left; by exists pending|by right]). clear Hc.
    destruct (conflict_of e) as [conflict|].
    + wstep. eapply runs_mono; [apply apply_version_conflict_spec|]. intros ? w2 Hw12 Hw2.
      eapply runs_reached in Ht; [|done]. eapply sendable_runs in Hp; [|done]. eapply sent_later in Hs; [|done..].
      case_match; [by wstep|]. cbv zeta.
      case_match; [|apply IH; [by apply sendable_with_version|done..]].
      case_match; [by wstep|].
      wstep. apply wp_now; [done|]. intros t Hn Hafter. apply IH; [|done|].
      * destruct Hp as (? & ? & ? & Hready). split_and!; [done|done|by apply known_as_cancelled|]. intros Hon.
        apply ready_as_cancelled; [apply ready_with_version, Hready, (onward_record _ _ _ Hon)|]. by apply Hafter.
      * intros _. eapply sent_later; [apply rtc_once, step_call| |exact Hs]; done.
    + case_match; [|by wstep]. unfold pause. wstep.
      eapply wp_reached; [done|exact I|exact Ht|]. intros ? Ht'. apply IH; [by apply sendable_record|done|].
      intros _. eapply sent_later; [apply rtc_once, step_call| |exact Hs]; done.
Qed.
Lemma submit_completion_spec c w :
  sendable w c → reached (w_trace w) (te_observed_at (xe_termination (rc_execution c))) →
  WP (submit_completion session c) w settled.
Proof.
  intros Hc Ht. unfold submit_completion. wstep. eapply wp_reached; [done|exact I|exact Ht|]. intros version Ht'.
  apply submit_loop_spec; [by apply sendable_with_version, sendable_record|done|done].
Qed.

(** ** Reports of a source that was not prepared *)

(** The outcome of an assignment: its completion was sent and settled, or the containment
    proof was lost, or the last request was a state change. *)
Definition reported (r : result AnyError TerminalCompletionAckV1) (w : World) : Prop :=
  settled r w ∨ ∃ e, r = Err e ∧ (ae_root e = ErrorRoot.ContainmentProofLost ∨ last_was_state w).
Definition early_termination (st : JobState.t) (t : TerminationEvidence) (observed_at : DateTime) : Prop :=
  te_observed_at t = observed_at ∧ te_process_tree_terminated t = true ∧ good_signal (te_signal t) ∧
  unresolved_reason (te_reason t) = true ∧
  (st = JobState.Failed ∨ st = JobState.Cancelled ∧
    (te_reason t = TerminationReason.CancelRequested ∨ te_reason t = TerminationReason.LeaseLost)).
Lemma cancellation_reason_spec w :
  WP cancellation_termination_reason w (λ r _, ∀ x, r = Some x →
    unresolved_reason x = true ∧ x ≠ TerminationReason.SourcePreparationFailed).
Proof.
  unfold cancellation_termination_reason. wsteps. unfold reason_of. intros x.
  by repeat (case_bool_decide; [by intros [= <-]|]).
Qed.
Lemma source_failure_termination_spec source e observed_at w :
  contained e →
  WP (source_failure_termination source (pj_containment e) observed_at) w (λ r _,
    match r with
    | Ok (st, t) => early_termination st t observed_at
    | Err e => ae_root e = ErrorRoot.ContainmentProofLost
    end).
Proof.
  unfold contained. intros He. unfold source_failure_termination. destruct (pj_containment e) as [c|]; [|by wstep].
  wstep. destruct source as [remote revision|digest size].
  - wstep. eapply runs_mono; [apply cancellation_reason_spec|]. intros cancelled w1 _ Hr. wstep. wstep.
    set (reason := match cancelled with Some r => r | None => _ end).
    assert (unresolved_reason reason = true) as Hu.
    { unfold reason. destruct cancelled as [r|]; [by apply Hr|]. destruct (cs_reason c) as [r|]; [by destruct r|done]. }
    split_and!; [done..|]. cbn. destruct reason; tauto.
  - wstep. wstep. split_and!; [done..|by left].
Qed.
Lemma early_ready version st error finished_at t streams :
  early_termination st t finished_at → blank error = false → RunStreamsEvidence_validate streams = Ok tt →
  ready job worker_os (ca_run_id assignment) (ca_lease_id assignment) (early_failure_completion assignment version st error finished_at
    {| xe_source := assigned_source_evidence assignment; xe_steps := []; xe_streams := streams;
       xe_termination := t |}).
Proof.
  intros (Ho & Htree & Hs & Hu & Hst) He Hstreams.
  assert (st = JobState.Failed ∨ st = JobState.Cancelled) as Hst' by naive_solver.
  split; cbn; try done.
  - by destruct Hst' as [-> | ->].
  - split_and!; [constructor|done|]. destruct Hst' as [-> | ->]; [split; [done|right; by exists error]|done].
  - by rewrite Ho.
  - right. split_and!; [by exists assignment|done|by destruct Hst' as [-> | ->]|done].
  - exists finished_at, finished_at. split_and!; [apply timeline_nil|lia|done].
  - intros ->. by destruct Hst'.
  - intros ->. destruct Hst as [|(_ & [ | ])]; naive_solver.
  - constructor.
  - constructor.
Qed.
Lemma report_source_failure_spec e wrap w :
  contained e → (∀ x, ae_root (wrap x) = ae_root x) →
  WP (report_source_failure session assignment e wrap) w reported.
Proof.
  intros He Hwrap. unfold report_source_failure. wstep. apply wp_now; [done|]. intros finished Hf _. wstep.
  eapply runs_mono; [by apply source_failure_termination_spec|]. intros r w1 Hw1 Hr. eapply runs_reached in Hf; [|done].
  wstep. wstep. destruct r as [[st t]|x]; cbn [map_err].
  2: { right. exists (wrap x). split; [done|left]. by rewrite Hwrap. }
  wstep. eapply runs_mono; [apply streams_spec|]. intros streams w2 Hw2 [Hs _]. eapply runs_reached in Hf; [|done].
  unfold complete_early_failure. wstep. eapply wp_reached; [done|exact I|exact Hf|]. clear Hf. intros version Hf.
  eapply runs_mono; [apply submit_completion_spec|by left].
  - apply ready_sendable, early_ready; [done|not_blank|done].
  - destruct Hr as (Ho & _). cbn. by rewrite Ho.
Qed.

(** ** Reports of a run that started *)
Record outcome_reported (started finished : DateTime) (st : JobState.t) (code : option Z) (error : option rstr)
    (artifacts : list ArtifactMetadata) (outcome : StepsOutcome) (reason : TerminationReason.t) : Prop := {
  or_tree : oc_process_tree_terminated outcome = true;
  or_signal : good_signal (oc_signal outcome);
  or_timeline : ∃ upto,
    timeline WorkerExecutor.default_shell 0 started (job_steps job) (oc_steps outcome) upto ∧ (upto ≤ finished)%Z;
  or_code : code = oc_exit_code outcome;
  or_artifacts : uploads_fine assignment artifacts;
  or_order : (started ≤ finished)%Z;
  or_state :
    st = JobState.Succeeded ∧ error = None ∧ reason = TerminationReason.Exited ∧ outcome_succeeded outcome = true ∧
      Forall clean_step (oc_steps outcome) ∧ length (oc_steps outcome) = length (job_steps job) ∨
    st = JobState.Failed ∧ (∃ x, error = Some x ∧ blank x = false) ∨
    st = JobState.Cancelled ∧ reason ≠ TerminationReason.Exited ∧
      reason ≠ TerminationReason.SourcePreparationFailed ∧ reason ≠ TerminationReason.ExecutionFailed
}.
Lemma started_ready version started finished st code error artifacts source outcome streams reason :
  outcome_reported started finished st code error artifacts outcome reason →
  source_ready (job_source job) (prepared_source_evidence source) →
  RunStreamsEvidence_validate streams = Ok tt →
  ready job worker_os (ca_run_id assignment) (ca_lease_id assignment)
    (started_completion assignment version started st code error artifacts finished
    (execution_from_outcome source outcome streams reason finished)).
Proof.
  intros R Hsource Hstreams. destruct (or_artifacts _ _ _ _ _ _ _ _ R) as (Ha & Hi & Hp).
  assert (JobState.is_terminal st = true) as Hterm.
  { by destruct (or_state _ _ _ _ _ _ _ _ R) as [(-> & _)|[(-> & _)|(-> & _)]]. }
  split; cbn; try done; try apply R.
  - split_and!; [done|by intros ? ? [= <-] [= <-]; apply R|].
    destruct (or_state _ _ _ _ _ _ _ _ R) as [(-> & -> & _ & Hs & _)|[(-> & x & -> & Hx)|(-> & _)]]; [|eauto 6|done].
    split_and!; [done..| |by left]. rewrite (or_code _ _ _ _ _ _ _ _ R). unfold outcome_succeeded in Hs.
    rewrite !andb_true_iff, !bool_decide_eq_true in Hs. by destruct Hs as (((? & _) & _) & _).
  - by rewrite (or_code _ _ _ _ _ _ _ _ R).
  - by left.
  - destruct (or_timeline _ _ _ _ _ _ _ _ R) as (upto & Ht & Hu). rewrite worker_shell in Ht.
    exists started, upto. split_and!; [done..|]. by intros ? [= <-].
  - intros ->. destruct (or_state _ _ _ _ _ _ _ _ R) as [(_ & -> & -> & Hs & Hc & Hl)|[(? & _)|(? & _)]]; [|done..].
    unfold outcome_succeeded in Hs. rewrite !andb_true_iff, !bool_decide_eq_true, negb_true_iff in Hs. naive_solver.
  - intros ->. destruct (or_state _ _ _ _ _ _ _ _ R) as [(? & _)|[(? & _)|(_ & H1' & H2' & H3')]]; [done..|].
    unfold torn. cbn. destruct reason; naive_solver.
Qed.
Lemma submit_started_spec started finished st code error artifacts source outcome streams reason w :
  (onward (w_trace w) → outcome_reported started finished st code error artifacts outcome reason) →
  source_ready (job_source job) (prepared_source_evidence source) →
  RunStreamsEvidence_validate streams = Ok tt → reached (w_trace w) finished →
  WP (complete_after_start session assignment started st code error artifacts finished
        (execution_from_outcome source outcome streams reason finished)) w reported.
Proof.
  intros R Hsource Hstreams Hf. unfold complete_after_start. wstep.
  eapply wp_reached; [done|exact I|exact Hf|]. clear Hf. intros version Hf.
  eapply runs_mono; [apply submit_completion_spec; [|done]|by left].
  split_and!; [done|done|by left|]. intros Hon. apply started_ready; [|done..]. apply R, (onward_record _ _ _ Hon).
Qed.
Lemma outcome_at shell started steps o w finished :
  outcome_fine shell started steps o w → onward (w_trace w) →
  (∀ t, reached (w_trace w) t → (t ≤ finished)%Z) →
  ∃ upto, timeline shell 0 started steps (oc_steps o) upto ∧ (upto ≤ finished)%Z.
Proof. intros Ho Hon Hafter. destruct (of_timeline _ _ _ _ _ Ho) as (upto & Ht & Hr). eauto. Qed.
Lemma outcome_later shell started steps o w w' :
  runs (honest P) w w' → outcome_fine shell started steps o w → outcome_fine shell started steps o w'.
Proof.
  intros Hw []. split; [|done..]. destruct of_timeline as (upto & Ht & ?). exists upto. split.
  - intros Hon. by apply Ht, (onward_runs _ _ _ Hw).
  - by eapply runs_reached.
Qed.
Lemma uploads_none : uploads_fine assignment [].
Proof. split_and!; constructor. Qed.

Section prepared.
Context (prepared : PreparedJob) (started : DateTime) (outcome : StepsOutcome).
Context (Hsource : source_ready (job_source job) (prepared_source_evidence (pd_source prepared))).
Context (Htree : oc_process_tree_terminated outcome = true).
#[local] Abbreviation fine w :=
  (outcome_fine WorkerExecutor.default_shell started (job_steps job) outcome w ∧ reached (w_trace w) started).

(** The report after a clock reading: what it says of times, if the clock ran on. *)
Lemma outcome_now finished w w' st error reason artifacts code :
  fine w → runs (honest P) (record Op.Now finished w) w' →
  (∀ t0, reached (w_trace w) t0 → onward (w_trace (record Op.Now finished w)) → (t0 ≤ finished)%Z) →
  code = oc_exit_code outcome → uploads_fine assignment artifacts →
  st = JobState.Succeeded ∧ error = None ∧ reason = TerminationReason.Exited ∧ outcome_succeeded outcome = true ∧
    Forall clean_step (oc_steps outcome) ∧ length (oc_steps outcome) = length (job_steps job) ∨
  st = JobState.Failed ∧ (∃ x, error = Some x ∧ blank x = false) ∨
  st = JobState.Cancelled ∧ reason ≠ TerminationReason.Exited ∧
    reason ≠ TerminationReason.SourcePreparationFailed ∧ reason ≠ TerminationReason.ExecutionFailed →
  onward (w_trace w') → outcome_reported started finished st code error artifacts outcome reason.
Proof.
  intros [Ho Hstart] Hr Hafter Hcode Ha Hst Hon. apply (onward_runs _ _ _ Hr) in Hon.
  pose proof (onward_record _ _ _ Hon) as Hon'.
  split; [done|apply Ho|eapply outcome_at; [done..|]; intros t Ht; by apply Hafter|done..|by apply Hafter|done].
Qed.

Lemma report_failed_steps_spec w :
  fine w → outcome_succeeded outcome = false →
  WP (report_failed_steps session assignment prepared started outcome) w reported.
Proof.
  intros Hfine Hfail. pose proof (proj1 Hfine) as Ho. unfold report_failed_steps. cbv zeta. wstep. apply wp_now; [done|].
  intros finished Hf Hafter. wstep. eapply runs_mono; [apply streams_spec|]. intros streams w1 Hw1 [Hs _].
  apply submit_started_spec; [|done..|by eapply runs_reached].
  eapply outcome_now; [done..|apply uploads_none|]. right. unfold outcome_cancelled.
  destruct (oc_termination outcome); try (by right); left; (split; [done|]); eexists; (split; [done|]);
    (destruct (oc_error outcome) eqn:E; cbn [unwrap_or]; [by apply (of_error _ _ _ _ _ Ho)|not_blank]).
Qed.
Lemma report_success_spec artifacts w :
  fine w → outcome_succeeded outcome = true → uploads_fine assignment artifacts →
  WP (report_success session assignment prepared started outcome artifacts) w reported.
Proof.
  intros Hfine Hok Ha. pose proof (proj1 Hfine) as Ho. unfold report_success. wstep. apply wp_now; [done|].
  intros finished Hf Hafter. wstep. eapply runs_mono; [apply streams_spec|]. intros streams w1 Hw1 [Hs _].
  apply submit_started_spec; [|done..|by eapply runs_reached].
  destruct (of_success _ _ _ _ _ Ho Hok) as [Hclean Hl].
  eapply outcome_now; [done..| |done|by left].
  unfold outcome_succeeded in Hok. rewrite !andb_true_iff, !bool_decide_eq_true in Hok. naive_solver.
Qed.
Lemma report_failed_upload_spec artifacts e w :
  fine w → outcome_succeeded outcome = true → uploads_fine assignment artifacts →
  WP (report_failed_upload session assignment prepared started outcome artifacts e) w reported.
Proof.
  intros Hfine Hok Ha. unfold report_failed_upload. wstep. apply wp_now; [done|].
  intros finished Hf Hafter. wstep. eapply runs_mono; [apply cancellation_reason_spec|].
  intros cancelled w1 Hw1 Hc. eapply runs_reached in Hf; [|done].
  unfold cancellation_final_state. wstep. wstep. eapply wp_reached; [done|exact I|exact Hf|]. clear Hf. intros value Hf.
  wstep. wstep. eapply runs_mono; [apply streams_spec|]. intros streams w2 Hw2 [Hs _].
  apply submit_started_spec; [|done..|by eapply runs_reached].
  eapply outcome_now; [done| |exact Hafter| |done|].
  - etrans; [exact Hw1|]. etrans; [|exact Hw2]. by apply rtc_once, step_call.
  - unfold outcome_succeeded in Hok. rewrite !andb_true_iff, !bool_decide_eq_true in Hok. naive_solver.
  - right. unfold final_state_of. destruct (_ || _); [right|left; split; [done|eexists; split; [done|not_blank]]].
    split; [done|]. destruct cancelled as [r|]; [destruct (Hc r eq_refl); cbn; by destruct r|by cbn; split_and!].
Qed.
End prepared.

(** ** One assignment *)
Lemma reported_state e w : last_was_state w → reported (Err e) w.
Proof. intros Hw. right. exists e. auto. Qed.
Lemma run_prepared_spec prepared w :
  source_ready (job_source job) (prepared_source_evidence (pd_source prepared)) →
  WP (run_prepared session assignment prepared) w reported.
Proof.
  intros Hsource. unfold run_prepared. wstep. apply wp_now; [done|]. intros started Hst _.
  wstep. eapply runs_mono; [apply transition_spec; by left|]. intros [[]|e] w1 Hw1 Hstate; [|by apply reported_state].
  eapply runs_reached in Hst; [|done].
  wstep. eapply runs_mono; [by apply execute_steps_spec|]. intros outcome w2 Hw2 Ho. eapply runs_reached in Hst; [|done].
  wstep. apply wp_quiet; [by apply write_result_quiet|]. intros ? w3 Hw3. eapply runs_reached in Hst; [|done].
  apply (outcome_later _ _ _ _ _ _ Hw3) in Ho. clear Hw1 Hw2 Hw3.
  destruct (oc_process_tree_terminated outcome) eqn:Htree; cbn [negb].
  2: { wstep. right. eexists. split; [done|by left]. }
  destruct (outcome_succeeded outcome) eqn:Hok; cbn [negb]; [|by apply report_failed_steps_spec].
  wstep. eapply runs_mono; [apply transition_spec; by right|]. intros [[]|e] w4 Hw4 Hstate'; [|by apply reported_state].
  eapply runs_reached in Hst; [|done]. apply (outcome_later _ _ _ _ _ _ Hw4) in Ho.
  wstep. eapply runs_mono; [by apply collect_and_upload_spec|]. intros upload w5 Hw5 Hu.
  eapply runs_reached in Hst; [|done]. apply (outcome_later _ _ _ _ _ _ Hw5) in Ho.
  destruct (au_error upload); [by apply report_failed_upload_spec|by apply report_success_spec].
Qed.
Lemma execute_assignment_spec root w : WP (execute_assignment session root assignment) w reported.
Proof.
  unfold execute_assignment. wstep. eapply runs_mono; [by apply fetch_snapshot_spec|]. intros [archive|e] w1 _ Ha.
  2: { by apply report_source_failure_spec. }
  wstep. eapply runs_mono; [by apply prepare_job_spec|]. intros [prepared|e] w2 _ Hp.
  - by apply run_prepared_spec.
  - by apply report_source_failure_spec.
Qed.
End reporting.

(** ** The theorems *)

(** An environment that keeps the documented behaviour of generated identifiers, of the
    file walk, of process output and of [git --version]. *)
Definition honest_environment (env : Environment) : Prop :=
  ∀ A (o : Op.t A) h, answers_honestly o h (env A o h).
Definition initial_world : World := {| w_sink := HttpLogSink_new; w_trace := [] |}.

Lemma initial_sound : sink_sound initial_world.
Proof. split_and!; [|done..]. by intros []. Qed.
Lemma runs_completions P w w' c :
  runs (honest P) w w' → HttpRequest.Complete c ∈ requests (w_trace w') →
  HttpRequest.Complete c ∈ requests (w_trace w) ∨ ∃ h, h `suffix_of` w_trace w' ∧ P h c.
Proof.
  induction 1 as [|w1 w2 w3 Hs Hrest IH]; [by left|]. intros Hc. destruct (IH Hc) as [Hin|]; [|by right].
  pose proof (runs_suffix _ _ _ Hrest) as Hsuffix.
  destruct Hs as [A o a w Hsay _|s w _]; [|by left]. unfold requests, record in Hin.
  cbn [w_trace omap list_omap] in Hin. destruct (request_of (existT A (o, a))) as [r|] eqn:E; [|by left].
  apply elem_of_cons in Hin as [<-|Hin]; [|by left]. destruct o; try discriminate E. injection E as ->. right. exists (w_trace w). split; [|done]. etrans; [|exact Hsuffix]. by apply suffix_cons_r.
Qed.

Section theorems.
Context `{WireCrates, DigestCrateLaws, UuidCrate, SourceCrates, ExecutorCrates, !EmptyDigest}.
Context (assignment : ClaimAssignment) (root : Path) (env : Environment).
Definition assigned_session (a : ClaimAssignment) : RunSession :=
  {| ses_run_id := ca_run_id a; ses_lease_id := ca_lease_id a |}.
Abbreviation run_assignment := (execute_assignment (assigned_session assignment) root assignment env initial_world).

Lemma run_assignment_spec :
  ClaimAssignment_validate assignment = Ok tt → honest_environment env →
  runs (honest (λ h, acceptable (ca_job_spec assignment) worker_os (ca_run_id assignment) (ca_lease_id assignment)
          (stepped_back h)))
    initial_world run_assignment.2 ∧ reported assignment run_assignment.1 run_assignment.2.
Proof.
  intros Ha Henv. apply ClaimAssignment_validate_Ok in Ha as (_ & Hjob & _).
  exact (execute_assignment_spec assignment (assigned_session assignment) eq_refl eq_refl Hjob env Henv
    root initial_world initial_sound).
Qed.

(** C9. Whatever the processes, files, other tasks and controller answer, as long as
    generated identifiers are fresh and the file walk, the process output and
    [git --version] are as documented, every completion that a worker sends for a valid
    assignment carries its run and lease, passes the worker's validator and the
    controller's check of the source; and it passes the controller's check of the steps,
    unless a cancellation that arrived between the two reads after a failed upload tore
    the outcome, or the wall clock stepped back during the assignment. *)
Theorem worker_completions_acceptable
    (Ha : ClaimAssignment_validate assignment = Ok tt) (Henv : honest_environment env) :
  ∀ c, HttpRequest.Complete c ∈ requests (w_trace run_assignment.2) →
    rc_run_id c = ca_run_id assignment ∧ rc_lease_id c = ca_lease_id assignment ∧
    RunCompletion_validate c = Ok tt ∧
    validate_execution_source (job_source (ca_job_spec assignment)) (rc_final_state c) (rc_execution c) = Ok tt ∧
    (validate_step_evidence (ca_job_spec assignment) worker_os c = Ok tt ∨ torn c ∨
     stepped_back (w_trace run_assignment.2) = true).
Proof.
  intros c Hc. destruct (run_assignment_spec Ha Henv) as [Hrun _].
  destruct (runs_completions _ _ _ c Hrun Hc) as [Hin|(h & Hh & E1 & E2 & E3 & E4 & E5)]; [by apply elem_of_nil in Hin|].
  split_and!; [done..|]. destruct E5 as [?|[?|E5]]; [by left|by right; left|right; right].
  destruct (stepped_back (w_trace run_assignment.2)) eqn:E; [done|]. apply (onward_suffix _ _ Hh) in E. unfold onward in E.
  congruence.
Qed.

(** C10. A worker always reports.  In the same environments, the execution of a valid
    assignment ends with an acknowledgement that answers the last completion sent, or
    with an error after a completion was sent, or without the proof that the process
    tree is empty, or at a state change that was not made; the only other way to end is
    an error when a step's name has a control character or the wall clock stepped back
    during the assignment. *)
Theorem worker_always_reports
    (Ha : ClaimAssignment_validate assignment = Ok tt) (Henv : honest_environment env) :
  match run_assignment with
  | (Ok ack, w) => ∃ c, last_completion w c ∧ acknowledges ack c
  | (Err e, w) => (∃ c, last_completion w c) ∨ ae_root e = ErrorRoot.ContainmentProofLost ∨ last_was_state w ∨
      ¬ plainly_named (ca_job_spec assignment) ∨ stepped_back (w_trace w) = true
  end.
Proof.
  destruct (run_assignment_spec Ha Henv) as [_ Hr]. destruct (execute_assignment _ _ _ _ _) as [[ack|e] w].
  - destruct Hr as [Hr|(e & [=] & _)]. exact Hr.
  - destruct Hr as [[?|[?|Hon]]|(e' & [= <-] & [?|?])]; auto 10.
    right; right; right; right. unfold onward in Hon. cbn in Hon. by destruct (stepped_back (w_trace w)).
Qed.
End theorems.
