(* ===== verification/WorkerScenario.v ===== *)
(** Concrete crates, assignments and environments for the theorems about workers, and
    executions of [execute_assignment] in them.

    The wire format of these crates is a stand-in: an answer lists its fields. *)
From Stdlib Require Import ZArith NArith Lia String.
From stdpp Require Import base option list numbers sets gmap relations.
From S2P Require Import Prelude Text Crates Protocol PortablePath Repository Snapshot RunState JobSpec CanonicalJson WorkerReports WorkerRun Cleanup ControllerDb CompletionEvidence WorkerEnv WorkerClient WorkerProcess WorkerSource WorkerExecutor WorkerRuntime WorkerLogic WorkerLimits WorkerEvidence WorkerHonest WorkerSafety WorkerReporting.
Open Scope rust_scope.

(** ** Crates *)
Module ConcreteWorker.
(** The digest of [Concrete], with the documented value at the empty input. *)
Definition hex_value (c : N) : N := if (c <? 97)%N then c - 48 else c - 87.
Fixpoint unhex (s : rstr) : list N :=
  match s with a :: b :: s => (hex_value a * 16 + hex_value b)%N :: unhex s | _ => [] end.
Definition digest (data : list N) : list N :=
  match data with [] => unhex empty_sha256 | _ => Concrete.toy_digest data end.
#[export] Instance digest_crate : DigestCrate := {| sha256 := digest |}.
#[export] Instance digest_crate_laws : DigestCrateLaws.
Proof.
  split; intros [|b data]; cbn [sha256 digest_crate digest];
    [by vm_compute|apply (@sha256_length _ Concrete.digest_crate_laws)| |apply (@sha256_bytes _ Concrete.digest_crate_laws)].
  apply (bool_decide_unpack _). by vm_compute.
Qed.
#[export] Instance empty_digest_law : EmptyDigest.
Proof. by vm_compute. Qed.

(** An answer of the controller: state version, state, cancellation and run. *)
Definition states : list JobState.t :=
  [JobState.Queued; JobState.Preparing; JobState.Running; JobState.Verifying; JobState.Succeeded;
   JobState.Failed; JobState.Cancelled].
Definition state_code (s : JobState.t) : N :=
  match list_find (λ x, x = s) states with Some (i, _) => N.of_nat i | None => 0 end.
Definition state_body (version : N) (st : JobState.t) (cancel : bool) (run : Uuid) : list N :=
  [version; state_code st; (if cancel then 1 else 0)%N; run].
Definition state_response (data : list N) : result rstr StateUpdateResponse :=
  match data with
  | [version; code; cancel; run] =>
      match states !! N.to_nat code with
      | Some st =>
          Ok {| sur_run :=
                  {| run_id := run; run_job_id := 7%N; run_node_id := None; run_state := st; run_created_at := 0%Z;
                     run_started_at := None; run_finished_at := None; run_exit_code := None; run_error := None;
                     run_placement := None; run_artifact_ids := [] |};
                sur_state_version := version; sur_cancel_requested := (cancel =? 1)%N |}
      | None => Err (lit "state")
      end
  | _ => Err (lit "shape")
  end.
#[export] Instance wire_crates : @WireCrates ConcreteJson.serde_crate := {|
  parse_value _ := None; number_as_u64 _ := None; job_state_from_value _ := None;
  parse_state_response := state_response;
  parse_heartbeat_response _ := Err (lit "unused"); parse_receipt _ := Err (lit "unused");
  parse_artifact _ := Err (lit "unused"); parse_log_response _ := Err (lit "unused");
  parse_rfc3339 _ := Ok 5000%Z
|}.
#[export] Instance source_crates : SourceCrates := {|
  parse_url s := Some {| url_scheme := lit "https"; url_host := Some s; url_username := []; url_password := None;
                         url_fragment := None |};
  to_lowercase := to_ascii_lowercase;
  manifest_json _ _ _ := Ok []; failure_json _ _ _ := Ok []
|}.
#[export] Instance executor_crates : ExecutorCrates := {|
  built_for_macos := false; Glob := rstr; GlobSet := list rstr;
  glob_new := Ok; glob_build := Ok; glob_is_match set name := bool_decide (name ∈ set);
  artifacts_json _ := Ok []; result_json _ _ := Ok []
|}.
End ConcreteWorker.
Import ConcreteWorker.
#[local] Existing Instance ConcreteJson.serde_crate.
#[local] Existing Instance Concrete.uuid_crate.

(** ** An assignment *)
Definition sample_revision : rstr := replicate 40 (chr "b").
(** A job of one step with this name, whose artifacts match these patterns. *)
Definition named_job (name : rstr) (patterns : list rstr) : JobSpec :=
  let job := JobSpec_new 7%N JobKind.Test
    (SourceSpec.Git (lit "https://github.com/example/project") sample_revision) [JobStep_new name (lit "make test")] in
  {| job_api_version := job_api_version job; job_id := job_id job; job_origin := job_origin job;
     job_kind := job_kind job; job_source := job_source job; job_requirements := job_requirements job;
     job_resource_request := job_resource_request job; job_steps := job_steps job;
     job_artifacts := {| art_include := patterns; art_exclude := [lit ".git"]; art_retention_days := art_retention_days (job_artifacts job) |};
     job_timeout_seconds := job_timeout_seconds job; job_placement_policy := job_placement_policy job;
     job_preferred_node_id := job_preferred_node_id job |}.
Definition assignment_of (job : JobSpec) : ClaimAssignment :=
  {| ca_job_id := job_id job; ca_run_id := 12%N;
     ca_job_digest := match canonical_job_digest job with Ok d => d | Err _ => [] end;
     ca_lease_id := 13%N; ca_lease_until := 9000%Z; ca_state_version := 2; ca_job_spec := job;
     ca_workspace := {| ws_relative_root := lit "jobs/12"; ws_source_directory := lit "source";
                        ws_logs_directory := lit "logs"; ws_artifacts_directory := lit "artifacts" |};
     ca_limits := ExecutionLimits_default |}.

(** ** Environments *)

(** The choices of an environment: the answers of the controller, the cancellation seen
    by each load, and the exit code of every process. *)
Record Choices := {
  ch_send : HttpRequest.t → result SendError HttpResponse;
  ch_cancellation : nat → N;
  ch_exit : Z;
  ch_walk : list (result IoError WalkEntry)
}.
Definition is_load (e : event) : bool :=
  let '(existT _ (o, _)) := e in match o with Op.LoadCancellation => true | _ => false end.
Definition loads (h : list event) : nat := length (List.filter is_load h).
Definition plain_metadata : Metadata :=
  {| md_is_dir := true; md_is_file := true; md_is_symlink := false; md_is_reparse := false; md_len := 2 |}.
Definition exited (c : Choices) : SelectEvent.t :=
  SelectEvent.Waited (Ok {| mr_status := {| es_code := Some (ch_exit c); es_signal := None |};
    mr_reason := ProcessTerminationReason.Exited; mr_process_tree_terminated := true; mr_forced_kill := false |}).
Definition git_answer (p : Path) : rstr :=
  if last p == Some (lit "git-version.stdout.log") then lit "git version 2.43.0" else sample_revision.
Definition sample_probe : ProbeReport :=
  {| probe_protocol_version := PROTOCOL_VERSION; probe_agent_version := lit "1.0"; probe_observed_at := 0%Z;
     probe_hostname := lit "worker"; probe_os := OperatingSystem.Linux; probe_arch := Architecture.X86_64;
     probe_capabilities := [];
     probe_resources :=
       {| res_logical_cpu_cores := 8%N; res_available_cpu_cores := 8%N; res_memory_mib := 1024%N;
          res_available_memory_mib := 1024%N; res_disk_mib := 4096%N; res_available_disk_mib := 4096%N; res_gpus := [] |};
     probe_load := {| load_cpu_percent := 0%N; load_queue_depth := 0%N; load_running_jobs := 0%N |} |}.
Definition environment_of (c : Choices) : Environment := λ A o h,
  match o in Op.t A return A with
  | Op.Now => match last_now h with Some t => t + 1 | None => 1000 end
  | Op.Instant => ready_at h
  | Op.Sleep _ | Op.StoreCancellation _ | Op.StoreState _ | Op.KillChild => tt
  | Op.NewUuid => N.succ (foldr N.max 0%N (uuids h))
  | Op.LoadCancellation => ch_cancellation c (loads h)
  | Op.LoadVersion | Op.FetchMaxVersion _ => 2%N
  | Op.LoadTruncated _ => false
  | Op.CreateDirAll _ | Op.CreateDir _ | Op.WriteFile _ _ | Op.CreateNew _ _ | Op.WriteAll _ _ | Op.SyncAll _
  | Op.Rename _ _ | Op.HardLink _ _ | Op.SetPermissions _ _ | Op.RemoveFile _ | Op.RemoveDirAll _ => Ok tt
  | Op.Canonicalize p => Ok p
  | Op.SymlinkMetadata _ | Op.OpenNoFollow _ | Op.OpenLog _ => Ok plain_metadata
  | Op.ReadToString p => Ok (git_answer p)
  | Op.ReadToEnd _ => Ok [111; 107]%N
  | Op.ArchiveEntries _ _ => Ok []
  | Op.CopyEntry _ _ => Ok 0%N
  | Op.Walk _ => ch_walk c
  | Op.HostCheck _ | Op.Spawn _ _ _ | Op.TreeObserve | Op.TreeTerminate | Op.TreeForceKill => Ok tt
  | Op.HostileIsolationEnabled => Ok false
  | Op.LaunchSpec program arguments _ _ => Ok {| la_program := program; la_arguments := arguments; la_manages_cwd := false |}
  | Op.Select => [exited c; SelectEvent.ChannelClosed]
  | Op.JoinReader _ => Ok {| rd_bytes := 0; rd_sha256 := empty_sha256; rd_truncated := false; rd_chunks := 0 |}
  | Op.TryWait => Ok (Some {| es_code := Some (ch_exit c); es_signal := None |})
  | Op.TreeIsEmpty => Ok true
  | Op.CompareExchangeCancellation _ _ | Op.StoreLeaseUntil _ => tt
  | Op.LoadState => JobState.Running
  | Op.LoadLeaseUntil => 9000
  | Op.LoadLastLogSequence => None
  | Op.SleepOrStop _ => true
  | Op.StopRequested => false
  | Op.Probe _ => sample_probe
  | Op.Sample _ => Err (anyhow (lit "unused"))
  | Op.SyncDirectory _ => Ok tt
  | Op.LockFile _ | Op.WriteProtected _ _ | Op.ReplaceProtected _ _ | Op.RemoveProtected _ | Op.OpenRead _ => Ok tt
  | Op.FileLength _ => Ok 64%N
  | Op.CurrentDir => Ok []
  | Op.Send request => ch_send c request
  end%Z.

Lemma fresh_uuid l : N.succ (foldr N.max 0%N l) ∉ l.
Proof.
  enough (∀ x, x ∈ l → (x ≤ foldr N.max 0 l)%N) as Hmax by (intros Hin%Hmax; lia).
  induction l as [|y l IH]; intros x; [by intros ?%elem_of_nil|].
  intros [->|Hin]%elem_of_cons; cbn; [lia|]. specialize (IH x Hin). lia.
Qed.
Lemma environment_honest c : walk_ok (ch_walk c) → honest_environment (environment_of c).
Proof.
  intros Hwalk A o h. destruct o; cbn; try done.
  - apply fresh_uuid.
  - intros Hp s [= <-] _. unfold git_answer. rewrite bool_decide_eq_true_2 by done. by split_and!; vm_compute.
  - split; [|intros Hh; change (received h + 0 ≤ u64_max)%N; lia]. by repeat constructor.
Qed.

Lemma environment_steady c : steady_clock (environment_of c).
Proof. intros A o h. destruct o; cbn; first [exact I|reflexivity]. Qed.

(** A controller that makes every change, and one that cannot be reached. *)
Definition headers (name : rstr) : option rstr :=
  if name == COMPLETION_SHA256_HEADER then Some (replicate 64 (chr "a"))
  else if name == COMPLETION_ACKNOWLEDGED_AT_HEADER then Some [] else None.
Definition state_reply (version : N) (st : JobState.t) (run : Uuid) : result SendError HttpResponse :=
  Ok {| hr_status := 200; hr_content_type := Some (lit "application/json"); hr_content_length := None;
        hr_header := headers; hr_opaque_header := λ _, false; hr_chunks := [Ok (state_body version st false run)] |}.
Definition agreeable (request : HttpRequest.t) : result SendError HttpResponse :=
  match request with
  | HttpRequest.State u => state_reply (su_expected_version u + 1) (su_next_state u) (su_run_id u)
  | HttpRequest.Complete c => state_reply (rc_expected_version c + 1) (rc_final_state c) (rc_run_id c)
  | _ => Err (NotBuilt (lit "unused"))
  end.
Definition cooperative : Choices :=
  {| ch_send := agreeable; ch_cancellation := λ _, CANCEL_NONE; ch_exit := 0; ch_walk := [] |}.
Definition sample_assignment : ClaimAssignment := assignment_of (named_job (lit "test") []).
Definition sample_root : Path := [lit "var"; lit "cyc"].
Definition outcome_of (choices : Choices) (assignment : ClaimAssignment) : result AnyError TerminalCompletionAckV1 * World :=
  execute_assignment (assigned_session assignment) sample_root assignment (environment_of choices) initial_world.
Example sample_assignment_valid : ClaimAssignment_validate sample_assignment = Ok tt.
Proof. by vm_compute. Qed.
Example cooperative_run_succeeds :
  match outcome_of cooperative sample_assignment with
  | (Ok ack, w) => ack_final_state ack = JobState.Succeeded ∧ length (requests (w_trace w)) = 3
  | _ => False
  end.
Proof. vm_compute. done. Qed.

(** ** Witnesses *)
Lemma cooperative_honest : honest_environment (environment_of cooperative).
Proof. apply environment_honest. split; constructor. Qed.
Definition sent_completions (w : World) : list RunCompletion :=
  omap (λ r, match r with HttpRequest.Complete c => Some c | _ => None end) (requests (w_trace w)).
Lemma sent_completions_requests w c : c ∈ sent_completions w → HttpRequest.Complete c ∈ requests (w_trace w).
Proof. intros (r & Hr & E)%list_elem_of_omap. destruct r; try discriminate E. by injection E as ->. Qed.
Lemma worker_completions_acceptable_witness :
  Forall (λ c, RunCompletion_validate c = Ok tt) (sent_completions
    (execute_assignment (assigned_session sample_assignment) sample_root sample_assignment
       (environment_of cooperative) initial_world).2).
Proof.
  apply Forall_forall. intros c Hc%sent_completions_requests.
  eapply (worker_completions_acceptable sample_assignment sample_root (environment_of cooperative));
    [exact sample_assignment_valid|exact cooperative_honest|exact Hc].
Defined.
Lemma worker_always_reports_witness :
  match execute_assignment (assigned_session sample_assignment) sample_root sample_assignment
          (environment_of cooperative) initial_world with
  | (Ok ack, w) => ∃ c, last_completion w c ∧ acknowledges ack c
  | (Err e, w) => (∃ c, last_completion w c) ∨ ae_root e = ErrorRoot.ContainmentProofLost ∨ last_was_state w ∨
      ¬ plainly_named (ca_job_spec sample_assignment) ∨ stepped_back (w_trace w) = true
  end.
Proof.
  apply (worker_always_reports sample_assignment sample_root (environment_of cooperative));
    [exact sample_assignment_valid|exact cooperative_honest].
Defined.

Lemma monitor_child_terminates_witness :
  match monitor_child 200 (millis 1000) (environment_of cooperative) initial_world with
  | (Some (Ok _), w) => seen_empty (w_trace w) = true
  | (Some (Err _), _) => True
  | (None, _) => False
  end.
Proof.
  pose proof (monitor_child_terminates (environment_of cooperative) 200 50 (millis 1000) initial_world
    (environment_steady cooperative) ltac:(by vm_compute) ltac:(unfold turn_fuel; lia)) as Ht.
  destruct (monitor_child _ _ _ _) as [[[m|e]|] w]; exact Ht.
Defined.

(** ** Where a run is not reported *)

(** Artifacts cannot be walked, and the user cancels between the second and the third
    time the worker reads the cancellation. *)
Definition cancelled_late : Choices :=
  {| ch_send := agreeable; ch_cancellation := λ n, if (n <? 2)%nat then CANCEL_NONE else CANCEL_REQUESTED;
     ch_exit := 0; ch_walk := [Err {| io_not_found := true; io_text := lit "walk" |}] |}.
Definition collecting_assignment : ClaimAssignment := assignment_of (named_job (lit "test") [lit "out/*"]).

(** A whole run of the race of [Failures.late_cancellation_refused]: the worker sends the
    torn completion, its own validator accepts it and the controller's check refuses it. *)
Example late_cancellation_run :
  honest_environment (environment_of cancelled_late) ∧
  ClaimAssignment_validate collecting_assignment = Ok tt ∧
  match sent_completions (outcome_of cancelled_late collecting_assignment).2 with
  | [c] =>
      rc_final_state c = JobState.Cancelled ∧
      te_reason (xe_termination (rc_execution c)) = TerminationReason.ArtifactVerificationFailed ∧
      RunCompletion_validate c = Ok tt ∧
      validate_step_evidence (ca_job_spec collecting_assignment) worker_os c = Err StoreError.InvalidRunEvidence
  | _ => False
  end.
Proof.
  split_and!; [apply environment_honest; split; constructor|by vm_compute|].
  by vm_compute.
Qed.

Definition tabbed_assignment : ClaimAssignment := assignment_of (named_job [chr "a"; 9%N] []).

(** A whole run of a job whose step name has a control character: the validators of the
    job and of the assignment accept it, every process succeeds and the controller agrees
    to every change, but no completion is sent. *)
Example control_name_run :
  honest_environment (environment_of cooperative) ∧
  ClaimAssignment_validate tabbed_assignment = Ok tt ∧
  is_ok (outcome_of cooperative tabbed_assignment).1 = false ∧
  sent_completions (outcome_of cooperative tabbed_assignment).2 = [] ∧
  is_ok (outcome_of cooperative sample_assignment).1 = true.
Proof. split_and!; [exact cooperative_honest|by vm_compute..]. Qed.
