(* ===== verification/WorkerConfined.v ===== *)
(** What an assignment cannot do: the frame of [execute_assignment].

    While an assignment runs, the worker addresses only that run, never claims, and
    removes or moves only files whose names mark them as its own temporaries.  So an
    assignment leaves the marker of its guard alone. *)
From Stdlib Require Import ZArith NArith Lia String.
From stdpp Require Import base option list numbers sets gmap relations.
From S2P Require Import Prelude Text Crates Protocol RunState JobSpec CanonicalJson NodeState WorkerReports WorkerRun Cleanup Onboarding ControllerDb WorkerEnv WorkerClient WorkerProcess WorkerSource WorkerExecutor WorkerRuntime WorkerNode WorkerIdentity WorkerSupervisor WorkerLogic.
Open Scope rust_scope.

(** ** The marker in a history *)

(** The marker is certainly there: it was linked, and since then nothing was called that
    may have removed or moved it. *)
Definition held_after (marker : Path) (e : event) (before : bool) : bool :=
  let '(existT _ (o, a)) := e in
  match o in Op.t A return A → bool with
  | Op.HardLink _ to => λ r, before || (is_ok r && (to == marker))
  | Op.RemoveFile p => λ _, before && (p != marker)
  | Op.Rename p _ | Op.RemoveDirAll p => λ _, before && negb (path_starts_with marker p)
  | _ => λ _, before
  end a.
Fixpoint held (marker : Path) (h : list event) : bool :=
  match h with [] => false | e :: h => held_after marker e (held marker h) end.
(** A file that was linked and neither removed nor moved is found. *)
Definition persists (marker : Path) A (o : Op.t A) (h : list event) : A → Prop :=
  match o in Op.t A return A → Prop with
  | Op.SymlinkMetadata p => λ r, p = marker → held marker h = true →
      match r with Ok _ => True | Err e => io_not_found e = false end
  | _ => λ _, True
  end.

(** The run that a request is about. *)
Definition addressed (request : HttpRequest.t) : option Uuid :=
  match request with
  | HttpRequest.State u => Some (su_run_id u)
  | HttpRequest.Complete c => Some (rc_run_id c)
  | HttpRequest.Heartbeat h => Some (hb_run_id h)
  | HttpRequest.Log s _ _ _ _ | HttpRequest.Artifact s _ _ _ _ | HttpRequest.Source s _ => Some (ses_run_id s)
  | HttpRequest.Cleanup _ | HttpRequest.Claim _ | HttpRequest.NodeReport _ | HttpRequest.Pair _ _
  | HttpRequest.PairAck _ => None
  end.

(** ** The discipline *)
Definition temporary_name (name : rstr) : bool :=
  ends_with (lit ".tmp") name || starts_with (lit ".snapshot-extract-") name.
Definition temporary_path (p : Path) : Prop := is_some_and (last p) temporary_name = true.
Definition confined_op (run : Uuid) A (o : Op.t A) (h : list event) : Prop :=
  match o with
  | Op.Send request => addressed request = Some run
  | Op.RemoveFile p | Op.RemoveDirAll p | Op.Rename p _ => temporary_path p
  | _ => True
  end.
Definition confined (marker : Path) (run : Uuid) : Discipline :=
  {| obligation := confined_op run; assumption := persists marker; invariant := λ _, True;
     invariant_call := λ _ _ _ _ _ _, I |}.

Lemma strip_prefix_app p s : strip_prefix p (p ++ s) = Some s.
Proof. induction p as [|c p IH]; cbn; [done|]. by rewrite N.eqb_refl. Qed.
Lemma starts_with_app p s : starts_with p (p ++ s) = true.
Proof. unfold starts_with. by rewrite strip_prefix_app. Qed.
Lemma ends_with_app s p : ends_with p (s ++ p) = true.
Proof. unfold ends_with. rewrite rev_app_distr. apply starts_with_app. Qed.
Lemma tmp_path parent name : temporary_path (path_join parent (name ++ lit ".tmp")).
Proof. unfold temporary_path, path_join, temporary_name. rewrite last_snoc. cbn. by rewrite ends_with_app. Qed.
Lemma json_tmp_path parent name : temporary_path (path_join parent (name ++ lit ".json.tmp")).
Proof. change (lit ".json.tmp") with (lit ".json" ++ lit ".tmp"). rewrite app_assoc. apply tmp_path. Qed.
Lemma manifest_tmp_path parent : temporary_path (path_join parent (lit "manifest.json.tmp")).
Proof. apply (tmp_path parent (lit "manifest.json")). Qed.
Lemma snapshot_file_path parent id : temporary_path (path_join parent (lit ".snapshot-file-" ++ id ++ lit ".tmp")).
Proof. rewrite app_assoc. apply tmp_path. Qed.
Lemma staging_path parent id : temporary_path (path_join parent (lit ".snapshot-extract-" ++ id)).
Proof.
  unfold temporary_path, path_join, temporary_name. rewrite last_snoc. cbn. by rewrite starts_with_app, orb_true_r.
Qed.
Lemma owned_staging_path p : is_some_and (last p) (starts_with (lit ".snapshot-extract-")) = true → temporary_path p.
Proof.
  unfold temporary_path, temporary_name. destruct (last p) as [n|]; cbn; [|done]. intros ->. by rewrite orb_true_r.
Qed.
Create HintDb temporary.
#[export] Hint Resolve json_tmp_path manifest_tmp_path snapshot_file_path staging_path owned_staging_path : temporary.

(** ** Confined computations *)
Definition keeps (marker : Path) (run : Uuid) (env : Environment) {A} (m : io A) : Prop :=
  ∀ w, wp (confined marker run) env m w (λ _ _, True).
Create HintDb confined.
Lemma wp_keeps marker run env {A} (m : io A) w (Q : A → World → Prop) :
  keeps marker run env m → (∀ a w', Q a w') → wp (confined marker run) env m w Q.
Proof. intros Hm HQ. eapply runs_mono; [apply Hm|]. auto. Qed.
Lemma wp_confined_op marker run env {A} (o : Op.t A) w (Q : A → World → Prop) :
  obeys (confined marker run) env → confined_op run A o (w_trace w) → (∀ a w', Q a w') →
  wp (confined marker run) env (call o) w Q.
Proof. intros Henv Ho HQ. apply (wp_call _ _ Henv); [exact Ho|]. auto. Qed.
Lemma wp_sink marker run env s w (Q : unit → World → Prop) :
  Q tt (with_sink s w) → wp (confined marker run) env (put_sink s) w Q.
Proof. intros HQ. by apply wp_put_sink. Qed.
Lemma unbound session a b :
  verify_binding session a b = Ok tt → a = ses_run_id session ∧ b = ses_lease_id session.
Proof.
  unfold verify_binding. intros H. apply reject_if_Ok, orb_false_iff in H as [Ha Hb].
  split; by apply negb_bool_decide_false.
Qed.

(** One step; the obligation of an operation is trivial, a request to the run, or the
    removal of a temporary. *)
Ltac lawful_op :=
  first [exact I | solve [cbn [obligation confined confined_op]; eauto with temporary] | cbn; congruence].
Ltac cstep :=
  lazymatch goal with
  | |- wp _ _ (mbind _ _) _ _ => apply runs_bind
  | |- wp _ _ (try_bind _ _) _ _ => apply wp_try
  | |- wp _ _ (mret _) _ _ => apply runs_ret
  | |- wp _ _ (done_ok _) _ _ => apply wp_done
  | |- wp _ _ (fail _) _ _ => apply wp_fail
  | |- wp _ _ (bail _) _ _ => apply wp_fail
  | |- wp _ _ (pure _) _ _ => apply wp_pure
  | |- wp _ _ (bail_if _ _) _ _ => apply wp_bail_if; intros ?
  | |- wp _ _ (call_io _ _) _ _ => apply wp_call_io; [eassumption|lawful_op|intros ? ?|intros ?]
  | |- wp _ _ (call_any _ _) _ _ => apply wp_call_any; [eassumption|lawful_op|intros ? ?|intros ?]
  | |- wp _ _ (call _) _ _ => apply wp_confined_op; [eassumption|lawful_op|intros ? ?]
  | |- wp _ _ get_sink _ _ => apply wp_get_sink
  | |- wp _ _ (put_sink _) _ _ => apply wp_sink
  | |- wp _ _ (match ?x with _ => _ end) _ _ => destruct x eqn:?
  | |- wp _ _ ?m _ _ => apply wp_keeps; [solve [auto with confined]|intros ? ?]
  | |- match ?x with Ok _ => _ | Err _ => _ end => destruct x eqn:?
  | |- True => exact I
  end.
Ltac cnorm := cbv beta zeta; cbn [map_err context fst snd].
Ltac csteps := repeat (cstep; cnorm).
Tactic Notation "confine" reference(f) := intros w; unfold f; cnorm; csteps.

Section client.
Context `{WireCrates, DigestCrate, UuidCrate}.
Context (marker : Path) (run : Uuid) (env : Environment) (Henv : obeys (confined marker run) env).
Context (session : RunSession) (Hrun : ses_run_id session = run).
#[local] Abbreviation keeps := (keeps marker run env).

Lemma retry_from_keeps {A} (once : io (result AnyError A)) more attempt :
  keeps once → keeps (retry_from attempt more once).
Proof.
  intros Honce. revert attempt. induction more as [|n IH]; intros attempt w; cbn [retry_from]; csteps.
Qed.
Lemma with_retries_keeps {A} (once : io (result AnyError A)) : keeps once → keeps (with_retries once).
Proof. apply retry_from_keeps. Qed.
Lemma send_keeps message request : addressed request = Some run → keeps (send message request).
Proof. intros Ha. confine send. Qed.
#[local] Hint Resolve with_retries_keeps : confined.
#[local] Hint Extern 3 (WorkerConfined.keeps _ _ _ (send _ _)) => apply send_keeps; cbn; congruence : confined.
Lemma state_keeps update : keeps (state session update).
Proof.
  intros w. unfold state. cstep. cstep.
  destruct (verify_binding _ _ _) as [[]|] eqn:E; [|exact I]. apply unbound in E as [Hr _]. csteps.
Qed.
Lemma complete_keeps completion : keeps (complete session completion).
Proof.
  intros w. unfold complete. cstep. cstep.
  destruct (verify_binding _ _ _) as [[]|] eqn:E; [|exact I]. apply unbound in E as [Hr _]. csteps.
Qed.
Lemma upload_log_keeps stream offset data : keeps (upload_log session stream offset data).
Proof.
  intros w. unfold upload_log. csteps. apply with_retries_keeps. intros ?. csteps.
Qed.
Lemma read_regular_file_keeps path max : keeps (read_regular_file_no_follow path max).
Proof. confine read_regular_file_no_follow. Qed.
#[local] Hint Resolve upload_log_keeps read_regular_file_keeps : confined.
Lemma upload_artifact_keeps artifact : keeps (upload_artifact session artifact).
Proof. intros w. unfold upload_artifact. csteps. apply with_retries_keeps. intros ?. csteps. Qed.
Lemma download_once_keeps digest size : keeps (download_snapshot_once session digest size).
Proof. confine download_snapshot_once. Qed.
#[local] Hint Resolve download_once_keeps : confined.
Lemma download_snapshot_keeps digest size : keeps (download_snapshot session digest size).
Proof. confine download_snapshot. Qed.
Lemma upload_keeps chunk : keeps (upload session chunk).
Proof. confine upload. Qed.
Lemma streams_keeps : keeps streams.
Proof. intros w. unfold streams, stream_evidence. csteps. Qed.
#[local] Hint Resolve upload_keeps : confined.

(** ** Managed processes *)
Lemma pump_keeps events wait_result upload_error : keeps (pump session events wait_result upload_error).
Proof.
  revert wait_result upload_error. induction events as [|[[m|e]|chunk|] events IH]; intros wr ue w; cbn [pump]; csteps.
Qed.
#[local] Hint Resolve pump_keeps : confined.
Lemma run_process_keeps request : keeps (run_process session request).
Proof.
  intros w. unfold run_process, or_empty, or_unconfirmed, open_log_file_no_follow, create_log_parent. csteps.
Qed.
End client.

(** ** The source *)
Section source.
Context `{WireCrates, DigestCrate, UuidCrate, SourceCrates}.
Context (marker : Path) (run : Uuid) (env : Environment) (Henv : obeys (confined marker run) env).
Context (session : RunSession) (Hrun : ses_run_id session = run).
#[local] Abbreviation keeps := (keeps marker run env).
#[local] Hint Resolve run_process_keeps download_snapshot_keeps : confined.

Lemma path_entry_exists_keeps path : keeps (path_entry_exists path).
Proof. confine path_entry_exists. Qed.
Lemma require_direct_directory_keeps path : keeps (require_direct_directory path).
Proof. confine require_direct_directory. Qed.
Lemma directory_permissions_keeps path : keeps (set_snapshot_directory_permissions path).
Proof. confine set_snapshot_directory_permissions. Qed.
Lemma file_permissions_keeps path : keeps (set_snapshot_file_permissions path).
Proof. confine set_snapshot_file_permissions. Qed.
#[local] Hint Resolve path_entry_exists_keeps require_direct_directory_keeps directory_permissions_keeps
  file_permissions_keeps : confined.
Lemma ensure_parents_keeps segments destination : keeps (ensure_parents destination segments).
Proof.
  revert destination. induction segments as [|segment rest IH]; intros destination w; cbn [ensure_parents]; csteps;
    apply IH.
Qed.
#[local] Hint Resolve ensure_parents_keeps : confined.
Lemma ensure_snapshot_parents_keeps root portable : keeps (ensure_snapshot_parents root portable).
Proof. confine ensure_snapshot_parents. Qed.
#[local] Hint Resolve ensure_snapshot_parents_keeps : confined.
Lemma create_snapshot_directory_keeps root portable : keeps (create_snapshot_directory root portable).
Proof. confine create_snapshot_directory. Qed.
Lemma install_snapshot_file_keeps root portable index size : keeps (install_snapshot_file root portable index size).
Proof. confine install_snapshot_file. Qed.
#[local] Hint Resolve create_snapshot_directory_keeps install_snapshot_file_keeps : confined.
Lemma extract_entry_keeps staging x entry : keeps (extract_entry staging x entry).
Proof. confine extract_entry. Qed.
#[local] Hint Resolve extract_entry_keeps : confined.
Lemma extract_entries_keeps staging entries x : keeps (extract_entries staging x entries).
Proof. revert x. induction entries as [|entry entries IH]; intros x w; cbn [extract_entries]; csteps. Qed.
Lemma remove_owned_keeps parent staging : keeps (remove_owned_snapshot_staging parent staging).
Proof.
  intros w. unfold remove_owned_snapshot_staging. cbv zeta.
  destruct (is_some_and (last staging) _) eqn:E; cbn [andb]; csteps.
Qed.
#[local] Hint Resolve extract_entries_keeps remove_owned_keeps : confined.
Lemma extract_snapshot_archive_keeps digest size data destination :
  keeps (extract_snapshot_archive digest size data destination).
Proof. confine extract_snapshot_archive. Qed.
Lemma write_json_atomic_keeps directory name json : keeps (write_json_atomic directory name json).
Proof. confine write_json_atomic. Qed.
Lemma create_job_directories_keeps root directories : keeps (create_job_directories root directories).
Proof. induction directories as [|d directories IH]; intros w; cbn [create_job_directories]; csteps. Qed.
#[local] Hint Resolve write_json_atomic_keeps create_job_directories_keeps extract_snapshot_archive_keeps : confined.
Lemma create_job_root_keeps root spec workspace : keeps (create_job_root root spec workspace).
Proof. confine create_job_root. Qed.
Lemma or_source_keeps {A} (m : io (result AnyError A)) : keeps m → keeps (or_source m).
Proof. intros Hm. confine or_source. Qed.
#[local] Hint Resolve create_job_root_keeps or_source_keeps : confined.
Lemma run_git_keeps repository logs label arguments hooks fixture :
  keeps (run_git session repository logs label arguments hooks fixture).
Proof. intros w. unfold run_git, or_source. csteps. Qed.
Lemma read_single_line_keeps path : keeps (read_single_line path).
Proof. confine read_single_line. Qed.
#[local] Hint Resolve run_git_keeps read_single_line_keeps : confined.
Lemma checkout_git_keeps remote revision repository logs : keeps (checkout_git session remote revision repository logs).
Proof. intros w. unfold checkout_git, or_source. cnorm. csteps. Qed.
#[local] Hint Resolve checkout_git_keeps : confined.
Lemma prepare_source_keeps spec archive repository logs : keeps (prepare_source session spec archive repository logs).
Proof. intros w. unfold prepare_source, or_source. csteps. Qed.
#[local] Hint Resolve prepare_source_keeps : confined.
Lemma prepare_job_keeps root job run_id spec workspace archive :
  keeps (prepare_job session root job run_id spec workspace archive).
Proof. intros w. unfold prepare_job, write_failure_result. csteps. Qed.
Lemma fetch_snapshot_keeps assignment : keeps (fetch_snapshot session assignment).
Proof. intros w. unfold fetch_snapshot. csteps. Qed.
End source.

(** ** Steps, artifacts and reports *)
Section runtime.
Context `{WireCrates, DigestCrate, UuidCrate, SourceCrates, ExecutorCrates}.
Context (marker : Path) (run : Uuid) (env : Environment) (Henv : obeys (confined marker run) env).
Context (session : RunSession) (Hrun : ses_run_id session = run).
#[local] Abbreviation keeps := (keeps marker run env).
#[local] Hint Resolve run_process_keeps prepare_job_keeps fetch_snapshot_keeps write_json_atomic_keeps state_keeps
  complete_keeps streams_keeps upload_artifact_keeps read_regular_file_keeps : confined.

Lemma write_native_script_keeps scripts index shell script : keeps (write_native_script scripts index shell script).
Proof. confine write_native_script. Qed.
Lemma safe_working_directory_keeps repository relative : keeps (safe_working_directory repository relative).
Proof. confine safe_working_directory. Qed.
#[local] Hint Resolve write_native_script_keeps safe_working_directory_keeps : confined.
Lemma prepare_command_keeps prepared index shell step : keeps (prepare_command prepared index shell step).
Proof. confine prepare_command. Qed.
#[local] Hint Resolve prepare_command_keeps : confined.
Lemma finish_outcome_keeps t steps code termination p f signal error :
  keeps (finish_outcome t steps code termination p f signal error).
Proof. confine finish_outcome. Qed.
Lemma step_evidence_keeps index step shell t code termination :
  keeps (step_evidence index step shell t code termination).
Proof. confine step_evidence. Qed.
Lemma cancellation_termination_keeps : keeps cancellation_termination.
Proof. intros w. unfold cancellation_termination. csteps. Qed.
#[local] Hint Resolve finish_outcome_keeps step_evidence_keeps cancellation_termination_keeps : confined.
Lemma execute_from_keeps prepared t deadline steps index evidence :
  keeps (execute_from session prepared t deadline index steps evidence).
Proof.
  revert index evidence. induction steps as [|step steps IH]; intros index evidence w; cbn [execute_from]; csteps.
Qed.
#[local] Hint Resolve execute_from_keeps : confined.
Lemma execute_steps_keeps prepared spec max : keeps (execute_steps session prepared spec max).
Proof. confine execute_steps. Qed.
Lemma collect_entry_keeps root includes excludes entry : keeps (collect_entry root includes excludes entry).
Proof. intros w. unfold collect_entry, hash_regular_file_no_follow. csteps. Qed.
#[local] Hint Resolve collect_entry_keeps : confined.
Lemma collect_entries_keeps root includes excludes entries artifacts :
  keeps (collect_entries root includes excludes artifacts entries).
Proof. revert artifacts. induction entries as [|e entries IH]; intros artifacts w; cbn [collect_entries]; csteps. Qed.
Lemma write_artifact_manifest_keeps prepared artifacts : keeps (write_artifact_manifest prepared artifacts).
Proof. confine write_artifact_manifest. Qed.
#[local] Hint Resolve collect_entries_keeps write_artifact_manifest_keeps : confined.
Lemma collect_artifacts_keeps prepared specification : keeps (collect_artifacts prepared specification).
Proof. confine collect_artifacts. Qed.
Lemma upload_artifacts_keeps assignment artifacts uploaded :
  keeps (upload_artifacts session assignment uploaded artifacts).
Proof.
  revert uploaded. induction artifacts as [|a artifacts IH]; intros uploaded w; cbn [upload_artifacts];
    unfold artifact_metadata; csteps.
Qed.
#[local] Hint Resolve collect_artifacts_keeps upload_artifacts_keeps execute_steps_keeps : confined.
Lemma collect_and_upload_keeps prepared assignment : keeps (collect_and_upload session prepared assignment).
Proof. confine collect_and_upload. Qed.

Lemma apply_state_version_keeps version st : keeps (apply_state_version version st).
Proof. confine apply_state_version. Qed.
#[local] Hint Resolve apply_state_version_keeps : confined.
Lemma apply_version_conflict_keeps conflict : keeps (apply_version_conflict conflict).
Proof. intros w. unfold apply_version_conflict, publish_version. csteps. Qed.
Lemma pause_keeps more : keeps (pause more).
Proof. confine pause. Qed.
#[local] Hint Resolve apply_version_conflict_keeps pause_keeps : confined.
Lemma transition_keeps assignment next evidence : keeps (transition session assignment next evidence).
Proof.
  unfold transition. generalize 3 as attempts. induction attempts as [|more IH]; intros w; cbn [transition_loop]; csteps.
Qed.
Lemma submit_loop_keeps attempts pending : keeps (submit_loop session pending attempts).
Proof.
  revert pending. induction attempts as [|more IH]; intros pending w; cbn [submit_loop]; csteps.
Qed.
#[local] Hint Resolve submit_loop_keeps : confined.
Lemma submit_completion_keeps completion : keeps (submit_completion session completion).
Proof. confine submit_completion. Qed.
#[local] Hint Resolve submit_completion_keeps transition_keeps collect_and_upload_keeps : confined.
Lemma report_source_failure_keeps assignment e wrap : keeps (report_source_failure session assignment e wrap).
Proof.
  intros w. unfold report_source_failure, source_failure_termination, cancellation_termination_reason,
    complete_early_failure. csteps.
Qed.
#[local] Hint Resolve report_source_failure_keeps : confined.
Lemma run_prepared_keeps assignment prepared : keeps (run_prepared session assignment prepared).
Proof.
  intros w. unfold run_prepared, write_result, report_failed_steps, report_success, report_failed_upload,
    complete_after_start, cancellation_termination_reason, cancellation_final_state. csteps.
Qed.
#[local] Hint Resolve run_prepared_keeps : confined.
Lemma execute_assignment_keeps root assignment : keeps (execute_assignment session root assignment).
Proof. confine execute_assignment. Qed.
End runtime.
