(* ===== verification/WorkerClaims.v ===== *)
(** Claims across crashes: what the active-run guard achieves.

    The daemon may be stopped at any operation and started again on the same machine, any
    number of times.  Whenever it claims, every run that it addressed before has had its
    cleanup receipt accepted, and no process was started since the last such receipt;
    processes and run requests happen only while the marker is there; and a receipt says
    what was seen of the job's directory. *)
From Stdlib Require Import ZArith NArith Lia String.
From stdpp Require Import base option list numbers sets gmap relations.
From S2P Require Import Prelude Text Crates Protocol RunState JobSpec CanonicalJson NodeState WorkerReports WorkerRun Cleanup Onboarding ControllerDb WorkerEnv WorkerClient WorkerProcess WorkerSource WorkerExecutor WorkerRuntime WorkerNode WorkerIdentity WorkerSupervisor WorkerLogic WorkerConfined.
Open Scope rust_scope.

Section claims.
Context `{WireCrates, DigestCrate, UuidCrate, SourceCrates, ExecutorCrates, NodeWireCrates, IdentityCrates, DaemonCrates}.

(** ** What a history leaves open *)
Definition accepts (answer : result SendError HttpResponse) (receipt : CleanupReceiptV1) : bool :=
  match answer with
  | Ok response =>
      match decode_json parse_receipt response with Ok stored => stored == receipt | Err _ => false end
  | Err _ => false
  end.
(** The runs that were addressed and not cleaned up. *)
Definition open_after (e : event) (s : gset Uuid) : gset Uuid :=
  let '(existT _ (o, a)) := e in
  match o in Op.t A return A → gset Uuid with
  | Op.Send (HttpRequest.Cleanup receipt) => λ answer,
      if accepts answer receipt then s ∖ {[cl_run_id receipt]} else s
  | Op.Send request => λ _, match addressed request with Some run => {[run]} ∪ s | None => s end
  | _ => λ _, s
  end a.
Definition open_runs (h : list event) : gset Uuid := foldr open_after ∅ h.
(** A process was started since the last accepted receipt. *)
Definition started_after (e : event) (before : bool) : bool :=
  let '(existT _ (o, a)) := e in
  match o in Op.t A return A → bool with
  | Op.Spawn _ _ _ => λ _, true
  | Op.Send (HttpRequest.Cleanup receipt) => λ answer, before && negb (accepts answer receipt)
  | _ => λ _, before
  end a.
Definition started (h : list event) : bool := foldr started_after false h.
Definition settled (h : list event) : Prop := open_runs h = ∅ ∧ started h = false.

(** ** What is seen of a job's directory

    The events since the last completion request. *)
Definition is_completion (e : event) : bool :=
  let '(existT _ (o, _)) := e in
  match o with Op.Send (HttpRequest.Complete _) => true | _ => false end.
Fixpoint recent (h : list event) : list event :=
  match h with [] => [] | e :: h => if is_completion e then [] else e :: recent h end.
Definition sees (l : list event) (h : list event) : Prop := l `sublist_of` recent h.
Definition absent (p : Path) (e : IoError) : event := existT _ (Op.SymlinkMetadata p, Err e).
(** The directory was moved away and gone, and what it was moved to was removed and gone. *)
Definition removal_seen (target : Path) (h : list event) : Prop :=
  ∃ q e1 e2 e3, io_not_found e1 = true ∧ io_not_found e2 = true ∧ io_not_found e3 = true ∧
    sees [absent target e3; absent q e2; existT _ (Op.RemoveDirAll q, Ok tt); absent target e1;
          existT _ (Op.Rename target q, Ok tt)] h.
Definition absence_seen (p : Path) (h : list event) : Prop :=
  ∃ e, io_not_found e = true ∧ sees [absent p e] h.
Definition jobs_directory (config : WorkerConfig) : Path := path_join (cfg_workspace_root config) (lit "jobs").
Definition job_directory (config : WorkerConfig) (run_id : Uuid) : Path :=
  path_join (jobs_directory config) (uuid_display run_id).
Definition outcome_seen (config : WorkerConfig) (run_id : Uuid) (outcome : JobRootCleanupOutcomeV1.t)
    (h : list event) : Prop :=
  match outcome with
  | JobRootCleanupOutcomeV1.Removed => removal_seen (job_directory config run_id) h
  | JobRootCleanupOutcomeV1.NotCreated =>
      absence_seen (jobs_directory config) h ∨ absence_seen (job_directory config run_id) h
  end.
Definition truthful (config : WorkerConfig) (receipt : CleanupReceiptV1) (h : list event) : Prop :=
  CleanupReceiptV1_validate receipt = Ok tt ∧
  outcome_seen config (cl_run_id receipt) (cl_outcome receipt) h.

(** ** The discipline of the daemon *)
Definition supervised_op (config : WorkerConfig) A (o : Op.t A) (h : list event) : Prop :=
  let marker := containment_quarantine_path config in
  match o with
  | Op.Spawn _ _ _ => held marker h = true
  | Op.Send (HttpRequest.Claim _) => settled h
  | Op.Send (HttpRequest.Cleanup receipt) => truthful config receipt h
  | Op.Send request => addressed request ≠ None → held marker h = true
  | Op.RemoveFile p => p = marker → settled h
  | Op.Rename p _ | Op.RemoveDirAll p => path_starts_with marker p = true → settled h
  | _ => True
  end.
Definition supervised (config : WorkerConfig) : Discipline :=
  {| obligation := supervised_op config; assumption := persists (containment_quarantine_path config);
     invariant := λ _, True; invariant_call := λ _ _ _ _ _ _, I |}.
(** The histories of a machine: lifetimes of the daemon, each in its own environment, of
    any length, and stopped after any operation; the configuration stays what it is. *)
Inductive machine_history (config : WorkerConfig) : list event → Prop :=
| no_history : machine_history config []
| lifetime h env sink turns config_path h' :
    machine_history config h →
    obeys (supervised config) env →
    h `suffix_of` h' →
    h' `suffix_of` w_trace (run_forever turns config_path env {| w_sink := sink; w_trace := h |}).2 →
    (∀ c, (config_load config_path env {| w_sink := sink; w_trace := h |}).1 = Ok c → c = config) →
    machine_history config h'.

(** ** Lawful histories *)
Section lawful.
Context (config : WorkerConfig).
#[local] Abbreviation marker := (containment_quarantine_path config).

(** The guard: something open is covered by the marker. *)
Definition guarded (h : list event) : Prop := settled h ∨ held marker h = true.
Lemma lawful_guarded h : lawful (supervised config) h → guarded h.
Proof.
  induction h as [|[A [o a]] h IH]; [by left|]. intros [Hk Hg%IH]. unfold guarded, settled in *.
  cbn [open_runs started foldr held] in *. fold (open_runs h) (started h).
  destruct o; cbn in Hk |- *; try exact Hg; try (right; by auto);
    try (destruct Hg as [Hg|Hg]; [left; exact Hg|]; rewrite Hg; cbn).
  - destruct (path_starts_with _ _); [left; by apply Hk|by right].
  - by right.
  - case_bool_decide; [left; by apply Hk|by right].
  - destruct (path_starts_with _ _); [left; by apply Hk|by right].
  - destruct request; cbn in *; try (right; by apply Hk); try (destruct Hg as [Hg|Hg]; [left; exact Hg|by right]).
    destruct Hg as [[Ho Hs]|Hg]; [left|by right]. rewrite Ho, Hs. split; [|done].
    destruct (accepts a receipt); set_solver.
Qed.

(** ** The frame of an assignment *)
Context (Hclean : Forall (λ name, temporary_name name = false) (cfg_workspace_root config)).

Lemma marker_clean : Forall (λ name, temporary_name name = false) marker.
Proof. apply Forall_app. split; [done|]. apply Forall_singleton. by vm_compute. Qed.
Lemma temporary_elsewhere p : temporary_path p → path_starts_with marker p = false ∧ p ≠ marker.
Proof.
  unfold temporary_path. destruct (last p) as [n|] eqn:Hl; cbn; [|done]. intros Hn.
  assert (n ∉ marker) as Hnot.
  { intros Hin. pose proof marker_clean as Hm. rewrite Forall_forall in Hm. apply Hm in Hin. congruence. }
  apply last_Some in Hl as [l ->]. split.
  - apply bool_decide_eq_false. intros Ht. apply Hnot. rewrite <- (take_drop (length (l ++ [n])) marker), Ht. set_solver.
  - intros Heq. apply Hnot. rewrite <- Heq. set_solver.
Qed.

(** What an assignment leaves: the marker, and at most its run open. *)
Definition framed (run : Uuid) (w w' : World) : Prop :=
  held marker (w_trace w') = true ∧ open_runs (w_trace w') ⊆ {[run]} ∪ open_runs (w_trace w).
Lemma framed_step run w w' :
  world_step (confined marker run) w w' → held marker (w_trace w) = true →
  world_step (supervised config) w w' ∧ framed run w w'.
Proof.
  intros Hs Hh. destruct Hs as [A o a w Ho Ha|s w _]; [|by split; [apply step_sink|split; [|set_solver]]].
  cbn in Ho, Ha. split.
  - apply step_call; [|exact Ha]. cbn.
    destruct o; cbn in Ho |- *; try done; try (apply temporary_elsewhere in Ho as [Hs Hp]; first [by rewrite Hs|by intros ?]).
    destruct request; try done; intros _; exact Hh.
  - unfold framed, record. cbn [w_trace held open_runs foldr]. fold (open_runs (w_trace w)). rewrite Hh.
    destruct o; cbn in Ho |- *; try (split; [done|set_solver]).
    + apply temporary_elsewhere in Ho as [-> _]. split; [done|set_solver].
    + apply temporary_elsewhere in Ho as [_ Hp]. rewrite bool_decide_eq_false_2 by done. split; [done|set_solver].
    + apply temporary_elsewhere in Ho as [-> _]. split; [done|set_solver].
    + split; [done|]. destruct request; cbn in Ho |- *; try discriminate Ho; injection Ho as <-; set_solver.
Qed.
Lemma framed_runs run w w' :
  runs (confined marker run) w w' → held marker (w_trace w) = true →
  runs (supervised config) w w' ∧ framed run w w'.
Proof.
  induction 1 as [w|w1 w2 w3 Hs _ IH]; intros Hh; [by split; [apply rtc_refl|split; [|set_solver]]|].
  destruct (framed_step _ _ _ Hs Hh) as [Hs' [Hh2 Ho2]]. destruct (IH Hh2) as [Hr [Hh3 Ho3]].
  split; [by eapply rtc_l|]. split; [done|set_solver].
Qed.

Context (env : Environment) (Henv : obeys (supervised config) env).
#[local] Abbreviation WP := (wp (supervised config) env).

(** Symbolic execution that records every operation. *)
#[local] Ltac sstep :=
  lazymatch goal with
  | |- wp _ _ (mbind _ _) _ _ => apply runs_bind
  | |- wp _ _ (try_bind _ _) _ _ => apply wp_try
  | |- wp _ _ (mret _) _ _ => apply runs_ret
  | |- wp _ _ (done_ok _) _ _ => apply wp_done
  | |- wp _ _ (fail _) _ _ => apply wp_fail
  | |- wp _ _ (bail _) _ _ => apply wp_fail
  | |- wp _ _ (pure _) _ _ => apply wp_pure
  | |- wp _ _ (bail_if _ _) _ _ => apply wp_bail_if; intros ?
  | |- wp _ _ (call_io _ _) _ _ => apply wp_call_io; [eassumption|try exact I|intros ? ?|intros ?]
  | |- wp _ _ (call_any _ _) _ _ => apply wp_call_any; [eassumption|try exact I|intros ? ?|intros ?]
  | |- wp _ _ (call _) _ _ => apply (wp_call _ _ Henv); [try exact I|intros ? ?]
  | |- wp _ _ (put_sink _) _ _ => apply wp_put_sink; [exact I|]
  | |- wp _ _ (match ?x with _ => _ end) _ _ => destruct x eqn:?
  | |- match ?x with Ok _ => _ | Err _ => _ end => destruct x eqn:?
  end.
#[local] Ltac ssteps := repeat (sstep; cnorm).
Lemma wp_framed run {A} (m : io A) w :
  keeps marker run env m → held marker (w_trace w) = true → WP m w (λ _ w', framed run w w').
Proof. intros Hm Hh _. destruct (Hm w I) as [Hr _]. by apply (framed_runs run). Qed.

(** ** Single steps *)

(** Nothing that matters for the guard happened. *)
Definition same (w w' : World) : Prop :=
  held marker (w_trace w') = held marker (w_trace w) ∧
  open_runs (w_trace w') = open_runs (w_trace w) ∧ started (w_trace w') = started (w_trace w).
Lemma same_trans w1 w2 w3 : same w1 w2 → same w2 w3 → same w1 w3.
Proof. intros (? & ? & ?) (? & ? & ?). split_and!; congruence. Qed.
Lemma same_settled w w' : same w w' → settled (w_trace w) → settled (w_trace w').
Proof. intros (_ & Ho & Hs) [? ?]. split; congruence. Qed.
Lemma wp_record {A} (o : Op.t A) w (Q : A → World → Prop) :
  supervised_op config A o (w_trace w) →
  (∀ a, persists marker A o (w_trace w) a → Q a (record o a w)) → WP (call o) w Q.
Proof. apply (wp_call _ _ Henv). Qed.
#[local] Ltac neutral := by split_and!.
(** A path that was looked at. *)
Definition looked (p : Path) (w : World) (r : result AnyError bool) (w' : World) : Prop :=
  ∃ a, w' = record (Op.SymlinkMetadata p) a w ∧ persists marker _ (Op.SymlinkMetadata p) (w_trace w) a ∧
    (r = Ok false → ∃ e, a = Err e ∧ io_not_found e = true).
Lemma path_entry_exists_spec p w : WP (path_entry_exists p) w (looked p w).
Proof.
  unfold path_entry_exists. sstep. sstep. destruct a as [m|e]; [|destruct (io_not_found e) eqn:E]; sstep;
    (eexists; split_and!; [reflexivity|done|]); try done. intros _. eauto.
Qed.
Lemma refuse_spec w :
  WP (refuse_containment_quarantine config) w (λ r w', same w w' ∧ (r = Ok tt → held marker (w_trace w) = false)).
Proof.
  unfold refuse_containment_quarantine. cnorm. sstep. eapply runs_mono; [apply path_entry_exists_spec|].
  intros r w' _ (a & -> & Hp & Hr). destruct r as [[]|e]; ssteps; (split; [neutral|]); try done.
  intros _. destruct (Hr eq_refl) as (e & -> & He). cbn in Hp. destruct (held _ _); [|done].
  specialize (Hp eq_refl eq_refl). congruence.
Qed.
Lemma verify_guard_spec m node run w : WP (verify_active_run_guard m node run) w (λ _ w', same w w').
Proof. unfold verify_active_run_guard. ssteps; neutral. Qed.
Lemma claim_spec request w : settled (w_trace w) → WP (claim request) w (λ _ w', same w w').
Proof.
  intros Hs. unfold claim, send. ssteps; try exact Hs; neutral.
Qed.

(** ** The guard *)
Lemma longer_elsewhere p : length marker < length p → path_starts_with marker p = false.
Proof.
  intros Hl. apply bool_decide_eq_false. intros E%(f_equal length). rewrite length_take in E. lia.
Qed.
Lemma guard_temporary_elsewhere id :
  path_join (cfg_workspace_root config) (lit "." ++ CONTAINMENT_QUARANTINE_FILE ++ lit "." ++ id ++ lit ".tmp") ≠ marker.
Proof.
  intros [_ E]%app_inj_2; [discriminate E|done].
Qed.
(** Nothing became open. *)
Definition unopened (w w' : World) : Prop :=
  open_runs (w_trace w') = open_runs (w_trace w) ∧ started (w_trace w') = started (w_trace w).
Lemma unopened_settled w w' : unopened w w' → settled (w_trace w) → settled (w_trace w').
Proof. intros [Ho Hs] [? ?]. split; congruence. Qed.
Lemma same_unopened w1 w2 w3 : unopened w1 w2 → same w2 w3 → unopened w1 w3.
Proof. intros [? ?] (_ & ? & ?). split; congruence. Qed.
Lemma marker_parent : path_parent marker = Some (cfg_workspace_root config).
Proof.
  unfold containment_quarantine_path, path_join, path_parent. rewrite removelast_last.
  by destruct (cfg_workspace_root config).
Qed.
Lemma install_guard_spec id data w :
  let parent := cfg_workspace_root config in
  let temporary := path_join parent (lit "." ++ CONTAINMENT_QUARANTINE_FILE ++ lit "." ++ id ++ lit ".tmp") in
  WP (install_guard parent marker temporary data) w (λ r w',
    unopened w w' ∧ (r = Ok tt → held marker (w_trace w') = true)).
Proof.
  intros parent temporary. unfold install_guard, sync_directory.
  pose proof (guard_temporary_elsewhere id) as Hne. fold parent temporary in Hne.
  do 4 (sstep; sstep; cnorm; [|done]). sstep. eapply runs_mono; [apply path_entry_exists_spec|].
  intros r ? _ (? & -> & _ & _). destruct r as [[]|e]; ssteps; try done.
  split; [done|]. intros _. cbn. rewrite (bool_decide_eq_true_2 (marker = marker)) by done.
  by rewrite (bool_decide_eq_false_2 (temporary = marker)), andb_true_r, orb_true_r by done.
Qed.
Lemma persist_guard_spec run w :
  WP (persist_active_run_guard config run) w (λ r w', unopened w w' ∧
    ∀ m, r = Ok m → m = marker ∧ held marker (w_trace w') = true).
Proof.
  unfold persist_active_run_guard. cnorm. sstep. eapply runs_mono; [apply path_entry_exists_spec|].
  intros r ? _ (? & -> & _ & _). destruct r as [[]|e]; ssteps; try done. rewrite marker_parent in *. cbn in *. simplify_eq.
  match goal with |- context [install_guard _ _ _ ?d] => generalize d as data; intros data end.
  eapply runs_mono; [apply install_guard_spec|]. intros r w2 _ [Hun Hheld]. assert (unopened w w2) as Hun' by exact Hun. clear Hun.
  destruct r as [[]|e]; ssteps.
  - specialize (Hheld eq_refl). eapply runs_mono; [apply path_entry_exists_spec|].
    intros r ? _ (? & -> & _ & _). destruct r as [[]|e]; ssteps; try done.
    eapply runs_mono; [apply verify_guard_spec|]. intros r w3 _ Hs.
    assert (unopened w w3) as Hun3 by (eapply same_unopened; [exact Hun'|exact Hs]).
    destruct r as [[]|e]; [|done]. ssteps. split; [done|]. intros _ [= <-]. split; [done|].
    destruct Hs as [-> _]. exact Hheld.
  - eapply runs_mono; [apply path_entry_exists_spec|]. intros r ? _ (? & -> & _ & _).
    destruct r as [[]|e']; ssteps; try done; by intros []%guard_temporary_elsewhere.
Qed.
Lemma clear_guard_spec run w :
  settled (w_trace w) → WP (clear_guard config run marker) w (λ _ _, True).
Proof.
  intros Hs. unfold clear_guard, sync_directory. sstep. eapply runs_mono; [apply verify_guard_spec|].
  intros r w1 _ Hsame. destruct r as [[]|e]; [|done]. ssteps; try done. intros _. by eapply same_settled.
Qed.
Lemma run_guarded_spec run work w :
  settled (w_trace w) →
  (∀ w1, held marker (w_trace w1) = true → settled (w_trace w1) →
     WP work w1 (λ r w', r = Ok tt → settled (w_trace w'))) →
  WP (run_guarded_assignment config run work) w (λ _ _, True).
Proof.
  intros Hs Hwork. unfold run_guarded_assignment. sstep. sstep. eapply runs_mono; [apply persist_guard_spec|].
  intros r w1 _ [Hun Hm]. destruct r as [m|e]; ssteps; [|done]. simplify_eq/=.
  destruct (Hm _ eq_refl) as [-> Hh]. eapply runs_mono; [apply Hwork; [done|by eapply unopened_settled]|].
  intros r w2 _ Hr. destruct r as [[]|e]; sstep.
  - eapply runs_mono; [apply clear_guard_spec; by apply Hr|]. intros. by sstep.
  - sstep. eapply runs_mono; [apply verify_guard_spec|]. intros r ? _ _. destruct r as [[]|e']; ssteps; done.
Qed.

(** ** The cleanup of a job's directory *)
Lemma sees_nil h : sees [] h.
Proof. apply sublist_nil_l. Qed.
Lemma sees_take l e h : is_completion e = false → sees l h → sees (e :: l) (e :: h).
Proof. unfold sees. cbn. intros ->. apply sublist_skip. Qed.
Lemma sees_skip l e h : is_completion e = false → sees l h → sees l (e :: h).
Proof. unfold sees. cbn. intros ->. apply sublist_cons. Qed.
#[local] Ltac see := repeat first [apply sees_nil | apply sees_take; [reflexivity|] | apply sees_skip; [reflexivity|] | done].
(** What was seen is kept in sight. *)
Definition watchful (w w' : World) : Prop := same w w' ∧ ∀ l, sees l (w_trace w) → sees l (w_trace w').
Lemma watchful_refl w : watchful w w.
Proof. by split. Qed.
Lemma watchful_trans w1 w2 w3 : watchful w1 w2 → watchful w2 w3 → watchful w1 w3.
Proof. intros [Hs1 Hl1] [Hs2 Hl2]. split; [by eapply same_trans|auto]. Qed.
Lemma watchful_look p a w : watchful w (record (Op.SymlinkMetadata p) a w).
Proof. split; [neutral|]. intros l Hl. by apply sees_skip. Qed.
Lemma verify_direct_spec p w : WP (verify_direct_directory_for_cleanup p) w (λ _ w', watchful w w').
Proof. unfold verify_direct_directory_for_cleanup. ssteps; apply watchful_look. Qed.
Lemma verify_tree_spec p w : WP (verify_cleanup_tree p) w (λ _ w', watchful w w').
Proof.
  unfold verify_cleanup_tree. sstep. sstep. match goal with |- wp _ _ _ ?w1 _ => assert (watchful w w1) as Hw end.
  { split; [neutral|]. intros l Hl. by apply sees_skip. }
  revert Hw. generalize (Ok root_entry :: a) as entries. intros entries.
  match goal with |- watchful w ?w1 → _ => generalize w1 end. induction entries as [|[entry|e] entries IH]; intros w1 Hw;
    cbn [verify_cleanup_entries]; ssteps; try done; [|apply IH|]; (eapply watchful_trans; [exact Hw|apply watchful_look]).
Qed.
Lemma longer_join p name : length marker ≤ length p → path_starts_with marker (path_join p name) = false.
Proof. intros Hl. apply longer_elsewhere. unfold path_join. rewrite length_app. cbn. lia. Qed.
Lemma jobs_length : length marker ≤ length (jobs_directory config).
Proof. unfold containment_quarantine_path, jobs_directory, path_join. rewrite !length_app. cbn. lia. Qed.
(** [w] is the world at the start, and [l] what was seen since. *)
Definition seen_since (w : World) (l : list event) (w' : World) : Prop := same w w' ∧ sees l (w_trace w').
Lemma seen_watchful w l w1 w2 : seen_since w l w1 → watchful w1 w2 → seen_since w l w2.
Proof. intros [Hs Hl] [Hs' Hl']. split; [by eapply same_trans|auto]. Qed.
Lemma wp_looked w l p w1 (Q : result AnyError bool → World → Prop) :
  seen_since w l w1 → (∀ w2, seen_since w l w2 → Q (Ok true) w2) →
  (∀ w2 e, io_not_found e = true → seen_since w (absent p e :: l) w2 → Q (Ok false) w2) →
  (∀ w2 e, same w w2 → Q (Err e) w2) → WP (path_entry_exists p) w1 Q.
Proof.
  intros [Hs Hl] Htrue Hfalse Herr. eapply runs_mono; [apply path_entry_exists_spec|].
  intros r ? _ (a & -> & _ & Ha). assert (∀ a', same w (record (Op.SymlinkMetadata p) a' w1)) as Hs' by (intros; exact Hs).
  destruct r as [[]|e]; [apply Htrue| |by apply Herr].
  - split; [done|]. by apply sees_skip.
  - destruct (Ha eq_refl) as (e & -> & He). apply (Hfalse _ e); [done|]. split; [done|]. by apply sees_take.
Qed.
(** [if path_entry_exists(p)? { bail!(..) }] and what follows *)
Lemma wp_gone {A} w l p w1 message (k : io (result AnyError A)) (Q : result AnyError A → World → Prop) :
  seen_since w l w1 →
  (∀ w2 e, io_not_found e = true → seen_since w (absent p e :: l) w2 → WP k w2 Q) →
  (∀ w2 e, same w w2 → Q (Err e) w2) →
  WP (try_bind (path_entry_exists p) (λ b, try_bind (bail_if b message) (λ _, k))) w1 Q.
Proof.
  intros Hs Hk Herr. sstep. apply (wp_looked w l); [done|intros w2 [Hw2 _]|intros w2 e He Hw2|by eauto]; cnorm.
  - ssteps; [|done]. by apply Herr.
  - ssteps; [done|]. by eapply Hk.
Qed.
Lemma wp_watch {A B} w l (m : io (result AnyError A)) w1 (k : A → io (result AnyError B))
    (Q : result AnyError B → World → Prop) :
  seen_since w l w1 → WP m w1 (λ _ w', watchful w1 w') →
  (∀ a w2, seen_since w l w2 → WP (k a) w2 Q) → (∀ w2 e, same w w2 → Q (Err e) w2) → WP (try_bind m k) w1 Q.
Proof.
  intros Hs Hm Hk Herr. sstep. eapply runs_mono; [exact Hm|]. intros r w2 _ Hw.
  pose proof (seen_watchful _ _ _ _ Hs Hw) as Hs2. destruct r as [a|e]; [by apply Hk|]. apply Herr, Hs2.
Qed.
Lemma seen_op w l w1 {A} (o : Op.t A) a :
  seen_since w l w1 → same w1 (record o a w1) → is_completion (existT A (o, a)) = false →
  seen_since w (existT A (o, a) :: l) (record o a w1).
Proof. intros [Hs Hl] Hs' Hc. split; [by eapply same_trans|by apply sees_take]. Qed.
Lemma same_rename p p' a w : path_starts_with marker p = false → same w (record (Op.Rename p p') a w).
Proof. intros Hp. split_and!; try done. cbn. by rewrite Hp, andb_true_r. Qed.
Lemma same_remove p a w : path_starts_with marker p = false → same w (record (Op.RemoveDirAll p) a w).
Proof. intros Hp. split_and!; try done. cbn. by rewrite Hp, andb_true_r. Qed.

Lemma quarantine_and_remove_spec run w :
  WP (quarantine_and_remove (jobs_directory config) (job_directory config run) run) w (λ r w',
    same w w' ∧ ∀ outcome, r = Ok outcome → outcome_seen config run outcome (w_trace w')).
Proof.
  unfold quarantine_and_remove, sync_directory. sstep. sstep. cnorm.
  generalize (lit ".cleanup-" ++ uuid_display run ++ lit "-" ++ uuid_display a) as name. intros name.
  pose proof (longer_join _ name jobs_length) as Hq.
  assert (path_starts_with marker (job_directory config run) = false) as Ht by apply longer_join, jobs_length.
  set (target := job_directory config run) in *. set (q := path_join (jobs_directory config) name) in *.
  assert (∀ w2 (e : AnyError), same w w2 →
    same w w2 ∧ ∀ outcome, Err e = Ok outcome → outcome_seen config run outcome (w_trace w2)) as Herr by by split.
  apply (wp_gone w []); [split; [neutral|apply sees_nil]|intros w1 e0 _ [Hs1 _]|exact Herr]. cnorm.
  assert (seen_since w [] w1) as Hw1 by (split; [done|apply sees_nil]). clear dependent a.
  sstep. sstep; [intros ?; congruence| |apply Herr; by eapply same_trans, same_rename].
  assert (seen_since w [existT _ (Op.Rename target q, Ok a)] (record (Op.Rename target q) (Ok a) w1)) as Hw2
    by (apply seen_op; [done|by apply same_rename|done]).
  destruct a. revert Hw2. generalize (record (Op.Rename target q) (Ok tt) w1) as w2. intros w2 Hw2. cnorm.
  apply (wp_gone w _ _ _ _ _ _ Hw2); [intros w3 e1 He1 Hw3|exact Herr]. cnorm.
  apply (wp_watch w _ _ _ _ _ Hw3 (verify_direct_spec _ _)); [intros _ w4 Hw4|exact Herr]. cnorm.
  apply (wp_watch w _ _ _ _ _ Hw4 (verify_tree_spec _ _)); [intros _ w5 Hw5|exact Herr]. cnorm.
  sstep. sstep; [intros ?; congruence| |apply Herr; eapply same_trans; [apply Hw5|by apply same_remove]].
  assert (seen_since w [existT _ (Op.RemoveDirAll q, Ok a); absent target e1; existT _ (Op.Rename target q, Ok tt)]
    (record (Op.RemoveDirAll q) (Ok a) w5)) as Hw6 by (apply seen_op; [done|by apply same_remove|done]).
  destruct a. revert Hw6. generalize (record (Op.RemoveDirAll q) (Ok tt) w5) as w6. intros w6 Hw6. cnorm.
  sstep. apply (wp_looked w _ _ _ _ Hw6); [intros w7 Hw7|intros w7 e2 He2 Hw7|by intros; apply Herr]; cnorm.
  { ssteps; try done; apply Herr, Hw7. }
  apply (wp_gone w _ _ _ _ _ _ Hw7); [intros w8 e3 He3 [Hs8 Hw8]|exact Herr]. cnorm.
  ssteps; (split; [exact Hs8|]); [|done]. intros _ [= <-]. exists q, e1, e2, e3. split_and!; try done. see.
Qed.
Lemma remove_job_root_spec run relative_root w :
  WP (remove_job_root_after_terminal_ack (cfg_workspace_root config) run relative_root) w (λ r w',
    same w w' ∧ ∀ outcome, r = Ok outcome →
      relative_root = job_root run ∧ outcome_seen config run outcome (w_trace w')).
Proof.
  unfold remove_job_root_after_terminal_ack. fold (jobs_directory config). cbv zeta. fold (job_directory config run).
  assert (∀ w2 (e : AnyError), same w w2 → same w w2 ∧ ∀ outcome, Err e = Ok outcome →
    relative_root = job_root run ∧ outcome_seen config run outcome (w_trace w2)) as Herr by by split.
  sstep. sstep; [by apply Herr|cnorm]. match goal with H : _ = false |- _ => rewrite negb_bool_decide_false in H; rename H into Hroot end.
  ssteps; try (by apply Herr).
  eapply (wp_looked w []); [split; [neutral|apply sees_nil]| | |exact Herr]; cbn [negb]; cycle 1.
  { intros w1 e He [Hs Hl]. ssteps. split; [done|]. intros _ [= <-]. split; [done|]. left. by exists e. }
  intros w1 Hw1. apply (wp_watch w _ _ _ _ _ Hw1 (verify_direct_spec _ _)); [intros _ w2 Hw2|exact Herr]. cnorm.
  ssteps; try (apply Herr, Hw2).
  assert (∀ (o : Op.t (result IoError Path)) b w3, same w w3 → (∀ a', same w3 (record o a' w3)) → seen_since w [] (record o b w3)) as Hlook
    by (intros o b w3 Hs3 Ho; split; [by eapply same_trans|apply sees_nil]).
  eapply (wp_looked w []); [apply Hlook; [apply Hw2|intros; neutral]| | |exact Herr]; cbn [negb]; cycle 1.
  { intros w3 e He [Hs Hl]. ssteps. split; [done|]. intros _ [= <-]. split; [done|]. right. by exists e. }
  intros w3 Hw3. apply (wp_watch w _ _ _ _ _ Hw3 (verify_direct_spec _ _)); [intros _ w4 Hw4|exact Herr]. cnorm.
  ssteps; try (apply Herr, Hw4).
  eapply runs_mono; [apply verify_tree_spec|]. intros r w6 _ [Hs6 _].
  assert (same w w6) as Hsame by (eapply same_trans; [apply Hw4|exact Hs6]).
  destruct r as [[]|e]; [|by apply Herr]. eapply runs_mono; [apply quarantine_and_remove_spec|].
  intros r w7 _ [Hs7 Ho]. split; [by eapply same_trans|]. intros outcome Hr. split; [done|]. by apply Ho.
Qed.

(** ** One assignment *)
Lemma outcome_seen_mono run outcome h h' :
  (∀ l, sees l h → sees l h') → outcome_seen config run outcome h → outcome_seen config run outcome h'.
Proof.
  intros Hmono. destruct outcome; cbn.
  - intros (q & e1 & e2 & e3 & ? & ? & ? & Hl). exists q, e1, e2, e3. split_and!; auto.
  - intros [(e & ? & Hl)|(e & ? & Hl)]; [left|right]; exists e; auto.
Qed.
Lemma truthful_skip receipt e h : is_completion e = false → truthful config receipt h → truthful config receipt (e :: h).
Proof.
  intros He [Hv Ho]. split; [done|]. eapply outcome_seen_mono; [|exact Ho]. intros l Hl. by apply sees_skip.
Qed.
Lemma cleanup_spec session receipt w :
  outcome_seen config (cl_run_id receipt) (cl_outcome receipt) (w_trace w) →
  WP (cleanup session receipt) w (λ r w', ∀ stored, r = Ok stored →
    open_runs (w_trace w') = open_runs (w_trace w) ∖ {[cl_run_id receipt]} ∧ started (w_trace w') = false).
Proof.
  intros Ho. unfold cleanup. sstep. sstep. destruct (verify_binding _ _ _) as [[]|e]; [|done]. sstep. sstep.
  destruct (CleanupReceiptV1_validate receipt) as [[]|e] eqn:Hv; [|done]. cbn [validated context map_err].
  apply (wp_with_retries _ _ Henv (λ w', truthful config receipt (w_trace w') ∧
    open_runs (w_trace w') = open_runs (w_trace w))); [|intros w' n [Ht Hopen]|done].
  - intros w' [Ht Hopen]. unfold send. sstep. sstep. sstep; [exact Ht|]. sstep.
    destruct a as [response|e]; cbn [map_err context]; [|split; [|done]; intros _; split; [by apply truthful_skip|done]].
    set (w2 := record _ _ w').
    assert (accepts (Ok response) receipt = false → truthful config receipt (w_trace w2) ∧
      open_runs (w_trace w2) = open_runs (w_trace w)) as Hfailed.
    { intros Ha. split; [by apply truthful_skip|]. subst w2. cbn in Ha |- *. by rewrite Ha. }
    cbn [accepts] in Hfailed. sstep. sstep. destruct (decode_json _ _) as [stored|e] eqn:E; [|by split; [auto|]].
    sstep. sstep; [|sstep]; match goal with H : (_ != _) = _ |- _ => rename H into Hc end.
    + split; [intros _|done]. apply Hfailed. by apply negb_true_iff.
    + split; [done|]. intros stored' _. apply negb_false_iff in Hc. subst w2. unfold record. cbn [w_trace].
      cbn [open_runs started foldr open_after started_after accepts]. fold (open_runs (w_trace w')).
      rewrite E, Hc, Hopen, andb_false_r. done.
  - split; [exact I|]. split; [by apply truthful_skip|done].
Qed.
Lemma process_assignment_spec assignment w :
  held marker (w_trace w) = true → settled (w_trace w) →
  WP (process_assignment config assignment) w (λ r w', r = Ok tt → settled (w_trace w')).
Proof.
  intros Hh Hs. unfold process_assignment. ssteps; try done.
  match goal with |- wp _ _ _ ?w1 _ => assert (held marker (w_trace w1) = true ∧ settled (w_trace w1)) as [Hh1 Hs1] by done end.
  eapply runs_mono.
  { apply wp_framed; [|exact Hh1]. by apply execute_assignment_keeps. }
  intros r w2 _ [Hh2 Ho2]. destruct r as [ack|e]; [|done]. sstep.
  eapply runs_mono; [apply remove_job_root_spec|]. intros r w3 _ [(_ & Ho3 & _) Hout].
  destruct r as [outcome|e]; [|done]. destruct (Hout _ eq_refl) as [Hroot Hseen]. sstep. sstep. sstep.
  eapply runs_mono; [apply cleanup_spec|].
  { eapply outcome_seen_mono; [|exact Hseen]. intros l Hl. by apply sees_skip. }
  intros r w4 _ Hc. destruct r as [stored|e]; cbn [context map_err]; ssteps; [|done].
  intros _. destruct (Hc _ eq_refl) as [Ho4 Hs4]. split; [|done]. rewrite Ho4. cbn [w_trace record].
  change (open_runs (_ :: w_trace w3)) with (open_runs (w_trace w3)).
  destruct Hs1 as [Hs1 _]. rewrite Hs1 in Ho2. cbn [cleanup_receipt cl_run_id]. set_solver.
Qed.

(** ** The daemon *)
Lemma run_claimed_spec claimed assignment w :
  settled (w_trace w) → WP (run_claimed config claimed assignment) w (λ _ _, True).
Proof.
  intros Hs. unfold run_claimed, handle_guarded_assignment_error. cnorm. sstep. sstep.
  destruct (activity_begin _ _) as [active|e]; [|done]. sstep.
  eapply runs_mono; [apply run_guarded_spec; [exact Hs|]|].
  - intros w1 Hh1 Hs1. sstep. sstep. destruct (cs_run_credential claimed); cbn [ok_or]; [|done].
    by apply process_assignment_spec.
  - intros r ? _ _. destruct r as [[]|e]; ssteps; done.
Qed.
Lemma claim_turn_spec failures w :
  lawful (supervised config) (w_trace w) → WP (claim_turn config failures) w (λ _ _, True).
Proof.
  intros Hl. pose proof (lawful_guarded _ Hl) as Hg. unfold claim_turn, verify_before_claim, sleep_then. ssteps; try done.
  eapply runs_mono; [apply refuse_spec|]. intros r w1 _ [(Hh1 & Ho1 & Hs1) _]. destruct r as [[]|e]; [|done]. ssteps; try done.
  eapply runs_mono; [apply refuse_spec|]. intros r w2 _ [(Hh2 & Ho2 & Hs2) Hno]. destruct r as [[]|e]; [|done].
  specialize (Hno eq_refl).
  assert (settled (w_trace w2)) as Hset.
  { destruct Hg as [[Ho Hst]|Hheld].
    - split; [rewrite Ho2; exact (eq_trans Ho1 Ho)|rewrite Hs2; exact (eq_trans Hs1 Hst)].
    - exfalso. change (held marker (w_trace w1) = false) in Hno. rewrite Hh1 in Hno.
      change (held marker (w_trace w) = false) in Hno. congruence. }
  ssteps; try done. eapply runs_mono; [apply claim_spec; exact Hset|]. intros r w3 _ Hs3.
  destruct r as [claimed|e]; ssteps; try done.
  apply run_claimed_spec. eapply same_settled; [exact Hs3|exact Hset].
Qed.
Lemma claim_loop_spec turns failures w :
  lawful (supervised config) (w_trace w) → WP (claim_loop turns config failures) w (λ _ _, True).
Proof.
  revert failures w. induction turns as [|turns IH]; intros failures w Hl; cbn [claim_loop]; [by sstep|].
  sstep. eapply runs_mono; [by apply claim_turn_spec|]. intros r w1 Hr _.
  pose proof (runs_lawful _ _ _ Hr Hl) as Hl1. destruct r as [[failures'| |]|e]; try (by sstep). by apply IH.
Qed.
Lemma allocate_boot_generation_spec path w : WP (allocate_boot_generation path) w (λ _ w', same w w').
Proof.
  unfold allocate_boot_generation, ensure_lock_file, protected_input, path_entry_exists. ssteps; neutral.
Qed.
Lemma client_from_config_same c w : WP (client_from_config c) w (λ _ w', same w w').
Proof.
  unfold client_from_config, load_credential, read_secret_file, protected_input. ssteps; neutral.
Qed.
Lemma config_load_same path w : WP (config_load path) w (λ _ w', same w w').
Proof.
  unfold config_load, reject_pending_migration, in_context, protected_input. ssteps; neutral.
Qed.
Lemma run_configured_spec turns path w :
  lawful (supervised config) (w_trace w) → WP (run_configured turns path config) w (λ _ _, True).
Proof.
  intros Hl. unfold run_configured, verify_before_claim, in_context. ssteps; try done.
  match goal with |- wp _ _ _ ?w1 _ => assert (lawful (supervised config) (w_trace w1)) as Hl1 by by cbn end.
  eapply runs_mono; [apply refuse_spec|]. intros r w2 Hr2 _. destruct r as [[]|e]; [|done]. ssteps; try done.
  pose proof (runs_lawful _ _ _ Hr2 Hl1) as Hl2.
  eapply runs_mono; [apply allocate_boot_generation_spec|]. intros r w3 Hr3 _. ssteps; try done.
  assert (lawful (supervised config) (w_trace w3)) as Hl3 by (apply (runs_lawful _ _ _ Hr3); by split).
  eapply runs_mono; [apply client_from_config_same|]. intros r4 w4 Hr4 _. ssteps; try done.
  pose proof (runs_lawful _ _ _ Hr4 Hl3) as Hl4.
  eapply runs_mono; [by apply claim_loop_spec|]. intros. by sstep.
Qed.
Lemma run_forever_spec turns path w :
  lawful (supervised config) (w_trace w) → (∀ c, (config_load path env w).1 = Ok c → c = config) →
  WP (run_forever turns path) w (λ _ _, True).
Proof.
  intros Hl Hc. apply wp_try, wp_result. eapply runs_mono; [apply config_load_same|].
  intros [c|e] w1 Hr _ Heq; [|done]. rewrite (Hc c (eq_sym Heq)). apply run_configured_spec, (runs_lawful _ _ _ Hr Hl).
Qed.
End lawful.

Lemma history_lawful config h :
  Forall (λ name, temporary_name name = false) (cfg_workspace_root config) →
  machine_history config h → lawful (supervised config) h.
Proof.
  intros Hclean. induction 1 as [|h env sink turns path h' _ IH Henv _ Hsuffix Hload]; [exact I|].
  eapply lawful_suffix; [exact Hsuffix|].
  destruct (run_forever_spec config Hclean env Henv turns path {| w_sink := sink; w_trace := h |} IH Hload I) as [Hr _].
  by apply (runs_lawful (supervised config) _ _ Hr).
Qed.

(** C19. Whenever a daemon claims, in whatever lifetime and however the earlier ones were cut
    short, every run that the machine addressed before (with a state change, a completion,
    an upload or a download) has had its cleanup receipt accepted by the controller, and no
    process was started since the last accepted receipt; and processes are only started
    while the marker of the guard is on disk. *)
Theorem claims_only_when_settled config h
    (Hclean : Forall (λ name, temporary_name name = false) (cfg_workspace_root config))
    (Hhistory : machine_history config h) :
  (∀ h1 request answer h2,
     h = h1 ++ existT _ (Op.Send (HttpRequest.Claim request), answer) :: h2 → settled h2) ∧
  (∀ h1 launch cwd variables answer h2,
     h = h1 ++ existT _ (Op.Spawn launch cwd variables, answer) :: h2 →
     held (containment_quarantine_path config) h2 = true).
Proof.
  pose proof (history_lawful config h Hclean Hhistory) as Hl.
  split; intros * Heq; exact (lawful_at _ _ _ _ _ Hl Heq).
Qed.

(** C20. A cleanup receipt is only sent if it passes the protocol's validator and says what
    was seen since the last completion: [removed] only if the job's own directory was moved
    aside, was then gone, and what it was moved to was removed and gone, and [notCreated]
    only if the directory or the directory of all jobs was found absent. *)
Theorem cleanup_receipts_truthful config h
    (Hclean : Forall (λ name, temporary_name name = false) (cfg_workspace_root config))
    (Hhistory : machine_history config h) h1 receipt answer h2 :
  h = h1 ++ existT _ (Op.Send (HttpRequest.Cleanup receipt), answer) :: h2 →
  CleanupReceiptV1_validate receipt = Ok tt ∧
  outcome_seen config (cl_run_id receipt) (cl_outcome receipt) h2.
Proof.
  intros Heq. exact (lawful_at _ _ _ _ _ (history_lawful config h Hclean Hhistory) Heq).
Qed.
End claims.
