(* ===== verification/WorkerBoot.v ===== *)
(** Boot generations: no generation of [allocate_boot_generation] is issued twice.

    A daemon may stop at any operation of the allocation and start again.  The state file
    then holds what was written last, or what was being written, and the generations that
    were issued, that is durably stored, strictly increase and stay within 63 bits. *)
From Stdlib Require Import ZArith NArith Lia String.
From stdpp Require Import base option list numbers sets gmap relations sorting.
From S2P Require Import Prelude Text Crates Protocol CanonicalJson ControllerDb WorkerEnv WorkerClient WorkerProcess WorkerSource WorkerExecutor WorkerRuntime WorkerNode WorkerIdentity WorkerSupervisor WorkerLogic ProtectedStore.
Open Scope rust_scope.

(** A generated document, with a line break behind it, parses to what it was made of. *)
Class DaemonCratesLaws `{DaemonCrates} := {
  boot_json_parses : ∀ s data, boot_json s = Ok data → parse_boot (data ++ [10%N]) = Ok s
}.

Section boot.
Context `{UuidCrate, DaemonCratesLaws}.
Context (config_path : Path).
Definition boot_state_path : Path := with_extension config_path (lit "boot-generation.json").
Definition boot_lock_path : Path := with_extension config_path (lit "boot-generation.lock").

(** ** The state file in a history *)

(** The document of a write to the state file, and whether the write returned. *)
Definition boot_write (e : event) : option (list N * bool) :=
  let '(existT _ (o, a)) := e in
  match o in Op.t A return A → option (list N * bool) with
  | Op.WriteProtected p data | Op.ReplaceProtected p data => λ r,
      if p == boot_state_path then Some (data, is_ok r) else None
  | _ => λ _, None
  end a.
#[local] Abbreviation contents := (may_hold boot_state_path).
(** The generations that were stored, the latest first.  The greatest one of all is stored
    although no later daemon accepts it. *)
Definition generation_of (data : list N) : option N :=
  match parse_boot data with Ok s => Some (bg_generation s) | Err _ => None end.
Definition issued_by (e : event) : option N :=
  match boot_write e with Some (data, true) => generation_of data | _ => None end.
Definition issued (h : list event) : list N := omap issued_by h.

(** ** The discipline: what is written is a new generation. *)
Definition writes_new A (o : Op.t A) (h : list event) : Prop :=
  match o with
  | Op.WriteProtected p data | Op.ReplaceProtected p data => p = boot_state_path →
      ∃ g, generation_of data = Some g ∧ (1 ≤ g ≤ MAX_GENERATION)%N ∧ Forall (λ g', (g' < g)%N) (issued h)
  | Op.RemoveProtected p => p ≠ boot_state_path
  | _ => True
  end.
Definition booting : Discipline :=
  {| obligation := writes_new; assumption := honest_store (λ p, p = boot_state_path); invariant := λ _, True;
     invariant_call := λ _ _ _ _ _ _, I |}.
(** The histories of allocations, each cut after any operation. *)
Inductive boot_history : list event → Prop :=
| no_boot : boot_history []
| boot h env sink h' :
    boot_history h → obeys booting env → h `suffix_of` h' →
    h' `suffix_of` w_trace (allocate_boot_generation config_path env {| w_sink := sink; w_trace := h |}).2 →
    boot_history h'.

(** ** The invariant of the file *)
Definition file_recent (h : list event) : Prop :=
  (None ∈ contents h → issued h = []) ∧
  ∀ data g, Some data ∈ contents h → generation_of data = Some g → Forall (λ g', (g' ≤ g)%N) (issued h).
Definition increasing (h : list event) : Prop :=
  StronglySorted (λ g g', (g' < g)%N) (issued h) ∧ Forall (λ g, (1 ≤ g ≤ MAX_GENERATION)%N) (issued h).

Lemma write_new_cases A (o : Op.t A) a h :
  writes_new A o h →
  match boot_write (existT A (o, a)) with
  | Some (data, ok) =>
      contents (@cons event (existT A (o, a)) h) = replaced ok (Some data) (contents h) ∧
      ∃ g, generation_of data = Some g ∧ (1 ≤ g ≤ MAX_GENERATION)%N ∧ Forall (λ g', (g' < g)%N) (issued h)
  | None => contents (@cons event (existT A (o, a)) h) ⊆ contents h
  end.
Proof.
  intros Hw. destruct (boot_write (existT A (o, a))) as [[data ok]|] eqn:Hb.
  - destruct o; try discriminate Hb; cbn in Hb, Hw |- *; fold (contents h); case_bool_decide as Hp; try discriminate Hb;
      injection Hb as <- <-; split; auto.
  - apply unchanged_subset. destruct o; try reflexivity; cbn in Hb, Hw |- *; case_bool_decide; done.
Qed.
Lemma lawful_boot h : lawful booting h → file_recent h ∧ increasing h.
Proof.
  induction h as [|[A [o a]] h IH]; intros Hl.
  { split; [split; [done|]; intros data g [=]%list_elem_of_singleton|split; constructor]. }
  destruct Hl as [Hk Hl]. destruct (IH Hl) as [[Hnone Hsome] [Hsorted Hrange]]. apply (write_new_cases A o a) in Hk.
  unfold file_recent, increasing, issued, issued_by in *. cbn [omap list_omap]. fold (@omap list _ _ _ issued_by h).
  destruct (boot_write (existT A (o, a))) as [[data []]|]; [| |split; [split|done]; eauto].
  - destruct Hk as (-> & g & Hg & Hr & Hlt). rewrite Hg. fold (issued h) in *. split; split.
    + by intros ?%list_elem_of_singleton.
    + intros data' g' [= ->]%list_elem_of_singleton Hg'. simplify_eq. constructor; [lia|].
      eapply Forall_impl; [exact Hlt|]. cbn. lia.
    + by constructor.
    + by constructor.
  - destruct Hk as (-> & g & Hg & Hr & Hlt). fold (issued h) in *. split; split; try done.
    + intros [[=]|Hin]%elem_of_cons. auto.
    + intros data' g' [[= ->]|Hin]%elem_of_cons Hg'; [|by eapply Hsome].
      simplify_eq. eapply Forall_impl; [exact Hlt|]. cbn. lia.
Qed.

(** ** The allocation *)
Context (Hpath : is_Some (path_file_name config_path)).
Lemma lock_elsewhere : boot_lock_path ≠ boot_state_path.
Proof.
  unfold boot_lock_path, boot_state_path, with_extension. destruct (path_parent config_path) as [parent|] eqn:Hp.
  2: by destruct config_path; destruct Hpath.
  destruct Hpath as [name ->]. intros [_ [= E]]%app_inj_2; [|done]. by apply app_inv_head in E.
Qed.
Context (env : Environment) (Henv : obeys booting env).
#[local] Abbreviation WP := (wp booting env).
Definition unissued (w w' : World) : Prop :=
  contents (w_trace w') ⊆ contents (w_trace w) ∧ issued (w_trace w') = issued (w_trace w).
Lemma unissued_refl w : unissued w w.
Proof. by split. Qed.
Lemma unissued_call {A} (o : Op.t A) a w w1 :
  unissued w w1 → changes o boot_state_path = false → unissued w (record o a w1).
Proof.
  intros [Hs Hi] Hc. split; [etrans; [by apply unchanged_subset|done]|]. rewrite <- Hi.
  unfold issued, issued_by. cbn [w_trace record omap list_omap]. destruct o; try reflexivity; cbn in Hc |- *; by rewrite Hc.
Qed.
Lemma ensure_lock_file_spec data w : WP (ensure_lock_file boot_lock_path data) w (λ _ w', unissued w w').
Proof.
  unfold ensure_lock_file, protected_input. pose proof (unissued_refl w) as Hw.
  apply runs_bind, (wp_call _ _ Henv); [exact I|]. intros [m|e] _.
  - apply (wp_call _ _ Henv); [done|]. intros a _. by repeat apply unissued_call.
  - destruct (io_not_found e); [|by apply wp_fail, unissued_call].
    apply runs_bind, (wp_call _ _ Henv); [by intros ?%lock_elsewhere|]. intros r _.
    assert (changes (Op.WriteProtected boot_lock_path data) boot_state_path = false) as Hc
      by apply bool_decide_eq_false_2, lock_elsewhere.
    destruct r as [[]|e']; [by apply wp_done; repeat apply unissued_call|].
    apply (wp_call _ _ Henv); [done|]. intros a _. by repeat apply unissued_call.
Qed.
Lemma validated_document raw c :
  validate_boot_generation_document raw = Ok c → generation_of raw = Some c ∧ (c < MAX_GENERATION)%N.
Proof.
  unfold validate_boot_generation_document, generation_of. intros Hv.
  apply bind_unit_Ok in Hv as [_ Hv]. apply bind_Ok in Hv as (s & Hs & Hv).
  apply bind_unit_Ok in Hv as [_ Hv]. apply bind_unit_Ok in Hv as [Hmax Hv]. apply reject_if_Ok, N.leb_gt in Hmax.
  destruct (parse_boot raw); [|done]. cbn in Hs. by simplify_eq/=.
Qed.
(** The current generation is no less than any that was issued. *)
Definition current_ok (h : list event) (current : N) : Prop :=
  (current ≤ MAX_GENERATION)%N ∧ Forall (λ g, (g ≤ current)%N) (issued h).
Lemma issued_by_write o data r h :
  generation_of data = Some o →
  ∀ (op : Op.t (result AnyError unit)), op = Op.WriteProtected boot_state_path data ∨ op = Op.ReplaceProtected boot_state_path data →
  issued (existT _ (op, r) :: h) = (if is_ok r then [o] else []) ++ issued h.
Proof.
  intros Hg op Hop. unfold issued, issued_by. cbn [omap list_omap].
  destruct Hop as [-> | ->]; cbn; rewrite bool_decide_eq_true_2 by done; destruct r; cbn; by rewrite ?Hg.
Qed.
(** What is written and returned once the current generation is known. *)
Lemma commit_spec (present : bool) current w :
  current_ok (w_trace w) current →
  WP (generation ←? pure (ok_or (if (current + 1 <=? MAX_GENERATION)%N then Some (current + 1)%N else None)
        (anyhow (lit "boot generation exhausted signed 64-bit storage")));
      data ←? pure (context (lit "serialize boot generation state") (map_err anyhow (boot_json
        {| bg_api_version := BOOT_GENERATION_STATE_VERSION; bg_generation := generation |})));
      let data := data ++ [10%N] in
      (r ← call (if present then Op.ReplaceProtected boot_state_path data else Op.WriteProtected boot_state_path data);
       pure r) ;?
      done_ok generation) w (λ r w',
    issued (w_trace w') = match r with Ok g => g :: issued (w_trace w) | Err _ => issued (w_trace w) end).
Proof.
  intros [Hmax Hcur]. apply wp_try, wp_pure. destruct (current + 1 <=? MAX_GENERATION)%N eqn:Hle; cbn [ok_or]; [|done].
  apply N.leb_le in Hle. apply wp_try, wp_pure.
  destruct (boot_json _) as [data|e] eqn:Hjson; cbn [context map_err]; [|done].
  assert (generation_of (data ++ [10%N]) = Some (current + 1)%N) as Hg.
  { unfold generation_of. by rewrite (boot_json_parses _ _ Hjson). }
  assert (∃ g, generation_of (data ++ [10%N]) = Some g ∧ (1 ≤ g ≤ MAX_GENERATION)%N ∧
    Forall (λ g', (g' < g)%N) (issued (w_trace w))) as Hnew.
  { eexists. split; [exact Hg|]. split; [lia|]. eapply Forall_impl; [exact Hcur|]. cbn. lia. }
  cbv zeta. apply wp_try, runs_bind.
  apply (wp_call _ _ Henv); [destruct present; intros _; exact Hnew|]. intros r _. apply wp_pure. unfold record. cbn [w_trace].
  assert (issued (existT _ ((if present then Op.ReplaceProtected boot_state_path (data ++ [10%N])
    else Op.WriteProtected boot_state_path (data ++ [10%N])), r) :: w_trace w)
    = (if is_ok r then [(current + 1)%N] else []) ++ issued (w_trace w)) as Hi.
  { eapply issued_by_write; [exact Hg|]. destruct present; auto. }
  destruct r as [[]|e]; [apply wp_done|]; exact Hi.
Qed.
Lemma allocate_spec w :
  lawful booting (w_trace w) →
  WP (allocate_boot_generation config_path) w (λ r w',
    issued (w_trace w') = match r with Ok g => g :: issued (w_trace w) | Err _ => issued (w_trace w) end).
Proof.
  intros Hl. destruct (lawful_boot _ Hl) as [[Hnone Hsome] [_ Hrange]].
  unfold allocate_boot_generation. fold boot_state_path boot_lock_path. cbv zeta.
  apply wp_try, wp_call_any; [done|exact I|intros [] _|done]. apply wp_try.
  eapply runs_mono; [apply ensure_lock_file_spec|]. intros r w1 _ [Hc1 Hi1].
  change (contents (w_trace w1) ⊆ contents (w_trace w)) in Hc1.
  change (issued (w_trace w1) = issued (w_trace w)) in Hi1. rewrite <- Hi1 in *.
  destruct r as [[]|e]; [|done]. apply wp_try, runs_bind, (wp_call _ _ Henv); [exact I|]. intros [[]|e] _; apply wp_pure; [|done].
  apply wp_try. unfold path_entry_exists. apply runs_bind, (wp_call _ _ Henv); [exact I|]. intros [m|e] Ha.
  - apply wp_done, wp_try, wp_try, (wp_call _ _ Henv); [exact I|]. intros [[]|e] _; [|done].
    apply wp_try, wp_call_io; [done|exact I|intros raw Hraw|done]. apply wp_pure.
    destruct (validate_boot_generation_document raw) as [current|e] eqn:Hv; [|done].
    apply validated_document in Hv as [Hg Hmax]. specialize (Hraw eq_refl).
    eapply runs_mono; [apply (commit_spec true current)|by intros r w' _ Hi].
    split; [lia|]. apply (Hsome raw); [by apply Hc1|done].
  - destruct (io_not_found e) eqn:He; [|by apply wp_fail]. apply wp_done, wp_try, wp_done.
    specialize (Ha eq_refl He). eapply runs_mono; [apply (commit_spec false 0%N)|by intros r w' _ Hi].
    split; [done|]. change (Forall (λ g, (g ≤ 0)%N) (issued (w_trace w1))). rewrite Hnone by by apply Hc1. constructor.
Qed.
End boot.

Section theorem.
Context `{UuidCrate, DaemonCratesLaws}.
Lemma boot_history_lawful config_path h :
  is_Some (path_file_name config_path) → boot_history config_path h → lawful (booting config_path) h.
Proof.
  intros Hpath. induction 1 as [|h env sink h' _ IH Henv _ Hsuffix]; [exact I|].
  eapply lawful_suffix; [exact Hsuffix|].
  destruct (allocate_spec config_path Hpath env Henv {| w_sink := sink; w_trace := h |} IH I) as [Hr _].
  by apply (runs_lawful _ _ _ Hr).
Qed.

(** C22. However often the daemon is started and stopped in the middle of an allocation, the
    generations that were durably stored strictly increase and stay within 63 bits, and an
    allocation that returns has stored exactly the generation it returns, while one that
    fails has issued none; so no generation is used twice. *)
Theorem boot_generations_increase config_path h (Hpath : is_Some (path_file_name config_path)) (Hhistory : boot_history config_path h) :
  StronglySorted (λ g g', (g' < g)%N) (issued config_path h) ∧
  Forall (λ g, (1 ≤ g ≤ MAX_GENERATION)%N) (issued config_path h) ∧
  ∀ env sink, obeys (booting config_path) env →
    let '(r, w) := allocate_boot_generation config_path env {| w_sink := sink; w_trace := h |} in
    issued config_path (w_trace w) = match r with Ok g => g :: issued config_path h | Err _ => issued config_path h end.
Proof.
  pose proof (boot_history_lawful config_path h Hpath Hhistory) as Hl.
  destruct (lawful_boot config_path h Hl) as [_ [Hsorted Hrange]]. split_and!; [done..|]. intros env sink Henv.
  destruct (allocate_spec config_path Hpath env Henv {| w_sink := sink; w_trace := h |} Hl I) as [_ Hi].
  by destruct (allocate_boot_generation _ _ _).
Qed.
End theorem.
