(* ===== verification/DaemonScenario.v ===== *)
(** A concrete daemon: an assignment that is claimed, run and cleaned up, the claim after
    it, and a daemon that was stopped in the middle and started again. *)
From Stdlib Require Import ZArith NArith Lia String.
From stdpp Require Import base option list numbers sets gmap relations sorting.
From S2P Require Import Prelude Text Crates Protocol RunState JobSpec CanonicalJson NodeState WorkerReports WorkerRun Cleanup Onboarding ControllerDb WorkerEnv WorkerClient WorkerProcess WorkerSource WorkerExecutor WorkerRuntime WorkerNode WorkerIdentity WorkerSupervisor WorkerLogic ProtectedStore WorkerConfined WorkerClaims WorkerBoot WorkerScenario.
Import ConcreteWorker.
#[local] Existing Instance ConcreteJson.serde_crate.
#[local] Existing Instance Concrete.uuid_crate.
Open Scope rust_scope.

(** ** Crates *)
Definition daemon_assignment : ClaimAssignment :=
  {| ca_job_id := ca_job_id sample_assignment; ca_run_id := ca_run_id sample_assignment;
     ca_job_digest := ca_job_digest sample_assignment; ca_lease_id := ca_lease_id sample_assignment;
     ca_lease_until := 9000%Z; ca_state_version := 2; ca_job_spec := ca_job_spec sample_assignment;
     ca_workspace := {| ws_relative_root := job_root 12%N; ws_source_directory := lit "source";
                        ws_logs_directory := lit "logs"; ws_artifacts_directory := lit "artifacts" |};
     ca_limits := ExecutionLimits_default |}.
Definition daemon_ack : TerminalCompletionAckV1 :=
  {| ack_run_id := 12%N; ack_lease_id := 13%N; ack_completion_sha256 := replicate 64 (chr "a");
     ack_state_version := 3; ack_final_state := JobState.Succeeded; ack_acknowledged_at := 5000%Z |}.
Definition daemon_receipt : CleanupReceiptV1 :=
  cleanup_receipt daemon_assignment JobRootCleanupOutcomeV1.Removed 0%Z daemon_ack.
(** The receipt is the only one that is ever answered. *)
#[local] Instance daemon_wire : @WireCrates ConcreteJson.serde_crate := {|
  parse_value _ := None; number_as_u64 _ := None; job_state_from_value _ := None;
  parse_state_response := state_response;
  parse_heartbeat_response _ := Err (lit "unused"); parse_receipt _ := Ok daemon_receipt;
  parse_artifact _ := Err (lit "unused"); parse_log_response _ := Err (lit "unused");
  parse_rfc3339 _ := Ok 5000%Z
|}.
#[local] Instance node_wire : NodeWireCrates := {|
  parse_claim_response _ := Ok {| crs_assignment := Some daemon_assignment; crs_retry_after_seconds := 5 |};
  parse_pair_response _ := Err (lit "unused"); parse_pair_ack_response _ := Err (lit "unused");
  url_query _ := None
|}.
#[local] Instance daemon_crates : DaemonCrates := {|
  quarantine_json r := Ok [cq_node_id r; cq_run_id r];
  parse_quarantine data :=
    match data with
    | [node; run] => Ok {| cq_api_version := ACTIVE_RUN_GUARD_VERSION; cq_node_id := node; cq_run_id := run;
                           cq_observed_at := 0%Z; cq_reason := ACTIVE_RUN_GUARD_REASON |}
    | _ => Err (lit "shape")
    end;
  boot_json s := if bg_api_version s == BOOT_GENERATION_STATE_VERSION then Ok [bg_generation s] else Err [];
  parse_boot data :=
    match data with
    | [generation; _] => Ok {| bg_api_version := BOOT_GENERATION_STATE_VERSION; bg_generation := generation |}
    | _ => Err (lit "shape")
    end
|}.
#[local] Instance daemon_crates_laws : DaemonCratesLaws.
Proof. split. intros [version g] data. cbn. case_bool_decide as Hv; [|done]. cbn in Hv. intros [= <-]. by subst. Qed.
Definition daemon_config : WorkerConfig :=
  {| cfg_api_version := WORKER_CONFIG_VERSION; cfg_worker_url := lit "https://controller.example";
     cfg_certificate_pem := lit "pem"; cfg_controller_id := 2%N; cfg_node_id := 3%N;
     cfg_worker_api_version := WORKER_API_VERSION; cfg_heartbeat_interval_seconds := 15; cfg_lease_seconds := 60;
     cfg_workspace := absolute [lit "srv"; lit "cyc"];
     cfg_credential := absolute [lit "etc"; lit "cyc"; lit "worker.credential"] |}.
Definition config_path : Path := [lit "etc"; lit "cyc"; lit "worker.json"].
(** There is one configuration. *)
#[local] Instance daemon_identity : IdentityCrates := {|
  config_json _ := Ok []; parse_config _ := Ok daemon_config; parse_enrollment _ := Err (lit "unused")
|}.

(** ** The machine

    A path is there as the latest operation on it left it; at first, everything is but
    the marker, the quarantines of cleanups and a pending migration.  The boot generation holds what was
    stored last. *)
Definition initially (p : Path) : bool :=
  match last p with
  | Some name =>
      negb ((name == CONTAINMENT_QUARANTINE_FILE) || starts_with (lit ".cleanup-") name
            || (name == lit ".migration-stage.json"))
  | None => true
  end.
Definition present_after (p : Path) (e : event) (before : bool) : bool :=
  let '(existT _ (o, a)) := e in
  match o in Op.t A return A → bool with
  | Op.HardLink _ to => λ r, before || (is_ok r && (to == p))
  | Op.RemoveFile q | Op.RemoveDirAll q => λ _, before && (q != p)
  | Op.Rename from to => λ _, (before && (from != p)) || (to == p)
  | _ => λ _, before
  end a.
Definition present (p : Path) (h : list event) : bool := foldr (present_after p) (initially p) h.
(** What was written last to a marker's temporary, without the final line break. *)
Definition written_of (e : event) : option (list N) :=
  let '(existT _ (o, _)) := e in
  match o with
  | Op.WriteAll p data =>
      if is_some_and (last p) (starts_with (lit "." ++ CONTAINMENT_QUARANTINE_FILE)) && (1 <? byte_count data)%N
      then Some data else None
  | _ => None
  end.
Definition written (h : list event) : list N := unwrap_or (head (omap written_of h)) [].
Definition is_claim (e : event) : bool :=
  let '(existT _ (o, _)) := e in match o with Op.Send (HttpRequest.Claim _) => true | _ => false end.
Definition claim_reply (status : N) : result SendError HttpResponse :=
  Ok {| hr_status := status; hr_content_type := Some (lit "application/json"); hr_content_length := None;
        hr_header := λ name, if name == RUN_CREDENTIAL_HEADER then Some (lit "secret") else None;
        hr_opaque_header := λ _, false; hr_chunks := [] |}.
#[local] Abbreviation state_path := (boot_state_path config_path).
#[local] Abbreviation contents := (may_hold state_path).
(** The controller hands out one assignment. *)
Definition machine : Environment := λ A o h,
  match o in Op.t A return A with
  | Op.SymlinkMetadata p =>
      if (if p == state_path then bool_decide (None ∉ contents h) else present p h)
      then Ok plain_metadata else Err {| io_not_found := true; io_text := lit "absent" |}
  | Op.ReadToEnd p =>
      if p == state_path then
        match contents h with
        | Some data :: _ => Ok data
        | _ => Err {| io_not_found := true; io_text := lit "absent" |}
        end
      else Ok (written h)
  | Op.ReadToString p =>
      if p == state_path then Err {| io_not_found := false; io_text := lit "not text" |} else Ok (git_answer p)
  | Op.Send request =>
      match request with
      | HttpRequest.Claim _ => claim_reply (if existsb is_claim h then NO_CONTENT else 200%N)
      | HttpRequest.Cleanup _ => claim_reply 200
      | request => agreeable request
      end
  | o => environment_of cooperative _ o h
  end.
Definition daemon_world : World := {| w_sink := HttpLogSink_new; w_trace := [] |}.
Definition daemon_run : result AnyError LoopEnd.t * World := run_forever 5 config_path machine daemon_world.
Example daemon_run_ends : daemon_run.1 = Ok (LoopEnd.Returned (Ok tt)).
Proof. vm_compute. reflexivity. Qed.

(** ** The machine keeps linked files *)
Lemma elsewhere_differs marker p : negb (path_starts_with marker p) = true → p != marker = true.
Proof.
  intros Hp. apply negb_true_iff, bool_decide_eq_false. intros ->.
  unfold path_starts_with in Hp. by rewrite take_ge, bool_decide_eq_true_2 in Hp.
Qed.
Lemma held_present config h :
  held (containment_quarantine_path config) h = true → present (containment_quarantine_path config) h = true.
Proof.
  set (marker := containment_quarantine_path config). induction h as [|[A [o a]] h IH]; [done|].
  cbn [held present foldr]. fold (present marker h). destruct o; cbn; try exact IH.
  - rewrite andb_true_iff. intros [Hh Hp%elsewhere_differs]. by rewrite IH, Hp.
  - rewrite orb_true_iff. intros [Hh|Ha]; [by rewrite IH|]. rewrite Ha. apply orb_true_r.
  - rewrite andb_true_iff. intros [Hh Hp]. by rewrite IH, Hp.
  - rewrite andb_true_iff. intros [Hh Hp%elsewhere_differs]. by rewrite IH, Hp.
Qed.
Lemma machine_persists : obeys (supervised daemon_config) machine.
Proof.
  intros A o h. destruct o; try exact I.
  change (p = containment_quarantine_path daemon_config → held (containment_quarantine_path daemon_config) h = true →
    match machine _ (Op.SymlinkMetadata p) h with Ok _ => True | Err e => io_not_found e = false end).
  intros -> Hh%held_present. unfold machine. rewrite (bool_decide_eq_false_2 (_ = state_path)) by done. by rewrite Hh.
Qed.
Lemma machine_stores : obeys (booting config_path) machine.
Proof.
  intros A o h. destruct o; try done; intros ->; unfold machine; rewrite (bool_decide_eq_true_2 (state_path = state_path)) by done.
  - case_bool_decide as Hn; [done|]. intros _. destruct (decide (None ∈ contents h)); done.
  - done.
  - generalize (contents h). intros [|[data|] rest]; try done. by left.
Qed.

(** ** A whole run *)
Definition daemon_history : list event := w_trace daemon_run.2.
Lemma daemon_history_reachable : machine_history daemon_config daemon_history.
Proof.
  apply (lifetime _ [] machine HttpLogSink_new 5 config_path);
    [constructor|apply machine_persists|by exists daemon_history; rewrite app_nil_r|done|].
  intros c. vm_compute. by intros [= <-].
Qed.
Lemma daemon_root_clean : Forall (λ name, temporary_name name = false) (cfg_workspace_root daemon_config).
Proof. repeat constructor. Qed.
(** The histories at the claims, the latest first. *)
Fixpoint at_claims (h : list event) : list (list event) :=
  match h with [] => [] | e :: h => (if is_claim e then [h] else []) ++ at_claims h end.
Lemma at_claims_splits h h2 :
  h2 ∈ at_claims h → ∃ h1 request answer, h = h1 ++ existT _ (Op.Send (HttpRequest.Claim request), answer) :: h2.
Proof.
  induction h as [|[A [o a]] h IH]; cbn; [by intros ?%elem_of_nil|]. intros [Hc|Hr]%elem_of_app.
  - destruct o; try by apply elem_of_nil in Hc. destruct request; try by apply elem_of_nil in Hc.
    cbn in Hc. apply list_elem_of_singleton in Hc as ->. by exists [], request, a.
  - destruct (IH Hr) as (h1 & request & answer & ->). by exists (existT A (o, a) :: h1), request, answer.
Qed.
Lemma claims_only_when_settled_witness :
  length (at_claims daemon_history) = 2 ∧ Forall settled (at_claims daemon_history).
Proof.
  split; [vm_compute; reflexivity|]. apply Forall_forall. intros h2 (h1 & request & answer & Heq)%at_claims_splits.
  exact (proj1 (claims_only_when_settled daemon_config daemon_history daemon_root_clean daemon_history_reachable) _ _ _ _ Heq).
Defined.
(** The receipts with the histories at which they were sent. *)
Fixpoint at_receipts (h : list event) : list (CleanupReceiptV1 * list event) :=
  match h with
  | [] => []
  | existT _ (o, _) :: h =>
      match o with Op.Send (HttpRequest.Cleanup r) => [(r, h)] | _ => [] end ++ at_receipts h
  end.
Lemma at_receipts_splits h r h2 :
  (r, h2) ∈ at_receipts h → ∃ h1 answer, h = h1 ++ existT _ (Op.Send (HttpRequest.Cleanup r), answer) :: h2.
Proof.
  induction h as [|[A [o a]] h IH]; cbn; [by intros ?%elem_of_nil|]. intros [Hc|Hr]%elem_of_app.
  - destruct o; try by apply elem_of_nil in Hc. destruct request; try by apply elem_of_nil in Hc.
    apply list_elem_of_singleton in Hc as [= -> ->]. by exists [], a.
  - destruct (IH Hr) as (h1 & answer & ->). by exists (existT A (o, a) :: h1), answer.
Qed.
Lemma cleanup_receipts_truthful_witness :
  map fst (at_receipts daemon_history) = [daemon_receipt] ∧
  Forall (λ '(r, h), outcome_seen daemon_config (cl_run_id r) (cl_outcome r) h) (at_receipts daemon_history).
Proof.
  split; [vm_compute; reflexivity|]. apply Forall_forall. intros [r h2] (h1 & answer & Heq)%at_receipts_splits.
  exact (proj2 (cleanup_receipts_truthful daemon_config daemon_history daemon_root_clean daemon_history_reachable _ _ _ _ Heq)).
Defined.

(** ** A crash

    The daemon stops right after it started the first process, and is started again. *)
Definition is_spawn (e : event) : bool :=
  let '(existT _ (o, _)) := e in match o with Op.Spawn _ _ _ => true | _ => false end.
Fixpoint until_spawn (h : list event) : list event :=
  match h with
  | [] => []
  | e :: h' => if is_spawn e && negb (existsb is_spawn h') then e :: h' else until_spawn h'
  end.
Example crashed_daemon_refuses :
  let crashed := until_spawn daemon_history in
  let again := run_forever 5 config_path machine {| w_sink := HttpLogSink_new; w_trace := crashed |} in
  length (at_claims crashed) = 1 ∧ started crashed = true ∧ is_ok again.1 = false ∧
  length (at_claims (w_trace again.2)) = 1.
Proof. vm_compute. by split_and!. Qed.

(** ** Three boots *)
Definition boots (n : nat) : list event :=
  Nat.iter n (λ h, w_trace (allocate_boot_generation config_path machine {| w_sink := HttpLogSink_new; w_trace := h |}).2) [].
Lemma boots_reachable n : boot_history config_path (boots n).
Proof.
  induction n as [|n IH]; [constructor|]. cbn [boots Nat.iter]. fold (boots n).
  apply (boot config_path (boots n) machine HttpLogSink_new); [exact IH|exact machine_stores| |done].
  assert (is_Some (path_file_name config_path)) as Hpath by by eexists.
  destruct (allocate_spec config_path Hpath machine machine_stores {| w_sink := HttpLogSink_new; w_trace := boots n |}
    (boot_history_lawful config_path _ Hpath IH) I) as [Hr _].
  exact (runs_suffix _ _ _ Hr).
Qed.
Lemma boot_generations_increase_witness :
  issued config_path (boots 3) = [3; 2; 1]%N ∧ StronglySorted (λ g g', (g' < g)%N) (issued config_path (boots 3)).
Proof.
  split; [vm_compute; reflexivity|]. assert (is_Some (path_file_name config_path)) as Hpath by by eexists.
  exact (proj1 (boot_generations_increase config_path (boots 3) Hpath (boots_reachable 3))).
Defined.
