(* ===== verification/PairingScenario.v ===== *)
(** A concrete pairing: a worker that is paired, then paired again with another enrollment
    for the same node, on a machine that keeps its files; and a pairing that is stopped
    when its request was sent, and resumes with the same secret.

    The documents of these crates are lists of numbers, made by combinators that carry
    their round trips. *)
From Stdlib Require Import ZArith NArith Lia String.
From stdpp Require Import base option list numbers sets gmap relations.
From S2P Require Import Prelude Text Crates Protocol JobSpec Snapshot CanonicalJson WorkerReports Onboarding ControllerDb WorkerEnv WorkerClient WorkerProcess WorkerSource WorkerExecutor WorkerRuntime WorkerNode WorkerIdentity PairingLedger WorkerPairing WorkerLogic ProtectedStore CredentialSafety WorkerScenario.
Import ConcreteWorker PairingCredentialState.
#[local] Existing Instance ConcreteJson.serde_crate.
#[local] Existing Instance Concrete.uuid_crate.
Open Scope rust_scope.

(** ** Codecs *)
Class Codec (A : Type) := {
  encode : A → list N;
  decode : list N → option (A * list N);
  decode_encode a rest : decode (encode a ++ rest) = Some (a, rest)
}.
#[export] Instance N_codec : Codec N := {|
  encode n := [n];
  decode l := match l with n :: rest => Some (n, rest) | [] => None end;
  decode_encode _ _ := eq_refl
|}.
(** A type that is encoded as another one. *)
#[refine] Instance codec_via {A B} `{Codec B} (to : A → B) (from : B → A) (Hfrom : ∀ a, from (to a) = a) : Codec A | 100 := {|
  encode a := encode (to a);
  decode l := match decode l with Some (b, rest) => Some (from b, rest) | None => None end
|}.
Proof. intros a rest. by rewrite decode_encode, Hfrom. Defined.
#[local] Remove Hints codec_via : typeclass_instances.
#[export, refine] Instance prod_codec {A B} `{Codec A, Codec B} : Codec (A * B) := {|
  encode p := encode p.1 ++ encode p.2;
  decode l :=
    match decode l with
    | Some (a, l) => match decode l with Some (b, rest) => Some ((a, b), rest) | None => None end
    | None => None
    end
|}.
Proof. intros [a b] rest. cbn. by rewrite <- app_assoc, !decode_encode. Defined.
#[export, refine] Instance option_codec {A} `{Codec A} : Codec (option A) := {|
  encode o := match o with Some a => 1%N :: encode a | None => [0%N] end;
  decode l :=
    match l with
    | 0%N :: rest => Some (None, rest)
    | _ :: l => match decode l with Some (a, rest) => Some (Some a, rest) | None => None end
    | [] => None
    end
|}.
Proof. intros [a|] rest; cbn; by rewrite ?decode_encode. Defined.
Fixpoint decode_times {A} `{Codec A} (n : nat) (l : list N) : option (list A * list N) :=
  match n with
  | O => Some ([], l)
  | S n =>
      match decode l with
      | Some (a, l) => match decode_times n l with Some (al, rest) => Some (a :: al, rest) | None => None end
      | None => None
      end
  end.
#[export, refine] Instance list_codec {A} `{Codec A} : Codec (list A) := {|
  encode al := N.of_nat (length al) :: concat (encode <$> al);
  decode l := match l with n :: l => decode_times (N.to_nat n) l | [] => None end
|}.
Proof.
  intros al rest. cbn. rewrite Nat2N.id.
  induction al as [|a al IH]; [done|]. cbn. by rewrite <- app_assoc, decode_encode, IH.
Defined.
#[export] Instance bool_codec : Codec bool.
Proof. refine (codec_via (λ b : bool, if b then 1 else 0)%N (λ n, negb (n =? 0)%N) _). by intros []. Defined.
#[export] Instance Z_codec : Codec Z.
Proof.
  refine (codec_via (λ z, ((z <? 0)%Z, Z.to_N (Z.abs z))) (λ p, if p.1 : bool then - Z.of_N p.2 else Z.of_N p.2)%Z _).
  intros z. cbn. destruct (Z.ltb_spec z 0); lia.
Defined.
#[export] Instance path_codec : Codec PathBuf.
Proof. refine (codec_via (λ p, (pb_absolute p, pb_path p)) (λ p, {| pb_absolute := p.1; pb_path := p.2 |}) _). by intros []. Defined.
Definition pairing_states : list PairingCredentialState.t :=
  [Staged; PairRequestUnknown; PairAccepted; ConfigCommitted; Acknowledged; TerminalUnavailable; Superseded; Expired].
#[export] Instance state_codec : Codec PairingCredentialState.t.
Proof.
  refine (codec_via (λ s, match list_find (eq s) pairing_states with Some (i, _) => N.of_nat i | None => 0%N end)
    (λ n, unwrap_or (pairing_states !! N.to_nat n) Staged) _). by intros [].
Defined.
#[export] Instance config_codec : Codec WorkerConfig.
Proof.
  refine (codec_via (λ c, (cfg_api_version c, cfg_worker_url c, cfg_certificate_pem c, cfg_controller_id c, cfg_node_id c,
      cfg_worker_api_version c, cfg_heartbeat_interval_seconds c, cfg_lease_seconds c, cfg_workspace c, cfg_credential c))
    (λ '(v, u, p, ci, ni, wv, h, l, w, cr), Build_WorkerConfig v u p ci ni wv h l w cr) _). by intros [].
Defined.
#[export] Instance record_codec : Codec PairingCredentialRecord.
Proof.
  refine (codec_via (λ r, (rec_pairing_id r, rec_controller_id r, rec_node_id r, rec_credential_file r,
      rec_credential_sha256 r, rec_created_at r, rec_expires_at r, rec_state r, rec_previous_credential_file r,
      rec_previous_credential_sha256 r, rec_previous_cleanup_pending r, rec_cleanup_pending r))
    (λ '(p, c, n, f, d, ca, ea, s, pf, pd, pp, cp), Build_PairingCredentialRecord p c n f d ca ea s pf pd pp cp) _).
  by intros [].
Defined.
#[export] Instance ledger_codec : Codec PairingCredentialLedger.
Proof.
  refine (codec_via (λ l, (ldg_api_version l, ldg_records l)) (λ p, Build_PairingCredentialLedger p.1 p.2) _). by intros [].
Defined.
(** A whole document, with a line break behind it. *)
Definition parsed {A} `{Codec A} (data : list N) : result rstr A :=
  match decode data with Some (a, _) => Ok a | None => Err (lit "shape") end.
Lemma encoded_parsed {A} `{Codec A} (a : A) data rest :
  Ok (E := rstr) (encode a) = Ok data → parsed (data ++ rest) = Ok a.
Proof. intros [= <-]. unfold parsed. by rewrite decode_encode. Qed.

(** ** Crates *)
Definition enrollment (pairing_id : Uuid) : EnrollmentBundleV1 :=
  {| eb_api_version := ENROLLMENT_API_VERSION; eb_pairing_id := pairing_id; eb_controller_id := 2%N;
     eb_intended_node_id := 3%N; eb_worker_url := lit "https://controller.local:8443";
     eb_certificate_pem := lit "-----BEGIN CERTIFICATE-----"; eb_pairing_code := replicate 40 (chr "K");
     eb_created_at := 10%Z; eb_expires_at := 100000%Z |}.
#[local] Instance pairing_wire : NodeWireCrates := {|
  parse_claim_response _ := Err (lit "unused");
  parse_pair_response data :=
    match data with
    | pairing_id :: controller_id :: node_id :: digest =>
        Ok {| prs_api_version := WORKER_API_VERSION; prs_pairing_id := pairing_id; prs_controller_id := controller_id;
              prs_node_id := node_id; prs_credential_sha256 := digest; prs_paired_at := 5000%Z;
              prs_heartbeat_interval_seconds := 15; prs_lease_seconds := 60 |}
    | _ => Err (lit "shape")
    end;
  parse_pair_ack_response data :=
    match data with
    | pairing_id :: node_id :: digest =>
        Ok {| pas_api_version := WORKER_API_VERSION; pas_pairing_id := pairing_id; pas_node_id := node_id;
              pas_credential_sha256 := digest; pas_acknowledged_at := 5000%Z |}
    | _ => Err (lit "shape")
    end;
  url_query _ := None
|}.
#[local] Instance pairing_identity : IdentityCrates := {|
  config_json c := Ok (encode c); parse_config := parsed;
  parse_enrollment data := match data with [n] => Ok (enrollment n) | _ => Err (lit "shape") end
|}.
#[local] Instance pairing_ledger : LedgerCrates := {|
  ledger_json l := Ok (encode l); ledger_json_compact l := Ok (encode l); parse_ledger := parsed
|}.
#[local] Instance pairing_identity_laws : IdentityCratesLaws.
Proof. split. intros c data. by apply encoded_parsed. Qed.
#[local] Instance pairing_ledger_laws : LedgerCratesLaws.
Proof. split. intros l data. by apply encoded_parsed. Qed.

(** ** The machine

    A protected file holds what was stored last; the enrollments lie elsewhere. *)
Definition pairing_config : Path := [lit "etc"; lit "cyc"; lit "worker.json"].
Definition enrollment_file (pairing_id : Uuid) : Path := [lit "tmp"; [pairing_id]].
Definition enrolled (p : Path) : option Uuid :=
  match p with [_; [pairing_id]] => Some pairing_id | _ => None end.
Definition stored (p : Path) (h : list event) : Content :=
  match may_hold p h with c :: _ => c | [] => None end.
Definition no_file : IoError := {| io_not_found := true; io_text := lit "absent" |}.
Definition reply (body : list N) : result SendError HttpResponse :=
  Ok {| hr_status := 200; hr_content_type := Some (lit "application/json"); hr_content_length := None;
        hr_header := λ _, None; hr_opaque_header := λ _, false; hr_chunks := [Ok body] |}.
Definition pairing_machine : Environment := λ A o h,
  match o in Op.t A return A with
  | Op.SymlinkMetadata p => if is_some (stored p h) then Ok plain_metadata else Err no_file
  | Op.ReadToEnd p =>
      match enrolled p with Some n => Ok [n] | None => ok_or (stored p h) no_file end
  | Op.ReadToString p =>
      match stored p h with
      | Some data => if bytes data == data then Ok data else Err no_file
      | None => Err no_file
      end
  | Op.Send request =>
      match request with
      | HttpRequest.Pair b r => reply (pr_pairing_id r :: eb_controller_id b :: pr_intended_node_id r :: pr_credential_sha256 r)
      | HttpRequest.PairAck r => reply (par_pairing_id r :: par_node_id r :: par_credential_sha256 r)
      | _ => Err (NotBuilt (lit "unused"))
      end
  | o => environment_of cooperative _ o h
  end.
Definition pairing_run (pairing_id : Uuid) (repair : bool) (h : list event) : result AnyError WorkerConfig * World :=
  pair_worker (enrollment_file pairing_id) (absolute pairing_config)
    {| opt_workspace_root := None; opt_repair := repair |} pairing_machine {| w_sink := HttpLogSink_new; w_trace := h |}.
Definition first_pairing : list event := w_trace (pairing_run 11%N false []).2.
Definition second_pairing : list event := w_trace (pairing_run 12%N true first_pairing).2.
Example pairings_succeed :
  is_ok (pairing_run 11%N false []).1 = true ∧ is_ok (pairing_run 12%N true first_pairing).1 = true.
Proof. vm_compute. by split. Qed.

(** ** The machine is honest *)
Lemma enrolled_untracked p n : enrolled p = Some n → ¬ tracked pairing_config p.
Proof.
  destruct p as [|a [|[|c [|]] [|]]]; try done. intros _ [E|[E|[E _]]]; [by apply (f_equal length) in E..|].
  unfold credential_like, path_extension, path_file_name in E. cbn [last] in E. case_bool_decide; [done|].
  cbn [option_bind mbind] in E. unfold file_extension in E. cbn [rev app split_once] in E.
  destruct (c =? chr ".")%N; discriminate E.
Qed.
Lemma stored_held p h c : stored p h = c → c ≠ None → c ∈ may_hold p h.
Proof. unfold stored. destruct (may_hold p h); [by intros <-|]. intros -> _. by left. Qed.
Lemma never_empty p h : may_hold p h ≠ [].
Proof.
  induction h as [|[A [o a]] h IH]; [done|]. change (held_after_event p (existT A (o, a)) (may_hold p h) ≠ []).
  revert IH. generalize (may_hold p h) as l. intros l Hl.
  assert (∀ c, narrow c l ≠ []) as Hn by (intros c; unfold narrow; by case_bool_decide).
  assert (∀ ok c, replaced ok c l ≠ []) as Hr by (intros [] c; done).
  destruct o; cbn; repeat case_match; auto.
Qed.
Lemma stored_absent p h : stored p h = None → None ∈ may_hold p h.
Proof. pose proof (never_empty p h) as Hn. unfold stored. destruct (may_hold p h); [done|]. intros ->. by left. Qed.
Lemma pairing_machine_honest : obeys (pairing_discipline pairing_config [lit "etc"; lit "cyc"]) pairing_machine.
Proof.
  intros A o h. split; [|by destruct o]. destruct o; try done; cbn [honest_store pairing_machine]; intros Ht.
  - destruct (stored p h) eqn:E; [done|]. intros _. by apply stored_absent.
  - destruct (stored p h) as [data|] eqn:E; [|done]. case_bool_decide as Hb; [|done]. rewrite Hb. by apply stored_held.
  - destruct (enrolled p) eqn:E; [by apply enrolled_untracked in E|].
    destruct (stored p h) eqn:E'; [|done]. by apply stored_held.
Qed.
Lemma pairing_config_file : config_file pairing_config [lit "etc"; lit "cyc"] (lit "worker.json").
Proof. split_and!; by vm_compute. Qed.

(** ** Two pairings *)
Lemma pairing_runs pairing_id repair h :
  pairing_history pairing_config [lit "etc"; lit "cyc"] h →
  pairing_history pairing_config [lit "etc"; lit "cyc"] (w_trace (pairing_run pairing_id repair h).2).
Proof.
  intros Hh. unfold pairing_run.
  eapply (pairing _ _ h pairing_machine HttpLogSink_new (enrollment_file pairing_id));
    [exact Hh|exact pairing_machine_honest| |reflexivity].
  pose proof (pairing_history_lawful _ _ _ _ pairing_config_file Hh) as Hl. destruct pairing_config_file as (Hp & Hn & He).
  destruct (pair_worker_spec pairing_config _ _ Hp Hn He pairing_machine pairing_machine_honest (enrollment_file pairing_id)
    {| opt_workspace_root := None; opt_repair := repair |} {| w_sink := HttpLogSink_new; w_trace := h |}
    (lawful_bound _ _ _ Hp Hn _ Hl) I) as [Hr _].
  exact (runs_suffix _ _ _ Hr).
Qed.
Lemma second_pairing_reachable : pairing_history pairing_config [lit "etc"; lit "cyc"] second_pairing.
Proof. repeat apply pairing_runs. constructor. Qed.

(** The events of a kind, with the histories before them, the latest first. *)
Section at_.
Context {X : Type} (kind : event → option X).
Fixpoint at_ (h : list event) : list (X * list event) :=
  match h with
  | [] => []
  | e :: h => match kind e with Some x => [(x, h)] | None => [] end ++ at_ h
  end.
Lemma at_splits h x h2 : (x, h2) ∈ at_ h → ∃ h1 e, h = h1 ++ e :: h2 ∧ kind e = Some x.
Proof.
  induction h as [|e h IH]; cbn; [by intros ?%elem_of_nil|]. intros [Hc|Hr]%elem_of_app.
  - destruct (kind e) eqn:E; [|by apply elem_of_nil in Hc]. apply list_elem_of_singleton in Hc as [= -> ->]. by exists [], e.
  - destruct (IH Hr) as (h1 & e' & -> & He). by exists (e :: h1), e'.
Qed.
End at_.
Definition asked (e : event) : option (EnrollmentBundleV1 * PairRequest) :=
  let '(existT _ (o, _)) := e in match o with Op.Send (HttpRequest.Pair b r) => Some (b, r) | _ => None end.
Definition acknowledged (e : event) : option PairAckRequest :=
  let '(existT _ (o, _)) := e in match o with Op.Send (HttpRequest.PairAck r) => Some r | _ => None end.
Definition written_file (e : event) : option (Path * list N) :=
  let '(existT _ (o, _)) := e in
  match o with Op.WriteProtected p data | Op.ReplaceProtected p data => Some (p, data) | _ => None end.
Definition removed_file (e : event) : option Path :=
  let '(existT _ (o, _)) := e in match o with Op.RemoveProtected p => Some p | _ => None end.
Lemma pairing_writes_ahead_witness :
  map (λ x, pr_pairing_id x.1.2) (at_ asked second_pairing) = [12; 11]%N ∧
  map (λ x, par_pairing_id x.1) (at_ acknowledged second_pairing) = [12; 11]%N ∧
  Forall (λ '(b, r, h), asks_safely pairing_config b r h) (at_ asked second_pairing) ∧
  Forall (λ '(r, h), acknowledges_safely pairing_config r h) (at_ acknowledged second_pairing).
Proof.
  pose proof (pairing_writes_ahead pairing_config _ _ second_pairing pairing_config_file second_pairing_reachable) as [Hask Hack].
  split; [vm_compute; reflexivity|]. split; [vm_compute; reflexivity|]. split; apply Forall_forall.
  - intros [[b r] h2] (h1 & [A [o a]] & Heq & He)%at_splits. destruct o; try discriminate He.
    destruct request; try discriminate He. injection He as -> ->. exact (Hask _ _ _ _ _ Heq).
  - intros [r h2] (h1 & [A [o a]] & Heq & He)%at_splits. destruct o; try discriminate He.
    destruct request; try discriminate He. injection He as ->. exact (Hack _ _ _ _ Heq).
Defined.
Lemma credentials_owned_witness :
  map fst (at_ removed_file second_pairing) = [staged_path pairing_config 11%N] ∧
  Forall (λ '(p, h), removes_safely pairing_config [lit "etc"; lit "cyc"] p h) (at_ removed_file second_pairing) ∧
  Forall (λ '(p, data, h), stores_safely pairing_config p data h) (at_ written_file second_pairing).
Proof.
  pose proof (credentials_owned pairing_config _ _ second_pairing pairing_config_file second_pairing_reachable) as [Hstore Hremove].
  split; [vm_compute; reflexivity|]. split; apply Forall_forall.
  - intros [p h2] (h1 & [A [o a]] & Heq & He)%at_splits. destruct o; try discriminate He.
    injection He as ->. exact (Hremove _ _ _ _ Heq).
  - intros [[p data] h2] (h1 & [A [o a]] & Heq & He)%at_splits.
    destruct o; try discriminate He; injection He as -> ->; eapply Hstore; [left|right]; exact Heq.
Defined.

(** ** A pairing that is stopped

    The machine stops when the request was sent, before the answer is in the ledger; the
    next pairing with the same enrollment sends the same digest again. *)
Definition stopped_pairing : list event :=
  match at_ asked first_pairing with
  | ((b, r), h) :: _ => existT _ (Op.Send (HttpRequest.Pair b r), Err (NotBuilt (lit "lost"))) :: h
  | [] => []
  end.
Example stopped_pairing_resumes :
  let again := pairing_run 11%N false stopped_pairing in
  is_ok again.1 = true ∧
  match at_ asked (w_trace again.2) with
  | [((_, r2), _); ((_, r1), _)] => pr_credential_sha256 r2 = pr_credential_sha256 r1
  | _ => False
  end.
Proof. vm_compute. by split. Qed.
