(* ===== verification/WorkerApi.v ===== *)
(** The controller's listener for workers: [crates/cyc-controller/src/worker_api.rs].

    A request is authenticated from its head alone before a handler sees its body; the
    handler parses and validates the body, calls the store and answers.  A handler is a
    program of store calls ([prog]), between which other requests may be served. *)
From Stdlib Require Import ZArith NArith Lia String.
From stdpp Require Import base option list numbers sets gmap.
From S2P Require Import Prelude Text Crates Protocol PortablePath Snapshot RunState JobSpec CanonicalJson NodeState WorkerReports WorkerRun Cleanup Onboarding ControllerDb FleetNodes Leases NodeWrites Uploads RunControl Pairings ControllerCalls WorkerEnv WorkerClient WorkerNode.
Open Scope rust_scope.

Definition MAX_WORKER_BODY_BYTES : N := 64 * 1024 * 1024.
Definition MAX_WORKER_JSON_BODY_BYTES : N := 1024 * 1024.
Definition MAX_LOG_CHUNK_BYTES : N := 1024 * 1024.
Definition MAX_UPLOAD_ARTIFACT_BYTES : N := MAX_RUN_ARTIFACT_BYTES.
Definition HEARTBEAT_INTERVAL_SECONDS : N := 5.
Definition IDLE_RETRY_SECONDS : N := 2.
Definition PAIR_AUTH_SCHEME : rstr := lit "Pairing".
Definition WORKER_AUTH_SCHEME : rstr := lit "Bearer".
Definition LEASE_ID_HEADER : rstr := lit "x-cyc-lease-id".
Definition LOG_STREAM_HEADER : rstr := lit "x-cyc-stream".
Definition LOG_OFFSET_HEADER : rstr := lit "x-cyc-offset".
Definition ARTIFACT_NAME_HEADER : rstr := lit "x-cyc-artifact-name".
Definition AUTHORIZATION : rstr := lit "authorization".
Definition CONTENT_TYPE : rstr := lit "content-type".
Definition ORIGIN : rstr := lit "origin".
Definition CACHE_CONTROL : rstr := lit "cache-control".

(** ** Requests *)
Module Method.
Inductive t := Get | Head | Post | Put | Other.
#[export] Instance eq_dec : EqDecision t.
Proof. solve_decision. Defined.
End Method.
Export (hints) Method.
(** The head of a request: its raw path, and its headers by lower-case name.  A value is
    [None] when [HeaderValue::to_str] fails on it. *)
Record Head := { hd_method : Method.t; hd_path : rstr; hd_headers : list (rstr * option rstr) }.
Definition header (name : rstr) (h : Head) : option (option rstr) :=
  snd <$> List.find (λ e : rstr * option rstr, e.1 == name) (hd_headers h).
(** [headers.get(name).and_then(|value| value.to_str().ok())] *)
Definition text_header (name : rstr) (h : Head) : option rstr := header name h ≫= id.

(** ** Errors *)
Record WorkerApiError := {
  wae_status : N;
  wae_code : rstr;
  wae_message : rstr;
  wae_current_version : option N;
  wae_cancel_requested : option bool;
  wae_current_state : option JobState.t
}.
Definition WorkerApiError_new (status : N) (code message : rstr) : WorkerApiError :=
  {| wae_status := status; wae_code := code; wae_message := message; wae_current_version := None;
     wae_cancel_requested := None; wae_current_state := None |}.
Definition invalid_request : WorkerApiError :=
  WorkerApiError_new 400 (lit "invalid_request") (lit "request is invalid").
Definition unsupported_media_type : WorkerApiError :=
  WorkerApiError_new 415 (lit "invalid_content_type") (lit "the endpoint requires its documented Content-Type").
Definition unauthorized : WorkerApiError :=
  WorkerApiError_new 401 (lit "unauthorized") (lit "worker authentication failed").
Definition unavailable : WorkerApiError :=
  WorkerApiError_new 503 (lit "worker_listener_unavailable") (lit "managed worker service is unavailable").
Definition payload_too_large : WorkerApiError :=
  WorkerApiError_new 413 (lit "payload_too_large") (lit "upload exceeds the endpoint limit").
Definition internal : WorkerApiError :=
  WorkerApiError_new 500 (lit "internal_error") (lit "controller operation failed").
Definition origin_forbidden : WorkerApiError :=
  WorkerApiError_new 403 (lit "origin_forbidden") (lit "browser Origin requests are not accepted").

(** ** Answers *)
Record LogChunkResponse := {
  lcr_run_id : Uuid; lcr_stream : rstr; lcr_offset : N; lcr_length : N; lcr_sha256 : rstr
}.
(** The body of an answer, before it is serialized.  [File] is the stream of a snapshot's
    file, cut after so many bytes; [Framework] what axum says when it rejects a request. *)
Module Body.
Inductive t :=
| Empty
| Pair (r : PairResponse)
| PairAck (r : PairAckResponse)
| Claim (r : ClaimResponse)
| Heartbeat (r : HeartbeatResponse)
| State (r : StateUpdateResponse)
| Cleanup (r : CleanupReceiptV1)
| Log (r : LogChunkResponse)
| Artifact (r : ArtifactMetadata)
| File (path : rstr) (limit : N)
| Error (e : WorkerApiError)
| Framework.
End Body.
Record Response := { rs_status : N; rs_headers : list (rstr * rstr); rs_body : Body.t }.
Definition no_store : rstr * rstr := (CACHE_CONTROL, lit "no-store").
Definition rejected (status : N) : Response := {| rs_status := status; rs_headers := []; rs_body := Body.Framework |}.
(** [IntoResponse for WorkerApiError] *)
Definition error_response (e : WorkerApiError) : Response :=
  {| rs_status := wae_status e;
     rs_headers := if wae_status e == 401%N then [(lit "www-authenticate", lit "Bearer")] else [];
     rs_body := Body.Error e |}.

(** serde_json for the requests and for the numbers and states of an error; [Uuid::from_str]; percent decoding of a captured segment
    of the path, as axum's [Path] does it; [HeaderValue::from_str], and [HeaderValue::from_bytes], which also takes
    texts that [to_str] then fails on; [DateTime::to_rfc3339]. *)
Class ApiCrates `{SerdeJsonCrate} := {
  parse_pair_request : list N → option PairRequest;
  parse_pair_ack_request : list N → option PairAckRequest;
  parse_claim_request : list N → option ClaimRequest;
  parse_node_report : list N → option NodeReportRequest;
  parse_heartbeat_request : list N → option HeartbeatRequest;
  parse_state_update : list N → option StateUpdate;
  parse_completion : list N → option RunCompletion;
  parse_cleanup : list N → option CleanupReceiptV1;
  parse_uuid : rstr → option Uuid;
  percent_decode : rstr → option rstr;
  header_value_ok : rstr → bool;
  header_bytes_ok : rstr → bool;
  to_rfc3339 : DateTime → rstr;
  json_u64 : N → json_number;
  state_to_value : JobState.t → Value json_number
}.
(** What the listener is started with: the endpoint that workers are told of, and the
    identity of the controller, which is stored once. *)
Record AppState := { app_public_url : option rstr; app_controller_id : Uuid }.

(** ** Routes *)
Module RunRoute.
Inductive t := Heartbeat | State | Complete | Cleanup | Logs.
#[export] Instance eq_dec : EqDecision t.
Proof. solve_decision. Defined.
End RunRoute.
Export (hints) RunRoute.
Module Route.
Inductive t :=
| Pair | PairAck | Claim | NodeReport
| Run (operation : RunRoute.t) (run : rstr)
| Artifact (run artifact : rstr)
| Source (run digest : rstr).
End Route.
Definition run_operation (segment : rstr) : option RunRoute.t :=
  if segment == lit "heartbeat" then Some RunRoute.Heartbeat
  else if segment == lit "state" then Some RunRoute.State
  else if segment == lit "complete" then Some RunRoute.Complete
  else if segment == lit "cleanup" then Some RunRoute.Cleanup
  else if segment == lit "logs" then Some RunRoute.Logs
  else None.
(** The routes of [router]; a capture is a segment that is not empty. *)
Definition route_of (path : rstr) : option Route.t :=
  rest ← strip_prefix (lit "/worker/v1/") path;
  match split SLASH rest with
  | [a] =>
      if a == lit "pair" then Some Route.Pair
      else if a == lit "claim" then Some Route.Claim
      else if a == lit "node-report" then Some Route.NodeReport
      else None
  | [a; b] => if (a == lit "pair") && (b == lit "ack") then Some Route.PairAck else None
  | [a; run; operation] =>
      if (a == lit "runs") && negb (is_empty run)
      then operation ← run_operation operation; Some (Route.Run operation run)
      else None
  | [a; run; kind; tail] =>
      if (a == lit "runs") && negb (is_empty run) && negb (is_empty tail) then
        if kind == lit "artifacts" then Some (Route.Artifact run tail)
        else if kind == lit "source" then Some (Route.Source run tail)
        else None
      else None
  | _ => None
  end.
(** axum's [get] also takes HEAD. *)
Definition method_allowed (r : Route.t) (m : Method.t) : bool :=
  match r with Route.Source _ _ => (m == Method.Get) || (m == Method.Head) | _ => m == Method.Post end.
Definition body_limit (r : Route.t) : N :=
  match r with
  | Route.Run RunRoute.Logs _ => MAX_LOG_CHUNK_BYTES
  | Route.Artifact _ _ => MAX_UPLOAD_ARTIFACT_BYTES
  | Route.Source _ _ => MAX_WORKER_BODY_BYTES
  | _ => MAX_WORKER_JSON_BODY_BYTES
  end.

(** ** Secrets and headers *)
Definition valid_secret (secret : rstr) : bool :=
  between 32 256 (len secret)
  && forallb (λ byte, is_ascii_graphic byte && negb (is_ascii_whitespace byte)) (bytes secret).
Definition authorization_secret (scheme : rstr) (h : Head) : result WorkerApiError rstr :=
  value ← ok_or (text_header AUTHORIZATION h) unauthorized;
  '(given, secret) ← ok_or (split_once (chr " ") value) unauthorized;
  reject_if (negb (eq_ignore_ascii_case given scheme) || negb (valid_secret secret)) unauthorized;;
  Ok secret.
Definition required_text_header (name : rstr) (h : Head) : result WorkerApiError rstr :=
  value ← ok_or (text_header name h) invalid_request;
  reject_if (is_empty value || (1024 <? len value)%N) invalid_request;;
  Ok value.
Definition required_secret_header (name : rstr) (h : Head) : result WorkerApiError rstr :=
  value ← required_text_header name h;
  reject_if (negb (valid_secret value)) unauthorized;;
  Ok value.
(** The two secrets of a request about a run. *)
Definition run_secrets (h : Head) : result WorkerApiError (rstr * rstr) :=
  worker ← authorization_secret WORKER_AUTH_SCHEME h;
  run ← required_secret_header RUN_CREDENTIAL_HEADER h;
  Ok (worker, run).
Definition parse_json {A} (parse : list N → option A) (h : Head) (data : list N) : result WorkerApiError A :=
  let content_type := (λ value, trim (hd [] (split (chr ";") value))) <$> text_header CONTENT_TYPE h in
  reject_if (is_none_or content_type (λ value, negb (eq_ignore_ascii_case value (lit "application/json"))))
    unsupported_media_type;;
  ok_or (parse data) invalid_request.
Definition require_binary_content_type (h : Head) : result WorkerApiError unit :=
  reject_if (is_none_or (text_header CONTENT_TYPE h)
               (λ value, negb (eq_ignore_ascii_case value (lit "application/octet-stream")))) unsupported_media_type.

Section api.
Context `{UuidCrate, ChronoCrate, SerdeJsonCrate, !StoreSerde, DigestCrate, !ApiCrates}.

(** [From<StoreError> for WorkerApiError]; a panic inside a store call is a join error. *)
Definition from_store (e : StoreError.t json_error) : WorkerApiError :=
  match e with
  | StoreError.WorkerUnauthorized | StoreError.RunUnauthorized => unauthorized
  | StoreError.PairingUnavailable =>
      WorkerApiError_new 410 (lit "pairing_unavailable") (lit "pairing code is expired, used, or revoked")
  | StoreError.PairingBindingMismatch =>
      WorkerApiError_new 409 (lit "pairing_binding_mismatch") (lit "pairing retry does not match the consumed binding")
  | StoreError.InvalidCredentialDigest | StoreError.InvalidUpload | StoreError.InvalidManagedNode => invalid_request
  | StoreError.PairingAcknowledgementUnavailable =>
      WorkerApiError_new 401 (lit "pairing_ack_unauthorized") (lit "pairing acknowledgement authentication failed")
  | StoreError.NotFound => WorkerApiError_new 404 (lit "not_found") (lit "requested run was not found")
  | StoreError.VersionConflict current_version =>
      {| wae_status := 409; wae_code := lit "version_conflict"; wae_message := lit "run state version changed";
         wae_current_version := Some current_version; wae_cancel_requested := None; wae_current_state := None |}
  | StoreError.NodeConfigVersionConflict _ | StoreError.InvalidNodeConfig =>
      WorkerApiError_new 409 (lit "controller_conflict")
        (lit "controller node configuration conflicts with this worker request")
  | StoreError.WorkerStateConflict current_version cancel_requested current_state =>
      {| wae_status := 409; wae_code := lit "state_conflict";
         wae_message := lit "run state no longer accepts this operation";
         wae_current_version := Some current_version; wae_cancel_requested := Some cancel_requested;
         wae_current_state := Some current_state |}
  | StoreError.InvalidTransition | StoreError.CancellationPending =>
      WorkerApiError_new 409 (lit "state_conflict") (lit "run state no longer accepts this operation")
  | StoreError.InvalidRunEvidence =>
      WorkerApiError_new 422 (lit "invalid_run_evidence") (lit "run evidence is missing or inconsistent")
  | StoreError.InvalidNodeReport =>
      WorkerApiError_new 422 (lit "invalid_node_report") (lit "node inventory or telemetry is invalid")
  | StoreError.UploadConflict =>
      WorkerApiError_new 409 (lit "upload_conflict") (lit "upload conflicts with stored content")
  | StoreError.UploadOffset => WorkerApiError_new 409 (lit "upload_offset") (lit "log offset is not contiguous")
  | StoreError.DigestMismatch =>
      WorkerApiError_new 422 (lit "digest_mismatch") (lit "uploaded bytes do not match the declared digest")
  | StoreError.LogQuotaExceeded =>
      WorkerApiError_new 413 (lit "log_quota_exceeded") (lit "run log quota is exhausted")
  | StoreError.ArtifactQuotaExceeded =>
      WorkerApiError_new 413 (lit "artifact_quota_exceeded") (lit "run artifact quota is exhausted")
  | StoreError.SnapshotQuotaExceeded =>
      WorkerApiError_new 413 (lit "snapshot_too_large") (lit "snapshot archive exceeds the controller limit")
  | StoreError.InvalidCleanupReceipt =>
      WorkerApiError_new 422 (lit "invalid_cleanup_receipt")
        (lit "cleanup receipt does not match the terminal acknowledgement")
  | StoreError.CleanupConflict =>
      WorkerApiError_new 409 (lit "cleanup_conflict") (lit "cleanup receipt conflicts with immutable stored evidence")
  | StoreError.InvalidPairingOperationKey | StoreError.PairingIdempotencyMismatch
  | StoreError.PairingIdempotencyFinalized _ | StoreError.PairingFailureMismatch
  | StoreError.PairingFailureFinalized _ =>
      WorkerApiError_new 409 (lit "controller_conflict")
        (lit "controller pairing state conflicts with this worker request")
  | StoreError.Conflict | StoreError.PlanExpired | StoreError.PlanStale | StoreError.PlanDigestMismatch
  | StoreError.Schedule _ =>
      WorkerApiError_new 409 (lit "controller_conflict") (lit "controller state conflicts with this worker request")
  | StoreError.Database | StoreError.Document _ | StoreError.NodeState _ | StoreError.InvalidPlanBinding
  | StoreError.InvalidFleetRevision | StoreError.InvalidPairingFailureState | StoreError.Timestamp | StoreError.Io
  | StoreError.Panicked => internal
  end.

(** The document of an error. *)
Definition error_value (e : WorkerApiError) : Value json_number :=
  let optional {A} (name : rstr) (f : A → Value json_number) (o : option A) : list (rstr * Value json_number) :=
    match o with Some a => [(name, f a)] | None => [] end in
  Object [(lit "error",
    Object ([(lit "code", Str (wae_code e)); (lit "message", Str (wae_message e))]
            ++ optional (lit "currentVersion") (λ n, Num (json_u64 n)) (wae_current_version e)
            ++ optional (lit "cancelRequested") Bool (wae_cancel_requested e)
            ++ optional (lit "currentState") state_to_value (wae_current_state e)))].

(** ** Programs of store calls *)
Inductive prog (A : Type) : Type :=
| Done (a : A)
| Ask {B} (r : Request B) (k : result (StoreError.t json_error) B → prog A).
#[global] Arguments Done {A} _.
#[global] Arguments Ask {A B} _ _.
#[global] Instance prog_ret : MRet prog := @Done.
#[global] Instance prog_bind : MBind prog := λ A B k,
  fix bind (m : prog A) : prog B :=
    match m with
    | Done a => k a
    | Ask r next => Ask r (λ answer, bind (next answer))
    end.
(** Code that fails with an error of the listener. *)
Abbreviation served A := (prog (result WorkerApiError A)).
Definition attempt {E A B} (m : prog (result E A)) (k : A → prog (result E B)) : prog (result E B) :=
  r ← m; match r with Ok a => k a | Err e => Done (Err e) end.
Definition checked {E A B} (r : result E A) (k : A → prog (result E B)) : prog (result E B) :=
  match r with Ok a => k a | Err e => Done (Err e) end.
(** [store_call] *)
Definition store_call {A} (r : Request A) : served A :=
  Ask r (λ answer, Done (map_err from_store answer)).
#[local] Notation "x ←! r ; k" := (checked r (λ x, k))
  (at level 20, r at level 100, k at level 200, only parsing) : stdpp_scope.
#[local] Notation "' x ←! r ; k" := (checked r (λ x, k))
  (at level 20, x pattern, r at level 100, k at level 200, only parsing) : stdpp_scope.
#[local] Notation "x ←& m ; k" := (attempt m (λ x, k))
  (at level 20, m at level 100, k at level 200, only parsing) : stdpp_scope.
#[local] Notation "' x ←& m ; k" := (attempt m (λ x, k))
  (at level 20, x pattern, m at level 100, k at level 200, only parsing) : stdpp_scope.
(** [value.validate().map_err(|_| e)] *)
Definition or_else {E} (e : WorkerApiError) (r : result E unit) : result WorkerApiError unit := map_err (λ _, e) r.
Definition answer (r : Response) : served Response := Done (Ok r).
Definition as_header (value : rstr) : result WorkerApiError rstr :=
  reject_if (negb (header_value_ok value)) internal;; Ok value.

(** ** Authentication from the head *)
(** [run_route]: on the raw path, with its own idea of the segments *)
Definition run_route (path : rstr) : option (Uuid * bool) :=
  rest ← strip_prefix (lit "/worker/v1/runs/") path;
  match split SLASH rest with
  | run :: operation :: tail =>
      run_id ← parse_uuid run;
      let exact_shape :=
        if existsb (λ name, operation == name)
             [lit "heartbeat"; lit "state"; lit "complete"; lit "cleanup"; lit "logs"]
        then is_empty tail
        else ((operation == lit "artifacts") || (operation == lit "source")) && (length tail == 1) in
      if exact_shape then Some (run_id, (operation == lit "complete") || (operation == lit "cleanup")) else None
  | _ => None
  end.
(** [preauthorize_before_body]: [None] says that the request passes without. *)
Definition preauthorize_before_body (h : Head) : option (served unit) :=
  let path := hd_path h in
  if path == lit "/worker/v1/pair" then
    Some (code ←! authorization_secret PAIR_AUTH_SCHEME h; store_call (PreauthorizePairing code))
  else if path == lit "/worker/v1/pair/ack" then
    Some (credential ←! authorization_secret WORKER_AUTH_SCHEME h; store_call (PreauthorizePairingAck credential))
  else if (path == lit "/worker/v1/claim") || (path == lit "/worker/v1/node-report") then
    Some (credential ←! authorization_secret WORKER_AUTH_SCHEME h;
          _ ←& store_call (AuthenticateWorker credential); Done (Ok tt))
  else
    '(run_id, allow_revoked_completion) ← run_route path;
    Some ('(worker, run) ←! run_secrets h;
          store_call (PreauthorizeRunRoute worker run run_id allow_revoked_completion)).

(** ** Handlers *)
Definition node_from_probe (id : Uuid) (display_name : option rstr) (probe : ProbeReport) (endpoint : rstr)
    (daemon_active : bool) : Node :=
  {| node_id := id; node_name := unwrap_or display_name (probe_hostname probe); node_enabled := true;
     node_transport := NodeTransport.Managed endpoint (lit "controller-db:managed-worker");
     node_os := probe_os probe; node_arch := probe_arch probe;
     node_status := if daemon_active then NodeStatus.Online else NodeStatus.Offline;
     node_capabilities := probe_capabilities probe; node_resources := probe_resources probe;
     node_load := probe_load probe; node_priority := 0; node_labels := []; node_cached_sources := [];
     node_last_seen_at := if daemon_active then Some (probe_observed_at probe) else None |}.
Definition json_response (status : N) (body : Body.t) : Response :=
  {| rs_status := status; rs_headers := []; rs_body := body |}.
Definition state_update_response (stored : StoredJob) : StateUpdateResponse :=
  {| sur_run := st_run stored; sur_state_version := st_version stored;
     sur_cancel_requested := st_cancel_requested stored |}.

Section handlers.
Context (app : AppState).

(** Of each handler first what follows once its arguments are extracted and parsed. *)
Definition answer_node_report (credential : rstr) (report : NodeReportRequest) : served Response :=
  _ ←! or_else invalid_request (NodeReportRequest_validate report);
  outcome ←& store_call (RecordNodeReport credential report);
  revision ←! as_header (fmt_Z (nro_inventory_revision outcome));
  generation ←! as_header (fmt_N (nro_telemetry_boot_generation outcome));
  sequence ←! as_header (fmt_N (nro_telemetry_sequence outcome));
  answer {| rs_status := NO_CONTENT;
            rs_headers := [no_store;
                           (NODE_REPORT_ACCEPTED_HEADER, if nro_accepted outcome then lit "true" else lit "false");
                           (NODE_REPORT_INVENTORY_REVISION_HEADER, revision);
                           (NODE_REPORT_BOOT_GENERATION_HEADER, generation);
                           (NODE_REPORT_SEQUENCE_HEADER, sequence)];
            rs_body := Body.Empty |}.
Definition node_report (h : Head) (data : list N) : served Response :=
  credential ←! authorization_secret WORKER_AUTH_SCHEME h;
  report ←! parse_json parse_node_report h data;
  answer_node_report credential report.
Definition pair_response (paired : PairedWorker) : PairResponse :=
  {| prs_api_version := WORKER_API_VERSION; prs_pairing_id := pw_pairing_id paired;
     prs_controller_id := app_controller_id app; prs_node_id := pw_node_id paired;
     prs_credential_sha256 := pw_credential_sha256 paired; prs_paired_at := pw_consumed_at paired;
     prs_heartbeat_interval_seconds := HEARTBEAT_INTERVAL_SECONDS;
     prs_lease_seconds := Z.to_N CLAIM_TTL_SECONDS |}.
Definition answer_pair (code : rstr) (request : PairRequest) : served Response :=
  _ ←! or_else invalid_request (PairRequest_validate request);
  public_url ←! ok_or (app_public_url app) unavailable;
  (let node := node_from_probe (pr_intended_node_id request) (pr_display_name request) (pr_probe request)
                 public_url false in
   paired ←& store_call (ConsumePairing code (pr_pairing_id request) (pr_intended_node_id request)
                           (pr_credential_sha256 request) node);
   let response := pair_response paired in
   _ ←! or_else internal (PairResponse_validate response);
   answer {| rs_status := if pw_replayed paired then 200 else 201; rs_headers := [no_store];
             rs_body := Body.Pair response |}).
Definition pair (h : Head) (data : list N) : served Response :=
  code ←! authorization_secret PAIR_AUTH_SCHEME h;
  request ←! parse_json parse_pair_request h data;
  answer_pair code request.
Definition pair_ack_response (acknowledgement : PairingAcknowledgement) : PairAckResponse :=
  {| pas_api_version := WORKER_API_VERSION; pas_pairing_id := pk_pairing_id acknowledgement;
     pas_node_id := pk_node_id acknowledgement; pas_credential_sha256 := pk_credential_sha256 acknowledgement;
     pas_acknowledged_at := pk_acknowledged_at acknowledgement |}.
Definition answer_pair_ack (credential : rstr) (request : PairAckRequest) : served Response :=
  _ ←! or_else invalid_request (PairAckRequest_validate request);
  acknowledgement ←& store_call (AcknowledgePairing credential (par_pairing_id request) (par_node_id request)
                                   (par_credential_sha256 request));
  (let response := pair_ack_response acknowledgement in
   _ ←! or_else internal (PairAckResponse_validate response);
   answer {| rs_status := 200; rs_headers := [no_store]; rs_body := Body.PairAck response |}).
Definition pair_ack (h : Head) (data : list N) : served Response :=
  credential ←! authorization_secret WORKER_AUTH_SCHEME h;
  request ←! parse_json parse_pair_ack_request h data;
  answer_pair_ack credential request.
(** The assignment of a claimed run *)
Definition assignment_of_claim (claim : WorkerClaim) : ClaimAssignment :=
  let run := run_id (st_run (wcl_stored claim)) in
  {| ca_job_id := job_id (st_job (wcl_stored claim)); ca_run_id := run; ca_job_digest := wcl_job_digest claim;
     ca_lease_id := wcl_lease_id claim; ca_lease_until := wcl_lease_until claim;
     ca_state_version := st_version (wcl_stored claim); ca_job_spec := st_job (wcl_stored claim);
     ca_workspace := {| ws_relative_root := lit "jobs/" ++ uuid_display run; ws_source_directory := lit "repo";
                        ws_logs_directory := lit "logs"; ws_artifacts_directory := lit "artifacts" |};
     ca_limits := {| lim_job_timeout_seconds := lim_job_timeout_seconds ExecutionLimits_default;
                     lim_max_log_bytes := MAX_RUN_LOG_BYTES; lim_max_artifact_bytes := MAX_RUN_ARTIFACT_BYTES;
                     lim_max_artifact_count := MAX_RUN_ARTIFACT_COUNT |} |}.
Definition claim_answer (claim : option WorkerClaim) : result WorkerApiError Response :=
  match claim with
  | None => Ok {| rs_status := NO_CONTENT; rs_headers := []; rs_body := Body.Empty |}
  | Some claim =>
      let assignment := assignment_of_claim claim in
      or_else internal (ClaimAssignment_validate assignment);;
      credential ← as_header (wcl_run_credential claim);
      Ok {| rs_status := 200; rs_headers := [(RUN_CREDENTIAL_HEADER, credential); no_store];
            rs_body := Body.Claim {| crs_assignment := Some assignment; crs_retry_after_seconds := IDLE_RETRY_SECONDS |} |}
  end.
Definition answer_claim (credential : rstr) (request : ClaimRequest) : served Response :=
  _ ←! or_else invalid_request (ClaimRequest_validate request);
  node_id ←& store_call (AuthenticateWorker credential);
  public_url ←! ok_or (app_public_url app) unavailable;
  claim ←& store_call (ClaimJob credential (node_from_probe node_id None (cr_probe request) public_url true));
  Done (claim_answer claim).
Definition claim (h : Head) (data : list N) : served Response :=
  credential ←! authorization_secret WORKER_AUTH_SCHEME h;
  request ←! parse_json parse_claim_request h data;
  answer_claim credential request.

(** The handlers of one run; [run_id] is the segment of the path. *)
Definition answer_heartbeat (worker run : rstr) (run_id : Uuid) (request : HeartbeatRequest) : served Response :=
  _ ←! or_else invalid_request (HeartbeatRequest_validate request);
  _ ←! reject_if (hb_run_id request != run_id) invalid_request;
  heartbeat ←& store_call (HeartbeatRun worker run run_id (hb_lease_id request) (hb_expected_version request)
                             (hb_state request));
  answer (json_response 200 (Body.Heartbeat
    {| hbr_cancel_requested := st_cancel_requested (whb_stored heartbeat);
       hbr_current_version := st_version (whb_stored heartbeat);
       hbr_lease_until := whb_lease_until heartbeat |})).
Definition heartbeat (run_id : Uuid) (h : Head) (data : list N) : served Response :=
  '(worker, run) ←! run_secrets h;
  request ←! parse_json parse_heartbeat_request h data;
  answer_heartbeat worker run run_id request.
Definition answer_update_state (worker run : rstr) (run_id : Uuid) (request : StateUpdate) : served Response :=
  _ ←! or_else invalid_request (StateUpdate_validate request);
  _ ←! reject_if ((su_run_id request != run_id) || JobState.is_terminal (su_next_state request)) invalid_request;
  stored ←& store_call (WorkerTransition worker run run_id (su_lease_id request) (su_expected_version request)
                          (su_next_state request));
  answer (json_response 200 (Body.State (state_update_response stored))).
Definition update_state (run_id : Uuid) (h : Head) (data : list N) : served Response :=
  '(worker, run) ←! run_secrets h;
  request ←! parse_json parse_state_update h data;
  answer_update_state worker run run_id request.
(** One [store_call] runs two methods of the store, one after the other. *)
Definition answer_complete (worker run : rstr) (run_id : Uuid) (request : RunCompletion) : served Response :=
  _ ←! or_else invalid_request (RunCompletion_validate request);
  _ ←! reject_if (rc_run_id request != run_id) invalid_request;
  stored ←& store_call (WorkerComplete worker run request);
  completion ←& store_call (GetCompletion run_id);
  sha256 ←! as_header (sc_sha256 completion);
  acknowledged_at ←! as_header (to_rfc3339 (sc_created_at completion));
  answer {| rs_status := 200;
            rs_headers := [(COMPLETION_SHA256_HEADER, sha256); (COMPLETION_ACKNOWLEDGED_AT_HEADER, acknowledged_at)];
            rs_body := Body.State (state_update_response stored) |}.
Definition complete (run_id : Uuid) (h : Head) (data : list N) : served Response :=
  '(worker, run) ←! run_secrets h;
  request ←! parse_json parse_completion h data;
  answer_complete worker run run_id request.
Definition answer_cleanup (worker run : rstr) (run_id : Uuid) (receipt : CleanupReceiptV1) : served Response :=
  _ ←! or_else invalid_request (CleanupReceiptV1_validate receipt);
  _ ←! reject_if (cl_run_id receipt != run_id) invalid_request;
  stored ←& store_call (RecordCleanup worker run receipt);
  answer (json_response 200 (Body.Cleanup (su_receipt stored))).
Definition cleanup (run_id : Uuid) (h : Head) (data : list N) : served Response :=
  '(worker, run) ←! run_secrets h;
  receipt ←! parse_json parse_cleanup h data;
  answer_cleanup worker run run_id receipt.
Definition required_uuid_header (name : rstr) (h : Head) : result WorkerApiError Uuid :=
  value ← required_text_header name h; ok_or (parse_uuid value) invalid_request.
Definition required_u64_header (name : rstr) (h : Head) : result WorkerApiError N :=
  value ← required_text_header name h; ok_or (parse_uint u64_max value) invalid_request.
Definition answer_log (worker run : rstr) (run_id lease_id : Uuid) (stream : rstr) (offset : N) (sha256 : rstr)
    (data : list N) : served Response :=
  chunk ←& store_call (PutLogChunk worker run run_id lease_id stream offset sha256 data);
  answer (json_response 200 (Body.Log
    {| lcr_run_id := lgc_run_id chunk; lcr_stream := lgc_stream chunk; lcr_offset := lgc_offset chunk;
       lcr_length := lgc_length chunk; lcr_sha256 := lgc_sha256 chunk |})).
Definition upload_log (run_id : Uuid) (h : Head) (data : list N) : served Response :=
  _ ←! require_binary_content_type h;
  _ ←! reject_if (MAX_LOG_CHUNK_BYTES <? byte_count data)%N payload_too_large;
  '(worker, run) ←! run_secrets h;
  lease_id ←! required_uuid_header LEASE_ID_HEADER h;
  stream ←! required_text_header LOG_STREAM_HEADER h;
  offset ←! required_u64_header LOG_OFFSET_HEADER h;
  sha256 ←! required_text_header SHA256_HEADER h;
  answer_log worker run run_id lease_id stream offset sha256 data.
Definition artifact_metadata (artifact : StoredArtifact) : ArtifactMetadata :=
  {| am_id := sa_id artifact; am_run_id := sa_run_id artifact; am_relative_path := sa_name artifact;
     am_size_bytes := sa_size artifact; am_sha256 := sa_sha256 artifact; am_media_type := None;
     am_created_at := sa_created_at artifact |}.
Definition answer_artifact (worker run : rstr) (run_id lease_id artifact_id : Uuid) (name sha256 : rstr)
    (data : list N) : served Response :=
  artifact ←& store_call (PutArtifact worker run run_id lease_id artifact_id name sha256 data);
  (let response := artifact_metadata artifact in
   _ ←! or_else internal (ArtifactMetadata_validate response);
   answer (json_response 201 (Body.Artifact response))).
Definition upload_artifact (run_id artifact_id : Uuid) (h : Head) (data : list N) : served Response :=
  _ ←! require_binary_content_type h;
  _ ←! reject_if (MAX_UPLOAD_ARTIFACT_BYTES <? byte_count data)%N payload_too_large;
  '(worker, run) ←! run_secrets h;
  lease_id ←! required_uuid_header LEASE_ID_HEADER h;
  name ←! required_text_header ARTIFACT_NAME_HEADER h;
  sha256 ←! required_text_header SHA256_HEADER h;
  answer_artifact worker run run_id lease_id artifact_id name sha256 data.
(** The file is opened after the call; [opened] says whether it could be. *)
Definition answer_source (worker run : rstr) (run_id lease_id : Uuid) (sha256 : rstr) (opened : bool) : served Response :=
  let digest := lit "sha256:" ++ sha256 in
  _ ←! or_else invalid_request (validate_snapshot_digest digest);
  download ←& store_call (AuthorizeSnapshotDownload worker run run_id lease_id digest);
  _ ←! reject_if (negb opened) internal;
  (let metadata := sd_metadata download in
   size ←! as_header (fmt_N (snap_size_bytes metadata));
   digest ←! as_header (snap_digest metadata);
   etag ←! as_header ([34%N] ++ snap_digest metadata ++ [34%N]);
   answer {| rs_status := 200;
             rs_headers := [(CONTENT_TYPE, SNAPSHOT_MEDIA_TYPE); (lit "content-length", size); (SHA256_HEADER, digest);
                            (lit "etag", etag); (lit "x-cyc-snapshot-version", SNAPSHOT_API_VERSION);
                            (CACHE_CONTROL, lit "private, no-store")];
             rs_body := Body.File (sd_path download) (u64_saturating_add (snap_size_bytes metadata) 1) |}).
Definition download_source (run_id : Uuid) (sha256 : rstr) (opened : bool) (h : Head) : served Response :=
  '(worker, run) ←! run_secrets h;
  lease_id ←! required_uuid_header LEASE_ID_HEADER h;
  answer_source worker run run_id lease_id sha256 opened.

(** ** The listener *)

(** A captured identifier: what is not one is rejected by axum. *)
Definition captured (segment : rstr) : option Uuid := percent_decode segment ≫= parse_uuid.
(** The extractors of a handler: the captures, and the body within its limit. *)
Definition dispatch (r : Route.t) (opened : bool) (h : Head) (data : list N) : served Response :=
  let bounded (k : served Response) : served Response :=
    if (body_limit r <? byte_count data)%N then answer (rejected 413) else k in
  let identified (segment : rstr) (k : Uuid → served Response) : served Response :=
    match captured segment with Some run_id => k run_id | None => answer (rejected 400) end in
  match r with
  | Route.Pair => bounded (pair h data)
  | Route.PairAck => bounded (pair_ack h data)
  | Route.Claim => bounded (claim h data)
  | Route.NodeReport => bounded (node_report h data)
  | Route.Run operation run =>
      identified run (λ run_id, bounded
        match operation with
        | RunRoute.Heartbeat => heartbeat run_id h data
        | RunRoute.State => update_state run_id h data
        | RunRoute.Complete => complete run_id h data
        | RunRoute.Cleanup => cleanup run_id h data
        | RunRoute.Logs => upload_log run_id h data
        end)
  | Route.Artifact run artifact =>
      identified run (λ run_id, identified artifact (λ artifact_id, bounded (upload_artifact run_id artifact_id h data)))
  | Route.Source run digest =>
      identified run (λ run_id,
        match percent_decode digest with
        | Some sha256 => download_source run_id sha256 opened h
        | None => answer (rejected 400)
        end)
  end.
Definition handler (opened : bool) (h : Head) (data : list N) : served Response :=
  match route_of (hd_path h) with
  | Some r => if method_allowed r (hd_method h) then dispatch r opened h data else answer (rejected 405)
  | None => answer (rejected 404)
  end.
(** A request as the listener serves it, outermost layer first. *)
Definition serve (opened : bool) (h : Head) (data : list N) : prog Response :=
  if is_some (header ORIGIN h) then Done (error_response origin_forbidden)
  else
    r ← match preauthorize_before_body h with
        | Some authorization => _ ←& authorization; handler opened h data
        | None => handler opened h data
        end;
    Done match r with Ok response => response | Err e => error_response e end.
End handlers.
End api.
