(* ===== verification/ListenerSafety.v ===== *)
(** What the controller's listener for workers keeps: serving a request is a sequence of
    store requests, and the body of a request is only looked at when the store has
    authorised its head. *)
From Stdlib Require Import ZArith NArith Lia String.
From stdpp Require Import base option list numbers sets gmap relations.
From S2P Require Import Prelude Text Crates Protocol PortablePath Snapshot RunState JobSpec CanonicalJson NodeState WorkerReports WorkerRun Cleanup Onboarding ControllerDb FleetNodes Leases NodeWrites Uploads RunControl Pairings ControllerCalls WorkerEnv WorkerClient WorkerNode WorkerSafety WorkerApi.
Open Scope rust_scope.

Section listener.
Context `{UuidCrate, ChronoCrate, SerdeJsonCrate, !StoreSerde, DigestCrate, !ApiCrates}.

(** ** Executions

    A program runs in a controller that serves other requests between its calls. *)
Fixpoint executes {A} (p : prog A) (c : Controller) (a : A) (c' : Controller) : Prop :=
  match p with
  | Done a0 => a = a0 ∧ rtc calls c c'
  | Ask r k => ∃ c1 env, rtc calls c c1 ∧ executes (k (run env (handle r) c1).2) (run env (handle r) c1).1 a c'
  end.
Lemma executes_calls {A} (p : prog A) c a c' : executes p c a c' → rtc calls c c'.
Proof.
  revert c. induction p as [a0|B r k IH]; intros c; cbn [executes]; [by intros [_ ?]|].
  intros (c1 & env & Hc & He). etrans; [exact Hc|]. eapply rtc_l; [|by eapply IH]. by exists env, B, r.
Qed.
(** Every program ends, whatever the store answers: it has no loops. *)
Lemma executes_total {A} (p : prog A) c (env : Env) : ∃ a c', executes p c a c'.
Proof.
  revert c. induction p as [a|B r k IH]; intros c; [by exists a, c|].
  destruct (IH (run env (handle r) c).2 (run env (handle r) c).1) as (a & c' & He). by exists a, c', c, env.
Qed.
Lemma executes_wait {A} (p : prog A) c c1 a c' : rtc calls c c1 → executes p c1 a c' → executes p c a c'.
Proof.
  destruct p as [a0|B r k]; cbn [executes]; [intros Hc [-> He]; split; [done|by etrans]|].
  intros Hc (c2 & env & Hc2 & He). exists c2, env. split; [by etrans|done].
Qed.
Lemma executes_bind {A B} (m : prog A) (k : A → prog B) c b c' :
  executes (m ≫= k) c b c' ↔ ∃ a c1, executes m c a c1 ∧ executes (k a) c1 b c'.
Proof.
  revert c. induction m as [a|X r next IH]; intros c; [split|].
  - intros He. exists a, c. by repeat split.
  - intros (a' & c1 & [-> Hc] & He). by eapply executes_wait.
  - change ((Ask r next : prog A) ≫= k) with (Ask r (λ x, next x ≫= k)). cbn [executes]. split.
    + intros (c1 & env & Hc & (a & c2 & Hm & Hk)%IH). exists a, c2. eauto 10.
    + intros (a & c2 & (c1 & env & Hc & Hm) & Hk). exists c1, env. split; [done|]. apply IH. eauto.
Qed.
Lemma executes_attempt {E A B} (m : prog (result E A)) (k : A → prog (result E B)) c r c' :
  executes (attempt m k) c r c' ↔
  ∃ a c1, executes m c a c1 ∧ match a with Ok a => executes (k a) c1 r c' | Err e => r = Err e ∧ rtc calls c1 c' end.
Proof. unfold attempt. rewrite executes_bind. split; intros ([a|e] & c1 & ? & ?); [by exists (Ok a), c1|by exists (Err e), c1|by exists (Ok a), c1|by exists (Err e), c1]. Qed.
Lemma executes_store {A} (r : Request A) c a c' :
  executes (store_call r) c a c' ↔
  ∃ c1 env, rtc calls c c1 ∧ a = map_err from_store (run env (handle r) c1).2 ∧ rtc calls (run env (handle r) c1).1 c'.
Proof. done. Qed.

Lemma executes_checked {E A B} (x : result E A) (k : A → prog (result E B)) c r c' :
  executes (checked x k) c r c' → (∃ e, x = Err e ∧ r = Err e) ∨ ∃ a, x = Ok a ∧ executes (k a) c r c'.
Proof. destruct x as [a|e]; [intros He; right; by exists a|intros [-> _]; left; by exists e]. Qed.

(** ** Authorisation *)

(** The store requests that authorise a head. *)
Definition authorises (h : Head) {A} (r : Request A) : Prop :=
  match r with
  | PreauthorizePairing code => authorization_secret PAIR_AUTH_SCHEME h = Ok code
  | PreauthorizePairingAck credential | AuthenticateWorker credential =>
      authorization_secret WORKER_AUTH_SCHEME h = Ok credential
  | PreauthorizeRunRoute credential run_credential _ _ => run_secrets h = Ok (credential, run_credential)
  | _ => False
  end.
Definition authorised (h : Head) (c c' : Controller) : Prop :=
  ∃ A (r : Request A) c1 env, authorises h r ∧ rtc calls c c1 ∧ is_ok (run env (handle r) c1).2 = true ∧
    rtc calls (run env (handle r) c1).1 c'.
Lemma store_authorises {A} (r : Request A) h c a c' :
  authorises h r → executes (store_call r) c a c' → (∃ e, a = Err e) ∨ authorised h c c'.
Proof.
  intros Hr (c1 & env & Hc & -> & Hc')%executes_store.
  destruct (run env (handle r) c1) as [c2 [x|e]] eqn:E; [right|left; by eexists].
  exists A, r, c1, env. rewrite E. by split_and!.
Qed.
Lemma preauthorize_executes h m c a c' :
  preauthorize_before_body h = Some m → executes m c a c' → (∃ e, a = Err e) ∨ authorised h c c'.
Proof.
  unfold preauthorize_before_body. intros Hm He.
  destruct (hd_path h == _); [injection Hm as <-; apply executes_checked in He as [(? & _ & ->)|(secret & Hs & He)]; [left; by eexists|]|].
  { eapply store_authorises; [|exact He]; exact Hs. }
  destruct (hd_path h == _); [injection Hm as <-; apply executes_checked in He as [(? & _ & ->)|(secret & Hs & He)]; [left; by eexists|]|].
  { eapply store_authorises; [|exact He]; exact Hs. }
  destruct (_ || _).
  - injection Hm as <-. apply executes_checked in He as [(? & _ & ->)|(secret & Hs & He)]; [left; by eexists|].
    destruct He as (c1 & env & Hc & He). destruct (run env _ c1) as [c2 [x|e]] eqn:E; destruct He as [-> Hc'];
      [right|by left; eexists]. exists Uuid, (AuthenticateWorker secret), c1, env. rewrite E. by split_and!.
  - destruct (run_route (hd_path h)) as [[run_id allow]|]; [|done]. injection Hm as <-.
    apply executes_checked in He as [(? & _ & ->)|([worker run'] & Hs & He)]; [left; by eexists|]. eapply store_authorises; [|exact He]; exact Hs.
Qed.

(** ** Paths *)

(** No segment of the path is encoded. *)
Definition plain_path (path : rstr) : Prop := ∀ segment, segment ∈ split SLASH path → percent_decode segment = Some segment.
Lemma listener_segments path rest :
  strip_prefix (lit "/worker/v1/") path = Some rest → ∀ segment, segment ∈ split SLASH rest → segment ∈ split SLASH path.
Proof.
  intros ->%strip_prefix_Some segment Hs. change (split SLASH (lit "/worker/v1/" ++ rest))
    with ([] :: lit "worker" :: lit "v1" :: split SLASH rest). by repeat apply list_elem_of_further.
Qed.
Lemma run_segments path rest run tail :
  strip_prefix (lit "/worker/v1/") path = Some rest → split SLASH rest = lit "runs" :: run :: tail → tail ≠ [] →
  ∃ rest', strip_prefix (lit "/worker/v1/runs/") path = Some rest' ∧ split SLASH rest' = run :: tail.
Proof.
  intros ->%strip_prefix_Some Hs Ht. exists (join SLASH (run :: tail)). split.
  - apply strip_prefix_Some. rewrite <- (join_split SLASH rest), Hs. reflexivity.
  - apply split_join; [done|]. apply Forall_forall. intros s Hin. apply (split_no_sep SLASH rest). rewrite Hs. by right.
Qed.
Lemma unauthorised_run path rest run tail :
  strip_prefix (lit "/worker/v1/") path = Some rest → split SLASH rest = lit "runs" :: run :: tail →
  run_route path = None →
  (∃ operation, tail = [operation] ∧ is_some (run_operation operation) = true) ∨
  (∃ kind last, tail = [kind; last] ∧ (kind = lit "artifacts" ∨ kind = lit "source")) →
  parse_uuid run = None.
Proof.
  intros Hp Hs Hr Htail. assert (tail ≠ []) as Hne by (destruct Htail as [(? & -> & _)|(? & ? & -> & _)]; done).
  destruct (run_segments _ _ _ _ Hp Hs Hne) as (rest' & Hp' & Hs'). unfold run_route in Hr. rewrite Hp' in Hr. cbn [mbind option_bind] in Hr.
  rewrite Hs' in Hr. destruct (parse_uuid run) as [id|]; [|done]. exfalso.
  destruct Htail as [(operation & -> & Ho)|(kind & last & -> & Hk)]; cbn in Hr.
  - unfold run_operation in Ho. repeat case_bool_decide; subst; try discriminate Hr; try discriminate Ho.
  - destruct Hk as [-> | ->]; discriminate Hr.
Qed.
Lemma route_unauthorised app h opened :
  plain_path (hd_path h) → preauthorize_before_body h = None →
  ∃ status, ∀ data, handler app opened h data = answer (rejected status).
Proof.
  intros Hplain Hnone. unfold handler. destruct (route_of (hd_path h)) as [r|] eqn:Hr; [|by exists 404%N].
  destruct (method_allowed r (hd_method h)); [|by exists 405%N]. exists 400%N. intros data.
  unfold route_of in Hr. destruct (strip_prefix _ _) as [rest|] eqn:Hp; [|done]. cbn [mbind option_bind] in Hr.
  pose proof Hp as Hpath. apply strip_prefix_Some in Hpath. pose proof (join_split SLASH rest) as Hrest.
  assert (∀ run tail, split SLASH rest = lit "runs" :: run :: tail → run_route (hd_path h) = None →
    (∃ operation, tail = [operation] ∧ is_some (run_operation operation) = true) ∨
    (∃ kind last, tail = [kind; last] ∧ (kind = lit "artifacts" ∨ kind = lit "source")) → captured run = None) as Hcap.
  { intros run tail Hs Hrun Htail. unfold captured.
    rewrite (Hplain run) by (eapply listener_segments; [exact Hp|rewrite Hs; right; left]).
    cbn. by eapply unauthorised_run. }
  assert (run_route (hd_path h) = None) as Hrun.
  { unfold preauthorize_before_body in Hnone. destruct (hd_path h == _); [done|]. destruct (hd_path h == _); [done|].
    destruct (_ || _); [done|]. by destruct (run_route _) as [[]|]. }
  assert (∀ l, join SLASH l = rest → hd_path h = lit "/worker/v1/" ++ join SLASH l) as Hjoin by by intros l ->.
  destruct (split SLASH rest) as [|a [|b [|e [|f [|]]]]] eqn:Hs; try discriminate Hr; specialize (Hjoin _ Hrest).
  - exfalso. unfold preauthorize_before_body in Hnone.
    case_bool_decide; [subst a|case_bool_decide; [subst a|case_bool_decide; [subst a|discriminate Hr]]];
      rewrite Hjoin in Hnone; vm_compute in Hnone; discriminate Hnone.
  - exfalso. case_bool_decide; [subst a|discriminate Hr]. case_bool_decide; [subst b|discriminate Hr].
    unfold preauthorize_before_body in Hnone. rewrite Hjoin in Hnone. vm_compute in Hnone. discriminate Hnone.
  - case_bool_decide; [subst a|discriminate Hr]. destruct (negb (is_empty b)); [|discriminate Hr].
    destruct (run_operation e) as [operation|] eqn:Ho; [|discriminate Hr]. injection Hr as <-.
    unfold dispatch. rewrite (Hcap b [e] eq_refl Hrun); [done|]. left. exists e. by rewrite Ho.
  - case_bool_decide; [subst a|discriminate Hr]. destruct (negb (is_empty b)); [|discriminate Hr].
    destruct (negb (is_empty f)); [|discriminate Hr]. cbn [andb] in Hr.
    case_bool_decide; [subst e; injection Hr as <-|case_bool_decide; [subst e; injection Hr as <-|discriminate Hr]];
      unfold dispatch; rewrite (Hcap b [_; f] eq_refl Hrun); try done; right; eexists _, _; eauto.
Qed.

(** C12. The body of a request is only looked at when the store has authorised its head: if no
    segment of the path is encoded, then serving the request is a sequence of store requests,
    and either the store accepted one that authorises the head with a secret in it, or every
    other body is answered in the same way. *)
Theorem body_needs_authorization app opened h data c response c' (Hplain : plain_path (hd_path h))
    (Hserved : executes (serve app opened h data) c response c') :
  rtc calls c c' ∧ (authorised h c c' ∨ ∀ data', executes (serve app opened h data') c response c').
Proof.
  split; [by eapply executes_calls|]. unfold serve in *. destruct (is_some (header ORIGIN h)); [by right|].
  apply executes_bind in Hserved as (r & c1 & Hr & [-> Hc1]).
  destruct (preauthorize_before_body h) as [m|] eqn:Hm.
  - apply executes_attempt in Hr as (a & c2 & Ha & Hk).
    assert ((∃ e, a = Err e) ∨ authorised h c c2) as [[e ->]|Hauth] by by eapply preauthorize_executes.
    + right. intros data'. apply executes_bind. destruct Hk as [-> Hc2]. exists (Err e), c1. split; [|by split].
      apply executes_attempt. by exists (Err e), c2.
    + left. destruct Hauth as (A & q & c3 & env & ? & ? & ? & ?). exists A, q, c3, env. split_and!; try done.
      etrans; [done|]. etrans; [|exact Hc1]. destruct a; [by eapply executes_calls|by destruct Hk].
  - right. intros data'. destruct (route_unauthorised app h opened Hplain Hm) as [status Hstatus].
    rewrite Hstatus in Hr |- *. apply executes_bind. exists r, c1. by split.
Qed.

(** A path with an encoded identifier: its captures are decoded before they are parsed,
    [run_route] parses them as they are.  Such a request passes without a credential: a
    body over the limit is answered as such, and one within it reaches the handler, which
    then reads its credentials. *)
Lemma encoded_route h run operation o :
  hd_path h = lit "/worker/v1/runs/" ++ run ++ [SLASH] ++ operation → run_operation operation = Some o →
  SLASH ∉ run → run ≠ [] → parse_uuid run = None →
  route_of (hd_path h) = Some (Route.Run o run) ∧ preauthorize_before_body h = None.
Proof.
  intros Hpath Ho Hsep Hrun Hparse.
  assert (split SLASH (run ++ [SLASH] ++ operation) = [run; operation]) as Hsplit.
  { change (run ++ [SLASH] ++ operation) with (join SLASH [run; operation]). apply split_join; [done|].
    repeat constructor; [done|]. clear Hpath. unfold run_operation in Ho.
    repeat case_bool_decide; subst; try discriminate Ho; by vm_compute; set_solver. }
  split.
  - unfold route_of. rewrite Hpath.
    change (strip_prefix _ _) with (Some (lit "runs" ++ [SLASH] ++ run ++ [SLASH] ++ operation)). cbn [mbind option_bind].
    change (split SLASH _) with (lit "runs" :: split SLASH (run ++ [SLASH] ++ operation)). rewrite Hsplit.
    destruct run; [done|]. cbn. by rewrite Ho.
  - unfold preauthorize_before_body. rewrite Hpath.
    rewrite !(bool_decide_eq_false_2 (_ = _)) by discriminate. cbn [orb].
    unfold run_route. change (strip_prefix _ _) with (Some (run ++ [SLASH] ++ operation)). cbn [mbind option_bind].
    by rewrite Hsplit, Hparse.
Qed.
Theorem encoded_path_passes app opened h data c run operation o :
  hd_path h = lit "/worker/v1/runs/" ++ run ++ [SLASH] ++ operation → run_operation operation = Some o →
  SLASH ∉ run → run ≠ [] → parse_uuid run = None → is_some (captured run) = true →
  hd_method h = Method.Post → header ORIGIN h = None →
  (body_limit (Route.Run o run) <? byte_count data)%N = true →
  executes (serve app opened h data) c (rejected 413) c.
Proof.
  intros Hpath Ho Hsep Hrun Hparse Hcap Hmethod Horigin Hlimit.
  destruct (encoded_route h run operation o) as [Hroute Hpre]; [done..|].
  unfold serve. rewrite Horigin, Hpre. unfold handler. rewrite Hroute, Hmethod. cbn [is_some].
  unfold dispatch. destruct (captured run) as [id|]; [|done]. cbn [method_allowed]. rewrite Hlimit. by split.
Qed.
End listener.
