(* ===== verification/WorkerWire.v ===== *)
(** What a worker puts on the wire: the requests that [WorkerClient] and [RunSession] of
    [crates/cyc-worker/src/http.rs] build, and how an answer of the controller's listener
    arrives at them. *)
From Stdlib Require Import ZArith NArith Lia String.
From stdpp Require Import base option list numbers sets gmap.
From S2P Require Import Prelude Text Crates Protocol RunState JobSpec CanonicalJson NodeState PortablePath WorkerReports WorkerRun Cleanup Onboarding ControllerDb Uploads ControllerCalls WorkerEnv WorkerClient WorkerNode WorkerApi.
Open Scope rust_scope.

(** ** Requests *)

(** The secrets of a [WorkerClient] and of the [RunSession] of a claimed run. *)
Record Credentials := { node_credential : rstr; run_credential : rstr }.
(** [RequestBuilder::json]: serde_json's text of a request. *)
Class RequestJson := {
  pair_request_json : PairRequest → list N;
  pair_ack_request_json : PairAckRequest → list N;
  claim_request_json : ClaimRequest → list N;
  node_report_json : NodeReportRequest → list N;
  heartbeat_request_json : HeartbeatRequest → list N;
  state_update_json : StateUpdate → list N;
  completion_json : RunCompletion → list N;
  cleanup_json : CleanupReceiptV1 → list N
}.
(** [axum::Json]: serde_json's text of the body of an answer. *)
Class BodyJson := { body_json : Body.t → list N }.
Definition JSON : rstr := lit "application/json".
Definition OCTET_STREAM : rstr := lit "application/octet-stream".

Section wire.
Context `{UuidCrate, SerdeJsonCrate, !ApiCrates, RequestJson}.

(** The path of [base.join(...)]: an absolute path replaces the one of the base. *)
Definition endpoint (action : rstr) : rstr := lit "/worker/v1/" ++ action.
Definition run_endpoint (run_id : Uuid) (action : rstr) : rstr :=
  lit "/worker/v1/runs/" ++ uuid_display run_id ++ [SLASH] ++ action.
(** [HeaderValue::from_str], which fails on a text that no header can hold. *)
Definition header_value (value : rstr) : option rstr := if header_value_ok value then Some value else None.
(** [HeaderValue::from_bytes], as [RequestBuilder::header] makes it of a [&String]: what is
    not printable ASCII arrives as a value that is not a text. *)
Definition header_bytes (value : rstr) : option (option rstr) :=
  if header_bytes_ok value then Some (header_value value) else None.
Definition authorization (scheme secret : rstr) : option (rstr * option rstr) :=
  value ← header_value (scheme ++ [chr " "] ++ secret); Some (AUTHORIZATION, Some value).
Definition authorized (k : Credentials) : option (list (rstr * option rstr)) :=
  value ← authorization WORKER_AUTH_SCHEME (node_credential k); Some [value].
Definition run_authorized (k : Credentials) (lease_id : Uuid) : option (list (rstr * option rstr)) :=
  headers ← authorized k;
  run ← header_value (run_credential k);
  Some (headers ++ [(RUN_CREDENTIAL_HEADER, Some run); (LEASE_ID_HEADER, Some (uuid_display lease_id))]).
Definition post (path : rstr) (headers : list (rstr * option rstr)) (content_type : rstr) : Head :=
  {| hd_method := Method.Post; hd_path := path; hd_headers := headers ++ [(CONTENT_TYPE, Some content_type)] |}.
(** The head and the body of each request; [None] when it cannot be built. *)
Definition post_json (k : Credentials) (action : rstr) (data : list N) : option (Head * list N) :=
  headers ← authorized k; Some (post (endpoint action) headers JSON, data).
Definition post_run (k : Credentials) (lease_id run_id : Uuid) (action : rstr) (data : list N) : option (Head * list N) :=
  headers ← run_authorized k lease_id; Some (post (run_endpoint run_id action) headers JSON, data).
Definition build_pair (bundle : EnrollmentBundleV1) (request : PairRequest) : option (Head * list N) :=
  header ← authorization PAIR_AUTH_SCHEME (trim (eb_pairing_code bundle));
  Some (post (endpoint (lit "pair")) [header] JSON, pair_request_json request).
Definition build_pair_ack (k : Credentials) (request : PairAckRequest) : option (Head * list N) :=
  post_json k (lit "pair/ack") (pair_ack_request_json request).
Definition build_claim (k : Credentials) (request : ClaimRequest) : option (Head * list N) :=
  post_json k (lit "claim") (claim_request_json request).
Definition build_node_report (k : Credentials) (request : NodeReportRequest) : option (Head * list N) :=
  post_json k (lit "node-report") (node_report_json request).
Definition build_heartbeat (k : Credentials) (request : HeartbeatRequest) : option (Head * list N) :=
  post_run k (hb_lease_id request) (hb_run_id request) (lit "heartbeat") (heartbeat_request_json request).
Definition build_state (k : Credentials) (update : StateUpdate) : option (Head * list N) :=
  post_run k (su_lease_id update) (su_run_id update) (lit "state") (state_update_json update).
Definition build_complete (k : Credentials) (completion : RunCompletion) : option (Head * list N) :=
  post_run k (rc_lease_id completion) (rc_run_id completion) (lit "complete") (completion_json completion).
Definition build_cleanup (k : Credentials) (receipt : CleanupReceiptV1) : option (Head * list N) :=
  post_run k (cl_lease_id receipt) (cl_run_id receipt) (lit "cleanup") (cleanup_json receipt).
Definition build_log (k : Credentials) (session : RunSession) (stream : ProcessStream.t) (offset : N) (sha256 : rstr)
    (data : list N) : option (Head * list N) :=
  headers ← run_authorized k (ses_lease_id session);
  sha256 ← header_bytes sha256;
  Some (post (run_endpoint (ses_run_id session) (lit "logs"))
          (headers ++ [(LOG_STREAM_HEADER, Some (ProcessStream.as_header stream));
                       (LOG_OFFSET_HEADER, Some (fmt_N offset)); (SHA256_HEADER, sha256)]) OCTET_STREAM, data).
Definition build_artifact (k : Credentials) (session : RunSession) (id : Uuid) (name sha256 : rstr) (data : list N) :
    option (Head * list N) :=
  headers ← run_authorized k (ses_lease_id session);
  name ← header_bytes name;
  sha256 ← header_bytes sha256;
  Some (post (run_endpoint (ses_run_id session) (lit "artifacts/" ++ uuid_display id))
          (headers ++ [(ARTIFACT_NAME_HEADER, name); (SHA256_HEADER, sha256)]) OCTET_STREAM, data).
Definition build_source (k : Credentials) (session : RunSession) (sha256 : rstr) : option (Head * list N) :=
  headers ← run_authorized k (ses_lease_id session);
  Some ({| hd_method := Method.Get; hd_path := run_endpoint (ses_run_id session) (lit "source/" ++ sha256);
           hd_headers := headers |}, []).
(** A request is about the run and the lease of the session ([verify_binding]). *)
Definition build (k : Credentials) (r : HttpRequest.t) : option (Head * list N) :=
  match r with
  | HttpRequest.Pair bundle request => build_pair bundle request
  | HttpRequest.PairAck request => build_pair_ack k request
  | HttpRequest.Claim request => build_claim k request
  | HttpRequest.NodeReport report => build_node_report k report
  | HttpRequest.Heartbeat request => build_heartbeat k request
  | HttpRequest.State update => build_state k update
  | HttpRequest.Complete completion => build_complete k completion
  | HttpRequest.Cleanup receipt => build_cleanup k receipt
  | HttpRequest.Log session stream offset sha256 data => build_log k session stream offset sha256 data
  | HttpRequest.Artifact session id name sha256 data => build_artifact k session id name sha256 data
  | HttpRequest.Source session sha256 => build_source k session sha256
  end.

(** ** Answers *)
Definition is_json (b : Body.t) : bool :=
  match b with Body.Empty | Body.File _ _ | Body.Framework => false | _ => true end.
Definition response_header (name : rstr) (r : Response) : option rstr :=
  snd <$> List.find (λ e : rstr * rstr, e.1 == name) (rs_headers r).
(** serde_json reads what it wrote: of this body, and of this request. *)
Definition read_back `{!WireCrates, NodeWireCrates, BodyJson} (b : Body.t) : Prop :=
  match b with
  | Body.Claim r => parse_claim_response (body_json b) = Ok r
  | Body.State r => parse_state_response (body_json b) = Ok r
  | Body.Error e => parse_value (body_json b) = Some (error_value e)
  | _ => True
  end.
Definition request_read (r : HttpRequest.t) : Prop :=
  match r with
  | HttpRequest.Pair _ request => parse_pair_request (pair_request_json request) = Some request
  | HttpRequest.PairAck request => parse_pair_ack_request (pair_ack_request_json request) = Some request
  | HttpRequest.Claim request => parse_claim_request (claim_request_json request) = Some request
  | HttpRequest.NodeReport report => parse_node_report (node_report_json report) = Some report
  | HttpRequest.Heartbeat request => parse_heartbeat_request (heartbeat_request_json request) = Some request
  | HttpRequest.State update => parse_state_update (state_update_json update) = Some update
  | HttpRequest.Complete completion => parse_completion (completion_json completion) = Some completion
  | HttpRequest.Cleanup receipt => parse_cleanup (cleanup_json receipt) = Some receipt
  | _ => True
  end.
(** How an answer arrives: axum's [Json] sets the content type, and the body comes in any
    chunks. *)
Record delivered `{!WireCrates, NodeWireCrates, BodyJson} (r : Response) (http : HttpResponse) : Prop := {
  dl_status : hr_status http = rs_status r;
  dl_type : is_json (rs_body r) = true → hr_content_type http = Some JSON;
  dl_header : ∀ name value, response_header name r = Some value →
    hr_header http name = Some value ∧ hr_opaque_header http name = false;
  dl_body : is_json (rs_body r) = true → bounded_body http = Ok (body_json (rs_body r));
  dl_read : read_back (rs_body r)
}.
End wire.
