(* ===== verification/WireSafety.v ===== *)
(** Workers and the controller's listener together: what a worker sends reaches the handler
    of its operation unharmed, authorised by the secrets that the worker holds. *)
From Stdlib Require Import ZArith NArith Lia String.
From stdpp Require Import base option list numbers sets gmap relations.
From S2P Require Import Prelude Text Crates Protocol PortablePath Snapshot RunState JobSpec CanonicalJson NodeState WorkerReports WorkerRun Cleanup Onboarding ControllerDb FleetNodes Leases NodeWrites Uploads RunControl Pairings ControllerCalls WorkerEnv WorkerClient WorkerNode WorkerSafety WorkerApi ListenerSafety WorkerWire.
Open Scope rust_scope.

(** A text without a percent sign is its own decoding. *)
Class WireLaws `{UuidCrate, SerdeJsonCrate, !ApiCrates} : Prop := {
  plain_decoded s : chr "%" ∉ s → percent_decode s = Some s
}.

Section wire.
Context `{UuidCrateLaws, ChronoCrate, SerdeJsonCrate, !StoreSerde, DigestCrate, !ApiCrates, !WireLaws, RequestJson}.

(** ** Secrets and headers *)
Lemma split_once_first sep a b : sep ∉ a → split_once sep (a ++ sep :: b) = Some (a, b).
Proof.
  induction a as [|c a IH]; intros Ha; cbn; [by rewrite N.eqb_refl|].
  apply not_elem_of_cons in Ha as [Hc Ha]. rewrite (proj2 (N.eqb_neq c sep)) by congruence. by rewrite IH.
Qed.
Lemma secret_authorised scheme secret h :
  valid_secret secret = true → chr " " ∉ scheme →
  text_header AUTHORIZATION h = Some (scheme ++ [chr " "] ++ secret) → authorization_secret scheme h = Ok secret.
Proof.
  intros Hv Hs Ht. unfold authorization_secret. rewrite Ht. cbn [ok_or mbind result_bind app].
  rewrite split_once_first by done. cbn [ok_or mbind result_bind]. unfold eq_ignore_ascii_case.
  by rewrite bool_decide_eq_true_2, Hv.
Qed.
Lemma text_required name h value :
  text_header name h = Some value → value ≠ [] → (len value <= 1024)%N → required_text_header name h = Ok value.
Proof.
  intros Ht Hne Hl. unfold required_text_header. rewrite Ht. cbn [ok_or mbind result_bind].
  destruct value as [|c value]; [done|]. by rewrite (proj2 (N.ltb_ge _ _) Hl).
Qed.
Lemma secret_required name h secret :
  text_header name h = Some secret → valid_secret secret = true → required_secret_header name h = Ok secret.
Proof.
  intros Ht Hv. pose proof Hv as Hlen. unfold valid_secret, between in Hlen. rewrite !andb_true_iff, !N.leb_le in Hlen.
  unfold required_secret_header. rewrite (text_required name h secret Ht).
  - cbn [mbind result_bind]. by rewrite Hv.
  - intros ->. by destruct Hlen as [[[] _] _].
  - lia.
Qed.

(** ** Paths *)

(** An identifier is parsed from its own text. *)
Definition an_id (id : Uuid) : Prop := parse_uuid (uuid_display id) = Some id.
Lemma uuid_plain u : SLASH ∉ uuid_display u ∧ chr "%" ∉ uuid_display u ∧ uuid_display u ≠ [].
Proof.
  pose proof (uuid_display_chars u) as Hc. rewrite Forall_forall in Hc. pose proof (uuid_display_len u) as Hl.
  split_and!; [intros Hin%Hc; discriminate Hin..|intros E; by rewrite E in Hl].
Qed.
Lemma uuid_captured u : an_id u → captured (uuid_display u) = Some u.
Proof. intros Hu. unfold captured. rewrite plain_decoded by apply uuid_plain. exact Hu. Qed.
Lemma run_segments_of u action : split SLASH (uuid_display u ++ [SLASH] ++ action) = uuid_display u :: split SLASH action.
Proof. apply split_app_sep, uuid_plain. Qed.
Lemma route_of_run u action :
  route_of (run_endpoint u action) =
  match split SLASH action with
  | [operation] => operation ← run_operation operation; Some (Route.Run operation (uuid_display u))
  | [kind; tail] =>
      if is_empty tail then None
      else if kind == lit "artifacts" then Some (Route.Artifact (uuid_display u) tail)
      else if kind == lit "source" then Some (Route.Source (uuid_display u) tail)
      else None
  | _ => None
  end.
Proof.
  unfold route_of, run_endpoint.
  change (strip_prefix _ _) with (Some (lit "runs" ++ [SLASH] ++ uuid_display u ++ [SLASH] ++ action)).
  cbn [mbind option_bind]. change (split SLASH (lit "runs" ++ _)) with (lit "runs" :: split SLASH (uuid_display u ++ [SLASH] ++ action)).
  rewrite run_segments_of. destruct (uuid_plain u) as (_ & _ & Hne).
  assert (is_empty (uuid_display u) = false) as Hempty by by destruct (uuid_display u).
  pose proof (split_not_nil SLASH action) as Hnil.
  destruct (split SLASH action) as [|a [|b [|]]]; [done|cbn; by rewrite Hempty|cbn; rewrite Hempty; by destruct b|done].
Qed.
Lemma run_route_of u action : an_id u →
  run_route (run_endpoint u action) =
  match split SLASH action with
  | operation :: tail =>
      if existsb (λ name, operation == name)
           [lit "heartbeat"; lit "state"; lit "complete"; lit "cleanup"; lit "logs"]
      then if is_empty tail then Some (u, (operation == lit "complete") || (operation == lit "cleanup")) else None
      else if ((operation == lit "artifacts") || (operation == lit "source")) && (length tail == 1)
      then Some (u, (operation == lit "complete") || (operation == lit "cleanup")) else None
  | [] => None
  end.
Proof.
  intros Hu. unfold run_route, run_endpoint. change (strip_prefix _ _) with (Some (uuid_display u ++ [SLASH] ++ action)).
  cbn [mbind option_bind]. rewrite run_segments_of, Hu. cbn [mbind option_bind].
  destruct (split SLASH action) as [|operation tail]; [done|]. by destruct (existsb _ _).
Qed.

(** ** Dispatch *)

(** What the listener asks the store before it looks at the body of a request. *)
Definition permission (k : Credentials) (r : HttpRequest.t) : prog (result WorkerApiError unit) :=
  let run (run_id : Uuid) (allow_revoked_completion : bool) :=
    store_call (PreauthorizeRunRoute (node_credential k) (run_credential k) run_id allow_revoked_completion) in
  match r with
  | HttpRequest.Pair bundle _ => store_call (PreauthorizePairing (trim (eb_pairing_code bundle)))
  | HttpRequest.PairAck _ => store_call (PreauthorizePairingAck (node_credential k))
  | HttpRequest.Claim _ | HttpRequest.NodeReport _ =>
      attempt (store_call (AuthenticateWorker (node_credential k))) (λ _, Done (Ok tt))
  | HttpRequest.Heartbeat request => run (hb_run_id request) false
  | HttpRequest.State update => run (su_run_id update) false
  | HttpRequest.Complete completion => run (rc_run_id completion) true
  | HttpRequest.Cleanup receipt => run (cl_run_id receipt) true
  | HttpRequest.Log session _ _ _ _ | HttpRequest.Artifact session _ _ _ _ | HttpRequest.Source session _ =>
      run (ses_run_id session) false
  end.
(** The part of its handler that follows the parsing. *)
Definition service (app : AppState) (opened : bool) (k : Credentials) (r : HttpRequest.t) :
    prog (result WorkerApiError Response) :=
  let node := node_credential k in
  let run := run_credential k in
  match r with
  | HttpRequest.Pair bundle request => answer_pair app (trim (eb_pairing_code bundle)) request
  | HttpRequest.PairAck request => answer_pair_ack node request
  | HttpRequest.Claim request => answer_claim app node request
  | HttpRequest.NodeReport report => answer_node_report node report
  | HttpRequest.Heartbeat request => answer_heartbeat node run (hb_run_id request) request
  | HttpRequest.State update => answer_update_state node run (su_run_id update) update
  | HttpRequest.Complete completion => answer_complete node run (rc_run_id completion) completion
  | HttpRequest.Cleanup receipt => answer_cleanup node run (cl_run_id receipt) receipt
  | HttpRequest.Log session stream offset sha256 data =>
      answer_log node run (ses_run_id session) (ses_lease_id session) (ProcessStream.as_header stream) offset sha256 data
  | HttpRequest.Artifact session id name sha256 data =>
      answer_artifact node run (ses_run_id session) (ses_lease_id session) id name sha256 data
  | HttpRequest.Source session sha256 => answer_source node run (ses_run_id session) (ses_lease_id session) sha256 opened
  end.
(** What the listener can take: secrets of the agreed form, identifiers of 128 bits, texts
    that are present, printable and not too long, and a body within the limit of its route that
    serde_json reads as it wrote it. *)
Definition short_text (value : rstr) : Prop := header_value value = Some value ∧ value ≠ [] ∧ (len value <= 1024)%N.

Definition secrets_ok (k : Credentials) (r : HttpRequest.t) : Prop :=
  match r with
  | HttpRequest.Pair bundle _ => valid_secret (trim (eb_pairing_code bundle)) = true
  | HttpRequest.PairAck _ | HttpRequest.Claim _ | HttpRequest.NodeReport _ => valid_secret (node_credential k) = true
  | _ => valid_secret (node_credential k) = true ∧ valid_secret (run_credential k) = true
  end.
Definition request_ok (r : HttpRequest.t) (data : list N) : Prop :=
  let size := byte_count data in
  request_read r ∧
  match r with
  | HttpRequest.Log session _ offset sha256 _ =>
      (size <= MAX_LOG_CHUNK_BYTES)%N ∧ an_id (ses_run_id session) ∧ an_id (ses_lease_id session) ∧
      (offset <= u64_max)%N ∧ short_text sha256
  | HttpRequest.Artifact session id name sha256 _ =>
      (size <= MAX_UPLOAD_ARTIFACT_BYTES)%N ∧ an_id (ses_run_id session) ∧ an_id (ses_lease_id session) ∧ an_id id ∧
      short_text name ∧ short_text sha256
  | HttpRequest.Source session sha256 =>
      an_id (ses_run_id session) ∧ an_id (ses_lease_id session) ∧ sha256 ≠ [] ∧ SLASH ∉ sha256 ∧ chr "%" ∉ sha256
  | HttpRequest.Heartbeat request => (size <= MAX_WORKER_JSON_BODY_BYTES)%N ∧ an_id (hb_run_id request)
  | HttpRequest.State update => (size <= MAX_WORKER_JSON_BODY_BYTES)%N ∧ an_id (su_run_id update)
  | HttpRequest.Complete completion => (size <= MAX_WORKER_JSON_BODY_BYTES)%N ∧ an_id (rc_run_id completion)
  | HttpRequest.Cleanup receipt => (size <= MAX_WORKER_JSON_BODY_BYTES)%N ∧ an_id (cl_run_id receipt)
  | _ => (size <= MAX_WORKER_JSON_BODY_BYTES)%N
  end.

(** The path of such a request is made of identifiers. *)
Definition path_ok (r : HttpRequest.t) : Prop :=
  match r with
  | HttpRequest.Heartbeat request => an_id (hb_run_id request)
  | HttpRequest.State update => an_id (su_run_id update)
  | HttpRequest.Complete completion => an_id (rc_run_id completion)
  | HttpRequest.Cleanup receipt => an_id (cl_run_id receipt)
  | HttpRequest.Log session _ _ _ _ | HttpRequest.Artifact session _ _ _ _ => an_id (ses_run_id session)
  | HttpRequest.Source session sha256 => an_id (ses_run_id session) ∧ sha256 ≠ [] ∧ SLASH ∉ sha256
  | _ => True
  end.
Lemma request_path r data : request_ok r data → path_ok r.
Proof. intros Hr. destruct r; try done; try apply Hr. destruct Hr as (_ & ? & _ & ? & ? & _). by split_and!. Qed.

Lemma json_parsed {A} (parse : list N → option A) h data a :
  text_header CONTENT_TYPE h = Some JSON → parse data = Some a → parse_json parse h data = Ok a.
Proof. intros Hc Hp. unfold parse_json. rewrite Hc. cbn [fmap option_fmap option_map]. by rewrite Hp. Qed.
Lemma run_secrets_read h k :
  text_header AUTHORIZATION h = Some (WORKER_AUTH_SCHEME ++ [chr " "] ++ node_credential k) →
  text_header RUN_CREDENTIAL_HEADER h = Some (run_credential k) →
  valid_secret (node_credential k) = true → valid_secret (run_credential k) = true →
  run_secrets h = Ok (node_credential k, run_credential k).
Proof.
  intros Ha Hr Hn Hv. unfold run_secrets. rewrite (secret_authorised WORKER_AUTH_SCHEME (node_credential k)) by first [done|by vm_compute; set_solver].
  cbn [mbind result_bind]. by rewrite (secret_required _ _ (run_credential k)).
Qed.
Lemma uuid_header_read name h u :
  text_header name h = Some (uuid_display u) → an_id u → required_uuid_header name h = Ok u.
Proof.
  intros Ht Hu. unfold required_uuid_header. rewrite (text_required name h (uuid_display u)); [|done|apply uuid_plain|].
  - cbn [mbind result_bind]. by rewrite Hu.
  - pose proof (len_bounds (uuid_display u)) as [_ Hl]. unfold char_count in Hl. rewrite uuid_display_len in Hl. lia.
Qed.

(** What is sent when the request can be built. *)
Definition worker_header (k : Credentials) : rstr * option rstr :=
  (AUTHORIZATION, Some (WORKER_AUTH_SCHEME ++ [chr " "] ++ node_credential k)).
Definition run_headers (k : Credentials) (lease_id : Uuid) : list (rstr * option rstr) :=
  [worker_header k; (RUN_CREDENTIAL_HEADER, Some (run_credential k)); (LEASE_ID_HEADER, Some (uuid_display lease_id))].
Definition json_sent (k : Credentials) (lease_id run_id : Uuid) (action : rstr) : Head :=
  post (run_endpoint run_id action) (run_headers k lease_id) JSON.
Definition sent (k : Credentials) (r : HttpRequest.t) : Head * list N :=
  match r with
  | HttpRequest.Pair bundle request =>
      (post (endpoint (lit "pair"))
         [(AUTHORIZATION, Some (PAIR_AUTH_SCHEME ++ [chr " "] ++ trim (eb_pairing_code bundle)))] JSON,
       pair_request_json request)
  | HttpRequest.PairAck request => (post (endpoint (lit "pair/ack")) [worker_header k] JSON, pair_ack_request_json request)
  | HttpRequest.Claim request => (post (endpoint (lit "claim")) [worker_header k] JSON, claim_request_json request)
  | HttpRequest.NodeReport report => (post (endpoint (lit "node-report")) [worker_header k] JSON, node_report_json report)
  | HttpRequest.Heartbeat request =>
      (json_sent k (hb_lease_id request) (hb_run_id request) (lit "heartbeat"), heartbeat_request_json request)
  | HttpRequest.State update =>
      (json_sent k (su_lease_id update) (su_run_id update) (lit "state"), state_update_json update)
  | HttpRequest.Complete completion =>
      (json_sent k (rc_lease_id completion) (rc_run_id completion) (lit "complete"), completion_json completion)
  | HttpRequest.Cleanup receipt =>
      (json_sent k (cl_lease_id receipt) (cl_run_id receipt) (lit "cleanup"), cleanup_json receipt)
  | HttpRequest.Log session stream offset sha256 data =>
      (post (run_endpoint (ses_run_id session) (lit "logs"))
         (run_headers k (ses_lease_id session)
          ++ [(LOG_STREAM_HEADER, Some (ProcessStream.as_header stream)); (LOG_OFFSET_HEADER, Some (fmt_N offset));
              (SHA256_HEADER, header_value sha256)]) OCTET_STREAM, data)
  | HttpRequest.Artifact session id name sha256 data =>
      (post (run_endpoint (ses_run_id session) (lit "artifacts/" ++ uuid_display id))
         (run_headers k (ses_lease_id session) ++ [(ARTIFACT_NAME_HEADER, header_value name); (SHA256_HEADER, header_value sha256)])
         OCTET_STREAM, data)
  | HttpRequest.Source session sha256 =>
      ({| hd_method := Method.Get; hd_path := run_endpoint (ses_run_id session) (lit "source/" ++ sha256);
          hd_headers := run_headers k (ses_lease_id session) |}, [])
  end.
Lemma build_sent k r p : build k r = Some p → p = sent k r.
Proof.
  unfold build, build_pair, build_pair_ack, build_claim, build_node_report, build_heartbeat, build_state, build_complete,
    build_cleanup, build_log, build_artifact, build_source, post_json, post_run, run_authorized, authorized, authorization,
    header_bytes, header_value.
  destruct r; cbn [sent]; unfold header_value; repeat destruct (header_value_ok _); repeat destruct (header_bytes_ok _);
    cbn [mbind option_bind]; intros Hb; try discriminate Hb; apply Some_inj in Hb; symmetry; exact Hb.
Qed.
Lemma run_permitted k u action allow h :
  hd_path h = run_endpoint u action → run_route (run_endpoint u action) = Some (u, allow) →
  run_secrets h = Ok (node_credential k, run_credential k) →
  preauthorize_before_body h =
    Some (store_call (PreauthorizeRunRoute (node_credential k) (run_credential k) u allow)).
Proof.
  intros Hpath Hroute Hsecrets. unfold preauthorize_before_body. rewrite Hpath, Hsecrets.
  rewrite !(bool_decide_eq_false_2 (_ = _)) by discriminate. cbn [orb]. by rewrite Hroute.
Qed.
Lemma split_kind kind tail : SLASH ∉ kind → SLASH ∉ tail → split SLASH (kind ++ [SLASH] ++ tail) = [kind; tail].
Proof. intros Hk Ht. cbn [app]. by rewrite split_app_sep, split_single. Qed.
Lemma kind_routed u kind tail :
  (kind == lit "artifacts") || (kind == lit "source") = true → an_id u → SLASH ∉ tail →
  run_route (run_endpoint u (kind ++ [SLASH] ++ tail)) = Some (u, false).
Proof.
  rewrite orb_true_iff, !bool_decide_eq_true. intros Hk Hu Ht. rewrite run_route_of by exact Hu.
  destruct Hk as [-> | ->]; (rewrite split_kind; [reflexivity|by vm_compute; set_solver|exact Ht]).
Qed.
(** The action of a request about a run, with the permission it needs. *)
Definition action_of (r : HttpRequest.t) : option (Uuid * rstr * bool) :=
  match r with
  | HttpRequest.Heartbeat request => Some (hb_run_id request, lit "heartbeat", false)
  | HttpRequest.State update => Some (su_run_id update, lit "state", false)
  | HttpRequest.Complete completion => Some (rc_run_id completion, lit "complete", true)
  | HttpRequest.Cleanup receipt => Some (cl_run_id receipt, lit "cleanup", true)
  | HttpRequest.Log session _ _ _ _ => Some (ses_run_id session, lit "logs", false)
  | HttpRequest.Artifact session id _ _ _ => Some (ses_run_id session, lit "artifacts/" ++ uuid_display id, false)
  | HttpRequest.Source session sha256 => Some (ses_run_id session, lit "source/" ++ sha256, false)
  | _ => None
  end.
Lemma sent_action k r u action allow :
  action_of r = Some (u, action, allow) → secrets_ok k r → path_ok r →
  hd_path (sent k r).1 = run_endpoint u action ∧ run_route (run_endpoint u action) = Some (u, allow) ∧
  run_secrets (sent k r).1 = Ok (node_credential k, run_credential k) ∧
  permission k r = store_call (PreauthorizeRunRoute (node_credential k) (run_credential k) u allow).
Proof.
  intros Ha Hs Hr.
  assert (an_id u) as Hu by (destruct r; try discriminate Ha; injection Ha as <- <- <-; first [exact Hr | apply Hr]).
  assert (valid_secret (node_credential k) = true ∧ valid_secret (run_credential k) = true) as [Hn Hv]
    by (destruct r; done || exact Hs).
  assert (run_secrets (sent k r).1 = Ok (node_credential k, run_credential k)) as Hsecrets
    by (apply run_secrets_read; [..|done|done]; destruct r; done).
  split_and!; [by destruct r; try discriminate Ha; injection Ha as <- <- <-| |exact Hsecrets|
               by destruct r; try discriminate Ha; injection Ha as <- <- <-].
  clear Hsecrets. destruct r; try discriminate Ha; injection Ha as <- <- <-.
  6: exact (kind_routed _ (lit "artifacts") _ eq_refl Hu (proj1 (uuid_plain id))).
  6: exact (kind_routed _ (lit "source") sha256 eq_refl Hu (proj2 (proj2 Hr))).
  all: rewrite run_route_of by exact Hu; reflexivity.
Qed.
Lemma sent_authorised scheme secret h rest :
  hd_headers h = (AUTHORIZATION, Some (scheme ++ [chr " "] ++ secret)) :: rest → valid_secret secret = true → chr " " ∉ scheme →
  authorization_secret scheme h = Ok secret.
Proof. intros Hh Hv Hs. apply secret_authorised; [done..|]. unfold text_header, header. rewrite Hh. reflexivity. Qed.
Ltac authorised :=
  match goal with Hs : valid_secret ?secret = true |- context [authorization_secret ?scheme ?h] =>
    replace (authorization_secret scheme h) with (Ok (E := WorkerApiError) secret)
      by (symmetry; eapply sent_authorised; [reflexivity|exact Hs|by vm_compute; set_solver])
  end.
Lemma sent_permission k r :
  secrets_ok k r → path_ok r → preauthorize_before_body (sent k r).1 = Some (permission k r).
Proof.
  intros Hs Hr. destruct (action_of r) as [[[u action] allow]|] eqn:Ha.
  { destruct (sent_action k r u action allow) as (Hp & Hroute & Hsecrets & ->); [done..|]. by eapply run_permitted. }
  unfold preauthorize_before_body. destruct r; try discriminate Ha; cbn [secrets_ok] in Hs; clear Ha Hr.
  - change (hd_path _) with (lit "/worker/v1/claim"). rewrite !(bool_decide_eq_false_2 (_ = _)) by discriminate.
    rewrite (bool_decide_eq_true_2 (_ = _)) by done. cbn [orb]. by authorised.
  - change (hd_path _) with (lit "/worker/v1/node-report"). rewrite !(bool_decide_eq_false_2 (_ = _)) by discriminate.
    rewrite (bool_decide_eq_true_2 (_ = _)) by done. cbn [orb]. by authorised.
  - change (hd_path _) with (lit "/worker/v1/pair"). rewrite (bool_decide_eq_true_2 (_ = _)) by done. by authorised.
  - change (hd_path _) with (lit "/worker/v1/pair/ack"). rewrite (bool_decide_eq_false_2 (_ = _)) by discriminate.
    rewrite (bool_decide_eq_true_2 (_ = _)) by done. by authorised.
Qed.

(** The route of a request, and its method. *)
Definition route (r : HttpRequest.t) : Route.t :=
  match r with
  | HttpRequest.Pair _ _ => Route.Pair
  | HttpRequest.PairAck _ => Route.PairAck
  | HttpRequest.Claim _ => Route.Claim
  | HttpRequest.NodeReport _ => Route.NodeReport
  | HttpRequest.Heartbeat request => Route.Run RunRoute.Heartbeat (uuid_display (hb_run_id request))
  | HttpRequest.State update => Route.Run RunRoute.State (uuid_display (su_run_id update))
  | HttpRequest.Complete completion => Route.Run RunRoute.Complete (uuid_display (rc_run_id completion))
  | HttpRequest.Cleanup receipt => Route.Run RunRoute.Cleanup (uuid_display (cl_run_id receipt))
  | HttpRequest.Log session _ _ _ _ => Route.Run RunRoute.Logs (uuid_display (ses_run_id session))
  | HttpRequest.Artifact session id _ _ _ => Route.Artifact (uuid_display (ses_run_id session)) (uuid_display id)
  | HttpRequest.Source session sha256 => Route.Source (uuid_display (ses_run_id session)) sha256
  end.
Lemma kind_route u kind tail :
  SLASH ∉ kind → SLASH ∉ tail → tail ≠ [] →
  route_of (run_endpoint u (kind ++ [SLASH] ++ tail)) =
    if kind == lit "artifacts" then Some (Route.Artifact (uuid_display u) tail)
    else if kind == lit "source" then Some (Route.Source (uuid_display u) tail) else None.
Proof. intros Hk Ht Hne. rewrite route_of_run, split_kind by done. by destruct tail. Qed.
Lemma sent_route k r : path_ok r → route_of (hd_path (sent k r).1) = Some (route r).
Proof.
  intros Hr. destruct r; try (exact (route_of_run _ _)); try reflexivity.
  - change (route_of (run_endpoint (ses_run_id session) (lit "artifacts" ++ [SLASH] ++ uuid_display id)) =
      Some (route (HttpRequest.Artifact session id name sha256 body))).
    rewrite kind_route; [reflexivity|by vm_compute; set_solver|apply uuid_plain..].
  - change (route_of (run_endpoint (ses_run_id session) (lit "source" ++ [SLASH] ++ sha256)) =
      Some (route (HttpRequest.Source session sha256))).
    rewrite kind_route; [reflexivity|by vm_compute; set_solver|apply Hr..].
Qed.
Lemma sent_secrets k r u action allow :
  action_of r = Some (u, action, allow) → secrets_ok k r → path_ok r →
  run_secrets (sent k r).1 = Ok (node_credential k, run_credential k).
Proof. intros Ha Hs Hr. by eapply sent_action. Qed.
Lemma within_limit limit data : (byte_count data <= limit)%N → (limit <? byte_count data)%N = false.
Proof. apply N.ltb_ge. Qed.
Lemma u64_header_read name h n :
  text_header name h = Some (fmt_N n) → (n <= u64_max)%N → required_u64_header name h = Ok n.
Proof.
  intros Ht Hn. pose proof (parse_uint_fmt u64_max n Hn) as Hp. unfold required_u64_header.
  rewrite (text_required name h (fmt_N n)); [cbn [mbind result_bind]; by rewrite Hp|done|by intros E; rewrite E in Hp|].
  destruct (fmt_N_printable n 63) as [Hl _]; [unfold u64_max in Hn; cbn in *; lia|].
  pose proof (len_bounds (fmt_N n)) as [_ Hlen]. unfold char_count in Hlen. lia.
Qed.
Ltac within Hr := replace (body_limit _ <? _)%N with false by (symmetry; apply within_limit; first [exact Hr | apply Hr]).
Ltac json_run Hs Hr update :=
  rewrite uuid_captured by apply Hr; within Hr;
  erewrite sent_secrets by first [exact Hs | exact (request_path _ _ Hr) | reflexivity]; cbn [checked];
  by erewrite json_parsed by first [exact (proj1 Hr) | reflexivity].
Lemma sent_handler app opened k r :
  secrets_ok k r → request_ok r (sent k r).2 →
  handler app opened (sent k r).1 (sent k r).2 = service app opened k r.
Proof.
  intros Hs Hr. unfold handler. rewrite (sent_route k r (request_path _ _ Hr)).
  replace (method_allowed _ _) with true by by destruct r.
  destruct r; cbn [route dispatch].
  - unfold update_state. json_run Hs Hr update.
  - unfold complete. json_run Hs Hr completion.
  - unfold heartbeat. json_run Hs Hr request.
  - unfold cleanup. json_run Hs Hr receipt.
  - rewrite uuid_captured by apply Hr. within Hr. destruct Hr as (_ & Hsize & Hrun & Hlease & Hoffset & Htext & Hsha & Hlen).
    unfold upload_log. cbn [sent fst snd].
    change (require_binary_content_type _) with (Ok (E := WorkerApiError) tt). cbn [checked].
    replace (MAX_LOG_CHUNK_BYTES <? _)%N with false by (symmetry; by apply within_limit). cbn [reject_if checked].
    erewrite run_secrets_read by first [reflexivity|apply Hs]. cbn [checked].
    erewrite uuid_header_read by first [reflexivity|exact Hlease]. cbn [checked].
    erewrite (text_required LOG_STREAM_HEADER) by first [reflexivity|by destruct stream]. cbn [checked].
    erewrite u64_header_read by first [reflexivity|exact Hoffset]. cbn [checked].
    by erewrite (text_required SHA256_HEADER) by first [exact Htext|exact Hsha|exact Hlen].
  - rewrite uuid_captured by apply Hr. destruct Hr as (_ & Hsize & Hrun & Hlease & Hid & (Hprint & Hname & Hname') & Htext & Hsha & Hlen).
    rewrite uuid_captured by exact Hid. within Hsize. unfold upload_artifact. cbn [sent fst snd].
    change (require_binary_content_type _) with (Ok (E := WorkerApiError) tt). cbn [checked].
    replace (MAX_UPLOAD_ARTIFACT_BYTES <? _)%N with false by (symmetry; by apply within_limit). cbn [reject_if checked].
    erewrite run_secrets_read by first [reflexivity|apply Hs]. cbn [checked].
    erewrite uuid_header_read by first [reflexivity|exact Hlease]. cbn [checked].
    erewrite (text_required ARTIFACT_NAME_HEADER) by first [exact Hprint|exact Hname|exact Hname']. cbn [checked].
    by erewrite (text_required SHA256_HEADER) by first [exact Htext|exact Hsha|exact Hlen].
  - rewrite uuid_captured by apply Hr. destruct Hr as (_ & Hrun & Hlease & Hsha & Hsep & Hplain).
    rewrite plain_decoded by exact Hplain. unfold download_source. cbn [sent fst snd].
    erewrite run_secrets_read by first [reflexivity|apply Hs]. cbn [checked].
    by erewrite uuid_header_read by first [reflexivity|exact Hlease].
  - within Hr. unfold claim. cbn [secrets_ok] in Hs. authorised. cbn [checked].
    by erewrite json_parsed by first [exact (proj1 Hr)|reflexivity].
  - within Hr. unfold node_report. cbn [secrets_ok] in Hs. authorised. cbn [checked].
    by erewrite json_parsed by first [exact (proj1 Hr)|reflexivity].
  - within Hr. unfold pair. cbn [secrets_ok] in Hs. authorised. cbn [checked].
    by erewrite json_parsed by first [exact (proj1 Hr)|reflexivity].
  - within Hr. unfold pair_ack. cbn [secrets_ok] in Hs. authorised. cbn [checked].
    by erewrite json_parsed by first [exact (proj1 Hr)|reflexivity].
Qed.

Lemma sent_authorised_first app opened k r head data :
  build k r = Some (head, data) → secrets_ok k r → path_ok r →
  serve app opened head data =
    r ← attempt (permission k r) (λ _, handler app opened (sent k r).1 (sent k r).2);
    Done match r with Ok response => response | Err e => error_response e end.
Proof.
  intros Hbuilt Hsecrets Hpath. pose proof (build_sent _ _ _ Hbuilt) as E. unfold serve.
  assert (head = (sent k r).1) as -> by by rewrite <- E. assert (data = (sent k r).2) as -> by by rewrite <- E.
  replace (is_some (header ORIGIN (sent k r).1)) with false by by destruct r.
  by rewrite (sent_permission k r Hsecrets Hpath).
Qed.
Lemma sent_served app opened k r head data :
  build k r = Some (head, data) → secrets_ok k r → request_ok r data →
  serve app opened head data =
    r ← attempt (permission k r) (λ _, service app opened k r);
    Done match r with Ok response => response | Err e => error_response e end.
Proof.
  intros Hbuilt Hsecrets Hrequest. rewrite (sent_authorised_first app opened k r) by (done || by eapply request_path).
  assert (data = (sent k r).2) as E by by rewrite <- (build_sent _ _ _ Hbuilt).
  by rewrite E in Hrequest; rewrite sent_handler.
Qed.

(** C14. A worker's request reaches the store: whatever a worker can build and the listener
    can take is routed, authorised from its head and parsed without loss, so that serving it
    is exactly the preauthorization with the worker's secrets, followed by the part of its
    handler that follows the parsing, on the very values the worker holds. *)
Theorem worker_request_served app opened k r head data
    (Hbuilt : build k r = Some (head, data)) (Hsecrets : secrets_ok k r) (Hrequest : request_ok r data) :
  serve app opened head data =
    r ← attempt (permission k r) (λ _, service app opened k r);
    Done match r with Ok response => response | Err e => error_response e end.
Proof. by apply sent_served. Qed.
End wire.
