(* ===== verification/Dialogue.v ===== *)
(** Answers of the controller's listener as its workers understand them: errors of the
    store, claims and acknowledgements, from the tables of the controller to the values
    that the worker goes on with. *)
From Stdlib Require Import ZArith NArith Lia String.
From stdpp Require Import base option list numbers sets gmap relations.
From S2P Require Import Prelude Text Crates Protocol PortablePath Snapshot RunState JobSpec CanonicalJson NodeState WorkerReports WorkerRun Cleanup Onboarding ControllerDb FleetNodes Leases NodeWrites Uploads RunControl Pairings TxLogic Changes ChangeProofs RunProofs ControllerCalls RunSafety WorkerEnv WorkerClient WorkerNode WorkerApi ListenerSafety WorkerWire WireSafety WorkerIdentity PairingLedger WorkerPairing WorkerSupervisor.
Open Scope rust_scope.

(** The values inside of an error and of a header are read as they were written; a header
    can hold printable text. *)
Class AnswerLaws `{SerdeJsonCrate, !ApiCrates, !WireCrates} : Prop := {
  u64_read n : (n <= u64_max)%N → WorkerClient.number_as_u64 (json_u64 n) = Some n;
  state_read s : job_state_from_value (state_to_value s) = Some s;
  time_read t : parse_rfc3339 (to_rfc3339 t) = Ok t;
  printable_header s : forallb (between 32 126) s = true → header_value_ok s = true
}.

Section dialogue.
Context `{UuidCrateLaws, ChronoCrate, SerdeJsonCrate, !StoreSerde, DigestCrateLaws, !ApiCrates, !WireLaws, RequestJson}.
Context `{!WireCrates, NodeWireCrates, BodyJson, !AnswerLaws}.

(** ** Errors *)

(** What a worker makes of an error of the store. *)
Definition error_told (e : StoreError.t json_error) : ErrorRoot.t :=
  match e with
  | StoreError.VersionConflict version =>
      ErrorRoot.Conflict {| vc_current_version := version; vc_cancel_requested := false; vc_current_state := None |}
  | StoreError.WorkerStateConflict version cancelled state =>
      ErrorRoot.Conflict {| vc_current_version := version; vc_cancel_requested := cancelled; vc_current_state := Some state |}
  | e =>
      let a := from_store e in
      if wae_status a == 500%N then ErrorRoot.RetryableHttp 500 (wae_code a)
      else ErrorRoot.WorkerApiHttp (wae_status a) (wae_code a)
  end.
Definition error_heard (e : StoreError.t json_error) : AnyError :=
  let a := from_store e in http_status_error (wae_status a) (body_json (Body.Error a)).
Definition conflict_version (e : StoreError.t json_error) : N :=
  match e with StoreError.VersionConflict v | StoreError.WorkerStateConflict v _ _ => v | _ => 0%N end.

(** C15. Every error of the store is understood: what a worker makes of the answer to any of
    them is [error_told], so that a conflict keeps its version, cancellation and state; it
    tries again exactly for the internal errors, ends a pairing exactly when the controller
    has ended it, and gives up its credential when the controller does not know it. *)
Theorem store_errors_understood (e : StoreError.t json_error) (Hversion : (conflict_version e <= u64_max)%N)
    (Hread : read_back (Body.Error (from_store e))) :
  ae_root (error_heard e) = error_told e ∧
  (is_retryable_transport_error (error_heard e) = true ↔ wae_status (from_store e) = 500%N) ∧
  (WorkerClient.pairing_terminal_code (error_heard e) ≠ None ↔
     e = StoreError.PairingUnavailable ∨ e = StoreError.PairingBindingMismatch ∨
     e = StoreError.PairingAcknowledgementUnavailable) ∧
  (e = StoreError.WorkerUnauthorized ∨ e = StoreError.RunUnauthorized → fatal_controller_error (error_heard e) = true).
Proof.
  assert (ae_root (error_heard e) = error_told e) as Hroot.
  { unfold error_heard, http_status_error. rewrite Hread.
    destruct e; try reflexivity.
    - change (error_field (lit "currentVersion") _) with (Some (Num (json_u64 current_version))).
      cbv beta iota. by rewrite u64_read.
    - change (error_field (lit "currentVersion") _) with (Some (Num (json_u64 current_version))).
      change (error_field (lit "currentState") _) with (Some (state_to_value current_state)).
      cbv beta iota. rewrite u64_read by exact Hversion. cbn [mbind option_bind]. by rewrite state_read. }
  split; [exact Hroot|]. unfold is_retryable_transport_error, WorkerClient.pairing_terminal_code. rewrite Hroot.
  split_and!.
  - by destruct e.
  - destruct e; cbn; split; intros He; try done; try (destruct He as [?|[?|?]]; done); auto.
  - intros [-> | ->]; unfold error_heard, http_status_error; rewrite Hread; by vm_compute.
Qed.

(** ** Claims *)
Lemma uuid_simple_hex u : hex_string 32 (uuid_simple u).
Proof.
  assert (uuid_simple u = List.filter is_lower_hex (uuid_display u)) as ->.
  { unfold uuid_simple. apply List.filter_ext_in. intros c Hc%list_elem_of_In.
    pose proof (uuid_display_chars u) as Hall. rewrite Forall_forall in Hall. specialize (Hall c Hc).
    apply orb_true_iff in Hall as [Hhex|E].
    - rewrite Hhex. change (chr "-") with 45%N. destruct (N.eqb_spec c 45) as [->|_]; [discriminate Hhex|done].
    - apply N.eqb_eq in E as ->. done. }
  split; [apply uuid_display_digits|]. apply Forall_forall. intros c Hc%list_elem_of_In. by apply filter_In in Hc as [_ ?].
Qed.
Lemma hex_graphic c : is_lower_hex c = true → between 33 126 c = true ∧ between 32 126 c = true ∧ is_ascii_whitespace c = false.
Proof.
  unfold is_lower_hex, is_ascii_digit, is_ascii_whitespace, between.
  rewrite orb_true_iff, !andb_true_iff, !N.leb_le. intros Hc.
  rewrite !orb_false_iff, !N.eqb_neq. lia.
Qed.
Lemma fresh_secret first second :
  let secret := uuid_simple first ++ uuid_simple second in
  valid_secret secret = true ∧ header_value_ok secret = true ∧ SecretString_new secret = Ok secret.
Proof.
  cbv zeta. destruct (uuid_simple_hex first) as [L1 H1'], (uuid_simple_hex second) as [L2 H2'].
  set (secret := uuid_simple first ++ uuid_simple second).
  assert (hex_string 64 secret) as [Hlen Hhex].
  { split; [unfold secret; rewrite length_app; lia|by apply Forall_app]. }
  split_and!.
  - unfold valid_secret, len. rewrite lower_hex_bytes by exact Hhex. rewrite Hlen. cbn [between].
    apply forallb_forall. intros c Hc%list_elem_of_In. rewrite Forall_forall in Hhex.
    destruct (hex_graphic c (Hhex c Hc)) as (Hg & _ & ->). unfold is_ascii_graphic. by rewrite Hg.
  - apply printable_header, forallb_forall. intros c Hc%list_elem_of_In. rewrite Forall_forall in Hhex.
    by apply hex_graphic, Hhex.
  - by apply staged_is_secret, (lower_hex_of_len_spec 64).
Qed.
Lemma claim_sound env c credential node claim :
  reachable c → (run env (handle (ClaimJob credential node)) c).2 = Ok (Some claim) → sound_claim claim.
Proof.
  intros Hc Hclaim. set (s := {| tx_db := ctl_db c; tx_committed := ctl_db c; tx_files := ctl_files c; tx_tick := 0 |}).
  pose proof (run_moves moved env (handle (ClaimJob credential node)) c _
    (wp_claim_job env s credential node (reachable_consistent c Hc))) as Hrun.
  destruct (run env _ c) as [c' res]. cbn in Hclaim. subst res. destruct Hrun as (_ & _ & Hok).
  by destruct (Hok _ eq_refl) as (s' & [_ Hs] & _).
Qed.
Lemma sound_assignment claim : sound_claim claim → ClaimAssignment_validate (assignment_of_claim claim) = Ok tt.
Proof.
  intros [Hv Hd _]. apply ClaimAssignment_validate_Ok. unfold assignment_of_claim. split_and!; cbn.
  - done.
  - by apply JobSpec_validate_Ok.
  - done.
  - eapply canonical_digest_normal; exact Hd.
  - apply Forall_cons_2; [apply job_root_portable|].
    repeat (apply Forall_cons_2; [by apply (validate_portable_relative_Ok _ false)|]). by apply Forall_nil_2.
  - done.
  - done.
  - vm_compute; done.
  - done.
  - done.
Qed.

(** What a fallible program of the worker returns, step by step. *)
Lemma try_returns {E A B} (m : io (result E A)) (k : A → io (result E B)) env w a :
  (m env w).1 = Ok a → (try_bind m k env w).1 = (k a env (m env w).2).1.
Proof. intros Hm. unfold try_bind, mbind, io_bind. destruct (m env w) as [r w']. cbn in Hm. by subst r. Qed.
Lemma try_pure {E A B} (r : result E A) (k : A → io (result E B)) env w a :
  r = Ok a → try_bind (pure r) k env w = k a env w.
Proof. by intros ->. Qed.
Lemma try_bail {A} b message (k : unit → io (result AnyError A)) env w :
  b = false → try_bind (bail_if b message) k env w = k tt env w.
Proof. by intros ->. Qed.
Lemma send_returns message request (env : Environment) w http :
  env _ (Op.Send request) (w_trace w) = Ok http → (send message request env w).1 = Ok http.
Proof. intros Hs. unfold send, mbind, io_bind, call. by rewrite Hs. Qed.
Lemma json_type (b : Body.t) r http :
  delivered r http → rs_body r = b → is_json b = true → hr_content_type http = Some JSON ∧ bounded_body http = Ok (body_json b).
Proof. intros Hd <- Hj. split; [by apply (dl_type _ _ Hd)|by apply (dl_body _ _ Hd)]. Qed.

(** C13. Every claim arrives.  If a reachable controller hands out a run, the listener
    answers with an assignment, and a worker to which that answer is delivered accepts
    exactly this assignment, with the secret that the controller generated, which is of
    the form that the listener asks for. *)
Theorem claimed_assignment_accepted env c credential node claim (Hreach : reachable c)
    (Hclaim : (run env (handle (ClaimJob credential node)) c).2 = Ok (Some claim)) :
  ∃ response, claim_answer (Some claim) = Ok response ∧ valid_secret (wcl_run_credential claim) = true ∧
  ∀ http request (worker_env : Environment) world,
    delivered response http → ClaimRequest_validate request = Ok tt →
    worker_env _ (Op.Send (HttpRequest.Claim request)) (w_trace world) = Ok http →
    (WorkerNode.claim request worker_env world).1 =
      Ok {| cs_assignment := Some (assignment_of_claim claim); cs_run_credential := Some (wcl_run_credential claim);
            cs_retry_after_seconds := IDLE_RETRY_SECONDS |}.
Proof.
  pose proof (claim_sound env c credential node claim Hreach Hclaim) as Hs.
  pose proof (sound_assignment claim Hs) as Hvalid. destruct (sc_secret _ Hs) as (first & second & Hsecret).
  destruct (fresh_secret first second) as (Hv & Hh & Hself). rewrite <- Hsecret in Hv, Hh, Hself.
  unfold claim_answer, as_header. rewrite Hvalid, Hh. eexists. split; [reflexivity|]. split; [exact Hv|].
  intros http request wenv w Hd Hrequest Hsend. unfold WorkerNode.claim.
  destruct (json_type (Body.Claim {| crs_assignment := Some (assignment_of_claim claim);
    crs_retry_after_seconds := IDLE_RETRY_SECONDS |}) _ http Hd eq_refl eq_refl) as [Htype Hbody].
  destruct (dl_header _ _ Hd RUN_CREDENTIAL_HEADER (wcl_run_credential claim) eq_refl) as [Hheader Hopaque].
  pose proof (dl_status _ _ Hd) as Hstatus. cbn [rs_status] in Hstatus.
  rewrite (try_pure _ _ _ _ tt) by by rewrite Hrequest.
  rewrite (try_returns _ _ _ _ _ (send_returns _ _ _ _ _ Hsend)).
  rewrite Hstatus. replace (200%N == NO_CONTENT) with false by reflexivity.
  rewrite (try_pure _ _ _ _ (Some (wcl_run_credential claim)))
    by (unfold claimed_credential, header_text; rewrite Hopaque, Hheader; cbn [mbind result_bind map_err]; by rewrite Hself).
  rewrite Htype. rewrite try_bail by reflexivity.
  rewrite (try_pure _ _ _ _ _ Hbody). replace (is_success 200) with true by reflexivity. cbn [negb].
  rewrite (try_pure _ _ _ _ {| crs_assignment := Some (assignment_of_claim claim); crs_retry_after_seconds := IDLE_RETRY_SECONDS |})
    by by rewrite (dl_read _ _ Hd).
  cbn [crs_assignment].
  rewrite (try_returns _ _ _ _ tt); [reflexivity|]. rewrite (try_pure _ _ _ _ tt) by by rewrite Hvalid. reflexivity.
Qed.

(** ** Acknowledgements *)
Definition refusal (e : WorkerApiError) : Prop := is_success (wae_status e) = false.
Lemma from_store_refusal e : refusal (from_store e).
Proof. by destruct e. Qed.
(** The state that a successful request leaves behind. *)
Lemma store_finished env c credential run_credential completion stored :
  reachable c → (run env (handle (WorkerComplete credential run_credential completion)) c).2 = Ok stored →
  finished (ctl_db (run env (handle (WorkerComplete credential run_credential completion)) c).1) completion stored.
Proof.
  intros Hc Hstored. set (s := {| tx_db := ctl_db c; tx_committed := ctl_db c; tx_files := ctl_files c; tx_tick := 0 |}).
  pose proof (run_moves moved env (handle (WorkerComplete credential run_credential completion)) c _
    (wp_complete env s credential run_credential completion (reachable_consistent c Hc))) as Hrun.
  destruct (run env _ c) as [c' res]. cbn in Hstored |- *. subst res. destruct Hrun as (_ & _ & Hok).
  destruct (Hok _ eq_refl) as (s' & [_ Hf] & -> & _). exact Hf.
Qed.
Lemma completion_read_back env c run_id completion :
  (run env (handle (GetCompletion run_id)) c).2 = Ok completion →
  ∃ row, db_completions (ctl_db c) !! run_id = Some row ∧ sc_sha256 completion = co_document_sha256 row ∧
    from_timestamp (co_created_at row) = Some (sc_created_at completion).
Proof.
  unfold run, handle, get_completion, get_completion_tx, mbind, tx_bind, get_db, timestamp, liftr. cbn.
  destruct (db_completions (ctl_db c) !! run_id) as [row|]; [|done].
  destruct (from_timestamp (co_created_at row)) as [t|] eqn:Ht; [|done]. cbn. intros [= <-]. exists row. by rewrite Ht.
Qed.
Lemma kept_completion c c' run_id row :
  reachable c → rtc calls c c' → db_completions (ctl_db c) !! run_id = Some row → db_completions (ctl_db c') !! run_id = Some row.
Proof.
  intros Hc Hcalls Hrow. eapply lookup_weaken; [exact Hrow|].
  apply (ek_completions (ctl_db c) (ctl_db c')), (controls_closed evidence_kept); [intros f d d' _; apply change_evidence|done..].
Qed.
Lemma kept_job c c' run_id row :
  reachable c → rtc calls c c' → db_jobs (ctl_db c) !! run_id = Some row → JobState.is_terminal (row_state row) = true →
  db_jobs (ctl_db c') !! run_id = Some row.
Proof.
  intros Hc Hcalls Hrow Hterm.
  assert (jobs_follow (ctl_db c) (ctl_db c')) as Hf
    by (apply (controls_closed jobs_follow); [intros f d d' _; apply change_jobs|done..]).
  destruct (Hf _ _ Hrow) as (row' & Hrow' & Hfollows). by rewrite (rf_terminal _ _ Hfollows Hterm) in Hrow'.
Qed.
Lemma reachable_settled c : reachable c → runs_settled (ctl_db c).
Proof.
  apply (reachable_invariant (λ _, runs_settled)); [|intros f d d' _; apply change_settled].
  intros seed _. split; [done|]. intros run [? [=]].
Qed.
(** What the listener has done when it acknowledges a completion. *)
Lemma answered_completion worker run_secret run_id completion c r c' :
  reachable c → executes (answer_complete worker run_secret run_id completion) c r c' →
  (∃ e, r = Err e ∧ refusal e) ∨
  ∃ stored row time, rc_run_id completion = run_id ∧
    r = Ok {| rs_status := 200;
              rs_headers := [(COMPLETION_SHA256_HEADER, co_document_sha256 row);
                             (COMPLETION_ACKNOWLEDGED_AT_HEADER, to_rfc3339 time)];
              rs_body := Body.State (state_update_response stored) |} ∧
    db_completions (ctl_db c') !! run_id = Some row ∧ from_timestamp (co_created_at row) = Some time ∧
    ∃ jrow document, db_jobs (ctl_db c') !! run_id = Some jrow ∧ row_state jrow = run_state (st_run stored) ∧
      jr_version jrow = as_i64 (st_version stored) ∧ completion_to_string completion = Ok document ∧
      co_document_sha256 row = bytes_sha256 (bytes document).
Proof.
  intros Hc He. unfold answer_complete in He.
  apply executes_checked in He as [(e & Hx & ->)|([] & _ & He)].
  { left. exists e. split; [done|]. unfold or_else in Hx. destruct (RunCompletion_validate completion); [done|]. by injection Hx as <-. }
  apply executes_checked in He as [(e & Hx & ->)|([] & Hrun & He)].
  { left. exists e. split; [done|]. unfold reject_if in Hx. destruct (_ != _); [|done]. by injection Hx as <-. }
  rewrite reject_if_Ok, negb_bool_decide_false in Hrun.
  apply executes_attempt in He as (a & c1 & Ha & He). apply executes_store in Ha as (c0 & env & Hc0 & -> & Hc1).
  destruct (run env _ c0).2 as [stored|e] eqn:Hstored; [|destruct He as [-> _]; left; exists (from_store e); split; [done|apply from_store_refusal]].
  pose proof (store_finished _ _ _ _ _ _ (reachable_calls _ _ Hc Hc0) Hstored) as [(crow & document & Hcrow & Hdoc & Hsha) (jrow & Hjrow & Hterm & Hstate & Hversion)].
  set (cb := (run env (handle (WorkerComplete worker run_secret completion)) c0).1) in *.
  assert (reachable cb) as Hcb by (eapply reachable_calls; [exact Hc|]; etrans; [exact Hc0|]; apply rtc_once; by exists env, StoredJob, (WorkerComplete worker run_secret completion)).
  cbn [map_err] in He. apply executes_attempt in He as (a & c2 & Ha & He). apply executes_store in Ha as (c3 & env' & Hc3 & -> & Hc2).
  destruct (run env' _ c3).2 as [read|e] eqn:Hread; [|destruct He as [-> _]; left; exists (from_store e); split; [done|apply from_store_refusal]].
  apply completion_read_back in Hread as (row & Hrow & Hsha' & Htime). cbn [map_err] in He.
  unfold as_header in He.
  destruct (header_value_ok (sc_sha256 read)); [|destruct He as [-> _]; left; by exists internal]. cbn [reject_if negb mbind result_bind checked] in He.
  destruct (header_value_ok (to_rfc3339 _)); [|destruct He as [-> _]; left; by exists internal]. cbn [reject_if negb mbind result_bind checked] in He.
  destruct He as [-> Hc']. right.
  assert (rtc calls cb c3) as Hcb3 by by etrans.
  assert (rtc calls c3 c') as Hc3' by (eapply rtc_l; [by exists env', StoredCompletion, (GetCompletion run_id)|by etrans]).
  subst run_id. assert (crow = row) as ->.
  { pose proof (kept_completion _ _ _ _ Hcb Hcb3 Hcrow) as E. congruence. }
  exists stored, row, (sc_created_at read). rewrite Hsha'. split_and!; try done.
  - eapply kept_completion; [|exact Hc3'|exact Hrow]. by eapply reachable_calls.
  - exists jrow, document. split_and!; try done. eapply kept_job; [exact Hcb|by etrans|exact Hjrow|exact Hterm].
Qed.

Lemma try_Ok {E A B} (m : io (result E A)) (k : A → io (result E B)) env w b :
  (try_bind m k env w).1 = Ok b → ∃ a, (m env w).1 = Ok a ∧ (k a env (m env w).2).1 = Ok b.
Proof.
  unfold try_bind, mbind, io_bind. destruct (m env w) as [[a|e] w']; [|done]. intros Hk. by exists a.
Qed.
Lemma send_Ok message request (env : Environment) w http http' :
  env _ (Op.Send request) (w_trace w) = Ok http → (send message request env w).1 = Ok http' → http' = http.
Proof. intros Hs. rewrite (send_returns _ _ _ _ _ Hs). by intros [= <-]. Qed.
Lemma heard_completion session completion (env : Environment) w http answer ack :
  env _ (Op.Send (HttpRequest.Complete completion)) (w_trace w) = Ok http →
  (WorkerClient.complete session completion env w).1 = Ok (answer, ack) →
  decode_json parse_state_response http = Ok answer ∧
  hr_header http COMPLETION_SHA256_HEADER = Some (ack_completion_sha256 ack) ∧
  (∃ text, hr_header http COMPLETION_ACKNOWLEDGED_AT_HEADER = Some text ∧
     parse_rfc3339 text = Ok (ack_acknowledged_at ack)) ∧
  ack_state_version ack = sur_state_version answer ∧ ack_final_state ack = run_state (sur_run answer).
Proof.
  intros Hsend Hc. unfold WorkerClient.complete in Hc.
  apply try_Ok in Hc as ([] & _ & Hc). apply try_Ok in Hc as ([] & _ & Hc). cbn [pure snd mret io_ret] in Hc.
  apply try_Ok in Hc as (http' & Hs & Hc). apply (send_Ok _ _ _ _ http) in Hs as ->; [|exact Hsend].
  apply try_Ok in Hc as (parsed & Hparsed & Hc). apply try_Ok in Hc as (sha & Hsha%ok_or_Ok & Hc).
  apply try_Ok in Hc as (text & Htext%ok_or_Ok & Hc). apply try_Ok in Hc as (time & Htime & Hc).
  apply try_Ok in Hc as ([] & _ & Hc). injection Hc as <- <-. cbn.
  split_and!; try done. exists text. split; [done|]. by apply map_err_Ok, map_err_Ok in Htime.
Qed.
(** C11. An acknowledgement binds the controller.  If a worker's completion is served by the
    listener of a reachable controller, and what is answered is delivered to the worker, and
    the worker takes it for an acknowledgement, then from then on the controller's tables
    hold a completion with the acknowledged digest, which is that of the worker's own
    document, the run has ended in the acknowledged state and version, and the cleanup
    obligation of the run names the same digest, state, version and time, so that the
    worker's cleanup receipt will match it. *)
Theorem acknowledgement_binding app opened k session completion head data response http
    (env : Environment) world answer ack c c1 c2
    (Hreach : reachable c) (Hbuilt : build k (HttpRequest.Complete completion) = Some (head, data))
    (Hsecrets : secrets_ok k (HttpRequest.Complete completion))
    (Hrequest : request_ok (HttpRequest.Complete completion) data)
    (Hserved : executes (serve app opened head data) c response c1) (Hdelivered : delivered response http)
    (Hsent : env _ (Op.Send (HttpRequest.Complete completion)) (w_trace world) = Ok http)
    (Hheard : (WorkerClient.complete session completion env world).1 = Ok (answer, ack)) (Hlater : rtc calls c1 c2) :
  let run := rc_run_id completion in
  ∃ row stored obligation document,
    db_jobs (ctl_db c2) !! run = Some row ∧ db_completions (ctl_db c2) !! run = Some stored ∧
    db_obligations (ctl_db c2) !! run = Some obligation ∧ settles run row stored obligation ∧
    completion_to_string completion = Ok document ∧ co_document_sha256 stored = bytes_sha256 (bytes document) ∧
    ack_completion_sha256 ack = co_document_sha256 stored ∧ ack_final_state ack = row_state row ∧
    jr_version row = as_i64 (ack_state_version ack) ∧
    from_timestamp (co_created_at stored) = Some (ack_acknowledged_at ack).
Proof.
  cbv zeta. destruct (heard_completion _ _ _ _ _ _ _ Hsent Hheard) as (Hdecode & Hsha & (text & Htext & Htime) & Hversion & Hstate).
  pose proof (executes_calls _ _ _ _ Hserved) as Hcalls.
  rewrite (sent_served app opened k _ head data Hbuilt Hsecrets Hrequest) in Hserved.
  apply executes_bind in Hserved as (r & ca & Hr & [-> Hca]).
  assert (∀ e, refusal e → r = Err e → False) as Hno.
  { intros e He ->. unfold decode_json in Hdecode. rewrite (dl_type _ _ Hdelivered eq_refl), (dl_body _ _ Hdelivered eq_refl) in Hdecode.
    rewrite (dl_status _ _ Hdelivered) in Hdecode. cbn in Hdecode. unfold refusal in He. by rewrite He in Hdecode. }
  apply executes_attempt in Hr as ([[]|e] & cb & Hp & Hr).
  2:{ destruct Hr as [-> _]. exfalso. apply executes_store in Hp as (? & ? & _ & E & _).
      destruct (run _ _ _).2 as [|e'] in E; [done|]. injection E as ->. by apply (Hno (from_store e') (from_store_refusal e')). }
  pose proof (executes_calls _ _ _ _ Hp) as Hcb. pose proof (executes_calls _ _ _ _ Hr) as Hcb'.
  apply answered_completion in Hr as [(e & -> & He)|(st & row & time & _ & -> & Hrow & Hrt & jrow & document & Hjrow & Hjs & Hjv & Hdoc & Hdsha)];
    [by destruct (Hno e He)| |by eapply reachable_calls].
  cbn in Hdelivered. destruct (dl_header _ _ Hdelivered COMPLETION_SHA256_HEADER _ eq_refl) as [Es _].
  destruct (dl_header _ _ Hdelivered COMPLETION_ACKNOWLEDGED_AT_HEADER _ eq_refl) as [Et _].
  rewrite Hsha in Es. injection Es as Es. rewrite Htext in Et. injection Et as ->. rewrite time_read in Htime. injection Htime as ->.
  unfold decode_json in Hdecode. rewrite (dl_type _ _ Hdelivered eq_refl), (dl_body _ _ Hdelivered eq_refl) in Hdecode.
  rewrite (dl_status _ _ Hdelivered) in Hdecode. cbn in Hdecode. pose proof (dl_read _ _ Hdelivered) as Hread; cbn in Hread; rewrite Hread in Hdecode. injection Hdecode as <-.
  assert (reachable ca) as Hra by (apply (reachable_calls c); [done|by etrans]).
  assert (rtc calls ca c2) as Hc2 by by etrans.
  destruct (rs_completion _ (reachable_settled ca Hra) _ row Hrow) as (jrow' & o & Hj & Ho & Hset).
  assert (jrow' = jrow) as -> by congruence.
  pose proof (kept_completion _ _ _ _ Hra Hc2 Hrow) as Hrow2.
  pose proof (kept_job _ _ _ _ Hra Hc2 Hjrow (se_terminal _ _ _ _ Hset)) as Hjrow2.
  destruct (rs_completion _ (reachable_settled c2 (reachable_calls _ _ Hra Hc2)) _ row Hrow2) as (jrow2 & o2 & Hj2 & Ho2 & Hset2).
  assert (jrow2 = jrow) as -> by congruence.
  exists jrow, row, o2, document. rewrite Hstate, Hversion. by split_and!.
Qed.
End dialogue.
