(* ===== verification/ListenerScenario.v ===== *)
(** Concrete requests to the listener of the controller of [Scenario]: a claim, with and
    without its credential, a conflict, and a completion that is acknowledged. *)
From Stdlib Require Import ZArith NArith Lia String DecimalN.
From stdpp Require Import base option list numbers sets gmap relations.
From S2P Require Import Prelude Text Crates Protocol RunState JobSpec CanonicalJson NodeState WorkerReports WorkerRun Cleanup Onboarding PortablePath ControllerDb FleetNodes Leases NodeWrites Uploads RunControl Pairings TxLogic Changes ChangeProofs ControllerCalls WorkerEnv WorkerClient WorkerProcess WorkerNode WorkerReporting WorkerScenario Scenario WorkerApi ListenerSafety WorkerWire WireSafety Dialogue.
#[local] Existing Instance Concrete.uuid_crate_laws.
Open Scope rust_scope.

(** ** Crates *)

(** [Uuid::from_str] on the hyphenated form. *)
Definition hyphenated_uuid (s : rstr) : option Uuid :=
  let u := foldl (λ n c, n * 16 + ConcreteWorker.hex_value c)%N 0%N (List.filter is_lower_hex s) in
  if uuid_display u == s then Some u else None.
Definition time_text (t : DateTime) : rstr := (if (t <? 0)%Z then chr "-" else chr "+") :: fmt_N (Z.abs_N t).
Definition text_time (s : rstr) : result rstr DateTime :=
  match s with
  | sign :: digits =>
      n ← ok_or (parse_digits 0 digits) (lit "time"); Ok (if sign == chr "-" then (- Z.of_N n)%Z else Z.of_N n)
  | [] => Err (lit "time")
  end.
Lemma text_time_text t : text_time (time_text t) = Ok t.
Proof.
  assert (∀ z, z = t → Ok (E := rstr) z = Ok t) as Heq by by intros z ->.
  unfold text_time, time_text, fmt_N. rewrite (parse_decimal (N.to_uint (Z.abs_N t)) 0), decimal_value_of, DecimalN.Unsigned.of_to.
  cbn [ok_or mbind result_bind]. rewrite N2Z.inj_abs_N. apply Heq.
  destruct (Z.ltb_spec t 0); [rewrite bool_decide_eq_true_2 by done|rewrite bool_decide_eq_false_2 by done]; lia.
Qed.
Definition state_value (s : JobState.t) : Value N := Num (ConcreteWorker.state_code s).
Definition value_state (v : Value N) : option JobState.t :=
  match v with Num n => ConcreteWorker.states !! N.to_nat n | _ => None end.

(** Of the requests and answers, those of this scenario have a text. *)
Definition claim_request : ClaimRequest := {| cr_probe := sample_probe; cr_active_run_ids := [] |}.
Definition lost_race : StoreError.t json_error := StoreError.WorkerStateConflict 7 true JobState.Running.
#[export] Instance api_crates : ApiCrates := {|
  parse_pair_request _ := None; parse_pair_ack_request _ := None;
  parse_claim_request data := if data == lit "claim" then Some claim_request else None;
  parse_node_report _ := None; parse_heartbeat_request _ := None; parse_state_update _ := None;
  parse_completion data := if data == lit "completion" then Some success else None;
  parse_cleanup _ := None;
  parse_uuid := hyphenated_uuid;
  percent_decode s := if bool_decide (chr "%" ∈ s) then None else Some s;
  header_value_ok := forallb (between 32 126);
  header_bytes_ok := forallb (N.leb 32);
  to_rfc3339 := time_text;
  json_u64 n := n : json_number;
  state_to_value := state_value
|}.
#[export] Instance request_json : RequestJson := {|
  pair_request_json _ := []; pair_ack_request_json _ := [];
  claim_request_json _ := lit "claim";
  node_report_json _ := []; heartbeat_request_json _ := []; state_update_json _ := [];
  completion_json _ := lit "completion";
  cleanup_json _ := []
|}.
#[export] Instance body_text : BodyJson := {|
  body_json b :=
    match b with
    | Body.Claim _ => lit "claim"
    | Body.State _ => lit "state"
    | Body.Error _ => lit "error"
    | _ => []
    end
|}.
#[export] Instance wire_laws : WireLaws.
Proof. split. intros s Hs. cbn. by rewrite bool_decide_eq_false_2. Qed.

(** ** Requests *)
Definition app : AppState := {| app_public_url := Some (lit "https://controller.local"); app_controller_id := 1%N |}.
Definition secrets : Credentials := {| node_credential := worker_credential; WorkerWire.run_credential := Scenario.run_credential |}.
Definition request_of (k : Credentials) (r : HttpRequest.t) : Head * list N :=
  match build k r with
  | Some request => request
  | None => ({| hd_method := Method.Other; hd_path := []; hd_headers := [] |}, [])
  end.
(** A program that runs alone, every request in the same second. *)
Fixpoint serve_at {A} (env : Env) (p : prog A) (c : Controller) : A * Controller :=
  match p with
  | Done a => (a, c)
  | Ask r k => let answered := run env (handle r) c in serve_at env (k answered.2) answered.1
  end.
Lemma serve_at_executes {A} env (p : prog A) c : executes p c (serve_at env p c).1 (serve_at env p c).2.
Proof.
  revert c. induction p as [a|B r k IH]; intros c; [by split|]. exists c, env. split; [done|]. apply IH.
Qed.
Definition serve_alone (second : Z) (base : N) (request : Head * list N) (c : Controller) : Response * Controller :=
  serve_at (at_second second base) (serve app true request.1 request.2) c.
Lemma served_alone second base request c :
  executes (serve app true request.1 request.2) c (serve_alone second base request c).1 (serve_alone second base request c).2.
Proof. apply serve_at_executes. Qed.
Definition claim_head : Head := (request_of secrets (HttpRequest.Claim claim_request)).1.
Definition claimed_now : result (StoreError.t json_error) (option WorkerClaim) :=
  (ask 15 600 (ClaimJob worker_credential worker_node) submitted).2.
Definition claim_answered : result WorkerApiError Response :=
  match claimed_now with Ok claim => claim_answer claim | Err e => Err (from_store e) end.
Definition completion_served : Response * Controller :=
  serve_alone 22 1300 (request_of secrets (HttpRequest.Complete success)) verifying.

(** ** Answers *)
#[export] Instance wire_crates : WireCrates := {|
  parse_value data := if data == lit "error" then Some (error_value (from_store lost_race)) else None;
  WorkerClient.number_as_u64 n := Some (n : N);
  job_state_from_value := value_state;
  parse_state_response _ :=
    match rs_body completion_served.1 with Body.State r => Ok r | _ => Err (lit "state") end;
  parse_heartbeat_response _ := Err (lit "unused"); parse_receipt _ := Err (lit "unused");
  parse_artifact _ := Err (lit "unused"); parse_log_response _ := Err (lit "unused");
  parse_rfc3339 := text_time
|}.
#[export] Instance node_wire_crates : NodeWireCrates := {|
  parse_claim_response _ :=
    match claim_answered with Ok {| rs_body := Body.Claim r |} => Ok r | _ => Err (lit "claim") end;
  parse_pair_response _ := Err (lit "unused"); parse_pair_ack_response _ := Err (lit "unused");
  url_query _ := None
|}.
#[export] Instance answer_laws : AnswerLaws.
Proof.
  split.
  - done.
  - intros []; by vm_compute.
  - exact text_time_text.
  - done.
Qed.
Definition to_http (r : Response) : HttpResponse :=
  {| hr_status := rs_status r; hr_content_type := if is_json (rs_body r) then Some JSON else None;
     hr_content_length := None; hr_header name := response_header name r; hr_opaque_header _ := false;
     hr_chunks := [Ok (body_json (rs_body r))] |}.
Lemma to_http_delivered r : read_back (rs_body r) → delivered r (to_http r).
Proof.
  intros Hr. split; cbn; [done| |done| |exact Hr].
  - by intros ->.
  - intros _. by destruct (rs_body r).
Qed.
(** A worker to which every request is answered in the same way. *)
Definition answered_with (r : Response) : Environment :=
  environment_of {| ch_send _ := Ok (to_http r); ch_cancellation _ := CANCEL_NONE; ch_exit := 0; ch_walk := [] |}.

(** ** Witnesses *)

(** The claim with a credential that no worker holds. *)
Definition forged_head : Head :=
  (request_of {| node_credential := lit "forged-credential-0123456789abcdef"; WorkerWire.run_credential := [] |}
     (HttpRequest.Claim claim_request)).1.
Definition served_forged (data : list N) : Response * Controller := serve_alone 15 600 (forged_head, data) submitted.
Lemma forged_path_plain : plain_path (hd_path forged_head).
Proof.
  intros segment. change (split SLASH (hd_path forged_head)) with [[]; lit "worker"; lit "v1"; lit "claim"].
  intros Hs. apply plain_decoded. repeat (apply elem_of_cons in Hs as [->|Hs]; [by vm_compute; set_solver|]). by apply elem_of_nil in Hs.
Qed.
Example forged_refused : served_forged (lit "claim") = (error_response unauthorized, submitted).
Proof. by vm_compute. Qed.
Lemma body_needs_authorization_witness :
  (∃ c', authorised forged_head submitted c') ∨
  ∀ data', executes (serve app true forged_head data') submitted (served_forged (lit "claim")).1 (served_forged (lit "claim")).2.
Proof.
  destruct (body_needs_authorization app true forged_head (lit "claim") submitted _ _ forged_path_plain
    (served_alone 15 600 (forged_head, lit "claim") submitted)) as [_ [Ha|Ha]]; [left; by eexists|right; exact Ha].
Defined.
Lemma worker_request_served_witness :
  serve app true claim_head (lit "claim") =
    r ← attempt (permission secrets (HttpRequest.Claim claim_request))
          (λ _, service app true secrets (HttpRequest.Claim claim_request));
    Done match r with Ok response => response | Err e => error_response e end.
Proof.
  apply (worker_request_served app true secrets (HttpRequest.Claim claim_request)).
  - vm_compute. reflexivity.
  - vm_compute. reflexivity.
  - split; [vm_compute; reflexivity|apply (bool_decide_unpack _); vm_compute; reflexivity].
Defined.
Lemma store_errors_understood_witness :
  ae_root (error_heard lost_race) =
    ErrorRoot.Conflict {| vc_current_version := 7; vc_cancel_requested := true; vc_current_state := Some JobState.Running |}.
Proof.
  apply (store_errors_understood lost_race).
  - apply (bool_decide_unpack _). vm_compute. reflexivity.
  - vm_compute. reflexivity.
Defined.

(** The claim is answered, and the answer read. *)
Lemma claimed_now_Ok : ∃ claim, claimed_now = Ok (Some claim).
Proof.
  assert (match claimed_now with Ok (Some _) => true | _ => false end = true) as Hc by (vm_compute; reflexivity).
  destruct claimed_now as [[claim|]|]; [by exists claim|discriminate Hc..].
Qed.
Lemma claim_read_back claim response :
  claimed_now = Ok (Some claim) → claim_answer (Some claim) = Ok response → read_back (rs_body response).
Proof.
  intros Hc Hr. assert (parse_claim_response [] = match rs_body response with Body.Claim r => Ok r | _ => Err (lit "claim") end) as Hp.
  { cbn. unfold claim_answered. rewrite Hc, Hr. by destruct response as [? ? []]. }
  unfold claim_answer in Hr. destruct (or_else _ _); [|discriminate Hr]. cbn [mbind result_bind] in Hr.
  destruct (as_header _); [|discriminate Hr]. cbn [mbind result_bind] in Hr. injection Hr as <-. exact Hp.
Qed.
Lemma claimed_assignment_accepted_witness :
  ∃ claim response, claimed_now = Ok (Some claim) ∧ claim_answer (Some claim) = Ok response ∧
  (WorkerNode.claim claim_request (answered_with response) initial_world).1 =
    Ok {| cs_assignment := Some (assignment_of_claim claim); cs_run_credential := Some (wcl_run_credential claim);
          cs_retry_after_seconds := IDLE_RETRY_SECONDS |}.
Proof.
  destruct claimed_now_Ok as [claim Hclaim].
  destruct (claimed_assignment_accepted (at_second 15 600) submitted worker_credential worker_node claim submitted_reachable Hclaim)
    as (response & Hr & _ & Hheard).
  exists claim, response. split_and!; [exact Hclaim|exact Hr|]. apply (Hheard (to_http response)).
  - exact (to_http_delivered _ (claim_read_back _ _ Hclaim Hr)).
  - vm_compute. reflexivity.
  - reflexivity.
Defined.

(** The completion is acknowledged. *)
Definition session : RunSession := {| ses_run_id := 503%N; ses_lease_id := 505%N |}.
Definition completion_heard : result AnyError (StateUpdateResponse * TerminalCompletionAckV1) :=
  (WorkerClient.complete session success (answered_with completion_served.1) initial_world).1.
Lemma completion_heard_Ok : ∃ answer ack, completion_heard = Ok (answer, ack).
Proof.
  assert (is_ok completion_heard = true) as Hc by (vm_compute; reflexivity).
  destruct completion_heard as [[answer ack]|]; [by exists answer, ack|discriminate Hc].
Qed.
Lemma verifying_reachable : reachable verifying.
Proof. scenario. Qed.
Lemma acknowledgement_binding_witness :
  ∃ answer ack row stored, completion_heard = Ok (answer, ack) ∧
    db_jobs (ctl_db completion_served.2) !! 503%N = Some row ∧
    db_completions (ctl_db completion_served.2) !! 503%N = Some stored ∧
    ack_completion_sha256 ack = co_document_sha256 stored ∧ ack_final_state ack = row_state row.
Proof.
  destruct completion_heard_Ok as (answer & ack & Hheard).
  destruct (acknowledgement_binding app true secrets session success
    (request_of secrets (HttpRequest.Complete success)).1 (request_of secrets (HttpRequest.Complete success)).2
    completion_served.1 (to_http completion_served.1) (answered_with completion_served.1) initial_world
    answer ack verifying completion_served.2 completion_served.2)
    as (row & stored & obligation & document & Hrow & Hstored & _ & _ & _ & _ & Hsha & Hstate & _).
  - exact verifying_reachable.
  - vm_compute. reflexivity.
  - vm_compute. by split.
  - split; [vm_compute; reflexivity|split; [apply (bool_decide_unpack _)|]; vm_compute; reflexivity].
  - exact (served_alone 22 1300 _ verifying).
  - apply to_http_delivered. vm_compute. reflexivity.
  - reflexivity.
  - exact Hheard.
  - reflexivity.
  - exists answer, ack, row, stored. split_and!; [exact Hheard|exact Hrow|exact Hstored|exact Hsha|exact Hstate].
Defined.
