(* ===== verification/Failures.v ===== *)
(** How the controller fails: what an undecodable row does to every request.

    Expired leases are handled at the start of nearly every request, and that pass
    decodes each job whose lease is gone.  A queued job that lost its place and is then
    cancelled becomes a row that does not decode, so that none of these requests can
    succeed any more.  Two reports of a worker never get through either: a completion
    torn by a late cancellation, and the success of a job whose step names carry control
    characters. *)
From Stdlib Require Import ZArith NArith Lia String.
From stdpp Require Import base option list numbers sets gmap relations.
From S2P Require Import Prelude Text Crates Protocol WorkerEnv WorkerClient WorkerProcess WorkerSource WorkerExecutor WorkerRuntime WorkerEvidence WorkerReporting WorkerScenario Snapshot RunState JobSpec CanonicalJson Scheduler NodeState PlacementBinding WorkerReports WorkerRun Cleanup Onboarding ControllerDb Planning FleetNodes Leases NodeWrites Uploads CompletionEvidence RunControl FleetView Pairings TxLogic Changes ChangeProofs MethodProofs RunProofs ControllerCalls RunSafety Scenario.
Open Scope rust_scope.

Section failures.
Context `{UuidCrate, ChronoCrate, SerdeJsonCrate, !StoreSerde, DigestCrate}.

(** ** A row that does not decode *)

(** A finished run with a plan but no node, whose lease is gone. *)
Record stuck (id : Uuid) (row : JobRow) (d : Db) : Prop := {
  sk_row : db_jobs d !! id = Some row;
  sk_terminal : JobState.is_terminal (row_state row) = true;
  sk_bound : is_Some (jr_plan_binding row);
  sk_unplaced : run_node_id (jr_run row) = None;
  sk_cancel : jr_cancel_requested row = false;
  sk_lease : ∀ lease, jr_lease_id row = Some lease →
    ∃ l, db_leases d !! lease = Some l ∧ lr_run_id l = id ∧ is_Some (lr_released_at l)
}.
Lemma stuck_undecodable id row d : stuck id row d → is_ok (decode_job_row row) = false.
Proof.
  intros [_ Ht [b Hb] Hn _ _]. destruct (decode_job_row row) as [stored|] eqn:Hd; [|done]. exfalso.
  unfold decode_job_row in Hd. rewrite bind_unit_Ok, Hb, Hn in Hd. destruct Hd as [_ Hd].
  rewrite !bind_unit_Ok in Hd. destruct Hd as [(_ & _ & Hd) _]. unfold row_state in Ht.
  by destruct (run_state (jr_run row)).
Qed.
Lemma released_for_good d id row lease l l' :
  stuck id row d → lr_run_id l = id → is_Some (lr_released_at l) → ¬ lease_write d lease l l'.
Proof.
  intros Hs Hr [t Hrel]. destruct 1 as [|?|?|?|l' _ _ _ _ _ (row' & Hrow' & Hq)]; try congruence.
  rewrite Hr, (sk_row _ _ _ Hs) in Hrow'. injection Hrow' as <-. apply bool_decide_eq_true in Hq.
  pose proof (sk_terminal _ _ _ Hs) as Ht. by rewrite Hq in Ht.
Qed.
Lemma stuck_leases id row d d' :
  stuck id row d → jobs_follow d d' →
  (∀ lease l, db_leases d !! lease = Some l → lr_run_id l = id → is_Some (lr_released_at l) →
    db_leases d' !! lease = Some l) →
  stuck id row d'.
Proof.
  intros [Hrow Ht Hb Hn Hc Hl] Hf Hkeep. destruct (Hf _ _ Hrow) as (row' & Hrow' & Hfol).
  pose proof (rf_terminal _ _ Hfol Ht) as ->. split; try done.
  intros lease Hlease. destruct (Hl lease Hlease) as (l & Hll & Hr & Hrel). exists l. split_and!; [|done|done].
  by apply Hkeep.
Qed.
Lemma change_stuck f id row d d' : change f d d' → stuck id row d → stuck id row d'.
Proof.
  intros Hch Hs. pose proof (change_jobs _ _ _ Hch) as Hf. apply (stuck_leases _ _ d); [done..|].
  clear Hf. intros lease l Hl Hr Hrel.
  assert (∀ i l1 l2, db_leases d !! i = Some l1 → lease_write d i l1 l2 → i ≠ lease) as Hother.
  { intros i l1 l2 Hi Hw ->. assert (l1 = l) as -> by congruence. by eapply released_for_good. }
  destruct Hch as [d d' Hch|d d' Hn|d d' Hp|d i r Hr' Hn|d i l' Hl' Hp|d i l1 l2 Hl' Hw|d r c t Hcl Hu|d r c Hcl|d r c o Ho Ho' Hf|d r o Ho
    |d i o now Hr' Hu|d r s off o Hr' Hn|d i o Hr' Hn|d dg o Hr' Hn|d h now]; try done.
  - destruct Hch; try done. cbn. rewrite lookup_insert_ne; [done|]. by eapply Hother.
  - by rewrite (proj2 (node_change_tables _ _ Hn)).
  - by rewrite (proj2 (pairing_change_tables _ _ Hp)).
  - cbn. rewrite lookup_insert_ne; [done|]. congruence.
  - cbn. rewrite lookup_insert_ne; [done|]. by eapply Hother.
Qed.
Lemma moved_stuck f id row d d' : moved f d d' → stuck id row d → stuck id row d'.
Proof. intros Hm. change (rtc (change f) d d') in Hm. induction Hm; [done|]. eauto using change_stuck. Qed.
Lemma calls_stuck id row c c' :
  reachable c → rtc calls c c' → stuck id row (ctl_db c) → stuck id row (ctl_db c').
Proof. intros Hr Hc. eapply moved_stuck. by apply (controls_moved c c' (reachable_consistent c Hr) Hc). Qed.

(** ** Computations that cannot succeed *)
Definition refused {A} (m : tx A) (env : Env) (s : TxState) : Prop := is_ok (m env s).2 = false.
Lemma refused_bind {A B} (m : tx A) (k : A → tx B) env s : refused m env s → refused (mbind k m) env s.
Proof. unfold refused, mbind, tx_bind. by destruct (m env s) as [? []]. Qed.
Lemma refused_after {A B} (m : tx A) (k : A → tx B) env s :
  (∀ a s', m env s = (s', Ok a) → refused (k a) env s') → refused (mbind k m) env s.
Proof. unfold refused, mbind, tx_bind. destruct (m env s) as [s' []]; [|done]. intros Hk. by apply Hk. Qed.
Lemma refused_wp (R : Movement) {A} (m : tx A) env s : wp R m env s (λ _ _, False) → refused m env s.
Proof. unfold wp, refused. destruct (m env s) as [? []]; [|done]. by intros [_ ?]. Qed.
Lemma wp_refused (R : Movement) {A} (m : tx A) env s (Q Q' : A → TxState → Prop) :
  wp R m env s Q → refused m env s → wp R m env s Q'.
Proof. unfold wp, refused. by destruct (m env s) as [? []]. Qed.
Lemma refused_fold {A B} (body : B → A → tx B) x l b env s :
  x ∈ l → (∀ b s, refused (body b x) env s) → refused (fold_tx body b l) env s.
Proof.
  intros Hx Hbody. revert b s. induction l as [|y l IH]; intros b s; [by apply not_elem_of_nil in Hx|].
  apply elem_of_cons in Hx as [<-|Hx]; cbn; [by apply refused_bind|]. apply refused_after. intros b' s' _. by apply IH.
Qed.
Lemma stuck_redispatchable id row d now : stuck id row d → (id, row) ∈ redispatchable d now.
Proof.
  intros [Hrow _ _ _ Hc Hl]. unfold redispatchable.
  rewrite (sort_by_perm (λ x y : Uuid * JobRow, then_with (Z.compare (jr_created_at x.2) (jr_created_at y.2)) (N.compare x.1 y.1))).
  apply list_elem_of_In, filter_In. split; [by apply list_elem_of_In, elem_of_map_to_list|]. cbn [snd].
  rewrite Hc. cbn. destruct (jr_lease_id row) as [lease|]; [|done]. cbn.
  destruct (Hl lease eq_refl) as (l & -> & _ & [t ->]). done.
Qed.
Lemma stuck_redispatch id row env s now scheduler :
  stuck id row (tx_db s) → refused (redispatch_queued_jobs now scheduler) env s.
Proof.
  intros Hs. unfold redispatch_queued_jobs. apply refused_after. intros d s' [= <- <-]. apply refused_bind.
  eapply refused_fold; [by apply (stuck_redispatchable id row _ now)|]. intros b s'. apply refused_bind.
  pose proof (stuck_undecodable _ _ _ Hs) as Hd. unfold refused, liftr. cbn. by destruct (decode_job_row row).
Qed.
Lemma stuck_expiry id row env s now :
  consistent (tx_db s) → stuck id row (tx_db s) → refused (expire_leases now) env s.
Proof.
  intros Hc Hs. apply (refused_wp moved). unfold expire_leases.
  apply wp_bind. eapply wp_mono; [apply (wp_reap moved_leases _ _ (λ _ s', consistent (tx_db s'))); [done|done]|].
  intros count s1 Hm1 Hc1. pose proof (moved_stuck _ _ _ _ _ (mv_db _ _ _ Hm1) Hs) as Hs1.
  apply wp_bind, wp_get_db, wp_bind.
  eapply wp_mono; [apply (wp_expire_rows moved_leases _ _ (λ _ s', consistent (tx_db s'))); [done|done]|].
  intros n s2 Hm2 Hc2. pose proof (moved_stuck _ _ _ _ _ (mv_db _ _ _ Hm2) Hs1) as Hs2.
  apply wp_bind, (wp_refused _ _ _ _ (λ _ _, True)); [by apply (wp_redispatch moved_leases)|].
  by eapply stuck_redispatch.
Qed.

(** ** Requests that handle expired leases first *)
Definition expires {A} (r : Request A) : bool :=
  match r with
  | RecordNodeReport _ _ | CreatePlan _ _ | SubmitJob _ _ _ | ClaimJob _ _ | HeartbeatRun _ _ _ _ _ _
  | WorkerTransition _ _ _ _ _ _ | WorkerComplete _ _ _ | RecordCleanup _ _ _ | GetCleanupSnapshot _
  | AuthorizeSnapshotDownload _ _ _ _ _ | PutLogChunk _ _ _ _ _ _ _ _ | PutArtifact _ _ _ _ _ _ _ _
  | GetJob _ | GetJobByJob _ | GetJobByRun _ | ListJobs _ | TransitionRun _ _ _ _ | CancelJob _ _
  | RenewLease _ | ReapExpiredLeases | ListFleetNodeViews | ReadFleetSnapshot _ => true
  | _ => false
  end.
Lemma refused_reads {A B} (m : tx A) (k : A → tx B) env s d :
  reads m → tx_db s = d → (∀ a s', tx_db s' = d → refused (k a) env s') → refused (mbind k m) env s.
Proof.
  intros Hm Hd Hk. apply refused_after. intros a s' Hrun. apply Hk. destruct (Hm env s) as (E & _).
  rewrite Hrun in E. cbn in E. congruence.
Qed.
Lemma normalized_reads job : reads (normalized job).
Proof. unfold normalized. reads_auto. Qed.
Lemma seconds_reads : reads now_in_seconds.
Proof. unfold now_in_seconds. reads_auto. Qed.
Lemma stuck_refuses {A} (r : Request A) id row env s :
  expires r = true → consistent (tx_db s) → stuck id row (tx_db s) → refused (handle r) env s.
Proof.
  intros Hexp Hc Hs. remember (tx_db s) as d eqn:Hd. symmetry in Hd.
  assert (∀ now s', tx_db s' = d → refused (expire_leases now) env s') as He
    by (intros now s' Hs'; apply (stuck_expiry id row); rewrite Hs'; assumption).
  assert (∀ s', tx_db s' = d → refused expire_now env s') as Hnow
    by (intros s' Hs'; unfold expire_now; apply (refused_reads _ _ _ _ d); [apply reads_utc_now|exact Hs'|];
        intros a s1; apply He).
  destruct r; try discriminate Hexp; cbn [handle];
    unfold record_node_report, RunControl.create_plan, submit_job, claim_job, worker_heartbeat, worker_transition,
      worker_transition_inner, worker_complete_managed, record_cleanup, get_cleanup_snapshot,
      authorize_snapshot_download, put_log_chunk, put_artifact, get_job, get_job_by_job, get_job_by_run, list_jobs,
      transition_run_with_evidence, cancel_job, renew_lease, reap_expired_leases, list_fleet_node_views, fleet_snapshot; cbv zeta;
    repeat lazymatch goal with
    | |- refused expire_now _ _ => apply Hnow; assumption
    | |- refused (mbind _ expire_now) _ _ => apply refused_bind, Hnow; assumption
    | |- refused (mbind _ (expire_leases _)) _ _ => apply refused_bind, He; assumption
    | |- refused (mbind _ (normalized _)) _ _ =>
        apply (refused_reads _ _ _ _ d (normalized_reads _)); [assumption|intros [? ?] ? ?]
    | |- refused (mbind _ now_in_seconds) _ _ =>
        apply (refused_reads _ _ _ _ d seconds_reads); [assumption|intros ? ? ?]
    | |- refused (mbind _ _) _ _ =>
        apply (refused_reads _ _ _ _ d); [solve [auto with reads]|assumption|intros ? ? ?]; cbv zeta
    end.
Qed.
Lemma refused_run {A} (m : tx A) env c :
  refused m env {| tx_db := ctl_db c; tx_committed := ctl_db c; tx_files := ctl_files c; tx_tick := 0 |} →
  is_ok (run env m c).2 = false.
Proof. unfold refused, run. by destruct (m env _) as [? []]. Qed.
Lemma cancelled_stuck c env id version stored :
  reachable c → (run env (cancel_job id version) c).2 = Ok stored → run_state (st_run stored) = JobState.Cancelled →
  is_Some (st_plan_binding stored) → run_node_id (st_run stored) = None → st_cancel_requested stored = false →
  ∃ row, stuck (run_id (st_run stored)) row (ctl_db (run env (cancel_job id version) c).1).
Proof.
  intros Hreach Hok Hs Hb Hn Hc.
  pose proof (run_moves moved env _ c _ (wp_cancel_job env {| tx_db := ctl_db c; tx_committed := ctl_db c;
    tx_files := ctl_files c; tx_tick := 0 |} id version (reachable_consistent c Hreach))) as Hrun.
  destruct (run env _ c) as [c' r]. cbn in *. destruct Hrun as (_ & _ & Hpost).
  destruct (Hpost stored Hok) as (s & Hrow & -> & _). destruct (Hrow Hs) as (row & Hr & Er & Eb & Ec & El).
  exists row. split; [done| |by rewrite Eb|by rewrite Er|congruence|done]. unfold row_state. by rewrite Er, Hs.
Qed.

(** C29. Cancelling a job that lost its place stops the controller.  If a job is cancelled
    in the queue while it has a plan but no node, as when its dispatch expired and no
    node could take it, then from that moment on every request that first handles expired
    leases fails, whatever else is done: reports, plans, submissions, claims, heartbeats,
    transitions, completions, receipts, uploads, and reading, listing, cancelling or
    renewing any job, and looking at the fleet. *)
Theorem stranded_cancel_wedges c (Hreach : reachable c) env id version stored
    (Hcancel : (run env (handle (CancelJob id version)) c).2 = Ok stored)
    (Hstate : run_state (st_run stored) = JobState.Cancelled) (Hplan : is_Some (st_plan_binding stored))
    (Hnode : run_node_id (st_run stored) = None) (Hflag : st_cancel_requested stored = false)
    c2 (Hcalls : rtc calls (run env (handle (CancelJob id version)) c).1 c2)
    {A} (r : Request A) (Hexpires : expires r = true) env2 :
  is_ok (run env2 (handle r) c2).2 = false.
Proof.
  cbn [handle] in Hcancel, Hcalls.
  destruct (cancelled_stuck c env id version stored Hreach Hcancel Hstate Hplan Hnode Hflag) as [row Hstuck].
  set (c1 := (run env (cancel_job id version) c).1) in *.
  assert (reachable c1) as Hr1.
  { apply (reachable_calls c); [done|]. apply rtc_once. by exists env, _, (CancelJob id version). }
  pose proof (calls_stuck _ _ _ _ Hr1 Hcalls Hstuck) as Hs2.
  apply refused_run. eapply stuck_refuses; [exact Hexpires| |exact Hs2].
  apply reachable_consistent. by apply (reachable_calls c1).
Qed.

(** ** Completions that are never stored *)
Lemma stored_settled c run completion :
  reachable c → db_completions (ctl_db c) !! run = Some completion →
  ∃ row o, db_jobs (ctl_db c) !! run = Some row ∧ settles run row completion o.
Proof.
  intros Hreach Hc. assert (runs_settled (ctl_db c)) as [Hs _].
  { apply (reachable_invariant (λ _, runs_settled)); [|intros f d d' _; apply change_settled|done].
    intros seed _. split; [done|]. intros r [? [=]]. }
  destruct (Hs _ _ Hc) as (row & o & Hrow & _ & Ho). by exists row, o.
Qed.
Lemma named_steps shell started finished previous evs steps i ev step :
  check_steps shell started finished previous (zip evs steps) = Ok tt →
  evs !! i = Some ev → steps !! i = Some step → se_name ev = step_name step.
Proof.
  revert previous steps i. induction evs as [|e evs IH]; intros previous [|s steps] [|i]; try done; cbn.
  - rewrite bind_unit_Ok, reject_if_Ok, !orb_false_iff. intros [Hg _] [= ->] [= ->].
    rewrite !negb_bool_decide_false in Hg. tauto.
  - rewrite bind_unit_Ok. intros [_ Hrest]. by apply (IH _ _ _ Hrest).
Qed.
Lemma listed_names_plain c i ev :
  RunCompletion_validate c = Ok tt → xe_steps (rc_execution c) !! i = Some ev → has_control (se_name ev) = false.
Proof.
  unfold RunCompletion_validate. cbv zeta. rewrite !bind_unit_Ok.
  intros (_ & _ & Hx & _) Hev. unfold ExecutionEvidence_validate in Hx.
  rewrite !bind_unit_Ok, for_each_i_Ok in Hx. destruct Hx as (_ & _ & _ & Hx). specialize (Hx _ _ Hev).
  rewrite bind_unit_Ok in Hx. destruct Hx as [Hx _]. unfold StepExecutionEvidence_validate in Hx.
  rewrite bind_unit_Ok, reject_if_Ok in Hx. destruct Hx as [Hx _]. rewrite !orb_false_iff in Hx. tauto.
Qed.

(** C28. A job one of whose steps has a control character in its name is never completed
    as succeeded: no completion that a reachable controller stores for a run of such a
    job has succeeded, since the validator of completions refuses the name and the
    controller's check asks a succeeded run for all the steps under their names. *)
Theorem control_name_never_succeeds c (Hreach : reachable c) run row completion
    (Hrow : db_jobs (ctl_db c) !! run = Some row) (Hname : ¬ plainly_named (jr_job row))
    (Hcompletion : db_completions (ctl_db c) !! run = Some completion) :
  rc_final_state (co_document completion) ≠ JobState.Succeeded ∧ row_state row ≠ JobState.Succeeded.
Proof.
  destruct (stored_settled c run completion Hreach Hcompletion) as (row' & o & Hrow' & Hs).
  rewrite Hrow in Hrow'. injection Hrow' as <-. rewrite (se_final _ _ _ _ Hs).
  enough (row_state row ≠ JobState.Succeeded) by done. intros Hst. apply Hname.
  apply Forall_lookup. intros i step Hstep. destruct (se_steps _ _ _ _ Hs) as [os Hsteps].
  unfold validate_step_evidence in Hsteps. rewrite bind_unit_Ok, reject_if_Ok, !orb_false_iff in Hsteps.
  destruct Hsteps as [[[_ Hlen] _] Hsteps]. rewrite (se_final _ _ _ _ Hs), Hst, bool_decide_eq_true_2 in Hlen by done.
  cbn [andb] in Hlen.
  rewrite negb_bool_decide_false in Hlen. destruct (ok_or _ _) as [t|] eqn:Ht; [|done]. cbn in Hsteps.
  rewrite bind_unit_Ok in Hsteps. destruct Hsteps as [Hsteps _].
  destruct (lookup_lt_is_Some_2 (xe_steps (rc_execution (co_document completion))) i) as [ev Hev];
    [rewrite Hlen; by eapply lookup_lt_Some|].
  rewrite <-(named_steps _ _ _ _ _ _ _ _ _ Hsteps Hev Hstep).
  by apply (listed_names_plain _ _ _ (se_valid _ _ _ _ Hs) Hev).
Qed.
End failures.

(** ** A late cancellation *)
Section late.
Context `{WireCrates, UuidCrate, ChronoCrate, !StoreSerde, DigestCrate, SourceCrates, ExecutorCrates}.

(** C27. A cancellation that arrives while a failed artifact upload is being reported is
    lost.  If the first of the two reads of [report_failed_upload] finds no cancellation
    and the second one finds one, then the worker submits a cancelled completion with
    the reason of the failed upload; the controller's check of the steps refuses such a
    completion for every job and operating system, and no reachable controller ever
    stores one. *)
Theorem late_cancellation_refused session assignment prepared started outcome artifacts e env w
    finished w1 first w2 second w3
    (Hnow : call Op.Now env w = (finished, w1)) (Hfirst : call Op.LoadCancellation env w1 = (first, w2))
    (Hsecond : call Op.LoadCancellation env w2 = (second, w3))
    (Hnone : reason_of first = None) (Hcancelled : final_state_of second = JobState.Cancelled) :
  ∃ c w4, report_failed_upload session assignment prepared started outcome artifacts e env w
      = submit_completion session c env w4 ∧
    torn c ∧ (∀ job os, validate_step_evidence job os c ≠ Ok tt) ∧
    ∀ ctl run row, reachable ctl → db_completions (ctl_db ctl) !! run = Some row → ¬ torn (co_document row).
Proof.
  unfold report_failed_upload, cancellation_termination_reason, cancellation_final_state, mbind, io_bind, mret, io_ret.
  rewrite Hnow, Hfirst, Hsecond, Hnone, Hcancelled. destruct (streams env w3) as [evidence w4].
  unfold complete_after_start, mbind, io_bind. destruct (call Op.LoadVersion env w4) as [version w5].
  eexists _, w5. split; [done|]. split; [by split; [|left]|]. split.
  - intros job os. apply torn_refused. by split; [|left].
  - intros ctl run row Hc Hrow Ht. destruct (stored_settled ctl run row Hc Hrow) as (jrow & o & _ & Hs).
    destruct (se_steps _ _ _ _ Hs) as [os Hsteps]. by apply (torn_refused (jr_job jrow) os (co_document row) Ht).
Qed.
End late.

(** ** Witnesses *)

(** No node reported in time to take the submitted job again. *)
Definition stranded : Controller := after 60 2000 (GetJob 503%N) submitted.
Lemma stranded_reachable : reachable stranded.
Proof. scenario. Qed.
Definition cancellation : Request StoredJob := CancelJob 503%N None.
Lemma stranded_cancel_wedges_witness : ∃ stored,
  (ask 61 2100 cancellation stranded).2 = Ok stored ∧
  is_ok (ask 62 2200 (RecordNodeReport worker_credential (worker_report 2))
    (after 61 2100 cancellation stranded)).2 = false.
Proof.
  destruct (ask 61 2100 cancellation stranded).2 as [stored|] eqn:Hok; [|by vm_compute in Hok].
  assert ((λ s, (run_state (st_run s), is_some (st_plan_binding s), run_node_id (st_run s), st_cancel_requested s)) <$>
    match (ask 61 2100 cancellation stranded).2 with Ok s => Some s | Err _ => None end
    = Some (JobState.Cancelled, true, None, false)) as Hshape by by vm_compute.
  rewrite Hok in Hshape. injection Hshape as Hs Hb Hn Hf. apply is_some_true in Hb as [b Hb].
  exists stored. split; [reflexivity|].
  apply (stranded_cancel_wedges stranded stranded_reachable (at_second 61 2100) 503%N None stored Hok Hs
    (ex_intro _ b Hb) Hn Hf (after 61 2100 cancellation stranded) (rtc_refl _ _)
    (RecordNodeReport worker_credential (worker_report 2)) eq_refl (at_second 62 2200)).
Defined.

(** ** A preferred node that is away

    Two workers; the job prefers the first and is queued there, then only the second one
    reports.  Placing the job again chooses the second worker, whose binding the preference
    forbids, and the error ends every request of the other worker too. *)
Definition second_node : Node :=
  let n := sample_node 4%N 14%N in
  {| node_id := node_id n; node_name := lit "second"; node_enabled := true;
     node_transport := NodeTransport.Managed (lit "https://second.local:7443") (lit "cred-4"); node_os := node_os n;
     node_arch := node_arch n; node_status := node_status n; node_capabilities := node_capabilities n;
     node_resources := node_resources n; node_load := node_load n; node_priority := node_priority n;
     node_labels := []; node_cached_sources := []; node_last_seen_at := None |}.
Definition second_credential : rstr := lit "second-credential".
Definition second_report (sequence : N) : NodeReportRequest :=
  let t := NodeTelemetry_from_node second_node 0%Z in
  {| nr_api_version := WORKER_API_VERSION; nr_inventory := None;
     nr_telemetry :=
       {| tel_status := tel_status t; tel_available_cpu_cores := tel_available_cpu_cores t;
          tel_available_memory_mib := tel_available_memory_mib t;
          tel_available_disk_mib := tel_available_disk_mib t; tel_gpus := tel_gpus t;
          tel_load := tel_load t; tel_cached_sources := []; tel_observed_at := 0%Z;
          tel_boot_generation := 1; tel_boot_id := 10%N; tel_sequence := sequence; tel_cpu_ewma_percent := 10;
          tel_active_run_ids := []; tel_power_source := PowerSource.Ac; tel_battery := None;
          tel_temperature_c := None |} |}.
Definition preferring : JobSpec :=
  {| job_api_version := job_api_version sample_job; job_id := job_id sample_job; job_origin := job_origin sample_job;
     job_kind := job_kind sample_job; job_source := job_source sample_job;
     job_requirements := job_requirements sample_job; job_resource_request := job_resource_request sample_job;
     job_steps := job_steps sample_job; job_artifacts := job_artifacts sample_job;
     job_timeout_seconds := job_timeout_seconds sample_job; job_placement_policy := job_placement_policy sample_job;
     job_preferred_node_id := Some 3%N |}.
Definition two_workers : Controller :=
  let c := after 10 3000 (CreatePairing (Some 4%N)) reported in
  let code := uuid_simple 3002%N ++ uuid_simple 3003%N in
  let c := after 11 3200 (ConsumePairing code 3001%N 4%N (secret_hash second_credential) second_node) c in
  let c := after 12 3300 (AcknowledgePairing second_credential 3001%N 4%N (secret_hash second_credential)) c in
  after 13 3400 (RecordNodeReport second_credential (second_report 1)) c.
Definition outranked : Controller :=
  let c := after 14 500 (SubmitJob preferring None Scheduler_default) two_workers in
  after 40 3500 (RecordNodeReport second_credential (second_report 2)) c.
Lemma outranked_reachable : reachable outranked.
Proof. scenario. Qed.
Example preferred_node_away_blocks :
  (ask 46 4600 (RecordNodeReport second_credential (second_report 3)) outranked).2 = Err StoreError.InvalidPlanBinding ∧
  (ask 46 4600 (RecordNodeReport worker_credential (worker_report 2)) outranked).2 = Err StoreError.InvalidPlanBinding ∧
  (ask 46 4600 (CancelJob 503%N None) outranked).2 = Err StoreError.InvalidPlanBinding.
Proof. split_and!; by vm_compute. Qed.

(** ** A step's name with a control character *)
Definition tabbed_job : JobSpec :=
  {| job_api_version := job_api_version sample_job; job_id := job_id sample_job; job_origin := job_origin sample_job;
     job_kind := job_kind sample_job; job_source := job_source sample_job;
     job_requirements := job_requirements sample_job; job_resource_request := job_resource_request sample_job;
     job_steps := [JobStep_new [chr "a"; 9%N] (lit "cargo test")]; job_artifacts := job_artifacts sample_job;
     job_timeout_seconds := job_timeout_seconds sample_job; job_placement_policy := job_placement_policy sample_job;
     job_preferred_node_id := None |}.
Example tabbed_job_valid : JobSpec_validate tabbed_job = Ok tt.
Proof. by vm_compute. Qed.
Definition abandoned : RunCompletion :=
  {| rc_run_id := 503%N; rc_lease_id := 505%N; rc_expected_version := 2; rc_final_state := JobState.Failed;
     rc_evidence := {| ev_started_at := Some (seconds 16); ev_finished_at := Some (seconds 21);
       ev_exit_code := None; ev_error := Some (lit "source"); ev_artifact_ids := [] |};
     rc_execution :=
       {| xe_source := {| xs_kind := lit "snapshot"; xs_repository := lit "snapshot";
            xs_requested_revision := snapshot_source; xs_resolved_revision := [];
            xs_tree := []; xs_git_version := lit "not-applicable" |};
          xe_steps := [];
          xe_streams := {| rs_stdout := stream_of "fetching" 1; rs_stderr := stream_of "warning" 1 |};
          xe_termination := {| te_reason := TerminationReason.SourcePreparationFailed; te_process_tree_terminated := true;
            te_forced_kill := false; te_root_exit_code := None; te_signal := None;
            te_observed_at := seconds 21 |} |};
     rc_artifacts := [] |}.
Definition tabbed_failed : Controller :=
  let c := after 14 500 (SubmitJob tabbed_job None Scheduler_default) reported in
  let c := after 15 600 (ClaimJob worker_credential worker_node) c in
  let c := after 16 700 (WorkerTransition worker_credential run_credential 503%N 505%N 1%N JobState.Running) c in
  let c := after 17 800 (chunk "stdout" "fetching" 0) c in
  let c := after 18 900 (chunk "stderr" "warning" 0) c in
  after 22 1300 (WorkerComplete worker_credential run_credential abandoned) c.
Lemma tabbed_failed_reachable : reachable tabbed_failed.
Proof. scenario. Qed.
Lemma tabbed_failed_row : (λ row, (row_state row, forallb (λ s, negb (has_control (step_name s))) (job_steps (jr_job row))))
    <$> db_jobs (ctl_db tabbed_failed) !! 503%N = Some (JobState.Failed, false).
Proof. by vm_compute. Qed.
Lemma tabbed_failed_completion : is_some (db_completions (ctl_db tabbed_failed) !! 503%N) = true.
Proof. by vm_compute. Qed.
Lemma control_name_never_succeeds_witness : ∃ row completion,
  db_jobs (ctl_db tabbed_failed) !! 503%N = Some row ∧ row_state row = JobState.Failed ∧
  db_completions (ctl_db tabbed_failed) !! 503%N = Some completion ∧
  rc_final_state (co_document completion) ≠ JobState.Succeeded.
Proof.
  pose proof tabbed_failed_row as Hs. apply fmap_Some in Hs as (row & Hrow & [= Hst Hname]).
  pose proof tabbed_failed_completion as Hc. apply is_some_true in Hc as [completion Hc].
  assert (¬ plainly_named (jr_job row)) as Hn.
  { intros Hp. symmetry in Hname. apply not_true_iff_false in Hname. apply Hname, forallb_forall.
    intros s Hin. apply negb_true_iff. unfold plainly_named in Hp. rewrite Forall_forall in Hp.
    apply Hp, list_elem_of_In, Hin. }
  exists row, completion. split; [exact Hrow|]. split; [exact (eq_sym Hst)|]. split; [exact Hc|].
  exact (proj1 (control_name_never_succeeds tabbed_failed tabbed_failed_reachable 503%N row completion Hrow Hn Hc)).
Defined.

(** ** A cancellation between the two reads *)
Section late_witness.
Import ConcreteWorker.
#[local] Existing Instance ConcreteWorker.digest_crate.
Definition late_choices : Choices :=
  {| ch_send := agreeable; ch_cancellation := λ n, if (n <? 1)%nat then CANCEL_NONE else CANCEL_REQUESTED;
     ch_exit := 0; ch_walk := [] |}.
Definition late_prepared : PreparedJob :=
  {| pd_job_id := 7%N; pd_run_id := 12%N; pd_root := []; pd_repository := []; pd_scripts := []; pd_logs := [];
     pd_artifacts := [];
     pd_source := {| so_kind := lit "git"; so_repository := lit "https://github.com/example/project";
       so_requested_revision := sample_revision; so_resolved_revision := sample_revision;
       so_tree := sample_revision; so_git_version := lit "git version 2" |} |}.
Definition late_outcome : StepsOutcome :=
  {| oc_started_at := 0%Z; oc_finished_at := 0%Z; oc_exit_code := Some 0%Z; oc_signal := None;
     oc_termination := TerminationReason.Exited; oc_process_tree_terminated := true; oc_forced_kill := false;
     oc_error := None; oc_steps := [] |}.
Lemma late_cancellation_refused_witness : ∃ c,
  torn c ∧ ∀ job os, validate_step_evidence job os c ≠ Ok tt.
Proof.
  destruct (late_cancellation_refused (assigned_session sample_assignment) sample_assignment late_prepared 0%Z
    late_outcome [] (anyhow (lit "walk")) (environment_of late_choices) initial_world
    _ _ _ _ _ _ eq_refl eq_refl eq_refl eq_refl eq_refl) as (c & w4 & _ & Ht & Hr & _).
  exists c. split; [exact Ht|exact Hr].
Defined.
End late_witness.
