(* ===== verification/ClientApi.v ===== *)
(** The controller's listener for the command line and the desktop:
    [crates/cyc-controller/src/api.rs], with the token of [auth.rs].

    The middleware checks the host, the origin and the bearer token of a request before
    it is routed; a handler is a program of store calls as in [WorkerApi], from which
    requests, headers and programs are taken. *)
From Stdlib Require Import ZArith NArith Lia String.
From stdpp Require Import base option list numbers sets gmap.
From S2P Require Import Prelude Text Crates Protocol PortablePath Snapshot RunState JobSpec CanonicalJson Scheduler NodeState PlacementBinding WorkerReports WorkerRun Cleanup Onboarding ControllerDb FleetNodes Leases NodeWrites Uploads RunControl FleetView Pairings ControllerCalls WorkerEnv WorkerClient WorkerNode WorkerApi.
Open Scope rust_scope.

Definition MAX_JSON_BODY_BYTES : N := 1024 * 1024.
Definition NODE_CONFIG_API_VERSION : rstr := lit "cyc.dev/node-config/v1".
(** [env!("CARGO_PKG_VERSION")], the version of the workspace *)
Definition CARGO_PKG_VERSION : rstr := lit "0.1.0-preview.113".
Definition API_VERSION : rstr := lit "cyc.dev/v1".
Definition HOST : rstr := lit "host".
Definition CONTENT_LENGTH : rstr := lit "content-length".
Definition ETAG : rstr := lit "etag".

(** ** The token *)
Definition MIN_TOKEN_LEN : N := 32.
Definition MAX_TOKEN_LEN : N := 256.
Record AuthToken := { token_text : rstr }.
Definition AuthToken_parse (value : rstr) : option AuthToken :=
  let value := trim value in
  if negb (between MIN_TOKEN_LEN MAX_TOKEN_LEN (len value)) then None
  else if negb (forallb (λ byte, is_ascii_graphic byte && negb (is_ascii_whitespace byte)) (bytes value)) then None
  else Some {| token_text := value |}.
Definition AuthToken_matches (token : AuthToken) (candidate : rstr) : bool :=
  let expected := bytes (token_text token) in
  let candidate := bytes candidate in
  (length expected == length candidate) && (expected == candidate).

(** ** State of the listener *)
Record WorkerEndpoint := { we_public_url : rstr; we_certificate_pem : rstr }.
(** The identity of the controller is stored once, when the database is made. *)
Record AppState := {
  as_scheduler : Scheduler;
  as_token : AuthToken;
  as_port : N;
  as_worker_endpoint : option WorkerEndpoint;
  as_controller_id : Uuid
}.
Definition AppState_new (token : AuthToken) (port : N) (controller_id : Uuid) : AppState :=
  {| as_scheduler := Scheduler_default; as_token := token; as_port := port; as_worker_endpoint := None;
     as_controller_id := controller_id |}.
Definition with_worker_endpoint (public_url certificate_pem : rstr) (app : AppState) : AppState :=
  {| as_scheduler := as_scheduler app; as_token := as_token app; as_port := as_port app;
     as_worker_endpoint := Some {| we_public_url := public_url; we_certificate_pem := certificate_pem |};
     as_controller_id := as_controller_id app |}.

(** ** Documents *)
Record HealthResponse := { hr_status : rstr; hr_api_version : rstr; hr_controller_version : rstr; hr_database : rstr }.
Record ControllerSummary := { cs_version : rstr; cs_api_version : rstr; cs_access : rstr }.
Record CodexSummary := { cx_integration : rstr; cx_status : rstr }.
Record JobView := {
  jv_job : JobSpec;
  jv_run : Run;
  jv_plan_binding : option PlacementPlanBindingV1;
  jv_version : N;
  jv_cancel_requested : bool
}.
(** [From<StoredJob> for JobView] *)
Definition JobView_from (value : StoredJob) : JobView :=
  {| jv_job := st_job value; jv_run := st_run value; jv_plan_binding := st_plan_binding value;
     jv_version := st_version value; jv_cancel_requested := st_cancel_requested value |}.
Record FleetResponse := {
  flr_fleet_revision : N;
  flr_observed_at : DateTime;
  flr_controller : ControllerSummary;
  flr_codex : CodexSummary;
  flr_nodes : list Node;
  flr_node_views : list FleetNodeView;
  flr_recent_jobs : list JobView
}.
Record NodeConfigDocument := {
  ncd_api_version : rstr; ncd_node_id : Uuid; ncd_revision : Z; ncd_config : NodeConfig
}.
Record NodeConfigUpdate := { ncu_expected_revision : Z; ncu_config : NodeConfig }.
Record PlanRequest := { plq_job : JobSpec }.
Record SubmitJobRequest := { sjr_job : JobSpec; sjr_plan_id : option Uuid }.
(** [CleanupStatusV1] of cyc-protocol's cleanup.rs *)
Record CleanupStatusV1 := {
  csv_api_version : rstr;
  csv_job_id : Uuid;
  csv_run_id : Uuid;
  csv_status : CleanupStatusPhaseV1.t;
  csv_job_root_deleted : bool;
  csv_relative_root : option rstr;
  csv_observed_at : option DateTime;
  csv_received_at : option DateTime;
  csv_terminal_ack : option TerminalCompletionAckV1;
  csv_cleanup_deadline_at : option DateTime;
  csv_reservation_released_at : option DateTime;
  csv_release_reason : option CleanupReservationReleaseReasonV1.t;
  csv_cleanup_failure : option CleanupFailureV1
}.
Record PairingFailureRequest := { pfr_code : PairingFailureCodeV1.t }.
Record RevokePairingResponse := { rpr_pairing_id : Uuid; rpr_revoked : bool }.
Record LogChunkView := {
  lcv_run_id : Uuid; lcv_stream : rstr; lcv_offset : N; lcv_length : N; lcv_sha256 : rstr; lcv_created_at : DateTime
}.
(** [From<LogChunk> for LogChunkView] *)
Definition LogChunkView_from (value : LogChunk) : LogChunkView :=
  {| lcv_run_id := lgc_run_id value; lcv_stream := lgc_stream value; lcv_offset := lgc_offset value;
     lcv_length := lgc_length value; lcv_sha256 := lgc_sha256 value; lcv_created_at := lgc_created_at value |}.
Record ArtifactView := {
  av_id : Uuid; av_run_id : Uuid; av_name : rstr; av_size : N; av_sha256 : rstr; av_created_at : DateTime
}.
(** [From<StoredArtifact> for ArtifactView] *)
Definition ArtifactView_from (value : StoredArtifact) : ArtifactView :=
  {| av_id := sa_id value; av_run_id := sa_run_id value; av_name := sa_name value; av_size := sa_size value;
     av_sha256 := sa_sha256 value; av_created_at := sa_created_at value |}.

(** ** Errors and answers *)
Record ApiError (Number : Type) := {
  ae_status : N;
  ae_code : rstr;
  ae_message : rstr;
  ae_extra : option (rstr * Value Number)
}.
Arguments ae_status {Number} _.
Arguments ae_code {Number} _.
Arguments ae_message {Number} _.
Arguments ae_extra {Number} _.
Definition ApiError_new {Number} (status : N) (code message : rstr) : ApiError Number :=
  {| ae_status := status; ae_code := code; ae_message := message; ae_extra := None |}.
(** The body of an answer, before it is serialized.  [Framework] is what axum says when it
    rejects a request. *)
Module Document.
Inductive t (Number : Type) :=
| Empty
| Health (r : HealthResponse)
| Fleet (r : FleetResponse)
| Config (r : NodeConfigDocument)
| Plan (r : PlacementPlanBindingV1)
| Job (r : JobView)
| Jobs (jobs : list JobView)
| Cleanup (r : CleanupStatusV1)
| Enrollment (r : EnrollmentBundleV1)
| PairingStatus (r : PairingStatusV1)
| Revoked (r : RevokePairingResponse)
| Snapshot (r : SnapshotMetadataV1)
| Logs (chunks : list LogChunkView)
| Artifacts (artifacts : list ArtifactView)
| Data (data : list N)
| Error (e : ApiError Number)
| Security (code message : rstr)
| Framework.
Arguments Empty {Number}.
Arguments Health {Number} _.
Arguments Fleet {Number} _.
Arguments Config {Number} _.
Arguments Plan {Number} _.
Arguments Job {Number} _.
Arguments Jobs {Number} _.
Arguments Cleanup {Number} _.
Arguments Enrollment {Number} _.
Arguments PairingStatus {Number} _.
Arguments Revoked {Number} _.
Arguments Snapshot {Number} _.
Arguments Logs {Number} _.
Arguments Artifacts {Number} _.
Arguments Data {Number} _.
Arguments Error {Number} _.
Arguments Security {Number} _ _.
Arguments Framework {Number}.
End Document.
(** The headers are those that the code sets itself. *)
Record Answer (Number : Type) := {
  an_status : N; an_headers : list (rstr * rstr); an_document : Document.t Number
}.
Arguments an_status {Number} _.
Arguments an_headers {Number} _.
Arguments an_document {Number} _.
Definition respond {Number} (status : N) (document : Document.t Number) : Answer Number :=
  {| an_status := status; an_headers := []; an_document := document |}.
Definition framework {Number} (status : N) : Answer Number := respond status Document.Framework.

(** serde_json for the requests and for the values in an error; [Authority::from_str] with
    its host and port; [Uri::from_str] with its scheme and the text of its authority. *)
Class ClientCrates `{SerdeJsonCrate} := {
  parse_node_config_update : list N → option NodeConfigUpdate;
  parse_plan_request : list N → option PlanRequest;
  parse_submit_request : list N → option SubmitJobRequest;
  parse_create_pairing : list N → option CreatePairingRequestV1;
  parse_pairing_failure : list N → option PairingFailureRequest;
  parse_authority : rstr → option (rstr * option N);
  parse_uri : rstr → option (option rstr * option rstr);
  explanation_to_value : PlacementExplain → option (Value json_number);
  phase_to_value : PairingPhaseV1.t → Value json_number;
  json_i64 : Z → json_number
}.

(** ** Routes *)
Module JobRoute.
Inductive t := Get | Cancel | Cleanup | Logs | Log (stream : rstr) | Artifacts | Artifact (artifact : rstr).
End JobRoute.
Module PairingRoute.
Inductive t := Status | Failure | Revoke.
End PairingRoute.
Module ClientRoute.
Inductive t :=
| Health | Fleet | NodeConfig (id : rstr) | Plans | Jobs | Job (route : JobRoute.t) (id : rstr)
| Pairings | Pairing (route : PairingRoute.t) (id : rstr) | Snapshot (sha256 : rstr).
End ClientRoute.
Definition job_route (id : rstr) (tail : list rstr) : option JobRoute.t :=
  if is_empty id then None else
  match tail with
  | [] => Some JobRoute.Get
  | [a] =>
      if a == lit "cancel" then Some JobRoute.Cancel
      else if a == lit "cleanup" then Some JobRoute.Cleanup
      else if a == lit "logs" then Some JobRoute.Logs
      else if a == lit "artifacts" then Some JobRoute.Artifacts
      else None
  | [a; b] =>
      if is_empty b then None
      else if a == lit "logs" then Some (JobRoute.Log b)
      else if a == lit "artifacts" then Some (JobRoute.Artifact b)
      else None
  | _ => None
  end.
Definition pairing_route (id : rstr) (tail : list rstr) : option PairingRoute.t :=
  if is_empty id then None else
  match tail with
  | [] => Some PairingRoute.Status
  | [a] => if a == lit "failure" then Some PairingRoute.Failure
           else if a == lit "revoke" then Some PairingRoute.Revoke else None
  | _ => None
  end.
(** The routes of [router]; a capture is a segment that is not empty. *)
Definition client_route (path : rstr) : option ClientRoute.t :=
  rest ← strip_prefix (lit "/v1/") path;
  match split SLASH rest with
  | [a] =>
      if a == lit "health" then Some ClientRoute.Health
      else if a == lit "fleet" then Some ClientRoute.Fleet
      else if a == lit "plans" then Some ClientRoute.Plans
      else if a == lit "jobs" then Some ClientRoute.Jobs
      else if a == lit "pairings" then Some ClientRoute.Pairings
      else None
  | a :: id :: tail =>
      if a == lit "nodes" then
        match tail with
        | [b] => if negb (is_empty id) && (b == lit "config") then Some (ClientRoute.NodeConfig id) else None
        | _ => None
        end
      else if a == lit "jobs" then r ← job_route id tail; Some (ClientRoute.Job r id)
      else if a == lit "pairings" then r ← pairing_route id tail; Some (ClientRoute.Pairing r id)
      else if (a == lit "snapshots") && is_empty tail && negb (is_empty id) then Some (ClientRoute.Snapshot id)
      else None
  | [] => None
  end.

(** ** The middleware *)
Section security.
Context `{SerdeJsonCrate, !ClientCrates}.
Abbreviation response := (Answer json_number).

Definition valid_loopback_authority (value : rstr) (expected_port : N) : bool :=
  match parse_authority value with
  | None => false
  | Some (host, port) =>
      let loopback :=
        (host == lit "127.0.0.1") || (host == lit "::1") || (host == lit "[::1]")
        || eq_ignore_ascii_case host (lit "localhost") in
      loopback && (port == Some expected_port)
  end.
Definition valid_host (h : Head) (expected_port : N) : bool :=
  match text_header HOST h with
  | None => false
  | Some value => valid_loopback_authority value expected_port
  end.
Definition valid_origin (h : Head) (expected_port : N) : bool :=
  match header ORIGIN h with
  | None => true
  | Some None => false
  | Some (Some value) =>
      match parse_uri value with
      | None => false
      | Some (scheme, authority) =>
          if is_some_and scheme (λ s, (s == lit "http") || (s == lit "https"))
          then is_some_and authority (λ a, valid_loopback_authority a expected_port)
          else false
      end
  end.
Definition authorized (h : Head) (token : AuthToken) : bool :=
  match text_header AUTHORIZATION h with
  | None => false
  | Some value =>
      match split_once (chr " ") value with
      | None => false
      | Some (scheme, candidate) =>
          eq_ignore_ascii_case scheme (lit "bearer") && negb (is_empty candidate)
          && negb (existsb is_whitespace candidate) && AuthToken_matches token candidate
      end
  end.
Definition security_error (status : N) (code message : rstr) : response :=
  {| an_status := status;
     an_headers := if status == 401%N then [(lit "www-authenticate", lit "Bearer")] else [];
     an_document := Document.Security code message |}.
(** What the middleware answers itself. *)
Definition refusal (app : AppState) (h : Head) : option response :=
  if negb (valid_host h (as_port app)) then
    Some (security_error 400 (lit "invalid_host") (lit "Host must identify the loopback controller"))
  else if negb (valid_origin h (as_port app)) then
    Some (security_error 403 (lit "invalid_origin") (lit "Origin is not allowed"))
  else if (hd_path h != lit "/v1/health") && negb (authorized h (as_token app)) then
    Some (security_error 401 (lit "unauthorized") (lit "a valid controller bearer token is required"))
  else None.
End security.

(** ** Errors of the handlers *)
Section errors.
Context {Number : Type}.
Abbreviation failure := (ApiError Number).
Definition invalid_request : failure := ApiError_new 400 (lit "invalid_request") (lit "request body is invalid").
Definition unsupported_media_type : failure :=
  ApiError_new 415 (lit "json_content_type_required") (lit "Content-Type must be application/json").
Definition snapshot_content_type : failure :=
  ApiError_new 415 (lit "snapshot_content_type_required")
    (lit "Content-Type must identify a cyc tar.zst snapshot archive").
Definition invalid_snapshot : failure :=
  ApiError_new 400 (lit "invalid_snapshot") (lit "snapshot path, size, or archive metadata is invalid").
Definition snapshot_too_large : failure :=
  ApiError_new 413 (lit "snapshot_too_large") (lit "snapshot archive exceeds the controller limit").
Definition invalid_version : failure :=
  ApiError_new 400 (lit "invalid_version") (lit "If-Match must contain a numeric job version").
Definition invalid_job : failure := ApiError_new 422 (lit "invalid_job") (lit "job validation failed").
Definition worker_listener_unavailable : failure :=
  ApiError_new 503 (lit "worker_listener_unavailable") (lit "the managed worker TLS listener is not configured").
Definition internal : failure :=
  ApiError_new 500 (lit "internal_error") (lit "controller operation failed").
End errors.

Section client.
Context `{UuidCrate, ChronoCrate, SerdeJsonCrate, !StoreSerde, DigestCrate, !ApiCrates, !ClientCrates}.
Abbreviation failure := (ApiError json_number).
Abbreviation response := (Answer json_number).
Abbreviation replied A := (prog (result (ApiError json_number) A)).

Definition schedule_error (e : ScheduleError.t) : failure :=
  match e with
  | ScheduleError.InvalidJob _ => invalid_job
  | ScheduleError.NoEligibleNodes explanation =>
      {| ae_status := 409; ae_code := lit "no_eligible_node";
         ae_message := lit "no compatible fresh worker is currently available";
         ae_extra := (λ value, (lit "placement", value)) <$> explanation_to_value explanation |}
  end.
Definition detailed (code message : rstr) (details : list (rstr * Value json_number)) : failure :=
  {| ae_status := 409; ae_code := code; ae_message := message; ae_extra := Some (lit "details", Object details) |}.
(** [From<StoreError> for ApiError]; a panic inside a store call is a join error. *)
Definition client_error (e : StoreError.t json_error) : failure :=
  match e with
  | StoreError.NotFound => ApiError_new 404 (lit "not_found") (lit "requested resource was not found")
  | StoreError.Conflict => ApiError_new 409 (lit "conflict") (lit "job already exists")
  | StoreError.InvalidTransition =>
      ApiError_new 409 (lit "invalid_state_transition") (lit "job cannot be cancelled from its current state")
  | StoreError.CancellationPending =>
      ApiError_new 409 (lit "cancellation_pending") (lit "run must acknowledge cancellation as cancelled or failed")
  | StoreError.InvalidRunEvidence =>
      ApiError_new 422 (lit "invalid_run_evidence") (lit "terminal run evidence is missing or inconsistent")
  | StoreError.InvalidNodeReport =>
      ApiError_new 422 (lit "invalid_node_report") (lit "node inventory or telemetry is invalid")
  | StoreError.VersionConflict current_version =>
      detailed (lit "version_conflict") (lit "job version changed; reload before retrying")
        [(lit "currentVersion", Num (json_u64 current_version))]
  | StoreError.NodeConfigVersionConflict current_revision =>
      detailed (lit "node_config_conflict") (lit "node config revision changed; reload before retrying")
        [(lit "currentRevision", Num (json_i64 current_revision))]
  | StoreError.WorkerStateConflict current_version cancel_requested current_state =>
      detailed (lit "state_conflict") (lit "worker run state changed")
        [(lit "currentVersion", Num (json_u64 current_version)); (lit "cancelRequested", Bool cancel_requested);
         (lit "currentState", state_to_value current_state)]
  | StoreError.PlanExpired =>
      ApiError_new 409 (lit "plan_expired") (lit "placement plan expired; create a new plan")
  | StoreError.PlanStale =>
      ApiError_new 409 (lit "plan_stale") (lit "fleet or policy state changed; create a new plan")
  | StoreError.PlanDigestMismatch =>
      ApiError_new 409 (lit "plan_digest_mismatch") (lit "placement plan does not match this canonical JobSpec")
  | StoreError.Schedule error => schedule_error error
  | StoreError.WorkerUnauthorized | StoreError.RunUnauthorized =>
      ApiError_new 401 (lit "unauthorized") (lit "worker authentication failed")
  | StoreError.PairingUnavailable =>
      ApiError_new 410 (lit "pairing_unavailable") (lit "pairing code is expired, used, or revoked")
  | StoreError.PairingBindingMismatch =>
      ApiError_new 409 (lit "pairing_binding_mismatch") (lit "pairing request does not match its consumed binding")
  | StoreError.InvalidCredentialDigest =>
      ApiError_new 400 (lit "invalid_credential_digest") (lit "credential digest is invalid")
  | StoreError.PairingAcknowledgementUnavailable =>
      ApiError_new 401 (lit "pairing_ack_unauthorized") (lit "pairing acknowledgement authentication failed")
  | StoreError.InvalidPairingOperationKey =>
      ApiError_new 400 (lit "invalid_idempotency_key") (lit "Idempotency-Key must be 1-128 portable ASCII characters")
  | StoreError.PairingIdempotencyMismatch =>
      ApiError_new 409 (lit "idempotency_request_mismatch")
        (lit "Idempotency-Key was already used with a different pairing request")
  | StoreError.PairingIdempotencyFinalized phase =>
      detailed (lit "idempotency_operation_finalized") (lit "the original pairing operation is no longer pending")
        [(lit "phase", phase_to_value phase)]
  | StoreError.PairingFailureMismatch =>
      ApiError_new 409 (lit "pairing_failure_mismatch") (lit "pairing already has a different immutable failure code")
  | StoreError.PairingFailureFinalized phase =>
      detailed (lit "pairing_failure_finalized") (lit "pairing can no longer transition to failed")
        [(lit "phase", phase_to_value phase)]
  | StoreError.UploadConflict =>
      ApiError_new 409 (lit "upload_conflict") (lit "upload conflicts with an existing object")
  | StoreError.UploadOffset => ApiError_new 409 (lit "upload_offset") (lit "log chunk offset is not contiguous")
  | StoreError.DigestMismatch =>
      ApiError_new 422 (lit "digest_mismatch") (lit "uploaded bytes do not match the declared digest")
  | StoreError.InvalidUpload => ApiError_new 400 (lit "invalid_upload") (lit "upload metadata is invalid")
  | StoreError.LogQuotaExceeded => ApiError_new 413 (lit "log_quota_exceeded") (lit "run log quota is exhausted")
  | StoreError.ArtifactQuotaExceeded =>
      ApiError_new 413 (lit "artifact_quota_exceeded") (lit "run artifact quota is exhausted")
  | StoreError.SnapshotQuotaExceeded => snapshot_too_large
  | StoreError.InvalidCleanupReceipt =>
      ApiError_new 422 (lit "invalid_cleanup_receipt") (lit "cleanup receipt does not match the terminal acknowledgement")
  | StoreError.CleanupConflict =>
      ApiError_new 409 (lit "cleanup_conflict") (lit "cleanup receipt conflicts with immutable stored evidence")
  | StoreError.InvalidManagedNode =>
      ApiError_new 400 (lit "invalid_managed_node") (lit "pairing requires a managed worker node")
  | StoreError.InvalidNodeConfig =>
      ApiError_new 422 (lit "invalid_node_config") (lit "node config or reserved policy labels are invalid")
  | StoreError.Database | StoreError.Document _ | StoreError.NodeState _ | StoreError.InvalidPlanBinding
  | StoreError.InvalidFleetRevision | StoreError.InvalidPairingFailureState | StoreError.Timestamp | StoreError.Io
  | StoreError.Panicked => internal
  end.
(** [IntoResponse for ApiError] *)
Definition failure_value (e : failure) : Value json_number :=
  Object [(lit "error",
    Object ([(lit "code", Str (ae_code e)); (lit "message", Str (ae_message e))]
            ++ match ae_extra e with Some extra => [extra] | None => [] end))].
Definition failure_response (e : failure) : response := respond (ae_status e) (Document.Error e).

#[local] Notation "x ←! r ; k" := (checked r (λ x, k))
  (at level 20, r at level 100, k at level 200, only parsing) : stdpp_scope.
#[local] Notation "x ←& m ; k" := (attempt m (λ x, k))
  (at level 20, m at level 100, k at level 200, only parsing) : stdpp_scope.
#[local] Notation "' x ←& m ; k" := (attempt m (λ x, k))
  (at level 20, x pattern, m at level 100, k at level 200, only parsing) : stdpp_scope.
(** [store_call] *)
Definition store_call {A} (r : Request A) : replied A := Ask r (λ answer, Done (map_err client_error answer)).
Definition reply (status : N) (document : Document.t json_number) : replied response :=
  Done (Ok (respond status document)).
Definition mapped {E A} (e : failure) (r : result E A) : result failure A := map_err (λ _, e) r.
Definition header_text (value : rstr) : result failure rstr :=
  reject_if (negb (header_value_ok value)) internal;; Ok value.

(** ** Headers of a request *)

(** The media type, without its parameters *)
Definition media_type (h : Head) : option rstr :=
  (λ value, trim (hd [] (split (chr ";") value))) <$> text_header CONTENT_TYPE h.
Definition parse_json_body {A} (parse : list N → option A) (h : Head) (data : list N) : result failure A :=
  reject_if (negb (is_some_and (media_type h) (λ value, eq_ignore_ascii_case value (lit "application/json"))))
    unsupported_media_type;;
  ok_or (parse data) invalid_request.
Definition require_snapshot_content_type (h : Head) : result failure unit :=
  reject_if (negb (is_some_and (media_type h) (λ value, eq_ignore_ascii_case value SNAPSHOT_MEDIA_TYPE)))
    snapshot_content_type.
Definition parse_required_content_length (h : Head) : result failure N :=
  ok_or (text_header CONTENT_LENGTH h ≫= parse_uint u64_max) invalid_snapshot.
Definition strip_suffix (suffix s : rstr) : option rstr := (λ t, rev t) <$> strip_prefix (rev suffix) (rev s).
Definition QUOTE : rstr := [34%N].
Definition parse_if_match (h : Head) : result failure (option N) :=
  match header (lit "if-match") h with
  | None => Ok None
  | Some text =>
      value ← ok_or text invalid_version;
      let value := trim value in
      let value := unwrap_or (strip_prefix QUOTE value ≫= strip_suffix QUOTE) value in
      version ← ok_or (parse_uint u64_max value) invalid_version;
      Ok (Some version)
  end.

(** ** Snapshots *)
Definition apply_snapshot_headers (metadata : SnapshotMetadataV1) (archive_representation : bool) :
    result failure (list (rstr * rstr)) :=
  etag ← header_text (QUOTE ++ snap_digest metadata ++ QUOTE);
  size ← header_text (fmt_N (snap_size_bytes metadata));
  Ok ([(ETAG, etag); (CACHE_CONTROL, lit "private, immutable, max-age=31536000");
       (lit "x-cyc-snapshot-size", size); (lit "x-cyc-snapshot-version", SNAPSHOT_API_VERSION);
       (lit "x-cyc-snapshot-format", SNAPSHOT_ARCHIVE_FORMAT)]
      ++ if archive_representation then [(CONTENT_TYPE, SNAPSHOT_MEDIA_TYPE); (CONTENT_LENGTH, size)] else []).
Definition upload_snapshot (sha256 : rstr) (h : Head) (data : list N) : replied response :=
  _ ←! require_snapshot_content_type h;
  declared_size ←! parse_required_content_length h;
  _ ←! reject_if (MAX_SNAPSHOT_ARCHIVE_BYTES <? declared_size)%N snapshot_too_large;
  _ ←! reject_if (declared_size != byte_count data) invalid_snapshot;
  (let digest := lit "sha256:" ++ sha256 in
   _ ←! mapped invalid_snapshot (validate_snapshot_digest digest);
   metadata ←& store_call (PutSnapshot digest declared_size data);
   headers ←! apply_snapshot_headers metadata false;
   Done (Ok {| an_status := 201; an_headers := headers; an_document := Document.Snapshot metadata |})).
Definition head_snapshot (sha256 : rstr) : replied response :=
  let digest := lit "sha256:" ++ sha256 in
  _ ←! mapped invalid_snapshot (validate_snapshot_digest digest);
  metadata ←& store_call (GetSnapshotMetadata digest);
  headers ←! apply_snapshot_headers metadata true;
  Done (Ok {| an_status := 200; an_headers := headers; an_document := Document.Empty |}).

(** ** Fleet and nodes *)
Definition health : replied response :=
  _ ←& store_call Ping;
  reply 200 (Document.Health {| hr_status := lit "ok"; hr_api_version := API_VERSION;
    hr_controller_version := CARGO_PKG_VERSION; hr_database := lit "ok" |}).
Definition fleet_response (snapshot : FleetSnapshot) : FleetResponse :=
  {| flr_fleet_revision := fl_fleet_revision snapshot; flr_observed_at := fl_observed_at snapshot;
     flr_controller := {| cs_version := CARGO_PKG_VERSION; cs_api_version := API_VERSION; cs_access := lit "loopback" |};
     flr_codex := {| cx_integration := lit "mcp"; cx_status := lit "available" |};
     flr_nodes := fl_nodes snapshot; flr_node_views := fl_node_views snapshot;
     flr_recent_jobs := map JobView_from (fl_recent_jobs snapshot) |}.
Definition fleet : replied response :=
  snapshot ←& store_call (ReadFleetSnapshot 20);
  reply 200 (Document.Fleet (fleet_response snapshot)).
Definition node_config_document (stored : StoredNodeConfig) : NodeConfigDocument :=
  {| ncd_api_version := NODE_CONFIG_API_VERSION; ncd_node_id := snc_node_id stored;
     ncd_revision := snc_revision stored; ncd_config := snc_config stored |}.
Definition get_node_config (id : Uuid) : replied response :=
  stored ←& store_call (GetNodeConfig id);
  reply 200 (Document.Config (node_config_document stored)).
Definition update_node_config (id : Uuid) (h : Head) (data : list N) : replied response :=
  request ←! parse_json_body parse_node_config_update h data;
  stored ←& store_call (UpdateNodeConfig id (ncu_expected_revision request) (ncu_config request));
  reply 200 (Document.Config (node_config_document stored)).

(** ** Jobs *)
Definition cleanup_status_phase (outcome : option JobRootCleanupOutcomeV1.t)
    (release_reason : option CleanupReservationReleaseReasonV1.t) : CleanupStatusPhaseV1.t :=
  match outcome with
  | Some JobRootCleanupOutcomeV1.Removed => CleanupStatusPhaseV1.Removed
  | _ =>
      match release_reason with
      | Some CleanupReservationReleaseReasonV1.DeadlineRecovery
      | Some CleanupReservationReleaseReasonV1.LegacyMigration => CleanupStatusPhaseV1.Pending
      | _ =>
          match outcome with
          | Some JobRootCleanupOutcomeV1.NotCreated => CleanupStatusPhaseV1.NotCreated
          | _ => CleanupStatusPhaseV1.Pending
          end
      end
  end.
(** The acknowledgement that the stored completion stands for *)
Definition completion_ack (stored : StoredJob) (completion : StoredCompletion) : TerminalCompletionAckV1 :=
  {| ack_run_id := run_id (st_run stored); ack_lease_id := rc_lease_id (sc_completion completion);
     ack_completion_sha256 := sc_sha256 completion; ack_state_version := st_version stored;
     ack_final_state := run_state (st_run stored); ack_acknowledged_at := sc_created_at completion |}.
Definition cleanup_status (snapshot : CleanupSnapshot) : CleanupStatusV1 :=
  let stored := csn_stored snapshot in
  let obligation := csn_obligation snapshot in
  let release_reason := obligation ≫= so_release_reason in
  let make status job_root_deleted relative_root observed_at received_at terminal_ack :=
    {| csv_api_version := CLEANUP_API_VERSION; csv_job_id := job_id (st_job stored);
       csv_run_id := run_id (st_run stored); csv_status := status; csv_job_root_deleted := job_root_deleted;
       csv_relative_root := relative_root; csv_observed_at := observed_at; csv_received_at := received_at;
       csv_terminal_ack := terminal_ack; csv_cleanup_deadline_at := so_cleanup_deadline_at <$> obligation;
       csv_reservation_released_at := obligation ≫= so_reservation_released_at;
       csv_release_reason := release_reason; csv_cleanup_failure := obligation ≫= so_cleanup_failure |} in
  match csn_cleanup snapshot with
  | Some cleanup =>
      let receipt := su_receipt cleanup in
      let status := cleanup_status_phase (Some (cl_outcome receipt)) release_reason in
      make status ((status == CleanupStatusPhaseV1.Removed) && cl_job_root_deleted receipt)
        (Some (cl_relative_root receipt)) (Some (cl_observed_at receipt)) (Some (su_received_at cleanup))
        (Some (cl_terminal_ack receipt))
  | None =>
      make (cleanup_status_phase None release_reason) false
        (Some (lit "jobs/" ++ uuid_display (run_id (st_run stored)))) None None
        (completion_ack stored <$> csn_completion snapshot)
  end.

Section handlers.
Context (app : AppState).

Definition plan (h : Head) (data : list N) : replied response :=
  request ←! parse_json_body parse_plan_request h data;
  _ ←! mapped invalid_job (JobSpec_validate (plq_job request));
  plan ←& store_call (CreatePlan (plq_job request) (as_scheduler app));
  reply 200 (Document.Plan (sp_binding plan)).
Definition submit_job (h : Head) (data : list N) : replied response :=
  request ←! parse_json_body parse_submit_request h data;
  _ ←! mapped invalid_job (JobSpec_validate (sjr_job request));
  stored ←& store_call (SubmitJob (sjr_job request) (sjr_plan_id request) (as_scheduler app));
  reply 201 (Document.Job (JobView_from stored)).
Definition list_jobs : replied response :=
  jobs ←& store_call (ListJobs 100);
  reply 200 (Document.Jobs (map JobView_from jobs)).
Definition get_job (id : Uuid) : replied response :=
  stored ←& store_call (GetJob id);
  reply 200 (Document.Job (JobView_from stored)).
Definition cancel_job (id : Uuid) (h : Head) : replied response :=
  expected_version ←! parse_if_match h;
  stored ←& store_call (CancelJob id expected_version);
  reply 200 (Document.Job (JobView_from stored)).
Definition get_job_cleanup (id : Uuid) : replied response :=
  snapshot ←& store_call (GetCleanupSnapshot id);
  reply 200 (Document.Cleanup (cleanup_status snapshot)).
Definition list_job_logs (id : Uuid) : replied response :=
  chunks ←& store_call (ListLogChunks id);
  reply 200 (Document.Logs (map LogChunkView_from chunks)).
Definition download_job_log (id : Uuid) (stream : rstr) : replied response :=
  data ←& store_call (ReadLog id stream);
  Done (Ok {| an_status := 200; an_headers := [(CONTENT_TYPE, lit "text/plain; charset=utf-8")];
              an_document := Document.Data data |}).
Definition list_job_artifacts (id : Uuid) : replied response :=
  artifacts ←& store_call (ListArtifacts id);
  reply 200 (Document.Artifacts (map ArtifactView_from artifacts)).
Definition download_job_artifact (id artifact_id : Uuid) : replied response :=
  '(metadata, data) ←& store_call (ReadArtifact id artifact_id);
  disposition ←! header_text (lit "attachment; filename=" ++ QUOTE ++ uuid_display (sa_id metadata) ++ QUOTE);
  Done (Ok {| an_status := 200;
              an_headers := [(CONTENT_TYPE, lit "application/octet-stream"); (lit "content-disposition", disposition)];
              an_document := Document.Data data |}).

(** ** Pairings *)

(** One [store_call] runs two methods of the store; the second reads the identity of the
    controller. *)
Definition issue_pairing (operation_key : option rstr) (intended : option Uuid) (endpoint : WorkerEndpoint) :
    replied (PairingSecret * rstr * rstr * bool) :=
  match operation_key with
  | Some operation_key =>
      issued ←& store_call (CreatePairingIdempotent operation_key intended (we_public_url endpoint)
                              (we_certificate_pem endpoint));
      Done (Ok (ip_pairing issued, ip_worker_url issued, ip_certificate_pem issued, ip_replayed issued))
  | None =>
      pairing ←& store_call (CreatePairing intended);
      Done (Ok (pairing, we_public_url endpoint, we_certificate_pem endpoint, false))
  end.
Definition create_pairing (h : Head) (data : list N) : replied response :=
  request ←! parse_json_body parse_create_pairing h data;
  _ ←! mapped invalid_request (CreatePairingRequestV1_validate request);
  endpoint ←! ok_or (as_worker_endpoint app) worker_listener_unavailable;
  operation_key ←! match header (lit "idempotency-key") h with
                   | None => Ok None
                   | Some value => key ← ok_or value invalid_request; Ok (Some key)
                   end;
  '(pairing, worker_url, certificate_pem, replayed) ←&
    issue_pairing operation_key (cpr_intended_node_id request) endpoint;
  (let bundle :=
     {| eb_api_version := ENROLLMENT_API_VERSION; eb_pairing_id := ps_id pairing;
        eb_controller_id := as_controller_id app; eb_intended_node_id := ps_intended_node_id pairing;
        eb_worker_url := worker_url; eb_certificate_pem := certificate_pem; eb_pairing_code := ps_code pairing;
        eb_created_at := ps_created_at pairing; eb_expires_at := ps_expires_at pairing |} in
   _ ←! mapped internal (EnrollmentBundleV1_validate bundle);
   Done (Ok {| an_status := if replayed : bool then 200 else 201; an_headers := [no_store];
               an_document := Document.Enrollment bundle |})).
Definition canonical_pairing_error (code : PairingFailureCodeV1.t) : PairingStatusErrorV1 :=
  {| pse_code := code;
     pse_message :=
       match code with
       | PairingFailureCodeV1.ProvisioningFailed => lit "Provisioning stopped before enrollment completed."
       | PairingFailureCodeV1.WorkerInstallFailed => lit "Worker installation failed before enrollment completed."
       | PairingFailureCodeV1.WorkerPairingFailed => lit "The worker could not complete controller pairing."
       | PairingFailureCodeV1.WorkerHealthCheckFailed => lit "The worker did not pass its health check."
       end;
     pse_retryable := false |}.
Definition pairing_status (stored : StoredPairingStatus) : result failure PairingStatusV1 :=
  error ← (if sps_phase stored == PairingPhaseV1.Failed
           then code ← ok_or (sps_failure_code stored) internal; Ok (Some (canonical_pairing_error code))
           else Ok None);
  let status :=
    {| pst_api_version := ENROLLMENT_API_VERSION; pst_pairing_id := sps_pairing_id stored;
       pst_intended_node_id := sps_intended_node_id stored; pst_node_id := sps_node_id stored;
       pst_phase := sps_phase stored; pst_created_at := sps_created_at stored;
       pst_expires_at := sps_expires_at stored; pst_consumed_at := sps_consumed_at stored;
       pst_revoked_at := sps_revoked_at stored; pst_ready := sps_phase stored == PairingPhaseV1.Ready;
       pst_error := error |} in
  mapped internal (PairingStatusV1_validate status);;
  Ok status.
Definition get_pairing_status (id : Uuid) : replied response :=
  stored ←& store_call (GetPairingStatus id);
  status ←! pairing_status stored;
  reply 200 (Document.PairingStatus status).
Definition report_pairing_failure (id : Uuid) (h : Head) (data : list N) : replied response :=
  request ←! parse_json_body parse_pairing_failure h data;
  _ ←& store_call (FailPairing id (pfr_code request));
  reply 204 Document.Empty.
Definition revoke_pairing (id : Uuid) : replied response :=
  _ ←& store_call (RevokePairing id);
  reply 200 (Document.Revoked {| rpr_pairing_id := id; rpr_revoked := true |}).

(** ** The listener *)

(** The handlers that take a body, and their limits. *)
Definition within (limit : N) (data : list N) (k : replied response) : replied response :=
  if (limit <? byte_count data)%N then Done (Ok (framework 413)) else k.
Definition with_id (segment : rstr) (k : Uuid → replied response) : replied response :=
  match captured segment with Some id => k id | None => Done (Ok (framework 400)) end.
Definition with_text (segment : rstr) (k : rstr → replied response) : replied response :=
  match percent_decode segment with Some text => k text | None => Done (Ok (framework 400)) end.
Definition not_allowed : replied response := Done (Ok (framework 405)).
(** axum's [get] also takes HEAD. *)
Definition gets (m : Method.t) : bool := (m == Method.Get) || (m == Method.Head).
Definition job_handler (r : JobRoute.t) (id : rstr) (h : Head) : replied response :=
  if match r with JobRoute.Cancel => hd_method h == Method.Post | _ => gets (hd_method h) end then
    with_id id (λ id,
      match r with
      | JobRoute.Get => get_job id
      | JobRoute.Cancel => cancel_job id h
      | JobRoute.Cleanup => get_job_cleanup id
      | JobRoute.Logs => list_job_logs id
      | JobRoute.Log stream => with_text stream (download_job_log id)
      | JobRoute.Artifacts => list_job_artifacts id
      | JobRoute.Artifact artifact => with_id artifact (download_job_artifact id)
      end)
  else not_allowed.
Definition pairing_handler (r : PairingRoute.t) (id : rstr) (h : Head) (data : list N) : replied response :=
  match r with
  | PairingRoute.Status => if gets (hd_method h) then with_id id get_pairing_status else not_allowed
  | PairingRoute.Failure =>
      if hd_method h == Method.Put
      then with_id id (λ id, within MAX_JSON_BODY_BYTES data (report_pairing_failure id h data)) else not_allowed
  | PairingRoute.Revoke => if hd_method h == Method.Post then with_id id revoke_pairing else not_allowed
  end.
Definition client_handler (h : Head) (data : list N) : replied response :=
  let m := hd_method h in
  match client_route (hd_path h) with
  | None => Done (Ok (framework 404))
  | Some r =>
      match r with
      | ClientRoute.Health => if gets m then health else not_allowed
      | ClientRoute.Fleet => if gets m then fleet else not_allowed
      | ClientRoute.NodeConfig id =>
          if gets m then with_id id get_node_config
          else if m == Method.Put
          then with_id id (λ id, within MAX_JSON_BODY_BYTES data (update_node_config id h data))
          else not_allowed
      | ClientRoute.Plans =>
          if m == Method.Post then within MAX_JSON_BODY_BYTES data (plan h data) else not_allowed
      | ClientRoute.Jobs =>
          if gets m then list_jobs
          else if m == Method.Post then within MAX_JSON_BODY_BYTES data (submit_job h data)
          else not_allowed
      | ClientRoute.Job r id => job_handler r id h
      | ClientRoute.Pairings =>
          if m == Method.Post then within MAX_JSON_BODY_BYTES data (create_pairing h data) else not_allowed
      | ClientRoute.Pairing r id => pairing_handler r id h data
      | ClientRoute.Snapshot sha256 =>
          if m == Method.Put
          then with_text sha256 (λ sha256, within MAX_SNAPSHOT_ARCHIVE_BYTES data (upload_snapshot sha256 h data))
          else if m == Method.Head then with_text sha256 head_snapshot
          else not_allowed
      end
  end.
(** A request as the listener serves it. *)
Definition serve_client (h : Head) (data : list N) : prog response :=
  match refusal app h with
  | Some response => Done response
  | None =>
      r ← client_handler h data;
      Done match r with Ok response => response | Err e => failure_response e end
  end.
End handlers.
End client.
