(* ===== verification/ClientSafety.v ===== *)
(** What the clients of the controller can rely on: who is let in, that a run is only
    cancelled as it was seen, and what a cleanup status proves. *)
From Stdlib Require Import ZArith NArith Lia String.
From stdpp Require Import base option list numbers sets gmap relations.
From S2P Require Import Prelude Text Crates Protocol PortablePath Repository Snapshot RunState JobSpec CanonicalJson Scheduler NodeState PlacementBinding WorkerReports WorkerRun Cleanup Onboarding ControllerDb Planning FleetNodes Leases NodeWrites Uploads RunControl FleetView Pairings TxLogic Changes ChangeProofs MethodProofs RunProofs ControllerCalls RunSafety FleetSafety WorkerEnv WorkerClient WorkerNode WorkerApi ListenerSafety WorkerWire WireSafety Scenario ListenerScenario ClientApi.
Open Scope rust_scope.

Section client.
Context `{UuidCrate, ChronoCrate, SerdeJsonCrate, !StoreSerde, DigestCrate, !ApiCrates, !ClientCrates}.
Abbreviation reply_of := (result (ApiError json_number) (Answer json_number)).

(** ** Executions of handlers *)
Lemma client_call {A} (r : Request A) c a c' :
  executes (store_call r) c a c' ↔
  ∃ c1 env, rtc calls c c1 ∧ a = map_err client_error (run env (handle r) c1).2 ∧ rtc calls (run env (handle r) c1).1 c'.
Proof. done. Qed.
(** A handler that makes one call and answers from its result. *)
Lemma client_single {A B} (r : Request A) (k : A → result (ApiError json_number) B) c b c' :
  executes (attempt (store_call r) (λ a, Done (k a))) c (Ok b) c' ↔
  ∃ c1 env a, rtc calls c c1 ∧ (run env (handle r) c1).2 = Ok a ∧ k a = Ok b ∧ rtc calls (run env (handle r) c1).1 c'.
Proof.
  rewrite executes_attempt. setoid_rewrite client_call. split.
  - intros (a & c1 & (c2 & env & Hc & -> & Hc1) & Hk). destruct (run env (handle r) c2) as [c3 [a|e]] eqn:E; cbn in Hk;
      [|by destruct Hk].
    destruct Hk as [Hk Hc']. exists c2, env, a. rewrite E. split_and!; [done|done|done|]. by etrans.
  - intros (c1 & env & a & Hc & Ha & Hk & Hc'). exists (Ok a), c'. split; [|by rewrite Hk].
    exists c1, env. by rewrite Ha.
Qed.
Lemma executes_more {A} (p : prog A) c a c1 c' : executes p c a c1 → rtc calls c1 c' → executes p c a c'.
Proof.
  revert c. induction p as [x|B r k IH]; intros c; cbn [executes]; [intros [-> Hc] Hc'; split; [done|by etrans]|].
  intros (c2 & env & Hc & He) Hc'. exists c2, env. split; [done|by eapply IH].
Qed.
(** What holds of every answer that a handler can give. *)
Fixpoint all_answers {A} (P : A → Prop) (p : prog A) : Prop :=
  match p with Done a => P a | Ask r k => ∀ x, all_answers P (k x) end.
Lemma answers_hold {A} (P : A → Prop) p c a c' : all_answers P p → executes p c a c' → P a.
Proof.
  revert c. induction p as [x|B r k IH]; intros c; cbn; [by intros ? [-> _]|].
  intros Hall (c1 & env & _ & He). by eapply IH.
Qed.
(** A step of a transaction that succeeds. *)
Lemma tx_steps {A B} (m : tx A) (k : A → tx B) env s b :
  (mbind k m env s).2 = Ok b → ∃ a s', m env s = (s', Ok a) ∧ (k a env s').2 = Ok b.
Proof. unfold mbind, tx_bind. destruct (m env s) as [s' [a|e]]; [|done]. intros Hk. by exists a, s'. Qed.
Lemma wp_returns (R : Movement) {A} (m : tx A) env s Q s' a :
  wp R m env s Q → m env s = (s', Ok a) → moves R s s' ∧ Q a s'.
Proof. unfold wp. intros Hm E. by rewrite E in Hm. Qed.
Lemma moved_jobs (f : Files) d d' : rtc (change f) d d' → jobs_follow d d'.
Proof. induction 1 as [|d1 d2 d3 Hc _ IH]; [reflexivity|]. etrans; [by eapply change_jobs|done]. Qed.
Lemma moved_named (f : Files) d d' : rtc (change f) d d' → jobs_named d → jobs_named d'.
Proof. induction 1 as [|d1 d2 d3 Hc _ IH]; [done|]. intros Hn. by eapply IH, change_named. Qed.
Lemma reachable_receipts c : reachable c → receipts_settled (ctl_db c).
Proof. apply (reachable_invariant (λ _, receipts_settled)); [by intros|intros f d d' _; apply change_receipted]. Qed.
Lemma reachable_named c : reachable c → jobs_named (ctl_db c).
Proof. apply (reachable_invariant (λ _, jobs_named)); [by split|intros f d d' _; apply change_named]. Qed.
Lemma called {A} (r : Request A) env c : calls c (run env (handle r) c).1.
Proof. by exists env, A, r. Qed.

(** What is read after the leases were expired is read from the database that is left. *)
Lemma expired_read {A} (m : tx A) env s :
  consistent (tx_db s) → reads m →
  wp moved (expire_now;; m) env s (λ a s', ∃ s0, tx_db s0 = tx_db s' ∧ consistent (tx_db s0) ∧ (m env s0).2 = Ok a).
Proof.
  intros Hc Hm. apply wp_bind, (wp_expire_now moved_leases); [exact Hc|]. intros _ s1 Hc1.
  apply wp_reads; [exact Hm|]. intros a s2 Ha D2 _. by exists s1.
Qed.
Lemma read_from {A} (r : Request A) (m : tx A) env c a :
  reachable c → handle r = (expire_now;; m) → reads m → (run env (handle r) c).2 = Ok a →
  ∃ s, tx_db s = ctl_db (run env (handle r) c).1 ∧ consistent (tx_db s) ∧ (m env s).2 = Ok a.
Proof.
  intros Hc Hr Hm Ha. rewrite Hr in *.
  pose proof (run_moves moved env (expire_now;; m) c _ (expired_read m env
    {| tx_db := ctl_db c; tx_committed := ctl_db c; tx_files := ctl_files c; tx_tick := 0 |} (reachable_consistent c Hc) Hm)) as Hrun.
  destruct (run env _ c) as [c' res]. cbn in Ha |- *. subst res. destruct Hrun as (_ & _ & Hok).
  destruct (Hok _ eq_refl) as (s' & (s0 & D0 & Hc0 & Hs) & -> & _). by exists s0.
Qed.
Lemma prefer_Ok env s id stored :
  consistent (tx_db s) → (get_job_prefer_job_id id env s).2 = Ok stored →
  ∃ row, db_jobs (tx_db s) !! run_id (st_run stored) = Some row ∧ decode_job_row row = Ok stored.
Proof.
  intros Hc Hs. assert (wp moved (get_job_prefer_job_id id) env s (λ stored _,
    ∃ row, db_jobs (tx_db s) !! run_id (st_run stored) = Some row ∧ decode_job_row row = Ok stored)) as Hwp.
  { apply (prefer_job_reads moved_leases); [done|]. intros stored' row Hrow Hd. by exists row. }
  unfold wp in Hwp. destruct (get_job_prefer_job_id id env s) as [s' res]. cbn in Hs. subst res. by destruct Hwp.
Qed.

(** ** Admission *)
Definition presents_token (app : AppState) (h : Head) : Prop :=
  ∃ scheme, text_header AUTHORIZATION h = Some (scheme ++ [chr " "] ++ token_text (as_token app)) ∧
    eq_ignore_ascii_case scheme (lit "bearer") = true.
Lemma lowered_spaces s : chr " " ∈ s → chr " " ∈ to_ascii_lowercase s.
Proof. intros Hs. unfold to_ascii_lowercase. by apply (list_elem_of_fmap_2 (λ c, if is_ascii_uppercase c then (c + 32)%N else c) s (chr " ")). Qed.
Lemma graphic_bytes s : Forall (λ b, is_ascii_graphic b = true) (bytes s) → bytes s = s.
Proof.
  induction s as [|c s IH]; [done|]. change (bytes (c :: s)) with (utf8_encode c ++ bytes s). rewrite Forall_app. intros [Hc Hs].
  rewrite IH by done. unfold utf8_encode in *. unfold is_ascii_graphic, between in Hc. destruct (N.ltb_spec c 128); [done|].
  destruct (c <? 2048)%N; [|destruct (c <? 65536)%N]; apply Forall_cons in Hc as [Hb _];
    apply andb_true_iff in Hb as [_ Hb%N.leb_le]; apply (N.le_trans _ _ _ (N.le_add_r _ _)) in Hb; by destruct Hb.
Qed.
Lemma token_graphic text token :
  AuthToken_parse text = Some token → token_text token ≠ [] ∧ Forall (λ b, is_ascii_graphic b = true) (bytes (token_text token)).
Proof.
  unfold AuthToken_parse. cbv zeta. destruct (between _ _ _) eqn:Hlen; [|done]. cbn [negb]. destruct (forallb _ _) eqn:Hall; [|done].
  intros [= <-]. cbn. split; [intros E; rewrite E in Hlen; discriminate Hlen|].
  apply Forall_forall. intros b Hb. rewrite forallb_forall in Hall. apply list_elem_of_In in Hb. specialize (Hall b Hb).
  by apply andb_true_iff in Hall as [? _].
Qed.
Lemma graphic_whitespace c : is_ascii_graphic c = true → is_whitespace c = false.
Proof.
  unfold is_ascii_graphic, is_whitespace, between. rewrite andb_true_iff, !N.leb_le. intros [H1' H2'].
  rewrite !orb_false_iff, !andb_false_iff, !N.leb_gt, !N.eqb_neq. lia.
Qed.
(** The bearer is exactly the token, behind the first blank. *)
Lemma authorized_spec text app h :
  AuthToken_parse text = Some (as_token app) → authorized h (as_token app) = true ↔ presents_token app h.
Proof.
  intros [Hne Hgraphic]%token_graphic. pose proof (graphic_bytes _ Hgraphic) as Hbytes. unfold authorized, presents_token. split.
  - destruct (text_header AUTHORIZATION h) as [value|]; [|done]. destruct (split_once (chr " ") value) as [[scheme candidate]|] eqn:Hs; [|done].
    rewrite !andb_true_iff. intros [[[Hscheme _] _] Hm]. exists scheme. split; [|done]. apply split_once_Some in Hs as [-> _].
    unfold AuthToken_matches in Hm. apply andb_true_iff in Hm as [_ Hm%bool_decide_eq_true].
    rewrite <- Hbytes, Hm. rewrite graphic_bytes; [done|]. by rewrite <- Hm.
  - intros (scheme & -> & Hscheme). change ([chr " "] ++ ?s) with (chr " " :: s). rewrite split_once_first.
    + rewrite Hscheme. cbn [andb]. unfold AuthToken_matches. rewrite !bool_decide_eq_true_2 by done. rewrite andb_true_r.
      destruct (token_text (as_token app)) as [|c s] eqn:E; [done|]. cbn [is_empty negb andb]. apply negb_true_iff.
      rewrite Hbytes in Hgraphic. apply existsb_false. eapply Forall_impl; [exact Hgraphic|]. apply graphic_whitespace.
    + intros Hin%lowered_spaces. unfold eq_ignore_ascii_case in Hscheme. apply bool_decide_eq_true in Hscheme. rewrite Hscheme in Hin.
      vm_compute in Hin. set_solver.
Qed.
(** What a program asks the store. *)
Fixpoint asks (P : ∀ A, Request A → Prop) {A} (p : prog A) : Prop :=
  match p with Done _ => True | Ask r k => P _ r ∧ ∀ x, asks P (k x) end.
Lemma asks_all (P : ∀ A, Request A → Prop) {A} (p : prog A) : (∀ A r, P A r) → asks P p.
Proof. intros HP. induction p as [|B r k IH]; cbn; [done|]. by split. Qed.
Definition is_ping {A} (r : Request A) : Prop := match r with Ping => True | _ => False end.
Lemma health_pings app h data : hd_path h = lit "/v1/health" → asks (λ _, is_ping) (serve_client app h data) ∧
  ∀ data', serve_client app h data' = serve_client app h data.
Proof.
  intros Hp. unfold serve_client. destruct (refusal app h); [done|]. unfold client_handler. rewrite Hp.
  change (client_route _) with (Some ClientRoute.Health). cbn iota beta. destruct (gets _); [|done]. split; [|done]. cbn. split; [done|]. by intros [].
Qed.

(** C18. Nothing is asked of the store for a request that does not name the loopback
    controller as its host and, if it has one, as its origin; and without the exact bearer
    token nothing but a ping is asked, and the answer does not depend on the body. *)
Theorem store_needs_token text app h data (Htoken : AuthToken_parse text = Some (as_token app)) :
  asks (λ _ r, valid_host h (as_port app) = true ∧ valid_origin h (as_port app) = true ∧ (presents_token app h ∨ is_ping r))
    (serve_client app h data) ∧
  (¬ presents_token app h → ∀ data', serve_client app h data' = serve_client app h data).
Proof.
  destruct (decide (hd_path h = lit "/v1/health")) as [Hp|Hp].
  - destruct (health_pings app h data Hp) as [Hasks Hsame]. split; [|done]. unfold serve_client, refusal in *.
    destruct (valid_host _ _); [|done]. destruct (valid_origin _ _); [|done]. cbn [negb] in *.
    rewrite (bool_decide_eq_true_2 (hd_path h = _)) in * by done. cbn [negb andb] in *.
    revert Hasks. generalize (client_handler app h data ≫= λ r, Done match r with Ok a => a | Err e => failure_response e end).
    intros p. induction p as [|B r k IH]; cbn; [done|]. intros [Hr Hk]. split; [by auto|]. intros x. apply IH, Hk.
  - pose proof (authorized_spec _ _ h Htoken) as Hspec. unfold serve_client, refusal.
    destruct (valid_host _ _); [|by split]. destruct (valid_origin _ _); [|by split]. cbn [negb].
    rewrite (bool_decide_eq_false_2 (hd_path h = _)) by done. cbn [negb andb].
    destruct (authorized h (as_token app)); cbn [negb]; [|by split]. apply proj1 in Hspec. specialize (Hspec eq_refl).
    split; [|by intros []]. apply asks_all. by auto.
Qed.

(** ** Cleanup *)
(** A handler never answers with a document of some kind. *)
Definition quiet_about (P : Answer json_number → Prop) (r : reply_of) : Prop :=
  match r with Ok answer => ¬ P answer | Err _ => True end.
Lemma quiet_attempt {A} P (m : prog (result (ApiError json_number) A)) k :
  (∀ a, all_answers (quiet_about P) (k a)) → all_answers (quiet_about P) (attempt m k).
Proof.
  intros Hk. unfold attempt. induction m as [[a|e]|B r next IH]; cbn; [apply Hk|done|]. intros x. apply IH.
Qed.
Lemma quiet_checked {A} P (r : result (ApiError json_number) A) k :
  (∀ a, all_answers (quiet_about P) (k a)) → all_answers (quiet_about P) (checked r k).
Proof. destruct r; cbn; [by auto|done]. Qed.
Ltac quiet_step :=
  first
    [ progress intros
    | apply quiet_attempt
    | apply quiet_checked
    | done
    | by intros []
    | match goal with
      | |- all_answers _ (if ?x then _ else _) => destruct x
      | |- all_answers _ (let '_ := ?x in _) => destruct x
      | |- all_answers _ (match ?x with _ => _ end) => destruct x
      end ].
Ltac quiet_client :=
  unfold job_handler, pairing_handler, within, with_id, with_text, health, fleet, get_node_config, update_node_config,
    plan, submit_job, list_jobs, get_job, cancel_job, list_job_logs, download_job_log, list_job_artifacts,
    download_job_artifact, create_pairing, issue_pairing, get_pairing_status, report_pairing_failure, revoke_pairing,
    upload_snapshot, head_snapshot; repeat quiet_step.
Definition shows_cleanup (status : CleanupStatusV1) (answer : Answer json_number) : Prop :=
  an_document answer = Document.Cleanup status.
Lemma handled_cleanup app h data c answer status c' :
  executes (client_handler app h data) c (Ok answer) c' → shows_cleanup status answer →
  ∃ id, executes (get_job_cleanup id) c (Ok answer) c'.
Proof.
  intros He Hs. destruct (client_route (hd_path h)) as [[| |id| | |[] id| |[] id|sha]|] eqn:Hr;
    try solve [exfalso; apply (answers_hold (quiet_about (shows_cleanup status))) in He; [by apply He|];
      unfold client_handler; rewrite Hr; quiet_client].
  unfold client_handler in He. rewrite Hr in He. unfold job_handler in He.
  destruct (gets (hd_method h)); [|exfalso; destruct He as [[= ->] _]; discriminate Hs].
  unfold with_id in He. destruct (captured id) as [u|]; [by exists u|]. exfalso. destruct He as [[= ->] _]. discriminate Hs.
Qed.
Lemma served_shows {P : Answer json_number → Prop} app h data c response c' :
  executes (serve_client app h data) c response c' → P response →
  (∀ status code message, ¬ P (security_error status code message)) → (∀ e, ¬ P (failure_response e)) →
  executes (client_handler app h data) c (Ok response) c'.
Proof.
  unfold serve_client. intros He Hp Hs Hf. destruct (refusal app h) as [r|] eqn:Hr.
  - destruct He as [-> _]. exfalso. unfold refusal in Hr. repeat case_match; simplify_eq; by eapply Hs.
  - apply executes_bind in He as ([r|e] & c1 & He & [-> Hc]); [|by destruct (Hf e)].
    by eapply executes_more.
Qed.

(** The status that a snapshot of the tables makes. *)
Lemma snapshot_body_reads id : reads (
  stored ← get_job_prefer_job_id id; let run := run_id (st_run stored) in
  cleanup ← get_cleanup_tx run; completion ← get_completion_tx run; obligation ← get_cleanup_obligation_tx run;
  mret {| csn_stored := stored; csn_cleanup := cleanup; csn_completion := completion; csn_obligation := obligation |}).
Proof. apply snapshot_status_reads. Qed.
Definition removed (d : Db) (run : Uuid) (receipt : CleanupReceiptV1) : Prop :=
  (∃ row, db_cleanups d !! run = Some row ∧ cu_document row = receipt) ∧
  cl_outcome receipt = JobRootCleanupOutcomeV1.Removed.
Record status_from (d : Db) (status : CleanupStatusV1) : Prop := {
  sf_none : db_cleanups d !! csv_run_id status = None →
    csv_status status = CleanupStatusPhaseV1.Pending ∧ csv_job_root_deleted status = false;
  sf_some : ∀ row, db_cleanups d !! csv_run_id status = Some row →
    (csv_status status = CleanupStatusPhaseV1.Removed ↔ cl_outcome (cu_document row) = JobRootCleanupOutcomeV1.Removed) ∧
    (csv_job_root_deleted status = true ↔ cl_outcome (cu_document row) = JobRootCleanupOutcomeV1.Removed) ∧
    csv_relative_root status = Some (cl_relative_root (cu_document row)) ∧
    csv_observed_at status = Some (cl_observed_at (cu_document row)) ∧
    csv_terminal_ack status = Some (cl_terminal_ack (cu_document row))
}.
Lemma status_phase_removed outcome reason :
  cleanup_status_phase outcome reason = CleanupStatusPhaseV1.Removed ↔ outcome = Some JobRootCleanupOutcomeV1.Removed.
Proof. by destruct outcome as [[]|], reason as [[]|]. Qed.
Lemma status_phase_none reason : cleanup_status_phase None reason = CleanupStatusPhaseV1.Pending.
Proof. by destruct reason as [[]|]. Qed.
Lemma receipt_deleted d run receipt :
  receipted d run receipt → cl_job_root_deleted receipt = true ↔ cl_outcome receipt = JobRootCleanupOutcomeV1.Removed.
Proof.
  intros [Hv _ _ _]. unfold CleanupReceiptV1_validate in Hv. cbv zeta in Hv.
  rewrite !bind_unit_Ok, !reject_if_Ok, !negb_false_iff in Hv. destruct Hv as (_ & _ & _ & Hout & _).
  apply eqb_prop in Hout. rewrite Hout. apply bool_decide_eq_true.
Qed.
Lemma status_read env id c snapshot :
  reachable c → (run env (handle (GetCleanupSnapshot id)) c).2 = Ok snapshot →
  status_from (ctl_db (run env (handle (GetCleanupSnapshot id)) c).1) (cleanup_status snapshot).
Proof.
  intros Hc Hs. pose proof (reachable_receipts _ (reachable_calls _ _ Hc (rtc_once _ _ (called (GetCleanupSnapshot id) env c)))) as Hreceipts.
  destruct (read_from (GetCleanupSnapshot id) _ env c snapshot Hc eq_refl (snapshot_body_reads id) Hs) as (s & Ds & Hcs & Hok).
  rewrite <- Ds in Hreceipts |- *. apply reads_bind_Ok in Hok as (stored & s1 & Hstored & D1 & Hok); [|apply prefer_reads]. cbv zeta in Hok.
  apply reads_bind_Ok in Hok as (cleanup & s2 & Hcleanup & D2 & Hok); [|apply cleanup_reads].
  apply reads_bind_Ok in Hok as (completion & s3 & _ & D3 & Hok); [|apply completion_reads].
  apply reads_bind_Ok in Hok as (obligation & s4 & _ & D4 & [= <-]); [|apply obligation_reads].
  unfold get_cleanup_tx, mbind, tx_bind, get_db in Hcleanup. cbn in Hcleanup. rewrite D1 in Hcleanup.
  unfold cleanup_status. cbn [csn_stored csn_cleanup csn_obligation csn_completion].
  destruct (db_cleanups (tx_db s) !! run_id (st_run stored)) as [row|] eqn:Hrow.
  - unfold timestamp in Hcleanup. destruct (from_timestamp (cu_received_at row)) as [t|]; [|done]. injection Hcleanup as <-.
    pose proof (receipt_deleted _ _ _ (Hreceipts _ _ Hrow)) as Hdel.
    split; cbn -[cleanup_status_phase]; rewrite Hrow; [done|]. intros row' [= <-]. rewrite andb_true_iff, bool_decide_eq_true, Hdel, status_phase_removed.
    split_and!; try done; split; [by intros [= ?]|by intros ->|by intros [[= ?] _]|by intros ->].
  - injection Hcleanup as <-. split; cbn -[cleanup_status_phase]; rewrite Hrow; [|done]. intros _. by rewrite status_phase_none.
Qed.
Lemma status_served app h data c response status c' :
  reachable c → executes (serve_client app h data) c response c' → shows_cleanup status response →
  ∃ cx, rtc calls c cx ∧ rtc calls cx c' ∧ status_from (ctl_db cx) status.
Proof.
  intros Hc He Hs. apply (served_shows (P := shows_cleanup status)) in He; [|done|by intros ? ? ? [=]|by intros ? [=]].
  destruct (handled_cleanup _ _ _ _ _ _ _ He Hs) as [id He']. unfold get_job_cleanup, reply in He'.
  apply (client_single _ (λ snapshot, Ok (respond 200 (Document.Cleanup (cleanup_status snapshot))))) in He'
    as (c1 & env & snapshot & Hc1 & Ha & [= <-] & Hc').
  injection Hs as <-. eexists. split_and!; [|exact Hc'|apply status_read; [by eapply reachable_calls|done]].
  eapply rtc_r; [exact Hc1|apply called].
Qed.
Lemma kept_cleanups c c' : reachable c → rtc calls c c' → db_cleanups (ctl_db c) ⊆ db_cleanups (ctl_db c').
Proof.
  intros Hc Hcalls. apply (ek_cleanups (ctl_db c) (ctl_db c')), (controls_closed evidence_kept);
    [intros f d d' _; apply change_evidence|done..].
Qed.

(** C17. A cleanup status that says that the job's root was removed is backed by evidence
    that lasts.  It says so, and that the root was deleted, exactly when the receipt of a
    removal is stored for the run: never before one is, always once one is.  The stored
    receipt is valid and acknowledges the stored completion of the run, the status repeats
    its root, time and acknowledgement, and every later status of the run says the same. *)
Theorem cleanup_status_truthful app h data c response status c' (Hreach : reachable c)
    (Hserved : executes (serve_client app h data) c response c')
    (Hstatus : an_document response = Document.Cleanup status) :
  (csv_status status = CleanupStatusPhaseV1.Removed ↔ csv_job_root_deleted status = true) ∧
  (∀ receipt, removed (ctl_db c) (csv_run_id status) receipt → csv_status status = CleanupStatusPhaseV1.Removed) ∧
  (csv_status status = CleanupStatusPhaseV1.Removed →
    ∃ receipt, removed (ctl_db c') (csv_run_id status) receipt ∧ receipted (ctl_db c') (csv_run_id status) receipt ∧
      csv_relative_root status = Some (cl_relative_root receipt) ∧
      csv_observed_at status = Some (cl_observed_at receipt) ∧
      csv_terminal_ack status = Some (cl_terminal_ack receipt) ∧
      ∀ h' data' c1 response' status' c2, rtc calls c' c1 → executes (serve_client app h' data') c1 response' c2 →
        an_document response' = Document.Cleanup status' → csv_run_id status' = csv_run_id status →
        csv_status status' = CleanupStatusPhaseV1.Removed ∧ csv_observed_at status' = csv_observed_at status ∧
        csv_terminal_ack status' = csv_terminal_ack status).
Proof.
  destruct (status_served _ _ _ _ _ _ _ Hreach Hserved Hstatus) as (cx & Hcx & Hx & [Hnone Hsome]).
  pose proof (reachable_calls _ _ Hreach Hcx) as Hrx. pose proof (reachable_calls _ _ Hrx Hx) as Hr'.
  destruct (db_cleanups (ctl_db cx) !! csv_run_id status) as [row|] eqn:Hrow.
  - clear Hnone. destruct (Hsome row eq_refl) as (Hstate & Hdel & Hroot & Htime & Hack). split_and!; [tauto| |].
    + intros receipt ((row' & Hrow' & <-) & Hout). apply Hstate. apply (lookup_weaken _ (db_cleanups (ctl_db cx))) in Hrow';
        [congruence|by apply kept_cleanups].
    + intros Hout%Hstate. exists (cu_document row).
      pose proof (lookup_weaken _ _ _ _ Hrow (kept_cleanups _ _ Hrx Hx)) as Hrow'.
      split_and!; try done; [split; [by exists row|done]|by apply reachable_receipts|].
      intros h' data' c1 response' status' c2 Hc1 Hserved' Hstatus' Hsame.
      pose proof (reachable_calls _ _ Hr' Hc1) as Hr1.
      destruct (status_served _ _ _ _ _ _ _ Hr1 Hserved' Hstatus') as (cy & Hcy & _ & [_ Hsome']).
      assert (db_cleanups (ctl_db cy) !! csv_run_id status' = Some row) as Hrow1.
      { rewrite Hsame. eapply lookup_weaken; [exact Hrow'|]. etrans; [by apply kept_cleanups|by apply kept_cleanups]. }
      destruct (Hsome' row Hrow1) as (Hstate' & _ & _ & Htime' & Hack'). split_and!; [by apply Hstate'|congruence|congruence].
  - destruct (Hnone eq_refl) as [-> ->]. split_and!; [done| |done]. intros receipt ((row & Hrow' & _) & _).
    apply (lookup_weaken _ (db_cleanups (ctl_db cx))) in Hrow'; [congruence|by apply kept_cleanups].
Qed.

(** ** Cancellation *)

(** A job of an answer. *)
Definition shows_job (view : JobView) (answer : Answer json_number) : Prop :=
  match an_document answer with
  | Document.Job v => v = view
  | Document.Jobs views => view ∈ views
  | Document.Fleet r => view ∈ flr_recent_jobs r
  | _ => False
  end.
(** A view of a row. *)
Definition seen_in (d : Db) (view : JobView) : Prop :=
  ∃ run row stored, db_jobs d !! run = Some row ∧ decode_job_row row = Ok stored ∧ JobView_from stored = view.
Lemma handled_job app h data c answer view c' :
  hd_method h = Method.Get → executes (client_handler app h data) c (Ok answer) c' → shows_job view answer →
  (∃ id, executes (get_job id) c (Ok answer) c') ∨ executes list_jobs c (Ok answer) c' ∨ executes fleet c (Ok answer) c'.
Proof.
  intros Hm He Hs. destruct (client_route (hd_path h)) as [[| |id| | |[] id| |[] id|sha]|] eqn:Hr;
    try solve [exfalso; apply (answers_hold (quiet_about (shows_job view))) in He; [by apply He|];
      unfold client_handler; rewrite Hr; quiet_client].
  all: unfold client_handler, job_handler in He; rewrite Hr in He; cbv zeta in He; rewrite ?Hm in He.
  - by right; right.
  - right; by left.
  - left. change (gets Method.Get) with true in He. cbn iota in He. unfold with_id in He.
    destruct (captured id) as [u|]; [by exists u|]. exfalso. destruct He as [[= ->] _]. exact Hs.
  - exfalso. change (Method.Get == Method.Post) with false in He. destruct He as [[= ->] _]. exact Hs.
Qed.
Lemma seen_row d run row stored : db_jobs d !! run = Some row → decode_job_row row = Ok stored → seen_in d (JobView_from stored).
Proof. intros Hrow Hd. by exists run, row, stored. Qed.
Lemma list_jobs_seen limit env s jobs :
  (list_jobs_tx limit env s).2 = Ok jobs → ∀ view, view ∈ map JobView_from jobs → seen_in (tx_db s) view.
Proof.
  intros Hj view Hin. apply list_elem_of_fmap in Hin as (stored & -> & Hin). unfold list_jobs_tx in Hj.
  apply reads_bind_Ok in Hj as (d & s1 & [= <-] & D1 & Hj); [|apply reads_get_db]. cbv zeta in Hj.
  apply map_tx_Ok in Hj; [|intros e; apply reads_liftr]. apply list_elem_of_lookup_1 in Hin as [i Hi].
  destruct (Forall2_lookup_r _ _ _ _ _ Hj Hi) as ([run row] & Hrow & s2 & _ & Hd). cbn in Hd.
  apply list_elem_of_lookup_2, elem_of_take in Hrow as (k & Hk & _). apply list_elem_of_lookup_2 in Hk.
  rewrite sort_by_perm in Hk. apply elem_of_map_to_list in Hk. by eapply seen_row.
Qed.
Lemma snapshot_jobs env c limit snapshot :
  reachable c → (run env (handle (ReadFleetSnapshot limit)) c).2 = Ok snapshot →
  ∃ s, tx_db s = ctl_db (run env (handle (ReadFleetSnapshot limit)) c).1 ∧ (list_jobs_tx limit env s).2 = Ok (fl_recent_jobs snapshot).
Proof.
  intros Hc Hread. pose proof (run_moves moved env (handle (ReadFleetSnapshot limit)) c _
    (wp_snapshot_read limit env {| tx_db := ctl_db c; tx_committed := ctl_db c; tx_files := ctl_files c; tx_tick := 0 |}
      (reachable_consistent c Hc))) as Hrun.
  destruct (run env _ c) as [c' res]. cbn in Hread |- *. subst res. destruct Hrun as (_ & _ & Hok).
  destruct (Hok _ eq_refl) as (s' & (s0 & D0 & _ & Hs) & -> & _). rewrite <- D0.
  apply reads_bind_Ok in Hs as (revision & s1 & _ & D1 & Hs); [|unfold read_safe_fleet_revision; reads_auto].
  apply reads_bind_Ok in Hs as (observed & s2 & _ & D2 & Hs); [|apply reads_utc_now]. unfold read_fleet_snapshot_tx in Hs.
  apply reads_bind_Ok in Hs as (views & s3 & _ & D3 & Hs); [|unfold list_all_node_views; reads_auto].
  apply reads_bind_Ok in Hs as (nodes & s4 & _ & D4 & Hs); [|apply reads_map_tx, view_node_reads].
  apply reads_bind_Ok in Hs as (node_views & s5 & _ & D5 & Hs); [|apply fleet_views_reads].
  apply reads_bind_Ok in Hs as (jobs & s6 & Hjobs & _ & [= <-]); [|apply list_jobs_reads].
  exists s5. split; [congruence|exact Hjobs].
Qed.
Lemma served_job app h data c response view c' :
  reachable c → hd_method h = Method.Get → executes (serve_client app h data) c response c' → shows_job view response →
  ∃ cx, rtc calls c cx ∧ rtc calls cx c' ∧ seen_in (ctl_db cx) view.
Proof.
  intros Hc Hm He Hs. apply (served_shows (P := shows_job view)) in He; [|done|by intros ? ? ? []|by intros ? []].
  destruct (handled_job _ _ _ _ _ _ _ Hm He Hs) as [[id He']|[He'|He']].
  - apply (client_single _ (λ stored, Ok (respond 200 (Document.Job (JobView_from stored))))) in He'
      as (c1 & env & stored & Hc1 & Ha & [= <-] & Hc'). cbn in Hs. subst view. eexists. split_and!; [|exact Hc'|].
    { eapply rtc_r; [exact Hc1|apply called]. }
    destruct (read_from (GetJob id) _ env c1 stored (reachable_calls _ _ Hc Hc1) eq_refl (prefer_reads id) Ha)
      as (s & <- & Hcs & Hok). destruct (prefer_Ok _ _ _ _ Hcs Hok) as (row & Hrow & Hd). by eapply seen_row.
  - apply (client_single _ (λ jobs, Ok (respond 200 (Document.Jobs (map JobView_from jobs))))) in He'
      as (c1 & env & jobs & Hc1 & Ha & [= <-] & Hc'). eexists. split_and!; [|exact Hc'|].
    { eapply rtc_r; [exact Hc1|apply called]. }
    destruct (read_from (ListJobs 100) _ env c1 jobs (reachable_calls _ _ Hc Hc1) eq_refl (list_jobs_reads 100) Ha)
      as (s & <- & Hcs & Hok). by eapply list_jobs_seen.
  - apply (client_single _ (λ snapshot, Ok (respond 200 (Document.Fleet (fleet_response snapshot))))) in He'
      as (c1 & env & snapshot & Hc1 & Ha & [= <-] & Hc'). eexists. split_and!; [|exact Hc'|].
    { eapply rtc_r; [exact Hc1|apply called]. }
    destruct (snapshot_jobs env c1 20 snapshot (reachable_calls _ _ Hc Hc1) Ha) as (s & <- & Hok). by eapply list_jobs_seen.
Qed.
(** The job of an identifier is the one that is filed under it. *)
Lemma decode_found row : decode_job_row row ≠ Err StoreError.NotFound.
Proof.
  unfold decode_job_row, reject_if, map_err, mbind, result_bind. intros Hd. cbv zeta in Hd.
  repeat (case_match; simplify_eq/=; try done).
Qed.
Lemma resolved_job env s run row stored :
  jobs_named (tx_db s) → db_jobs (tx_db s) !! run = Some row →
  (get_job_prefer_job_id (jr_job_id row) env s).2 = Ok stored → decode_job_row row = Ok stored.
Proof.
  intros Hn Hrow. unfold get_job_prefer_job_id, mbind, tx_bind, get_db, liftr. cbn. unfold job_by_job_id.
  destruct (List.find _ _) as [[k r]|] eqn:Hf.
  - apply find_some in Hf as [Hin Hid%bool_decide_eq_true]. apply list_elem_of_In, elem_of_map_to_list in Hin. cbn in Hid.
    assert (k = run) as -> by (by eapply (jn_unique _ Hn)). assert (r = row) as -> by congruence. cbn.
    pose proof (decode_found row). destruct (decode_job_row row) as [st|[]]; cbn; done.
  - pose proof (find_none _ _ Hf (run, row)) as Hne. cbn in Hne. rewrite bool_decide_eq_true_2 in Hne by done.
    discriminate Hne. by apply list_elem_of_In, elem_of_map_to_list.
Qed.
Lemma update_returns env s stored a :
  (update_job_cas stored env s).2 = Ok a → a = set_st_version (u64_saturating_add (st_version stored) 1) stored.
Proof.
  unfold update_job_cas. intros (now & s1 & _ & Ha)%tx_steps. apply tx_steps in Ha as (db & s2 & _ & Ha).
  destruct (db_jobs db !! _) as [row|]; [|done]. destruct (_ == _); [|done].
  apply tx_steps in Ha as (u & s3 & _ & Ha). by injection Ha as <-.
Qed.
Lemma commit_cancel_returns env s stored a :
  (commit_cancel stored env s).2 = Ok a → a = set_st_version (u64_saturating_add (st_version stored) 1) stored.
Proof.
  unfold commit_cancel. intros (u & s1 & _ & Ha)%tx_steps. apply tx_steps in Ha as (b & s2 & Hb & Ha).
  apply tx_steps in Ha as (v & s3 & _ & Ha). injection Ha as <-. apply (update_returns env s1). by rewrite Hb.
Qed.
(** What a cancellation makes of the job it finds. *)
Definition cancellation (stored after : StoredJob) : Prop :=
  match run_state (st_run stored) with
  | JobState.Queued => ∃ now run, Run_transition now JobState.Cancelled (st_run stored) = Ok run ∧
      after = set_st_version (u64_saturating_add (st_version stored) 1) (set_st_run run stored)
  | JobState.Preparing | JobState.Running | JobState.Verifying =>
      after = if st_cancel_requested stored then stored
              else set_st_version (u64_saturating_add (st_version stored) 1) (set_st_cancel_requested true stored)
  | _ => False
  end.
Lemma cancel_effect env c id version after :
  reachable c → (run env (handle (CancelJob id version)) c).2 = Ok after →
  ∃ s stored, jobs_follow (ctl_db c) (tx_db s) ∧ jobs_named (tx_db s) ∧ consistent (tx_db s) ∧
    (get_job_prefer_job_id id env s).2 = Ok stored ∧ is_some_and version (λ v, st_version stored != v) = false ∧
    cancellation stored after.
Proof.
  intros Hc. set (s0 := {| tx_db := ctl_db c; tx_committed := ctl_db c; tx_files := ctl_files c; tx_tick := 0 |}).
  intros Ha. assert ((RunControl.cancel_job id version env s0).2 = Ok after) as Hok.
  { unfold run in Ha. cbn [handle] in Ha. fold s0 in Ha. by destruct (RunControl.cancel_job _ _ _ _) as [? []]. }
  unfold RunControl.cancel_job in Hok. apply tx_steps in Hok as (n & s1 & Hexp & Hok).
  destruct (wp_returns moved expire_now env s0 (λ _ s, consistent (tx_db s)) s1 n) as [[Hmoved _ _] Hc1];
    [by apply (wp_expire_now moved_leases); [apply reachable_consistent|]|done|].
  apply reads_bind_Ok in Hok as (stored & s2 & Hstored & D2 & Hok); [|apply prefer_reads].
  apply tx_steps in Hok as (u & s3 & Hguard & Hok).
  exists s1, stored. split_and!.
  - exact (moved_jobs _ _ _ Hmoved).
  - exact (moved_named _ _ _ Hmoved (reachable_named _ Hc)).
  - exact Hc1.
  - exact Hstored.
  - unfold guard_or in Hguard. by destruct (is_some_and _ _).
  - unfold cancellation. destruct (run_state (st_run stored)); try done.
    1: { apply tx_steps in Hok as (stored' & s4 & Htrans & Hok).
      assert ((transition_run_to JobState.Cancelled StoreError.InvalidTransition stored env s3).2 = Ok stored') as Ht by by rewrite Htrans.
      unfold transition_run_to in Ht. apply tx_steps in Ht as (now & s5 & _ & Ht). apply tx_steps in Ht as (run & s6 & Hrun & [= <-]).
      unfold liftr in Hrun. injection Hrun as _ Hrun. apply map_err_Ok in Hrun. exists now, run. split; [done|].
      by apply commit_cancel_returns in Hok. }
    all: destruct (st_cancel_requested stored); [by injection Hok as <-|by apply commit_cancel_returns in Hok].
Qed.
Lemma client_error_refuses e : ae_status (client_error e) ≠ 200%N.
Proof. destruct e; try done. match goal with e : ScheduleError.t |- _ => by destruct e end. Qed.
Lemma refusal_refuses app h r : refusal app h = Some r → an_status r ≠ 200%N.
Proof. unfold refusal. intros Hr. repeat case_match; by simplify_eq. Qed.
(** A cancellation that succeeds is one call of the store. *)
Lemma served_cancel app h data c response c' segment id version :
  executes (serve_client app h data) c response c' → an_status response = 200%N →
  client_route (hd_path h) = Some (ClientRoute.Job JobRoute.Cancel segment) → captured segment = Some id →
  parse_if_match h = Ok version →
  ∃ c1 env after, rtc calls c c1 ∧ (run env (handle (CancelJob id version)) c1).2 = Ok after ∧
    an_document response = Document.Job (JobView_from after).
Proof.
  unfold serve_client. intros He Hstatus Hroute Hid Hmatch. destruct (refusal app h) as [r|] eqn:Hr.
  { destruct He as [-> _]. by destruct (refusal_refuses _ _ _ Hr). }
  apply executes_bind in He as (res & c1 & He & [Hres _]). subst response. unfold client_handler in He. rewrite Hroute in He. cbv zeta in He.
  unfold job_handler in He. destruct (hd_method h == Method.Post); [|by destruct He as [-> _]].
  unfold with_id in He. rewrite Hid in He. unfold cancel_job in He. rewrite Hmatch in He. cbn [checked] in He.
  apply executes_attempt in He as (a & c2 & Ha & Hk). apply client_call in Ha as (c3 & env & Hc & -> & _).
  destruct (run env (handle (CancelJob id version)) c3) as [c4 [after|e]] eqn:E; cbn in Hk; destruct Hk as [-> _].
  - exists c3, env, after. by rewrite E.
  - by destruct (client_error_refuses e).
Qed.
(** The view that a cancellation of a run leaves, from the one that was seen. *)
Definition cancelled_as_seen (seen view : JobView) : Prop :=
  jv_job view = jv_job seen ∧ jv_plan_binding view = jv_plan_binding seen ∧
  match run_state (jv_run seen) with
  | JobState.Queued =>
      (∃ now, Run_transition now JobState.Cancelled (jv_run seen) = Ok (jv_run view)) ∧
      jv_version view = (jv_version seen + 1)%N
  | JobState.Preparing | JobState.Running | JobState.Verifying =>
      jv_run view = jv_run seen ∧ jv_cancel_requested view = true ∧
      jv_version view = if jv_cancel_requested seen then jv_version seen else (jv_version seen + 1)%N
  | _ => False
  end.
Lemma cancellation_seen stored after :
  (Z.of_N (st_version stored) < i64_max)%Z → cancellation stored after →
  cancelled_as_seen (JobView_from stored) (JobView_from after).
Proof.
  intros Hv. assert (u64_saturating_add (st_version stored) 1 = (st_version stored + 1)%N) as Hnext
    by (unfold u64_saturating_add, u64_max, i64_max in *; lia).
  unfold cancellation, cancelled_as_seen. cbn. destruct (run_state (st_run stored)); try done.
  { intros (now & run & Hrun & ->). cbn. split_and!; [done|done|by exists now|exact Hnext]. }
  all: destruct (st_cancel_requested stored) eqn:Hr; intros ->; cbn; rewrite ?Hnext, ?Hr; done.
Qed.
(** A version stands for a view of the run. *)
Lemma same_version row row' :
  row_follows row row' → (0 ≤ jr_version row)%Z → (0 ≤ jr_version row')%Z → (jr_version row < i64_max)%Z →
  as_u64 (jr_version row') = as_u64 (jr_version row) → row' = row.
Proof. intros Hf Hp Hp' Hm Hv. destruct (rf_version _ _ Hf) as [?|?]; [done|]. unfold as_u64 in Hv. lia. Qed.

(** C16. A run is only cancelled as it was seen.  If a client read a job, in whatever list
    or answer, and later cancels it under its identifier with the version it saw in
    [If-Match], and this succeeds, then the cancelled run was still the one that the client
    saw, and what is answered is that view, cancelled: at once if it was queued, asked for
    if it was executing, and unchanged if that had been asked for already. *)
Theorem cancel_if_match app read_head read_data c read c1 seen c2 h data response c3 segment
    (Hreach : reachable c) (Hread : executes (serve_client app read_head read_data) c read c1)
    (Hget : hd_method read_head = Method.Get) (Hseen : shows_job seen read)
    (Hversion : (Z.of_N (jv_version seen) < i64_max)%Z) (Hlater : rtc calls c1 c2)
    (Hserved : executes (serve_client app h data) c2 response c3)
    (Hroute : client_route (hd_path h) = Some (ClientRoute.Job JobRoute.Cancel segment))
    (Hid : captured segment = Some (job_id (jv_job seen))) (Hmatch : parse_if_match h = Ok (Some (jv_version seen)))
    (Hok : an_status response = 200%N) :
  ∃ view, an_document response = Document.Job view ∧ cancelled_as_seen seen view.
Proof.
  destruct (served_job _ _ _ _ _ _ _ Hreach Hget Hread Hseen) as (cx & Hcx & Hx & run & row & stored & Hrow & Hd & <-).
  pose proof (reachable_calls _ _ Hreach Hcx) as Hrx.
  destruct (served_cancel _ _ _ _ _ _ _ _ _ Hserved Hok Hroute Hid Hmatch) as (c4 & env & after & Hc4 & Hrun & Hdoc).
  assert (rtc calls cx c4) as Hx4 by (etrans; [exact Hx|etrans; [exact Hlater|exact Hc4]]).
  exists (JobView_from after). split; [exact Hdoc|].
  destruct (cancel_effect _ _ _ _ _ (reachable_calls _ _ Hrx Hx4) Hrun) as (s & found & Hjobs & Hnamed & Hcons & Hfound & Hguard & Hcancel).
  assert (jobs_follow (ctl_db cx) (tx_db s)) as Hfollow.
  { etrans; [|exact Hjobs]. apply (controls_closed jobs_follow); [intros f d d' _; apply change_jobs|done..]. }
  destruct (Hfollow _ _ Hrow) as (row' & Hrow' & Hrf).
  pose proof (decode_Ok _ _ Hd) as Hst. subst stored. cbn in Hid, Hmatch, Hfound, Hguard, Hversion.
  assert (jr_job_id row' = job_id (jr_job row)) as Hname.
  { rewrite (jn_job _ Hnamed _ _ Hrow'). f_equal. apply (rf_job _ _ Hrf). }
  rewrite <- Hname in Hfound. pose proof (resolved_job _ _ _ _ _ Hnamed Hrow' Hfound) as Hd'.
  rewrite negb_bool_decide_false in Hguard. rewrite (decode_Ok _ _ Hd') in Hguard. cbn in Hguard.
  pose proof (Changes.cs_version _ (reachable_consistent _ Hrx) _ _ Hrow) as Hv. pose proof (Changes.cs_version _ Hcons _ _ Hrow') as Hv'.
  assert (row' = row) as -> by (apply same_version; [done|lia|lia|unfold as_u64 in Hversion; lia|done]).
  rewrite Hd in Hd'. injection Hd' as <-. by apply cancellation_seen.
Qed.
End client.

(** ** Witnesses *)

(** Crates for the requests of the scenario: authorities and URIs with a port, and no bodies. *)
Definition text_authority (s : rstr) : option (rstr * option N) :=
  match split_once (chr ":") s with
  | Some (host, port) => Some (host, parse_u16 port)
  | None => Some (s, None)
  end.
#[local] Instance client_crates : ClientCrates := {|
  parse_node_config_update _ := None; parse_plan_request _ := None; parse_submit_request _ := None;
  parse_create_pairing _ := None; parse_pairing_failure _ := None;
  parse_authority := text_authority;
  parse_uri s := (λ rest, (Some (lit "http"), Some rest)) <$> strip_prefix (lit "http://") s;
  explanation_to_value _ := None; phase_to_value _ := Null; json_i64 z := Z.to_N z : json_number
|}.
Definition token : rstr := replicate 64 (chr "a").
Definition client_app : AppState := AppState_new {| token_text := token |} 7767 1%N.
Definition client_head (m : Method.t) (path : rstr) (bearer : rstr) (more : list (rstr * option rstr)) : Head :=
  {| hd_method := m; hd_path := path;
     hd_headers := [(HOST, Some (lit "127.0.0.1:7767")); (AUTHORIZATION, Some (lit "Bearer " ++ bearer))] ++ more |}.
Definition asked_alone (second : Z) (base : N) (h : Head) (c : Controller) : Answer json_number * Controller :=
  serve_at (at_second second base) (serve_client client_app h []) c.
Lemma asked_executes second base h c :
  executes (serve_client client_app h []) c (asked_alone second base h c).1 (asked_alone second base h c).2.
Proof. apply serve_at_executes. Qed.

(** A request with another token. *)
Definition stranger : Head := client_head Method.Post (lit "/v1/pairings/00000000-0000-0000-0000-000000000065/revoke") (lit "guess") [].
Lemma store_needs_token_witness :
  asks (λ _ r, valid_host stranger 7767 = true ∧ valid_origin stranger 7767 = true ∧ (presents_token client_app stranger ∨ is_ping r))
    (serve_client client_app stranger []) ∧
  (asked_alone 17 800 stranger running).1 =
    security_error 401 (lit "unauthorized") (lit "a valid controller bearer token is required").
Proof.
  split; [|vm_compute; reflexivity].
  exact (proj1 (store_needs_token token client_app stranger [] ltac:(vm_compute; reflexivity))).
Defined.

(** The status of the cleaned run. *)
Definition job_segment : rstr := uuid_display (job_id sample_job).
Definition job_path (tail : rstr) : rstr := lit "/v1/jobs/" ++ job_segment ++ tail.
Definition cleanup_head : Head := client_head Method.Get (job_path (lit "/cleanup")) token [].
Definition cleanup_shown : Answer json_number := (asked_alone 26 1600 cleanup_head cleaned).1.
Definition shown_status : option CleanupStatusV1 :=
  match an_document cleanup_shown with Document.Cleanup status => Some status | _ => None end.
Lemma status_shown : ∃ status, an_document cleanup_shown = Document.Cleanup status ∧ csv_run_id status = 503%N ∧
  csv_status status = CleanupStatusPhaseV1.Removed.
Proof.
  assert (match shown_status with Some status => (csv_run_id status, csv_status status) | None => (0%N, CleanupStatusPhaseV1.Pending) end
    = (503%N, CleanupStatusPhaseV1.Removed)) as Hs by (vm_compute; reflexivity).
  unfold shown_status in Hs. destruct (an_document cleanup_shown); try discriminate Hs. injection Hs as Hrun Hstatus. by eexists.
Qed.
Lemma cleanup_status_truthful_witness : ∃ status receipt,
  an_document cleanup_shown = Document.Cleanup status ∧ csv_job_root_deleted status = true ∧
  removed (ctl_db (asked_alone 26 1600 cleanup_head cleaned).2) (csv_run_id status) receipt.
Proof.
  destruct status_shown as (status & Hdoc & Hrun & Hremoved).
  destruct (cleanup_status_truthful client_app cleanup_head [] cleaned cleanup_shown status _ cleaned_reachable
    (asked_executes 26 1600 cleanup_head cleaned) Hdoc) as (Hiff & _ & Hevidence).
  destruct (Hevidence Hremoved) as (receipt & Hreceipt & _). exists status, receipt.
  split; [exact Hdoc|split; [exact (proj1 Hiff Hremoved)|exact Hreceipt]].
Defined.

(** The running job, as it is read and then cancelled. *)
Definition read_head : Head := client_head Method.Get (job_path []) token [].
Definition cancel_head : Head :=
  client_head Method.Post (job_path (lit "/cancel")) token [(lit "if-match", Some (QUOTE ++ lit "2" ++ QUOTE))].
Definition job_read : Answer json_number := (asked_alone 17 800 read_head running).1.
Definition job_left : Controller := (asked_alone 17 800 read_head running).2.
Definition job_cancelled : Answer json_number := (asked_alone 18 900 cancel_head job_left).1.
Definition job_shown : option JobView := match an_document job_read with Document.Job view => Some view | _ => None end.
Lemma job_seen : ∃ seen, shows_job seen job_read ∧ jv_version seen = 2%N ∧ job_id (jv_job seen) = job_id sample_job ∧
  run_state (jv_run seen) = JobState.Running.
Proof.
  assert (match job_shown with Some v => (jv_version v, job_id (jv_job v), run_state (jv_run v)) | None => (0%N, 0%N, JobState.Queued) end
    = (2%N, job_id sample_job, JobState.Running)) as Hs by (vm_compute; reflexivity).
  unfold job_shown in Hs. destruct (an_document job_read) eqn:E; try discriminate Hs. injection Hs as Hv Hj Hr.
  eexists. split; [unfold shows_job; rewrite E; reflexivity|]. by split_and!.
Qed.
Lemma cancel_if_match_witness : ∃ seen view, an_document job_cancelled = Document.Job view ∧ cancelled_as_seen seen view ∧
  run_state (jv_run seen) = JobState.Running.
Proof.
  destruct job_seen as (seen & Hseen & Hversion & Hid & Hstate).
  assert ((Z.of_N (jv_version seen) < i64_max)%Z) as Hbound by (rewrite Hversion; vm_compute; reflexivity).
  assert (captured job_segment = Some (job_id (jv_job seen))) as Hcap
    by (rewrite Hid; vm_compute; reflexivity).
  assert (parse_if_match cancel_head = Ok (Some (jv_version seen))) as Hmatch by (rewrite Hversion; vm_compute; reflexivity).
  destruct (cancel_if_match client_app read_head [] running job_read job_left seen job_left cancel_head [] job_cancelled
    (asked_alone 18 900 cancel_head job_left).2 job_segment running_reachable
    (asked_executes 17 800 read_head running) eq_refl Hseen Hbound (rtc_refl _ _)
    (asked_executes 18 900 cancel_head job_left) ltac:(vm_compute; reflexivity) Hcap Hmatch ltac:(vm_compute; reflexivity))
    as (view & Hdoc & Hcancelled).
  exists seen, view. split; [exact Hdoc|split; [exact Hcancelled|exact Hstate]].
Defined.
